(* ===== verification/_CoqProject ===== *)
-Q . S2P
Prelude.v
Toid.v
BigRat.v
Amount.v
Price.v
PriceParse.v
Crc16.v
Strkey.v
Xdr.v
Pools.v
Edges.v
Graph.v
GraphRefine.v
GraphVerify.v
Search.v
Consume.v
SearchProofs.v
PathFinding.v
PathPrices.v
Checkpoints.v
Bitmap.v
Trie.v
TrieMemory.v
LedgerKeys.v
HexText.v
XdrCodec.v
XdrStreams.v
TrieXdr.v
Muxed.v
Normalize.v
Keypair.v
Transactions.v
TxProofs.v
TxAssets.v
TxOperations.v
TxOpProofs.v
Challenge.v
ChallengeProofs.v
ChallengeComplete.v
Compactor.v
StateVerifier.v
CheckpointReader.v
CheckpointSpec.v
CheckpointProofs.v
CheckpointVerify.v
HistoryDb.v
IngestFsm.v
IngestProofs.v
IngestCluster.v
IngestLive.v
IngestReingest.v
TxSub.v
TxSubProofs.v
CaptiveCore.v
CaptiveProofs.v
CaptiveIngest.v
LedgerReader.v
LedgerReaderProofs.v
