(* ===== verification/Prelude.v ===== *)
(** * Verification of the core of the Hcnet Go monorepo

    The repository is a set of Go libraries and services around the Hcnet
    ledger.  This development models the parts that compute or keep state: the
    order book and its path finder (exp/orderbook), the arithmetic of amounts,
    prices and liquidity pools (amount, price, xdr/price.go, support/ordered),
    the textual identities (strkey, xdr assets, account ids, muxed accounts and
    signer keys), the total order ids (toid), the checkpoint arithmetic of
    history archives (historyarchive), the bitmap and trie indexes of
    exp/lighthorizon/index/types, the identity and compaction of ledger entry
    changes (xdr ledger keys, ingest), the reader of checkpoints and the verifier
    of a stored state (ingest, ingest/verify), the captive core that ledgers are
    streamed from (ingest/ledgerbackend), the transactions and web
    authentication challenges of txnbuild with the keys that sign them (keypair),
    and of aurora the ingestion state machine (services/aurora/internal/ingest)
    and the submission of transactions (services/aurora/internal/txsub).

    ** How the parts interact

    strkey and its checksum turn public keys into text; [Xdr] builds account
    ids and assets on it, and the text of an asset is the key under which the
    order book interns it.  [Price] rounds the payments of offers, [Pools] those
    of pools; [Edges] keeps the offers and the pool of one pair of assets,
    [Graph] the two tables of edges (by asset sold and by asset bought) and the
    batches that change them, [Search] the query that walks the tables.
    [LedgerKeys] gives ledger entries the byte strings under which [Compactor]
    caches their changes; [Checkpoints] and [Bitmap] share ledger sequence
    numbers only.  [CheckpointReader] reads the records of [XdrStreams] and marks
    the byte strings of [LedgerKeys] as seen; [StateVerifier] takes the changes of
    a reader and compares the forms of [Normalize]; [CheckpointVerify] composes
    the two.  [Transactions] takes its addresses from [Muxed] and its
    signatures from [Keypair]; [Challenge] is a client of its builders, parsers
    and hashes.  [IngestFsm] runs the states of one ingesting instance against
    the database of [HistoryDb], and uses the checkpoints of [Checkpoints];
    [IngestCluster] interleaves several instances over one database, and
    [CaptiveIngest] gives each of them the back end of [CaptiveCore], whose
    replays begin at the checkpoints of [Checkpoints].  [TxSub] is on its own: it
    reads the history that ingestion writes through an interface.

    ** Files

    - [Prelude] (this file): machine integers as [Z] with explicit wrap-around
      ([uwrap], [swrap]), bytes and strings, the result type [res] of a Go call
      (value, error, panic) with its monad notation, tactics, hint databases and
      shared lemmas.
    - [Toid]: toid/main.go.  Ids packed into an int64, ledger ranges.
    - [BigRat]: what the code uses of math/big and of decimal strings.
    - [Amount]: amount/main.go.
    - [Price]: support/ordered/math.go; the rounding arithmetic of price/main.go
      and the comparison of xdr/price.go over 128-bit products.
    - [PriceParse]: the continued fraction parser of price/main.go.
    - [Crc16], [Strkey]: strkey/internal/crc16/main.go and strkey/main.go, with
      base32 as encoding/base32 documents it.
    - [Xdr]: xdr/account_id.go, xdr/asset.go, and the offer and pool entries.
    - [Pools]: exp/orderbook/pools.go over the 256-bit integers of an external
      library, given by the class [Uint256Ops] and its laws.
    - [Edges]: exp/orderbook/edges.go with the slice helpers it uses.
    - [Graph], [GraphRefine], [GraphVerify]: exp/orderbook/graph.go (state,
      updates, observers, [Verify]), batch.go and utils.go; the abstract order
      book and the proof that the graph implements it; what [Verify] checks.
    - [Search], [Consume], [SearchProofs], [PathFinding], [PathPrices]:
      exp/orderbook/search.go and the queries of graph.go; the arithmetic of
      consuming offers; the soundness of the search; its totality; the quotes of
      an edge in exact integers and the theorems on the two queries.
    - [Checkpoints]: historyarchive/range.go and dirprefix.go.
    - [Bitmap]: exp/lighthorizon/index/types/bitmap.go.
    - [Trie], [TrieMemory], [XdrCodec], [TrieXdr]: exp/lighthorizon/index/types/
      trie.go.  The nodes and their updates; iteration and merging over slices
      of a shared memory, since [iterate] hands out slices that alias; the
      interface [XdrCodec] of the external XDR library with an instance after
      RFC 4506; the generated encoders of the trie types.
    - [Muxed]: strkey/muxed_account.go and signed_payload.go,
      xdr/muxed_account.go and signer_key.go.
    - [Keypair]: keypair, over a class [Ed25519] of the signature scheme, and
      base64 as encoding/base64 documents it.
    - [Transactions], [TxProofs]: txnbuild/transaction.go, preconditions.go,
      timebounds.go, memo.go and manage_data.go, over a class [Operations] that
      is the interface of the other operations.
    - [TxAssets], [TxOperations], [TxOpProofs]: the assets and pool ids of
      txnbuild, its 26 other operations with their conversions to and from XDR
      and their validation, which are the instance [txn_operations] of that
      class, and their round trips.
    - [Challenge], [ChallengeProofs], [ChallengeComplete]: the challenge
      transactions of txnbuild/transaction.go (SEP-10).
    - [HistoryDb]: the key value store and the ledger table of aurora's history
      database with its transactions and its lock, and the chain of ledgers.
    - [IngestFsm]: services/aurora/internal/ingest/fsm*.go and main.go, the
      states and the loop that runs them, in a monad over the database session.
      [IngestProofs], [IngestCluster], [IngestLive], [IngestReingest]: its
      invariants, several instances on one database, progress, reingestion.
    - [LedgerKeys]: xdr/ledger_key.go, xdr/ledger_entry.go ([LedgerKey]),
      xdr/trust_line_asset.go, and the encoders of the key types, over a class
      [XdrEncoder] for the encoder of the external XDR library.
    - [Compactor]: ingest/change.go, ingest/change_compactor.go and the
      compacting reader of ingest/ledger_change_reader.go.
    - [LedgerReader], [LedgerReaderProofs]: ingest/ledger_transaction_reader.go,
      ledger_transaction.go and ledger_change_reader.go.
    - [HexText], [XdrStreams]: encoding/hex; historyarchive/xdrstream.go and
      hash.go, the streams of records with a hash that is checked on closing.
    - [CheckpointReader], [CheckpointSpec], [CheckpointProofs]:
      ingest/checkpoint_change_reader.go and memory_temp_set.go, in a monad over
      the reader and an environment (class [Env]) for the archive, the context
      and calls of Close; the state of a bucket list as the reference.
    - [Normalize]: LedgerEntry.Normalize of xdr/ledger_entry.go with
      xdr/signers.go and claimant.go.
    - [StateVerifier], [CheckpointVerify]: ingest/verify/main.go, and the
      verification of a storage against a checkpoint from end to end.
    - [TxSub], [TxSubProofs]: services/aurora/internal/txsub.  Requests and ticks
      are programs over shared state, a free monad whose calls (database,
      hcnet-core, list of open submissions, channels, clock) are the points where
      goroutines interleave; a weakest precondition logic for one goroutine.
    - [CaptiveCore], [CaptiveProofs], [CaptiveIngest]:
      ingest/ledgerbackend/captive_core_backend.go and range.go, over a class
      [CoreEnv] for the process, the archive and the trusted hashes; the chain
      that a session hands out, delivery, and the back end as an instance of the
      interface of [IngestFsm].

    A struct is a record, an enum or union an inductive type, a Go method that
    changes its receiver a function to the new value inside [res].  Maps are
    [gmap]s, slices lists, with indexing out of range as a panic.  Where nodes
    are shared and mutated (the path nodes of the search) the model has an
    explicit heap.  Locks are taken around whole operations and are not modelled.

    ** What the theorems show

    - Order book.  [Apply_refines]: applying a batch to a graph that stands for
      an abstract book (a map of offers and a map of pools) gives a graph that
      stands for the updated book, so no update fails half way on a valid batch;
      [reachable_represents]: every reachable graph stands for a book, its two
      tables mirror each other and are sorted by price; [Apply_stale_ledger] and
      [observers_report_book]: errors and observers; [edgeSet_add_refines] and
      [edgeSet_remove_refines] are the same for the edges of one asset;
      [Verify_accepts]: the self check accepts every such graph.
    - Path finding.  [FindPaths_correct] and [FindFixedPaths_correct]: a query
      on a valid graph always returns, and every path returned is a route of
      the book that starts and ends where it should, is within the bound on its
      length, visits no asset twice and has the amount of the best quotes along it,
      which are defined without the code; an asset with a direct quote has a path
      that is as good.  The offers of an edge must not add up to more than an int64,
      since the code does not check its sums.  [selling_consumption_exact],
      [buying_consumption_exact] and [sortAndFilterPaths_spec] describe the parts.
    - Arithmetic.  Pools: exact payouts and prices, and what makeTrade does with a
      bad type of pool, a missing body, a bad amount or trade type
      ([makeTrade_spec]), the product of the reserves never decreases
      ([makeTrade_keeps_product]), the price of an expectation is the least one
      ([expectation_is_least]).  Prices and amounts: exact rounding, round trips
      of printing and parsing, termination and quality of the price parser.
    - Identities.  strkey round trips and is canonical, the checksum is the
      CRC-16 and detects adjacent corruption, asset strings identify assets,
      ledger keys are identified by their encodings, ids are ordered.
    - Changes.  [compacting_reader_sound]: compaction preserves the ledger state
      that a stream of changes leads to, with one change per entry;
      [AddChange_composes], [changes_sorted_equivalent] for its parts.
      [transaction_reader_exact], [change_reader_exact]: what the readers of a
      ledger return; [ledger_changes_correct]: the changes read lead from the state
      before the ledger to the one after it.
    - Checkpoints of the state.  [checkpoint_reader_sound]: for an archive that
      may fail at any call the streaming ends, and reading to io.EOF gives the
      state of buckets with the expected hashes; [checkpoint_reader_complete]:
      without failures it does; an example, [retry_bypasses_hash]:
      what was read before a retry is not covered by the hash.  [verifier_sound], [verifier_complete]:
      the verifier accepts a storage if and only if it is what the reader gave;
      [Normalize_canonical]: the forms it compares are canonical;
      [verified_storage_is_checkpoint]: reader and verifier together.
    - Bitmaps and checkpoints.  A bitmap index is a finite set of positions
      ([bitmap_updates_refine], [bitmap_queries_refine], [bitmap_Merge_union]);
      checkpoints partition the ledgers and the ranges enumerate them.
    - Tries.  A trie is a finite map of byte strings ([trie_upsert_refines]);
      iteration enumerates it ([trie_Iterate_exact]), merging overrides when the
      keys do not share memory ([trie_Merge_overrides]) and can lose keys when
      they do (the example [trie_Merge_loses_key]); [trie_binary_roundtrip] for its encoding.
    - Transactions.  [operation_roundtrip]: parsing a well-formed XDR operation
      and building the result gives the operation back; [transaction_roundtrip]:
      a transaction built of operations in the form that parsing gives is parsed back
      from its envelope; [fee_bump_spec] and [fee_bump_v0_panics]: every branch of
      fee bumps.  Challenges: what a server accepts was signed by the server
      and by the reported signers ([challenge_signers_sound],
      [challenge_threshold_spec]), and a challenge signed by the client is
      accepted ([challenge_complete]).
    - Ingestion.  [cluster_agrees_with_chain]: in every interleaving of
      instances and in spite of failing calls the history is a contiguous copy of
      the chain and the last ingested ledger agrees with it.  Of the runner of the
      processors it is assumed that it writes the rows and the state of the ledger it
      is given, and of the key value store only the two sequences of compaction.  The
      steps of an instance are atomic because they hold the lock on the last
      ingested ledger; reingestion without force takes no lock and is not a step of
      the cluster ([ReingestRange_spec] is about it alone);
      [machine_never_meets_transaction]: no state starts with an open
      transaction; [ingestion_makes_progress]: without failures an instance
      reaches every ledger of the chain; [ReingestRange_spec].
    - Captive core.  [captive_session_chain]: whatever the process sends, the
      ledgers of a session have the requested numbers and are linked by hashes,
      but for a ledger cached by an earlier session ([cached_ledger_unlinked]);
      [captive_delivers]: with an archive that has headers up to its latest
      checkpoint and a process that starts only from a right hash every ledger of the
      range is returned; [captive_cluster_agrees]: ingestion on captive cores.
    - Transaction submission.  [submissions_answered_once]: in every interleaving
      each request gets at most one answer, which the history or hcnet-core gave,
      and no goroutine panics or blocks; [Tick_answers]: a tick on a healthy
      database answers the submissions recorded in the last 60 ledgers;
      [failed_result_hidden]: a recorded failure that a request does not see.

    ** Bounds and fuel

    Loops that are not structural take fuel, and the theorems show that the
    given fuel is enough: the price parser runs 70 turns (its denominators at
    least double every two turns and stop at int32), sort.Search takes the
    length of the slice, the walk over path nodes the size of the heap,
    [iterate] one turn per bit, [GenerateCheckpoints] one turn per ledger of the
    range, and draining the compacting reader one turn per input change.  The
    loop over a bucket takes one turn per entry, which is at most one per byte, and
    a failed read is attempted four times at most.  [GetLedger] of the captive
    core takes one turn per ledger of the pipe, and the number of the ledger is
    fuel enough; the interleavings of submissions have no bound.  The
    loops of the ingestion states run once per ledger of their range, and the
    state machine itself is a step relation with no bound; the depth up to which
    a trie is decoded is the limit the code passes to the decoder.
    Integers keep their width; hypotheses on ranges say where the code relies on
    the absence of overflow: asset ids stay within int32, bitmap positions below
    the last byte of the uint32 range, checkpoint ranges within uint32.

    ** Not modelled

    The HTTP interfaces of the services, clients, tools and storage back ends
    are I/O and glue.  Generated XDR code is translated only where the modelled
    code uses it; contract values, the XDR encoder, 256-bit integers, Ed25519,
    SHA-256 and the sorting functions of libraries are parameters with their
    documented laws, and each has a concrete instance.  The processors that
    aurora's state machine runs on a ledger are a parameter with laws on the rows,
    the state and the keys that they write.  Host functions, authorization entries and
    footprints are carried by operations as opaque values.  Next in the plan:
    the ingestion processors, the verification of archives and the in-memory parts
    of the index stores. *)
From Stdlib Require Export ZArith Lia Bool.
From stdpp Require Export base numbers list gmap strings fin_maps.

Global Open Scope Z_scope.

(** ** Machine integers

    A Go integer of width [w] is a [Z].  [uwrap w] is the value a conversion to
    an unsigned [w]-bit type (or an unsigned operation that overflows) yields,
    [swrap w] the value for the signed type (two's complement). *)

Definition uwrap (w z : Z) : Z := z mod 2 ^ w.
Definition swrap (w z : Z) : Z := (z + 2 ^ (w - 1)) mod 2 ^ w - 2 ^ (w - 1).

Abbreviation to_uint8 := (uwrap 8).
Abbreviation to_uint16 := (uwrap 16).
Abbreviation to_uint32 := (uwrap 32).
Abbreviation to_uint64 := (uwrap 64).
Abbreviation to_uint256 := (uwrap 256).
Abbreviation to_int32 := (swrap 32).
Abbreviation to_int64 := (swrap 64).

Definition MaxInt32 : Z := 2 ^ 31 - 1.
Definition MaxUint32 : Z := 2 ^ 32 - 1.
Definition MaxInt64 : Z := 2 ^ 63 - 1.

Definition in_int (w z : Z) : Prop := - 2 ^ (w - 1) <= z < 2 ^ (w - 1).
Definition in_uint (w z : Z) : Prop := 0 <= z < 2 ^ w.

#[export] Instance in_int_dec w z : Decision (in_int w z).
Proof. unfold in_int; apply _. Defined.
#[export] Instance in_uint_dec w z : Decision (in_uint w z).
Proof. unfold in_uint; apply _. Defined.

(** ** Bytes and strings

    A Go string is a sequence of bytes; a byte is a [Z] below 256. *)

Definition is_byte (b : Z) : Prop := 0 <= b < 256.

Definition byte_of (c : Ascii.ascii) : Z := Z.of_nat (Ascii.nat_of_ascii c).
Definition char_of (b : Z) : Ascii.ascii := Ascii.ascii_of_nat (Z.to_nat b).
Definition bytes_of (s : string) : list Z := map byte_of (String.list_ascii_of_string s).
Definition string_of (l : list Z) : string := String.string_of_list_ascii (map char_of l).

(** ** Results of Go calls

    A call returns a value, returns an error, or panics.  An error is
    represented by its message without the formatted arguments: two sentinel
    errors of the source are equal iff their messages are. *)

Definition error := string.

Inductive res (A : Type) : Type :=
| Ok (a : A)
| Err (e : error)
| Panic (msg : string).
Arguments Ok {A} a.
Arguments Err {A} e.
Arguments Panic {A} msg.

#[export] Instance res_ret : MRet res := fun A a => Ok a.
#[export] Instance res_bind : MBind res := fun A B f c =>
  match c with Ok a => f a | Err e => Err e | Panic m => Panic m end.
#[export] Instance res_fmap : FMap res := fun A B f c =>
  match c with Ok a => Ok (f a) | Err e => Err e | Panic m => Panic m end.

Definition is_ok {A} (r : res A) : bool :=
  match r with Ok _ => true | _ => false end.

(** [io.EOF] *)
Definition EOF : error := "EOF".

(** [errors.Wrap]: the message in front of the error's own. *)
Definition wrap_error (msg : string) (e : error) : error := String.append msg (String.append ": " e).

Definition Wrap {A} (r : res A) (msg : string) : res A :=
  match r with Err e => Err (wrap_error msg e) | r => r end.

(** [from_opt msg o] is an indexing or dereference that panics with [msg]. *)
Definition from_opt {A} (msg : string) (o : option A) : res A :=
  match o with Some a => Ok a | None => Panic msg end.

Lemma bind_Ok {A B} (c : res A) (f : A -> res B) b :
  (c ≫= f) = Ok b <-> exists a, c = Ok a /\ f a = Ok b.
Proof. destruct c; simpl; split; intros; naive_solver. Qed.

Lemma bind_Ok_l {A B} (a : A) (f : A -> res B) : (Ok a ≫= f) = f a.
Proof. done. Qed.

Lemma Ok_inj {A} (a b : A) : Ok a = Ok b -> a = b.
Proof. by intros [= ->]. Qed.

(** The value of a call that returns one. *)
Definition value_or {A} (d : A) (r : res A) : A := match r with Ok a => a | _ => d end.
Lemma is_ok_value_or {A} (d : A) r : is_ok r = true -> r = Ok (value_or d r).
Proof. by destruct r. Qed.

Lemma from_opt_Ok {A} msg (o : option A) a : from_opt msg o = Ok a <-> o = Some a.
Proof. destruct o; simpl; split; congruence. Qed.

(** ** Tactics and hints *)

Create HintDb go.
Create HintDb gomath.

(** Case analysis on the outermost scrutinee of a [match] or [if]. *)
Ltac case_scrutinee :=
  match goal with
  | |- context [match ?x with _ => _ end] =>
      lazymatch x with context [match _ with _ => _ end] => fail | _ => idtac end;
      let E := fresh "E" in destruct x eqn:E
  end.

Ltac case_scrutinee_in H :=
  match type of H with
  | context [match ?x with _ => _ end] =>
      lazymatch x with context [match _ with _ => _ end] => fail | _ => idtac end;
      let E := fresh "E" in destruct x eqn:E
  end.

(** Turn boolean comparisons of [Z] into propositions. *)
Ltac zbool :=
  repeat match goal with
  | H : (_ <? _) = true |- _ => apply Z.ltb_lt in H
  | H : (_ <? _) = false |- _ => apply Z.ltb_ge in H
  | H : (_ <=? _) = true |- _ => apply Z.leb_le in H
  | H : (_ <=? _) = false |- _ => apply Z.leb_gt in H
  | H : (_ >? _) = true |- _ => apply Z.gtb_gt in H
  | H : (_ >? _) = false |- _ => rewrite Z.gtb_ltb in H; apply Z.ltb_ge in H
  | H : (_ >=? _) = true |- _ => rewrite Z.geb_leb in H; apply Z.leb_le in H
  | H : (_ >=? _) = false |- _ => rewrite Z.geb_leb in H; apply Z.leb_gt in H
  | H : (_ =? _) = true |- _ => apply Z.eqb_eq in H
  | H : (_ =? _) = false |- _ => apply Z.eqb_neq in H
  | H : _ && _ = true |- _ => apply andb_true_iff in H; destruct H
  | H : _ || _ = false |- _ => apply orb_false_iff in H; destruct H
  | H : negb _ = true |- _ => apply negb_true_iff in H
  | H : negb _ = false |- _ => apply negb_false_iff in H
  end.

(** ** Lemmas on lists *)

Lemma fold_left_cons {A B} (f : A -> B -> A) b l a :
  fold_left f (b :: l) a = fold_left f l (f a b).
Proof. done. Qed.

Lemma byte_of_range c : is_byte (byte_of c).
Proof. unfold is_byte, byte_of. pose proof (Ascii.nat_ascii_bounded c). lia. Qed.

Lemma byte_of_char_of b : is_byte b -> byte_of (char_of b) = b.
Proof.
  unfold is_byte, byte_of, char_of; intros Hb.
  rewrite Ascii.nat_ascii_embedding by lia. lia.
Qed.

Lemma char_of_byte_of c : char_of (byte_of c) = c.
Proof. unfold byte_of, char_of. rewrite Nat2Z.id. apply Ascii.ascii_nat_embedding. Qed.

Lemma bytes_of_range s : Forall is_byte (bytes_of s).
Proof.
  unfold bytes_of. apply Forall_forall. intros b Hb.
  apply list_elem_of_fmap in Hb as (c & -> & _). apply byte_of_range.
Qed.

Lemma bytes_of_string_of l : Forall is_byte l -> bytes_of (string_of l) = l.
Proof.
  intros Hl. unfold bytes_of, string_of.
  rewrite String.list_ascii_of_string_of_list_ascii.
  induction Hl as [|b l Hb _ IH]; [done|]. simpl. by rewrite byte_of_char_of, IH.
Qed.

Lemma string_of_bytes_of s : string_of (bytes_of s) = s.
Proof.
  unfold bytes_of, string_of. rewrite map_map.
  rewrite (map_ext _ id) by apply char_of_byte_of.
  rewrite map_id. apply String.string_of_list_ascii_of_string.
Qed.

(** ** Lemmas on machine integers *)

Lemma uwrap_small w z : 0 <= z < 2 ^ w -> uwrap w z = z.
Proof. intros H. unfold uwrap. by apply Z.mod_small. Qed.

Lemma uwrap_range w z : 0 <= w -> 0 <= uwrap w z < 2 ^ w.
Proof. intros H. unfold uwrap. apply Z.mod_pos_bound. lia. Qed.

Lemma swrap_small w z : 1 <= w -> in_int w z -> swrap w z = z.
Proof.
  intros Hw [H1 H2]. unfold swrap.
  rewrite Z.mod_small; [lia|].
  replace (2 ^ w) with (2 * 2 ^ (w - 1)); [lia|].
  rewrite <- Z.pow_succ_r by lia. f_equal; lia.
Qed.

Lemma swrap_add_l w a b : swrap w (swrap w a + b) = swrap w (a + b).
Proof.
  unfold swrap. f_equal.
  replace ((a + 2 ^ (w - 1)) mod 2 ^ w - 2 ^ (w - 1) + b + 2 ^ (w - 1))
    with ((a + 2 ^ (w - 1)) mod 2 ^ w + b) by lia.
  rewrite Zplus_mod_idemp_l. f_equal. lia.
Qed.

Lemma uwrap_add_mid w a b c : uwrap w (a + uwrap w b + c) = uwrap w (a + b + c).
Proof.
  unfold uwrap. replace (a + b mod 2 ^ w + c) with (a + c + b mod 2 ^ w) by lia.
  rewrite Zplus_mod_idemp_r. f_equal. lia.
Qed.

Lemma swrap_range w z : 1 <= w -> in_int w (swrap w z).
Proof.
  intros Hw. unfold swrap, in_int.
  pose proof (Z.mod_pos_bound (z + 2 ^ (w - 1)) (2 ^ w)) as H.
  replace (2 ^ w) with (2 * 2 ^ (w - 1)) in *
    by (rewrite <- Z.pow_succ_r by lia; f_equal; lia).
  assert (0 < 2 ^ (w - 1)) by (apply Z.pow_pos_nonneg; lia). lia.
Qed.

#[export] Hint Resolve uwrap_range swrap_range : gomath.

(** Disjoint bits: [(a << n) | b] is addition when [b] fits in [n] bits. *)
Lemma land_shiftl_low a b n :
  0 <= n -> 0 <= b < 2 ^ n -> Z.land (Z.shiftl a n) b = 0.
Proof.
  intros Hn Hb. apply Z.bits_inj'; intros i Hi.
  rewrite Z.land_spec, Z.bits_0. destruct (Z.ltb_spec i n).
  - by rewrite Z.shiftl_spec_low by lia.
  - rewrite andb_false_intro2; [done|].
    rewrite <- (Z.mod_small b (2 ^ n)) by lia. apply Z.mod_pow2_bits_high; lia.
Qed.

Lemma lor_shiftl_add a b n :
  0 <= n -> 0 <= b < 2 ^ n -> Z.lor (Z.shiftl a n) b = a * 2 ^ n + b.
Proof.
  intros Hn Hb. rewrite <- Z.lxor_lor, <- Z.add_nocarry_lxor by
    by apply land_shiftl_low.
  by rewrite Z.shiftl_mul_pow2 by lia.
Qed.

(** Masking with [(1 << n) - 1] is reduction modulo [2 ^ n]. *)
Lemma land_mask x n : 0 <= n -> Z.land x (2 ^ n - 1) = x mod 2 ^ n.
Proof. intros Hn. by rewrite <- Z.land_ones, Z.ones_equiv, <- Z.sub_1_r by lia. Qed.

Lemma log2_lt_pow2' w x : 0 < w -> 0 <= x < 2 ^ w -> Z.log2 x < w.
Proof.
  intros Hw Hx. destruct (Z.eq_dec x 0) as [->|]; [done|]. apply Z.log2_lt_pow2; lia.
Qed.

Lemma lxor_range w x y :
  0 < w -> 0 <= x < 2 ^ w -> 0 <= y < 2 ^ w -> 0 <= Z.lxor x y < 2 ^ w.
Proof.
  intros Hw Hx Hy.
  assert (0 <= Z.lxor x y) by (apply Z.lxor_nonneg; lia). split; [done|].
  destruct (Z.eq_dec (Z.lxor x y) 0) as [->|]; [lia|].
  apply Z.log2_lt_pow2; [lia|].
  eapply Z.le_lt_trans; [apply Z.log2_lxor; lia|].
  apply Z.max_lub_lt; by apply log2_lt_pow2'.
Qed.
