(* ===== verification/Toid.v ===== *)
(** * Total order ids (toid/main.go)

    A [ID] packs a ledger sequence (32 bits), a transaction order (20 bits) and
    an operation order (12 bits) into a signed 64-bit integer. *)
From S2P Require Import Prelude.

Module Toid.

Definition LedgerMask : Z := Z.shiftl 1 32 - 1.
Definition TransactionMask : Z := Z.shiftl 1 20 - 1.
Definition OperationMask : Z := Z.shiftl 1 12 - 1.
Definition LedgerShift : Z := 32.
Definition TransactionShift : Z := 12.
Definition OperationShift : Z := 0.

(** The fields are [int32] values. *)
Record ID := mkID {
  LedgerSequence : Z;
  TransactionOrder : Z;
  OperationOrder : Z
}.

#[global] Instance ID_eq_dec : EqDecision ID.
Proof. solve_decision. Defined.

Definition New (ledger tx op : Z) : ID := mkID ledger tx op.

Definition AfterLedger (seq : Z) : ID := New seq TransactionMask OperationMask.

Definition ToInt64 (id : ID) : res Z :=
  if LedgerSequence id <? 0 then Panic "invalid ledger sequence" else
  if TransactionOrder id >? TransactionMask then Panic "transaction order overflow" else
  if OperationOrder id >? OperationMask then Panic "operation order overflow" else
  let result := 0 in
  let result := Z.lor result
    (to_int64 (Z.shiftl (Z.land (LedgerSequence id) LedgerMask) LedgerShift)) in
  let result := Z.lor result
    (to_int64 (Z.shiftl (Z.land (TransactionOrder id) TransactionMask) TransactionShift)) in
  let result := Z.lor result
    (to_int64 (Z.shiftl (Z.land (OperationOrder id) OperationMask) OperationShift)) in
  Ok result.

Definition Parse (id : Z) : ID :=
  mkID (to_int32 (Z.land (Z.shiftr id LedgerShift) LedgerMask))
       (to_int32 (Z.land (Z.shiftr id TransactionShift) TransactionMask))
       (to_int32 (Z.land (Z.shiftr id OperationShift) OperationMask)).

Definition IncOperationOrder (id : ID) : ID :=
  let op := to_int32 (OperationOrder id + 1) in
  if op >? OperationMask
  then mkID (to_int32 (LedgerSequence id + 1)) (TransactionOrder id) 0
  else mkID (LedgerSequence id) (TransactionOrder id) op.

Definition LedgerRangeInclusive (from to : Z) : res (Z * Z) :=
  if from >? to then Err "Invalid range: from > to" else
  if (from <=? 0) || (to <=? 0) then Err "Invalid range: from or to negative" else
  toidFrom ← (if from =? 1 then Ok 0 else ToInt64 (New from 0 0));
  toidTo ← ToInt64 (New (to_int32 (to + 1)) 0 0);
  Ok (toidFrom, toidTo).

(** ** Well-formed ids and their value *)

Definition valid (id : ID) : Prop :=
  0 <= LedgerSequence id < 2 ^ 31 /\
  0 <= TransactionOrder id < 2 ^ 20 /\
  0 <= OperationOrder id < 2 ^ 12.

Definition value (id : ID) : Z :=
  LedgerSequence id * 2 ^ 32 + TransactionOrder id * 2 ^ 12 + OperationOrder id.

(** The lexicographic order of (ledger, transaction, operation). *)
Definition before (a b : ID) : Prop :=
  LedgerSequence a < LedgerSequence b \/
  (LedgerSequence a = LedgerSequence b /\
   (TransactionOrder a < TransactionOrder b \/
    (TransactionOrder a = TransactionOrder b /\ OperationOrder a < OperationOrder b))).

Lemma value_range id : valid id -> 0 <= value id < 2 ^ 63.
Proof. unfold valid, value. lia. Qed.

Lemma value_before a b : valid a -> valid b -> (value a < value b <-> before a b).
Proof. unfold valid, value, before. lia. Qed.

Lemma ToInt64_value id : valid id -> ToInt64 id = Ok (value id).
Proof.
  destruct id as [l t o]; unfold valid, ToInt64, value; simpl; intros (Hl & Ht & Ho).
  assert (E1 : (l <? 0) = false) by lia.
  assert (E2 : (t >? TransactionMask) = false) by (change TransactionMask with (2 ^ 20 - 1); lia).
  assert (E3 : (o >? OperationMask) = false) by (change OperationMask with (2 ^ 12 - 1); lia).
  rewrite E1, E2, E3. f_equal.
  unfold LedgerMask, TransactionMask, OperationMask.
  change (Z.shiftl 1 32 - 1) with (2 ^ 32 - 1).
  change (Z.shiftl 1 20 - 1) with (2 ^ 20 - 1).
  change (Z.shiftl 1 12 - 1) with (2 ^ 12 - 1).
  rewrite !land_mask by lia.
  rewrite !Z.mod_small by lia.
  unfold LedgerShift, TransactionShift, OperationShift.
  rewrite !Z.shiftl_0_r, Z.lor_0_l.
  rewrite !swrap_small by (unfold in_int; rewrite ?Z.shiftl_mul_pow2 by lia; lia).
  rewrite <- Z.lor_assoc.
  rewrite (lor_shiftl_add t o 12) by lia.
  rewrite (lor_shiftl_add l _ 32) by lia. lia.
Qed.

Lemma Parse_fields n : 0 <= n < 2 ^ 63 ->
  Parse n = mkID (n / 2 ^ 32) (n / 2 ^ 12 mod 2 ^ 20) (n mod 2 ^ 12).
Proof.
  intros Hn. unfold Parse, LedgerMask, TransactionMask, OperationMask,
    LedgerShift, TransactionShift, OperationShift.
  change (Z.shiftl 1 32 - 1) with (2 ^ 32 - 1).
  change (Z.shiftl 1 20 - 1) with (2 ^ 20 - 1).
  change (Z.shiftl 1 12 - 1) with (2 ^ 12 - 1).
  rewrite !land_mask, !Z.shiftr_div_pow2, Z.div_1_r by lia.
  assert (0 <= n / 2 ^ 32 < 2 ^ 31) by
    (split; [apply Z.div_pos; lia|apply Z.div_lt_upper_bound; lia]).
  pose proof (Z.mod_pos_bound (n / 2 ^ 12) (2 ^ 20)).
  pose proof (Z.mod_pos_bound n (2 ^ 12)).
  rewrite (Z.mod_small (n / 2 ^ 32)) by lia.
  rewrite !swrap_small by (unfold in_int; lia). done.
Qed.

Lemma Parse_valid n : 0 <= n < 2 ^ 63 -> valid (Parse n).
Proof.
  intros Hn. rewrite Parse_fields by done. unfold valid; simpl.
  pose proof (Z.mod_pos_bound (n / 2 ^ 12) (2 ^ 20)).
  pose proof (Z.mod_pos_bound n (2 ^ 12)).
  split; [|lia]. split; [apply Z.div_pos; lia|apply Z.div_lt_upper_bound; lia].
Qed.

Lemma value_Parse n : 0 <= n < 2 ^ 63 -> value (Parse n) = n.
Proof.
  intros Hn. rewrite Parse_fields by done. unfold value; simpl LedgerSequence.
  simpl TransactionOrder; simpl OperationOrder.
  pose proof (Z.div_mod n (2 ^ 12)). pose proof (Z.div_mod (n / 2 ^ 12) (2 ^ 20)).
  rewrite Z.div_div in * by lia.
  replace (2 ^ 12 * 2 ^ 20) with (2 ^ 32) in * by lia. lia.
Qed.

Lemma value_inj a b : valid a -> valid b -> value a = value b -> a = b.
Proof.
  destruct a, b; unfold valid, value; simpl; intros.
  f_equal; lia.
Qed.

(** ** Properties *)

(** C39: [ToInt64] and [Parse] are mutually inverse: a well-formed id is packed
    without a panic into a non-negative int64 from which [Parse] recovers it,
    and every non-negative int64 is the packing of what [Parse] returns. *)
Theorem toid_roundtrip (id : ID) (n : Z) (Hid : valid id) (Hn : 0 <= n < 2 ^ 63) :
  (exists m, ToInt64 id = Ok m /\ 0 <= m < 2 ^ 63 /\ Parse m = id) /\
  ToInt64 (Parse n) = Ok n.
Proof.
  split.
  - exists (value id). split; [by apply ToInt64_value|].
    pose proof (value_range _ Hid). split; [done|].
    apply value_inj; [by apply Parse_valid|done|by apply value_Parse].
  - rewrite ToInt64_value by by apply Parse_valid. f_equal. by apply value_Parse.
Qed.

Lemma toid_roundtrip_witness :
  ToInt64 (mkID 7 3 2) = Ok 30064783362 /\
  (exists m, ToInt64 (mkID 7 3 2) = Ok m /\ 0 <= m < 2 ^ 63 /\ Parse m = mkID 7 3 2).
Proof.
  split; [reflexivity|].
  apply (toid_roundtrip (mkID 7 3 2) 30064783362); [unfold valid; simpl; lia|lia].
Defined.

(** The packed ids are ordered as (ledger, transaction, operation) is, and
    [IncOperationOrder] moves strictly forward in that order, to the immediate
    successor when the operation order does not overflow. *)
Theorem toid_order (a b : ID) (x y : Z)
  (Ha : valid a) (Hb : valid b) (Hx : ToInt64 a = Ok x) (Hy : ToInt64 b = Ok y)
  (Hlast : LedgerSequence a < MaxInt32) :
  (x < y <-> before a b) /\
  exists z, ToInt64 (IncOperationOrder a) = Ok z /\ x < z /\
            (OperationOrder a < OperationMask -> z = x + 1).
Proof.
  rewrite ToInt64_value in Hx, Hy by done. simplify_eq.
  split; [by apply value_before|].
  destruct a as [l t o]; unfold valid, MaxInt32, IncOperationOrder in *; simpl in *.
  rewrite (swrap_small 32 (o + 1)), (swrap_small 32 (l + 1)) by (unfold in_int; lia).
  change OperationMask with (2 ^ 12 - 1).
  destruct (o + 1 >? 2 ^ 12 - 1) eqn:E; zbool;
    (eexists; split; [apply ToInt64_value|]); unfold valid, value; simpl; lia.
Qed.

Lemma toid_order_witness :
  (30064783362 < 30064787456 <-> before (mkID 7 3 2) (mkID 7 4 0)).
Proof.
  refine (proj1 (toid_order (mkID 7 3 2) (mkID 7 4 0) _ _ _ _ _ _ _));
    [unfold valid; simpl; lia|unfold valid; simpl; lia|reflexivity|reflexivity
    |unfold MaxInt32; simpl; lia].
Defined.

(** [LedgerRangeInclusive] rejects reversed and non-positive ranges; a
    range below the last int32 ledger yields the half-open interval of exactly
    the ids of ledgers [from..to] (from ledger 0 on when [from = 1]); for
    [to = MaxInt32] the increment wraps and the call panics. *)
Theorem LedgerRangeInclusive_spec (from to : Z) (Hf : in_int 32 from) (Ht : in_int 32 to) :
  (from > to -> LedgerRangeInclusive from to = Err "Invalid range: from > to") /\
  (from <= to -> from <= 0 ->
     LedgerRangeInclusive from to = Err "Invalid range: from or to negative") /\
  (0 < from <= to -> to < MaxInt32 ->
     exists lo hi, LedgerRangeInclusive from to = Ok (lo, hi) /\
       forall id n, valid id -> ToInt64 id = Ok n ->
         (lo <= n < hi <->
          (from <= LedgerSequence id \/ from = 1) /\ LedgerSequence id <= to)) /\
  (0 < from -> to = MaxInt32 ->
     LedgerRangeInclusive from to = Panic "invalid ledger sequence").
Proof.
  unfold LedgerRangeInclusive, in_int, MaxInt32 in *.
  repeat split; intros.
  - by replace (from >? to) with true by lia.
  - replace (from >? to) with false by lia.
    by replace (from <=? 0) with true by lia.
  - replace (from >? to) with false by lia.
    replace ((from <=? 0) || (to <=? 0)) with false by lia.
    rewrite swrap_small by (unfold in_int; lia).
    rewrite !ToInt64_value by (unfold valid; simpl; lia).
    destruct (Z.eqb_spec from 1); simpl;
      (do 2 eexists; split; [done|]); intros id m Hid Hn;
      rewrite ToInt64_value in Hn by done; simplify_eq;
      destruct id; unfold valid, value in *; simpl in *; lia.
  - subst. replace (from >? _) with false by lia.
    replace ((from <=? 0) || _) with false by lia.
    destruct (Z.eqb_spec from 1); [done|].
    rewrite (ToInt64_value (New from 0 0)) by (unfold valid; simpl; lia). done.
Qed.

Lemma LedgerRangeInclusive_spec_witness :
  LedgerRangeInclusive 2 3 = Ok (8589934592, 17179869184) /\
  LedgerRangeInclusive 2 MaxInt32 = Panic "invalid ledger sequence".
Proof.
  split; [reflexivity|].
  refine (proj2 (proj2 (proj2 (LedgerRangeInclusive_spec 2 MaxInt32 _ _))) _ _);
    unfold in_int, MaxInt32; simpl; lia.
Defined.

End Toid.
