(* ===== verification/BigRat.v ===== *)
(** * Decimal strings and rationals

    The part of Go's [math/big], [strconv] and [regexp] that the amount and
    price parsers use: decimal digits, [big.Rat.SetString] and
    [big.Rat.FloatString], and [strconv.ParseInt].  Go strings are byte
    sequences; the functions work on their list of characters. *)
From S2P Require Import Prelude.
From Stdlib Require Import Ascii.

Module BigRat.

Definition code (c : ascii) : Z := Z.of_nat (nat_of_ascii c).
Definition is_digit (c : ascii) : bool := (48 <=? code c) && (code c <=? 57).
Definition digit (d : Z) : ascii := ascii_of_nat (48 + Z.to_nat d).
Definition digit_val (c : ascii) : Z := code c - 48.

Definition dot : ascii := "."%char.
Definition minus : ascii := "-"%char.
Definition zero : ascii := "0"%char.

Definition digits_val (l : list ascii) : Z :=
  fold_left (fun acc c => 10 * acc + digit_val c) l 0.

(** The last [k] decimal digits of [n]. *)
Fixpoint to_digits (k : nat) (n : Z) : list ascii :=
  match k with
  | O => []
  | S k => to_digits k (n / 10) ++ [digit (n mod 10)]
  end.

Fixpoint drop_zeros (l : list ascii) : list ascii :=
  match l with
  | c :: l' => if ascii_dec c zero then drop_zeros l' else l
  | [] => []
  end.

Definition canonical (l : list ascii) : list ascii :=
  match drop_zeros l with [] => [zero] | l' => l' end.

(** Decimal representation of a non-negative integer; [log2 n + 1] digits are
    enough before leading zeros are dropped. *)
Definition utoa (n : Z) : list ascii :=
  canonical (to_digits (S (Z.to_nat (Z.log2 n))) n).

Definition itoa (z : Z) : list ascii :=
  if z <? 0 then minus :: utoa (- z) else utoa z.

(** ** big.Rat: a fraction in lowest terms with a positive denominator *)

Record Rat := mkRat { Num : Z; Denom : Z }.

Definition norm (n d : Z) : Rat :=
  let g := Z.gcd n d in mkRat (n / g) (d / g).

Definition Mul (x y : Rat) : Rat := norm (Num x * Num y) (Denom x * Denom y).
(** Quotient by a positive rational. *)
Definition Quo (x y : Rat) : Rat := norm (Num x * Denom y) (Denom x * Num y).
#[global] Arguments norm : simpl never.
#[global] Arguments Mul : simpl never.
#[global] Arguments Quo : simpl never.
Definition IsInt (x : Rat) : bool := Denom x =? 1.

(** Mantissa scan of [SetString] on digits and dots: the digits read, whether a
    dot is still allowed, the digit count and the count of fractional digits.
    Any other character stays unread, which makes [SetString] fail. *)
Fixpoint scan (cs : list ascii) (fracOk : bool) (acc : Z) (count fcount : nat)
  : option (Z * nat * nat) :=
  match cs with
  | [] => Some (acc, count, fcount)
  | c :: cs' =>
      if bool_decide (c = dot) && fracOk then scan cs' false acc count fcount
      else if is_digit c then
        scan cs' fracOk (10 * acc + digit_val c) (S count)
          (if fracOk then fcount else S fcount)
      else None
  end.

Definition SetString (s : list ascii) : option Rat :=
  let '(neg, body) :=
    match s with
    | c :: cs => if ascii_dec c minus then (true, cs) else (false, s)
    | [] => (false, [])
    end in
  match scan body true 0 0 0 with
  | Some (acc, count, fcount) =>
      if Nat.eqb count 0 then None
      else Some (norm (if (neg : bool) then - acc else acc) (10 ^ Z.of_nat fcount))
  | None => None
  end.

Definition FloatString (x : Rat) (prec : nat) : list ascii :=
  if IsInt x then
    itoa (Num x) ++ (match prec with O => [] | _ => dot :: replicate prec zero end)
  else
    let q := Z.abs (Num x) / Denom x in
    let p := 10 ^ Z.of_nat prec in
    let r0 := Z.abs (Num x) mod Denom x * p in
    let r := r0 / Denom x in
    let r2 := r0 mod Denom x in
    let '(q, r) :=
      if Denom x <=? r2 + r2 then
        if p <=? r + 1 then (q + 1, r + 1 - p) else (q, r + 1)
      else (q, r) in
    (if Num x <? 0 then [minus] else []) ++ utoa q ++
    (match prec with
     | O => []
     | _ => dot :: replicate (prec - length (utoa r)) zero ++ utoa r
     end).

(** ** strconv.ParseInt(s, 10, 64) *)
Definition ParseInt64 (s : list ascii) : option Z :=
  let '(neg, body) :=
    match s with
    | c :: cs => if ascii_dec c minus then (true, cs) else (false, s)
    | [] => (false, [])
    end in
  match body with
  | [] => None
  | _ =>
      if forallb is_digit body then
        let v := if (neg : bool) then - digits_val body else digits_val body in
        if bool_decide (in_int 64 v) then Some v else None
      else None
  end.

(** ** Regular expressions ["^-?[.0-9]{1,20}$"] and ["^-?[0-9]+$"] *)
Definition strip_minus (s : list ascii) : list ascii :=
  match s with c :: cs => if ascii_dec c minus then cs else s | [] => [] end.

Definition validAmountSimple (s : list ascii) : bool :=
  let body := strip_minus s in
  (1 <=? Z.of_nat (length body)) && (Z.of_nat (length body) <=? 20) &&
  forallb (fun c => bool_decide (c = dot) || is_digit c) body.

Definition negativePositiveNumberOnly (s : list ascii) : bool :=
  let body := strip_minus s in
  (1 <=? Z.of_nat (length body)) && forallb is_digit body.

(** ** Digits *)

Lemma code_digit d : 0 <= d < 10 -> code (digit d) = 48 + d.
Proof.
  intros Hd. unfold code, digit. rewrite Ascii.nat_ascii_embedding by lia. lia.
Qed.

Lemma is_digit_digit d : 0 <= d < 10 -> is_digit (digit d) = true.
Proof. intros Hd. unfold is_digit. rewrite code_digit by done. lia. Qed.

Lemma digit_val_digit d : 0 <= d < 10 -> digit_val (digit d) = d.
Proof. intros Hd. unfold digit_val. rewrite code_digit by done. lia. Qed.

Lemma is_digit_not c x : is_digit c = true -> is_digit x = false -> c <> x.
Proof. congruence. Qed.

Lemma digits_val_acc l : forall a,
  fold_left (fun acc c => 10 * acc + digit_val c) l a
  = a * 10 ^ Z.of_nat (length l) + digits_val l.
Proof.
  unfold digits_val. induction l as [|c l IH]; intros a; [simpl; lia|].
  cbn [fold_left length]. rewrite (IH (10 * a + _)), (IH (10 * 0 + _)).
  rewrite Nat2Z.inj_succ, Z.pow_succ_r by lia. lia.
Qed.

Lemma digits_val_app l1 l2 :
  digits_val (l1 ++ l2) = digits_val l1 * 10 ^ Z.of_nat (length l2) + digits_val l2.
Proof. unfold digits_val at 1. rewrite fold_left_app. apply digits_val_acc. Qed.

Lemma digits_val_nonneg l : forallb is_digit l = true -> 0 <= digits_val l.
Proof.
  induction l as [|c l IH] using rev_ind; [done|].
  rewrite forallb_app, digits_val_app. intros H; zbool.
  unfold digits_val at 2. simpl in *. unfold is_digit in *; zbool.
  specialize (IH ltac:(done)). unfold digit_val. lia.
Qed.

Lemma to_digits_length k : forall n, length (to_digits k n) = k.
Proof.
  induction k as [|k IH]; intros n; [done|]. simpl. rewrite length_app, IH. simpl. lia.
Qed.

Lemma to_digits_digits k : forall n, forallb is_digit (to_digits k n) = true.
Proof.
  induction k as [|k IH]; intros n; [done|]. simpl.
  rewrite forallb_app, IH. cbn [forallb andb]. rewrite is_digit_digit; [done|].
  apply Z.mod_pos_bound; lia.
Qed.

Lemma digits_val_to_digits k : forall n, digits_val (to_digits k n) = n mod 10 ^ Z.of_nat k.
Proof.
  induction k as [|k IH]; intros n; [simpl; by rewrite Z.mod_1_r|].
  cbn [to_digits]. rewrite digits_val_app, IH. cbn [length].
  change (Z.of_nat 1) with 1.
  pose proof (Z.mod_pos_bound n 10).
  unfold digits_val. cbn [fold_left]. rewrite digit_val_digit by lia.
  rewrite Nat2Z.inj_succ, Z.pow_succ_r by lia.
  rewrite (Z.rem_mul_r n 10) by (try apply Z.pow_nonzero; lia). lia.
Qed.

Lemma to_digits_split m k : forall n, 
  to_digits (m + k) n = to_digits m (n / 10 ^ Z.of_nat k) ++ to_digits k n.
Proof.
  induction k as [|k IH]; intros n.
  - by rewrite Nat.add_0_r, Z.div_1_r, app_nil_r.
  - rewrite Nat.add_succ_r. cbn [to_digits]. rewrite IH, app_assoc.
    rewrite Z.div_div by (try apply Z.pow_pos_nonneg; lia).
    by rewrite Nat2Z.inj_succ, Z.pow_succ_r by lia.
Qed.

Lemma to_digits_0 k : to_digits k 0 = replicate k zero.
Proof.
  induction k as [|k IH]; [done|]. cbn [to_digits].
  change (0 / 10) with 0. rewrite IH.
  change [digit (0 mod 10)] with [zero]. by rewrite <- replicate_S_end.
Qed.

Lemma to_digits_mod k n : to_digits k n = to_digits k (n mod 10 ^ Z.of_nat k).
Proof.
  revert n. induction k as [|k IH]; intros n; [done|]. cbn [to_digits].
  rewrite (IH (n / 10)), (IH (n mod _ / 10)).
  rewrite Nat2Z.inj_succ, Z.pow_succ_r by lia.
  assert (0 < 10 ^ Z.of_nat k) by (apply Z.pow_pos_nonneg; lia).
  rewrite (Z.rem_mul_r n 10) by lia.
  rewrite (Z.mul_comm 10 (_ mod _)), Z.div_add by lia.
  rewrite (Z.div_small (n mod 10)) by (apply Z.mod_pos_bound; lia).
  rewrite Z.add_0_l, Z.mod_mod by lia. rewrite Z_mod_plus_full, Z.mod_mod by lia. done.
Qed.

Lemma to_digits_pad m k n :
  0 <= n < 10 ^ Z.of_nat k -> to_digits (m + k) n = replicate m zero ++ to_digits k n.
Proof. intros H. by rewrite to_digits_split, Z.div_small, to_digits_0 by done. Qed.

(** ** Canonical decimal strings *)

Lemma drop_zeros_replicate m l : drop_zeros (replicate m zero ++ l) = drop_zeros l.
Proof. induction m as [|m IH]; [done|]. simpl. by destruct (ascii_dec zero zero). Qed.

Lemma drop_zeros_spec l :
  l = replicate (length l - length (drop_zeros l)) zero ++ drop_zeros l /\
  (length (drop_zeros l) <= length l)%nat.
Proof.
  induction l as [|c l [IH Hlen]]; [done|]. simpl.
  destruct (ascii_dec c zero) as [->|]; simpl; [|by rewrite Nat.sub_diag].
  split; [|lia].
  replace (S (length l) - length (drop_zeros l))%nat
    with (S (length l - length (drop_zeros l))) by lia.
  simpl. by rewrite <- IH.
Qed.

Lemma drop_zeros_app l1 l2 :
  drop_zeros l1 <> [] -> drop_zeros (l1 ++ l2) = drop_zeros l1 ++ l2.
Proof.
  induction l1 as [|c l1 IH]; simpl; [done|].
  destruct (ascii_dec c zero); [done|done].
Qed.

Lemma drop_zeros_val l : digits_val (drop_zeros l) = digits_val l.
Proof.
  destruct (drop_zeros_spec l) as [E _]. rewrite E at 2.
  rewrite digits_val_app.
  assert (Hz : forall m, digits_val (replicate m zero) = 0).
  { intros m. rewrite <- to_digits_0, digits_val_to_digits. apply Z.mod_0_l.
    apply Z.pow_nonzero; lia. }
  by rewrite Hz.
Qed.

Lemma drop_zeros_digits l : forallb is_digit l = true -> forallb is_digit (drop_zeros l) = true.
Proof.
  destruct (drop_zeros_spec l) as [E _]. rewrite E at 1. rewrite forallb_app.
  intros H; zbool; done.
Qed.

Lemma log2_digits n : 0 <= n -> n < 10 ^ Z.of_nat (S (Z.to_nat (Z.log2 n))).
Proof.
  intros Hn. destruct (Z.eq_dec n 0) as [->|]; [done|].
  pose proof (Z.log2_spec n ltac:(lia)) as [_ H].
  pose proof (Z.log2_nonneg n).
  rewrite Nat2Z.inj_succ, Z2Nat.id by done.
  eapply Z.lt_le_trans; [done|]. apply Z.pow_le_mono_l; lia.
Qed.

(** Any width that holds [n] gives its decimal representation. *)
Lemma utoa_width n k :
  0 <= n < 10 ^ Z.of_nat k -> utoa n = canonical (to_digits k n).
Proof.
  intros Hn. unfold utoa, canonical.
  set (w := S (Z.to_nat (Z.log2 n))).
  pose proof (log2_digits n ltac:(lia)) as Hw. fold w in Hw.
  destruct (Nat.le_ge_cases w k).
  - replace k with ((k - w) + w)%nat by lia.
    by rewrite to_digits_pad, drop_zeros_replicate by lia.
  - replace w with ((w - k) + k)%nat by lia.
    by rewrite to_digits_pad, drop_zeros_replicate by lia.
Qed.

Lemma utoa_val n : 0 <= n -> digits_val (utoa n) = n.
Proof.
  intros Hn. pose proof (log2_digits n Hn) as Hw. unfold utoa, canonical.
  destruct (drop_zeros _) eqn:E.
  - pose proof (drop_zeros_val (to_digits (S (Z.to_nat (Z.log2 n))) n)) as H.
    rewrite E, digits_val_to_digits, Z.mod_small in H by lia. 
    change (digits_val [zero]) with 0. done.
  - rewrite <- E, drop_zeros_val, digits_val_to_digits. apply Z.mod_small; lia.
Qed.

Lemma utoa_digits n : forallb is_digit (utoa n) = true.
Proof.
  unfold utoa, canonical. destruct (drop_zeros _) eqn:E; [done|].
  rewrite <- E. apply drop_zeros_digits, to_digits_digits.
Qed.

Lemma utoa_length n k : 0 <= n < 10 ^ Z.of_nat (S k) -> (1 <= length (utoa n) <= S k)%nat.
Proof.
  intros Hn. rewrite (utoa_width n (S k)) by done. unfold canonical.
  destruct (drop_zeros_spec (to_digits (S k) n)) as [_ H].
  rewrite to_digits_length in H.
  destruct (drop_zeros _) eqn:E; simpl in *; lia.
Qed.

Lemma utoa_nonempty n : utoa n <> [].
Proof. unfold utoa, canonical. by destruct (drop_zeros _). Qed.

(** Zero-padding [utoa] to a width that holds [r] yields exactly its digits. *)
Lemma utoa_pad k r : 0 <= r < 10 ^ Z.of_nat (S k) ->
  replicate (S k - length (utoa r)) zero ++ utoa r = to_digits (S k) r.
Proof.
  intros Hr. rewrite (utoa_width r (S k)) by done. unfold canonical.
  destruct (drop_zeros_spec (to_digits (S k) r)) as [H _].
  rewrite to_digits_length in H.
  destruct (drop_zeros _) eqn:E.
  - rewrite H. rewrite app_nil_r. cbn [length]. rewrite Nat.sub_0_r.
    replace (S k - 1)%nat with k by lia. by rewrite replicate_S_end.
  - by rewrite H.
Qed.

Lemma utoa_split n k : 10 ^ Z.of_nat k <= n ->
  utoa n = utoa (n / 10 ^ Z.of_nat k) ++ to_digits k (n mod 10 ^ Z.of_nat k).
Proof.
  intros Hn. assert (Hp : 0 < 10 ^ Z.of_nat k) by (apply Z.pow_pos_nonneg; lia).
  set (w := S (Z.to_nat (Z.log2 n))).
  pose proof (log2_digits n ltac:(lia)) as Hw. fold w in Hw.
  assert (Hq : 0 < n / 10 ^ Z.of_nat k) by (apply Z.div_str_pos; lia).
  assert (Hqw : n / 10 ^ Z.of_nat k < 10 ^ Z.of_nat w)
    by (pose proof (Z.div_le_upper_bound n (10 ^ Z.of_nat k) n Hp); nia).
  rewrite (utoa_width n (w + k)), (utoa_width (n / _) w) by
    (rewrite ?Nat2Z.inj_add, ?Z.pow_add_r by lia; nia).
  rewrite to_digits_split, (to_digits_mod k n). unfold canonical.
  assert (Hne : drop_zeros (to_digits w (n / 10 ^ Z.of_nat k)) <> []).
  { intros E. pose proof (drop_zeros_val (to_digits w (n / 10 ^ Z.of_nat k))) as H.
    rewrite E, digits_val_to_digits, Z.mod_small in H by lia.
    change (digits_val []) with 0 in H. lia. }
  rewrite drop_zeros_app by done.
  destruct (drop_zeros _) eqn:E; [done|]. done.
Qed.

Lemma utoa_small n k : 0 <= n < 10 ^ Z.of_nat (S k) -> 
  (length (utoa n) <= S k)%nat.
Proof. intros H. apply utoa_length in H. lia. Qed.

Lemma utoa_long n k : 10 ^ Z.of_nat k <= n -> (k < length (utoa n))%nat.
Proof.
  intros H. rewrite (utoa_split n k H), length_app, to_digits_length.
  destruct (utoa _) eqn:E; [by apply utoa_nonempty in E|]. simpl. lia.
Qed.

(** ** Parsing what was printed *)

Lemma is_digit_dot c : is_digit c = true -> bool_decide (c = dot) = false.
Proof. intros H. apply bool_decide_eq_false_2. intros ->. done. Qed.

Lemma scan_digits l : forallb is_digit l = true ->
  forall rest fracOk acc count fcount,
  scan (l ++ rest) fracOk acc count fcount =
  scan rest fracOk (acc * 10 ^ Z.of_nat (length l) + digits_val l) (count + length l)
    (if fracOk then fcount else (fcount + length l)%nat).
Proof.
  intros Hl rest fracOk. induction l as [|c l IH]; intros acc count fcount.
  - simpl. rewrite Nat.add_0_r, Z.mul_1_r, Z.add_0_r. by destruct fracOk; rewrite ?Nat.add_0_r.
  - simpl in Hl; zbool. cbn [app scan].
    rewrite is_digit_dot by done. rewrite H. cbn [andb]. rewrite IH by done.
    f_equal.
    + unfold digits_val. cbn [fold_left length]. rewrite (digits_val_acc l (10 * 0 + _)).
      rewrite Nat2Z.inj_succ, Z.pow_succ_r by lia. unfold digits_val. lia.
    + cbn [length]. lia.
    + destruct fracOk; [done|]. cbn [length]. lia.
Qed.

Lemma strip_digits_head l :
  forallb is_digit l = true -> l <> [] ->
  exists c l', l = c :: l' /\ (if ascii_dec c minus then true else false) = false.
Proof.
  destruct l as [|c l]; [done|]. simpl. intros H _; zbool.
  exists c, l. split; [done|]. by destruct (ascii_dec c minus) as [->|].
Qed.

Lemma SetString_decimal (neg : bool) ip fp :
  forallb is_digit ip = true -> forallb is_digit fp = true -> ip <> [] ->
  SetString ((if neg then [minus] else []) ++ ip ++ dot :: fp) =
  Some (norm (if neg then - digits_val (ip ++ fp) else digits_val (ip ++ fp))
             (10 ^ Z.of_nat (length fp))).
Proof.
  intros Hip Hfp Hne.
  assert (Escan : scan (ip ++ dot :: fp) true 0 0 0 =
                  Some (digits_val (ip ++ fp), (length ip + length fp)%nat, length fp)).
  { rewrite scan_digits by done. simpl.
    rewrite <- (app_nil_r fp) at 1. rewrite scan_digits by done. simpl.
    by rewrite digits_val_app. }
  destruct (strip_digits_head ip Hip Hne) as (c & ip' & -> & Hc).
  unfold SetString. destruct neg; cbn [app] in *.
  - destruct (ascii_dec minus minus); [|done]. rewrite Escan. done.
  - destruct (ascii_dec c minus); [done|]. rewrite Escan. done.
Qed.

Lemma itoa_sign z : itoa z = (if z <? 0 then [minus] else []) ++ utoa (Z.abs z).
Proof.
  unfold itoa. destruct (Z.ltb_spec z 0); simpl.
  - by rewrite Z.abs_neq by lia.
  - by rewrite Z.abs_eq by lia.
Qed.

Lemma ParseInt64_itoa z :
  ParseInt64 (itoa z) = if bool_decide (in_int 64 z) then Some z else None.
Proof.
  rewrite itoa_sign.
  pose proof (utoa_digits (Z.abs z)) as Hd. pose proof (utoa_nonempty (Z.abs z)) as Hne.
  pose proof (utoa_val (Z.abs z) (Z.abs_nonneg z)) as Hv.
  destruct (strip_digits_head _ Hd Hne) as (c & l & E & Hc). rewrite E in *.
  unfold ParseInt64. destruct (Z.ltb_spec z 0); cbn [app].
  - destruct (ascii_dec minus minus); [|done]. rewrite Hd, Hv.
    by replace (- Z.abs z) with z by lia.
  - destruct (ascii_dec c minus); [done|]. rewrite Hd, Hv.
    by replace (Z.abs z) with z by lia.
Qed.

Lemma norm_spec n d : 0 < d ->
  exists g, 0 < g /\ n = g * Num (norm n d) /\ d = g * Denom (norm n d) /\
            0 < Denom (norm n d).
Proof.
  intros Hd. exists (Z.gcd n d). unfold norm; cbn [Num Denom].
  pose proof (Z.gcd_nonneg n d).
  assert (Z.gcd n d <> 0) by (intros E; apply Z.gcd_eq_0_r in E; lia).
  assert (Hn : n = Z.gcd n d * (n / Z.gcd n d))
    by (apply Z_div_exact_full_2; [done|apply Z.mod_divide; [done|apply Z.gcd_divide_l]]).
  assert (Hd' : d = Z.gcd n d * (d / Z.gcd n d))
    by (apply Z_div_exact_full_2; [done|apply Z.mod_divide; [done|apply Z.gcd_divide_r]]).
  repeat split; [lia|done|done|]. nia.
Qed.

Lemma norm_coprime n d : 0 < d -> Z.gcd (Num (norm n d)) (Denom (norm n d)) = 1.
Proof.
  intros Hd. unfold norm; cbn [Num Denom]. apply Z.gcd_div_gcd; [|done].
  intros E; apply Z.gcd_eq_0_r in E; lia.
Qed.

(** Printing [z / 10^k] with [k] fractional digits is exact. *)
Lemma FloatString_decimal z k :
  let p := 10 ^ Z.of_nat (S k) in
  FloatString (norm z p) (S k) =
  (if z <? 0 then [minus] else []) ++
  utoa (Z.abs z / p) ++ dot :: to_digits (S k) (Z.abs z mod p).
Proof.
  intros p. assert (Hp : 0 < p) by (apply Z.pow_pos_nonneg; lia).
  destruct (norm_spec z p Hp) as (g & Hg & Hz & Hpg & Hd).
  set (n := Num (norm z p)) in *. set (d := Denom (norm z p)) in *.
  assert (Es : (n <? 0) = (z <? 0)) by nia.
  assert (Ea : Z.abs z = g * Z.abs n) by (rewrite Hz, Z.abs_mul; lia).
  unfold FloatString, IsInt. fold n d p.
  destruct (Z.eqb_spec d 1) as [E1|Hd1].
  - rewrite E1, Z.mul_1_r in Hpg. rewrite itoa_sign, Es, <- app_assoc.
    rewrite Ea, Hpg, Z.mul_comm, Z.div_mul, Z.mod_mul by lia.
    by rewrite to_digits_0.
  - assert (Eq : Z.abs z / p = Z.abs n / d)
      by (rewrite Ea, Hpg; apply Z.div_mul_cancel_l; lia).
    assert (Er : Z.abs z mod p = g * (Z.abs n mod d))
      by (rewrite Ea, Hpg; apply Z.mul_mod_distr_l; lia).
    assert (Er0 : Z.abs n mod d * p = Z.abs z mod p * d) by (rewrite Er, Hpg; lia).
    rewrite Er0, Z.div_mul, Z.mod_mul by lia.
    replace (d <=? 0 + 0) with false by lia.
    rewrite Es, Eq, utoa_pad; [done|]. apply Z.mod_pos_bound. done.
Qed.

End BigRat.
