(* ===== verification/Amount.v ===== *)
(** * Amounts (amount/main.go)

    Conversion between 64-bit raw amounts and decimal strings with seven
    fractional digits. *)
From S2P Require Import Prelude BigRat.
From Stdlib Require Import Ascii.

Module Amount.
Import BigRat.

Abbreviation chars := String.list_ascii_of_string.
Abbreviation str := String.string_of_list_ascii.

Definition One : Z := 10000000.
Definition bigOne : Rat := mkRat One 1.

Definition ParseInt64 (v : string) : res Z :=
  if negb (validAmountSimple (chars v)) then Err "invalid amount format" else
  match SetString (chars v) with
  | None => Err "cannot parse amount"
  | Some r =>
      let r := Mul r bigOne in
      if negb (IsInt r) then Err "more than 7 significant digits" else
      match BigRat.ParseInt64 (FloatString r 0) with
      | None => Err "amount outside bounds of int64"
      | Some i => Ok i
      end
  end.

Definition Parse (v : string) : res Z := i ← ParseInt64 v; Ok (to_int64 i).

Definition MustParse (v : string) : res Z :=
  match Parse v with Err e => Panic e | r => r end.

Definition IntStringToAmount (v : string) : res string :=
  let v := chars v in
  if negb (negativePositiveNumberOnly v) then Err "invalid amount format" else
  let '(negative, v) :=
    match v with
    | c :: cs => if ascii_dec c minus then (true, cs) else (false, v)
    | [] => (false, v)
    end in
  let l := length v in
  let r :=
    if Nat.leb l 7 then zero :: dot :: replicate (7 - l) zero ++ v
    else take (l - 7) v ++ dot :: take 7 (drop (l - 7) v) in
  Ok (str (if (negative : bool) then minus :: r else r)).

Definition StringFromInt64 (v : Z) : string :=
  str (FloatString (Quo (mkRat v 1) bigOne) 7).

Definition String_ (v : Z) : string := StringFromInt64 v.

(** xdr.Int128Parts: a signed high half and an unsigned low half. *)
Record Int128Parts := { Hi : Z; Lo : Z }.

Definition String128 (v : Int128Parts) : string :=
  let val := Z.shiftl (Hi v) 64 + Lo v in
  str (FloatString (Quo (mkRat val 1) bigOne) 7).

(** ** Exactness of printing *)

Definition decimal7 (z : Z) : list ascii :=
  (if z <? 0 then [minus] else []) ++
  utoa (Z.abs z / One) ++ dot :: to_digits 7 (Z.abs z mod One).

Lemma FloatString7 z : FloatString (Quo (mkRat z 1) bigOne) 7 = decimal7 z.
Proof.
  unfold Quo; simpl Num; simpl Denom. rewrite Z.mul_1_r.
  exact (FloatString_decimal z 6).
Qed.

Lemma chars_str l : chars (str l) = l.
Proof. apply String.list_ascii_of_string_of_list_ascii. Qed.

Lemma SetString_decimal7 z : exists g, 0 < g /\
  exists r, SetString (decimal7 z) = Some r /\ z = g * Num r /\ One = g * Denom r
            /\ 0 < Denom r /\ Z.gcd (Num r) (Denom r) = 1.
Proof.
  pose proof (Z.mod_pos_bound (Z.abs z) One ltac:(done)) as Hm.
  assert (Hq : 0 <= Z.abs z / One) by (apply Z.div_pos; lia).
  unfold decimal7. rewrite SetString_decimal by
    (apply utoa_digits || apply to_digits_digits || apply utoa_nonempty).
  rewrite digits_val_app, utoa_val, digits_val_to_digits, to_digits_length by done.
  change (10 ^ Z.of_nat 7) with One. rewrite Z.mod_small by done.
  assert (Ez : (if z <? 0 then - (Z.abs z / One * One + Z.abs z mod One)
                else Z.abs z / One * One + Z.abs z mod One) = z).
  { pose proof (Z.div_mod (Z.abs z) One ltac:(done)). 
    destruct (Z.ltb_spec z 0); lia. }
  rewrite Ez. destruct (norm_spec z One ltac:(done)) as (g & Hg & H1 & H2 & H3).
  exists g. split; [done|]. eexists. split; [done|].
  repeat split; try done. by apply norm_coprime.
Qed.

Lemma coprime_factor a b c : Z.gcd a b = 1 -> 0 < b -> (b | a * c) -> (b | c).
Proof. intros Hg Hb Hd. apply (Z.gauss b a c); [done|]. by rewrite Z.gcd_comm. Qed.

(** Scaling by [One] gives an integer exactly when seven digits suffice. *)
Lemma Mul_bigOne r : 0 < Denom r ->
  (IsInt (Mul r bigOne) = true <-> exists i, i * Denom r = Num r * One) /\
  (IsInt (Mul r bigOne) = true -> Num (Mul r bigOne) * Denom r = Num r * One).
Proof.
  intros Hd. unfold Mul, bigOne; simpl Num; simpl Denom. rewrite Z.mul_1_r.
  destruct (norm_spec (Num r * One) (Denom r) Hd) as (g & Hg & Hn & Hdg & Hd').
  pose proof (norm_coprime (Num r * One) (Denom r) Hd) as Hc.
  set (x := norm (Num r * One) (Denom r)) in *. unfold IsInt.
  assert (Hint : (Denom x =? 1) = true -> Num x * Denom r = Num r * One).
  { intros E; zbool. rewrite E in Hdg. nia. }
  split; [|done]. split; [intros E; exists (Num x); auto|].
  intros [i Hi]. apply Z.eqb_eq.
  assert (Hdiv : Num x = i * Denom x) by nia.
  assert ((Denom x | 1)).
  { apply (coprime_factor (Num x) (Denom x) 1 Hc Hd'). rewrite Hdiv.
    exists i. lia. }
  apply Z.divide_1_r_nonneg; [lia|done].
Qed.

Lemma SetString_pos s r : SetString s = Some r -> 0 < Denom r.
Proof.
  unfold SetString. intros H. repeat case_scrutinee_in H; simplify_eq;
  edestruct norm_spec as (_ & _ & _ & _ & Hd); try exact Hd; apply Z.pow_pos_nonneg; lia.
Qed.

(** The integer a syntactically valid amount denotes. *)
Lemma ParseInt64_iff v i :
  ParseInt64 v = Ok i <->
  validAmountSimple (chars v) = true /\
  exists r, SetString (chars v) = Some r /\ i * Denom r = Num r * One /\ in_int 64 i.
Proof.
  unfold ParseInt64. destruct (validAmountSimple (chars v)); simpl; [|naive_solver].
  destruct (SetString (chars v)) as [r|] eqn:Es; [|naive_solver].
  pose proof (SetString_pos _ _ Es) as Hd.
  destruct (Mul_bigOne r Hd) as [Hiff Hval].
  unfold FloatString. destruct (IsInt (Mul r bigOne)) eqn:Ei; cbn [negb].
  - rewrite app_nil_r, ParseInt64_itoa. specialize (Hval eq_refl).
    case_bool_decide as Hr; split.
    + intros [= <-]. eauto.
    + intros (_ & r' & [= <-] & Hi & _). f_equal.
      apply (Z.mul_cancel_r _ _ (Denom r)); lia.
    + done.
    + intros (_ & r' & [= <-] & Hi & Hin). destruct Hr.
      by assert (i = Num (Mul r bigOne)) as <- by
        (apply (Z.mul_cancel_r _ _ (Denom r)); lia).
  - split; [done|]. intros (_ & r' & [= <-] & Hi & _). exfalso.
    cut (false = true); [done|]. apply Hiff. eauto.
Qed.

Lemma decimal7_valid z : in_int 64 z -> validAmountSimple (decimal7 z) = true.
Proof.
  intros Hz. unfold in_int in Hz.
  assert (Hl : (1 <= length (utoa (Z.abs z / One)) <= 12)%nat).
  { apply utoa_length. split; [apply Z.div_pos; unfold One; lia|].
    apply Z.div_lt_upper_bound; unfold One; lia. }
  set (body := utoa (Z.abs z / One) ++ dot :: to_digits 7 (Z.abs z mod One)).
  assert (Hb : strip_minus (decimal7 z) = body).
  { unfold decimal7. destruct (z <? 0); [done|].
    destruct (strip_digits_head _ (utoa_digits (Z.abs z / One)) (utoa_nonempty _))
      as (c & l & E & Hc).
    unfold body. rewrite E. simpl. by destruct (ascii_dec c minus). }
  unfold validAmountSimple. rewrite Hb. unfold body.
  rewrite length_app. cbn [length]. rewrite to_digits_length.
  rewrite forallb_app. cbn [forallb].
  assert (Hd : forall l, forallb is_digit l = true ->
    forallb (fun c => bool_decide (c = dot) || is_digit c) l = true).
  { intros l H. apply forallb_forall. intros c Hc. 
    rewrite forallb_forall in H. rewrite (H c Hc). apply orb_true_r. }
  rewrite !Hd by (apply utoa_digits || apply to_digits_digits).
  rewrite bool_decide_eq_true_2 by done. cbn [andb orb].
  rewrite !andb_true_iff, !Z.leb_le. lia.
Qed.

(** Inserting the dot seven digits from the right of a padded digit string. *)
Lemma insert_dot n : 0 <= n ->
  (if Nat.leb (length (utoa n)) 7
   then zero :: dot :: replicate (7 - length (utoa n)) zero ++ utoa n
   else take (length (utoa n) - 7) (utoa n) ++
        dot :: take 7 (drop (length (utoa n) - 7) (utoa n)))
  = utoa (n / One) ++ dot :: to_digits 7 (n mod One).
Proof.
  intros Hn. destruct (Z.lt_ge_cases n One) as [Hs|Hl].
  - pose proof (utoa_small n 6 ltac:(unfold One in *; lia)).
    replace (Nat.leb _ 7) with true by (symmetry; apply Nat.leb_le; lia).
    rewrite Z.div_small, Z.mod_small by lia.
    rewrite (utoa_pad 6) by (unfold One in *; lia). done.
  - pose proof (utoa_long n 7 Hl).
    replace (Nat.leb _ 7) with false by (symmetry; apply Nat.leb_gt; lia).
    rewrite (utoa_split n 7 Hl). change (10 ^ Z.of_nat 7) with One.
    rewrite length_app, to_digits_length.
    replace (_ + 7 - 7)%nat with (length (utoa (n / One))) by lia.
    rewrite take_app_length, drop_app_length.
    by rewrite take_ge by (rewrite to_digits_length; lia).
Qed.

Lemma IntStringToAmount_itoa z :
  IntStringToAmount (str (itoa z)) = Ok (str (decimal7 z)).
Proof.
  unfold IntStringToAmount, decimal7. rewrite chars_str, itoa_sign.
  pose proof (utoa_digits (Z.abs z)) as Hd. pose proof (utoa_nonempty (Z.abs z)) as Hne.
  pose proof (insert_dot (Z.abs z) (Z.abs_nonneg z)) as Hbody.
  destruct (strip_digits_head _ Hd Hne) as (c & l & E & Hc).
  rewrite E in *. unfold negativePositiveNumberOnly.
  assert (Hlen : (1 <=? Z.of_nat (length (c :: l))) = true)
    by (apply Z.leb_le; cbn [length]; lia).
  destruct (z <? 0); cbn [app strip_minus]; cbv zeta.
  - destruct (ascii_dec minus minus); [|done]. by rewrite Hlen, Hd, Hbody.
  - destruct (ascii_dec c minus); [done|]. by rewrite Hlen, Hd, Hbody.
Qed.

Lemma ParseInt64_StringFromInt64 v : in_int 64 v -> ParseInt64 (StringFromInt64 v) = Ok v.
Proof.
  intros Hv. apply ParseInt64_iff. unfold StringFromInt64. rewrite chars_str, FloatString7.
  split; [by apply decimal7_valid|].
  destruct (SetString_decimal7 v) as (g & Hg & r & Es & H1 & H2 & Hd & _).
  exists r. split; [done|]. split; [nia|done].
Qed.

Lemma Parse_String v : in_int 64 v -> Parse (String_ v) = Ok v.
Proof.
  intros Hv. unfold Parse, String_. rewrite ParseInt64_StringFromInt64, bind_Ok_l by done.
  by rewrite swrap_small by (done || lia).
Qed.

(** ** Properties *)

(** Printing an int64 amount and parsing it back yields the amount, for
    every int64, with no loss and no error. *)
Theorem amount_roundtrip (v : Z) (Hv : in_int 64 v) :
  ParseInt64 (StringFromInt64 v) = Ok v /\ MustParse (String_ v) = Ok v.
Proof.
  split; [by apply ParseInt64_StringFromInt64|]. unfold MustParse. by rewrite Parse_String.
Qed.

Lemma amount_roundtrip_witness :
  StringFromInt64 (-9223372036854775808) = "-922337203685.4775808"%string /\
  ParseInt64 (StringFromInt64 (-9223372036854775808)) = Ok (-9223372036854775808).
Proof.
  split; [vm_compute; reflexivity|].
  apply (amount_roundtrip (-9223372036854775808)). unfold in_int; simpl; lia.
Defined.

(** [ParseInt64] accepts exactly the strings of the amount syntax that
    denote a multiple of 10^-7 in int64 range and returns that multiple: no
    rounding, no wrap-around, and it never panics. *)
Theorem amount_parse_spec (v : string) (i : Z) :
  (ParseInt64 v = Ok i <->
   validAmountSimple (chars v) = true /\
   exists r, SetString (chars v) = Some r /\ i * Denom r = Num r * One /\ in_int 64 i) /\
  (forall m, ParseInt64 v <> Panic m).
Proof.
  split; [apply ParseInt64_iff|]. intros m. unfold ParseInt64.
  repeat case_scrutinee; done.
Qed.

(** [IntStringToAmount] applied to the decimal representation of any
    integer, of any size, prints the same string as [StringFromInt64] does on
    int64 values and [String128] on 128-bit values. *)
Theorem IntStringToAmount_agrees (z : Z) (p : Int128Parts) (Hlo : in_uint 64 (Lo p)) :
  IntStringToAmount (str (itoa z)) = Ok (StringFromInt64 z) /\
  IntStringToAmount (str (itoa (Hi p * 2 ^ 64 + Lo p))) = Ok (String128 p).
Proof.
  unfold StringFromInt64, String128. rewrite !FloatString7, Z.shiftl_mul_pow2 by lia.
  by rewrite !IntStringToAmount_itoa.
Qed.

Lemma IntStringToAmount_agrees_witness :
  String128 {| Hi := 5; Lo := 18446744073709551615 |} = "11068046444225.7309695"%string /\
  IntStringToAmount (str (itoa (5 * 2 ^ 64 + 18446744073709551615))) =
    Ok (String128 {| Hi := 5; Lo := 18446744073709551615 |}).
Proof.
  split; [vm_compute; reflexivity|].
  apply (IntStringToAmount_agrees 0 {| Hi := 5; Lo := 18446744073709551615 |}).
  unfold in_uint; simpl; lia.
Defined.

End Amount.
