(* ===== verification/Price.v ===== *)
(** * Prices (price/main.go, xdr/price.go, support/ordered/math.go)

    Offer prices are fractions of [int32]s.  This file models the rounding
    arithmetic that trades use (128-bit products over [math/bits]) and the order
    on prices. *)
From S2P Require Import Prelude.

(** ** support/ordered *)
Module Ordered.

Definition Min (a b : Z) : Z := if a <=? b then a else b.
Definition Max (a b : Z) : Z := if a >? b then a else b.

(** [for i := 0; i < len(slice); i++]: [i = 0] is the head of the slice. *)
Fixpoint extremum_loop (better : Z -> Z -> bool) (first : bool) (best : Z) (slice : list Z) : Z :=
  match slice with
  | [] => best
  | x :: rest =>
      extremum_loop better false (if first || better x best then x else best) rest
  end.
Definition MinSlice (slice : list Z) : Z := extremum_loop Z.ltb true 0 slice.
Definition MaxSlice (slice : list Z) : Z := extremum_loop Z.gtb true 0 slice.

Lemma Min_min a b : Min a b = Z.min a b.
Proof. unfold Min. destruct (Z.leb_spec a b); lia. Qed.
Lemma Max_max a b : Max a b = Z.max a b.
Proof. unfold Max. destruct (a >? b) eqn:E; zbool; lia. Qed.

End Ordered.

(** ** math/bits, as documented by the Go standard library *)
Module Bits.

Definition Mul64 (x y : Z) : Z * Z := (x * y / 2 ^ 64, x * y mod 2 ^ 64).
Definition Add64 (x y carry : Z) : Z * Z :=
  ((x + y + carry) mod 2 ^ 64, (x + y + carry) / 2 ^ 64).
Definition Div64 (hi lo y : Z) : res (Z * Z) :=
  if y =? 0 then Panic "integer divide by zero" else
  if y <=? hi then Panic "integer overflow" else
  Ok ((hi * 2 ^ 64 + lo) / y, (hi * 2 ^ 64 + lo) mod y).

End Bits.

Module Price.

Definition ErrDivisionByZero : error := "division by 0".
Definition ErrOverflow : error := "overflow".

Definition MulFractionRoundDown (x n d : Z) : res Z :=
  if d =? 0 then Err ErrDivisionByZero else
  let '(hi, lo) := Bits.Mul64 (to_uint64 x) (to_uint64 n) in
  let denominator := to_uint64 d in
  if denominator <=? hi then Err ErrOverflow else
  '(q, _) ← Bits.Div64 hi lo denominator;
  if q >? MaxInt64 then Err ErrOverflow else Ok (to_int64 q).

Definition mulFractionRoundUp (x n d : Z) : res Z :=
  if d =? 0 then Err ErrDivisionByZero else
  let '(hi, lo) := Bits.Mul64 (to_uint64 x) (to_uint64 n) in
  let '(lo, carry) := Bits.Add64 lo (to_uint64 (to_int64 (d - 1))) 0 in
  let hi := to_uint64 (hi + carry) in
  let denominator := to_uint64 d in
  if denominator <=? hi then Err ErrOverflow else
  '(q, _) ← Bits.Div64 hi lo denominator;
  if q >? MaxInt64 then Err ErrOverflow else Ok (to_int64 q).

Definition ConvertToBuyingUnits (sellingOfferAmount sellingUnitsNeeded pricen priced : Z)
  : res (Z * Z) :=
  result ← (if pricen <=? priced then
              r ← MulFractionRoundDown sellingOfferAmount pricen priced;
              mulFractionRoundUp r priced pricen
            else Ok sellingOfferAmount);
  let result := Ordered.Min result sellingUnitsNeeded in
  let sellingUnitsExtracted := result in
  result ← mulFractionRoundUp result pricen priced;
  Ok (result, sellingUnitsExtracted).

(** ** Reference definitions: exact rounding over the integers *)

Definition ceil_div (a b : Z) : Z := (a + b - 1) / b.

Definition checked64 (z : Z) : res Z := if z >? MaxInt64 then Err ErrOverflow else Ok z.

(** What can be bought of an offer of [amount] at price [n/d]. *)
Definition offer_bound (amount n d : Z) : Z :=
  if n <=? d then ceil_div (amount * n / d * d) n else amount.

Definition buying_units_spec (amount needed n d : Z) : res (Z * Z) :=
  let s := Z.min (offer_bound amount n d) needed in
  b ← checked64 (ceil_div (s * n) d); Ok (b, s).

Definition nat64 (z : Z) : Prop := 0 <= z < 2 ^ 63.

Lemma ceil_div_bounds a b : 0 < b -> ceil_div a b * b >= a /\ (ceil_div a b - 1) * b < a.
Proof.
  intros Hb. unfold ceil_div.
  pose proof (Z.div_mod (a + b - 1) b). pose proof (Z.mod_pos_bound (a + b - 1) b). nia.
Qed.

Lemma ceil_div_le a b c : 0 < b -> a <= c * b -> ceil_div a b <= c.
Proof. intros Hb H. pose proof (ceil_div_bounds a b Hb). nia. Qed.

Lemma ceil_div_nonneg a b : 0 < b -> 0 <= a -> 0 <= ceil_div a b.
Proof. intros. unfold ceil_div. apply Z.div_pos; lia. Qed.

(** Both roundings divide a 127-bit [p = hi * 2^64 + lo]. *)
Lemma div128_checked p d :
  0 <= p < 2 ^ 127 -> 0 < d < 2 ^ 63 ->
  (if d <=? p / 2 ^ 64 then Err ErrOverflow else
   '(q, _) ← Bits.Div64 (p / 2 ^ 64) (p mod 2 ^ 64) d;
   if q >? MaxInt64 then Err ErrOverflow else Ok (to_int64 q))
  = checked64 (p / d).
Proof.
  intros Hp Hd. unfold Bits.Div64, checked64, MaxInt64.
  replace (d =? 0) with false by lia.
  pose proof (Z.div_mod p (2 ^ 64)). pose proof (Z.mod_pos_bound p (2 ^ 64)).
  replace (p / 2 ^ 64 * 2 ^ 64 + p mod 2 ^ 64) with p by lia.
  pose proof (Z.div_mod p d). pose proof (Z.mod_pos_bound p d).
  destruct (Z.leb_spec d (p / 2 ^ 64)).
  - replace (p / d >? 2 ^ 63 - 1) with true; [done|]. symmetry. zify. nia.
  - simpl. destruct (p / d >? 2 ^ 63 - 1) eqn:E; [done|]. zbool.
    rewrite swrap_small; [done|lia|]. unfold in_int.
    assert (0 <= p / d) by (apply Z.div_pos; lia). lia.
Qed.

Lemma MulFractionRoundDown_exact x n d :
  nat64 x -> nat64 n -> 0 < d < 2 ^ 63 ->
  MulFractionRoundDown x n d = checked64 (x * n / d).
Proof.
  unfold nat64; intros Hx Hn Hd. unfold MulFractionRoundDown, Bits.Mul64.
  replace (d =? 0) with false by lia.
  rewrite !uwrap_small by lia. apply div128_checked; nia.
Qed.

Lemma mulFractionRoundUp_exact x n d :
  nat64 x -> nat64 n -> 0 < d < 2 ^ 63 ->
  mulFractionRoundUp x n d = checked64 (ceil_div (x * n) d).
Proof.
  unfold nat64; intros Hx Hn Hd. unfold mulFractionRoundUp, Bits.Mul64, Bits.Add64.
  replace (d =? 0) with false by lia.
  rewrite (swrap_small 64 (d - 1)) by (unfold in_int; lia).
  rewrite (uwrap_small 64 x), (uwrap_small 64 n), (uwrap_small 64 (d - 1)),
    (uwrap_small 64 d) by lia.
  rewrite Z.add_0_r.
  set (p := x * n + (d - 1)).
  assert (Hp : 0 <= p < 2 ^ 127) by (unfold p; nia).
  assert (Ehi : x * n / 2 ^ 64 + (x * n mod 2 ^ 64 + (d - 1)) / 2 ^ 64 = p / 2 ^ 64).
  { unfold p. pose proof (Z.div_mod (x * n) (2 ^ 64)).
    replace (x * n + (d - 1)) with
      (x * n / 2 ^ 64 * 2 ^ 64 + (x * n mod 2 ^ 64 + (d - 1))) by lia.
    by rewrite Z.div_add_l by lia. }
  assert (Elo : (x * n mod 2 ^ 64 + (d - 1)) mod 2 ^ 64 = p mod 2 ^ 64)
    by (unfold p; by rewrite Zplus_mod_idemp_l).
  rewrite Ehi, Elo.
  assert (0 <= p / 2 ^ 64 < 2 ^ 64) by
    (split; [apply Z.div_pos; lia|apply Z.div_lt_upper_bound; lia]).
  rewrite (uwrap_small 64 (p / 2 ^ 64)) by lia.
  unfold ceil_div. replace (x * n + d - 1) with p by (unfold p; lia).
  by apply div128_checked.
Qed.

Lemma offer_bound_le amount n d :
  0 <= amount -> 0 < n -> 0 < d -> 0 <= offer_bound amount n d <= amount.
Proof.
  intros Ha Hn Hd. unfold offer_bound. destruct (Z.leb_spec n d); [|lia].
  assert (0 <= amount * n / d) by (apply Z.div_pos; nia).
  pose proof (Z.mul_div_le (amount * n) d Hd).
  split; [apply ceil_div_nonneg; nia|apply ceil_div_le; nia].
Qed.

Lemma ConvertToBuyingUnits_exact amount needed n d :
  nat64 amount -> nat64 needed -> 0 < n < 2 ^ 63 -> 0 < d < 2 ^ 63 ->
  ConvertToBuyingUnits amount needed n d = buying_units_spec amount needed n d.
Proof.
  unfold nat64; intros Ha Hneed Hn Hd.
  pose proof (offer_bound_le amount n d ltac:(lia) ltac:(lia) ltac:(lia)) as Hb.
  unfold ConvertToBuyingUnits, buying_units_spec.
  assert (E : (if n <=? d then
                 r ← MulFractionRoundDown amount n d; mulFractionRoundUp r d n
               else Ok amount) = Ok (offer_bound amount n d)).
  { unfold offer_bound in *. destruct (Z.leb_spec n d) as [Hle|]; [|done].
    assert (0 <= amount * n / d <= amount) by
      (split; [apply Z.div_pos; nia|apply Z.div_le_upper_bound; nia]).
    rewrite MulFractionRoundDown_exact by (unfold nat64; lia).
    unfold checked64, MaxInt64. replace (amount * n / d >? 2 ^ 63 - 1) with false by lia.
    simpl. rewrite mulFractionRoundUp_exact by (unfold nat64; lia).
    unfold checked64, MaxInt64. by replace (ceil_div _ _ >? _) with false by lia. }
  rewrite E. simpl. rewrite Ordered.Min_min.
  rewrite mulFractionRoundUp_exact by (unfold nat64; lia). done.
Qed.

(** ** xdr.Price: a fraction of two [int32]s *)

Record t := mk { N : Z; D : Z }.

#[global] Instance t_eq_dec : EqDecision t.
Proof. solve_decision. Defined.

Definition Equal (p q : t) : bool :=
  to_uint64 (to_uint64 (N p) * to_uint64 (D q)) =?
  to_uint64 (to_uint64 (N q) * to_uint64 (D p)).

Definition Cheaper (p q : t) : bool :=
  to_uint64 (to_uint64 (N p) * to_uint64 (D q)) <?
  to_uint64 (to_uint64 (N q) * to_uint64 (D p)).

Definition Invert (p : t) : t := mk (D p) (N p).

(** Prices of offers in the ledger are positive. *)
Definition positive (p : t) : Prop := 0 < N p < 2 ^ 31 /\ 0 < D p < 2 ^ 31.

Lemma Cheaper_lt p q :
  positive p -> positive q -> (Cheaper p q = true <-> N p * D q < N q * D p).
Proof.
  unfold positive, Cheaper; intros Hp Hq.
  rewrite (uwrap_small 64 (N p)), (uwrap_small 64 (N q)), (uwrap_small 64 (D p)),
    (uwrap_small 64 (D q)) by lia.
  rewrite !uwrap_small by nia. apply Z.ltb_lt.
Qed.

Lemma Equal_eq p q :
  positive p -> positive q -> (Equal p q = true <-> N p * D q = N q * D p).
Proof.
  unfold positive, Equal; intros Hp Hq.
  rewrite (uwrap_small 64 (N p)), (uwrap_small 64 (N q)), (uwrap_small 64 (D p)),
    (uwrap_small 64 (D q)) by lia.
  rewrite !uwrap_small by nia. apply Z.eqb_eq.
Qed.

Lemma Cheaper_irrefl p : positive p -> Cheaper p p = false.
Proof.
  intros Hp. destruct (Cheaper p p) eqn:E; [|done].
  apply Cheaper_lt in E; [lia|done|done].
Qed.

(** Not being cheaper is transitive: the order offers are sorted in is total. *)
Lemma not_Cheaper_trans p q r :
  positive p -> positive q -> positive r ->
  Cheaper q p = false -> Cheaper r q = false -> Cheaper r p = false.
Proof.
  intros Hp Hq Hr. rewrite <- !not_true_iff_false, !Cheaper_lt by done.
  unfold positive in *. nia.
Qed.

Lemma Cheaper_not_Cheaper_trans p q r :
  positive p -> positive q -> positive r ->
  Cheaper p q = true -> Cheaper r q = false -> Cheaper r p = false.
Proof.
  intros Hp Hq Hr. rewrite <- !not_true_iff_false, !Cheaper_lt by done.
  unfold positive in *. nia.
Qed.

Lemma Cheaper_le_trans p q r :
  positive p -> positive q -> positive r ->
  Cheaper p q = true -> Cheaper r q = false -> Cheaper p r = true.
Proof.
  intros Hp Hq Hr. rewrite <- !not_true_iff_false, !Cheaper_lt by done.
  unfold positive in *. nia.
Qed.

Lemma Cheaper_asym p q : positive p -> positive q -> Cheaper p q = true -> Cheaper q p = false.
Proof.
  intros Hp Hq. rewrite <- !not_true_iff_false, !Cheaper_lt by done. lia.
Qed.

(** ** Properties of the rounding arithmetic *)

(** C31: On non-negative 64-bit operands and a positive divisor the two 128-bit
    multiply-and-divide routines compute exactly floor(x*n/d) and
    ceil(x*n/d), reporting [ErrOverflow] precisely when the result exceeds
    [MaxInt64]; a zero divisor is [ErrDivisionByZero]; neither panics. *)
Theorem mulFraction_exact (x n d : Z)
  (Hx : nat64 x) (Hn : nat64 n) (Hd : nat64 d) :
  MulFractionRoundDown x n d =
    (if d =? 0 then Err ErrDivisionByZero else checked64 (x * n / d)) /\
  mulFractionRoundUp x n d =
    (if d =? 0 then Err ErrDivisionByZero else checked64 (ceil_div (x * n) d)).
Proof.
  destruct (Z.eqb_spec d 0) as [->|Hd0]; [done|].
  unfold nat64 in Hd.
  by rewrite MulFractionRoundDown_exact, mulFractionRoundUp_exact by (done || lia).
Qed.

Lemma mulFraction_exact_witness :
  mulFractionRoundUp MaxInt64 MaxInt64 MaxInt64 = Ok MaxInt64 /\
  mulFractionRoundUp MaxInt64 3 2 = Err ErrOverflow.
Proof.
  split.
  - rewrite (proj2 (mulFraction_exact MaxInt64 MaxInt64 MaxInt64
      ltac:(unfold nat64, MaxInt64; lia) ltac:(unfold nat64, MaxInt64; lia)
      ltac:(unfold nat64, MaxInt64; lia))). reflexivity.
  - reflexivity.
Defined.

(** Taking from an offer of [amount] at price [n/d]: the units sold are the
    smaller of what is needed and the rounding-corrected bound, never more than
    the offer holds; the price paid is rounded up, so the offer's owner never
    receives less than the exact price and less than one unit more; the call
    always succeeds when the price is at most 1, and otherwise fails only with
    [ErrOverflow] when the payment exceeds [MaxInt64]. *)
Theorem ConvertToBuyingUnits_spec (amount needed n d : Z)
  (Ha : nat64 amount) (Hneed : nat64 needed) (Hn : 0 < n < 2 ^ 63) (Hd : 0 < d < 2 ^ 63) :
  ConvertToBuyingUnits amount needed n d = buying_units_spec amount needed n d /\
  (n <= d -> is_ok (ConvertToBuyingUnits amount needed n d) = true) /\
  (forall b s, ConvertToBuyingUnits amount needed n d = Ok (b, s) ->
     0 <= s <= amount /\ s <= needed /\ s * n <= b * d /\ (b - 1) * d < s * n).
Proof.
  rewrite ConvertToBuyingUnits_exact by done. split; [done|].
  unfold nat64 in *.
  pose proof (offer_bound_le amount n d ltac:(lia) ltac:(lia) ltac:(lia)) as Hb.
  unfold buying_units_spec, checked64, MaxInt64.
  set (s := Z.min (offer_bound amount n d) needed).
  split.
  - intros Hle. assert (ceil_div (s * n) d <= s) by (apply ceil_div_le; nia).
    by replace (ceil_div (s * n) d >? 2 ^ 63 - 1) with false by lia.
  - intros b s'. case_scrutinee; simpl; [done|]. intros [= <- <-].
    pose proof (ceil_div_bounds (s * n) d ltac:(lia)). lia.
Qed.

Lemma ConvertToBuyingUnits_spec_witness :
  ConvertToBuyingUnits 100 7 2 3 = Ok (5, 7) /\ 7 * 2 <= 5 * 3 /\ (5 - 1) * 3 < 7 * 2.
Proof.
  split; [reflexivity|].
  apply (proj2 (proj2 (ConvertToBuyingUnits_spec 100 7 2 3
    ltac:(unfold nat64; lia) ltac:(unfold nat64; lia) ltac:(lia) ltac:(lia)))).
  reflexivity.
Defined.

End Price.
