(* ===== verification/PriceParse.v ===== *)
(** * Price parser (price/main.go: Parse, continuedFraction, floor)

    A decimal price is approximated by a fraction of two [int32]s with the
    convergents of its continued fraction.

    The entries of the Go slice [fractions] are [big.Rat]s built from the
    integers 0, 1 and floors by products and sums, hence integers: they are [Z]
    here, and only the last two entries are ever read. *)
From S2P Require Import Prelude BigRat Price.

Module PriceParse.
Import BigRat.

Definition Sub (x y : Rat) : Rat :=
  norm (Num x * Denom y - Num y * Denom x) (Denom x * Denom y).

Definition floor (n : Rat) : Z := Num n / Denom n.

(** One iteration per unit of fuel; [h2/k2] and [h1/k1] are
    [fractions[i-2]] and [fractions[i-1]]. *)
Fixpoint cf_loop (fuel : nat) (number : Rat) (h2 k2 h1 k1 : Z) : option (Z * Z) :=
  match fuel with
  | O => None
  | S fuel =>
      if Num number >? MaxInt32 * Denom number then Some (h1, k1) else
      let a := floor number in
      let f := Sub number (mkRat a 1) in
      let h := a * h1 + h2 in
      let k := a * k1 + k2 in
      if (h >? MaxInt32) || (k >? MaxInt32) then Some (h1, k1) else
      if Num f =? 0 then Some (h, k) else
      cf_loop fuel (Quo (mkRat 1 1) f) h1 k1 h k
  end.

(** The denominators at least double every second iteration and the loop stops
    once they pass [MaxInt32], so 70 iterations are never exhausted. *)
Definition cf_fuel : nat := 70.

Definition continuedFraction (price : string) : res Price.t :=
  let price := String.list_ascii_of_string price in
  if negb (validAmountSimple price) then Err "invalid price format" else
  match SetString price with
  | None => Err "cannot parse price"
  | Some number =>
      match cf_loop cf_fuel number 0 1 1 0 with
      | None => Panic "out of fuel"
      | Some (n, d) =>
          if (n =? 0) || (d =? 0) then Err "Couldn't find approximation"
          else Ok (Price.mk (to_int32 (to_int64 n)) (to_int32 (to_int64 d)))
      end
  end.

Definition Parse (v : string) : res Price.t := continuedFraction v.

Definition MustParse (v : string) : res Price.t :=
  match Parse v with Err e => Panic e | r => r end.

(** ** One step of the expansion *)

Definition lowest (x : Rat) : Prop := 0 < Denom x /\ Z.gcd (Num x) (Denom x) = 1.

Lemma norm_lowest n d : 0 < d -> Z.gcd n d = 1 -> norm n d = mkRat n d.
Proof. intros Hd Hg. unfold norm. by rewrite Hg, !Z.div_1_r. Qed.

Lemma SetString_lowest s r : SetString s = Some r -> lowest r.
Proof.
  unfold SetString. intros H.
  repeat case_scrutinee_in H; simplify_eq; split;
    try (edestruct norm_spec as (_ & _ & _ & _ & Hd); [|exact Hd]);
    try apply norm_coprime; apply Z.pow_pos_nonneg; lia.
Qed.

Lemma Sub_floor x : lowest x ->
  Sub x (mkRat (floor x) 1) = mkRat (Num x mod Denom x) (Denom x).
Proof.
  intros [Hd Hg]. unfold Sub, floor; cbn [Num Denom]. rewrite !Z.mul_1_r.
  replace (Num x - Num x / Denom x * Denom x) with (Num x mod Denom x)
    by (rewrite Z.mod_eq by lia; lia).
  apply norm_lowest; [done|].
  by rewrite Z.gcd_mod, Z.gcd_comm by lia.
Qed.

Lemma Quo_floor x : lowest x -> Num x mod Denom x <> 0 ->
  Quo (mkRat 1 1) (mkRat (Num x mod Denom x) (Denom x)) =
    mkRat (Denom x) (Num x mod Denom x) /\
  lowest (mkRat (Denom x) (Num x mod Denom x)) /\
  Num x mod Denom x < Denom x.
Proof.
  intros [Hd Hg] Hr. pose proof (Z.mod_pos_bound (Num x) (Denom x) Hd).
  assert (Hg' : Z.gcd (Denom x) (Num x mod Denom x) = 1)
    by (rewrite Z.gcd_comm, Z.gcd_mod by lia; by rewrite Z.gcd_comm).
  unfold Quo; cbn [Num Denom]. rewrite !Z.mul_1_l.
  rewrite norm_lowest by (done || lia).
  split; [done|]. split; [split; cbn [Num Denom]; [lia|done]|lia].
Qed.

Lemma lowest_int x : lowest x -> Num x mod Denom x = 0 -> Denom x = 1.
Proof.
  intros [Hd Hg] E.
  pose proof (Z.gcd_mod (Num x) (Denom x) ltac:(lia)) as H.
  rewrite E, Z.gcd_0_l, Z.gcd_comm, Hg in H. lia.
Qed.

(** ** Termination *)

Lemma cf_loop_fuel n : forall x h2 k2 h1 k1,
  lowest x -> Denom x < Num x -> 1 <= k2 <= k1 -> k1 <= MaxInt32 ->
  2 ^ 62 <= k1 * k2 * 2 ^ Z.of_nat n ->
  cf_loop n x h2 k2 h1 k1 <> None.
Proof.
  induction n as [|n IH]; intros x h2 k2 h1 k1 Hx Hlt Hk Hmax Hpot.
  { unfold MaxInt32 in *. nia. }
  cbn [cf_loop]. case_scrutinee; [done|]. case_scrutinee; [done|].
  rewrite Sub_floor by done. cbn [Num]. destruct (Z.eqb_spec (Num x mod Denom x) 0); [done|].
  destruct (Quo_floor x Hx ltac:(done)) as (-> & Hx' & Hlt').
  pose proof Hx as [Hd _].
  assert (Ha : 1 <= floor x) by (unfold floor; apply Z.div_le_lower_bound; lia).
  zbool. apply IH; [done|done|nia|lia|].
  rewrite Nat2Z.inj_succ, Z.pow_succ_r in Hpot by lia.
  assert (0 < 2 ^ Z.of_nat n) by (apply Z.pow_pos_nonneg; lia).
  assert (2 * (k1 * k2) <= (floor x * k1 + k2) * k1) by nia. nia.
Qed.

Lemma cf_loop_total n x :
  lowest x -> 62 <= Z.of_nat n -> cf_loop (S (S n)) x 0 1 1 0 <> None.
Proof.
  intros Hx Hn62. cbn [cf_loop].
  case_scrutinee; [done|]. case_scrutinee; [done|].
  rewrite (Sub_floor x) by done. cbn [Num]. destruct (Z.eqb_spec (Num x mod Denom x) 0); [done|].
  destruct (Quo_floor x Hx ltac:(done)) as (-> & Hx' & Hlt).
  set (x1 := mkRat (Denom x) (Num x mod Denom x)) in *.
  case_scrutinee; [done|]. case_scrutinee; [done|].
  rewrite (Sub_floor x1) by done. cbn [Num]. destruct (Z.eqb_spec (Num x1 mod Denom x1) 0); [done|].
  destruct (Quo_floor x1 Hx' ltac:(done)) as (-> & Hx2 & Hlt2).
  pose proof Hx' as [Hd1 _].
  assert (1 <= floor x1) by (unfold floor; apply Z.div_le_lower_bound; unfold x1 in *; simpl in *; lia).
  zbool. apply cf_loop_fuel; [done|done|lia|lia|].
  assert (2 ^ 62 <= 2 ^ Z.of_nat n) by (apply Z.pow_le_mono_r; lia). nia.
Qed.

(** ** Correctness of the convergents *)

(** [x0 = (h1 * x + h2) / (k1 * x + k2)] with both sides in lowest terms, and
    consecutive convergents have determinant 1 or -1. *)
Definition convergent (x0 x : Rat) (h2 k2 h1 k1 : Z) : Prop :=
  Num x0 = h1 * Num x + h2 * Denom x /\
  Denom x0 = k1 * Num x + k2 * Denom x /\
  Z.abs (h1 * k2 - h2 * k1) = 1 /\
  0 <= h2 /\ 0 <= k2 /\ 0 <= h1 <= MaxInt32 /\ 0 <= k1 <= MaxInt32.

(** What the loop returns when it started from a positive [x0]: [x0] itself
    when it fits, and otherwise a fraction within [1/d^2] of it. *)
Definition approximates (x0 : Rat) (n d : Z) : Prop :=
  Z.gcd n d = 1 /\ 0 <= n <= MaxInt32 /\ 0 <= d <= MaxInt32 /\
  Z.abs (Num x0 * d - n * Denom x0) * d <= Denom x0.

Lemma det_coprime a b c d : Z.abs (a * d - c * b) = 1 -> Z.gcd a b = 1.
Proof.
  intros H. apply Z.bezout_1_gcd. unfold Z.Bezout.
  destruct (Z.abs_eq_or_opp (a * d - c * b)) as [E|E]; rewrite H in E.
  - exists d, (- c). lia.
  - exists (- d), c. lia.
Qed.

Lemma cf_step x0 x h2 k2 h1 k1 :
  lowest x -> 0 <= Num x -> convergent x0 x h2 k2 h1 k1 ->
  let h := floor x * h1 + h2 in let k := floor x * k1 + k2 in
  h <= MaxInt32 -> k <= MaxInt32 ->
  convergent x0 (mkRat (Denom x) (Num x mod Denom x)) h1 k1 h k.
Proof.
  intros [Hd _] Hn (E1 & E2 & Hdet & Hpos) h k Hh Hk.
  assert (0 <= floor x) by (apply Z.div_pos; lia).
  pose proof (Z.mod_eq (Num x) (Denom x) ltac:(lia)) as Em.
  unfold convergent; cbn [Num Denom]. rewrite Em. fold (floor x). unfold h, k in *.
  repeat split; nia.
Qed.

Lemma cf_loop_sound n : forall x0 x h2 k2 h1 k1 r d,
  lowest x -> 0 <= Num x -> (k1 = 0 \/ Denom x <= Num x) ->
  convergent x0 x h2 k2 h1 k1 ->
  cf_loop n x h2 k2 h1 k1 = Some (r, d) -> approximates x0 r d.
Proof.
  induction n as [|n IH]; intros x0 x h2 k2 h1 k1 r d Hx Hn Hbig Hc; [done|].
  assert (Hstop : approximates x0 h1 k1).
  { destruct Hc as (E1 & E2 & Hdet & ? & ? & ? & ?). destruct Hx as [Hd _].
    split; [by apply (det_coprime h1 k1 h2 k2)|]. repeat split; try lia.
    rewrite E1, E2.
    replace ((h1 * Num x + h2 * Denom x) * k1 - h1 * (k1 * Num x + k2 * Denom x))
      with (- ((h1 * k2 - h2 * k1) * Denom x)) by lia.
    rewrite Z.abs_opp, Z.abs_mul, Hdet. nia. }
  cbn [cf_loop]. case_scrutinee; [by intros [= <- <-]|].
  case_scrutinee; [by intros [= <- <-]|]. zbool.
  pose proof (cf_step x0 x h2 k2 h1 k1 Hx Hn Hc ltac:(lia) ltac:(lia)) as Hc'.
  pose proof Hx as [Hd Hg].
  rewrite Sub_floor by done. cbn [Num]. destruct (Z.eqb_spec (Num x mod Denom x) 0) as [Er|Hr].
  - intros [= <- <-]. rewrite Er in Hc'.
    pose proof (lowest_int x Hx Er) as Ed.
    destruct Hc' as (E1 & E2 & Hdet & _ & _ & H1 & H2). cbn [Num Denom] in *.
    rewrite Ed in *. split; [by apply (det_coprime _ _ h1 k1)|].
    repeat split; lia.
  - destruct (Quo_floor x Hx Hr) as (-> & Hx' & Hlt).
    pose proof (Z.mod_pos_bound (Num x) (Denom x) Hd).
    apply IH; [done|simpl; lia|right; simpl; lia|done].
Qed.

(** A value that fits is expanded to the end. *)
Lemma cf_loop_exact n : forall x0 x h2 k2 h1 k1,
  lowest x -> 0 < Num x -> Num x0 <= MaxInt32 -> Denom x0 <= MaxInt32 ->
  convergent x0 x h2 k2 h1 k1 ->
  cf_loop n x h2 k2 h1 k1 <> None ->
  cf_loop n x h2 k2 h1 k1 = Some (Num x0, Denom x0).
Proof.
  induction n as [|n IH]; intros x0 x h2 k2 h1 k1 Hx Hn HN HD Hc; [done|].
  pose proof Hc as (E1 & E2 & Hdet & ? & ? & ? & ?).
  pose proof Hx as [Hd Hg].
  assert (Hfl : floor x * Denom x <= Num x)
    by (unfold floor; rewrite Z.mul_comm; apply Z.mul_div_le; lia).
  assert (0 <= floor x) by (apply Z.div_pos; lia).
  assert (Hh : floor x * h1 + h2 <= MaxInt32) by nia.
  assert (Hkk : floor x * k1 + k2 <= MaxInt32) by nia.
  assert (Hnum : Num x <= MaxInt32 * Denom x).
  { assert (h1 <> 0 \/ k1 <> 0) as [?|?] by nia; nia. }
  cbn [cf_loop].
  replace (Num x >? MaxInt32 * Denom x) with false by lia.
  replace ((_ >? MaxInt32) || (_ >? MaxInt32)) with false by lia.
  pose proof (cf_step x0 x h2 k2 h1 k1 Hx ltac:(lia) Hc Hh Hkk) as Hc'.
  rewrite Sub_floor by done. cbn [Num]. destruct (Z.eqb_spec (Num x mod Denom x) 0) as [Er|Hr].
  - intros _. rewrite Er in Hc'. pose proof (lowest_int x Hx Er) as Ed.
    destruct Hc' as (F1 & F2 & _). cbn [Num Denom] in *. rewrite Ed in *.
    do 2 f_equal; lia.
  - destruct (Quo_floor x Hx Hr) as (-> & Hx' & Hlt).
    pose proof (Z.mod_pos_bound (Num x) (Denom x) Hd).
    assert (0 <= floor x * k1) by nia. assert (0 <= floor x * h1) by nia.
    intros Hsome. apply IH; try done; cbn [Num Denom]; try lia.
Qed.

(** ** Properties *)

Lemma convergent_init x : 0 < Denom x -> convergent x x 0 1 1 0.
Proof. unfold convergent, MaxInt32. lia. Qed.

(** Parsing a positive decimal price terminates without a panic; a value
    whose reduced fraction fits two int32s is returned exactly; any result is a
    reduced fraction of positive int32s within [1/D^2] of the price written. *)
Theorem price_parse_spec (v : string) (x : Rat)
  (Hv : validAmountSimple (String.list_ascii_of_string v) = true)
  (Hx : SetString (String.list_ascii_of_string v) = Some x) (Hpos : 0 < Num x) :
  (forall m, Parse v <> Panic m) /\
  (Num x <= MaxInt32 -> Denom x <= MaxInt32 ->
     Parse v = Ok (Price.mk (Num x) (Denom x))) /\
  (forall p, Parse v = Ok p ->
     Price.positive p /\ Z.gcd (Price.N p) (Price.D p) = 1 /\
     Z.abs (Num x * Price.D p - Price.N p * Denom x) * Price.D p <= Denom x).
Proof.
  pose proof (SetString_lowest _ _ Hx) as Hl. pose proof Hl as [Hd _].
  pose proof (cf_loop_total 68 x Hl ltac:(done)) as Htot.
  change (S (S 68)) with cf_fuel in Htot.
  unfold Parse, continuedFraction. rewrite Hv, Hx. cbn [negb].
  split; [intros m; repeat case_scrutinee; done|]. split.
  - intros HN HD.
    rewrite (cf_loop_exact cf_fuel x x 0 1 1 0) by (done || by apply convergent_init).
    replace ((Num x =? 0) || (Denom x =? 0)) with false by lia.
    unfold MaxInt32 in *.
    by rewrite !(swrap_small 64), !(swrap_small 32) by (unfold in_int; lia).
  - intros p. destruct (cf_loop cf_fuel x 0 1 1 0) as [[r d]|] eqn:E; [|done].
    apply (cf_loop_sound cf_fuel x) in E;
      [|done|lia|by left|by apply convergent_init].
    destruct E as (Hg & Hr & Hdd & Happ). case_scrutinee; [done|]. zbool.
    intros [= <-]. unfold MaxInt32, Price.positive in *. cbn [Price.N Price.D].
    rewrite !(swrap_small 64), !(swrap_small 32) by (unfold in_int; lia).
    repeat split; try lia; done.
Qed.

Lemma price_parse_spec_witness :
  Parse "0.125" = Ok (Price.mk 1 8) /\ Parse "3.14159265358979" = Ok (Price.mk 1434877259 456735617).
Proof.
  split; [|vm_compute; reflexivity].
  apply (proj1 (proj2 (price_parse_spec "0.125" (mkRat 1 8) eq_refl eq_refl eq_refl)));
    unfold MaxInt32; simpl; lia.
Defined.

(** The bound on the convergents is only checked from above: a negative price
    below -2^31 is silently truncated to 32 bits. *)
Example price_parse_negative_wraps : Parse "-4294967295" = Ok (Price.mk 1 1).
Proof. vm_compute. reflexivity. Qed.

End PriceParse.
