(* ===== verification/Crc16.v ===== *)
(** * CRC-16/XMODEM (strkey/internal/crc16/main.go)

    The table-driven checksum of strkeys.  It is proved equal to the bit-serial
    definition of CRC-16 with polynomial x^16 + x^12 + x^5 + 1, and to detect
    every corruption confined to two adjacent bytes. *)
From S2P Require Import Prelude.

Module Crc16.

Definition ErrInvalidChecksum : error := "invalid checksum".

Definition crc16tab : list Z :=
  [0x0000; 0x1021; 0x2042; 0x3063; 0x4084; 0x50a5; 0x60c6; 0x70e7;
   0x8108; 0x9129; 0xa14a; 0xb16b; 0xc18c; 0xd1ad; 0xe1ce; 0xf1ef;
   0x1231; 0x0210; 0x3273; 0x2252; 0x52b5; 0x4294; 0x72f7; 0x62d6;
   0x9339; 0x8318; 0xb37b; 0xa35a; 0xd3bd; 0xc39c; 0xf3ff; 0xe3de;
   0x2462; 0x3443; 0x0420; 0x1401; 0x64e6; 0x74c7; 0x44a4; 0x5485;
   0xa56a; 0xb54b; 0x8528; 0x9509; 0xe5ee; 0xf5cf; 0xc5ac; 0xd58d;
   0x3653; 0x2672; 0x1611; 0x0630; 0x76d7; 0x66f6; 0x5695; 0x46b4;
   0xb75b; 0xa77a; 0x9719; 0x8738; 0xf7df; 0xe7fe; 0xd79d; 0xc7bc;
   0x48c4; 0x58e5; 0x6886; 0x78a7; 0x0840; 0x1861; 0x2802; 0x3823;
   0xc9cc; 0xd9ed; 0xe98e; 0xf9af; 0x8948; 0x9969; 0xa90a; 0xb92b;
   0x5af5; 0x4ad4; 0x7ab7; 0x6a96; 0x1a71; 0x0a50; 0x3a33; 0x2a12;
   0xdbfd; 0xcbdc; 0xfbbf; 0xeb9e; 0x9b79; 0x8b58; 0xbb3b; 0xab1a;
   0x6ca6; 0x7c87; 0x4ce4; 0x5cc5; 0x2c22; 0x3c03; 0x0c60; 0x1c41;
   0xedae; 0xfd8f; 0xcdec; 0xddcd; 0xad2a; 0xbd0b; 0x8d68; 0x9d49;
   0x7e97; 0x6eb6; 0x5ed5; 0x4ef4; 0x3e13; 0x2e32; 0x1e51; 0x0e70;
   0xff9f; 0xefbe; 0xdfdd; 0xcffc; 0xbf1b; 0xaf3a; 0x9f59; 0x8f78;
   0x9188; 0x81a9; 0xb1ca; 0xa1eb; 0xd10c; 0xc12d; 0xf14e; 0xe16f;
   0x1080; 0x00a1; 0x30c2; 0x20e3; 0x5004; 0x4025; 0x7046; 0x6067;
   0x83b9; 0x9398; 0xa3fb; 0xb3da; 0xc33d; 0xd31c; 0xe37f; 0xf35e;
   0x02b1; 0x1290; 0x22f3; 0x32d2; 0x4235; 0x5214; 0x6277; 0x7256;
   0xb5ea; 0xa5cb; 0x95a8; 0x8589; 0xf56e; 0xe54f; 0xd52c; 0xc50d;
   0x34e2; 0x24c3; 0x14a0; 0x0481; 0x7466; 0x6447; 0x5424; 0x4405;
   0xa7db; 0xb7fa; 0x8799; 0x97b8; 0xe75f; 0xf77e; 0xc71d; 0xd73c;
   0x26d3; 0x36f2; 0x0691; 0x16b0; 0x6657; 0x7676; 0x4615; 0x5634;
   0xd94c; 0xc96d; 0xf90e; 0xe92f; 0x99c8; 0x89e9; 0xb98a; 0xa9ab;
   0x5844; 0x4865; 0x7806; 0x6827; 0x18c0; 0x08e1; 0x3882; 0x28a3;
   0xcb7d; 0xdb5c; 0xeb3f; 0xfb1e; 0x8bf9; 0x9bd8; 0xabbb; 0xbb9a;
   0x4a75; 0x5a54; 0x6a37; 0x7a16; 0x0af1; 0x1ad0; 0x2ab3; 0x3a92;
   0xfd2e; 0xed0f; 0xdd6c; 0xcd4d; 0xbdaa; 0xad8b; 0x9de8; 0x8dc9;
   0x7c26; 0x6c07; 0x5c64; 0x4c45; 0x3ca2; 0x2c83; 0x1ce0; 0x0cc1;
   0xef1f; 0xff3e; 0xcf5d; 0xdf7c; 0xaf9b; 0xbfba; 0x8fd9; 0x9ff8;
   0x6e17; 0x7e36; 0x4e55; 0x5e74; 0x2e93; 0x3eb2; 0x0ed1; 0x1ef0].

Definition crc_step (crc b : Z) : Z :=
  Z.lxor (Z.land (to_uint16 (Z.shiftl crc 8)) 0xffff)
         (nth (Z.to_nat (Z.land (Z.lxor (Z.shiftr crc 8) b) 0x00ff)) crc16tab 0).

Definition Checksum (data : list Z) : Z := fold_left crc_step data 0.

Definition Validate (data : list Z) (expected : Z) : res unit :=
  if negb (Checksum data =? expected) then Err ErrInvalidChecksum else Ok tt.

(** ** Bit-serial reference: shift in a zero, subtract the polynomial *)

Definition bit_step (x : Z) : Z :=
  let s := Z.land (Z.shiftl x 1) 0xffff in
  if Z.testbit x 15 then Z.lxor s 0x1021 else s.

Definition byte_step (x : Z) : Z := Nat.iter 8 bit_step x.

Definition serial_step (crc b : Z) : Z := byte_step (Z.lxor crc (Z.shiftl b 8)).

Definition Checksum_serial (data : list Z) : Z := fold_left serial_step data 0.

Lemma bit_step_lxor x y : bit_step (Z.lxor x y) = Z.lxor (bit_step x) (bit_step y).
Proof.
  unfold bit_step. rewrite Z.shiftl_lxor, Z.lxor_spec, Z.land_comm, !(Z.land_comm _ 0xffff).
  set (a := Z.shiftl x 1). set (b := Z.shiftl y 1).
  assert (E : Z.land 65535 (Z.lxor a b) = Z.lxor (Z.land 65535 a) (Z.land 65535 b)).
  { apply Z.bits_inj'; intros i Hi. rewrite Z.lxor_spec, !Z.land_spec, Z.lxor_spec.
    by destruct (Z.testbit 65535 i), (Z.testbit a i), (Z.testbit b i). }
  rewrite E. generalize (Z.land 65535 a) (Z.land 65535 b); intros p q.
  apply Z.bits_inj'; intros i Hi.
  destruct (Z.testbit x 15), (Z.testbit y 15); cbn [xorb];
    rewrite ?Z.lxor_spec;
    by destruct (Z.testbit p i), (Z.testbit q i), (Z.testbit 4129 i).
Qed.

Lemma byte_step_lxor x y : byte_step (Z.lxor x y) = Z.lxor (byte_step x) (byte_step y).
Proof. unfold byte_step. simpl. by rewrite !bit_step_lxor. Qed.

Lemma lxor_range16 x y : in_uint 16 x -> in_uint 16 y -> in_uint 16 (Z.lxor x y).
Proof. by apply lxor_range. Qed.

Lemma bit_step_range x : in_uint 16 (bit_step x).
Proof.
  unfold bit_step. change 0xffff with (2 ^ 16 - 1). rewrite land_mask by lia.
  pose proof (Z.mod_pos_bound (Z.shiftl x 1) (2 ^ 16) ltac:(lia)) as H.
  destruct (Z.testbit x 15); [|done]. by apply lxor_range16.
Qed.

Lemma byte_step_range x : in_uint 16 (byte_step x).
Proof. apply bit_step_range. Qed.

(** The low bit of a step is the bit shifted out, so steps are injective. *)
Lemma bit_step_low x : Z.testbit (bit_step x) 0 = Z.testbit x 15.
Proof.
  unfold bit_step. assert (E : Z.testbit (Z.land (Z.shiftl x 1) 0xffff) 0 = false).
  { rewrite Z.land_spec, Z.shiftl_spec_low by lia. done. }
  destruct (Z.testbit x 15); [rewrite Z.lxor_spec|]; by rewrite E.
Qed.

Lemma bit_step_zero x : in_uint 16 x -> bit_step x = 0 -> x = 0.
Proof.
  unfold in_uint; intros Hx H. pose proof (bit_step_low x) as Hb.
  rewrite H, Z.bits_0 in Hb.
  assert (Hx15 : x < 2 ^ 15).
  { destruct (Z.lt_ge_cases x (2 ^ 15)) as [|Hge]; [done|]. exfalso.
    assert (Z.testbit x 15 = true); [|congruence].
    replace 15 with (Z.log2 x); [apply Z.bit_log2; lia|].
    apply Z.log2_unique; lia. }
  unfold bit_step in H. rewrite <- Hb in H.
  change 0xffff with (2 ^ 16 - 1) in H. rewrite land_mask, Z.shiftl_mul_pow2 in H by lia.
  rewrite Z.mod_small in H; lia.
Qed.

Lemma byte_step_zero x : in_uint 16 x -> byte_step x = 0 -> x = 0.
Proof.
  unfold byte_step. cbn [Nat.iter nat_rect]. intros Hx H.
  repeat (apply bit_step_zero in H; [|first [done|apply bit_step_range]]). done.
Qed.

Lemma lxor_eq_0 x y : Z.lxor x y = 0 -> x = y.
Proof. apply Z.lxor_eq. Qed.

Lemma byte_step_inj x y : in_uint 16 x -> in_uint 16 y -> byte_step x = byte_step y -> x = y.
Proof.
  intros Hx Hy E. apply lxor_eq_0, byte_step_zero; [by apply lxor_range16|].
  by rewrite byte_step_lxor, E, Z.lxor_nilpotent.
Qed.

(** ** The table holds the steps of the high byte *)

Lemma tab_check :
  forallb (fun n => byte_step (Z.shiftl (Z.of_nat n) 8) =? nth n crc16tab 0) (seq 0 256) = true.
Proof. vm_compute. reflexivity. Qed.

Lemma low_check :
  forallb (fun n => byte_step (Z.of_nat n) =? Z.shiftl (Z.of_nat n) 8) (seq 0 256) = true.
Proof. vm_compute. reflexivity. Qed.

Lemma tab_byte_step h : is_byte h -> nth (Z.to_nat h) crc16tab 0 = byte_step (Z.shiftl h 8).
Proof.
  unfold is_byte; intros Hh. pose proof tab_check as H. rewrite forallb_forall in H.
  specialize (H (Z.to_nat h) ltac:(apply in_seq; lia)). zbool.
  by rewrite Z2Nat.id in H by lia.
Qed.

Lemma low_byte_step l : is_byte l -> byte_step l = Z.shiftl l 8.
Proof.
  unfold is_byte; intros Hl. pose proof low_check as H. rewrite forallb_forall in H.
  specialize (H (Z.to_nat l) ltac:(apply in_seq; lia)). zbool.
  by rewrite Z2Nat.id in H by lia.
Qed.

Lemma shiftl8_lxor_low h l : is_byte l -> Z.lxor (Z.shiftl h 8) l = h * 256 + l.
Proof.
  unfold is_byte; intros Hl.
  rewrite Z.lxor_lor by (apply land_shiftl_low; lia). by rewrite lor_shiftl_add by lia.
Qed.

Lemma split16 x : Z.lxor (Z.shiftl (Z.shiftr x 8) 8) (x mod 256) = x.
Proof.
  rewrite shiftl8_lxor_low by (apply Z.mod_pos_bound; lia).
  rewrite Z.shiftr_div_pow2 by lia. change (2 ^ 8) with 256.
  pose proof (Z.div_mod x 256). lia.
Qed.

Lemma is_byte_hi x : in_uint 16 x -> is_byte (Z.shiftr x 8).
Proof.
  unfold in_uint, is_byte; intros Hx. rewrite Z.shiftr_div_pow2 by lia.
  split; [apply Z.div_pos; lia|apply Z.div_lt_upper_bound; lia].
Qed.

Lemma lxor_is_byte x y : is_byte x -> is_byte y -> is_byte (Z.lxor x y).
Proof. by apply (lxor_range 8). Qed.

Lemma crc_step_serial crc b : in_uint 16 crc -> is_byte b -> crc_step crc b = serial_step crc b.
Proof.
  intros Hc Hb. unfold crc_step, serial_step.
  pose proof (lxor_is_byte _ _ (is_byte_hi crc Hc) Hb) as Hh.
  set (h := Z.lxor (Z.shiftr crc 8) b) in *.
  pose proof (Z.mod_pos_bound crc 256 ltac:(lia)) as Hl.
  assert (E : Z.lxor crc (Z.shiftl b 8) = Z.lxor (Z.shiftl h 8) (crc mod 256)).
  { unfold h. rewrite <- (split16 crc) at 1. rewrite Z.shiftl_lxor, !Z.lxor_assoc.
    f_equal. apply Z.lxor_comm. }
  rewrite E, byte_step_lxor, (low_byte_step (crc mod 256)) by done.
  change 0x00ff with (2 ^ 8 - 1). change 0xffff with (2 ^ 16 - 1).
  rewrite !land_mask by lia. rewrite (Z.mod_small h) by done.
  rewrite tab_byte_step by done. rewrite Z.lxor_comm. f_equal.
  unfold uwrap. rewrite Z.mod_mod by lia. rewrite !Z.shiftl_mul_pow2 by lia.
  change (2 ^ 16) with (256 * 2 ^ 8). by rewrite Z.mul_mod_distr_r by lia.
Qed.

Lemma serial_step_range c b : in_uint 16 (serial_step c b).
Proof. apply byte_step_range. Qed.

Lemma Checksum_serial_from data : forall c, in_uint 16 c -> Forall is_byte data ->
  fold_left crc_step data c = fold_left serial_step data c /\
  in_uint 16 (fold_left serial_step data c).
Proof.
  induction data as [|b data IH]; intros c Hc Hd; [done|]. simpl.
  apply Forall_cons in Hd as [Hb Hd]. rewrite crc_step_serial by done.
  apply IH; [apply serial_step_range|done].
Qed.

Lemma Checksum_range data : Forall is_byte data -> in_uint 16 (Checksum data).
Proof.
  intros H. unfold Checksum.
  destruct (Checksum_serial_from data 0 ltac:(done) H) as [-> Hr]. done.
Qed.

Lemma serial_step_inj c c' b :
  is_byte b -> in_uint 16 c -> in_uint 16 c' -> serial_step c b = serial_step c' b -> c = c'.
Proof.
  intros Hb Hc Hc' E.
  assert (Hs : in_uint 16 (Z.shiftl b 8)).
  { unfold is_byte, in_uint in *. rewrite Z.shiftl_mul_pow2 by lia. lia. }
  apply byte_step_inj in E; [|by apply lxor_range16|by apply lxor_range16].
  apply lxor_eq_0. apply (f_equal (Z.lxor (Z.shiftl b 8))) in E.
  rewrite !(Z.lxor_comm (Z.shiftl b 8)), !Z.lxor_assoc, Z.lxor_nilpotent, !Z.lxor_0_r in E.
  by rewrite E, Z.lxor_nilpotent.
Qed.

Lemma fold_serial_inj data : forall c c', Forall is_byte data -> in_uint 16 c -> in_uint 16 c' ->
  fold_left serial_step data c = fold_left serial_step data c' -> c = c'.
Proof.
  induction data as [|b data IH]; intros c c' Hd Hc Hc' E; [done|]. simpl in E.
  apply Forall_cons in Hd as [Hb Hd].
  apply (serial_step_inj _ _ b); [done|done|done|].
  apply IH; [done|apply serial_step_range|apply serial_step_range|done].
Qed.

(** Two bytes shifted in are one 16-bit word xored in. *)
Lemma serial_step2 c x1 x2 : is_byte x2 ->
  serial_step (serial_step c x1) x2 = byte_step (byte_step (Z.lxor c (x1 * 256 + x2))).
Proof.
  intros Hx. unfold serial_step at 1. rewrite <- (low_byte_step x2) by done.
  unfold serial_step. rewrite <- byte_step_lxor, Z.lxor_assoc.
  by rewrite shiftl8_lxor_low.
Qed.

Lemma word_range a b : is_byte a -> is_byte b -> in_uint 16 (a * 256 + b).
Proof. unfold is_byte, in_uint. lia. Qed.

Lemma serial_step2_inj c x1 x2 y1 y2 :
  is_byte x1 -> is_byte x2 -> is_byte y1 -> is_byte y2 -> in_uint 16 c ->
  serial_step (serial_step c x1) x2 = serial_step (serial_step c y1) y2 ->
  x1 = y1 /\ x2 = y2.
Proof.
  intros Hx1 Hx2 Hy1 Hy2 Hc E. rewrite !serial_step2 in E by done.
  apply byte_step_inj in E; [|apply byte_step_range|apply byte_step_range].
  apply byte_step_inj in E; [|by apply lxor_range16, word_range|by apply lxor_range16, word_range].
  apply (f_equal (Z.lxor c)) in E.
  rewrite <- !Z.lxor_assoc, Z.lxor_nilpotent, !Z.lxor_0_l in E.
  unfold is_byte in *. lia.
Qed.

(** ** Properties *)

(** The table-driven checksum is the bit-serial CRC-16 with polynomial
    0x1021 and zero initial value, on every byte string. *)
Theorem Checksum_is_crc16 (data : list Z) (Hd : Forall is_byte data) :
  Checksum data = Checksum_serial data /\ in_uint 16 (Checksum data).
Proof.
  split; [|by apply Checksum_range].
  by destruct (Checksum_serial_from data 0 ltac:(done) Hd).
Qed.

Lemma Checksum_is_crc16_witness :
  Checksum [49;50;51;52;53;54;55;56;57] = 0x31C3 /\
  Checksum [49;50;51;52;53;54;55;56;57] = Checksum_serial [49;50;51;52;53;54;55;56;57].
Proof.
  split; [vm_compute; reflexivity|].
  apply (Checksum_is_crc16 [49;50;51;52;53;54;55;56;57]).
  repeat constructor; unfold is_byte; lia.
Defined.

(** [Validate] accepts a message with its own checksum and rejects every
    message obtained from it by changing one byte or two adjacent bytes. *)
Theorem Validate_detects_corruption (pre post : list Z) (x1 x2 y1 y2 : Z)
  (Hpre : Forall is_byte pre) (Hpost : Forall is_byte post)
  (Hx1 : is_byte x1) (Hx2 : is_byte x2) (Hy1 : is_byte y1) (Hy2 : is_byte y2)
  (Hne : (x1, x2) <> (y1, y2)) :
  Validate (pre ++ x1 :: x2 :: post) (Checksum (pre ++ x1 :: x2 :: post)) = Ok tt /\
  Validate (pre ++ y1 :: y2 :: post) (Checksum (pre ++ x1 :: x2 :: post))
    = Err ErrInvalidChecksum.
Proof.
  unfold Validate. rewrite Z.eqb_refl. split; [done|].
  destruct (Z.eqb_spec (Checksum (pre ++ y1 :: y2 :: post))
              (Checksum (pre ++ x1 :: x2 :: post))) as [E|]; [|done].
  exfalso. apply Hne. unfold Checksum in E.
  assert (Hs : forall a b, is_byte a -> is_byte b ->
    fold_left crc_step (pre ++ a :: b :: post) 0 =
    fold_left serial_step (pre ++ a :: b :: post) 0)
    by (intros; apply Checksum_serial_from; [done|];
        apply Forall_app; split; [done|by rewrite !Forall_cons]).
  rewrite !Hs in E by done.
  rewrite !fold_left_app, !fold_left_cons in E.
  apply fold_serial_inj in E; [|done|apply serial_step_range|apply serial_step_range].
  apply serial_step2_inj in E as [-> ->]; [done|done|done|done|done|].
  by destruct (Checksum_serial_from pre 0 ltac:(done) Hpre).
Qed.

Lemma Validate_detects_corruption_witness :
  Validate [48; 1; 2; 3] (Checksum [48; 1; 2; 4]) = Err ErrInvalidChecksum.
Proof.
  apply (Validate_detects_corruption [48; 1] [] 2 4 2 3);
    repeat constructor; unfold is_byte; try lia; congruence.
Defined.

End Crc16.
