(* ===== verification/Strkey.v ===== *)
(** * Strkeys (strkey/main.go)

    A strkey is the unpadded base32 text of a version byte, a payload and the
    CRC-16 of both.  The base32 codec of the Go standard library is modelled as
    documented: groups of five bits, newlines skipped when decoding, and a
    trailing group too short for a whole byte decodes to nothing. *)
From S2P Require Import Prelude Crc16.

(** ** Bit strings, most significant bit first *)
Module BitString.

Fixpoint to_bits (w : nat) (z : Z) : list bool :=
  match w with
  | O => []
  | S w => to_bits w (Z.div2 z) ++ [Z.odd z]
  end.

Definition of_bits (l : list bool) : Z := fold_left (fun acc b => 2 * acc + Z.b2z b) l 0.

(** [m] groups of [w] bits, the last one filled up with zeros. *)
Fixpoint group (m w : nat) (l : list bool) : list (list bool) :=
  match m with
  | O => []
  | S m => resize w false (take w l) :: group m w (drop w l)
  end.

Definition flatten (w : nat) (vs : list Z) : list bool := concat (map (to_bits w) vs).

Lemma to_bits_length w : forall z, length (to_bits w z) = w.
Proof. induction w as [|w IH]; intros z; [done|]. simpl. rewrite length_app, IH. simpl. lia. Qed.

Lemma of_bits_app l1 l2 : of_bits (l1 ++ l2) = of_bits l1 * 2 ^ Z.of_nat (length l2) + of_bits l2.
Proof.
  unfold of_bits. rewrite fold_left_app. generalize (fold_left (fun acc b => 2 * acc + Z.b2z b) l1 0).
  induction l2 as [|b l2 IH] using rev_ind; intros a; [simpl; lia|].
  rewrite !fold_left_app, length_app. simpl fold_left. rewrite IH. simpl length.
  rewrite Nat.add_1_r, Nat2Z.inj_succ, Z.pow_succ_r by lia. lia.
Qed.

Lemma of_bits_1 b : of_bits [b] = Z.b2z b.
Proof. done. Qed.

Lemma of_bits_range l : 0 <= of_bits l < 2 ^ Z.of_nat (length l).
Proof.
  induction l as [|b l IH] using rev_ind; [done|].
  rewrite of_bits_app, of_bits_1, length_app.
  change (2 ^ Z.of_nat (length [b])) with 2. change (length [b]) with 1%nat.
  rewrite Nat.add_1_r, Nat2Z.inj_succ, Z.pow_succ_r by lia.
  destruct b; simpl Z.b2z; lia.
Qed.

Lemma of_bits_to_bits w : forall z, 0 <= z < 2 ^ Z.of_nat w -> of_bits (to_bits w z) = z.
Proof.
  induction w as [|w IH]; intros z Hz.
  { change (of_bits (to_bits 0 z)) with 0. simpl in Hz. lia. }
  rewrite Nat2Z.inj_succ, Z.pow_succ_r in Hz by lia.
  cbn [to_bits]. rewrite of_bits_app, IH by (rewrite Z.div2_div; split;
    [apply Z.div_pos; lia|apply Z.div_lt_upper_bound; lia]).
  change (2 ^ Z.of_nat (length [Z.odd z])) with 2.
  rewrite of_bits_1. rewrite (Z.div2_odd z) at 3. lia.
Qed.

Lemma to_bits_of_bits l : to_bits (length l) (of_bits l) = l.
Proof.
  induction l as [|b l IH] using rev_ind; [done|].
  rewrite length_app, Nat.add_1_r. cbn [to_bits]. rewrite of_bits_app.
  change (2 ^ Z.of_nat (length [b])) with 2.
  rewrite of_bits_1, (Z.add_comm (_ * 2)), (Z.mul_comm _ 2).
  assert (Ho : Z.odd (Z.b2z b + 2 * of_bits l) = b)
    by (rewrite <- Z.bit0_odd; apply Z.add_b2z_double_bit0).
  assert (Hd : Z.div2 (Z.b2z b + 2 * of_bits l) = of_bits l)
    by (rewrite Z.div2_div; apply Z.add_b2z_double_div2).
  by rewrite Ho, Hd, IH.
Qed.

Lemma group_length m w : forall l, length (group m w l) = m.
Proof. induction m as [|m IH]; intros l; [done|]. simpl. by rewrite IH. Qed.

Lemma group_widths m w : forall l, Forall (fun g => length g = w) (group m w l).
Proof.
  induction m as [|m IH]; intros l; [constructor|].
  constructor; [apply length_resize|apply IH].
Qed.

Lemma concat_group m w : forall l, concat (group m w l) = resize (m * w) false l.
Proof.
  induction m as [|m IH]; intros l; [by rewrite resize_0|].
  cbn [group concat]. rewrite IH. cbn [Nat.mul].
  rewrite resize_add, resize_take_le by done. done.
Qed.

Lemma group_concat w (gs : list (list bool)) rest :
  Forall (fun g => length g = w) gs -> group (length gs) w (concat gs ++ rest) = gs.
Proof.
  induction 1 as [|g gs Hg _ IH]; [done|]. cbn [length group concat].
  rewrite <- app_assoc.
  rewrite take_app_length' by done. rewrite drop_app_length' by done.
  by rewrite resize_all_alt, IH by done.
Qed.

Lemma flatten_length w vs : length (flatten w vs) = (length vs * w)%nat.
Proof.
  induction vs as [|v vs IH]; [done|]. unfold flatten in *. simpl.
  by rewrite length_app, to_bits_length, IH.
Qed.

(** Regrouping the bits of values recovers the values. *)
Lemma regroup w vs rest : Forall (fun v => 0 <= v < 2 ^ Z.of_nat w) vs ->
  map of_bits (group (length vs) w (flatten w vs ++ rest)) = vs.
Proof.
  intros Hv. unfold flatten. rewrite <- (length_map (to_bits w)).
  rewrite group_concat.
  - rewrite map_map. induction Hv as [|v vs Hv _ IH]; [done|]. simpl.
    by rewrite of_bits_to_bits, IH.
  - apply Forall_forall. intros g Hg. apply list_elem_of_fmap in Hg as (v & -> & _).
    apply to_bits_length.
Qed.

Lemma flatten_of_bits w (gs : list (list bool)) :
  Forall (fun g => length g = w) gs -> flatten w (map of_bits gs) = concat gs.
Proof.
  unfold flatten. induction 1 as [|g gs Hg _ IH]; [done|]. simpl.
  rewrite <- Hg at 1. by rewrite to_bits_of_bits, IH.
Qed.

Lemma of_bits_groups m w l :
  Forall (fun v => 0 <= v < 2 ^ Z.of_nat w) (map of_bits (group m w l)).
Proof.
  apply Forall_forall. intros v Hv. apply list_elem_of_fmap in Hv as (g & -> & Hg).
  pose proof (group_widths m w l) as H. rewrite Forall_forall in H.
  specialize (H g Hg). simpl in H. rewrite <- H. apply of_bits_range.
Qed.

Lemma to_bits_split a k : forall z,
  to_bits (a + k) z = to_bits a (Z.shiftr z (Z.of_nat k)) ++ to_bits k z.
Proof.
  induction k as [|k IH]; intros z.
  - by rewrite Nat.add_0_r, Z.shiftr_0_r, app_nil_r.
  - rewrite Nat.add_succ_r. cbn [to_bits]. rewrite IH, app_assoc.
    rewrite Z.div2_spec, Z.shiftr_shiftr by lia. do 4 f_equal. lia.
Qed.

Lemma to_bits_mod k z : of_bits (to_bits k z) = z mod 2 ^ Z.of_nat k.
Proof.
  revert z. induction k as [|k IH]; intros z; [by rewrite Z.mod_1_r|].
  cbn [to_bits]. rewrite of_bits_app, of_bits_1, IH.
  change (2 ^ Z.of_nat (length [Z.odd z])) with 2.
  rewrite Nat2Z.inj_succ, Z.pow_succ_r by lia.
  rewrite (Z.rem_mul_r z 2) by (try apply Z.pow_nonzero; lia).
  rewrite Z.div2_div, Zmod_odd. destruct (Z.odd z); simpl Z.b2z; lia.
Qed.

Lemma to_bits_zero k z : to_bits k z = replicate k false <-> z mod 2 ^ Z.of_nat k = 0.
Proof.
  assert (Hz : of_bits (replicate k false) = 0).
  { induction k as [|k IH]; [done|]. rewrite replicate_S_end, of_bits_app, IH. done. }
  split; intros H.
  - by rewrite <- to_bits_mod, H.
  - rewrite <- to_bits_mod in H. pose proof (to_bits_of_bits (to_bits k z)) as E.
    pose proof (to_bits_of_bits (replicate k false)) as E'.
    rewrite H, to_bits_length in E. rewrite Hz, length_replicate in E'. congruence.
Qed.

(** Zero bits past the end do not change the groups. *)
Lemma group_resize m w l : group m w (resize (m * w) false l) = group m w l.
Proof.
  rewrite <- concat_group. pose proof (group_concat w (group m w l) [] (group_widths m w l)) as H.
  by rewrite app_nil_r, group_length in H.
Qed.

Lemma group_pad m w l k : (length l + k = m * w)%nat ->
  group m w (l ++ replicate k false) = group m w l.
Proof.
  intros Hl. rewrite <- (group_resize m w l). rewrite resize_ge by lia.
  do 3 f_equal. lia.
Qed.

(** The last [k] bits of a flattened list are those of its last value. *)
Lemma flatten_last_zero w k vs v :
  (k <= w)%nat -> v mod 2 ^ Z.of_nat k = 0 ->
  exists b, flatten w (vs ++ [v]) = b ++ replicate k false.
Proof.
  intros Hk Hz. exists (flatten w vs ++ to_bits (w - k) (Z.shiftr v (Z.of_nat k))).
  unfold flatten. rewrite map_app, concat_app. simpl. rewrite app_nil_r, <- app_assoc. f_equal.
  apply to_bits_zero in Hz. rewrite <- Hz, <- to_bits_split. f_equal. lia.
Qed.

Lemma flatten_last_inv w k vs v b :
  (k <= w)%nat -> flatten w (vs ++ [v]) = b ++ replicate k false ->
  v mod 2 ^ Z.of_nat k = 0.
Proof.
  intros Hk H. apply to_bits_zero.
  unfold flatten in H. rewrite map_app, concat_app in H. simpl in H.
  rewrite app_nil_r in H.
  replace w with ((w - k) + k)%nat in H at 2 by lia.
  rewrite to_bits_split, app_assoc in H.
  apply app_inj_2 in H as [_ H]; [done|].
  by rewrite to_bits_length, length_replicate.
Qed.

End BitString.

(** ** encoding/base32 without padding *)
Module Base32.
Import BitString.

Definition alphabet : list Z := bytes_of "ABCDEFGHIJKLMNOPQRSTUVWXYZ234567".

Definition initDecodingTable : list Z :=
  fold_left (fun tab i => <[Z.to_nat (nth i alphabet 0) := Z.of_nat i]> tab)
    (seq 0 32) (replicate 256 0xff).
Definition decodingTable : list Z := initDecodingTable.

Definition enc_char (v : Z) : Z := nth (Z.to_nat v) alphabet 0.
Definition dec_char (c : Z) : Z := nth (Z.to_nat c) decodingTable 0xff.

Definition EncodedLen (n : nat) : nat := ((n * 8 + 4) / 5)%nat.

Definition Encode (src : list Z) : list Z :=
  map enc_char (map of_bits (group (EncodedLen (length src)) 5 (flatten 8 src))).

Definition is_newline (c : Z) : bool := (c =? 10) || (c =? 13).
Definition strip_newlines (src : list Z) : list Z := List.filter (fun c => negb (is_newline c)) src.

(** Bytes decoded from [n] characters: five per eight, and what the switch on
    the length of the last quantum produces. *)
Definition quantum_bytes (dlen : nat) : nat :=
  match dlen with 2 => 1 | 4 => 2 | 5 => 3 | 7 => 4 | _ => 0 end%nat.
Definition decoded_len (n : nat) : nat := (5 * (n / 8) + quantum_bytes (n mod 8))%nat.

Definition Decode (src : list Z) : res (list Z) :=
  let src := strip_newlines src in
  let vals := map dec_char src in
  if existsb (fun v => v =? 0xff) vals then Err "illegal base32 data" else
  Ok (map of_bits (group (decoded_len (length vals)) 8 (flatten 5 vals))).

Lemma dec_enc_check : forallb (fun n => dec_char (enc_char (Z.of_nat n)) =? Z.of_nat n)
  (seq 0 32) = true.
Proof. vm_compute. reflexivity. Qed.

Lemma enc_dec_check :
  forallb (fun n => (dec_char (Z.of_nat n) =? 0xff) ||
    ((dec_char (Z.of_nat n) <? 32) && (enc_char (dec_char (Z.of_nat n)) =? Z.of_nat n)
     && (0 <=? dec_char (Z.of_nat n)))) (seq 0 256) = true.
Proof. vm_compute. reflexivity. Qed.

Lemma enc_char_check :
  forallb (fun n => negb (is_newline (enc_char (Z.of_nat n))) && (0 <=? enc_char (Z.of_nat n))
    && (enc_char (Z.of_nat n) <? 256)) (seq 0 32) = true.
Proof. vm_compute. reflexivity. Qed.

Lemma dec_enc_char v : 0 <= v < 32 -> dec_char (enc_char v) = v.
Proof.
  intros Hv. pose proof dec_enc_check as H. rewrite forallb_forall in H.
  specialize (H (Z.to_nat v) ltac:(apply in_seq; lia)). rewrite Z2Nat.id in H by lia. lia.
Qed.

Lemma enc_char_ok v : 0 <= v < 32 -> is_newline (enc_char v) = false /\ is_byte (enc_char v).
Proof.
  intros Hv. pose proof enc_char_check as H. rewrite forallb_forall in H.
  specialize (H (Z.to_nat v) ltac:(apply in_seq; lia)). rewrite Z2Nat.id in H by lia.
  zbool. unfold is_byte. auto.
Qed.

Lemma enc_dec_char c : is_byte c -> dec_char c <> 0xff ->
  0 <= dec_char c < 32 /\ enc_char (dec_char c) = c.
Proof.
  unfold is_byte; intros Hc Hne. pose proof enc_dec_check as H. rewrite forallb_forall in H.
  specialize (H (Z.to_nat c) ltac:(apply in_seq; lia)). rewrite Z2Nat.id in H by lia.
  apply orb_true_iff in H as [H|H]; zbool; [done|]. done.
Qed.

Lemma map_dec_enc vs : Forall (fun v => 0 <= v < 32) vs -> map dec_char (map enc_char vs) = vs.
Proof. induction 1 as [|v vs Hv _ IH]; [done|]. simpl. by rewrite dec_enc_char, IH. Qed.

Lemma strip_enc vs : Forall (fun v => 0 <= v < 32) vs ->
  strip_newlines (map enc_char vs) = map enc_char vs.
Proof.
  unfold strip_newlines. induction 1 as [|v vs Hv _ IH]; [done|]. simpl.
  destruct (enc_char_ok v Hv) as [-> _]. simpl. by rewrite IH.
Qed.

Lemma valid_vals vs : Forall (fun v => 0 <= v < 32) vs -> existsb (fun v => v =? 0xff) vs = false.
Proof.
  induction 1 as [|v vs Hv _ IH]; [done|]. simpl. rewrite IH.
  by replace (v =? 255) with false by lia.
Qed.

Lemma decoded_encoded_len n : decoded_len (EncodedLen n) = n.
Proof.
  unfold decoded_len, EncodedLen.
  pose proof (Nat.div_mod_eq n 5). pose proof (Nat.mod_upper_bound n 5 ltac:(lia)).
  set (a := (n / 5)%nat) in *. set (b := (n mod 5)%nat) in *.
  assert (E : ((n * 8 + 4) / 5 = 8 * a + (b * 8 + 4) / 5)%nat).
  { replace (n * 8 + 4)%nat with ((b * 8 + 4) + (8 * a) * 5)%nat by lia.
    rewrite Nat.div_add by lia. lia. }
  assert (Hb : b = 0%nat \/ b = 1%nat \/ b = 2%nat \/ b = 3%nat \/ b = 4%nat) by lia.
  rewrite E. clear E.
  assert (Hq : forall c, (c < 8)%nat -> ((8 * a + c) / 8 = a /\ (8 * a + c) mod 8 = c)%nat).
  { intros c Hc. rewrite (Nat.mul_comm 8 a), Nat.add_comm.
    rewrite Nat.div_add, Nat.Div0.mod_add by lia.
    rewrite Nat.div_small, Nat.mod_small by lia. lia. }
  destruct Hb as [E|[E|[E|[E|E]]]]; rewrite E;
    match goal with |- context [((?x * 8 + 4) / 5)%nat] =>
      let v := eval compute in ((x * 8 + 4) / 5)%nat in change ((x * 8 + 4) / 5)%nat with v end;
    match goal with |- context [(8 * a + ?c)%nat] =>
      destruct (Hq c ltac:(lia)) as [-> ->] end; simpl quantum_bytes; lia.
Qed.

Lemma encoded_bits_fit n : (n * 8 <= EncodedLen n * 5)%nat.
Proof.
  unfold EncodedLen. pose proof (Nat.div_mod_eq (n * 8 + 4) 5).
  pose proof (Nat.mod_upper_bound (n * 8 + 4) 5). lia.
Qed.

Lemma enc_vals_range (src : list Z) :
  Forall (fun v => 0 <= v < 32)
    (map of_bits (group (EncodedLen (length src)) 5 (flatten 8 src))).
Proof. apply (of_bits_groups _ 5). Qed.

Lemma Encode_bytes src : Forall is_byte (Encode src).
Proof.
  unfold Encode. pose proof (enc_vals_range src) as H.
  induction H as [|v vs Hv _ IH]; constructor; [by apply enc_char_ok|done].
Qed.

Lemma Encode_length src : length (Encode src) = EncodedLen (length src).
Proof. unfold Encode. by rewrite !length_map, group_length. Qed.

(** The bits of the encoded values: those of the source, then zeros. *)
Lemma Encode_flat src :
  flatten 5 (map of_bits (group (EncodedLen (length src)) 5 (flatten 8 src))) =
  flatten 8 src ++ replicate (EncodedLen (length src) * 5 - length src * 8) false.
Proof.
  rewrite flatten_of_bits, concat_group by apply group_widths.
  rewrite resize_ge by (rewrite flatten_length; apply encoded_bits_fit).
  by rewrite flatten_length.
Qed.

Lemma Decode_Encode src : Forall is_byte src -> Decode (Encode src) = Ok src.
Proof.
  intros Hs. unfold Decode. pose proof (enc_vals_range src) as Hv.
  unfold Encode. rewrite strip_enc, map_dec_enc, valid_vals by done.
  rewrite Encode_flat, length_map, group_length, decoded_encoded_len.
  by rewrite regroup.
Qed.

Arguments Encode : simpl never.
Arguments Decode : simpl never.

End Base32.

Module Strkey.
Import BitString.

Definition ErrInvalidVersionByte : error := "invalid version byte".

Definition VersionByteAccountID : Z := Z.shiftl 6 3.
Definition VersionByteSeed : Z := Z.shiftl 18 3.
Definition VersionByteMuxedAccount : Z := Z.shiftl 12 3.
Definition VersionByteHashTx : Z := Z.shiftl 19 3.
Definition VersionByteHashX : Z := Z.shiftl 23 3.
Definition VersionByteSignedPayload : Z := Z.shiftl 15 3.
Definition VersionByteContract : Z := Z.shiftl 2 3.

Definition maxPayloadSize : nat := 100.

Definition valid_versions : list Z :=
  [VersionByteAccountID; VersionByteMuxedAccount; VersionByteSeed; VersionByteHashTx;
   VersionByteHashX; VersionByteSignedPayload; VersionByteContract].

Definition checkValidVersionByte (version : Z) : res unit :=
  if existsb (Z.eqb version) valid_versions then Ok tt else Err ErrInvalidVersionByte.

(** binary.LittleEndian on two bytes *)
Definition PutUint16 (crc : Z) : list Z := [crc mod 256; crc / 256].
Definition Uint16 (b : list Z) : Z := nth 0 b 0 + 256 * nth 1 b 0.

Definition Encode (version : Z) (src : list Z) : res string :=
  _ ← checkValidVersionByte version;
  if Nat.ltb maxPayloadSize (length src)
  then Err "data exceeds maximum payload size for strkey" else
  let vp := version :: src in
  let raw := vp ++ PutUint16 (Crc16.Checksum vp) in
  Ok (string_of (Base32.Encode raw)).

Definition MustEncode (version : Z) (src : list Z) : res string :=
  match Encode version src with Err e => Panic e | r => r end.

(** Base32-decodes a strkey after the canonicality checks of SEP-23. *)
Definition decodeString (src : string) : res (list Z) :=
  let srcBytes := bytes_of src in
  let n := length srcBytes in
  if Nat.ltb n 5 then Err "strkey is too short; minimum valid length is 5" else
  let leftoverBits := Nat.modulo (n * 5) 8 in
  if Nat.leb 5 leftoverBits then Err "non-canonical strkey; unused leftover character" else
  _ ← (if Nat.ltb 0 leftoverBits then
         let decodedLastChar := Base32.dec_char (List.last srcBytes 0) in
         if decodedLastChar =? 0xff then Err "base32 decode failed" else
         let leftoverBitsMask := Z.shiftr 0x0f (Z.of_nat (4 - leftoverBits)) in
         if negb (Z.land decodedLastChar leftoverBitsMask =? 0)
         then Err "non-canonical strkey; unused bits should be set to 0" else Ok tt
       else Ok tt);
  match Base32.Decode srcBytes with
  | Err _ => Err "base32 decode failed"
  | r => r
  end.

(** The version, signed part, payload and checksum of a raw strkey; the slice
    expressions panic on fewer than three bytes. *)
Definition components (raw : list Z) : res (Z * list Z * list Z * Z) :=
  match raw with
  | version :: rest =>
      if Nat.ltb (length raw) 3 then Panic "slice bounds out of range" else
      Ok (version, take (length raw - 2) raw, take (length raw - 3) rest,
          Uint16 (drop (length raw - 2) raw))
  | [] => Panic "index out of range"
  end.

Definition DecodeAny (src : string) : res (Z * list Z) :=
  raw ← decodeString src;
  '(version, vp, payload, checksum) ← components raw;
  _ ← checkValidVersionByte version;
  _ ← Crc16.Validate vp checksum;
  Ok (version, payload).

Definition Decode (expected : Z) (src : string) : res (list Z) :=
  _ ← checkValidVersionByte expected;
  raw ← decodeString src;
  if Nat.ltb (length raw) 3 then Err "decoded string is too short" else
  '(version, vp, payload, checksum) ← components raw;
  if negb (version =? expected) then Err ErrInvalidVersionByte else
  _ ← Crc16.Validate vp checksum;
  Ok payload.

Definition MustDecode (expected : Z) (src : string) : res (list Z) :=
  match Decode expected src with Err e => Panic e | r => r end.

Definition Version (src : string) : res Z :=
  raw ← decodeString src; from_opt "index out of range" (head raw).

Definition IsValidEd25519PublicKey (enc : string) : bool := is_ok (Decode VersionByteAccountID enc).
Definition IsValidMuxedAccountEd25519PublicKey (s : string) : bool :=
  is_ok (Decode VersionByteMuxedAccount s).
Definition IsValidEd25519SecretSeed (enc : string) : bool := is_ok (Decode VersionByteSeed enc).

Definition valid_version (v : Z) : Prop := checkValidVersionByte v = Ok tt.

Definition raw_of (version : Z) (src : list Z) : list Z :=
  (version :: src) ++ PutUint16 (Crc16.Checksum (version :: src)).

#[local] Arguments components : simpl never.
#[local] Arguments raw_of : simpl never.

Lemma valid_version_byte v : valid_version v -> is_byte v.
Proof.
  unfold valid_version, checkValidVersionByte. case_scrutinee; [|done]. intros _.
  apply existsb_exists in E as (x & Hin & Hx). zbool. subst x.
  unfold valid_versions in Hin. cbv in Hin. unfold is_byte. lia.
Qed.

Lemma Uint16_PutUint16 crc : Uint16 (PutUint16 crc) = crc.
Proof. unfold Uint16, PutUint16; simpl. pose proof (Z.div_mod crc 256). lia. Qed.

Lemma raw_of_bytes version src :
  is_byte version -> Forall is_byte src -> Forall is_byte (raw_of version src).
Proof.
  intros Hv Hs. unfold raw_of. assert (Hvs : Forall is_byte (version :: src)) by by constructor.
  apply Forall_app; split; [done|].
  pose proof (Crc16.Checksum_range _ Hvs) as Hc. unfold in_uint in Hc. unfold PutUint16.
  rewrite !Forall_cons. split; [apply Z.mod_pos_bound; lia|]. split; [|done].
  split; [apply Z.div_pos; lia|apply Z.div_lt_upper_bound; lia].
Qed.

Lemma raw_of_length version src : length (raw_of version src) = (length src + 3)%nat.
Proof. unfold raw_of. rewrite length_app. simpl. lia. Qed.

Lemma components_raw_of version src :
  components (raw_of version src) =
  Ok (version, version :: src, src, Crc16.Checksum (version :: src)).
Proof.
  unfold components. pose proof (raw_of_length version src) as Hl.
  unfold raw_of in *. cbn [app] in *. rewrite Hl.
  replace (Nat.ltb (length src + 3) 3) with false by (symmetry; apply Nat.ltb_ge; lia).
  rewrite (app_comm_cons src _ version) at 1.
  replace (length src + 3 - 2)%nat with (length (version :: src)) by (simpl; lia).
  replace (length src + 3 - 3)%nat with (length src) by lia.
  rewrite take_app_length.
  change (version :: src ++ PutUint16 (Crc16.Checksum (version :: src)))
    with ((version :: src) ++ PutUint16 (Crc16.Checksum (version :: src))).
  by rewrite drop_app_length, take_app_length, Uint16_PutUint16.
Qed.

(** Raw bytes that split into components are determined by them. *)
Lemma components_inv raw version vp payload :
  Forall is_byte raw ->
  components raw = Ok (version, vp, payload, Crc16.Checksum vp) ->
  raw = raw_of version payload /\ vp = version :: payload.
Proof.
  intros Hb. unfold components. destruct raw as [|v rest]; [done|].
  destruct (Nat.ltb_spec (length (v :: rest)) 3) as [|Hl]; [done|].
  intros [= <- Hvp Hp Hc]. simpl in Hl.
  replace (length rest - 1)%nat with (S (length rest - 2)) in * by lia.
  cbn [take drop] in Hvp, Hc. rewrite Hp in Hvp. subst vp. split; [|done].
  unfold raw_of. rewrite <- Hc. cbn [app]. f_equal.
  rewrite <- (take_drop (length rest - 2) rest) at 1. rewrite Hp. f_equal.
  apply Forall_cons in Hb as [_ Hb].
  assert (Hd : length (drop (length rest - 2) rest) = 2%nat) by (rewrite length_drop; lia).
  pose proof (Forall_drop _ (length rest - 2) _ Hb) as Hbd.
  destruct (drop (length rest - 2) rest) as [|x [|y [|? ?]]]; try done.
  rewrite !Forall_cons in Hbd. destruct Hbd as (Hx & Hy & _). unfold is_byte in *.
  unfold PutUint16, Uint16. cbn [nth].
  rewrite (Z.mul_comm 256), Z_mod_plus_full, Z.mod_small by lia.
  by rewrite Z.div_add, Z.div_small by lia.
Qed.

(** ** Canonical base32 lengths *)

Lemma enc_leftover n :
  ((Base32.EncodedLen n * 5) mod 8 = Base32.EncodedLen n * 5 - n * 8)%nat /\
  (Base32.EncodedLen n * 5 - n * 8 < 5)%nat.
Proof.
  unfold Base32.EncodedLen. pose proof (Nat.div_mod_eq (n * 8 + 4) 5).
  pose proof (Nat.mod_upper_bound (n * 8 + 4) 5 ltac:(lia)).
  set (q := ((n * 8 + 4) / 5)%nat) in *. split; [|lia].
  symmetry. apply (Nat.mod_unique _ _ n); lia.
Qed.

Lemma quantum_leftover r : (r < 8)%nat -> ((r * 5) mod 8 < 5)%nat ->
  (Base32.quantum_bytes r * 8 + (r * 5) mod 8 = r * 5)%nat /\
  exists q, (Base32.quantum_bytes r * 8 + 4 = 5 * r + q)%nat /\ (q < 5)%nat.
Proof.
  intros Hr Hk.
  destruct r as [|[|[|[|[|[|[|[|?]]]]]]]]; try lia; vm_compute in Hk; try lia;
    (split; [done|]); cbn [Base32.quantum_bytes].
  - exists 4%nat; lia.
  - exists 2%nat; lia.
  - exists 0%nat; lia.
  - exists 3%nat; lia.
  - exists 1%nat; lia.
Qed.

Lemma dec_leftover m : ((m * 5) mod 8 < 5)%nat ->
  (Base32.decoded_len m * 8 + (m * 5) mod 8 = m * 5)%nat /\
  Base32.EncodedLen (Base32.decoded_len m) = m.
Proof.
  intros Hk. unfold Base32.EncodedLen, Base32.decoded_len.
  pose proof (Nat.div_mod_eq m 8). pose proof (Nat.mod_upper_bound m 8 ltac:(lia)).
  assert (Hm : (m * 5 mod 8 = ((m mod 8) * 5) mod 8)%nat)
    by (by rewrite Nat.Div0.mul_mod_idemp_l).
  rewrite Hm in *. clear Hm.
  destruct (quantum_leftover (m mod 8) ltac:(done) Hk) as [E (q & Eq & Hq)].
  split; [lia|]. symmetry. apply (Nat.div_unique _ _ _ q); lia.
Qed.

Lemma leftover_mask k : (0 < k < 5)%nat ->
  Z.shiftr 0x0f (Z.of_nat (4 - k)) = 2 ^ Z.of_nat k - 1.
Proof. intros Hk. destruct k as [|[|[|[|[|?]]]]]; try lia; done. Qed.

Lemma decodeString_raw raw : Forall is_byte raw -> (3 <= length raw)%nat ->
  decodeString (string_of (Base32.Encode raw)) = Ok raw.
Proof.
  intros Hb Hl. unfold decodeString.
  rewrite bytes_of_string_of by apply Base32.Encode_bytes.
  rewrite Base32.Encode_length.
  destruct (enc_leftover (length raw)) as [Ek Hk]. 
  pose proof (Base32.encoded_bits_fit (length raw)).
  replace (Nat.ltb (Base32.EncodedLen (length raw)) 5) with false
    by (symmetry; apply Nat.ltb_ge; lia).
  rewrite Ek. set (k := (Base32.EncodedLen (length raw) * 5 - length raw * 8)%nat) in *.
  replace (Nat.leb 5 k) with false by (symmetry; apply Nat.leb_gt; lia).
  rewrite Base32.Decode_Encode by done.
  destruct (Nat.ltb_spec 0 k) as [Hk0|]; [|done].
  pose proof (Base32.Encode_flat raw) as Hf. fold k in Hf. unfold Base32.Encode.
  pose proof (Base32.enc_vals_range raw) as Hv.
  assert (Hlen : (0 < length (map of_bits (group (Base32.EncodedLen (length raw)) 5 (flatten 8 raw))))%nat)
    by (rewrite length_map, group_length; lia).
  destruct (map of_bits (group _ 5 (flatten 8 raw))) as [|v vs _] using rev_ind;
    [simpl in Hlen; lia|].
  rewrite map_app. cbn [map]. rewrite last_last.
  rewrite Forall_app, Forall_singleton in Hv. destruct Hv as [_ Hv].
  rewrite Base32.dec_enc_char by done.
  replace (v =? 255) with false by lia.
  rewrite leftover_mask, land_mask by lia.
  by rewrite (flatten_last_inv 5 k vs v (flatten 8 raw)) by (done || lia).
Qed.

(** Decoded characters of a string in the alphabet. *)
Lemma decoded_vals cs : Forall is_byte cs ->
  existsb (fun v => v =? 0xff) (map Base32.dec_char cs) = false ->
  Forall (fun v => 0 <= v < 32) (map Base32.dec_char cs) /\
  map Base32.enc_char (map Base32.dec_char cs) = cs.
Proof.
  induction 1 as [|c cs Hc _ IH]; [done|]. simpl. intros H; zbool.
  destruct (Base32.enc_dec_char c Hc ltac:(done)) as [Hr He].
  destruct (IH ltac:(done)) as [IH1 IH2]. split; [by constructor|]. by rewrite He, IH2.
Qed.

(** Re-encoding what canonical text decodes to gives the text back. *)
Lemma Encode_decoded vals b k :
  Forall (fun v => 0 <= v < 32) vals -> ((length vals * 5) mod 8 < 5)%nat ->
  flatten 5 vals = b ++ replicate k false -> k = ((length vals * 5) mod 8)%nat ->
  Base32.Encode (map of_bits (group (Base32.decoded_len (length vals)) 8 (flatten 5 vals)))
  = map Base32.enc_char vals.
Proof.
  intros Hv Hk Hf Ek. destruct (dec_leftover (length vals) Hk) as [Hlen Henc].
  assert (Hb : length b = (Base32.decoded_len (length vals) * 8)%nat).
  { pose proof (f_equal length Hf) as H. rewrite length_app, flatten_length, length_replicate in H. lia. }
  unfold Base32.Encode. rewrite length_map, group_length, Henc.
  rewrite flatten_of_bits, concat_group by apply group_widths.
  rewrite Hf, resize_le by (rewrite length_app; lia).
  rewrite take_app_length' by done.
  rewrite <- (group_pad (length vals) 5 b k) by lia.
  rewrite <- Hf, <- (app_nil_r (flatten 5 vals)). by rewrite regroup.
Qed.

Lemma decodeString_canonical s raw :
  Base32.strip_newlines (bytes_of s) = bytes_of s -> decodeString s = Ok raw ->
  string_of (Base32.Encode raw) = s /\ Forall is_byte raw.
Proof.
  intros Hnl H. unfold decodeString in H. pose proof (bytes_of_range s) as Hb.
  destruct (Nat.ltb_spec (length (bytes_of s)) 5) as [|Hl]; [done|].
  destruct (Nat.leb_spec 5 (length (bytes_of s) * 5 mod 8)) as [|Hk]; [done|].
  apply bind_Ok in H as (u & Hlast & H). unfold Base32.Decode in H. rewrite Hnl in H.
  destruct (existsb _ _) eqn:Ex; [done|]. injection H as <-.
  destruct (decoded_vals _ Hb Ex) as [Hv Henc].
  split; [|apply Forall_forall; intros x Hx;
           pose proof (of_bits_groups (Base32.decoded_len (length (map Base32.dec_char (bytes_of s)))) 8
             (flatten 5 (map Base32.dec_char (bytes_of s)))) as Hg;
           rewrite Forall_forall in Hg; by apply Hg].
  assert (Hz : exists b, flatten 5 (map Base32.dec_char (bytes_of s)) =
                    b ++ replicate (length (bytes_of s) * 5 mod 8) false).
  { destruct (Nat.ltb_spec 0 (length (bytes_of s) * 5 mod 8)) as [Hk0|Hk0].
    - destruct (bytes_of s) as [|c cs _] using rev_ind; [simpl in Hl; lia|].
      rewrite last_last in Hlast. do 2 (case_scrutinee_in Hlast; [done|]). zbool.
      rewrite map_app. apply flatten_last_zero; [lia|].
      by rewrite leftover_mask, land_mask in E0 by lia.
    - exists (flatten 5 (map Base32.dec_char (bytes_of s))).
      replace (length (bytes_of s) * 5 mod 8)%nat with 0%nat by lia.
      by rewrite app_nil_r. }
  destruct Hz as [b Hz].
  rewrite (Encode_decoded _ b _ Hv) with (2 := Hz) by (rewrite length_map; done).
  rewrite Henc. apply string_of_bytes_of.
Qed.

Lemma Validate_ok vp c : Crc16.Validate vp c = Ok tt <-> c = Crc16.Checksum vp.
Proof. unfold Crc16.Validate. destruct (Z.eqb_spec (Crc16.Checksum vp) c); simpl; split; congruence. Qed.

(** The strkey of a payload. *)
Definition text (version : Z) (src : list Z) : string := string_of (Base32.Encode (raw_of version src)).

Definition no_newline (s : string) : Prop := Base32.strip_newlines (bytes_of s) = bytes_of s.

Lemma bytes_of_text version src : bytes_of (text version src) = Base32.Encode (raw_of version src).
Proof. apply bytes_of_string_of, Base32.Encode_bytes. Qed.

Lemma text_length version src : length (bytes_of (text version src)) = Base32.EncodedLen (length src + 3).
Proof. by rewrite bytes_of_text, Base32.Encode_length, raw_of_length. Qed.

Lemma Encode_text version src : valid_version version -> (length src <= maxPayloadSize)%nat ->
  Encode version src = Ok (text version src).
Proof.
  intros Hv Hl. unfold Encode. unfold valid_version in Hv. rewrite Hv, bind_Ok_l.
  by replace (Nat.ltb maxPayloadSize (length src)) with false by (symmetry; by apply Nat.ltb_ge).
Qed.

Lemma Decode_text version src : valid_version version -> Forall is_byte src ->
  Decode version (text version src) = Ok src /\ DecodeAny (text version src) = Ok (version, src) /\
  Version (text version src) = Ok version /\ no_newline (text version src).
Proof.
  intros Hv Hb. pose proof (valid_version_byte _ Hv) as Hvb.
  unfold Decode, DecodeAny, Version, no_newline, text. unfold valid_version in Hv.
  rewrite decodeString_raw; [|by apply raw_of_bytes|rewrite raw_of_length; lia].
  rewrite !Hv, !bind_Ok_l, components_raw_of, raw_of_length.
  rewrite !bind_Ok_l, Hv, bind_Ok_l, (proj2 (Validate_ok _ _)) by done.
  replace (Nat.ltb (length src + 3) 3) with false by (symmetry; apply Nat.ltb_ge; lia).
  rewrite Z.eqb_refl. repeat split; [].
  rewrite bytes_of_string_of by apply Base32.Encode_bytes.
  unfold Base32.Encode. apply Base32.strip_enc, Base32.enc_vals_range.
Qed.

Lemma Decode_inv version s payload : Decode version s = Ok payload -> valid_version version /\
  exists raw, decodeString s = Ok raw /\ components raw = Ok (version, take (length raw - 2) raw, payload,
    Crc16.Checksum (take (length raw - 2) raw)).
Proof.
  intros Hd. unfold Decode in Hd. apply bind_Ok in Hd as ([] & Hv & Hd). split; [done|].
  apply bind_Ok in Hd as (raw & Hraw & Hd). case_scrutinee_in Hd; [done|].
  apply bind_Ok in Hd as ([[[v vp] p] c] & Hc & Hd).
  case_scrutinee_in Hd; [done|]. zbool. subst v.
  apply bind_Ok in Hd as ([] & Hval & [= ->]).
  apply Validate_ok in Hval as ->. exists raw. split; [done|].
  assert (Hvp : vp = take (length raw - 2) raw).
  { unfold components in Hc. destruct raw as [|b raw]; [done|]. destruct (Nat.ltb (length (b :: raw)) 3); congruence. }
  by rewrite Hvp in Hc.
Qed.

Lemma Decode_length version s payload : Decode version s = Ok payload ->
  (length payload + 3)%nat = Base32.decoded_len (length (Base32.strip_newlines (bytes_of s))).
Proof.
  intros Hd. apply Decode_inv in Hd as (_ & raw & Hraw & Hc).
  assert (Hl : (length payload + 3)%nat = length raw).
  { unfold components in Hc. destruct raw as [|b raw]; [done|].
    destruct (Nat.ltb_spec (length (b :: raw)) 3) as [|Hge]; [done|]. cbn [length] in *.
    assert (Hp : payload = take (S (length raw) - 3) raw) by congruence. rewrite Hp, length_take. lia. }
  rewrite Hl. unfold decodeString in Hraw. case_scrutinee_in Hraw; [done|]. case_scrutinee_in Hraw; [done|].
  apply bind_Ok in Hraw as (_ & _ & Hraw). unfold Base32.Decode in Hraw.
  destruct (existsb _ _); [done|]. injection Hraw as <-. by rewrite length_map, group_length, length_map.
Qed.

(** A text of the length that its payload needs has no newlines in it. *)
Lemma Decode_no_newline version s payload : Decode version s = Ok payload ->
  (forall k, (k < length (bytes_of s))%nat -> Base32.decoded_len k <> (length payload + 3)%nat) -> no_newline s.
Proof.
  intros Hd Hk. apply Decode_length in Hd. unfold no_newline, Base32.strip_newlines in *.
  destruct (decide (length (List.filter (fun c => negb (Base32.is_newline c)) (bytes_of s)) < length (bytes_of s))%nat) as [Hlt|Hge].
  { by destruct (Hk _ Hlt). }
  clear Hd Hk. revert Hge. induction (bytes_of s) as [|b l IH]; [done|]. cbn [List.filter].
  pose proof (List.filter_length_le (fun c => negb (Base32.is_newline c)) l) as Hle.
  destruct (negb (Base32.is_newline b)); cbn [length]; intros Hge; [|lia]. f_equal. apply IH. lia.
Qed.

Lemma Decode_canonical version s payload : no_newline s -> Decode version s = Ok payload ->
  valid_version version /\ s = text version payload /\ Forall is_byte payload.
Proof.
  intros Hn Hd. apply Decode_inv in Hd as (Hv & raw & Hraw & Hc). split; [done|].
  destruct (decodeString_canonical _ _ Hn Hraw) as [Hs Hb].
  destruct (components_inv _ _ _ _ Hb Hc) as [-> _]. split; [done|].
  unfold raw_of in Hb. apply Forall_app in Hb as [Hb _]. by apply Forall_cons in Hb as [_ Hb].
Qed.

Lemma Encode_too_long version src : valid_version version -> (maxPayloadSize < length src)%nat ->
  Encode version src = Err "data exceeds maximum payload size for strkey".
Proof.
  intros Hv Hl. unfold Encode. rewrite Hv, bind_Ok_l. by rewrite (proj2 (Nat.ltb_lt _ _)) by done.
Qed.

(** ** Properties *)

(** Encoding a payload of at most 100 bytes under any defined version byte
    succeeds, and every decoder returns the version and payload encoded. *)
Theorem strkey_roundtrip (version : Z) (src : list Z)
  (Hv : valid_version version) (Hb : Forall is_byte src)
  (Hl : (length src <= maxPayloadSize)%nat) :
  exists s, Encode version src = Ok s /\ Decode version s = Ok src /\
            DecodeAny s = Ok (version, src) /\ Version s = Ok version /\ no_newline s.
Proof. exists (text version src). split; [by apply Encode_text|by apply Decode_text]. Qed.

Lemma strkey_roundtrip_witness :
  Encode VersionByteAccountID (replicate 32 0) =
    Ok "GAAAAAAAAAAAAAAAAAAAAAAAAAAAAAAAAAAAAAAAAAAAAAAAAAAAAWHF"%string /\
  exists s, Encode VersionByteAccountID (replicate 32 0) = Ok s /\
    Decode VersionByteAccountID s = Ok (replicate 32 0) /\
    DecodeAny s = Ok (VersionByteAccountID, replicate 32 0) /\
    Version s = Ok VersionByteAccountID /\ no_newline s.
Proof.
  split; [vm_compute; reflexivity|].
  apply (strkey_roundtrip VersionByteAccountID (replicate 32 0)).
  - reflexivity.
  - apply Forall_replicate. unfold is_byte; lia.
  - rewrite length_replicate. unfold maxPayloadSize; lia.
Defined.

(** C30: A newline-free string that decodes is the one encoding of its payload:
    there is exactly one strkey text per version and payload that [Decode]
    accepts, and [Encode] gives it when the payload has at most 100 bytes.
    [Decode] has no such bound, so it also accepts texts of longer payloads,
    which [Encode] refuses; these too are unique. *)
Theorem strkey_canonical (version : Z) (s : string) (payload : list Z)
  (Hn : no_newline s) (Hd : Decode version s = Ok payload) :
  Forall is_byte payload /\
  Encode version payload =
    (if Nat.leb (length payload) 100 then Ok s else Err "data exceeds maximum payload size for strkey") /\
  forall s', no_newline s' -> Decode version s' = Ok payload -> s' = s.
Proof.
  destruct (Decode_canonical _ _ _ Hn Hd) as (Hv & Hs & Hb). split; [done|]. split.
  - subst s. destruct (Nat.leb_spec (length payload) 100) as [Hl|Hl]; [by apply Encode_text|].
    apply Encode_too_long; [done|]. by unfold maxPayloadSize.
  - intros s' Hn' Hd'. destruct (Decode_canonical _ _ _ Hn' Hd') as (_ & -> & _). by rewrite Hs.
Qed.

Lemma strkey_canonical_witness :
  Encode VersionByteAccountID (replicate 32 0) =
    Ok "GAAAAAAAAAAAAAAAAAAAAAAAAAAAAAAAAAAAAAAAAAAAAAAAAAAAAWHF"%string.
Proof.
  apply (strkey_canonical VersionByteAccountID
    "GAAAAAAAAAAAAAAAAAAAAAAAAAAAAAAAAAAAAAAAAAAAAAAAAAAAAWHF" (replicate 32 0)).
  - vm_compute; reflexivity.
  - vm_compute; reflexivity.
Defined.

Definition newlines (n : nat) : string := string_of (replicate n 10).

(** Newlines are skipped by the base32 decoder after the length checks, so a
    strkey with eight of them appended is accepted although it is not the
    canonical text ... *)
Example newline_strkey_accepted :
  IsValidEd25519PublicKey
    (String.append "GAAAAAAAAAAAAAAAAAAAAAAAAAAAAAAAAAAAAAAAAAAAAAAAAAAAAWHF" (newlines 8)) = true.
Proof. vm_compute. reflexivity. Qed.

(** ... and eight newlines alone decode to no bytes, on which [DecodeAny] and
    [Version] index out of range. *)
Example newline_strkey_panics :
  DecodeAny (newlines 8) = Panic "index out of range" /\
  Version (newlines 8) = Panic "index out of range" /\
  Decode VersionByteAccountID (newlines 8) = Err "decoded string is too short".
Proof. vm_compute. auto. Qed.

End Strkey.
