(* ===== verification/Xdr.v ===== *)
(** * Ledger data (xdr/account_id.go, xdr/asset.go, xdr/xdr_generated.go)

    Account ids, assets with their textual forms and order, and the offer and
    liquidity pool entries that the order book stores.  A union value of the
    generated code is an inductive type with one constructor per arm, so an
    ill-typed union (a type tag whose arm is nil) is not represented. *)
From S2P Require Import Prelude Strkey Price.

(** ** Strings as byte lists *)
Module GoString.

(** The order of Go strings. *)
Fixpoint bytes_lt (a b : list Z) : bool :=
  match a, b with
  | _, [] => false
  | [], _ :: _ => true
  | x :: a', y :: b' => if x <? y then true else if y <? x then false else bytes_lt a' b'
  end.

(** strings.Split for a one-byte separator. *)
Fixpoint split_bytes (sep : Z) (l : list Z) : list (list Z) :=
  match l with
  | [] => [[]]
  | c :: l' =>
      if c =? sep then [] :: split_bytes sep l'
      else match split_bytes sep l' with
           | p :: ps => (c :: p) :: ps
           | [] => [[c]]
           end
  end.

(** strings.ToLower as far as its comparison with an ASCII word needs: ASCII
    letters, and U+0130 (bytes C4 B0), whose lower case is the ASCII i. *)
Fixpoint to_lower (l : list Z) : list Z :=
  match l with
  | [] => []
  | c :: l' =>
      let lower := if (65 <=? c) && (c <=? 90) then c + 32 else c in
      match l' with
      | b :: l'' =>
          if (c =? 0xC4) && (b =? 0xB0) then 105 :: to_lower l'' else lower :: to_lower l'
      | [] => [lower]
      end
  end.

Lemma to_lower_cons c b l :
  to_lower (c :: b :: l) =
  if (c =? 0xC4) && (b =? 0xB0) then 105 :: to_lower l
  else (if (65 <=? c) && (c <=? 90) then c + 32 else c) :: to_lower (b :: l).
Proof. done. Qed.

Definition is_alnum (c : Z) : bool :=
  ((48 <=? c) && (c <=? 57)) || ((65 <=? c) && (c <=? 90)) || ((97 <=? c) && (c <=? 122)).

Lemma bytes_lt_irrefl a : bytes_lt a a = false.
Proof. induction a as [|x a IH]; [done|]. simpl. by rewrite Z.ltb_irrefl. Qed.

Lemma bytes_lt_trans a : forall b c,
  bytes_lt a b = true -> bytes_lt b c = true -> bytes_lt a c = true.
Proof.
  induction a as [|x a IH]; intros [|y b] [|z c]; simpl; try done.
  destruct (Z.ltb_spec x y), (Z.ltb_spec y z), (Z.ltb_spec y x), (Z.ltb_spec z y),
    (Z.ltb_spec x z), (Z.ltb_spec z x); try done; try lia. apply IH.
Qed.

Lemma bytes_lt_total a : forall b, bytes_lt a b = false -> bytes_lt b a = false -> a = b.
Proof.
  induction a as [|x a IH]; intros [|y b]; simpl; try done.
  destruct (Z.ltb_spec x y), (Z.ltb_spec y x); try done; try lia.
  intros H1 H2. f_equal; [lia|by apply IH].
Qed.

Lemma bytes_of_app a b : bytes_of (String.append a b) = bytes_of a ++ bytes_of b.
Proof. induction a as [|c a IH]; [done|]. unfold bytes_of in *. simpl. by rewrite IH. Qed.

Lemma bytes_of_inj a b : bytes_of a = bytes_of b -> a = b.
Proof. intros H. by rewrite <- (string_of_bytes_of a), H, string_of_bytes_of. Qed.

Lemma split_no_sep sep l : ~ In sep l -> split_bytes sep l = [l].
Proof.
  induction l as [|c l IH]; [done|]. simpl. intros H.
  destruct (Z.eqb_spec c sep); [naive_solver|]. by rewrite IH by naive_solver.
Qed.

Lemma split_cons sep a l : ~ In sep a -> split_bytes sep (a ++ sep :: l) = a :: split_bytes sep l.
Proof.
  induction a as [|c a IH]; simpl; intros H.
  - by rewrite Z.eqb_refl.
  - destruct (Z.eqb_spec c sep); [naive_solver|]. by rewrite IH by naive_solver.
Qed.

(** strings.Join undone by strings.Split. *)
Fixpoint join (sep : Z) (ps : list (list Z)) : list Z :=
  match ps with
  | [] => []
  | [p] => p
  | p :: ps => p ++ sep :: join sep ps
  end.

Lemma split_join sep ps : ps <> [] -> Forall (fun p => ~ In sep p) ps ->
  split_bytes sep (join sep ps) = ps.
Proof.
  intros Hne H. induction H as [|p ps Hp Hps IH]; [done|].
  destruct ps as [|q ps]; [by apply split_no_sep|].
  change (join sep (p :: q :: ps)) with (p ++ sep :: join sep (q :: ps)).
  rewrite split_cons by done. by rewrite IH.
Qed.

End GoString.

(** ** AccountId: an ed25519 public key, the only public key type *)
Module AccountId.

Record t := mk { Ed25519 : list Z }.

#[global] Instance t_eq_dec : EqDecision t.
Proof. solve_decision. Defined.

Definition wf (a : t) : Prop := length (Ed25519 a) = 32%nat /\ Forall is_byte (Ed25519 a).

Definition GetAddress (aid : t) : res string :=
  Strkey.Encode Strkey.VersionByteAccountID (Ed25519 aid).

Definition Address (aid : t) : res string :=
  match GetAddress aid with Err e => Panic e | r => r end.

Definition Equals (aid other : t) : bool := bool_decide (Ed25519 aid = Ed25519 other).

Definition SetAddress (address : string) : res t :=
  raw ← Strkey.Decode Strkey.VersionByteAccountID address;
  if negb (Nat.eqb (length raw) 32) then Err "invalid address" else Ok (mk raw).

Definition AddressToAccountId (address : string) : res t := SetAddress address.

Definition MustAddress (address : string) : res t :=
  match SetAddress address with Err e => Panic e | r => r end.

(** The address of a well-formed account id, as a total function. *)
Definition address (aid : t) : string :=
  match GetAddress aid with Ok s => s | _ => EmptyString end.

Lemma GetAddress_total aid : (length (Ed25519 aid) <= 100)%nat -> GetAddress aid = Ok (address aid).
Proof.
  intros H. unfold address, GetAddress, Strkey.Encode. simpl mbind.
  by replace (Nat.ltb Strkey.maxPayloadSize (length (Ed25519 aid))) with false
    by (symmetry; by apply Nat.ltb_ge).
Qed.

Lemma address_bytes aid : (length (Ed25519 aid) <= 100)%nat ->
  bytes_of (address aid) =
  Base32.Encode (Strkey.raw_of Strkey.VersionByteAccountID (Ed25519 aid)).
Proof.
  intros H. pose proof (GetAddress_total aid H) as E. unfold GetAddress, Strkey.Encode in E.
  simpl mbind in E.
  replace (Nat.ltb Strkey.maxPayloadSize (length (Ed25519 aid))) with false in E
    by (symmetry; by apply Nat.ltb_ge).
  injection E as <-. apply bytes_of_string_of, Base32.Encode_bytes.
Qed.

Lemma address_length aid : wf aid -> length (bytes_of (address aid)) = 56%nat.
Proof.
  intros [Hl _]. rewrite address_bytes by lia.
  rewrite Base32.Encode_length, Strkey.raw_of_length, Hl. done.
Qed.

Lemma SetAddress_address aid : wf aid -> SetAddress (address aid) = Ok aid.
Proof.
  intros [Hl Hb]. unfold SetAddress, Strkey.Decode.
  assert (Hs : string_of (Base32.Encode (Strkey.raw_of Strkey.VersionByteAccountID (Ed25519 aid)))
               = address aid) by (rewrite <- address_bytes by lia; apply string_of_bytes_of).
  rewrite <- Hs, Strkey.decodeString_raw;
    [|by apply Strkey.raw_of_bytes|rewrite Strkey.raw_of_length; lia].
  change (Strkey.checkValidVersionByte Strkey.VersionByteAccountID) with (@Ok unit tt).
  rewrite !bind_Ok_l, Strkey.raw_of_length, Hl, Strkey.components_raw_of, bind_Ok_l.
  rewrite Z.eqb_refl, (proj2 (Strkey.Validate_ok _ _)) by done. simpl. rewrite Hl.
  by destruct aid.
Qed.

Lemma address_inj a b : wf a -> wf b -> address a = address b -> a = b.
Proof.
  intros Ha Hb E. apply SetAddress_address in Ha, Hb. rewrite E in Ha. congruence.
Qed.

(** Addresses are upper-case base32 text. *)
Lemma address_chars aid c : wf aid -> In c (bytes_of (address aid)) -> In c Base32.alphabet.
Proof.
  intros [Hl _] Hin. rewrite address_bytes in Hin by lia.
  unfold Base32.Encode in Hin. apply in_map_iff in Hin as (v & <- & Hv).
  pose proof (Base32.enc_vals_range
    (Strkey.raw_of Strkey.VersionByteAccountID (Ed25519 aid))) as Hr.
  rewrite Forall_forall in Hr. apply list_elem_of_In in Hv. apply Hr in Hv.
  unfold Base32.enc_char. apply nth_In. change (length Base32.alphabet) with 32%nat. lia.
Qed.

End AccountId.

(** ** Asset *)
Module Asset.
Import GoString.

Inductive t :=
| Native
| AlphaNum4 (AssetCode : list Z) (Issuer : AccountId.t)
| AlphaNum12 (AssetCode : list Z) (Issuer : AccountId.t).

#[global] Instance t_eq_dec : EqDecision t.
Proof. solve_decision. Defined.

(** Asset codes are arrays of 4 and 12 bytes. *)
Definition wf (a : t) : Prop :=
  match a with
  | Native => True
  | AlphaNum4 c i => length c = 4%nat /\ Forall is_byte c /\ AccountId.wf i
  | AlphaNum12 c i => length c = 12%nat /\ Forall is_byte c /\ AccountId.wf i
  end.

(** The AssetType enum. *)
Definition Type_ (a : t) : Z :=
  match a with Native => 0 | AlphaNum4 _ _ => 1 | AlphaNum12 _ _ => 2 end.

Definition AssetTypeToString (typ : Z) : string :=
  if typ =? 0 then "native"
  else if typ =? 1 then "credit_alphanum4"
  else if typ =? 2 then "credit_alphanum12" else EmptyString.

Definition StringToAssetType (s : string) : option Z :=
  if String.eqb s "native" then Some 0
  else if String.eqb s "credit_alphanum4" then Some 1
  else if String.eqb s "credit_alphanum12" then Some 2 else None.

Fixpoint drop_right_zeros (rev_b : list Z) : list Z :=
  match rev_b with
  | b :: rest => if b =? 0 then drop_right_zeros rest else rev_b
  | [] => []
  end.
Definition trimRightZeros (b : list Z) : list Z := rev (drop_right_zeros (rev b)).

(** [Extract] into three strings: type, code and issuer. *)
Definition Extract (a : t) : string * string * string :=
  (AssetTypeToString (Type_ a),
   match a with
   | Native => EmptyString
   | AlphaNum4 c _ | AlphaNum12 c _ => string_of (trimRightZeros c)
   end,
   match a with
   | Native => EmptyString
   | AlphaNum4 _ i | AlphaNum12 _ i => AccountId.address i
   end).

Definition String_ (a : t) : string :=
  let '(typ, c, i) := Extract a in
  match a with
  | Native => typ
  | _ => String.append typ (String.append "/" (String.append c (String.append "/" i)))
  end.

Definition StringCanonical (a : t) : string :=
  let '(typ, c, i) := Extract a in
  match a with
  | Native => typ
  | _ => String.append c (String.append ":" i)
  end.

Definition Equals (a other : t) : bool :=
  match a, other with
  | Native, Native => true
  | AlphaNum4 c i, AlphaNum4 c' i' => bool_decide (c = c') && AccountId.Equals i i'
  | AlphaNum12 c i, AlphaNum12 c' i' => bool_decide (c = c') && AccountId.Equals i i'
  | _, _ => false
  end.

Definition GetCode (a : t) : list Z :=
  match a with Native => [] | AlphaNum4 c _ | AlphaNum12 c _ => c end.

Definition GetIssuer (a : t) : string :=
  match a with Native => EmptyString | AlphaNum4 _ i | AlphaNum12 _ i => AccountId.address i end.

Definition LessThan (a b : t) : bool :=
  if negb (Type_ a =? Type_ b) then Type_ a <? Type_ b
  else if negb (bool_decide (GetCode a = GetCode b)) then bytes_lt (GetCode a) (GetCode b)
  else bytes_lt (bytes_of (GetIssuer a)) (bytes_of (GetIssuer b)).

(** [copy] into a zeroed array of [n] bytes. *)
Definition copy_code (n : nat) (code : list Z) : list Z := resize n 0 code.

Definition SetCredit (code : string) (issuer : AccountId.t) : res t :=
  let bytes := bytes_of code in
  let length := length bytes in
  if Nat.leb 1 length && Nat.leb length 4 then Ok (AlphaNum4 (copy_code 4 bytes) issuer)
  else if Nat.leb 5 length && Nat.leb length 12 then Ok (AlphaNum12 (copy_code 12 bytes) issuer)
  else Err "Asset code length is invalid".

Definition SetNative : res t := Ok Native.

Definition NewCreditAsset (code issuer : string) : res t :=
  accountID ← AccountId.SetAddress issuer;
  SetCredit code accountID.

Definition MustNewCreditAsset (code issuer : string) : res t :=
  match NewCreditAsset code issuer with Err e => Panic e | r => r end.

Definition BuildAsset (assetType issuer code : string) : res t :=
  match StringToAssetType assetType with
  | None => Err "invalid asset type"
  | Some 0 => SetNative
  | Some _ =>
      issuerAccountID ← AccountId.SetAddress issuer;
      SetCredit code issuerAccountID
  end.

Definition ValidAssetCode (code : list Z) : bool :=
  Nat.leb 1 (length code) && Nat.leb (length code) 12 && forallb is_alnum code.

Definition BuildAsset1 (assetString : list Z) : res t :=
  if bool_decide (to_lower assetString = bytes_of "native") then SetNative else
  match split_bytes 58 assetString with
  | [code; issuer] =>
      if negb (ValidAssetCode code)
      then Err "not a valid asset, it contains an invalid asset code" else
      match AccountId.AddressToAccountId (string_of issuer) with
      | Ok issuer =>
          match SetCredit (string_of code) issuer with
          | Err _ => Err "not a valid asset"
          | r => r
          end
      | Err _ => Err "not a valid asset, it contains an invalid issuer"
      | Panic m => Panic m
      end
  | _ => Err "not a valid asset"
  end.

Fixpoint BuildAssets_loop (assetStrings : list (list Z)) (assets : list t) : res (list t) :=
  match assetStrings with
  | [] => Ok assets
  | assetString :: rest =>
      asset ← BuildAsset1 assetString;
      BuildAssets_loop rest (assets ++ [asset])
  end.

Definition BuildAssets (s : string) : res (list t) :=
  if String.eqb s EmptyString then Ok []
  else BuildAssets_loop (split_bytes 44 (bytes_of s)) [].

(** ** Codes and their padding *)

Lemma drop_right_zeros_spec l : exists n, l = replicate n 0 ++ drop_right_zeros l.
Proof.
  induction l as [|b l [n IH]]; [by exists 0%nat|]. simpl.
  destruct (Z.eqb_spec b 0) as [->|]; [|by exists 0%nat].
  exists (S n). simpl. by rewrite <- IH.
Qed.

Lemma trimRightZeros_spec c : exists n, c = trimRightZeros c ++ replicate n 0.
Proof.
  destruct (drop_right_zeros_spec (rev c)) as [n E]. exists n. unfold trimRightZeros.
  rewrite <- (rev_involutive c) at 1. rewrite E at 1. rewrite rev_app_distr.
  f_equal. rewrite rev_alt. apply reverse_replicate.
Qed.

Lemma trimRightZeros_resize c n :
  length c = n -> resize n 0 (trimRightZeros c) = c.
Proof.
  intros Hl. destruct (trimRightZeros_spec c) as [k E]. rewrite E at 2.
  pose proof (f_equal length E) as Hlen. rewrite length_app, length_replicate in Hlen.
  rewrite resize_ge by lia. do 2 f_equal. lia.
Qed.

Lemma trimRightZeros_bytes c : Forall is_byte c -> Forall is_byte (trimRightZeros c).
Proof.
  destruct (trimRightZeros_spec c) as [k E]. rewrite E at 1. by rewrite Forall_app; intros [? _].
Qed.

Lemma trimRightZeros_inj c c' :
  length c = length c' -> trimRightZeros c = trimRightZeros c' -> c = c'.
Proof.
  intros Hl E. rewrite <- (trimRightZeros_resize c (length c')) by done.
  rewrite E. by apply trimRightZeros_resize.
Qed.

(** The text of a credit asset: code and issuer are recovered from the right. *)
Lemma code_issuer_inj sep c i c' i' :
  AccountId.wf i -> AccountId.wf i' -> Forall is_byte c -> Forall is_byte c' ->
  String.append (string_of (trimRightZeros c)) (String.append sep (AccountId.address i)) =
  String.append (string_of (trimRightZeros c')) (String.append sep (AccountId.address i')) ->
  trimRightZeros c = trimRightZeros c' /\ i = i'.
Proof.
  intros Hi Hi' Hc Hc' E. apply (f_equal bytes_of) in E.
  rewrite !bytes_of_app, !bytes_of_string_of, !app_assoc in E
    by by apply trimRightZeros_bytes.
  apply app_inj_2 in E as [E1 E2]; [|by rewrite !AccountId.address_length].
  apply app_inj_2 in E1 as [E1 _]; [|done].
  split; [done|]. apply AccountId.address_inj; [done|done|by apply bytes_of_inj].
Qed.

Lemma append_inj_l s a b : String.append s a = String.append s b -> a = b.
Proof. induction s as [|c s IH]; [done|]. simpl. intros [= E]. by apply IH. Qed.

Lemma String_inj a b : wf a -> wf b -> String_ a = String_ b -> a = b.
Proof.
  destruct a as [|c i|c i], b as [|c' i'|c' i']; try done;
    unfold String_; cbn [Extract Type_ AssetTypeToString Z.eqb wf];
    intros (Hl & Hc & Hi) (Hl' & Hc' & Hi') E;
    apply append_inj_l, append_inj_l, code_issuer_inj in E as [E ->]; try done;
    f_equal; apply trimRightZeros_inj; congruence.
Qed.

Lemma String_nonempty a : String_ a <> EmptyString.
Proof. by destruct a. Qed.

Lemma Equals_eq a b : Equals a b = true <-> a = b.
Proof.
  destruct a as [|c [i]|c [i]], b as [|c' [i']|c' [i']]; unfold Equals, AccountId.Equals; simpl;
    rewrite ?andb_true_iff, ?bool_decide_eq_true; naive_solver.
Qed.

(** ** The canonical text and its parser *)

(** Assets whose code is what SEP-11 allows: 1-4 or 5-12 alphanumerics. *)
Definition valid (a : t) : Prop :=
  wf a /\
  match a with
  | Native => True
  | AlphaNum4 c _ => ValidAssetCode (trimRightZeros c) = true
  | AlphaNum12 c _ =>
      ValidAssetCode (trimRightZeros c) = true /\ (5 <= length (trimRightZeros c))%nat
  end.

Lemma to_lower_colon n : forall l, (length l <= n)%nat -> In 58 l -> In 58 (to_lower l).
Proof.
  induction n as [|n IH]; intros l Hn Hin; [destruct l; [done|simpl in Hn; lia]|].
  destruct l as [|c [|b l]]; [done| |].
  - destruct Hin as [->|[]]. by left.
  - simpl in Hn. rewrite to_lower_cons. destruct ((c =? 196) && (b =? 176)) eqn:E.
    + zbool. subst. destruct Hin as [?|[?|Hin]]; [lia|lia|]. right. apply IH; [lia|done].
    + destruct Hin as [->|Hin]; [by left|]. right. apply IH; [simpl; lia|done].
Qed.

Lemma no_char_alnum c l : is_alnum c = false -> forallb is_alnum l = true -> ~ In c l.
Proof. intros Hc Hl Hin. rewrite forallb_forall in Hl. apply Hl in Hin. congruence. Qed.

Lemma no_char_address c i : ~ In c Base32.alphabet -> AccountId.wf i ->
  ~ In c (bytes_of (AccountId.address i)).
Proof. intros Hc Hi Hin. by apply AccountId.address_chars in Hin. Qed.

Lemma alphabet_seps : ~ In 58 Base32.alphabet /\ ~ In 44 Base32.alphabet.
Proof. vm_compute. intuition discriminate. Qed.

Definition code_text (c : list Z) (i : AccountId.t) : list Z :=
  trimRightZeros c ++ 58 :: bytes_of (AccountId.address i).

Lemma StringCanonical_bytes c i : Forall is_byte c ->
  bytes_of (StringCanonical (AlphaNum4 c i)) = code_text c i /\
  bytes_of (StringCanonical (AlphaNum12 c i)) = code_text c i.
Proof.
  intros Hc. unfold StringCanonical, code_text; simpl.
  rewrite !bytes_of_app, !bytes_of_string_of by by apply trimRightZeros_bytes.
  done.
Qed.

Lemma BuildAsset1_code c i : Forall is_byte c -> AccountId.wf i ->
  ValidAssetCode (trimRightZeros c) = true ->
  BuildAsset1 (code_text c i) =
  match SetCredit (string_of (trimRightZeros c)) i with Err _ => Err "not a valid asset" | r => r end.
Proof.
  intros Hc Hi Hv. unfold BuildAsset1, code_text.
  rewrite bool_decide_eq_false_2.
  2:{ intros E. assert (Hin : In 58 (bytes_of "native")); [|vm_compute in Hin; intuition discriminate].
      rewrite <- E. eapply to_lower_colon; [done|]. apply in_app_iff. right. by left. }
  pose proof Hv as Hv'. unfold ValidAssetCode in Hv'. zbool.
  destruct alphabet_seps as [H58 _].
  rewrite split_cons by by apply no_char_alnum.
  rewrite split_no_sep by by apply no_char_address.
  rewrite Hv, string_of_bytes_of. unfold AccountId.AddressToAccountId.
  by rewrite AccountId.SetAddress_address.
Qed.

Lemma BuildAsset1_canonical a : valid a -> BuildAsset1 (bytes_of (StringCanonical a)) = Ok a.
Proof.
  destruct a as [|c i|c i]; intros [Hwf Hv]; [done| |].
  - destruct Hwf as (Hl & Hc & Hi). rewrite (proj1 (StringCanonical_bytes c i Hc)).
    rewrite BuildAsset1_code by done. unfold SetCredit.
    rewrite bytes_of_string_of by by apply trimRightZeros_bytes.
    unfold ValidAssetCode in Hv. zbool.
    assert (Hle : (length (trimRightZeros c) <= 4)%nat).
    { destruct (trimRightZeros_spec c) as [k E]. rewrite E, length_app in Hl. lia. }
    apply Nat.leb_le in Hle. rewrite Hle.
    replace (Nat.leb 1 _) with true by done. simpl. do 2 f_equal.
    by apply trimRightZeros_resize.
  - destruct Hwf as (Hl & Hc & Hi), Hv as [Hv H5]. rewrite (proj2 (StringCanonical_bytes c i Hc)).
    rewrite BuildAsset1_code by done. unfold SetCredit.
    rewrite bytes_of_string_of by by apply trimRightZeros_bytes.
    unfold ValidAssetCode in Hv. zbool.
    replace (Nat.leb (length (trimRightZeros c)) 4) with false by (symmetry; apply Nat.leb_gt; lia).
    rewrite andb_false_r. apply Nat.leb_le in H5. rewrite H5. 
    replace (Nat.leb _ 12) with true by done. simpl. do 2 f_equal.
    by apply trimRightZeros_resize.
Qed.

Lemma canonical_no_comma a : valid a -> ~ In 44 (bytes_of (StringCanonical a)).
Proof.
  destruct alphabet_seps as [_ H44].
  assert (Hcode : forall c i, AccountId.wf i -> ValidAssetCode (trimRightZeros c) = true ->
    ~ In 44 (code_text c i)).
  { intros c i Hi Hv. unfold ValidAssetCode in Hv. zbool. unfold code_text.
    rewrite in_app_iff. intros [Hin|[?|Hin]]; [|done|by apply no_char_address in Hin].
    by apply (no_char_alnum 44) in Hin. }
  destruct a as [|c i|c i]; intros [Hwf Hv].
  - vm_compute. intuition discriminate.
  - destruct Hwf as (_ & Hc & Hi). rewrite (proj1 (StringCanonical_bytes c i Hc)). by apply Hcode.
  - destruct Hwf as (_ & Hc & Hi). rewrite (proj2 (StringCanonical_bytes c i Hc)).
    by apply Hcode; [|destruct Hv].
Qed.

Lemma BuildAssets_loop_canonical l : forall acc, Forall valid l ->
  BuildAssets_loop (map (fun a => bytes_of (StringCanonical a)) l) acc = Ok (acc ++ l).
Proof.
  induction l as [|a l IH]; intros acc Hl; [simpl; by rewrite app_nil_r|].
  apply Forall_cons in Hl as [Ha Hl]. cbn [map BuildAssets_loop].
  rewrite BuildAsset1_canonical, bind_Ok_l, IH by done. by rewrite <- app_assoc.
Qed.

Lemma LessThan_irrefl a : LessThan a a = false.
Proof.
  unfold LessThan. rewrite Z.eqb_refl, bool_decide_eq_true_2 by done. apply bytes_lt_irrefl.
Qed.

Lemma LessThan_iff a b : LessThan a b = true <->
  Type_ a < Type_ b \/ (Type_ a = Type_ b /\
    (bytes_lt (GetCode a) (GetCode b) = true \/
     (GetCode a = GetCode b /\ bytes_lt (bytes_of (GetIssuer a)) (bytes_of (GetIssuer b)) = true))).
Proof.
  unfold LessThan. destruct (Z.eqb_spec (Type_ a) (Type_ b)) as [E|E]; simpl.
  - case_bool_decide as Ec; simpl.
    + rewrite Ec, bytes_lt_irrefl. naive_solver lia.
    + naive_solver lia.
  - rewrite Z.ltb_lt. naive_solver lia.
Qed.

Lemma LessThan_trans a b c : LessThan a b = true -> LessThan b c = true -> LessThan a c = true.
Proof.
  rewrite !LessThan_iff.
  intros [?|(E1 & [?|[E2 ?]])] [?|(F1 & [?|[F2 ?]])]; try (left; lia);
    right; (split; [lia|]).
  - left. by eapply bytes_lt_trans.
  - left. by rewrite <- F2.
  - left. by rewrite E2.
  - right. split; [congruence|]. by eapply bytes_lt_trans.
Qed.

Lemma LessThan_total a b : wf a -> wf b ->
  LessThan a b = false -> LessThan b a = false -> a = b.
Proof.
  intros Ha Hb Hab Hba. rewrite <- not_true_iff_false, LessThan_iff in Hab, Hba.
  assert (Et : Type_ a = Type_ b) by lia.
  assert (Ec : GetCode a = GetCode b)
    by (apply bytes_lt_total; apply not_true_is_false; intros ?; naive_solver).
  assert (Ei : bytes_of (GetIssuer a) = bytes_of (GetIssuer b))
    by (apply bytes_lt_total; apply not_true_is_false; intros ?; naive_solver).
  apply bytes_of_inj in Ei.
  destruct a as [|c i|c i], b as [|c' i'|c' i']; simpl in *; try done; subst c';
    f_equal; apply AccountId.address_inj; naive_solver.
Qed.

(** ** Properties *)

(** The text of an asset determines it: two well-formed assets have the
    same [String] iff they are equal, which is also what [Equals] decides, and
    the text is never empty (the order book uses "" for vacant ids). *)
Theorem asset_String_identity (a b : t) (Ha : wf a) (Hb : wf b) :
  (String_ a = String_ b <-> a = b) /\ (Equals a b = true <-> a = b) /\
  String_ a <> EmptyString.
Proof.
  split; [split; [by apply String_inj|by intros ->]|].
  split; [apply Equals_eq|apply String_nonempty].
Qed.

Definition zero_account : AccountId.t := AccountId.mk (replicate 32 0).
Definition usd : t := AlphaNum4 [85; 83; 68; 0] zero_account.

Lemma zero_account_wf : AccountId.wf zero_account.
Proof. split; [done|]. apply Forall_replicate. unfold is_byte; lia. Defined.

Lemma usd_wf : wf usd.
Proof.
  split; [done|]. split; [|apply zero_account_wf].
  repeat constructor; unfold is_byte; lia.
Defined.

Lemma asset_String_identity_witness :
  String_ usd =
    "credit_alphanum4/USD/GAAAAAAAAAAAAAAAAAAAAAAAAAAAAAAAAAAAAAAAAAAAAAAAAAAAAWHF"%string /\
  (String_ usd = String_ Native <-> usd = Native).
Proof.
  split; [vm_compute; reflexivity|].
  apply (asset_String_identity usd Native usd_wf I).
Defined.

(** [LessThan], the order of the assets of a pool, is a strict total order
    on well-formed assets. *)
Theorem asset_LessThan_strict_total (a b c : t) (Ha : wf a) (Hb : wf b) (Hc : wf c) :
  LessThan a a = false /\
  (LessThan a b = true -> LessThan b a = false) /\
  (LessThan a b = true -> LessThan b c = true -> LessThan a c = true) /\
  (LessThan a b = true \/ a = b \/ LessThan b a = true).
Proof.
  split; [apply LessThan_irrefl|]. split.
  - intros H. destruct (LessThan b a) eqn:E; [|done].
    by rewrite <- (LessThan_irrefl a), (LessThan_trans a b a).
  - split; [apply LessThan_trans|].
    destruct (LessThan a b) eqn:E1; [by left|].
    destruct (LessThan b a) eqn:E2; [by right; right|].
    right; left. by apply LessThan_total.
Qed.

Lemma asset_LessThan_strict_total_witness :
  LessThan Native usd = true /\ LessThan usd Native = false.
Proof.
  split; [reflexivity|].
  apply (asset_LessThan_strict_total Native usd Native I usd_wf I). reflexivity.
Defined.

(** [BuildAssets] parses the comma-separated canonical texts of any
    non-empty list of valid assets back to that list, in order. *)
Theorem BuildAssets_roundtrip (l : list t) (Hne : l <> []) (Hl : Forall valid l) :
  BuildAssets (string_of (join 44 (map (fun a => bytes_of (StringCanonical a)) l))) = Ok l.
Proof.
  set (ps := map (fun a => bytes_of (StringCanonical a)) l).
  assert (Hps : Forall (fun p => ~ In 44 p) ps).
  { unfold ps. apply Forall_forall. intros p Hp.
    apply list_elem_of_fmap in Hp as (a & -> & Ha). apply canonical_no_comma.
    by eapply Forall_forall in Hl. }
  assert (Hnps : ps <> []) by (unfold ps; by destruct l).
  assert (Hb : Forall is_byte (join 44 ps)).
  { assert (Hall : Forall (Forall is_byte) ps).
    { unfold ps. apply Forall_forall. intros p Hp.
      apply list_elem_of_fmap in Hp as (a & -> & _). apply bytes_of_range. }
    clear -Hall. induction Hall as [|p ps Hp Hps IH]; [constructor|].
    destruct ps; [done|]. cbn [join]. apply Forall_app; split; [done|].
    constructor; [unfold is_byte; lia|done]. }
  unfold BuildAssets. destruct (String.eqb_spec (string_of (join 44 ps)) EmptyString) as [E|_].
  - exfalso. apply (f_equal bytes_of) in E. rewrite bytes_of_string_of in E by done.
    assert (Hs : split_bytes 44 (join 44 ps) = ps) by by apply split_join.
    rewrite E in Hs. destruct l as [|a [|? ?]]; [done| |done].
    unfold ps in Hs. simpl in Hs. injection Hs as Hs.
    apply Forall_cons in Hl as [Hl _]. apply BuildAsset1_canonical in Hl.
    rewrite <- Hs in Hl. done.
  - rewrite bytes_of_string_of, split_join by done. unfold ps.
    by rewrite BuildAssets_loop_canonical.
Qed.

Lemma BuildAssets_roundtrip_witness :
  BuildAssets "native,USD:GAAAAAAAAAAAAAAAAAAAAAAAAAAAAAAAAAAAAAAAAAAAAAAAAAAAAWHF"
    = Ok [Native; usd] /\
  BuildAssets (string_of (join 44 (map (fun a => bytes_of (StringCanonical a)) [Native; usd])))
    = Ok [Native; usd].
Proof.
  split; [vm_compute; reflexivity|].
  apply (BuildAssets_roundtrip [Native; usd]); [discriminate|].
  constructor; [done|]. constructor; [split; [apply usd_wf|reflexivity]|constructor].
Defined.

End Asset.

(** ** Order book entries *)

Record OfferEntry := mkOffer {
  SellerId : AccountId.t;
  OfferId : Z;
  Selling : Asset.t;
  Buying : Asset.t;
  Amount_ : Z;
  Price_ : Price.t;
  Flags : Z
}.

#[global] Instance OfferEntry_eq_dec : EqDecision OfferEntry.
Proof. solve_decision. Defined.

Record ConstantProduct := mkConstantProduct {
  AssetA : Asset.t;
  AssetB : Asset.t;
  Fee : Z;
  ReserveA : Z;
  ReserveB : Z;
  TotalPoolShares : Z;
  PoolSharesTrustLineCount : Z
}.

#[global] Instance ConstantProduct_eq_dec : EqDecision ConstantProduct.
Proof. solve_decision. Defined.

(** The body is a union with one arm, [ConstantProduct] (type 0), held by a
    pointer that is nil in a zero value. *)
Record LiquidityPoolEntry := mkPoolEntry {
  LiquidityPoolId : list Z;
  BodyType : Z;
  BodyConstantProduct : option ConstantProduct
}.

#[global] Instance LiquidityPoolEntry_eq_dec : EqDecision LiquidityPoolEntry.
Proof. solve_decision. Defined.

(** [Body.GetConstantProduct]: the flag tells whether the arm is selected;
    dereferencing the nil pointer of a zero value panics. *)
Definition GetConstantProduct (p : LiquidityPoolEntry) : res (option ConstantProduct) :=
  if BodyType p =? 0 then
    match BodyConstantProduct p with
    | Some cp => Ok (Some cp)
    | None => Panic "nil pointer dereference"
    end
  else Ok None.

Definition MustConstantProduct (p : LiquidityPoolEntry) : res ConstantProduct :=
  r ← GetConstantProduct p;
  match r with Some cp => Ok cp | None => Panic "arm ConstantProduct is not set" end.
