(* ===== verification/Pools.v ===== *)
(** * Liquidity pool trades (exp/orderbook/pools.go)

    Constant-product exchanges simulated with 256-bit arithmetic.  The package
    github.com/holiman/uint256 is not part of the repository: it is the
    interface [Uint256Ops] with the behaviour its documentation promises as the
    laws [Uint256Laws]; [uint256_Z] is a concrete implementation. *)
From S2P Require Import Prelude Price Xdr.

Class Uint256Ops := {
  uint256 : Type;
  u_val : uint256 -> Z;
  NewInt : Z -> uint256;
  u_Add : uint256 -> uint256 -> uint256;
  u_Sub : uint256 -> uint256 -> uint256;
  u_Mul : uint256 -> uint256 -> uint256;
  u_Div : uint256 -> uint256 -> uint256;
  u_Mod : uint256 -> uint256 -> uint256;
  u_Abs : uint256 -> uint256;
  u_AddUint64 : uint256 -> Z -> uint256;
  u_IsZero : uint256 -> bool;
  u_IsUint64 : uint256 -> bool;
  u_Uint64 : uint256 -> Z
}.

(** Arithmetic is modulo 2^256; division by zero yields zero; [Abs] reads its
    argument as a two's complement number. *)
Class Uint256Laws `{Uint256Ops} := {
  u_range a : 0 <= u_val a < 2 ^ 256;
  val_NewInt z : in_uint 64 z -> u_val (NewInt z) = z;
  val_Add a b : u_val (u_Add a b) = to_uint256 (u_val a + u_val b);
  val_Sub a b : u_val (u_Sub a b) = to_uint256 (u_val a - u_val b);
  val_Mul a b : u_val (u_Mul a b) = to_uint256 (u_val a * u_val b);
  val_Div a b : u_val (u_Div a b) = if u_val b =? 0 then 0 else u_val a / u_val b;
  val_Mod a b : u_val (u_Mod a b) = if u_val b =? 0 then 0 else u_val a mod u_val b;
  val_Abs a : u_val (u_Abs a) = if u_val a <? 2 ^ 255 then u_val a else 2 ^ 256 - u_val a;
  val_AddUint64 a z : in_uint 64 z -> u_val (u_AddUint64 a z) = to_uint256 (u_val a + z);
  IsZero_spec a : u_IsZero a = (u_val a =? 0);
  IsUint64_spec a : u_IsUint64 a = (u_val a <? 2 ^ 64);
  Uint64_spec a : u_Uint64 a = u_val a mod 2 ^ 64
}.

(** A reference implementation of the interface: integers below 2^256. *)
#[export] Instance uint256_Z : Uint256Ops := {|
  uint256 := Z;
  u_val a := to_uint256 a;
  NewInt z := z;
  u_Add a b := to_uint256 (a + b);
  u_Sub a b := to_uint256 (a - b);
  u_Mul a b := to_uint256 (a * b);
  u_Div a b := if to_uint256 b =? 0 then 0 else to_uint256 a / to_uint256 b;
  u_Mod a b := if to_uint256 b =? 0 then 0 else to_uint256 a mod to_uint256 b;
  u_Abs a := if to_uint256 a <? 2 ^ 255 then to_uint256 a else 2 ^ 256 - to_uint256 a;
  u_AddUint64 a z := to_uint256 (a + z);
  u_IsZero a := to_uint256 a =? 0;
  u_IsUint64 a := to_uint256 a <? 2 ^ 64;
  u_Uint64 a := to_uint256 a mod 2 ^ 64
|}.

#[export] Instance uint256_Z_laws : @Uint256Laws uint256_Z.
Proof.
  split; cbn; intros; unfold uwrap, in_uint in *.
  - apply Z.mod_pos_bound; lia.
  - apply Z.mod_small; lia.
  - rewrite Z.mod_mod by lia. by rewrite <- Zplus_mod.
  - rewrite Z.mod_mod by lia. by rewrite <- Zminus_mod.
  - rewrite Z.mod_mod by lia. by rewrite <- Zmult_mod.
  - destruct (Z.eqb_spec (b mod 2 ^ 256) 0); [done|].
    pose proof (Z.mod_pos_bound a (2 ^ 256)). pose proof (Z.mod_pos_bound b (2 ^ 256)).
    apply Z.mod_small. split; [apply Z.div_pos; lia|].
    apply Z.div_lt_upper_bound; nia.
  - destruct (Z.eqb_spec (b mod 2 ^ 256) 0); [done|].
    pose proof (Z.mod_pos_bound b (2 ^ 256)).
    pose proof (Z.mod_pos_bound (a mod 2 ^ 256) (b mod 2 ^ 256)).
    apply Z.mod_small; lia.
  - pose proof (Z.mod_pos_bound a (2 ^ 256)).
    destruct (Z.ltb_spec (a mod 2 ^ 256) (2 ^ 255)); [by rewrite Z.mod_mod by lia|].
    apply Z.mod_small; lia.
  - rewrite Z.mod_mod by lia. by rewrite Zplus_mod_idemp_l.
  - done.
  - done.
  - done.
Qed.

Module Pools.

Section WithUint256.
Context `{UO : Uint256Ops}.

Definition errPoolOverflows : error := "Liquidity pool overflows from this exchange".
Definition errBadPoolType : error := "Unsupported liquidity pool: must be ConstantProduct".
Definition errBadTradeType : error := "Unknown pool exchange type requested".
Definition errBadAmount : error := "Exchange amount must be positive".

Definition tradeTypeDeposit : Z := 0.
Definition tradeTypeExpectation : Z := 1.

(** The rounding slippage of [result] against the exact [numer / denom]. *)
Definition slippage (numer denom result : uint256) : uint256 :=
  let maxBips := NewInt 10000 in
  let unrounded := u_Div (u_Mul numer maxBips) denom in
  let rounded := u_Mul result maxBips in
  let S := u_Sub unrounded rounded in
  let S := u_Mul (u_Abs S) maxBips in
  let S := u_Div S unrounded in
  u_Div S (NewInt 100).

Definition CalculatePoolPayout (reserveA reserveB received feeBips : Z)
  (calculateRoundingSlippage : bool) : Z * Z * bool :=
  let X := NewInt (to_uint64 reserveA) in
  let Y := NewInt (to_uint64 reserveB) in
  let F := NewInt (to_uint64 feeBips) in
  let x := NewInt (to_uint64 received) in
  if received >? to_int64 (MaxInt64 - reserveA) then (0, 0, false) else
  let maxBips := NewInt 10000 in
  let f := u_Sub maxBips F in
  let denom := u_Add (u_Mul X maxBips) (u_Mul x f) in
  if u_IsZero denom then (0, 0, false) else
  let numer := u_Mul (u_Mul Y x) f in
  let result := u_Div numer denom in
  let '(roundingSlippageBips, ok) :=
    if calculateRoundingSlippage && negb (u_IsZero (u_Mod numer denom)) then
      let S := slippage numer denom result in
      let bips := to_int64 (u_Uint64 S) in
      (bips, u_IsUint64 S && (bips >=? 0))
    else (0, true) in
  let val := to_int64 (u_Uint64 result) in
  (val, roundingSlippageBips, ok && u_IsUint64 result && (val >=? 0)).

Definition CalculatePoolExpectation (reserveA reserveB disbursed feeBips : Z)
  (calculateRoundingSlippage : bool) : Z * Z * bool :=
  let X := NewInt (to_uint64 reserveA) in
  let Y := NewInt (to_uint64 reserveB) in
  let F := NewInt (to_uint64 feeBips) in
  let y := NewInt (to_uint64 disbursed) in
  if disbursed >=? reserveB then (0, 0, false) else
  let maxBips := NewInt 10000 in
  let f := u_Sub maxBips F in
  let denom := u_Mul (u_Sub Y y) f in
  if u_IsZero denom then (0, 0, false) else
  let numer := u_Mul (u_Mul X y) maxBips in
  let result := u_Div numer denom in
  let rem := u_Mod numer denom in
  let '(result, roundingSlippageBips, ok) :=
    if negb (u_IsZero rem) then
      let result := u_AddUint64 result 1 in
      if calculateRoundingSlippage then
        let S := slippage numer denom result in
        let bips := to_int64 (u_Uint64 S) in
        (result, bips, u_IsUint64 S && (bips >=? 0))
      else (result, 0, true)
    else (result, 0, true) in
  let val := to_int64 (u_Uint64 result) in
  (val, roundingSlippageBips, ok && u_IsUint64 result && (val >=? 0)).

(** [liquidityPool] of search.go: the entry and the ids of its assets. *)
Record liquidityPool := mkPool {
  poolEntry : LiquidityPoolEntry;
  assetA : Z;
  assetB : Z
}.

Definition makeTrade (pool : liquidityPool) (asset tradeType amount : Z) : res Z :=
  details ← GetConstantProduct (poolEntry pool);
  match details with
  | None => Err errBadPoolType
  | Some details =>
      if amount <=? 0 then Err errBadAmount else
      let '(X, Y) :=
        if negb (assetA pool =? asset) then (ReserveB details, ReserveA details)
        else (ReserveA details, ReserveB details) in
      r ← (if tradeType =? tradeTypeDeposit then
             Ok (CalculatePoolPayout X Y amount (Fee details) false)
           else if tradeType =? tradeTypeExpectation then
             Ok (CalculatePoolExpectation X Y amount (Fee details) false)
           else Err errBadTradeType);
      let '(result, _, ok) := (r : Z * Z * bool) in
      if negb ok then Err errPoolOverflows else Ok result
  end.

Definition getOtherAsset (asset : Z) (pool : liquidityPool) : Z :=
  if assetA pool =? asset then assetB pool else assetA pool.

(** ** Reference definitions over the integers *)

Definition payout (X Y x F : Z) : Z := (10000 - F) * Y * x / (10000 * X + (10000 - F) * x).
Definition expectation (X Y y F : Z) : Z := Price.ceil_div (10000 * X * y) ((Y - y) * (10000 - F)).

Context {UL : Uint256Laws}.

(** Reserves, amounts and fees of a valid pool. *)
Definition reserve (z : Z) : Prop := 0 <= z < 2 ^ 63.
Definition fee (F : Z) : Prop := 0 <= F <= 10000.

Lemma val_small z : 0 <= z < 2 ^ 64 -> u_val (NewInt z) = z.
Proof. intros Hz. by apply val_NewInt. Qed.

Lemma int64_of_uint64 r : 0 <= u_val r ->
  let val := to_int64 (u_Uint64 r) in
  (u_IsUint64 r && (val >=? 0) = (u_val r <? 2 ^ 63)) /\
  (u_val r < 2 ^ 63 -> val = u_val r).
Proof.
  intros Hr. cbv zeta. rewrite IsUint64_spec, Uint64_spec.
  destruct (Z.ltb_spec (u_val r) (2 ^ 63)) as [Hs|Hl].
  - rewrite Z.mod_small, swrap_small by (unfold in_int; lia). split; [|done]. lia.
  - split; [|lia]. destruct (Z.ltb_spec (u_val r) (2 ^ 64)); [|done]. simpl.
    rewrite Z.mod_small by lia. unfold swrap.
    replace (u_val r + 2 ^ (64 - 1)) with ((u_val r - 2 ^ 63) + 1 * 2 ^ 64) by lia.
    rewrite Z_mod_plus_full, Z.mod_small by lia. lia.
Qed.

Lemma f_val F : fee F -> u_val (u_Sub (NewInt 10000) (NewInt (to_uint64 F))) = 10000 - F.
Proof.
  unfold fee; intros HF. rewrite val_Sub, (uwrap_small 64), !val_small by lia.
  by rewrite uwrap_small by lia.
Qed.

Lemma payout_numer Y x F : reserve Y -> reserve x -> fee F ->
  u_val (u_Mul (u_Mul (NewInt (to_uint64 Y)) (NewInt (to_uint64 x)))
               (u_Sub (NewInt 10000) (NewInt (to_uint64 F)))) = Y * x * (10000 - F).
Proof.
  unfold reserve; intros HY Hx HF. rewrite !val_Mul, f_val by done. unfold fee in HF.
  rewrite !(uwrap_small 64), !val_small by lia.
  rewrite (uwrap_small 256 (Y * x)) by nia. apply uwrap_small. nia.
Qed.

Lemma payout_denom X x F : reserve X -> reserve x -> fee F ->
  u_val (u_Add (u_Mul (NewInt (to_uint64 X)) (NewInt 10000))
               (u_Mul (NewInt (to_uint64 x)) (u_Sub (NewInt 10000) (NewInt (to_uint64 F)))))
  = X * 10000 + x * (10000 - F).
Proof.
  unfold reserve; intros HX Hx HF. rewrite val_Add, !val_Mul, f_val by done. unfold fee in HF.
  rewrite !(uwrap_small 64), !val_small by lia.
  rewrite (uwrap_small 256 (X * 10000)), (uwrap_small 256 (x * _)) by nia.
  apply uwrap_small. nia.
Qed.

Lemma payout_le X Y x F : 0 <= X -> 0 <= Y -> 0 <= x -> fee F -> 0 <= payout X Y x F <= Y.
Proof.
  unfold payout, fee; intros HX HY Hx HF.
  destruct (Z.eq_dec (10000 * X + (10000 - F) * x) 0) as [->|Hd]; [rewrite Z.div_0_r by lia; lia|].
  assert (0 < 10000 * X + (10000 - F) * x) by nia.
  split; [apply Z.div_pos; nia|apply Z.div_le_upper_bound; nia].
Qed.

(** The plain payout computation, without slippage. *)
Lemma CalculatePoolPayout_exact X Y x F :
  reserve X -> reserve Y -> reserve x -> fee F ->
  CalculatePoolPayout X Y x F false =
  if (x >? MaxInt64 - X) || (10000 * X + (10000 - F) * x =? 0) then (0, 0, false)
  else (payout X Y x F, 0, true).
Proof.
  intros HX HY Hx HF. unfold CalculatePoolPayout.
  assert (Hs : to_int64 (MaxInt64 - X) = MaxInt64 - X).
  { unfold reserve in *. apply swrap_small; [lia|]. unfold in_int, MaxInt64. lia. }
  rewrite Hs. destruct (x >? MaxInt64 - X); [done|]. cbn [orb].
  rewrite IsZero_spec, payout_denom by done.
  replace (X * 10000 + x * (10000 - F)) with (10000 * X + (10000 - F) * x) by lia.
  destruct (Z.eqb_spec (10000 * X + (10000 - F) * x) 0) as [|Hd]; [done|]. cbn [andb].
  match goal with |- context [to_int64 (u_Uint64 ?r)] => set (r0 := r) end.
  assert (Er : u_val r0 = payout X Y x F).
  { unfold r0. rewrite val_Div, payout_numer, payout_denom by done.
    replace (X * 10000 + x * (10000 - F)) with (10000 * X + (10000 - F) * x) by lia.
    apply Z.eqb_neq in Hd. rewrite Hd. unfold payout. f_equal. lia. }
  unfold reserve in *.
  pose proof (payout_le X Y x F ltac:(lia) ltac:(lia) ltac:(lia) HF) as Hp.
  destruct (int64_of_uint64 r0) as [E1 E2]; [lia|]. cbv zeta in E1, E2.
  rewrite E2 in * by lia. rewrite E1, Er. by replace (payout X Y x F <? 2 ^ 63) with true by lia.
Qed.

Lemma expectation_denom Y y F : reserve Y -> 0 <= y < Y -> fee F ->
  u_val (u_Mul (u_Sub (NewInt (to_uint64 Y)) (NewInt (to_uint64 y)))
               (u_Sub (NewInt 10000) (NewInt (to_uint64 F)))) = (Y - y) * (10000 - F).
Proof.
  unfold reserve; intros HY Hy HF. rewrite val_Mul, f_val, val_Sub by done. unfold fee in HF.
  rewrite !(uwrap_small 64), !val_small by lia.
  rewrite (uwrap_small 256 (Y - y)) by lia. apply uwrap_small. nia.
Qed.

Lemma expectation_numer X y : reserve X -> reserve y ->
  u_val (u_Mul (u_Mul (NewInt (to_uint64 X)) (NewInt (to_uint64 y))) (NewInt 10000))
  = X * y * 10000.
Proof.
  unfold reserve; intros HX Hy. rewrite !val_Mul, !(uwrap_small 64), !val_small by lia.
  rewrite (uwrap_small 256 (X * y)) by nia. apply uwrap_small. nia.
Qed.

Lemma ceil_div_rem a b : 0 < b ->
  Price.ceil_div a b = if a mod b =? 0 then a / b else a / b + 1.
Proof.
  intros Hb. unfold Price.ceil_div.
  pose proof (Z.div_mod a b ltac:(lia)). pose proof (Z.mod_pos_bound a b Hb).
  destruct (Z.eqb_spec (a mod b) 0) as [E|E]; symmetry.
  - apply (Z.div_unique _ _ _ (b - 1)); lia.
  - apply (Z.div_unique _ _ _ (a mod b - 1)); lia.
Qed.

Lemma CalculatePoolExpectation_exact X Y y F :
  reserve X -> reserve Y -> reserve y -> fee F ->
  CalculatePoolExpectation X Y y F false =
  if (y >=? Y) || (F =? 10000) then (0, 0, false)
  else if expectation X Y y F <? 2 ^ 63 then (expectation X Y y F, 0, true)
  else (to_int64 (expectation X Y y F mod 2 ^ 64), 0, false).
Proof.
  intros HX HY Hy HF. unfold CalculatePoolExpectation.
  destruct (y >=? Y) eqn:Ey; [done|]. zbool. cbn [orb]. pose proof HX as HX'. pose proof Hy as Hy'.
  unfold reserve in HX', Hy'. assert (Hy2 : 0 <= y < Y) by lia.
  rewrite IsZero_spec, expectation_denom by done.
  assert (Ed : ((Y - y) * (10000 - F) =? 0) = (F =? 10000)) by (unfold fee in HF; nia).
  rewrite Ed. destruct (Z.eqb_spec F 10000) as [|HF']; [done|].
  assert (Hd : 0 < (Y - y) * (10000 - F)) by (unfold fee in HF; nia).
  set (numer := u_Mul (u_Mul _ _) (NewInt 10000)).
  set (denom := u_Mul (u_Sub (NewInt (to_uint64 Y)) _) _).
  assert (En : u_val numer = 10000 * X * y) by (unfold numer; rewrite expectation_numer by done; lia).
  assert (Edn : u_val denom = (Y - y) * (10000 - F)) by (unfold denom; by rewrite expectation_denom).
  assert (Hq : 0 <= 10000 * X * y / ((Y - y) * (10000 - F)) <= 10000 * X * y).
  { split; [apply Z.div_pos; nia|]. apply Z.div_le_upper_bound; nia. }
  assert (Hnum : 10000 * X * y < 2 ^ 140) by nia.
  rewrite IsZero_spec, val_Mod, En, Edn. 
  replace ((Y - y) * (10000 - F) =? 0) with false by lia.
  assert (Hsplit : exists r, u_val r = expectation X Y y F /\
    (if negb (10000 * X * y mod ((Y - y) * (10000 - F)) =? 0)
     then (u_AddUint64 (u_Div numer denom) 1, 0, true) else (u_Div numer denom, 0, true))
    = (r, 0, true)).
  { unfold expectation. rewrite ceil_div_rem by done.
    assert (Ediv : u_val (u_Div numer denom) = 10000 * X * y / ((Y - y) * (10000 - F)))
      by (rewrite val_Div, En, Edn; by replace ((Y - y) * (10000 - F) =? 0) with false by lia).
    destruct (_ mod _ =? 0) eqn:Er; simpl; eexists; (split; [|reflexivity]); [done|].
    rewrite val_AddUint64 by (unfold in_uint; lia). rewrite Ediv, uwrap_small; lia. }
  destruct Hsplit as (r & Er & ->).
  assert (He : 0 <= expectation X Y y F) by (apply Price.ceil_div_nonneg; nia).
  destruct (int64_of_uint64 r) as [E1 E2]; [lia|]. cbv zeta in E1, E2.
  rewrite Er in *. cbn [andb]. rewrite E1.
  destruct (Z.ltb_spec (expectation X Y y F) (2 ^ 63)); [by rewrite E2|].
  by rewrite Uint64_spec, Er.
Qed.

(** ** Rounding slippage *)

Definition slippage_spec (n d r : Z) : Z :=
  let u := n * 10000 / d in
  if u =? 0 then 0 else Z.abs (u - r * 10000) * 10000 / u / 100.

Lemma val_Sub_Abs a b : u_val a < 2 ^ 200 -> u_val b < 2 ^ 200 ->
  u_val (u_Abs (u_Sub a b)) = Z.abs (u_val a - u_val b).
Proof.
  intros Ha Hb. pose proof (u_range a). pose proof (u_range b).
  rewrite val_Abs, val_Sub. unfold uwrap.
  destruct (Z.leb_spec (u_val b) (u_val a)) as [Hle|Hlt].
  - rewrite Z.mod_small by lia. case_match eqn:E; zbool; lia.
  - assert (E : (u_val a - u_val b) mod 2 ^ 256 = u_val a - u_val b + 2 ^ 256)
      by (symmetry; apply (Z.mod_unique _ _ (-1)); lia).
    rewrite E. case_match eqn:E'; zbool; lia.
Qed.

Lemma slippage_val n d r :
  u_val n < 2 ^ 141 -> 0 < u_val d -> u_val r < 2 ^ 141 ->
  u_val (slippage n d r) = slippage_spec (u_val n) (u_val d) (u_val r).
Proof.
  intros Hn Hd Hr. pose proof (u_range n). pose proof (u_range r). unfold slippage, slippage_spec.
  set (unr := u_Div (u_Mul n (NewInt 10000)) d).
  assert (Hq : 0 <= u_val n * 10000 / u_val d <= u_val n * 10000)
    by (split; [apply Z.div_pos; lia|apply Z.div_le_upper_bound; nia]).
  assert (Eu : u_val unr = u_val n * 10000 / u_val d).
  { unfold unr. rewrite val_Div, val_Mul, val_small, uwrap_small by lia.
    by replace (u_val d =? 0) with false by lia. }
  assert (Er : u_val (u_Mul r (NewInt 10000)) = u_val r * 10000)
    by (rewrite val_Mul, val_small, uwrap_small; lia).
  rewrite val_Div, (val_small 100) by lia. cbn [Z.eqb].
  rewrite val_Div, val_Mul, val_Sub_Abs, (val_small 10000), Eu, Er by lia.
  destruct (_ =? 0); [done|]. by rewrite uwrap_small by lia.
Qed.

Lemma payout_slippage_range n d : 0 <= n -> 0 < d ->
  0 <= slippage_spec n d (n / d) <= 100.
Proof.
  intros Hn Hd. unfold slippage_spec. set (u := n * 10000 / d).
  assert (Hu : 0 <= u) by (apply Z.div_pos; lia).
  assert (Hr : n / d * 10000 <= u).
  { apply Z.div_le_lower_bound; [done|]. pose proof (Z.mul_div_le n d Hd). nia. }
  assert (0 <= n / d) by (apply Z.div_pos; lia).
  destruct (Z.eqb_spec u 0); [lia|]. rewrite Z.abs_eq by lia.
  split; [repeat apply Z.div_pos; nia|].
  apply Z.div_le_upper_bound; [lia|]. apply Z.div_le_upper_bound; nia.
Qed.

Lemma expectation_slippage_range n d : 0 <= n -> 0 < d ->
  0 <= slippage_spec n d (n / d + 1) <= 1000000.
Proof.
  intros Hn Hd. unfold slippage_spec. set (u := n * 10000 / d).
  assert (Hu : 0 <= u) by (apply Z.div_pos; lia).
  pose proof (Z.div_mod n d ltac:(lia)) as E. pose proof (Z.mod_pos_bound n d Hd).
  assert (Hr : (n / d) * 10000 <= u <= (n / d + 1) * 10000).
  { split; [apply Z.div_le_lower_bound|apply Z.div_le_upper_bound]; nia. }
  destruct (Z.eqb_spec u 0); [lia|].
  assert (Ha : 0 <= Z.abs (u - (n / d + 1) * 10000) <= 10000) by lia.
  split; [repeat apply Z.div_pos; nia|].
  apply Z.div_le_upper_bound; [lia|]. apply Z.div_le_upper_bound; nia.
Qed.

(** Asking for the slippage changes neither the amount nor the verdict. *)
Lemma payout_with_slippage X Y x F :
  reserve X -> reserve Y -> reserve x -> fee F ->
  exists s, 0 <= s <= 100 /\
  CalculatePoolPayout X Y x F true =
  let '(v, _, ok) := CalculatePoolPayout X Y x F false in (v, s, ok).
Proof.
  intros HX HY Hx HF. unfold CalculatePoolPayout.
  destruct (x >? _); [by exists 0|]. rewrite IsZero_spec.
  set (numer := u_Mul (u_Mul _ _) _). set (denom := u_Add _ _).
  assert (En : u_val numer = Y * x * (10000 - F)) by (unfold numer; by rewrite payout_numer).
  assert (Ed : u_val denom = X * 10000 + x * (10000 - F)) by (unfold denom; by rewrite payout_denom).
  destruct (Z.eqb_spec (u_val denom) 0) as [|Hd]; [by exists 0|].
  cbn [andb]. destruct (negb _); cbn [andb]; [|by exists 0].
  unfold reserve, fee in HX, HY, Hx, HF. pose proof (u_range denom).
  assert (Hn : 0 <= Y * x * (10000 - F) < 2 ^ 141) by nia.
  assert (Er : u_val (u_Div numer denom) = u_val numer / u_val denom)
    by (rewrite val_Div; by replace (u_val denom =? 0) with false by lia).
  assert (Hr : 0 <= u_val numer / u_val denom <= u_val numer)
    by (split; [apply Z.div_pos; lia|apply Z.div_le_upper_bound; nia]).
  set (S := slippage _ _ _).
  assert (HS : u_val S = slippage_spec (u_val numer) (u_val denom) (u_val numer / u_val denom))
    by (unfold S; rewrite slippage_val, Er; lia).
  pose proof (payout_slippage_range (u_val numer) (u_val denom) ltac:(lia) ltac:(lia)).
  destruct (int64_of_uint64 S) as [E1 E2]; [lia|]. cbv zeta in E1, E2.
  exists (u_val S). split; [lia|]. rewrite E1, E2 by lia.
  by replace (u_val S <? 2 ^ 63) with true by lia.
Qed.

Lemma expectation_with_slippage X Y y F :
  reserve X -> reserve Y -> reserve y -> fee F ->
  exists s, 0 <= s <= 1000000 /\
  CalculatePoolExpectation X Y y F true =
  let '(v, _, ok) := CalculatePoolExpectation X Y y F false in (v, s, ok).
Proof.
  intros HX HY Hy HF. unfold CalculatePoolExpectation.
  destruct (y >=? Y) eqn:Ey; [by exists 0|]. zbool. rewrite IsZero_spec.
  set (numer := u_Mul (u_Mul _ _) (NewInt 10000)). set (denom := u_Mul (u_Sub _ _) _).
  assert (En : u_val numer = X * y * 10000) by (unfold numer; by rewrite expectation_numer).
  pose proof (u_range denom).
  destruct (Z.eqb_spec (u_val denom) 0) as [|Hd]; [by exists 0|].
  destruct (negb _); [|by exists 0].
  unfold reserve, fee in HX, HY, Hy, HF.
  assert (Hn : 0 <= X * y * 10000 < 2 ^ 140) by nia.
  assert (Hr : 0 <= u_val numer / u_val denom <= u_val numer)
    by (split; [apply Z.div_pos; lia|apply Z.div_le_upper_bound; nia]).
  assert (Er : u_val (u_AddUint64 (u_Div numer denom) 1) = u_val numer / u_val denom + 1).
  { rewrite val_AddUint64, val_Div by (unfold in_uint; lia).
    replace (u_val denom =? 0) with false by lia. apply uwrap_small. lia. }
  set (S := slippage _ _ _).
  assert (HS : u_val S = slippage_spec (u_val numer) (u_val denom) (u_val numer / u_val denom + 1))
    by (unfold S; rewrite slippage_val, Er; lia).
  pose proof (expectation_slippage_range (u_val numer) (u_val denom) ltac:(lia) ltac:(lia)).
  destruct (int64_of_uint64 S) as [E1 E2]; [lia|]. cbv zeta in E1, E2.
  exists (u_val S). split; [lia|]. rewrite E1, E2 by lia.
  by replace (u_val S <? 2 ^ 63) with true by lia.
Qed.

(** ** What a trade promises *)

(** A constant-product pool with its parameters within the protocol's ranges. *)
Record pool_ok (pool : liquidityPool) (cp : ConstantProduct) : Prop := {
  ok_body : BodyType (poolEntry pool) = 0 /\ BodyConstantProduct (poolEntry pool) = Some cp;
  ok_reserveA : reserve (ReserveA cp);
  ok_reserveB : reserve (ReserveB cp);
  ok_fee : fee (Fee cp)
}.

(** Reserves as seen from the side of [asset]: deposited, then disbursed. *)
Definition sides (pool : liquidityPool) (cp : ConstantProduct) (asset : Z) : Z * Z :=
  if assetA pool =? asset then (ReserveA cp, ReserveB cp) else (ReserveB cp, ReserveA cp).

Definition deposit_spec (X Y F amount : Z) : res Z :=
  if amount <=? 0 then Err errBadAmount
  else if (amount >? MaxInt64 - X) || (10000 * X + (10000 - F) * amount =? 0)
  then Err errPoolOverflows else Ok (payout X Y amount F).

Definition expectation_spec (X Y F amount : Z) : res Z :=
  if amount <=? 0 then Err errBadAmount
  else if (amount >=? Y) || (F =? 10000) || (expectation X Y amount F >=? 2 ^ 63)
  then Err errPoolOverflows else Ok (expectation X Y amount F).

Lemma sides_reserve pool cp asset X Y : pool_ok pool cp -> sides pool cp asset = (X, Y) ->
  reserve X /\ reserve Y.
Proof. intros [_ HA HB _]. unfold sides. case_match; intros [= <- <-]; done. Qed.

Lemma makeTrade_unfold pool cp asset tt amount X Y :
  pool_ok pool cp -> sides pool cp asset = (X, Y) ->
  makeTrade pool asset tt amount =
  if amount <=? 0 then Err errBadAmount else
  r ← (if tt =? tradeTypeDeposit then Ok (CalculatePoolPayout X Y amount (Fee cp) false)
       else if tt =? tradeTypeExpectation then
         Ok (CalculatePoolExpectation X Y amount (Fee cp) false)
       else Err errBadTradeType);
  let '(result, _, ok) := (r : Z * Z * bool) in
  if negb ok then Err errPoolOverflows else Ok result.
Proof.
  intros [[E1 E2] _ _ _] Hs. unfold makeTrade, GetConstantProduct.
  rewrite E1, E2. cbn [Z.eqb]. rewrite bind_Ok_l. case_match; [done|].
  unfold sides in Hs. destruct (assetA pool =? asset); cbn [negb]; by inversion Hs.
Qed.

Lemma deposit_exact pool cp asset amount X Y :
  pool_ok pool cp -> sides pool cp asset = (X, Y) -> in_int 64 amount ->
  makeTrade pool asset tradeTypeDeposit amount = deposit_spec X Y (Fee cp) amount.
Proof.
  intros Hp Hs Ha. rewrite (makeTrade_unfold _ _ _ _ _ _ _ Hp Hs). unfold deposit_spec.
  destruct (amount <=? 0) eqn:E; [done|]. zbool. destruct (sides_reserve _ _ _ _ _ Hp Hs).
  cbn [tradeTypeDeposit Z.eqb]. rewrite bind_Ok_l.
  assert (Hr : reserve amount) by (unfold reserve, in_int in *; lia).
  rewrite CalculatePoolPayout_exact by (done || apply (ok_fee _ _ Hp)).
  by destruct (_ || _).
Qed.

Lemma expectation_exact pool cp asset amount X Y :
  pool_ok pool cp -> sides pool cp asset = (X, Y) -> in_int 64 amount ->
  makeTrade pool asset tradeTypeExpectation amount = expectation_spec X Y (Fee cp) amount.
Proof.
  intros Hp Hs Ha. rewrite (makeTrade_unfold _ _ _ _ _ _ _ Hp Hs). unfold expectation_spec.
  destruct (amount <=? 0) eqn:E; [done|]. zbool. destruct (sides_reserve _ _ _ _ _ Hp Hs).
  change (tradeTypeExpectation =? tradeTypeDeposit) with false.
  change (tradeTypeExpectation =? tradeTypeExpectation) with true.
  cbv iota. rewrite bind_Ok_l.
  assert (Hr : reserve amount) by (unfold reserve, in_int in *; lia).
  rewrite CalculatePoolExpectation_exact by (done || apply (ok_fee _ _ Hp)).
  destruct ((amount >=? Y) || (Fee cp =? 10000)); [done|]. cbn [orb].
  destruct (Z.ltb_spec (expectation X Y amount (Fee cp)) (2 ^ 63)).
  - by replace (expectation X Y amount (Fee cp) >=? 2 ^ 63) with false by lia.
  - by replace (expectation X Y amount (Fee cp) >=? 2 ^ 63) with true by lia.
Qed.

(** Deposit and expectation are adjoint. *)
Lemma payout_expectation_adjoint X Y x y F :
  0 <= X -> 0 < y < Y -> 0 < x -> 0 <= F < 10000 ->
  y <= payout X Y x F <-> expectation X Y y F <= x.
Proof.
  intros HX Hy Hx HF. unfold payout, expectation.
  assert (Hd1 : 0 < 10000 * X + (10000 - F) * x) by nia.
  assert (Hd2 : 0 < (Y - y) * (10000 - F)) by nia.
  split; intros H.
  - apply Price.ceil_div_le; [done|].
    pose proof (Z.mul_div_le ((10000 - F) * Y * x) _ Hd1). nia.
  - apply Z.div_le_lower_bound; [done|].
    pose proof (Price.ceil_div_bounds (10000 * X * y) _ Hd2). nia.
Qed.

Lemma payout_keeps_product X Y x F : 0 <= X -> 0 <= Y -> 0 < x -> fee F ->
  0 < 10000 * X + (10000 - F) * x ->
  X * Y <= (X + x) * (Y - payout X Y x F).
Proof.
  unfold fee; intros HX HY Hx HF Hd. unfold payout.
  pose proof (Z.mul_div_le ((10000 - F) * Y * x) _ Hd) as Hq.
  set (q := _ / _) in *. assert (0 <= q) by (apply Z.div_pos; nia).
  assert (q * (X + x) <= Y * x); [|nia].
  assert ((10000 - F) * (q * (X + x)) <= (10000 - F) * (Y * x)) by nia.
  destruct (Z.eq_dec F 10000) as [->|]; [|nia].
  assert (q = 0) by nia. nia.
Qed.

Lemma expectation_keeps_product X Y y F : 0 <= X -> 0 < y < Y -> 0 <= F < 10000 ->
  X * Y <= (X + expectation X Y y F) * (Y - y).
Proof.
  intros HX Hy HF. unfold expectation.
  assert (Hd : 0 < (Y - y) * (10000 - F)) by nia.
  destruct (Price.ceil_div_bounds (10000 * X * y) _ Hd) as [Hc _].
  pose proof (Price.ceil_div_nonneg (10000 * X * y) _ Hd ltac:(nia)).
  set (c := Price.ceil_div _ _) in *. assert (X * y <= c * (Y - y)) by nia. nia.
Qed.

(** ** Properties *)

(** C22: [makeTrade] on every branch.  A pool that is not a constant-product one is
    [errBadPoolType] (and one that has lost its body a nil dereference).  On a
    constant-product pool with reserves and fee in range, an amount that is not
    positive is [errBadAmount], whatever the trade type; for positive amounts it
    computes exactly the rational formulas of CAP-38: a deposit of x pays
    floor((1-F)Yx / (X+(1-F)x)), an expectation of y costs
    ceil(Xy / ((Y-y)(1-F))); X and Y are swapped when the asset is not the
    pool's first one; it fails with [errPoolOverflows] exactly when the reserve
    would overflow, the denominator vanishes or the price does not fit an int64;
    any other trade type is [errBadTradeType]. *)
Theorem makeTrade_spec (pool : liquidityPool) (asset tradeType amount : Z) (Ha : in_int 64 amount) :
  (BodyType (poolEntry pool) <> 0 -> makeTrade pool asset tradeType amount = Err errBadPoolType) /\
  (BodyType (poolEntry pool) = 0 -> BodyConstantProduct (poolEntry pool) = None ->
     exists msg, makeTrade pool asset tradeType amount = Panic msg) /\
  forall cp, pool_ok pool cp ->
    let '(X, Y) := sides pool cp asset in
    makeTrade pool asset tradeType amount =
      if amount <=? 0 then Err errBadAmount
      else if tradeType =? tradeTypeDeposit then deposit_spec X Y (Fee cp) amount
      else if tradeType =? tradeTypeExpectation then expectation_spec X Y (Fee cp) amount
      else Err errBadTradeType.
Proof.
  split_and!.
  - intros Hb. unfold makeTrade, GetConstantProduct.
    by rewrite (proj2 (Z.eqb_neq (BodyType (poolEntry pool)) 0) Hb).
  - intros Hb Hn. unfold makeTrade, GetConstantProduct. rewrite Hb, Hn. by eexists.
  - intros cp Hp. destruct (sides pool cp asset) as [X Y] eqn:Hs.
    destruct (Z.eqb_spec tradeType tradeTypeDeposit) as [->|H0].
    { rewrite (deposit_exact _ _ _ _ _ _ Hp Hs Ha). unfold deposit_spec. by destruct (amount <=? 0). }
    destruct (Z.eqb_spec tradeType tradeTypeExpectation) as [->|H1].
    { rewrite (expectation_exact _ _ _ _ _ _ Hp Hs Ha). unfold expectation_spec. by destruct (amount <=? 0). }
    rewrite (makeTrade_unfold _ _ _ _ _ _ _ Hp Hs). destruct (amount <=? 0); [done|].
    by rewrite !(proj2 (Z.eqb_neq tradeType _)) by done.
Qed.

(** C27: No trade ever decreases the constant product: after depositing x for
    the payout y, or paying the price x of an expectation y, the new reserves
    satisfy (X+x)(Y-y) >= XY and both stay in the int64 range. *)
Theorem makeTrade_keeps_product (pool : liquidityPool) (cp : ConstantProduct) (asset x y : Z)
  (Hp : pool_ok pool cp) (Hx : in_int 64 x) (Hy : in_int 64 y)
  (Ht : makeTrade pool asset tradeTypeDeposit x = Ok y \/
        makeTrade pool asset tradeTypeExpectation y = Ok x) :
  let '(X, Y) := sides pool cp asset in
  X * Y <= (X + x) * (Y - y) /\ 0 <= x /\ 0 <= y <= Y.
Proof.
  destruct (sides pool cp asset) as [X Y] eqn:Hs.
  pose proof (ok_fee _ _ Hp) as HF. destruct (sides_reserve _ _ _ _ _ Hp Hs) as [HX HY].
  unfold reserve in HX, HY. destruct Ht as [Ht|Ht].
  - rewrite (deposit_exact pool cp asset x X Y) in Ht by done. unfold deposit_spec in Ht.
    destruct (x <=? 0) eqn:Ex; [done|]. zbool. case_match eqn:E; [done|]. injection Ht as <-. zbool.
    assert (0 < 10000 * X + (10000 - Fee cp) * x) by (unfold fee in HF; nia).
    pose proof (payout_le X Y x (Fee cp) ltac:(lia) ltac:(lia) ltac:(lia) HF).
    split_and!; [by apply payout_keeps_product; try lia|lia..].
  - rewrite (expectation_exact pool cp asset y X Y) in Ht by done. unfold expectation_spec in Ht.
    destruct (y <=? 0) eqn:Ey; [done|]. zbool. case_match eqn:E; [done|]. injection Ht as <-. zbool.
    unfold fee in HF. assert (0 <= expectation X Y y (Fee cp)) by (apply Price.ceil_div_nonneg; nia).
    split_and!; [apply expectation_keeps_product; lia|lia..].
Qed.

(** The price quoted for an expectation is the least sufficient deposit:
    paying it yields at least the amount expected, and every smaller positive
    deposit is accepted by the pool but pays strictly less. *)
Theorem expectation_is_least (pool : liquidityPool) (cp : ConstantProduct) (asset x y : Z)
  (Hp : pool_ok pool cp) (Hy : in_int 64 y)
  (Ht : makeTrade pool asset tradeTypeExpectation y = Ok x)
  (Hfit : 0 < x <= MaxInt64 - fst (sides pool cp asset)) :
  (exists y', makeTrade pool asset tradeTypeDeposit x = Ok y' /\ y <= y') /\
  (forall x', 0 < x' < x ->
     exists y', makeTrade pool asset tradeTypeDeposit x' = Ok y' /\ y' < y).
Proof.
  destruct (sides pool cp asset) as [X Y] eqn:Hs. cbn [fst] in Hfit.
  pose proof (ok_fee _ _ Hp) as HF. destruct (sides_reserve _ _ _ _ _ Hp Hs) as [HX HY].
  unfold reserve, fee, MaxInt64 in *.
  rewrite (expectation_exact pool cp asset y X Y) in Ht by done. unfold expectation_spec in Ht.
  destruct (y <=? 0) eqn:Ey; [done|]. case_match eqn:E; [done|]. injection Ht as <-. zbool.
  assert (Hdep : forall x', 0 < x' <= expectation X Y y (Fee cp) ->
    makeTrade pool asset tradeTypeDeposit x' = Ok (payout X Y x' (Fee cp))).
  { intros x' Hx'. rewrite (deposit_exact pool cp asset x' X Y) by (done || unfold in_int; lia).
    unfold deposit_spec, MaxInt64. replace (x' <=? 0) with false by lia.
    replace (x' >? 2 ^ 63 - 1 - X) with false by lia. cbn [orb].
    by replace (10000 * X + (10000 - Fee cp) * x' =? 0) with false by nia. }
  split.
  - eexists; split; [apply Hdep; lia|]. apply payout_expectation_adjoint; lia.
  - intros x' Hx'. eexists; split; [apply Hdep; lia|].
    apply Z.nle_gt. rewrite payout_expectation_adjoint by lia. lia.
Qed.

(** Asking for the rounding slippage never changes the amount of a trade
    nor whether it succeeds, in either direction; the slippage reported is at
    most 100 for a payout and at most 1000000 for an expectation. *)
Theorem slippage_is_advisory (X Y amount F : Z)
  (HX : reserve X) (HY : reserve Y) (Ha : reserve amount) (HF : fee F) :
  (exists s, 0 <= s <= 100 /\
     CalculatePoolPayout X Y amount F true =
     let '(v, _, ok) := CalculatePoolPayout X Y amount F false in (v, s, ok)) /\
  (exists s, 0 <= s <= 1000000 /\
     CalculatePoolExpectation X Y amount F true =
     let '(v, _, ok) := CalculatePoolExpectation X Y amount F false in (v, s, ok)).
Proof. split; [by apply payout_with_slippage|by apply expectation_with_slippage]. Qed.

End WithUint256.

(** ** Witnesses, with the concrete 256-bit integers *)

Definition pool_example : liquidityPool :=
  mkPool {| LiquidityPoolId := []; BodyType := 0; BodyConstantProduct := Some
    {| AssetA := Asset.Native; AssetB := Asset.usd; Fee := 30; ReserveA := 200; ReserveB := 300;
       TotalPoolShares := 0; PoolSharesTrustLineCount := 0 |} |} 0 1.

Definition cp_example : ConstantProduct :=
  {| AssetA := Asset.Native; AssetB := Asset.usd; Fee := 30; ReserveA := 200; ReserveB := 300;
     TotalPoolShares := 0; PoolSharesTrustLineCount := 0 |}.

Lemma pool_example_ok : pool_ok pool_example cp_example.
Proof. split; unfold reserve, fee; cbn; auto; lia. Qed.

Lemma makeTrade_spec_witness :
  makeTrade (UO := uint256_Z) pool_example 0 tradeTypeExpectation 3 = Ok 3 /\
  makeTrade (UO := uint256_Z) pool_example 0 7 0 = Err errBadAmount.
Proof.
  split.
  - exact (proj2 (proj2 (makeTrade_spec (UO := uint256_Z) pool_example 0 tradeTypeExpectation 3
      ltac:(unfold in_int; lia))) cp_example pool_example_ok).
  - exact (proj2 (proj2 (makeTrade_spec (UO := uint256_Z) pool_example 0 7 0
      ltac:(unfold in_int; lia))) cp_example pool_example_ok).
Defined.

Lemma makeTrade_keeps_product_witness : 200 * 300 <= (200 + 3) * (300 - 3).
Proof.
  refine (proj1 (makeTrade_keeps_product (UO := uint256_Z) pool_example cp_example 0 3 3
    pool_example_ok ltac:(unfold in_int; lia) ltac:(unfold in_int; lia) _)).
  right. vm_compute. reflexivity.
Defined.

Lemma expectation_is_least_witness :
  exists y', makeTrade (UO := uint256_Z) pool_example 0 tradeTypeDeposit 2 = Ok y' /\ y' < 3.
Proof.
  exact (proj2 (expectation_is_least (UO := uint256_Z) pool_example cp_example 0 3 3
    pool_example_ok ltac:(unfold in_int; lia) ltac:(vm_compute; reflexivity)
    ltac:(unfold MaxInt64; cbn; lia)) 2 ltac:(lia)).
Defined.

Lemma slippage_is_advisory_witness : exists s, 0 <= s <= 1000000 /\
  CalculatePoolExpectation (UO := uint256_Z) 200 300 3 30 true = (3, s, true).
Proof.
  destruct (proj2 (slippage_is_advisory (UO := uint256_Z) 200 300 3 30
    ltac:(unfold reserve; lia) ltac:(unfold reserve; lia) ltac:(unfold reserve; lia)
    ltac:(unfold fee; lia))) as (s & Hs & E).
  exists s. split; [exact Hs|]. rewrite E. vm_compute. reflexivity.
Defined.

(** The worked example in the comments of both functions promises a slippage
    of 4778 bips (47.78%); the code reports a whole percentage. *)
Example slippage_in_percent :
  CalculatePoolExpectation (UO := uint256_Z) 200 300 3 30 true = (3, 48, true).
Proof. vm_compute. reflexivity. Qed.

End Pools.
