(* ===== verification/Edges.v ===== *)
(** * Edge sets (exp/orderbook/edges.go)

    The venues reachable from one asset: a slice of edges, one per other asset,
    each with the offers sorted by price and at most one liquidity pool.  A Go
    slice is a list; [sort.Search], [slices.Insert] and [slices.Delete] are
    modelled as the standard library defines them.  The slices are owned by the
    edge set that the caller stores back, so no aliasing is observable. *)
From S2P Require Import Prelude Price Xdr Pools.
From stdpp Require Import sorting.
Local Open Scope Z_scope.

(** ** The standard library's slice helpers *)
Module Slices.

(** [sort.Search]: binary search for the smallest index with [f]. *)
Fixpoint search_loop (fuel : nat) (f : nat -> bool) (i j : nat) : nat :=
  match fuel with
  | O => i
  | S fuel =>
      if Nat.ltb i j then
        let h := ((i + j) / 2)%nat in
        if negb (f h) then search_loop fuel f (S h) j else search_loop fuel f i h
      else i
  end.

Definition Search (n : nat) (f : nat -> bool) : nat := search_loop n f 0 n.

Definition Insert {A} (s : list A) (i : nat) (v : A) : list A := take i s ++ v :: drop i s.

(** [slices.Delete(s, i, i+1)]. *)
Definition Delete {A} (s : list A) (i : nat) : list A := take i s ++ drop (S i) s.

Definition upward (f : nat -> bool) (n : nat) : Prop :=
  forall a b, (a <= b < n)%nat -> f a = true -> f b = true.

Lemma search_loop_spec fuel f : forall i j n,
  upward f n -> (j <= n)%nat -> (j - i <= fuel)%nat -> (i <= j)%nat ->
  let k := search_loop fuel f i j in
  (i <= k <= j)%nat /\ (forall m, (i <= m < k)%nat -> f m = false) /\
  (forall m, (k <= m < j)%nat -> f m = true).
Proof.
  induction fuel as [|fuel IH]; intros i j n Hup Hj Hf Hij; cbn [search_loop].
  - assert (i = j) as -> by lia. split_and!; lia || (intros m ?; lia).
  - destruct (Nat.ltb_spec i j); [|assert (i = j) as -> by lia; split_and!; lia || (intros m ?; lia)].
    pose proof (Nat.div_mod (i + j) 2 ltac:(lia)). pose proof (Nat.mod_upper_bound (i + j) 2 ltac:(lia)).
    set (h := ((i + j) / 2)%nat) in *. destruct (f h) eqn:Eh; cbn [negb].
    + destruct (IH i h n) as (P1 & P2 & P3); [done|lia..|]. split_and!; [lia|lia|done|].
      intros m Hm. destruct (Nat.ltb_spec m h); [apply P3; lia|apply (Hup h m); [lia|done]].
    + destruct (IH (S h) j n) as (P1 & P2 & P3); [done|lia..|]. split_and!; [lia|lia| |done].
      intros m Hm. destruct (Nat.leb_spec m h); [|apply P2; lia].
      destruct (f m) eqn:Em; [|done]. rewrite (Hup m h) in Eh; [done|lia|done].
Qed.

Lemma Search_spec n f : upward f n ->
  (Search n f <= n)%nat /\ (forall m, (m < Search n f)%nat -> f m = false) /\
  (forall m, (Search n f <= m < n)%nat -> f m = true).
Proof.
  intros Hup. destruct (search_loop_spec n f 0 n n) as (P1 & P2 & P3); [done|lia..|].
  split_and!; [unfold Search; lia|intros m Hm; apply P2; unfold Search in *; lia|done].
Qed.

Lemma Delete_middle {A} (l1 l2 : list A) x : Delete (l1 ++ x :: l2) (length l1) = l1 ++ l2.
Proof.
  unfold Delete. rewrite take_app_length.
  replace (S (length l1)) with (length (l1 ++ [x])) by (rewrite length_app; simpl; lia).
  replace (l1 ++ x :: l2) with ((l1 ++ [x]) ++ l2) by (by rewrite <- app_assoc).
  by rewrite drop_app_length.
Qed.

End Slices.

Module Edges.
Import Pools Slices.

Record Venues := mkVenues { offers : list OfferEntry; pool : liquidityPool }.

(** The zero values of the structs: an empty venue has no pool body. *)
Definition noPool : liquidityPool := mkPool (mkPoolEntry (replicate 32 0) 0 None) 0 0.
Definition noVenues : Venues := mkVenues [] noPool.

Record edge := mkEdge { key : Z; value : Venues; reallocate_ : bool }.
Abbreviation edgeSet := (list edge).

Fixpoint find_loop (e : edgeSet) (k : Z) (i : nat) : Z :=
  match e with
  | [] => -1
  | x :: e => if key x =? k then Z.of_nat i else find_loop e k (S i)
  end.

Definition find (e : edgeSet) (k : Z) : Z := find_loop e k 0.

(** Update of the element at index [i] in place. *)
Definition update (e : edgeSet) (i : Z) (f : edge -> edge) : edgeSet := alter f (Z.to_nat i) e.

Definition set_value (v : Venues) (x : edge) : edge := mkEdge (key x) v (reallocate_ x).

(** [e[i].value]; only used with an index that [find] returned. *)
Definition value_at (e : edgeSet) (i : Z) : Venues :=
  match e !! Z.to_nat i with Some x => value x | None => noVenues end.

Definition addOffer (e : edgeSet) (k : Z) (offer : OfferEntry) : edgeSet :=
  let i := find e k in
  if i <? 0 then e ++ [mkEdge k (mkVenues [offer] noPool) false] else
  let os := offers (value_at e i) in
  let insertIndex := Search (length os) (fun j =>
    match os !! j with
    | Some o => Price.Cheaper (Price_ offer) (Price_ o)
    | None => false
    end) in
  let os := Insert os insertIndex offer in
  update e i (set_value (mkVenues os (pool (value_at e i)))).

Definition addPool (e : edgeSet) (k : Z) (p : liquidityPool) : edgeSet :=
  let i := find e k in
  if i <? 0 then e ++ [mkEdge k (mkVenues [] p) false] else
  update e i (set_value (mkVenues (offers (value_at e i)) p)).

(** The loop over the offers: the index of the first one with the id. *)
Fixpoint offer_index (os : list OfferEntry) (offerID : Z) (i : nat) : option nat :=
  match os with
  | [] => None
  | o :: os => if negb (OfferId o =? offerID) then offer_index os offerID (S i) else Some i
  end.

Definition has_pool (v : Venues) : bool :=
  match BodyConstantProduct (poolEntry (pool v)) with Some _ => true | None => false end.

Definition removeOffer (e : edgeSet) (k offerID : Z) : edgeSet * bool :=
  let i := find e k in
  if i <? 0 then (e, false) else
  let v := value_at e i in
  match offer_index (offers v) offerID 0 with
  | None => (e, false)
  | Some j =>
      let updatedOffers := Delete (offers v) j in
      if Nat.eqb (length updatedOffers) 0 && negb (has_pool v)
      then (Delete e (Z.to_nat i), true)
      else (update e i (fun x => mkEdge (key x) (mkVenues updatedOffers (pool (value x))) true), true)
  end.

Definition removePool (e : edgeSet) (k : Z) : edgeSet :=
  let i := find e k in
  if i <? 0 then e else
  if Nat.eqb (length (offers (value_at e i))) 0 then Delete e (Z.to_nat i) else
  update e i (set_value (mkVenues (offers (value_at e i)) noPool)).

(** Copies the offers of every marked edge to a fresh array and clears the
    mark; a copy holds the same elements. *)
Definition reallocate (e : edgeSet) : edgeSet :=
  map (fun x => if reallocate_ x then mkEdge (key x) (mkVenues (offers (value x)) (pool (value x))) false
                else x) e.

(** ** Edge sets as finite maps from keys to venues *)

(** What the set holds for key [k]; the empty venue stands for no edge. *)
Fixpoint venue (e : edgeSet) (k : Z) : Venues :=
  match e with
  | [] => noVenues
  | x :: e => if key x =? k then value x else venue e k
  end.

Abbreviation keys e := (map key e).

(** Offers ordered from cheapest to most expensive. *)
Definition not_dearer (o1 o2 : OfferEntry) : Prop := Price.Cheaper (Price_ o2) (Price_ o1) = false.
Definition ascending (os : list OfferEntry) : Prop := StronglySorted not_dearer os.

(** Reference insertion: after every offer that is not more expensive. *)
Fixpoint insert_offer (o : OfferEntry) (os : list OfferEntry) : list OfferEntry :=
  match os with
  | [] => [o]
  | x :: os' => if Price.Cheaper (Price_ o) (Price_ x) then o :: os else x :: insert_offer o os'
  end.

Definition remove_id (id : Z) (os : list OfferEntry) : list OfferEntry :=
  List.filter (fun o => negb (OfferId o =? id)) os.

Definition ids (os : list OfferEntry) : list Z := map OfferId os.
Definition priced (os : list OfferEntry) : Prop := Forall (fun o => Price.positive (Price_ o)) os.

(** One edge: it offers something, its offers are sorted and distinct, and a
    venue without pool body has the zero pool. *)
Record venues_wf (v : Venues) : Prop := {
  v_sorted : ascending (offers v);
  v_priced : priced (offers v);
  v_nodup : NoDup (ids (offers v));
  v_nopool : has_pool v = false -> pool v = noPool
}.

Definition occupied (v : Venues) : Prop := offers v <> [] \/ has_pool v = true.

Record wf (e : edgeSet) : Prop := {
  e_nodup : NoDup (keys e);
  e_occupied : Forall (fun x => occupied (value x)) e;
  e_venues : Forall (fun x => venues_wf (value x)) e
}.

Lemma find_loop_cases e k : forall i,
  (find_loop e k i = -1 /\ k ∉ keys e) \/
  (exists e1 x e2, e = e1 ++ x :: e2 /\ find_loop e k i = Z.of_nat (i + length e1) /\
     key x = k /\ k ∉ keys e1).
Proof.
  induction e as [|y e IH]; intros i; cbn [find_loop].
  - left. split; [done|]. simpl. apply not_elem_of_nil.
  - destruct (Z.eqb_spec (key y) k) as [E|E].
    + right. exists [], y, e. simpl. rewrite Nat.add_0_r. split_and!; try done. apply not_elem_of_nil.
    + destruct (IH (S i)) as [[H1 H2]|(e1 & x & e2 & -> & H1 & H2 & H3)].
      * left. split; [done|]. simpl. rewrite not_elem_of_cons. auto.
      * right. exists (y :: e1), x, e2. simpl. rewrite not_elem_of_cons.
        split_and!; auto. rewrite H1. f_equal. lia.
Qed.

Lemma find_cases e k :
  (find e k = -1 /\ k ∉ keys e) \/
  (exists e1 x e2, e = e1 ++ x :: e2 /\ find e k = Z.of_nat (length e1) /\
     key x = k /\ k ∉ keys e1).
Proof. apply (find_loop_cases e k 0). Qed.

Lemma venue_not_in e k : k ∉ keys e -> venue e k = noVenues.
Proof.
  induction e as [|x e IH]; simpl; [done|]. rewrite not_elem_of_cons. intros [Hx He].
  destruct (Z.eqb_spec (key x) k); [congruence|auto].
Qed.

Lemma venue_app_r e1 e2 k : k ∉ keys e1 -> venue (e1 ++ e2) k = venue e2 k.
Proof.
  induction e1 as [|x e IH]; simpl; [done|]. rewrite not_elem_of_cons. intros [Hx He].
  destruct (Z.eqb_spec (key x) k); [congruence|auto].
Qed.

Lemma venue_middle e1 x e2 k : key x = k -> k ∉ keys e1 -> venue (e1 ++ x :: e2) k = value x.
Proof. intros E H. rewrite venue_app_r by done. simpl. by rewrite (proj2 (Z.eqb_eq _ _) E). Qed.

Lemma value_at_middle e1 x e2 :
  value_at (e1 ++ x :: e2) (Z.of_nat (length e1)) = value x.
Proof. unfold value_at. rewrite Nat2Z.id. by rewrite list_lookup_middle. Qed.

Lemma update_middle e1 x e2 f :
  update (e1 ++ x :: e2) (Z.of_nat (length e1)) f = e1 ++ f x :: e2.
Proof.
  unfold update. rewrite Nat2Z.id. rewrite <- (Nat.add_0_r (length e1)). by rewrite alter_app_r.
Qed.

Lemma venue_replace e1 x y e2 k k' : key x = k -> key y = k -> k ∉ keys e1 ->
  venue (e1 ++ y :: e2) k' = if k' =? k then value y else venue (e1 ++ x :: e2) k'.
Proof.
  intros Ex Ey Hn. destruct (Z.eqb_spec k' k) as [->|Hk]; [by apply venue_middle|].
  clear Hn. induction e1 as [|z e1 IH]; simpl.
  - rewrite Ex, Ey. by rewrite (proj2 (Z.eqb_neq k k')) by done.
  - by rewrite IH.
Qed.

Lemma venue_append e x k' : key x ∉ keys e ->
  venue (e ++ [x]) k' = if k' =? key x then value x else venue e k'.
Proof.
  intros Hn. destruct (Z.eqb_spec k' (key x)) as [->|Hk]; [by apply venue_middle|].
  clear Hn. induction e as [|z e IH]; simpl; [|by rewrite IH].
  by rewrite (proj2 (Z.eqb_neq (key x) k')) by done.
Qed.

Lemma venue_delete e1 x e2 k' : NoDup (keys (e1 ++ x :: e2)) ->
  venue (e1 ++ e2) k' = if k' =? key x then noVenues else venue (e1 ++ x :: e2) k'.
Proof.
  rewrite map_app. simpl. intros Hn. apply NoDup_app in Hn as (_ & Hd & Hn).
  apply NoDup_cons in Hn as [Hx _].
  destruct (Z.eqb_spec k' (key x)) as [->|Hk].
  - apply venue_not_in. rewrite map_app, elem_of_app. intros [H|H]; [|done].
    apply (Hd _ H). left.
  - clear Hd. induction e1 as [|z e1 IH]; simpl; [|by rewrite IH].
    by rewrite (proj2 (Z.eqb_neq (key x) k')) by done.
Qed.

(** ** Sorted insertion and removal *)

Lemma ascending_lookup os a b x y : ascending os ->
  (a < b)%nat -> os !! a = Some x -> os !! b = Some y -> not_dearer x y.
Proof.
  intros Hs. revert a b. induction Hs as [|z os Hs IH Hz]; intros [|a] [|b] Hab; simpl; try lia; try done.
  - intros [= ->] Hy. rewrite Forall_forall in Hz. apply Hz. by eapply list_elem_of_lookup_2.
  - intros Hx Hy. eapply IH; [|done..]. lia.
Qed.

Lemma Cheaper_upward o os : Price.positive (Price_ o) -> priced os -> ascending os ->
  upward (fun j => match os !! j with
                   | Some x => Price.Cheaper (Price_ o) (Price_ x)
                   | None => false end) (length os).
Proof.
  intros Ho Hp Hs a b [Hab Hb] Ha. destruct (os !! a) as [x|] eqn:Ex; [|done].
  destruct (lookup_lt_is_Some_2 os b Hb) as [y Ey]. rewrite Ey.
  destruct (decide (a = b)) as [->|]; [congruence|].
  pose proof (ascending_lookup os a b x y Hs ltac:(lia) Ex Ey) as Hxy.
  unfold priced in Hp. rewrite Forall_forall in Hp.
  eapply Price.Cheaper_le_trans; [done| |..|done|done]; apply Hp; by eapply list_elem_of_lookup_2.
Qed.

Lemma Insert_insert_offer o os : forall k, (k <= length os)%nat ->
  (forall m x, (m < k)%nat -> os !! m = Some x -> Price.Cheaper (Price_ o) (Price_ x) = false) ->
  (forall x, os !! k = Some x -> Price.Cheaper (Price_ o) (Price_ x) = true) ->
  Insert os k o = insert_offer o os.
Proof.
  unfold Insert. induction os as [|x os IH]; intros k Hk Hlo Hhi; simpl.
  - by rewrite take_nil, drop_nil.
  - destruct k as [|k]; simpl.
    + by rewrite (Hhi x) by done.
    + rewrite (Hlo 0%nat x) by (lia || done). f_equal. apply IH; [simpl in Hk; lia| |].
      * intros m y Hm Hy. apply (Hlo (S m)); [lia|done].
      * intros y Hy. by apply Hhi.
Qed.

(** The binary search inserts where the linear scan would. *)
Lemma Search_insert o os : Price.positive (Price_ o) -> priced os -> ascending os ->
  Insert os (Search (length os) (fun j =>
    match os !! j with Some x => Price.Cheaper (Price_ o) (Price_ x) | None => false end)) o
  = insert_offer o os.
Proof.
  intros Ho Hp Hs. destruct (Search_spec (length os) _ (Cheaper_upward o os Ho Hp Hs)) as (H1 & H2 & H3).
  apply Insert_insert_offer; [done| |].
  - intros m x Hm Hx. specialize (H2 m Hm). simpl in H2. by rewrite Hx in H2.
  - intros x Hx. set (k := Search _ _) in *.
    assert (k < length os)%nat by (by eapply lookup_lt_Some).
    specialize (H3 k ltac:(lia)). simpl in H3. by rewrite Hx in H3.
Qed.

Lemma insert_offer_Permutation o os : insert_offer o os ≡ₚ o :: os.
Proof.
  induction os as [|x os IH]; simpl; [done|]. case_match; [done|]. rewrite IH. apply Permutation_swap.
Qed.

Lemma insert_offer_ascending o os : Price.positive (Price_ o) -> priced os ->
  ascending os -> ascending (insert_offer o os).
Proof.
  intros Ho Hp Hs. induction Hs as [|x os Hs IH Hx]; simpl; [repeat constructor|].
  apply Forall_cons in Hp as [Hpx Hp]. case_match eqn:E.
  - constructor; [by constructor|]. constructor; [by apply Price.Cheaper_asym|].
    unfold priced in Hp. rewrite Forall_forall in Hx, Hp |- *. intros y Hy.
    eapply Price.Cheaper_not_Cheaper_trans; [done| |..|done|by apply Hx]; auto.
  - constructor; [by apply IH|]. rewrite insert_offer_Permutation. by constructor.
Qed.

Lemma offer_index_cases os id : forall i,
  (offer_index os id i = None /\ id ∉ ids os) \/
  (exists o1 o o2, os = o1 ++ o :: o2 /\ offer_index os id i = Some (i + length o1)%nat /\
     OfferId o = id /\ id ∉ ids o1).
Proof.
  unfold ids. induction os as [|y os IH]; intros i; cbn [offer_index].
  - left. split; [done|]. simpl. apply not_elem_of_nil.
  - destruct (Z.eqb_spec (OfferId y) id) as [E|E]; cbn [negb].
    + right. exists [], y, os. simpl. rewrite Nat.add_0_r. split_and!; try done. apply not_elem_of_nil.
    + destruct (IH (S i)) as [[H1 H2]|(o1 & o & o2 & -> & H1 & H2 & H3)].
      * left. split; [done|]. simpl. rewrite not_elem_of_cons. auto.
      * right. exists (y :: o1), o, o2. simpl. rewrite not_elem_of_cons.
        split_and!; auto. rewrite H1. f_equal. lia.
Qed.

Lemma remove_id_not_in id os : id ∉ ids os -> remove_id id os = os.
Proof.
  unfold ids, remove_id. induction os as [|o os IH]; simpl; [done|]. rewrite not_elem_of_cons. intros [H1 H2].
  rewrite (proj2 (Z.eqb_neq _ _)) by done. simpl. by rewrite IH.
Qed.

Lemma remove_id_middle o1 o o2 : NoDup (ids (o1 ++ o :: o2)) ->
  remove_id (OfferId o) (o1 ++ o :: o2) = o1 ++ o2.
Proof.
  unfold ids. rewrite map_app. simpl. intros Hn. apply NoDup_app in Hn as (_ & Hd & Hn).
  apply NoDup_cons in Hn as [Hx _]. unfold remove_id. rewrite List.filter_app. simpl.
  rewrite Z.eqb_refl. simpl. f_equal; apply remove_id_not_in; [|done].
  intros H. apply (Hd _ H). left.
Qed.

Lemma elem_of_remove_id id os o : o ∈ remove_id id os <-> o ∈ os /\ OfferId o <> id.
Proof.
  unfold remove_id. rewrite !list_elem_of_In, List.filter_In, negb_true_iff, Z.eqb_neq. done.
Qed.

(** ** The operations on the map view *)

Lemma noVenues_wf : venues_wf noVenues.
Proof. split; [constructor|constructor|constructor|done]. Qed.

Lemma wf_nil : wf [].
Proof. split; constructor. Qed.

Lemma venue_wf e k : wf e -> venues_wf (venue e k).
Proof.
  intros [_ _ Hv]. induction e as [|x e IH]; simpl; [apply noVenues_wf|].
  apply Forall_cons in Hv as [Hx Hv]. case_match; auto.
Qed.

Lemma venue_occupied e k : wf e -> k ∈ keys e -> occupied (venue e k).
Proof.
  intros [_ Ho _]. induction e as [|x e IH]; simpl; [by rewrite elem_of_nil|].
  apply Forall_cons in Ho as [Hx Ho]. rewrite elem_of_cons. intros [->|H].
  - by rewrite Z.eqb_refl.
  - case_match; auto.
Qed.

Lemma noVenues_not_occupied : ~ occupied noVenues.
Proof. intros [H|H]; done. Qed.

(** An edge set is empty exactly when every key has the empty venue. *)
Lemma venue_all_empty e : wf e -> (forall k, venue e k = noVenues) -> e = [].
Proof.
  intros Hw H. destruct e as [|x e]; [done|]. exfalso.
  apply noVenues_not_occupied. rewrite <- (H (key x)). apply venue_occupied; [done|]. left.
Qed.

Lemma wf_replace e1 x y e2 : wf (e1 ++ x :: e2) -> key y = key x ->
  occupied (value y) -> venues_wf (value y) -> wf (e1 ++ y :: e2).
Proof.
  intros [Hn Ho Hv] Hk Hoy Hvy. split.
  - rewrite map_app in *. simpl in *. by rewrite Hk.
  - rewrite Forall_app, Forall_cons in *. naive_solver.
  - rewrite Forall_app, Forall_cons in *. naive_solver.
Qed.

Lemma wf_append e y : wf e -> key y ∉ keys e ->
  occupied (value y) -> venues_wf (value y) -> wf (e ++ [y]).
Proof.
  intros [Hn Ho Hv] Hk Hoy Hvy. split.
  - rewrite map_app. apply NoDup_app. split_and!; [done| |].
    + intros z Hz. simpl. rewrite list_elem_of_singleton. congruence.
    + simpl. apply NoDup_singleton.
  - rewrite Forall_app. auto.
  - rewrite Forall_app. auto.
Qed.

Lemma wf_delete e1 x e2 : wf (e1 ++ x :: e2) -> wf (e1 ++ e2).
Proof.
  intros [Hn Ho Hv]. split.
  - rewrite map_app in *. simpl in *. apply NoDup_app in Hn as (H1 & H2 & H3).
    apply NoDup_cons in H3 as [H3 H4]. apply NoDup_app. split_and!; [done| |done].
    intros z Hz Hz'. apply (H2 z Hz). by right.
  - rewrite Forall_app, Forall_cons in *. naive_solver.
  - rewrite Forall_app, Forall_cons in *. naive_solver.
Qed.

#[export] Hint Resolve wf_nil noVenues_wf venue_wf : go.

(** The two outcomes of [find], with what the branch tests and reads. *)
Ltac find_case e k :=
  destruct (find_cases e k) as [[-> ?]|(e1 & x & e2 & -> & -> & ? & ?)];
  [change (-1 <? 0) with true; cbv iota beta
  |rewrite (proj2 (Z.ltb_ge (Z.of_nat (length e1)) 0)) by apply Nat2Z.is_nonneg;
   rewrite ?value_at_middle, ?update_middle, ?Nat2Z.id, ?Delete_middle; cbv iota beta].

Lemma insert_offer_wf o v : venues_wf v -> Price.positive (Price_ o) ->
  OfferId o ∉ ids (offers v) -> venues_wf (mkVenues (insert_offer o (offers v)) (pool v)).
Proof.
  intros [H1 H2 H3 H4] Ho Hn. split; simpl; [by apply insert_offer_ascending| | |exact H4].
  - unfold priced. rewrite insert_offer_Permutation. by constructor.
  - unfold ids. rewrite insert_offer_Permutation. simpl. by constructor.
Qed.

Lemma addOffer_venue e k o k' : wf e -> Price.positive (Price_ o) ->
  venue (addOffer e k o) k' =
  if k' =? k then mkVenues (insert_offer o (offers (venue e k))) (pool (venue e k))
  else venue e k'.
Proof.
  intros Hw Ho. unfold addOffer. find_case e k.
  - rewrite venue_append by done. cbn [key value]. rewrite (venue_not_in e k) by done. done.
  - assert (Hv : venues_wf (value x))
      by (destruct Hw as [_ _ Hv]; rewrite Forall_app, Forall_cons in Hv; naive_solver).
    rewrite Search_insert by (done || by destruct Hv).
    rewrite (venue_replace e1 x _ e2 k k') by done. by rewrite (venue_middle e1 x e2 k).
Qed.

Lemma addOffer_wf e k o : wf e -> Price.positive (Price_ o) ->
  OfferId o ∉ ids (offers (venue e k)) -> wf (addOffer e k o).
Proof.
  intros Hw Ho Hn. unfold addOffer. find_case e k.
  - apply wf_append; [done..|by left|]. apply (insert_offer_wf o noVenues); auto with go.
    apply not_elem_of_nil.
  - rewrite venue_middle in Hn by done.
    assert (Hv : venues_wf (value x))
      by (destruct Hw as [_ _ Hv]; rewrite Forall_app, Forall_cons in Hv; naive_solver).
    rewrite Search_insert by (done || by destruct Hv).
    apply (wf_replace e1 x); [done..| |by apply insert_offer_wf].
    left. cbn [value set_value offers]. intros E.
    pose proof (insert_offer_Permutation o (offers (value x))) as Hp.
    rewrite E in Hp. by apply Permutation_nil_cons in Hp.
Qed.

Lemma addPool_venue e k p k' :
  venue (addPool e k p) k' = if k' =? k then mkVenues (offers (venue e k)) p else venue e k'.
Proof.
  unfold addPool. find_case e k.
  - rewrite venue_append by done. cbn [key value]. by rewrite (venue_not_in e k).
  - rewrite (venue_replace e1 x _ e2 k k') by done. by rewrite (venue_middle e1 x e2 k).
Qed.

Lemma addPool_wf e k p : wf e -> BodyConstantProduct (poolEntry p) <> None -> wf (addPool e k p).
Proof.
  intros Hw Hp.
  assert (Hh : forall os, has_pool (mkVenues os p) = true)
    by (intros os; unfold has_pool; simpl; by destruct (BodyConstantProduct _)).
  assert (Hvw : forall v, venues_wf v -> venues_wf (mkVenues (offers v) p)).
  { intros v [? ? ? ?]. split; auto. by rewrite Hh. }
  unfold addPool. find_case e k.
  - apply wf_append; [done..|right; apply Hh|]. apply (Hvw noVenues), noVenues_wf.
  - apply (wf_replace e1 x); [done..|right; apply Hh|]. apply Hvw.
    destruct Hw as [_ _ Hv]; rewrite Forall_app, Forall_cons in Hv; naive_solver.
Qed.

Lemma removeOffer_missing e k id : id ∉ ids (offers (venue e k)) ->
  removeOffer e k id = (e, false).
Proof.
  intros Hn. unfold removeOffer. find_case e k; [done|]. rewrite venue_middle in Hn by done.
  destruct (offer_index_cases (offers (value x)) id 0)
    as [[-> _]|(o1 & o & o2 & E & _ & H1 & _)]; [done|].
  exfalso. apply Hn. rewrite E. unfold ids. rewrite map_app, elem_of_app. right. simpl.
  rewrite H1. left.
Qed.

(** Removing an offer that is present: the pair of facts every use needs. *)
Lemma removeOffer_present e k id : wf e -> id ∈ ids (offers (venue e k)) ->
  exists e', removeOffer e k id = (e', true) /\ wf e' /\
  forall k', venue e' k' =
    if k' =? k then mkVenues (remove_id id (offers (venue e k))) (pool (venue e k))
    else venue e k'.
Proof.
  intros Hw Hin. unfold removeOffer. find_case e k.
  { rewrite venue_not_in in Hin by done. by apply elem_of_nil in Hin. }
  rewrite venue_middle in Hin |- * by done.
  assert (Hv : venues_wf (value x))
    by (destruct Hw as [_ _ Hv]; rewrite Forall_app, Forall_cons in Hv; naive_solver).
  destruct (offer_index_cases (offers (value x)) id 0)
    as [[_ Hno]|(o1 & o & o2 & E & -> & Hid & Ho1)]; [done|].
  destruct Hv as [Hs Hp Hd Hnp]. rewrite E in *. simpl.
  rewrite update_middle, !Delete_middle.
  assert (Er : remove_id id (o1 ++ o :: o2) = o1 ++ o2) by (rewrite <- Hid; by apply remove_id_middle).
  rewrite Er. set (v' := mkVenues (o1 ++ o2) (pool (value x))).
  assert (Hv' : venues_wf v').
  { split; cbn [offers pool v'].
    - unfold ascending in *. clear - Hs. induction o1 as [|y o1 IH]; simpl in *.
      + by apply StronglySorted_inv in Hs as [? _].
      + apply StronglySorted_inv in Hs as [Hs Hy]. constructor; [auto|].
        rewrite Forall_app, Forall_cons in *. naive_solver.
    - unfold priced in *. rewrite Forall_app, Forall_cons in *. naive_solver.
    - unfold ids in *. rewrite map_app in *. simpl in Hd. apply NoDup_app in Hd as (D1 & D2 & D3).
      apply NoDup_cons in D3 as [_ D3]. apply NoDup_app. split_and!; [done| |done].
      intros z Hz Hz'. apply (D2 z Hz). by right.
    - exact Hnp. }
  destruct (Nat.eqb_spec (length (o1 ++ o2)) 0) as [E0|E0]; cbn [andb].
  - apply nil_length_inv in E0. destruct (has_pool (value x)) eqn:Ep; cbn [negb].
    + eexists. split; [done|]. split.
      * apply (wf_replace e1 x); [done..|by right|done].
      * intros k'. rewrite (venue_replace e1 x _ e2 k k') by done. done.
    + eexists. split; [done|]. split; [by eapply wf_delete|].
      intros k'. rewrite (venue_delete e1 x e2) by apply Hw. rewrite H.
      case_match; [|done]. unfold v'. rewrite E0, Hnp; done.
  - eexists. split; [done|]. split.
    + apply (wf_replace e1 x); [done..|left|done]. cbn. intros E1. by rewrite E1 in E0.
    + intros k'. rewrite (venue_replace e1 x _ e2 k k') by done. done.
Qed.

Lemma removePool_venue e k k' : wf e ->
  venue (removePool e k) k' =
  if k' =? k then mkVenues (offers (venue e k)) noPool else venue e k'.
Proof.
  intros Hw. unfold removePool. find_case e k.
  - rewrite (venue_not_in e k) by done. destruct (Z.eqb_spec k' k) as [->|]; [|done].
    by rewrite venue_not_in.
  - destruct (Nat.eqb_spec (length (offers (value x))) 0) as [E0|E0].
    + apply nil_length_inv in E0. rewrite (venue_delete e1 x e2) by apply Hw.
      rewrite (venue_middle e1 x e2 k), E0 by done. subst k. done.
    + rewrite (venue_replace e1 x _ e2 k k') by done. by rewrite (venue_middle e1 x e2 k).
Qed.

Lemma removePool_wf e k : wf e -> wf (removePool e k).
Proof.
  intros Hw. unfold removePool. find_case e k; [done|].
  destruct (Nat.eqb_spec (length (offers (value x))) 0) as [E0|E0]; [by eapply wf_delete|].
  apply (wf_replace e1 x); [done..| |].
  - left. cbn. intros E. by rewrite E in E0.
  - destruct Hw as [_ _ Hv]. rewrite Forall_app, Forall_cons in Hv.
    destruct Hv as (_ & [Hs Hp Hd _] & _). by split.
Qed.

Lemma reallocate_venue e k : venue (reallocate e) k = venue e k.
Proof.
  induction e as [|x e IH]; simpl; [done|]. rewrite IH.
  destruct x as [kx [os p] []]; simpl; done.
Qed.

Lemma reallocate_keys e : keys (reallocate e) = keys e.
Proof. induction e as [|x e IH]; simpl; [done|]. rewrite IH. by destruct (reallocate_ x). Qed.

Lemma reallocate_wf e : wf e -> wf (reallocate e).
Proof.
  intros [Hn Ho Hv]. split.
  - by rewrite reallocate_keys.
  - unfold reallocate. rewrite Forall_map. eapply Forall_impl; [exact Ho|].
    intros [kx [os p] []]; done.
  - unfold reallocate. rewrite Forall_map. eapply Forall_impl; [exact Hv|].
    intros [kx [os p] []]; done.
Qed.

(** ** Properties *)

(** Adding to an edge set refines an update of a finite map from keys to
    venues: the other keys are untouched; the offer found by binary search goes
    after every offer that is not more expensive, so the list stays sorted from
    cheapest to dearest and gains exactly that offer; the pool of the key is
    kept by [addOffer] and replaced by [addPool]; the invariant is preserved. *)
Theorem edgeSet_add_refines (e : edgeSet) (k : Z) (o : OfferEntry) (p : liquidityPool)
  (Hw : wf e) (Ho : Price.positive (Price_ o)) (Hid : OfferId o ∉ ids (offers (venue e k)))
  (Hp : BodyConstantProduct (poolEntry p) <> None) :
  let v := venue e k in
  (wf (addOffer e k o) /\
   forall k', venue (addOffer e k o) k' =
     if k' =? k then mkVenues (insert_offer o (offers v)) (pool v) else venue e k') /\
  (ascending (insert_offer o (offers v)) /\ insert_offer o (offers v) ≡ₚ o :: offers v) /\
  (wf (addPool e k p) /\
   forall k', venue (addPool e k p) k' = if k' =? k then mkVenues (offers v) p else venue e k').
Proof.
  intros v. destruct (venue_wf e k Hw) as [Hs Hpr _ _]. split_and!.
  - by apply addOffer_wf.
  - intros k'. by apply addOffer_venue.
  - by apply insert_offer_ascending.
  - apply insert_offer_Permutation.
  - by apply addPool_wf.
  - intros k'. apply addPool_venue.
Qed.

(** Removing from an edge set refines the map update: [removeOffer]
    reports whether the offer was there, leaves the set unchanged when it was
    not, and otherwise drops exactly that offer; [removePool] drops exactly the
    pool; an edge left with neither offers nor pool disappears, so the set is
    empty as soon as every venue is; [reallocate] changes no venue. *)
Theorem edgeSet_remove_refines (e : edgeSet) (k id : Z) (Hw : wf e) :
  let v := venue e k in
  (if bool_decide (id ∈ ids (offers v)) then
     exists e', removeOffer e k id = (e', true) /\ wf e' /\
       forall k', venue e' k' =
         if k' =? k then mkVenues (remove_id id (offers v)) (pool v) else venue e k'
   else removeOffer e k id = (e, false)) /\
  (wf (removePool e k) /\
   forall k', venue (removePool e k) k' =
     if k' =? k then mkVenues (offers v) noPool else venue e k') /\
  (wf (reallocate e) /\ forall k', venue (reallocate e) k' = venue e k') /\
  ((forall k', venue e k' = noVenues) <-> e = []).
Proof.
  intros v. split_and!.
  - case_bool_decide; [by apply removeOffer_present|by apply removeOffer_missing].
  - by apply removePool_wf.
  - intros k'. by apply removePool_venue.
  - by apply reallocate_wf.
  - apply reallocate_venue.
  - split; [by apply venue_all_empty|by intros ->].
Qed.

Definition sample_offer (id n d : Z) : OfferEntry :=
  mkOffer Asset.zero_account id Asset.usd Asset.Native 100 (Price.mk n d) 0.

Definition sample_edges : edgeSet :=
  addOffer (addOffer [] 7 (sample_offer 1 2 1)) 7 (sample_offer 2 1 1).

Lemma sample_edges_wf : wf sample_edges.
Proof.
  apply addOffer_wf; [apply addOffer_wf| |]; [apply wf_nil|split; cbn; lia|apply not_elem_of_nil|split; cbn; lia|].
  vm_compute. intros H. apply elem_of_cons in H as [H|H]; [done|by apply elem_of_nil in H].
Qed.

Lemma edgeSet_add_refines_witness :
  ids (offers (venue (addOffer sample_edges 7 (sample_offer 3 3 2)) 7)) = [2; 3; 1].
Proof.
  assert (Hid : OfferId (sample_offer 3 3 2) ∉ ids (offers (venue sample_edges 7)))
    by (apply (bool_decide_unpack _); vm_compute; exact I).
  destruct (edgeSet_add_refines sample_edges 7 (sample_offer 3 3 2) pool_example
    sample_edges_wf ltac:(split; cbn; lia) Hid ltac:(discriminate)) as [[_ ->] _].
  vm_compute. reflexivity.
Defined.

Lemma edgeSet_remove_refines_witness :
  exists e', removeOffer sample_edges 7 2 = (e', true) /\ ids (offers (venue e' 7)) = [1].
Proof.
  pose proof (proj1 (edgeSet_remove_refines sample_edges 7 2 sample_edges_wf)) as H.
  destruct H as (e' & H1 & _ & H2). exists e'. split; [exact H1|]. rewrite H2.
  vm_compute. reflexivity.
Defined.

End Edges.
