(* ===== verification/Graph.v ===== *)
(** * The order book graph (exp/orderbook/graph.go, batch.go, utils.go)

    The in-memory graph of all offers and liquidity pools: assets are interned
    as int32 ids, each id has the edge sets of the offers that sell it and that
    buy it, and updates are queued in a batch that [Apply] commits at a ledger.
    Go maps are [gmap]s (their iteration order is only observed up to
    permutation); the read-write lock makes each exported method atomic, so a
    method is one function on the state.  An operation that returns an error
    returns [Err]; the state it leaves behind is dropped, because the only
    caller of the fallible internal operations turns the error into a panic. *)
From S2P Require Import Prelude Price Xdr Pools Edges.
Local Open Scope Z_scope.

Module Graph.
Import Pools Edges.

Definition errOfferNotPresent : error := "offer is not present in the order book graph".
Definition errBatchAlreadyApplied : error := "cannot apply batched updates more than once".
Definition errUnexpectedLedger : error := "cannot apply unexpected ledger".

Record tradingPair := mkPair { buyingAsset : Z; sellingAsset : Z }.

#[global] Instance tradingPair_eq_dec : EqDecision tradingPair.
Proof. solve_decision. Defined.

#[global] Instance tradingPair_countable : Countable tradingPair.
Proof.
  apply (inj_countable' (fun p => (buyingAsset p, sellingAsset p)) (fun p => mkPair p.1 p.2)).
  by intros [].
Defined.

(** ** batch.go: queued operations *)

Definition addOfferOperationType : Z := 1.
Definition removeOfferOperationType : Z := 2.
Definition addLiquidityPoolOperationType : Z := 3.
Definition removeLiquidityPoolOperationType : Z := 4.

Record orderBookOperation := mkOperation {
  operationType : Z;
  op_offerID : Z;
  op_offer : option OfferEntry;
  op_liquidityPool : option LiquidityPoolEntry
}.

(** The back pointer [orderbook] is the graph that holds the batch. *)
Record orderBookBatchedUpdates := mkBatch {
  operations : list orderBookOperation;
  committed : bool
}.

Definition batch_push (tx : orderBookBatchedUpdates) (op : orderBookOperation) :=
  mkBatch (operations tx ++ [op]) (committed tx).

Definition batch_addOffer (tx : orderBookBatchedUpdates) (offer : OfferEntry) :=
  batch_push tx (mkOperation addOfferOperationType (OfferId offer) (Some offer) None).

Definition batch_addLiquidityPool (tx : orderBookBatchedUpdates) (pool : LiquidityPoolEntry) :=
  batch_push tx (mkOperation addLiquidityPoolOperationType 0 None (Some pool)).

Definition batch_removeOffer (tx : orderBookBatchedUpdates) (offerID : Z) :=
  batch_push tx (mkOperation removeOfferOperationType offerID None None).

Definition batch_removeLiquidityPool (tx : orderBookBatchedUpdates) (pool : LiquidityPoolEntry) :=
  batch_push tx (mkOperation removeLiquidityPoolOperationType 0 None (Some pool)).

(** ** graph.go: the state *)

Record OrderBookGraph := mkGraph {
  idToAssetString : list string;
  assetStringToID : gmap string Z;
  vacantIDs : list Z;
  venuesForBuyingAsset : list edgeSet;
  venuesForSellingAsset : list edgeSet;
  liquidityPools : gmap tradingPair LiquidityPoolEntry;
  tradingPairForOffer : gmap Z tradingPair;
  batchedUpdates : orderBookBatchedUpdates;
  lastLedger : Z
}.

Definition with_batch (tx : orderBookBatchedUpdates) (g : OrderBookGraph) : OrderBookGraph :=
  mkGraph (idToAssetString g) (assetStringToID g) (vacantIDs g) (venuesForBuyingAsset g)
    (venuesForSellingAsset g) (liquidityPools g) (tradingPairForOffer g) tx (lastLedger g).
Definition with_ledger (l : Z) (g : OrderBookGraph) : OrderBookGraph :=
  mkGraph (idToAssetString g) (assetStringToID g) (vacantIDs g) (venuesForBuyingAsset g)
    (venuesForSellingAsset g) (liquidityPools g) (tradingPairForOffer g) (batchedUpdates g) l.
Definition with_names (ids : list string) (m : gmap string Z) (vacant : list Z)
  (g : OrderBookGraph) : OrderBookGraph :=
  mkGraph ids m vacant (venuesForBuyingAsset g) (venuesForSellingAsset g) (liquidityPools g)
    (tradingPairForOffer g) (batchedUpdates g) (lastLedger g).
Definition with_tables (buying selling : list edgeSet) (g : OrderBookGraph) : OrderBookGraph :=
  mkGraph (idToAssetString g) (assetStringToID g) (vacantIDs g) buying selling
    (liquidityPools g) (tradingPairForOffer g) (batchedUpdates g) (lastLedger g).
Definition with_pools (m : gmap tradingPair LiquidityPoolEntry) (g : OrderBookGraph) :=
  mkGraph (idToAssetString g) (assetStringToID g) (vacantIDs g) (venuesForBuyingAsset g)
    (venuesForSellingAsset g) m (tradingPairForOffer g) (batchedUpdates g) (lastLedger g).
Definition with_pairs (m : gmap Z tradingPair) (g : OrderBookGraph) :=
  mkGraph (idToAssetString g) (assetStringToID g) (vacantIDs g) (venuesForBuyingAsset g)
    (venuesForSellingAsset g) (liquidityPools g) m (batchedUpdates g) (lastLedger g).

(** Slice indexing and assignment, which panic out of range. *)
Definition index {A} (l : list A) (i : Z) : res A :=
  if i <? 0 then Panic "index out of range" else
  match l !! Z.to_nat i with Some x => Ok x | None => Panic "index out of range" end.

Definition assign {A} (l : list A) (i : Z) (x : A) : res (list A) :=
  if (i <? 0) || (Z.of_nat (length l) <=? i) then Panic "index out of range"
  else Ok (<[Z.to_nat i := x]> l).

(** [table[i] = f(table[i])]. *)
Definition update_table (table : list edgeSet) (i : Z) (f : edgeSet -> edgeSet) : res (list edgeSet) :=
  e ← index table i; assign table i (f e).

Definition batch : orderBookBatchedUpdates := mkBatch [] false.

Definition Clear (g : OrderBookGraph) : OrderBookGraph :=
  mkGraph [] ∅ [] [] [] ∅ ∅ batch 0.

Definition NewOrderBookGraph : OrderBookGraph :=
  Clear (mkGraph [] ∅ [] [] [] ∅ ∅ (mkBatch [] false) 0).

Definition AddOffers (g : OrderBookGraph) (offers : list OfferEntry) : OrderBookGraph :=
  fold_left (fun g offer => with_batch (batch_addOffer (batchedUpdates g) offer) g) offers g.

Definition AddLiquidityPools (g : OrderBookGraph) (pools : list LiquidityPoolEntry) : OrderBookGraph :=
  fold_left (fun g lp => with_batch (batch_addLiquidityPool (batchedUpdates g) lp) g) pools g.

Definition RemoveOffer (g : OrderBookGraph) (offerID : Z) : OrderBookGraph :=
  with_batch (batch_removeOffer (batchedUpdates g) offerID) g.

Definition RemoveLiquidityPool (g : OrderBookGraph) (pool : LiquidityPoolEntry) : OrderBookGraph :=
  with_batch (batch_removeLiquidityPool (batchedUpdates g) pool) g.

Definition Discard (g : OrderBookGraph) : OrderBookGraph := with_batch batch g.

Definition Offers (g : OrderBookGraph) : list OfferEntry :=
  concat (map (fun edges => concat (map (fun e => offers (value e)) edges)) (venuesForSellingAsset g)).

Definition LiquidityPools (g : OrderBookGraph) : list LiquidityPoolEntry :=
  (map_to_list (liquidityPools g)).*2.

Definition IsEmpty (g : OrderBookGraph) : bool :=
  Nat.eqb (size (liquidityPools g)) 0 && Nat.eqb (size (tradingPairForOffer g)) 0.

(** ** graph.go: interning of assets *)

Definition getOrCreateAssetID (g : OrderBookGraph) (asset : Asset.t) : res (OrderBookGraph * Z) :=
  let assetString := Asset.String_ asset in
  match assetStringToID g !! assetString with
  | Some id => Ok (g, id)
  | None =>
      '(g, id) ← match last (vacantIDs g) with
        | Some id =>
            ids ← assign (idToAssetString g) id assetString;
            Ok (with_names ids (assetStringToID g)
                  (take (length (vacantIDs g) - 1) (vacantIDs g)) g, id)
        | None =>
            let id := to_int32 (Z.of_nat (length (idToAssetString g))) in
            let g' := with_names (idToAssetString g ++ [assetString]) (assetStringToID g)
                        (vacantIDs g) g in
            Ok (with_tables (venuesForBuyingAsset g ++ [[]]) (venuesForSellingAsset g ++ [[]]) g', id)
        end;
      Ok (with_names (idToAssetString g) (<[assetString := id]> (assetStringToID g)) (vacantIDs g) g, id)
  end.

Definition maybeDeleteAsset (g : OrderBookGraph) (asset : Z) : res OrderBookGraph :=
  b ← index (venuesForBuyingAsset g) asset;
  s ← index (venuesForSellingAsset g) asset;
  if Nat.eqb (length b) 0 && Nat.eqb (length s) 0 then
    name ← index (idToAssetString g) asset;
    ids ← assign (idToAssetString g) asset "";
    Ok (with_names ids (delete name (assetStringToID g)) (vacantIDs g ++ [asset]) g)
  else Ok g.

(** ** graph.go: offers *)

Definition removeOffer (g : OrderBookGraph) (offerID : Z) : res OrderBookGraph :=
  match tradingPairForOffer g !! offerID with
  | None => Err errOfferNotPresent
  | Some tp =>
      let g := with_pairs (delete offerID (tradingPairForOffer g)) g in
      selling ← index (venuesForSellingAsset g) (sellingAsset tp);
      let '(set, ok) := Edges.removeOffer selling (buyingAsset tp) offerID in
      if negb ok then Err errOfferNotPresent else
      tbl ← assign (venuesForSellingAsset g) (sellingAsset tp) set;
      let g := with_tables (venuesForBuyingAsset g) tbl g in
      buying ← index (venuesForBuyingAsset g) (buyingAsset tp);
      let '(set, ok) := Edges.removeOffer buying (sellingAsset tp) offerID in
      if negb ok then Err errOfferNotPresent else
      tbl ← assign (venuesForBuyingAsset g) (buyingAsset tp) set;
      let g := with_tables tbl (venuesForSellingAsset g) g in
      g ← maybeDeleteAsset g (buyingAsset tp);
      maybeDeleteAsset g (sellingAsset tp)
  end.

Definition addOffer (g : OrderBookGraph) (offer : OfferEntry) : res OrderBookGraph :=
  g ← match tradingPairForOffer g !! OfferId offer with
      | Some _ =>
          match removeOffer g (OfferId offer) with
          | Err _ => Err "could not update offer in order book graph"
          | r => r
          end
      | None => Ok g
      end;
  '(g, buying) ← getOrCreateAssetID g (Buying offer);
  '(g, selling) ← getOrCreateAssetID g (Selling offer);
  let g := with_pairs (<[OfferId offer := mkPair buying selling]> (tradingPairForOffer g)) g in
  s ← update_table (venuesForSellingAsset g) selling (fun e => Edges.addOffer e buying offer);
  let g := with_tables (venuesForBuyingAsset g) s g in
  b ← update_table (venuesForBuyingAsset g) buying (fun e => Edges.addOffer e selling offer);
  Ok (with_tables b (venuesForSellingAsset g) g).

(** ** utils.go and graph.go: pools *)

Definition getPoolAssets (pool : LiquidityPoolEntry) : res (Asset.t * Asset.t) :=
  cp ← MustConstantProduct pool; Ok (AssetA cp, AssetB cp).

Definition poolFromEntry (g : OrderBookGraph) (poolXDR : LiquidityPoolEntry)
  : res (OrderBookGraph * liquidityPool) :=
  '(aXDR, bXDR) ← getPoolAssets poolXDR;
  '(g, assetA) ← getOrCreateAssetID g aXDR;
  '(g, assetB) ← getOrCreateAssetID g bXDR;
  Ok (g, mkPool poolXDR assetA assetB).

(** The body of the loop over the two tables. *)
Definition addPool_table (table : list edgeSet) (pool : liquidityPool) : res (list edgeSet) :=
  table ← update_table table (assetA pool) (fun e => Edges.addPool e (assetB pool) pool);
  update_table table (assetB pool) (fun e => Edges.addPool e (assetA pool) pool).

Definition addPool (g : OrderBookGraph) (poolXDR : LiquidityPoolEntry) : res OrderBookGraph :=
  '(g, pool) ← poolFromEntry g poolXDR;
  let g := with_pools (<[mkPair (assetA pool) (assetB pool) := poolEntry pool]> (liquidityPools g)) g in
  b ← addPool_table (venuesForBuyingAsset g) pool;
  s ← addPool_table (venuesForSellingAsset g) pool;
  Ok (with_tables b s g).

(** One iteration of the loop over the two assets, for both tables. *)
Definition removePool_asset (g : OrderBookGraph) (assetA assetB asset : Z) : res OrderBookGraph :=
  let otherAsset := if asset =? assetB then assetA else assetB in
  b ← update_table (venuesForBuyingAsset g) asset (fun e => Edges.removePool e otherAsset);
  s ← update_table (venuesForSellingAsset g) asset (fun e => Edges.removePool e otherAsset);
  Ok (with_tables b s g).

Definition removePool (g : OrderBookGraph) (poolXDR : LiquidityPoolEntry) : res OrderBookGraph :=
  '(aXDR, bXDR) ← getPoolAssets poolXDR;
  '(g, assetA) ← getOrCreateAssetID g aXDR;
  '(g, assetB) ← getOrCreateAssetID g bXDR;
  g ← removePool_asset g assetA assetB assetA;
  g ← removePool_asset g assetA assetB assetB;
  let g := with_pools (delete (mkPair assetA assetB) (liquidityPools g)) g in
  g ← maybeDeleteAsset g assetA;
  maybeDeleteAsset g assetB.

(** ** batch.go: committing a batch *)

Definition deref {A} (p : option A) : res A :=
  match p with Some x => Ok x | None => Panic "nil pointer dereference" end.

Definition must {A} (r : res A) : res A :=
  match r with Err _ => Panic "could not apply update in batch" | r => r end.

(** One iteration of the loop over the operations; the second component is the
    set of pairs to reallocate. *)
Definition apply_operation (st : OrderBookGraph * gset tradingPair) (op : orderBookOperation)
  : res (OrderBookGraph * gset tradingPair) :=
  let '(g, reallocatePairs) := st in
  if operationType op =? addOfferOperationType then
    offer ← deref (op_offer op);
    g ← must (addOffer g offer); Ok (g, reallocatePairs)
  else if operationType op =? removeOfferOperationType then
    match tradingPairForOffer g !! op_offerID op with
    | None => Ok (g, reallocatePairs)
    | Some tp =>
        g ← must (removeOffer g (op_offerID op)); Ok (g, {[tp]} ∪ reallocatePairs)
    end
  else if operationType op =? addLiquidityPoolOperationType then
    p ← deref (op_liquidityPool op); g ← addPool g p; Ok (g, reallocatePairs)
  else if operationType op =? removeLiquidityPoolOperationType then
    p ← deref (op_liquidityPool op); g ← removePool g p; Ok (g, reallocatePairs)
  else Panic "invalid operation type".

Fixpoint apply_operations (st : OrderBookGraph * gset tradingPair) (ops : list orderBookOperation)
  : res (OrderBookGraph * gset tradingPair) :=
  match ops with
  | [] => Ok st
  | op :: ops => st ← apply_operation st op; apply_operations st ops
  end.

Fixpoint reallocate_pairs (g : OrderBookGraph) (pairs : list tradingPair) : res OrderBookGraph :=
  match pairs with
  | [] => Ok g
  | tp :: pairs =>
      s ← update_table (venuesForSellingAsset g) (sellingAsset tp) Edges.reallocate;
      b ← update_table (venuesForBuyingAsset g) (buyingAsset tp) Edges.reallocate;
      reallocate_pairs (with_tables b s g) pairs
  end.

(** [tx.apply(ledger)] for the graph's own batch: the new state and the error
    returned, if any; misuse panics. *)
Definition apply (g : OrderBookGraph) (ledger : Z) : res (OrderBookGraph * option error) :=
  let tx := batchedUpdates g in
  if committed tx then Panic errBatchAlreadyApplied else
  let g := with_batch (mkBatch (operations tx) true) g in
  if (lastLedger g >? 0) && (ledger <=? lastLedger g) then Ok (g, Some errUnexpectedLedger) else
  '(g, reallocatePairs) ← apply_operations (g, ∅) (operations tx);
  let g := with_ledger ledger g in
  g ← reallocate_pairs g (elements reallocatePairs);
  Ok (g, None).

Definition Apply (g : OrderBookGraph) (ledger : Z) : res (OrderBookGraph * option error) :=
  '(g, err) ← apply g ledger;
  match err with
  | Some e => Ok (g, Some e)
  | None => Ok (with_batch batch g, None)
  end.

(** ** graph.go: Verify *)

Definition assertOffersEqual (o offer : OfferEntry) : res unit :=
  if negb (bool_decide (Price_ o = Price_ offer)) then Err "expected offer price to match" else
  if negb (Amount_ o =? Amount_ offer) then Err "expected offer amount to match" else
  if negb (Asset.Equals (Buying o) (Buying offer)) then Err "expected offer buying asset to match" else
  if negb (Asset.Equals (Selling o) (Selling offer)) then Err "expected offer selling asset to match" else
  Ok tt.

Definition assertPoolsEqual (p pool : LiquidityPoolEntry) : res unit :=
  if negb (bool_decide (LiquidityPoolId p = LiquidityPoolId pool)) then Err "expected pool id to match" else
  constantProductPool ← MustConstantProduct p;
  other ← MustConstantProduct pool;
  if negb (Asset.Equals (AssetA constantProductPool) (AssetA other)) then Err "expected pool asset a to match" else
  if negb (Asset.Equals (AssetB constantProductPool) (AssetB other)) then Err "expected pool asset b to match" else
  if negb (Fee constantProductPool =? Fee other) then Err "expected pool fee to match" else
  if negb (ReserveA constantProductPool =? ReserveA other) then Err "expected pool reserveA to match" else
  if negb (ReserveB constantProductPool =? ReserveB other) then Err "expected pool reserveB to match" else
  Ok tt.

(** What [Verify] accumulates. *)
Record verifyState := mkVerify {
  vs_offers : list OfferEntry;
  vs_pools : list LiquidityPoolEntry;
  vs_poolSet : gmap (list Z) LiquidityPoolEntry;
  vs_offerSet : gmap Z OfferEntry
}.

(** The asset checks of both loops: the first offer against the names of the
    ids, each later offer against its predecessor. *)
Definition verify_offer_assets (prev : option OfferEntry) (offer : OfferEntry)
  (buyingAssetString sellingAssetString : string) : res unit :=
  match prev with
  | None =>
      if negb (String.eqb (Asset.String_ (Buying offer)) buyingAssetString)
      then Err "offer buying asset does not match expected" else
      if negb (String.eqb (Asset.String_ (Selling offer)) sellingAssetString)
      then Err "offer selling asset does not match expected" else Ok tt
  | Some q =>
      if negb (Asset.Equals (Buying offer) (Buying q))
      then Err "offer buying asset does not match expected" else
      if negb (Asset.Equals (Selling offer) (Selling q))
      then Err "offer selling asset does not match expected" else Ok tt
  end.

(** The loop over the offers of an edge of [venuesForSellingAsset]. *)
Fixpoint verify_selling_offers (g : OrderBookGraph) (sellingAsset_ key_ : Z)
  (sellingAssetString buyingAssetString : string) (prev : option OfferEntry)
  (os : list OfferEntry) (st : verifyState) : res verifyState :=
  match os with
  | [] => Ok st
  | offer :: os =>
      match vs_offerSet st !! OfferId offer with
      | Some _ => Err "offer is present more than once"
      | None =>
          let tp := default (mkPair 0 0) (tradingPairForOffer g !! OfferId offer) in
          if negb (sellingAsset tp =? sellingAsset_)
          then Err "trading pair does not match selling asset id" else
          if negb (buyingAsset tp =? key_)
          then Err "trading pair does not match buying asset id" else
          _ ← verify_offer_assets prev offer buyingAssetString sellingAssetString;
          verify_selling_offers g sellingAsset_ key_ sellingAssetString buyingAssetString (Some offer) os
            (mkVerify (vs_offers st ++ [offer]) (vs_pools st) (vs_poolSet st)
               (<[OfferId offer := offer]> (vs_offerSet st)))
      end
  end.

(** The checks of a pool on the edge [key_] of [asset]; the error of
    [assertPoolsEqual] is discarded, a panic inside it is not. *)
Definition verify_pool (g : OrderBookGraph) (asset key_ : Z) (p : liquidityPool) : res unit :=
  _ ← (if assetA p =? asset then
         if negb (assetB p =? key_) then Err "pool assetB does not match edge" else Ok tt
       else if assetB p =? asset then
         if negb (assetA p =? key_) then Err "pool assetA does not match edge" else Ok tt
       else Err "pool assets does not match sellingAsset");
  let tp := mkPair (assetA p) (assetB p) in
  _ ← match assertPoolsEqual (poolEntry p)
        (default (mkPoolEntry (replicate 32 0) 0 None) (liquidityPools g !! tp)) with
      | Panic m => Panic m
      | _ => Ok tt
      end;
  params ← deref (BodyConstantProduct (poolEntry p));
  if negb (default 0 (assetStringToID g !! Asset.String_ (AssetA params)) =? buyingAsset tp)
  then Err "pool asset A does not match asset id" else
  if negb (default 0 (assetStringToID g !! Asset.String_ (AssetB params)) =? sellingAsset tp)
  then Err "pool asset B does not match asset id" else Ok tt.

Definition verify_selling_edge (g : OrderBookGraph) (sellingAsset_ : Z) (sellingAssetString : string)
  (st : verifyState) (x : edge) : res verifyState :=
  buyingAssetString ← index (idToAssetString g) (key x);
  st ← verify_selling_offers g sellingAsset_ (key x) sellingAssetString buyingAssetString None
         (offers (value x)) st;
  if has_pool (value x) then
    let p := pool (value x) in
    _ ← verify_pool g sellingAsset_ (key x) p;
    let id := LiquidityPoolId (poolEntry p) in
    match vs_poolSet st !! id with
    | None => Ok (mkVerify (vs_offers st) (vs_pools st ++ [poolEntry p])
                    (<[id := poolEntry p]> (vs_poolSet st)) (vs_offerSet st))
    | Some _ => Ok st
    end
  else Ok st.

Fixpoint res_fold {A B} (f : A -> B -> res A) (acc : A) (l : list B) : res A :=
  match l with
  | [] => Ok acc
  | x :: l => acc ← f acc x; res_fold f acc l
  end.

(** The body of the first loop, for the id at index [i]. *)
Definition verify_selling_asset (g : OrderBookGraph) (acc : verifyState * gset Z)
  (entry : nat * edgeSet) : res (verifyState * gset Z) :=
  let '(st, vacantSet) := acc in
  let '(i, edges) := entry in
  let sellingAsset_ := to_int32 (Z.of_nat i) in
  sellingAssetString ← index (idToAssetString g) (Z.of_nat i);
  let empty := String.eqb sellingAssetString "" in
  let vacantSet := if empty then {[sellingAsset_]} ∪ vacantSet else vacantSet in
  if empty && Nat.eqb (length edges) 0 then Ok (st, vacantSet) else
  if empty && negb (Nat.eqb (length edges) 0) then Err "found vacant id with non empty edges" else
  match assetStringToID g !! sellingAssetString with
  | None => Err "asset string is not in graph.assetStringToID"
  | Some id =>
      if negb (id =? sellingAsset_) then Err "asset string maps to another id" else
      st ← res_fold (verify_selling_edge g sellingAsset_ sellingAssetString) st edges;
      Ok (st, vacantSet)
  end.

(** The loop over the offers of an edge of [venuesForBuyingAsset]. *)
Fixpoint verify_buying_offers (buyingAssetString sellingAssetString : string)
  (prev : option OfferEntry) (os : list OfferEntry) (offerSet : gmap Z OfferEntry)
  : res (gmap Z OfferEntry) :=
  match os with
  | [] => Ok offerSet
  | offer :: os =>
      match offerSet !! OfferId offer with
      | None => Err "expected offer to be present"
      | Some o =>
          _ ← assertOffersEqual o offer;
          _ ← verify_offer_assets prev offer buyingAssetString sellingAssetString;
          verify_buying_offers buyingAssetString sellingAssetString (Some offer) os
            (delete (OfferId offer) offerSet)
      end
  end.

Definition verify_buying_edge (g : OrderBookGraph) (poolSet : gmap (list Z) LiquidityPoolEntry)
  (buyingAsset_ : Z) (buyingAssetString : string) (offerSet : gmap Z OfferEntry) (x : edge)
  : res (gmap Z OfferEntry) :=
  sellingAssetString ← index (idToAssetString g) (key x);
  offerSet ← verify_buying_offers buyingAssetString sellingAssetString None (offers (value x)) offerSet;
  if has_pool (value x) then
    let p := pool (value x) in
    _ ← verify_pool g buyingAsset_ (key x) p;
    match poolSet !! LiquidityPoolId (poolEntry p) with
    | None => Err "expected pool to be present"
    | Some _ => Ok offerSet
    end
  else Ok offerSet.

(** The body of the second loop, for the id at index [i]. *)
Definition verify_buying_asset (g : OrderBookGraph) (poolSet : gmap (list Z) LiquidityPoolEntry)
  (offerSet : gmap Z OfferEntry) (entry : nat * edgeSet) : res (gmap Z OfferEntry) :=
  let '(i, edges) := entry in
  buyingAssetString ← index (idToAssetString g) (Z.of_nat i);
  let empty := String.eqb buyingAssetString "" in
  if empty && Nat.eqb (length edges) 0 then Ok offerSet else
  if empty && negb (Nat.eqb (length edges) 0) then Err "found vacant id with non empty edges" else
  res_fold (verify_buying_edge g poolSet (to_int32 (Z.of_nat i)) buyingAssetString) offerSet edges.

Definition Verify (g : OrderBookGraph) : res (list OfferEntry * list LiquidityPoolEntry) :=
  if negb (Nat.eqb (length (venuesForSellingAsset g)) (length (venuesForBuyingAsset g)))
  then Err "len(graph.venuesForSellingAsset) does not match len(graph.venuesForBuyingAsset)" else
  if negb (Nat.eqb (length (venuesForSellingAsset g)) (length (idToAssetString g)))
  then Err "len(graph.venuesForSellingAsset) does not match len(graph.idToAssetString)" else
  '(st, vacantSet) ← res_fold (verify_selling_asset g) (mkVerify [] [] ∅ ∅, ∅)
      (imap pair (venuesForSellingAsset g));
  if negb (Nat.eqb (size (vs_offerSet st)) (size (tradingPairForOffer g)))
  then Err "expected number of offers to match trading pairs for offer size" else
  offerSet ← res_fold (verify_buying_asset g (vs_poolSet st)) (vs_offerSet st)
      (imap pair (venuesForBuyingAsset g));
  if negb (Nat.eqb (size offerSet) 0) then Err "expected all offers to be matched" else
  if negb (Nat.eqb (length (vacantIDs g)) (size vacantSet))
  then Err "expected vacant ids to match vacant set" else
  if negb (forallb (fun v => bool_decide (v ∈ vacantSet)) (vacantIDs g))
  then Err "expected vacant ids to match vacant set" else
  Ok (vs_offers st, vs_pools st).

End Graph.
