(* ===== verification/GraphRefine.v ===== *)
(** * Refinement of the order book graph

    The abstract order book is a map from offer ids to offers and a map from
    asset pairs to pools.  [repr] relates a graph to the abstract book it
    stands for; every operation of graph.go and batch.go is shown to preserve
    the relation with the evident update of the maps. *)
From S2P Require Import Prelude Price Xdr Pools Edges Graph.
Local Open Scope Z_scope.

Module GraphRefine.
Import Pools Edges Graph.

(** ** The abstract order book *)

Definition pool_key (p : LiquidityPoolEntry) : string * string :=
  match BodyConstantProduct p with
  | Some cp => (Asset.String_ (AssetA cp), Asset.String_ (AssetB cp))
  | None => (EmptyString, EmptyString)
  end.

Abbreviation offer_map := (gmap Z OfferEntry).
Abbreviation pool_map := (gmap (string * string) LiquidityPoolEntry).

(** Entries of a ledger: positive prices, two different assets, pools with
    their assets in order. *)
Record offer_valid (o : OfferEntry) : Prop := {
  ov_price : Price.positive (Price_ o);
  ov_selling : Asset.wf (Selling o);
  ov_buying : Asset.wf (Buying o);
  ov_distinct : Selling o <> Buying o
}.

Record pool_valid (p : LiquidityPoolEntry) (cp : ConstantProduct) : Prop := {
  pv_type : BodyType p = 0;
  pv_body : BodyConstantProduct p = Some cp;
  pv_A : Asset.wf (AssetA cp);
  pv_B : Asset.wf (AssetB cp);
  pv_order : Asset.LessThan (AssetA cp) (AssetB cp) = true
}.

(** Reduces projections of explicit graphs only. *)
Ltac gfields :=
  cbn [with_names with_tables with_pools with_pairs with_batch with_ledger
       idToAssetString assetStringToID vacantIDs venuesForBuyingAsset venuesForSellingAsset
       liquidityPools tradingPairForOffer batchedUpdates lastLedger].

(** ** Views of the tables *)

Definition E (tbl : list edgeSet) (i : Z) : edgeSet :=
  if i <? 0 then [] else default [] (tbl !! Z.to_nat i).
Definition name (ids : list string) (i : Z) : string :=
  if i <? 0 then EmptyString else default EmptyString (ids !! Z.to_nat i).
Definition sid (m : gmap string Z) (a : Asset.t) : option Z := m !! Asset.String_ a.

Definition sells (f : Asset.t -> option Z) (o : OfferEntry) (i k : Z) : Prop :=
  f (Selling o) = Some i /\ f (Buying o) = Some k.

Definition pool_ids (f : Asset.t -> option Z) (e : LiquidityPoolEntry) (a b : Z) : Prop :=
  exists cp, BodyConstantProduct e = Some cp /\ f (AssetA cp) = Some a /\ f (AssetB cp) = Some b.

Definition between (p : liquidityPool) (i k : Z) : Prop :=
  (i = assetA p /\ k = assetB p) \/ (i = assetB p /\ k = assetA p).

(** The assets an abstract book mentions. *)
Inductive used (O : offer_map) (P : pool_map) : Asset.t -> Prop :=
| used_selling id o : O !! id = Some o -> used O P (Selling o)
| used_buying id o : O !! id = Some o -> used O P (Buying o)
| used_A k p cp : P !! k = Some p -> BodyConstantProduct p = Some cp -> used O P (AssetA cp)
| used_B k p cp : P !! k = Some p -> BodyConstantProduct p = Some cp -> used O P (AssetB cp).

(** What the edge sets and the two maps say, given the interning [f]. *)
Record content (f : Asset.t -> option Z) (sell buy : Z -> edgeSet)
  (lp : gmap tradingPair LiquidityPoolEntry) (tp : gmap Z tradingPair)
  (O : offer_map) (P : pool_map) : Prop := {
  c_wf_sell i : wf (sell i);
  c_wf_buy i : wf (buy i);
  c_sym i k : venue (sell i) k = venue (buy k) i;
  c_offers i k o : o ∈ offers (venue (sell i) k) <-> O !! OfferId o = Some o /\ sells f o i k;
  c_pools i k p : BodyConstantProduct (poolEntry p) <> None ->
    pool (venue (sell i) k) = p <->
    P !! pool_key (poolEntry p) = Some (poolEntry p) /\
    pool_ids f (poolEntry p) (assetA p) (assetB p) /\ between p i k;
  c_lp a b e : lp !! mkPair a b = Some e <-> P !! pool_key e = Some e /\ pool_ids f e a b;
  c_tp id t : tp !! id = Some t <->
    exists o, O !! id = Some o /\ sells f o (sellingAsset t) (buyingAsset t);
  c_O id o : O !! id = Some o -> OfferId o = id /\ offer_valid o;
  c_P k e : P !! k = Some e -> pool_key e = k /\ exists cp, pool_valid e cp;
  c_used a : used O P a -> is_Some (f a)
}.

(** The interning tables; the ids in [X] may lack edges for the moment. *)
Record interning (g : OrderBookGraph) (X : list Z) : Prop := {
  n_buy : length (venuesForBuyingAsset g) = length (idToAssetString g);
  n_sell : length (venuesForSellingAsset g) = length (idToAssetString g);
  n_map s i : assetStringToID g !! s = Some i <-> s <> EmptyString /\ name (idToAssetString g) i = s;
  n_nodup : NoDup (vacantIDs g);
  n_vacant i : i ∈ vacantIDs g <->
    0 <= i < Z.of_nat (length (idToAssetString g)) /\ name (idToAssetString g) i = EmptyString;
  n_used i : i ∉ X -> name (idToAssetString g) i <> EmptyString ->
    E (venuesForSellingAsset g) i <> [] \/ E (venuesForBuyingAsset g) i <> []
}.

Definition contents (g : OrderBookGraph) : offer_map -> pool_map -> Prop :=
  content (sid (assetStringToID g)) (E (venuesForSellingAsset g)) (E (venuesForBuyingAsset g))
    (liquidityPools g) (tradingPairForOffer g).

(** The graph [g] represents the offers [O] and the pools [P]. *)
Definition repr_upto (g : OrderBookGraph) (O : offer_map) (P : pool_map) (X : list Z) : Prop :=
  interning g X /\ contents g O P.
Definition repr (g : OrderBookGraph) (O : offer_map) (P : pool_map) : Prop := repr_upto g O P [].

(** ** Tables *)

Lemma E_out tbl i : i < 0 \/ Z.of_nat (length tbl) <= i -> E tbl i = [].
Proof.
  intros H. unfold E. destruct (Z.ltb_spec i 0); [done|].
  by rewrite lookup_ge_None_2 by lia.
Qed.

Lemma index_E tbl i : 0 <= i < Z.of_nat (length tbl) -> index tbl i = Ok (E tbl i).
Proof.
  intros H. unfold index, E. destruct (Z.ltb_spec i 0); [lia|].
  destruct (lookup_lt_is_Some_2 tbl (Z.to_nat i)) as [x ->]; [lia|done].
Qed.

Lemma index_name ids i : 0 <= i < Z.of_nat (length ids) -> index ids i = Ok (name ids i).
Proof.
  intros H. unfold index, name. destruct (Z.ltb_spec i 0); [lia|].
  destruct (lookup_lt_is_Some_2 ids (Z.to_nat i)) as [x ->]; [lia|done].
Qed.

Lemma assign_Ok {A} (l : list A) i x : 0 <= i < Z.of_nat (length l) ->
  assign l i x = Ok (<[Z.to_nat i := x]> l).
Proof.
  intros H. unfold assign. destruct (Z.ltb_spec i 0), (Z.leb_spec (Z.of_nat (length l)) i); (lia || done).
Qed.

Lemma E_insert tbl i e j : 0 <= i < Z.of_nat (length tbl) ->
  E (<[Z.to_nat i := e]> tbl) j = if j =? i then e else E tbl j.
Proof.
  intros H. unfold E. destruct (Z.ltb_spec j 0), (Z.eqb_spec j i) as [->|]; try lia; try done.
  - by rewrite list_lookup_insert_eq by lia.
  - by rewrite list_lookup_insert_ne by lia.
Qed.

Lemma name_insert ids i s j : 0 <= i < Z.of_nat (length ids) ->
  name (<[Z.to_nat i := s]> ids) j = if j =? i then s else name ids j.
Proof.
  intros H. unfold name. destruct (Z.ltb_spec j 0), (Z.eqb_spec j i) as [->|]; try lia; try done.
  - by rewrite list_lookup_insert_eq by lia.
  - by rewrite list_lookup_insert_ne by lia.
Qed.

Lemma update_table_Ok tbl i f : 0 <= i < Z.of_nat (length tbl) ->
  exists tbl', update_table tbl i f = Ok tbl' /\ length tbl' = length tbl /\
    forall j, E tbl' j = if j =? i then f (E tbl i) else E tbl j.
Proof.
  intros H. unfold update_table. rewrite index_E, bind_Ok_l, assign_Ok by done.
  eexists. split; [done|]. split; [by rewrite length_insert|]. intros j. by apply E_insert.
Qed.

Lemma name_out ids i : i < 0 \/ Z.of_nat (length ids) <= i -> name ids i = EmptyString.
Proof.
  intros H. unfold name. destruct (Z.ltb_spec i 0); [done|].
  by rewrite lookup_ge_None_2 by lia.
Qed.

Lemma name_in_range ids i : name ids i <> EmptyString -> 0 <= i < Z.of_nat (length ids).
Proof.
  intros H. destruct (decide (0 <= i < Z.of_nat (length ids))); [done|].
  destruct H. apply name_out. lia.
Qed.

Lemma sid_range g X a i : interning g X -> sid (assetStringToID g) a = Some i ->
  0 <= i < Z.of_nat (length (idToAssetString g)) /\ name (idToAssetString g) i = Asset.String_ a.
Proof.
  intros HI H. apply (n_map _ _ HI) in H as [H1 H2]. split; [|done].
  apply name_in_range. by rewrite H2.
Qed.

Lemma sid_inj g X a b i : interning g X -> sid (assetStringToID g) a = Some i ->
  sid (assetStringToID g) b = Some i -> Asset.String_ a = Asset.String_ b.
Proof.
  intros HI Ha Hb. apply (sid_range _ _ _ _ HI) in Ha as [_ <-].
  by apply (sid_range _ _ _ _ HI) in Hb as [_ <-].
Qed.

(** ** Content: transfer and updates *)

Lemma used_selling_of f sell buy lp tp O P o id :
  content f sell buy lp tp O P -> O !! id = Some o -> exists s b, sells f o s b.
Proof.
  intros C H. destruct (c_used _ _ _ _ _ _ _ C _ (used_selling O P id o H)) as [s Hs].
  destruct (c_used _ _ _ _ _ _ _ C _ (used_buying O P id o H)) as [b Hb]. by exists s, b.
Qed.

Lemma content_ext f f' sell sell' buy buy' lp tp O P :
  content f sell buy lp tp O P ->
  (forall a, used O P a -> f' a = f a) -> (forall i, sell' i = sell i) -> (forall i, buy' i = buy i) ->
  content f' sell' buy' lp tp O P.
Proof.
  intros C Hf Hs Hb.
  assert (Hsells : forall id o i k, O !! id = Some o -> sells f' o i k <-> sells f o i k).
  { intros id o i k HO. unfold sells.
    by rewrite (Hf _ (used_selling O P id o HO)), (Hf _ (used_buying O P id o HO)). }
  assert (Hpool : forall k e a b, P !! k = Some e -> pool_ids f' e a b <-> pool_ids f e a b).
  { intros k e a b HP. unfold pool_ids. split; intros (cp & E1 & E2 & E3); exists cp;
    rewrite (Hf _ (used_A O P k e cp HP E1)), (Hf _ (used_B O P k e cp HP E1)) in *; done. }
  destruct C. split; try (intros i; rewrite ?Hs, ?Hb; done).
  - intros i k. by rewrite Hs, Hb.
  - intros i k o. rewrite Hs, c_offers0. split; intros [H1 H2]; (split; [done|]); by apply (Hsells _ _ _ _ H1).
  - intros i k p Hp. rewrite Hs, c_pools0 by done.
    split; intros (H1 & H2 & H3); (split_and!; [done| |done]); by apply (Hpool _ _ _ _ H1).
  - intros a b e. rewrite c_lp0. split; intros [H1 H2]; (split; [done|]); by apply (Hpool _ _ _ _ H1).
  - intros id t. rewrite c_tp0. split; intros (o & H1 & H2); exists o; (split; [done|]);
      by apply (Hsells _ _ _ _ H1).
  - done.
  - done.
  - intros a Ha. rewrite Hf by done. auto.
Qed.

(** A venue of the table with one edge set replaced, at one key. *)
Definition at_pair (i k s b : Z) : bool := (i =? s) && (k =? b).

Lemma at_pair_spec i k s b : reflect (i = s /\ k = b) (at_pair i k s b).
Proof. unfold at_pair. destruct (Z.eqb_spec i s), (Z.eqb_spec k b); constructor; naive_solver. Qed.

Lemma venue_if (c : bool) e1 e2 k : venue (if c then e1 else e2) k = if c then venue e1 k else venue e2 k.
Proof. by destruct c. Qed.

Lemma elem_of_ids o os : o ∈ os -> OfferId o ∈ ids os.
Proof. intros H. unfold ids. rewrite list_elem_of_In, in_map_iff. exists o. by rewrite <- list_elem_of_In. Qed.

Lemma ids_elem_of id os : id ∈ ids os -> exists o, o ∈ os /\ OfferId o = id.
Proof.
  unfold ids. rewrite list_elem_of_In, in_map_iff. intros (o & <- & H). exists o.
  by rewrite list_elem_of_In.
Qed.

Lemma content_add_offer f sell buy lp tp O P o s b :
  content f sell buy lp tp O P ->
  offer_valid o -> O !! OfferId o = None -> sells f o s b ->
  content f (fun i => if i =? s then Edges.addOffer (sell s) b o else sell i)
    (fun k => if k =? b then Edges.addOffer (buy b) s o else buy k)
    lp (<[OfferId o := mkPair b s]> tp) (<[OfferId o := o]> O) P.
Proof.
  intros C Hv Hnone Hsb. pose proof (ov_price _ Hv) as Hpr.
  assert (Hfresh : OfferId o ∉ ids (offers (venue (sell s) b))).
  { intros (o' & H1 & H2)%ids_elem_of. apply (c_offers _ _ _ _ _ _ _ C) in H1 as [H1 _]. congruence. }
  assert (Hsell : forall i k, venue (if i =? s then Edges.addOffer (sell s) b o else sell i) k =
    if at_pair i k s b then mkVenues (insert_offer o (offers (venue (sell s) b))) (pool (venue (sell s) b))
    else venue (sell i) k).
  { intros i k. unfold at_pair. destruct (Z.eqb_spec i s) as [->|]; simpl; [|done].
    apply addOffer_venue; [apply C|done]. }
  pose proof (c_sym _ _ _ _ _ _ _ C) as Hsym. destruct C. split.
  - intros i. case_match; [by apply addOffer_wf|done].
  - intros k. case_match; [|done]. apply addOffer_wf; [done..|]. by rewrite <- Hsym.
  - intros i k. rewrite Hsell, venue_if, addOffer_venue by done. unfold at_pair.
    destruct (Z.eqb_spec i s) as [->|], (Z.eqb_spec k b) as [->|]; simpl; by rewrite Hsym.
  - intros i k o'. rewrite Hsell. destruct (at_pair_spec i k s b) as [[-> ->]|Hne]; cbn [offers].
    + rewrite insert_offer_Permutation, elem_of_cons, c_offers0.
      destruct (decide (OfferId o' = OfferId o)) as [Eid|Eid].
      * rewrite Eid, lookup_insert_eq. split; [intros [->|[? _]]; [done|congruence]|].
        intros [[= ->] _]. by left.
      * rewrite lookup_insert_ne by congruence. naive_solver.
    + rewrite c_offers0. destruct (decide (OfferId o' = OfferId o)) as [Eid|Eid].
      * rewrite Eid, lookup_insert_eq, Hnone. split; [by intros [? _]|].
        intros [[= ->] [E1 E2]]. destruct Hsb. destruct Hne. split; congruence.
      * by rewrite lookup_insert_ne by congruence.
  - intros i k p Hp. rewrite Hsell. destruct (at_pair_spec i k s b) as [[-> ->]|]; cbn [pool]; by apply c_pools0.
  - done.
  - intros id t. destruct (decide (id = OfferId o)) as [->|Hid].
    + rewrite !lookup_insert_eq. split.
      * intros [= <-]. by exists o.
      * intros (o' & [= <-] & [E1 E2]). destruct Hsb. destruct t; simpl in *. congruence.
    + rewrite !lookup_insert_ne by done. apply c_tp0.
  - intros id o'. destruct (decide (id = OfferId o)) as [->|Hid].
    + rewrite lookup_insert_eq. by intros [= <-].
    + rewrite lookup_insert_ne by done. apply c_O0.
  - done.
  - intros a Ha. assert (used O P a \/ a = Selling o \/ a = Buying o) as [?|[->| ->]].
    { destruct Ha as [id o' H|id o' H|k p cp H1 H2|k p cp H1 H2];
        [| |left; by econstructor|left; by econstructor];
        destruct (decide (id = OfferId o)) as [->|Hid];
        (rewrite lookup_insert_eq in H || rewrite lookup_insert_ne in H by done);
        try (injection H as <-; auto); left; by econstructor. }
    + auto.
    + destruct Hsb as [-> _]; eauto.
    + destruct Hsb as [_ ->]; eauto.
Qed.

Lemma used_delete_offer O P id a : used (delete id O) P a -> used O P a.
Proof.
  intros [id' o H|id' o H|k p cp H1 H2|k p cp H1 H2];
    [apply lookup_delete_Some in H as [_ H]; by econstructor
    |apply lookup_delete_Some in H as [_ H]; by econstructor|by econstructor|by econstructor].
Qed.

Lemma content_remove_offer f sell buy lp tp O P id o s b es eb :
  content f sell buy lp tp O P ->
  O !! id = Some o -> sells f o s b -> wf es -> wf eb ->
  (forall k, venue es k = if k =? b then
     mkVenues (remove_id id (offers (venue (sell s) b))) (pool (venue (sell s) b)) else venue (sell s) k) ->
  (forall k, venue eb k = if k =? s then
     mkVenues (remove_id id (offers (venue (buy b) s))) (pool (venue (buy b) s)) else venue (buy b) k) ->
  content f (fun i => if i =? s then es else sell i) (fun k => if k =? b then eb else buy k)
    lp (delete id tp) (delete id O) P.
Proof.
  intros C HO Hsb Hws Hwb Hes Heb.
  assert (Hsell : forall i k, venue (if i =? s then es else sell i) k =
    if at_pair i k s b then mkVenues (remove_id id (offers (venue (sell s) b))) (pool (venue (sell s) b))
    else venue (sell i) k).
  { intros i k. unfold at_pair. destruct (Z.eqb_spec i s) as [->|]; simpl; [|done]. apply Hes. }
  pose proof (c_sym _ _ _ _ _ _ _ C) as Hsym. destruct C. split.
  - intros i. by case_match.
  - intros k. by case_match.
  - intros i k. rewrite Hsell, venue_if, Heb. unfold at_pair.
    destruct (Z.eqb_spec i s) as [->|], (Z.eqb_spec k b) as [->|]; simpl; by rewrite Hsym.
  - intros i k o'. rewrite Hsell.
    assert (Hrest : O !! OfferId o' = Some o' /\ sells f o' i k -> OfferId o' = id -> i = s /\ k = b).
    { intros [H1 [H2 H3]] Eid. rewrite Eid, HO in H1. injection H1 as <-. destruct Hsb. split; congruence. }
    rewrite lookup_delete_Some. destruct (at_pair_spec i k s b) as [[-> ->]|Hne]; cbn [offers].
    + rewrite elem_of_remove_id, c_offers0. naive_solver.
    + rewrite c_offers0. naive_solver.
  - intros i k p Hp. rewrite Hsell. destruct (at_pair_spec i k s b) as [[-> ->]|]; cbn [pool]; by apply c_pools0.
  - done.
  - intros id' t. rewrite lookup_delete_Some, c_tp0. setoid_rewrite lookup_delete_Some. naive_solver.
  - intros id' o'. rewrite lookup_delete_Some. intros [_ H]. by apply c_O0.
  - done.
  - intros a Ha. eapply c_used0, used_delete_offer, Ha.
Qed.

(** Pools are determined by the ids of their assets, in either order. *)
Lemma pool_key_ids f p1 p2 a b :
  (forall x y i, f x = Some i -> f y = Some i -> Asset.String_ x = Asset.String_ y) ->
  pool_ids f p1 a b -> pool_ids f p2 a b -> pool_key p1 = pool_key p2.
Proof.
  intros Hinj (c1 & B1 & A1 & A2) (c2 & B2 & A3 & A4). unfold pool_key. rewrite B1, B2.
  by rewrite (Hinj _ _ _ A1 A3), (Hinj _ _ _ A2 A4).
Qed.

Lemma pool_ids_swapped f p1 p2 c1 c2 a b :
  (forall x y i, f x = Some i -> f y = Some i -> Asset.String_ x = Asset.String_ y) ->
  pool_valid p1 c1 -> pool_valid p2 c2 -> pool_ids f p1 a b -> pool_ids f p2 b a -> False.
Proof.
  intros Hinj [_ B1 WA1 WB1 L1] [_ B2 WA2 WB2 L2] (c1' & E1 & A1 & A2) (c2' & E2 & A3 & A4).
  assert (c1' = c1) as -> by congruence. assert (c2' = c2) as -> by congruence.
  assert (AssetA c1 = AssetB c2) as H1 by (apply Asset.String_inj; eauto).
  assert (AssetB c1 = AssetA c2) as H2 by (apply Asset.String_inj; eauto).
  rewrite <- H1, <- H2 in L2. pose proof (Asset.LessThan_trans _ _ _ L1 L2) as L.
  by rewrite Asset.LessThan_irrefl in L.
Qed.

Lemma pool_ids_fun f e a b a' b' : pool_ids f e a b -> pool_ids f e a' b' -> a = a' /\ b = b'.
Proof. intros (c & B & H1 & H2) (c' & B' & H1' & H2'). split; congruence. Qed.

Definition at_either (i k a b : Z) : bool := at_pair i k a b || at_pair i k b a.

Lemma at_either_spec i k a b : reflect ((i = a /\ k = b) \/ (i = b /\ k = a)) (at_either i k a b).
Proof.
  unfold at_either. destruct (at_pair_spec i k a b), (at_pair_spec i k b a); constructor; naive_solver.
Qed.

Lemma at_either_comm i k a b : at_either i k a b = at_either k i a b.
Proof.
  unfold at_either, at_pair. rewrite orb_comm. f_equal; apply andb_comm.
Qed.

(** Changing the pool of both directed edges between [a] and [b]. *)
Definition repool (h : Z -> edgeSet -> edgeSet) (t : Z -> edgeSet) (a b i : Z) : edgeSet :=
  if i =? b then h a (t b) else if i =? a then h b (t a) else t i.

Lemma repool_venue h t a b p :
  a <> b ->
  (forall i k k', venue (h k (t i)) k' = if k' =? k then mkVenues (offers (venue (t i) k)) p else venue (t i) k') ->
  forall i k, venue (repool h t a b i) k =
    if at_either i k a b then mkVenues (offers (venue (t i) k)) p else venue (t i) k.
Proof.
  intros Hab Hh i k. unfold repool, at_either, at_pair.
  destruct (Z.eqb_spec i b) as [->|]; [rewrite Hh|destruct (Z.eqb_spec i a) as [->|]; [rewrite Hh|done]].
  - rewrite (proj2 (Z.eqb_neq b a)) by done. simpl. by destruct (Z.eqb_spec k a) as [->|].
  - rewrite andb_false_l, orb_false_r. simpl. by destruct (Z.eqb_spec k b) as [->|].
Qed.

Section PoolUpdates.
Context (f : Asset.t -> option Z).
Hypothesis f_iff : forall x y i, f x = Some i -> f y = Some i <-> Asset.String_ x = Asset.String_ y.

Lemma f_inj x y i : f x = Some i -> f y = Some i -> Asset.String_ x = Asset.String_ y.
Proof. intros Hx. by apply f_iff. Qed.

Lemma same_key_iff e e' a b a' b' : pool_ids f e a b -> pool_ids f e' a' b' ->
  pool_key e' = pool_key e <-> a' = a /\ b' = b.
Proof.
  intros He He'. split.
  - destruct He as (c & B & H1 & H2), He' as (c' & B' & H1' & H2').
    unfold pool_key. rewrite B, B'. intros [= E1 E2].
    symmetry in E1. apply (f_iff _ (AssetA c') a H1) in E1.
    symmetry in E2. apply (f_iff _ (AssetB c') b H2) in E2. split; congruence.
  - intros [-> ->]. eapply pool_key_ids; eauto using f_inj.
Qed.

(** A pool between [a] and [b], in either direction, has the key of [e]. *)
Lemma between_same_key (P : pool_map) e cp a b (p : liquidityPool) :
  (forall k e, P !! k = Some e -> pool_key e = k /\ exists cp, pool_valid e cp) ->
  pool_valid e cp -> pool_ids f e a b ->
  P !! pool_key (poolEntry p) = Some (poolEntry p) ->
  pool_ids f (poolEntry p) (assetA p) (assetB p) ->
  between p a b \/ between p b a -> pool_key (poolEntry p) = pool_key e /\ assetA p = a /\ assetB p = b.
Proof.
  intros HP He Hab Hp Hids Hb. destruct (HP _ _ Hp) as [_ [c' Hv']].
  assert ((assetA p = a /\ assetB p = b) \/ (assetA p = b /\ assetB p = a)) as [[E1 E2]|[E1 E2]]
    by (destruct Hb as [[[? ?]|[? ?]]|[[? ?]|[? ?]]]; naive_solver).
  - split; [|done]. apply (same_key_iff e (poolEntry p) a b _ _ Hab Hids); done.
  - exfalso. rewrite E1, E2 in Hids. eapply (pool_ids_swapped f e (poolEntry p)); eauto using f_inj.
Qed.

Lemma between_at_either (p : liquidityPool) i k a b :
  assetA p = a -> assetB p = b -> between p i k <-> (i = a /\ k = b) \/ (i = b /\ k = a).
Proof. unfold between. intros -> ->. done. Qed.

Lemma content_add_pool sell buy lp tp O P e cp a b :
  content f sell buy lp tp O P -> pool_valid e cp -> pool_ids f e a b -> a <> b ->
  content f (repool (fun k s => Edges.addPool s k (mkPool e a b)) sell a b)
    (repool (fun k s => Edges.addPool s k (mkPool e a b)) buy a b)
    (<[mkPair a b := e]> lp) tp O (<[pool_key e := e]> P).
Proof.
  intros C He Hab Hne.
  assert (Hbody : BodyConstantProduct e <> None) by (by rewrite (pv_body _ _ He)).
  pose proof (repool_venue (fun k s => Edges.addPool s k (mkPool e a b)) sell a b (mkPool e a b) Hne
    (fun i k k' => addPool_venue (sell i) k (mkPool e a b) k')) as Vs.
  pose proof (repool_venue (fun k s => Edges.addPool s k (mkPool e a b)) buy a b (mkPool e a b) Hne
    (fun i k k' => addPool_venue (buy i) k (mkPool e a b) k')) as Vb.
  destruct C.
  assert (HP' : forall k e', <[pool_key e := e]> P !! k = Some e' ->
    pool_key e' = k /\ exists cp, pool_valid e' cp).
  { intros k e'. rewrite lookup_insert_Some. intros [[<- <-]|[_ H]]; [by eauto|by apply c_P0]. }
  split.
  - intros i. unfold repool. repeat case_match; try done; by apply addPool_wf.
  - intros i. unfold repool. repeat case_match; try done; by apply addPool_wf.
  - intros i k. by rewrite Vs, Vb, (at_either_comm k i), c_sym0.
  - intros i k o. rewrite Vs. case_match; apply c_offers0.
  - intros i k p Hp. rewrite Vs. destruct (at_either_spec i k a b) as [Hik|Hik]; cbn [pool].
    + split.
      * intros <-. cbn. rewrite lookup_insert_eq. by split_and!.
      * intros (H1 & H2 & H3).
        destruct (between_same_key (<[pool_key e := e]> P) e cp a b p) as (Ek & Ea & Eb); try done.
        { destruct Hik as [[-> ->]|[-> ->]]; auto. }
        rewrite Ek, lookup_insert_eq in H1. destruct p; simpl in *. congruence.
    + rewrite c_pools0 by done. rewrite lookup_insert_Some. split.
      * intros (H1 & H2 & H3). split_and!; [right|done|done]. split; [|done]. intros Ek. destruct Hik.
        symmetry in Ek. apply (same_key_iff e _ a b _ _ Hab H2) in Ek as [Ea Eb].
        by apply (between_at_either p).
      * intros ([[Ek Ee]|[_ H1]] & H2 & H3); [|done]. destruct Hik. symmetry in Ek.
        apply (same_key_iff e _ a b _ _ Hab H2) in Ek as [Ea Eb]. by apply (between_at_either p).
  - intros a' b' e'. rewrite !lookup_insert_Some, c_lp0. split.
    + intros [[[= <- <-] <-]|[Hn [H1 H2]]]; [by auto|]. split; [right|done]. split; [|done].
      intros Ek. symmetry in Ek. apply (same_key_iff e e' a b _ _ Hab H2) in Ek as [-> ->]. done.
    + intros ([[Ek <-]|[Hk H1]] & H2).
      * left. by destruct (pool_ids_fun _ _ _ _ _ _ Hab H2) as [-> ->].
      * right. split; [|done]. intros [= -> ->]. destruct Hk. symmetry.
        by apply (same_key_iff e e' a' b' a' b' Hab H2).
  - done.
  - done.
  - done.
  - intros x Hx. destruct Hx as [id o H|id o H|k p c H1 H2|k p c H1 H2];
      [apply c_used0; by econstructor|apply c_used0; by econstructor| |];
      apply lookup_insert_Some in H1 as [[<- <-]|[_ H1]];
      try (apply c_used0; by econstructor);
      destruct Hab as (c' & B' & F1 & F2); assert (c' = c) as -> by congruence; eauto.
Qed.

Lemma content_remove_pool sell buy lp tp O P e cp a b :
  content f sell buy lp tp O P -> pool_valid e cp -> pool_ids f e a b -> a <> b ->
  content f (repool (fun k s => Edges.removePool s k) sell a b)
    (repool (fun k s => Edges.removePool s k) buy a b)
    (delete (mkPair a b) lp) tp O (delete (pool_key e) P).
Proof.
  intros C He Hab Hne. destruct C.
  pose proof (repool_venue (fun k s => Edges.removePool s k) sell a b noPool Hne
    (fun i k k' => removePool_venue (sell i) k k' (c_wf_sell0 i))) as Vs.
  pose proof (repool_venue (fun k s => Edges.removePool s k) buy a b noPool Hne
    (fun i k k' => removePool_venue (buy i) k k' (c_wf_buy0 i))) as Vb.
  split.
  - intros i. unfold repool. repeat case_match; try done; by apply removePool_wf.
  - intros i. unfold repool. repeat case_match; try done; by apply removePool_wf.
  - intros i k. by rewrite Vs, Vb, (at_either_comm k i), c_sym0.
  - intros i k o. rewrite Vs. case_match; apply c_offers0.
  - intros i k p Hp. rewrite Vs. rewrite lookup_delete_Some.
    destruct (at_either_spec i k a b) as [Hik|Hik]; cbn [pool].
    + split; [intros <-; done|]. intros ([Hk H1] & H2 & H3). exfalso.
      destruct (between_same_key P e cp a b p) as (Ek & _); try done.
      destruct Hik as [[-> ->]|[-> ->]]; auto.
    + rewrite c_pools0 by done. split; [|by intros ([_ ?] & ? & ?)].
      intros (H1 & H2 & H3). split_and!; [|done..]. intros Ek. destruct Hik.
      symmetry in Ek. apply (same_key_iff e _ a b _ _ Hab H2) in Ek as [Ea Eb].
      by apply (between_at_either p).
  - intros a' b' e'. rewrite !lookup_delete_Some, c_lp0. split.
    + intros [Hn [H1 H2]]. split; [|done]. split; [|done].
      intros Ek. symmetry in Ek. apply (same_key_iff e e' a b _ _ Hab H2) in Ek as [-> ->]. done.
    + intros ([Hk H1] & H2). split; [|done]. intros [= -> ->]. destruct Hk. symmetry.
      by apply (same_key_iff e e' a' b' a' b' Hab H2).
  - done.
  - done.
  - intros k e'. rewrite lookup_delete_Some. intros [_ H]. by apply c_P0.
  - intros x Hx. apply c_used0. destruct Hx as [id o H|id o H|k p c H1 H2|k p c H1 H2];
      [by econstructor|by econstructor| |];
      apply lookup_delete_Some in H1 as [_ H1]; by econstructor.
Qed.

End PoolUpdates.

(** ** Interning *)

Lemma sid_iff g X : interning g X -> forall x y i, sid (assetStringToID g) x = Some i ->
  sid (assetStringToID g) y = Some i <-> Asset.String_ x = Asset.String_ y.
Proof.
  intros HI x y i Hx. split; [by apply (sid_inj g X)|]. intros E0. unfold sid in *. by rewrite <- E0.
Qed.

(** The step common to the two ways of allocating an id. *)
Lemma intern_name g g' X i s :
  interning g X -> s <> EmptyString -> assetStringToID g !! s = None ->
  name (idToAssetString g) i = EmptyString ->
  (forall j, name (idToAssetString g') j = if j =? i then s else name (idToAssetString g) j) ->
  assetStringToID g' = <[s := i]> (assetStringToID g) ->
  forall t j, assetStringToID g' !! t = Some j <-> t <> EmptyString /\ name (idToAssetString g') j = t.
Proof.
  intros HI Hs Hnone Hi Hname Hm t j. rewrite Hm, Hname, lookup_insert_Some, (n_map _ _ HI).
  assert (Hnos : forall j, name (idToAssetString g) j <> s).
  { intros j' E0. assert (assetStringToID g !! s = Some j') by (by apply (n_map _ _ HI)). congruence. }
  destruct (Z.eqb_spec j i) as [->|Hj]; split.
  - intros [[<- _]|[_ [H1 H2]]]; [done|congruence].
  - intros [_ <-]. by left.
  - intros [[_ ->]|[_ H]]; done.
  - intros [H1 H2]. right. split; [|done]. intros <-. by apply (Hnos j).
Qed.

Definition same_book (g g' : OrderBookGraph) : Prop :=
  liquidityPools g' = liquidityPools g /\ tradingPairForOffer g' = tradingPairForOffer g /\
  lastLedger g' = lastLedger g /\ batchedUpdates g' = batchedUpdates g /\
  (forall i, E (venuesForSellingAsset g') i = E (venuesForSellingAsset g) i) /\
  (forall i, E (venuesForBuyingAsset g') i = E (venuesForBuyingAsset g) i).

Lemma contents_intern g g' O P s i : contents g O P -> same_book g g' ->
  assetStringToID g !! s = None -> assetStringToID g' = <[s := i]> (assetStringToID g) ->
  contents g' O P.
Proof.
  intros C (E1 & E2 & _ & _ & E3 & E4) Hnone Hm. unfold contents. rewrite E1, E2, Hm.
  eapply content_ext; [exact C| |done|done].
  intros a Ha. destruct (c_used _ _ _ _ _ _ _ C a Ha) as [j Hj]. unfold sid in *.
  rewrite lookup_insert_ne; [done|]. congruence.
Qed.

Lemma E_app_nil tbl i : E (tbl ++ [[]]) i = E tbl i.
Proof.
  unfold E. destruct (Z.ltb_spec i 0); [done|]. rewrite lookup_app.
  destruct (tbl !! Z.to_nat i) eqn:E0; [done|]. simpl.
  destruct (Z.to_nat i - length tbl)%nat as [|[|]]; done.
Qed.

Lemma name_app ids s j :
  name (ids ++ [s]) j = if j =? Z.of_nat (length ids) then s else name ids j.
Proof.
  unfold name. destruct (Z.ltb_spec j 0), (Z.eqb_spec j (Z.of_nat (length ids))) as [->|]; try lia; try done.
  - rewrite Nat2Z.id. by rewrite list_lookup_middle.
  - rewrite lookup_app. destruct (ids !! Z.to_nat j) eqn:E0; [done|]. simpl.
    apply lookup_ge_None in E0.
    destruct (Z.to_nat j - length ids)%nat as [|[|]] eqn:E1; [lia|done|done].
Qed.

Lemma interning_weaken g X Y : interning g X -> (forall i, i ∈ X -> i ∈ Y) -> interning g Y.
Proof. intros [] H. split; try done. intros i Hi. apply n_used0. auto. Qed.

Lemma interning_drop g X i : interning g (i :: X) ->
  E (venuesForSellingAsset g) i <> [] \/ E (venuesForBuyingAsset g) i <> [] -> interning g X.
Proof.
  intros [] Hi. split; try done. intros j Hj Hn.
  destruct (decide (j = i)) as [->|]; [done|]. apply n_used0; [|done]. rewrite not_elem_of_cons. auto.
Qed.

(** Replacing the tables: the names are as before. *)
Lemma interning_tables g g' (X Y : list Z) : interning g X ->
  idToAssetString g' = idToAssetString g -> assetStringToID g' = assetStringToID g ->
  vacantIDs g' = vacantIDs g ->
  length (venuesForBuyingAsset g') = length (venuesForBuyingAsset g) ->
  length (venuesForSellingAsset g') = length (venuesForSellingAsset g) ->
  (forall i, i ∉ Y -> (i ∉ X) /\
    (E (venuesForSellingAsset g) i <> [] \/ E (venuesForBuyingAsset g) i <> [] ->
     E (venuesForSellingAsset g') i <> [] \/ E (venuesForBuyingAsset g') i <> [])) ->
  interning g' Y.
Proof.
  intros [] H1 H2 H3 H4 H5 H6. split; rewrite ?H1, ?H2, ?H3; try done; try congruence.
  intros i Hi Hn. destruct (H6 i Hi) as [Hx Hy]. auto.
Qed.

Definition room (n : nat) : Prop := Z.of_nat n < 2 ^ 31.

Lemma room_int32 n : room n -> to_int32 (Z.of_nat n) = Z.of_nat n.
Proof. unfold room. intros H. apply swrap_small; [lia|]. unfold in_int. lia. Qed.

Lemma new_name_vacant g X l i s : interning g X -> vacantIDs g = l ++ [i] ->
  s <> EmptyString -> assetStringToID g !! s = None ->
  let g' := with_names (<[Z.to_nat i := s]> (idToAssetString g)) (<[s := i]> (assetStringToID g)) l g in
  0 <= i < Z.of_nat (length (idToAssetString g)) /\ interning g' (i :: X).
Proof.
  intros HI Hv Hs Hnone g'.
  assert (Hi : i ∈ vacantIDs g) by (rewrite Hv, elem_of_app; right; left).
  apply (n_vacant _ _ HI) in Hi as [Hr Hi]. split; [done|].
  assert (Hname : forall j, name (idToAssetString g') j = if j =? i then s else name (idToAssetString g) j)
    by (intros j; by apply name_insert).
  pose proof (n_nodup _ _ HI) as Hnd. rewrite Hv in Hnd.
  apply NoDup_app in Hnd as (Hl & Hil & _).
  split; cbn [venuesForBuyingAsset venuesForSellingAsset with_names g'] in *.
  - cbn. rewrite length_insert. apply HI.
  - cbn. rewrite length_insert. apply HI.
  - by eapply (intern_name g g').
  - done.
  - intros j. rewrite Hname. cbn. rewrite length_insert.
    pose proof (n_vacant _ _ HI j) as Hj. rewrite Hv, elem_of_app, list_elem_of_singleton in Hj.
    destruct (Z.eqb_spec j i) as [->|]; [|naive_solver].
    split; [|naive_solver]. intros Hin. destruct (Hil i Hin). left.
  - intros j Hj. rewrite Hname. rewrite not_elem_of_cons in Hj.
    rewrite (proj2 (Z.eqb_neq j i)) by naive_solver. apply HI. naive_solver.
Qed.

Lemma new_name_append g X s : interning g X -> vacantIDs g = [] ->
  s <> EmptyString -> assetStringToID g !! s = None ->
  let i := Z.of_nat (length (idToAssetString g)) in
  interning (mkGraph (idToAssetString g ++ [s]) (<[s := i]> (assetStringToID g)) []
    (venuesForBuyingAsset g ++ [[]]) (venuesForSellingAsset g ++ [[]]) (liquidityPools g)
    (tradingPairForOffer g) (batchedUpdates g) (lastLedger g)) (i :: X).
Proof.
  intros HI Hv Hs Hnone i.
  match goal with |- interning ?x _ => set (g' := x) end.
  assert (Hname : forall j, name (idToAssetString g') j = if j =? i then s else name (idToAssetString g) j)
    by (intros j; apply name_app).
  assert (Hi : name (idToAssetString g) i = EmptyString) by (apply name_out; lia).
  split.
  - cbn. rewrite !length_app. f_equal. apply HI.
  - cbn. rewrite !length_app. f_equal. apply HI.
  - by eapply (intern_name g g').
  - constructor.
  - intros j. rewrite Hname. cbn. rewrite length_app. cbn [length].
    pose proof (n_vacant _ _ HI j) as Hj. rewrite Hv in Hj.
    destruct (Z.eqb_spec j i) as [->|]; [|subst i; split; [by intros ?%elem_of_nil|intros [? ?]; apply Hj; split; [lia|done]]].
    split; [by intros ?%elem_of_nil|naive_solver].
  - intros j Hj. rewrite Hname. rewrite not_elem_of_cons in Hj. cbn. rewrite !E_app_nil.
    rewrite (proj2 (Z.eqb_neq j i)) by naive_solver. apply HI. naive_solver.
Qed.

(** Interning an asset: an id is returned, everything else is kept. *)
Lemma getOrCreate_spec g O P X a :
  repr_upto g O P X -> room (length (idToAssetString g)) ->
  exists g' i, getOrCreateAssetID g a = Ok (g', i) /\ repr_upto g' O P (i :: X) /\ same_book g g' /\
    sid (assetStringToID g') a = Some i /\
    (forall x j, sid (assetStringToID g) x = Some j -> sid (assetStringToID g') x = Some j) /\
    (length (idToAssetString g) <= length (idToAssetString g') <= S (length (idToAssetString g)))%nat.
Proof.
  intros [HI HC] Hroom. unfold getOrCreateAssetID. unfold sid.
  destruct (assetStringToID g !! Asset.String_ a) as [i|] eqn:Em.
  { exists g, i. split_and!; try done; try lia. split; [|done].
    eapply interning_weaken; [done|]. intros; by right. }
  pose proof (Asset.String_nonempty a) as Hs.
  destruct (last (vacantIDs g)) as [i|] eqn:Ev.
  - apply last_Some in Ev as [l Ev].
    destruct (new_name_vacant g X l i _ HI Ev Hs Em) as [Hr HI'].
    rewrite assign_Ok, !bind_Ok_l by done.
    rewrite Ev, length_app, Nat.add_sub, take_app_length.
    eexists _, i. split; [done|]. gfields. rewrite lookup_insert_eq.
    assert (Hsb : same_book g (with_names (<[Z.to_nat i := Asset.String_ a]> (idToAssetString g))
      (<[Asset.String_ a := i]> (assetStringToID g)) l g)) by (by split_and!).
    split_and!; try done.
    + split; [exact HI'|]. by eapply contents_intern.
    + intros x j Hx. rewrite lookup_insert_ne; [done|]. intros E0. by rewrite E0, Hx in Em.
    + rewrite length_insert. lia.
    + rewrite length_insert. lia.
  - apply last_None in Ev. rewrite bind_Ok_l.
    pose proof (new_name_append g X _ HI Ev Hs Em) as HI'. cbv zeta in HI'.
    rewrite (room_int32 _ Hroom).
    eexists _, _. split; [done|]. gfields. rewrite lookup_insert_eq, Ev.
    match goal with |- context [repr_upto ?x _ _ _] => set (g' := x) in * end.
    assert (Hsb : same_book g g') by (split_and!; try done; intros i; apply E_app_nil).
    split_and!; try done.
    + split; [exact HI'|]. by eapply contents_intern.
    + intros x j Hx. rewrite lookup_insert_ne; [done|]. intros E0. by rewrite E0, Hx in Em.
    + rewrite length_app. simpl. lia.
    + rewrite length_app. simpl. lia.
Qed.

(** An asset in use has an edge. *)
Lemma used_has_edge f sell buy lp tp O P a i : content f sell buy lp tp O P ->
  used O P a -> f a = Some i -> sell i <> [] \/ buy i <> [].
Proof.
  intros C Hu Hi.
  assert (Hpool : forall k e cp, P !! k = Some e -> BodyConstantProduct e = Some cp ->
    exists x y, f (AssetA cp) = Some x /\ f (AssetB cp) = Some y /\ sell x <> [] /\ sell y <> []).
  { intros k e cp HP HB.
    destruct (c_used _ _ _ _ _ _ _ C _ (used_A O P k e cp HP HB)) as [x Hx].
    destruct (c_used _ _ _ _ _ _ _ C _ (used_B O P k e cp HP HB)) as [y Hy].
    exists x, y. destruct (c_P _ _ _ _ _ _ _ C _ _ HP) as [Hk _].
    assert (Hin : forall u w, (u = x /\ w = y) \/ (u = y /\ w = x) ->
      pool (venue (sell u) w) = mkPool e x y).
    { intros u w Huw. apply (c_pools _ _ _ _ _ _ _ C); cbn; [by rewrite HB|].
      split_and!; [by rewrite Hk|by exists cp|]. unfold between. cbn. naive_solver. }
    split_and!; [done|done| |]; intros E0.
    - specialize (Hin x y ltac:(by left)). rewrite E0 in Hin. cbn in Hin. injection Hin as <- _ _. done.
    - specialize (Hin y x ltac:(by right)). rewrite E0 in Hin. cbn in Hin. injection Hin as <- _ _. done. }
  destruct Hu as [id o H|id o H|k e cp HP HB|k e cp HP HB].
  - destruct (used_selling_of _ _ _ _ _ _ _ _ _ C H) as (s & b & Hs & Hb).
    left. intros E0. assert (Hin : o ∈ offers (venue (sell i) b)).
    { apply C. destruct (c_O _ _ _ _ _ _ _ C _ _ H) as [-> _]. by split. }
    rewrite E0 in Hin. by apply elem_of_nil in Hin.
  - destruct (used_selling_of _ _ _ _ _ _ _ _ _ C H) as (s & b & Hs & Hb).
    right. intros E0. assert (Hin : o ∈ offers (venue (sell s) i)).
    { apply C. destruct (c_O _ _ _ _ _ _ _ C _ _ H) as [-> _]. by split. }
    rewrite (c_sym _ _ _ _ _ _ _ C), E0 in Hin. by apply elem_of_nil in Hin.
  - left. destruct (Hpool _ _ _ HP HB) as (x & y & H1 & H2 & H3 & H4). congruence.
  - left. destruct (Hpool _ _ _ HP HB) as (x & y & H1 & H2 & H3 & H4). congruence.
Qed.

Lemma free_name g X i : interning g (i :: X) -> name (idToAssetString g) i <> EmptyString ->
  E (venuesForSellingAsset g) i = [] -> E (venuesForBuyingAsset g) i = [] ->
  interning (with_names (<[Z.to_nat i := EmptyString]> (idToAssetString g))
    (delete (name (idToAssetString g) i) (assetStringToID g)) (vacantIDs g ++ [i]) g) X.
Proof.
  intros HI Hi Es Eb. pose proof (name_in_range _ _ Hi) as Hr.
  assert (Hname : forall j, name (<[Z.to_nat i := EmptyString]> (idToAssetString g)) j =
    if j =? i then EmptyString else name (idToAssetString g) j) by (intros j; by apply name_insert).
  split; gfields; rewrite ?length_insert; try apply HI.
  - intros s j. rewrite Hname, lookup_delete_Some, (n_map _ _ HI).
    destruct (Z.eqb_spec j i) as [->|Hj]; split; try naive_solver.
    intros [H1 H2]. split_and!; [|done..]. intros E0. apply Hj.
    assert (A1 : assetStringToID g !! s = Some j) by (by apply (n_map _ _ HI)).
    assert (A2 : assetStringToID g !! s = Some i) by (by apply (n_map _ _ HI)). congruence.
  - apply NoDup_app. split_and!; [apply HI| |apply NoDup_singleton].
    intros j Hj. rewrite list_elem_of_singleton. intros ->. by apply (n_vacant _ _ HI) in Hj as [_ Hj].
  - intros j. rewrite Hname, elem_of_app, list_elem_of_singleton, (n_vacant _ _ HI).
    destruct (Z.eqb_spec j i) as [->|Hj]; naive_solver.
  - intros j Hj. rewrite Hname. destruct (Z.eqb_spec j i) as [->|Hji]; [done|].
    apply HI. rewrite not_elem_of_cons. auto.
Qed.

Lemma maybeDelete_spec g O P X i : repr_upto g O P (i :: X) -> name (idToAssetString g) i <> EmptyString ->
  exists g', maybeDeleteAsset g i = Ok g' /\ repr_upto g' O P X /\ same_book g g' /\
    (forall j, j <> i -> name (idToAssetString g') j = name (idToAssetString g) j) /\
    length (idToAssetString g') = length (idToAssetString g).
Proof.
  intros [HI HC] Hi. pose proof (name_in_range _ _ Hi) as Hr. unfold maybeDeleteAsset.
  rewrite !index_E by (rewrite ?(n_buy _ _ HI), ?(n_sell _ _ HI); done).
  rewrite !bind_Ok_l, index_name, assign_Ok by done.
  destruct (Nat.eqb_spec (length (E (venuesForBuyingAsset g) i)) 0) as [Eb|Eb]; cbn [andb];
    [destruct (Nat.eqb_spec (length (E (venuesForSellingAsset g) i)) 0) as [Es|Es]|].
  - apply nil_length_inv in Eb, Es. rewrite !bind_Ok_l.
    eexists. split; [done|]. gfields. split_and!; try done.
    + split; [by apply free_name|]. unfold contents. gfields.
      eapply content_ext; [exact HC| |done|done]. intros a Ha. unfold sid. apply lookup_delete_ne.
      intros E0. destruct (used_has_edge _ _ _ _ _ _ _ a i HC Ha) as [?|?]; try done.
      apply (n_map _ _ HI). by rewrite <- E0.
    + intros j Hj. rewrite name_insert by done. by rewrite (proj2 (Z.eqb_neq j i)).
    + by rewrite length_insert.
  - exists g. split_and!; try done. split; [|done]. apply (interning_drop g X i HI).
    left. intros E0. by rewrite E0 in Es.
  - exists g. split_and!; try done. split; [|done]. apply (interning_drop g X i HI).
    right. intros E0. by rewrite E0 in Eb.
Qed.

(** ** Offers *)

(** The parts of the state the internal operations leave alone. *)
Definition same_meta (g g' : OrderBookGraph) : Prop :=
  lastLedger g' = lastLedger g /\ batchedUpdates g' = batchedUpdates g.

Lemma table_range g X i : interning g X -> name (idToAssetString g) i <> EmptyString ->
  0 <= i < Z.of_nat (length (venuesForBuyingAsset g)) /\
  0 <= i < Z.of_nat (length (venuesForSellingAsset g)).
Proof.
  intros HI Hi. rewrite (n_buy _ _ HI), (n_sell _ _ HI). split; by apply name_in_range.
Qed.

Lemma sid_name g X a i : interning g X -> sid (assetStringToID g) a = Some i ->
  name (idToAssetString g) i <> EmptyString.
Proof.
  intros HI H. apply (sid_range _ _ _ _ HI) in H as [_ ->]. apply Asset.String_nonempty.
Qed.

Lemma sells_distinct g X o s b : interning g X -> offer_valid o ->
  sells (sid (assetStringToID g)) o s b -> s <> b.
Proof.
  intros HI Hv [Hs Hb] ->. apply (ov_distinct _ Hv).
  apply Asset.String_inj; [apply Hv|apply Hv|]. by eapply sid_inj.
Qed.

Lemma removeOffer_missing_spec g O P X id : repr_upto g O P X -> O !! id = None ->
  tradingPairForOffer g !! id = None /\ removeOffer g id = Err errOfferNotPresent.
Proof.
  intros [_ HC] HO. unfold removeOffer.
  destruct (tradingPairForOffer g !! id) as [t|] eqn:Et; [|done].
  apply (c_tp _ _ _ _ _ _ _ HC) in Et as (o & Ho & _). congruence.
Qed.

Lemma removeOffer_spec g O P id o : repr g O P -> O !! id = Some o ->
  exists g', removeOffer g id = Ok g' /\ repr g' (delete id O) P /\ same_meta g g' /\
    length (idToAssetString g') = length (idToAssetString g).
Proof.
  intros [HI HC] HO. destruct (used_selling_of _ _ _ _ _ _ _ _ _ HC HO) as (s & b & Hsb).
  destruct (c_O _ _ _ _ _ _ _ HC _ _ HO) as [Hid Hv].
  assert (Ht : tradingPairForOffer g !! id = Some (mkPair b s)) by (apply HC; by exists o).
  pose proof (sid_name _ _ _ _ HI (proj1 Hsb)) as Ns. pose proof (sid_name _ _ _ _ HI (proj2 Hsb)) as Nb.
  destruct (table_range _ _ _ HI Ns) as [_ Rs]. destruct (table_range _ _ _ HI Nb) as [Rb _].
  assert (Hin : id ∈ ids (offers (venue (E (venuesForSellingAsset g) s) b))).
  { rewrite <- Hid. apply elem_of_ids, HC. by rewrite Hid. }
  destruct (removeOffer_present _ b id (c_wf_sell _ _ _ _ _ _ _ HC s) Hin) as (es & Res & Wes & Ves).
  rewrite (c_sym _ _ _ _ _ _ _ HC) in Hin.
  destruct (removeOffer_present _ s id (c_wf_buy _ _ _ _ _ _ _ HC b) Hin) as (eb & Reb & Web & Veb).
  unfold removeOffer. rewrite Ht. gfields. cbn [sellingAsset buyingAsset].
  rewrite (index_E (venuesForSellingAsset g) s Rs), bind_Ok_l, Res. cbn [negb].
  rewrite (assign_Ok (venuesForSellingAsset g) s es Rs), bind_Ok_l. gfields.
  rewrite (index_E (venuesForBuyingAsset g) b Rb), bind_Ok_l, Reb. cbn [negb].
  rewrite (assign_Ok (venuesForBuyingAsset g) b eb Rb), bind_Ok_l. gfields.
  match goal with |- context [maybeDeleteAsset ?x b] => set (g1 := x) end.
  assert (R1 : repr_upto g1 (delete id O) P [b; s]).
  { split.
    - unfold g1. apply (interning_tables g _ []); gfields; rewrite ?length_insert; try done.
      intros i Hi. split; [apply not_elem_of_nil|]. rewrite !E_insert by done.
      rewrite !not_elem_of_cons in Hi.
      by rewrite (proj2 (Z.eqb_neq i s)), (proj2 (Z.eqb_neq i b)) by naive_solver.
    - unfold contents, g1. gfields. eapply content_ext; [|done|intros i; by apply E_insert..].
      by apply (content_remove_offer _ _ _ _ _ _ _ id o s b). }
  destruct (maybeDelete_spec g1 _ _ _ b R1 Nb) as (g2 & D2 & R2 & B2 & N2 & L2).
  pose proof (sells_distinct _ _ _ _ _ HI Hv Hsb) as Hne.
  assert (Ns2 : name (idToAssetString g2) s <> EmptyString) by (by rewrite N2).
  destruct (maybeDelete_spec g2 _ _ _ s R2 Ns2) as (g3 & D3 & R3 & B3 & N3 & L3).
  exists g3. rewrite D2, bind_Ok_l. destruct B2 as (_ & _ & Bl2 & Bb2 & _), B3 as (_ & _ & Bl3 & Bb3 & _).
  split_and!; [done|done|split; [by rewrite Bl3, Bl2|by rewrite Bb3, Bb2]|by rewrite L3, L2].
Qed.

(** The tail of [addOffer], once both assets have an id. *)
Definition insert_into_tables (g : OrderBookGraph) (o : OfferEntry) (buying selling : Z) : res OrderBookGraph :=
  let g := with_pairs (<[OfferId o := mkPair buying selling]> (tradingPairForOffer g)) g in
  s ← update_table (venuesForSellingAsset g) selling (fun e => Edges.addOffer e buying o);
  let g := with_tables (venuesForBuyingAsset g) s g in
  b ← update_table (venuesForBuyingAsset g) buying (fun e => Edges.addOffer e selling o);
  Ok (with_tables b (venuesForSellingAsset g) g).

Lemma addOffer_nonempty e k o : Edges.addOffer e k o <> [].
Proof.
  unfold Edges.addOffer. case_match; [by destruct e|]. unfold update. intros E0.
  apply (f_equal length) in E0. rewrite length_alter in E0. simpl in E0.
  apply nil_length_inv in E0 as ->. done.
Qed.

Lemma insert_into_tables_spec g O P X o b s : repr_upto g O P (s :: b :: X) ->
  offer_valid o -> O !! OfferId o = None -> sells (sid (assetStringToID g)) o s b ->
  exists g', insert_into_tables g o b s = Ok g' /\
    repr_upto g' (<[OfferId o := o]> O) P X /\ same_meta g g' /\
    length (idToAssetString g') = length (idToAssetString g).
Proof.
  intros [HI HC] Hv HO Hsb. unfold insert_into_tables. gfields.
  pose proof (sid_name _ _ _ _ HI (proj1 Hsb)) as Ns. pose proof (sid_name _ _ _ _ HI (proj2 Hsb)) as Nb.
  destruct (table_range _ _ _ HI Ns) as [_ Rs]. destruct (table_range _ _ _ HI Nb) as [Rb _].
  destruct (update_table_Ok (venuesForSellingAsset g) s (fun e => Edges.addOffer e b o) Rs)
    as (ts & -> & Ls & Es). rewrite bind_Ok_l. gfields.
  destruct (update_table_Ok (venuesForBuyingAsset g) b (fun e => Edges.addOffer e s o) Rb)
    as (tb & -> & Lb & Eb). rewrite bind_Ok_l. gfields.
  eexists. split; [done|]. split_and!; [split|done|done].
  - match goal with |- interning ?x _ => assert (HI' : interning x (s :: b :: X)) end.
    { apply (interning_tables g _ (s :: b :: X)); gfields; try done.
      intros i Hi. split; [done|]. rewrite Es, Eb.
      rewrite !not_elem_of_cons in Hi.
      by rewrite (proj2 (Z.eqb_neq i s)), (proj2 (Z.eqb_neq i b)) by naive_solver. }
    apply interning_drop in HI'; [apply interning_drop in HI'; [done|]|]; gfields.
    + right. rewrite Eb, Z.eqb_refl. apply addOffer_nonempty.
    + left. rewrite Es, Z.eqb_refl. apply addOffer_nonempty.
  - unfold contents. gfields. eapply content_ext; [|done|exact Es|exact Eb].
    by apply content_add_offer.
Qed.

Lemma addOffer_spec g O P o : repr g O P -> offer_valid o ->
  Z.of_nat (length (idToAssetString g)) + 2 <= 2 ^ 31 ->
  exists g', addOffer g o = Ok g' /\ repr g' (<[OfferId o := o]> O) P /\ same_meta g g' /\
    (length (idToAssetString g) <= length (idToAssetString g') <= length (idToAssetString g) + 2)%nat.
Proof.
  intros HR Hv Hroom. unfold addOffer.
  assert (Hrm : exists g0, match tradingPairForOffer g !! OfferId o with
      | Some _ => match removeOffer g (OfferId o) with
                  | Err _ => Err "could not update offer in order book graph" | r => r end
      | None => Ok g end = Ok g0 /\ repr g0 (delete (OfferId o) O) P /\ same_meta g g0 /\
      length (idToAssetString g0) = length (idToAssetString g)).
  { destruct (O !! OfferId o) as [o'|] eqn:HO.
    - destruct (removeOffer_spec g O P _ o' HR HO) as (g0 & -> & H1 & H2 & H3). exists g0.
      case_match eqn:Et; [done|]. destruct HR as [_ HC].
      destruct (used_selling_of _ _ _ _ _ _ _ _ _ HC HO) as (s & b & Hsb).
      assert (tradingPairForOffer g !! OfferId o = Some (mkPair b s)) by (apply HC; by exists o').
      congruence.
    - destruct (removeOffer_missing_spec g O P [] _ HR HO) as [-> _]. exists g.
      by rewrite delete_id. }
  destruct Hrm as (g0 & -> & R0 & [M01 M02] & L0). rewrite bind_Ok_l.
  destruct (getOrCreate_spec g0 _ _ _ (Buying o) R0) as (g1 & b & -> & R1 & B1 & Sb & _ & L1);
    [unfold room; lia|]. rewrite bind_Ok_l.
  destruct (getOrCreate_spec g1 _ _ _ (Selling o) R1) as (g2 & s & -> & R2 & B2 & Ss & K2 & L2);
    [unfold room; lia|]. rewrite bind_Ok_l.
  destruct (insert_into_tables_spec g2 _ _ [] o b s R2 Hv) as (g3 & E3 & R3 & [M31 M32] & L3).
  { apply lookup_delete_eq. }
  { split; [done|]. by apply K2. }
  exists g3. rewrite insert_delete_eq in R3. split; [exact E3|].
  destruct B1 as (_ & _ & Bl1 & Bb1 & _), B2 as (_ & _ & Bl2 & Bb2 & _).
  split_and!; [done|split; congruence|lia|lia].
Qed.

(** ** Pools *)

Lemma update_two (h : Z -> edgeSet -> edgeSet) t a b :
  a <> b -> 0 <= a < Z.of_nat (length t) -> 0 <= b < Z.of_nat (length t) ->
  exists t1 t2, update_table t a (h b) = Ok t1 /\ update_table t1 b (h a) = Ok t2 /\
    length t2 = length t /\ forall i, E t2 i = repool h (E t) a b i.
Proof.
  intros Hab Ha Hb. destruct (update_table_Ok t a (h b) Ha) as (t1 & E1 & L1 & V1).
  destruct (update_table_Ok t1 b (h a)) as (t2 & E2 & L2 & V2); [lia|].
  exists t1, t2. split_and!; [done|done|congruence|]. intros i. rewrite V2, !V1. unfold repool.
  by rewrite (proj2 (Z.eqb_neq b a)) by done.
Qed.

Lemma getPoolAssets_valid e cp : pool_valid e cp -> getPoolAssets e = Ok (AssetA cp, AssetB cp).
Proof.
  intros [Ht Hb _ _ _]. unfold getPoolAssets, MustConstantProduct, GetConstantProduct.
  by rewrite Ht, Hb.
Qed.

Lemma pool_assets_distinct g X e cp a b : interning g X -> pool_valid e cp ->
  sid (assetStringToID g) (AssetA cp) = Some a -> sid (assetStringToID g) (AssetB cp) = Some b -> a <> b.
Proof.
  intros HI [_ _ HA HB HL] Ha Hb ->. assert (AssetA cp = AssetB cp) as E0.
  { apply Asset.String_inj; [done..|]. by eapply sid_inj. }
  by rewrite E0, Asset.LessThan_irrefl in HL.
Qed.

(** Interning both assets of a pool. *)
Lemma getOrCreate_two g O P e cp : repr g O P -> pool_valid e cp ->
  Z.of_nat (length (idToAssetString g)) + 2 <= 2 ^ 31 ->
  exists g1 a g2 b, getOrCreateAssetID g (AssetA cp) = Ok (g1, a) /\
    getOrCreateAssetID g1 (AssetB cp) = Ok (g2, b) /\
    repr_upto g2 O P [b; a] /\ same_meta g g2 /\ a <> b /\
    pool_ids (sid (assetStringToID g2)) e a b /\
    name (idToAssetString g2) a <> EmptyString /\ name (idToAssetString g2) b <> EmptyString /\
    (length (idToAssetString g) <= length (idToAssetString g2) <= length (idToAssetString g) + 2)%nat.
Proof.
  intros HR He Hroom.
  destruct (getOrCreate_spec g _ _ _ (AssetA cp) HR) as (g1 & a & E1 & R1 & B1 & Sa & _ & L1);
    [unfold room; lia|].
  destruct (getOrCreate_spec g1 _ _ _ (AssetB cp) R1) as (g2 & b & E2 & R2 & B2 & Sb & K2 & L2);
    [unfold room; lia|].
  apply K2 in Sa. exists g1, a, g2, b. destruct R2 as [HI HC].
  destruct B1 as (_ & _ & Bl1 & Bb1 & _), B2 as (_ & _ & Bl2 & Bb2 & _).
  split_and!; try done; try by eapply sid_name.
  - split; congruence.
  - by eapply pool_assets_distinct.
  - exists cp. split; [apply He|done].
  - lia.
  - lia.
Qed.

Lemma repool_other h t a b i : i <> a -> i <> b -> repool h t a b i = t i.
Proof. intros. unfold repool. by rewrite (proj2 (Z.eqb_neq i b)), (proj2 (Z.eqb_neq i a)). Qed.

Lemma addPool_nonempty e k p : Edges.addPool e k p <> [].
Proof.
  unfold Edges.addPool. case_match; [by destruct e|]. unfold update. intros E0.
  apply (f_equal length) in E0. rewrite length_alter in E0. simpl in E0.
  apply nil_length_inv in E0 as ->. done.
Qed.

Lemma addPool_spec g O P e cp : repr g O P -> pool_valid e cp ->
  Z.of_nat (length (idToAssetString g)) + 2 <= 2 ^ 31 ->
  exists g', addPool g e = Ok g' /\ repr g' O (<[pool_key e := e]> P) /\ same_meta g g' /\
    (length (idToAssetString g) <= length (idToAssetString g') <= length (idToAssetString g) + 2)%nat.
Proof.
  intros HR He Hroom.
  destruct (getOrCreate_two g O P e cp HR He Hroom)
    as (g1 & a & g2 & b & E1 & E2 & [HI HC] & Hm & Hab & Hids & Na & Nb & Hl).
  unfold addPool, poolFromEntry. rewrite (getPoolAssets_valid e cp He), bind_Ok_l.
  rewrite E1, bind_Ok_l, E2, !bind_Ok_l. gfields. cbn [assetA assetB poolEntry].
  destruct (table_range _ _ _ HI Na) as [Ra1 Ra2]. destruct (table_range _ _ _ HI Nb) as [Rb1 Rb2].
  unfold addPool_table. cbn [assetA assetB].
  set (h := fun k s => Edges.addPool s k (mkPool e a b)).
  destruct (update_two h (venuesForBuyingAsset g2) a b Hab Ra1 Rb1) as (t1 & t2 & U1 & U2 & Lt & Vt).
  destruct (update_two h (venuesForSellingAsset g2) a b Hab Ra2 Rb2) as (u1 & u2 & U3 & U4 & Lu & Vu).
  unfold h in U1, U2, U3, U4. rewrite U1, bind_Ok_l, U2, bind_Ok_l, U3, bind_Ok_l, U4, bind_Ok_l.
  eexists. split; [done|]. split_and!; [split|done|gfields; lia|gfields; lia].
  - match goal with |- interning ?x _ => assert (HI' : interning x [b; a]) end.
    { apply (interning_tables g2 _ [b; a]); gfields; try done.
      intros i Hi. split; [done|]. rewrite !not_elem_of_cons in Hi. rewrite Vu, Vt.
      by rewrite !repool_other by naive_solver. }
    apply interning_drop in HI'; [apply interning_drop in HI'; [done|]|]; gfields; left;
      rewrite Vu; unfold repool, h.
    + rewrite (proj2 (Z.eqb_neq a b)), Z.eqb_refl by done. apply addPool_nonempty.
    + rewrite Z.eqb_refl. apply addPool_nonempty.
  - unfold contents. gfields. eapply content_ext; [|done|exact Vu|exact Vt].
    eapply content_add_pool; eauto using sid_iff.
Qed.

Lemma removePool_spec g O P e cp : repr g O P -> pool_valid e cp ->
  Z.of_nat (length (idToAssetString g)) + 2 <= 2 ^ 31 ->
  exists g', removePool g e = Ok g' /\ repr g' O (delete (pool_key e) P) /\ same_meta g g' /\
    (length (idToAssetString g) <= length (idToAssetString g') <= length (idToAssetString g) + 2)%nat.
Proof.
  intros HR He Hroom.
  destruct (getOrCreate_two g O P e cp HR He Hroom)
    as (g1 & a & g2 & b & E1 & E2 & [HI HC] & [Hm1 Hm2] & Hab & Hids & Na & Nb & Hl).
  unfold removePool. rewrite (getPoolAssets_valid e cp He), bind_Ok_l.
  rewrite E1, bind_Ok_l, E2, bind_Ok_l. unfold removePool_asset.
  rewrite (proj2 (Z.eqb_neq a b) Hab), Z.eqb_refl. cbv iota.
  destruct (table_range _ _ _ HI Na) as [Ra1 Ra2]. destruct (table_range _ _ _ HI Nb) as [Rb1 Rb2].
  set (h := fun k s => Edges.removePool s k).
  destruct (update_two h (venuesForBuyingAsset g2) a b Hab Ra1 Rb1) as (t1 & t2 & U1 & U2 & Lt & Vt).
  destruct (update_two h (venuesForSellingAsset g2) a b Hab Ra2 Rb2) as (u1 & u2 & U3 & U4 & Lu & Vu).
  unfold h in U1, U2, U3, U4. rewrite U1, bind_Ok_l, U3, bind_Ok_l, bind_Ok_l. gfields.
  rewrite U2, bind_Ok_l, U4, !bind_Ok_l. gfields.
  match goal with |- context [maybeDeleteAsset ?x a] => set (g3 := x) end.
  assert (R3 : repr_upto g3 O (delete (pool_key e) P) [a; b]).
  { split.
    - unfold g3. apply (interning_tables g2 _ [b; a]); gfields; try done.
      intros i Hi. rewrite !not_elem_of_cons in Hi |- *. split; [naive_solver|]. rewrite Vu, Vt.
      by rewrite !repool_other by naive_solver.
    - unfold contents, g3. gfields. eapply content_ext; [|done|exact Vu|exact Vt].
      eapply content_remove_pool; eauto using sid_iff. }
  destruct (maybeDelete_spec g3 _ _ _ a R3 Na) as (g4 & D4 & R4 & B4 & N4 & L4).
  assert (Nb4 : name (idToAssetString g4) b <> EmptyString) by (by rewrite N4).
  destruct (maybeDelete_spec g4 _ _ _ b R4 Nb4) as (g5 & D5 & R5 & B5 & N5 & L5).
  exists g5. rewrite D4, bind_Ok_l. destruct B4 as (_ & _ & Bl4 & Bb4 & _), B5 as (_ & _ & Bl5 & Bb5 & _).
  split_and!; [done|done|split; [by rewrite Bl5, Bl4|by rewrite Bb5, Bb4]| |];
    rewrite L5, L4; apply Hl.
Qed.

(** ** Batches *)

(** What one queued operation means for the abstract book. *)
Definition op_offers (op : orderBookOperation) (O : offer_map) : offer_map :=
  if operationType op =? addOfferOperationType then
    match op_offer op with Some o => <[OfferId o := o]> O | None => O end
  else if operationType op =? removeOfferOperationType then delete (op_offerID op) O
  else O.

Definition op_pools (op : orderBookOperation) (P : pool_map) : pool_map :=
  match op_liquidityPool op with
  | Some e =>
      if operationType op =? addLiquidityPoolOperationType then <[pool_key e := e]> P
      else if operationType op =? removeLiquidityPoolOperationType then delete (pool_key e) P
      else P
  | None => P
  end.

(** The operations the exported methods queue, on valid ledger entries. *)
Inductive op_valid : orderBookOperation -> Prop :=
| op_add_offer o : offer_valid o ->
    op_valid (mkOperation addOfferOperationType (OfferId o) (Some o) None)
| op_remove_offer id : op_valid (mkOperation removeOfferOperationType id None None)
| op_add_pool e cp : pool_valid e cp ->
    op_valid (mkOperation addLiquidityPoolOperationType 0 None (Some e))
| op_remove_pool e cp : pool_valid e cp ->
    op_valid (mkOperation removeLiquidityPoolOperationType 0 None (Some e)).

Definition pair_in_range (g : OrderBookGraph) (t : tradingPair) : Prop :=
  0 <= sellingAsset t < Z.of_nat (length (idToAssetString g)) /\
  0 <= buyingAsset t < Z.of_nat (length (idToAssetString g)).

Lemma apply_operation_spec g O P prs op : repr g O P -> op_valid op ->
  Z.of_nat (length (idToAssetString g)) + 2 <= 2 ^ 31 ->
  (forall t, t ∈ prs -> pair_in_range g t) ->
  exists g' prs', apply_operation (g, prs) op = Ok (g', prs') /\
    repr g' (op_offers op O) (op_pools op P) /\ same_meta g g' /\
    (forall t, t ∈ prs' -> pair_in_range g' t) /\
    (length (idToAssetString g) <= length (idToAssetString g') <= length (idToAssetString g) + 2)%nat.
Proof.
  intros HR Hop Hroom Hprs.
  assert (Hmono : forall g', (length (idToAssetString g) <= length (idToAssetString g'))%nat ->
    forall t, t ∈ prs -> pair_in_range g' t).
  { intros g' Hl t Ht. specialize (Hprs t Ht). unfold pair_in_range in *. lia. }
  destruct Hop as [o Hv|id|e cp He|e cp He].
  - destruct (addOffer_spec g O P o HR Hv Hroom) as (g' & E1 & R1 & M1 & L1).
    exists g', prs. unfold apply_operation. cbn -[addOffer]. rewrite E1.
    split_and!; try done; try lia. apply Hmono. lia.
  - unfold apply_operation, op_offers, op_pools. cbn -[removeOffer].
    destruct (O !! id) as [o|] eqn:HO.
    + destruct (removeOffer_spec g O P id o HR HO) as (g' & E1 & R1 & M1 & L1). rewrite E1.
      destruct HR as [HI HC].
      destruct (tradingPairForOffer g !! id) as [t|] eqn:Et.
      * eexists _, _. split; [done|]. split_and!; try done; try lia.
        intros t'. rewrite elem_of_union, elem_of_singleton. intros [->|Ht']; [|apply Hmono; [lia|done]].
        apply (c_tp _ _ _ _ _ _ _ HC) in Et as (o' & _ & [Hs Hb]). unfold pair_in_range. rewrite L1.
        split; [by apply (sid_range _ _ _ _ HI) in Hs as [? _]|by apply (sid_range _ _ _ _ HI) in Hb as [? _]].
      * destruct (used_selling_of _ _ _ _ _ _ _ _ _ HC HO) as (s & b & Hsb).
        assert (tradingPairForOffer g !! id = Some (mkPair b s)) by (apply HC; by exists o). congruence.
    + destruct (removeOffer_missing_spec g O P [] id HR HO) as [-> _]. exists g, prs.
      rewrite delete_id by done. split_and!; try done; lia.
  - destruct (addPool_spec g O P e cp HR He Hroom) as (g' & E1 & R1 & M1 & L1).
    exists g', prs. unfold apply_operation. cbn -[addPool]. rewrite E1.
    split_and!; try done; try lia. apply Hmono. lia.
  - destruct (removePool_spec g O P e cp HR He Hroom) as (g' & E1 & R1 & M1 & L1).
    exists g', prs. unfold apply_operation. cbn -[removePool]. rewrite E1.
    split_and!; try done; try lia. apply Hmono. lia.
Qed.

Definition ops_offers (ops : list orderBookOperation) (O : offer_map) : offer_map :=
  fold_left (fun O op => op_offers op O) ops O.
Definition ops_pools (ops : list orderBookOperation) (P : pool_map) : pool_map :=
  fold_left (fun P op => op_pools op P) ops P.

Lemma apply_operations_spec ops : forall g O P prs, repr g O P -> Forall op_valid ops ->
  Z.of_nat (length (idToAssetString g)) + 2 * Z.of_nat (length ops) <= 2 ^ 31 ->
  (forall t, t ∈ prs -> pair_in_range g t) ->
  exists g' prs', apply_operations (g, prs) ops = Ok (g', prs') /\
    repr g' (ops_offers ops O) (ops_pools ops P) /\ same_meta g g' /\
    (forall t, t ∈ prs' -> pair_in_range g' t).
Proof.
  induction ops as [|op ops IH]; intros g O P prs HR Hops Hroom Hprs.
  - by exists g, prs.
  - apply Forall_cons in Hops as [Hop Hops]. cbn [length] in Hroom.
    destruct (apply_operation_spec g O P prs op HR Hop ltac:(lia) Hprs)
      as (g1 & prs1 & E1 & R1 & [M1 M1'] & H1 & L1).
    destruct (IH g1 _ _ prs1 R1 Hops ltac:(lia) H1) as (g2 & prs2 & E2 & R2 & [M2 M2'] & H2).
    exists g2, prs2. cbn [apply_operations]. rewrite E1, bind_Ok_l.
    split_and!; [done|done|split; congruence|done].
Qed.

(** Tables that hold the same venues hold the same book. *)
Lemma content_venues f sell sell' buy buy' lp tp O P :
  content f sell buy lp tp O P ->
  (forall i, wf (sell' i)) -> (forall i, wf (buy' i)) ->
  (forall i k, venue (sell' i) k = venue (sell i) k) ->
  (forall i k, venue (buy' i) k = venue (buy i) k) ->
  content f sell' buy' lp tp O P.
Proof.
  intros [] Hws Hwb Hs Hb. split; try done.
  - intros i k. rewrite Hs, Hb. apply c_sym0.
  - intros i k o. rewrite Hs. apply c_offers0.
  - intros i k p. rewrite Hs. apply c_pools0.
Qed.

Lemma reallocate_at_nil tbl i j :
  (if i =? j then Edges.reallocate (E tbl j) else E tbl i) <> [] <-> E tbl i <> [].
Proof. destruct (Z.eqb_spec i j) as [->|]; [by destruct (E tbl j)|done]. Qed.

Lemma reallocate_pairs_spec prs : forall g O P, repr g O P -> (forall t, t ∈ prs -> pair_in_range g t) ->
  exists g', reallocate_pairs g prs = Ok g' /\ repr g' O P /\ same_meta g g'.
Proof.
  induction prs as [|t prs IH]; intros g O P HR Hprs; [by exists g|]. cbn [reallocate_pairs].
  destruct HR as [HI HC]. destruct (Hprs t) as [Rs Rb]; [left|].
  destruct (update_table_Ok (venuesForSellingAsset g) (sellingAsset t) Edges.reallocate)
    as (ts & -> & Ls & Vs); [by rewrite (n_sell _ _ HI)|]. rewrite bind_Ok_l.
  destruct (update_table_Ok (venuesForBuyingAsset g) (buyingAsset t) Edges.reallocate)
    as (tb & -> & Lb & Vb); [by rewrite (n_buy _ _ HI)|]. rewrite bind_Ok_l.
  destruct (IH (with_tables tb ts g) O P) as (g' & E1 & R1 & M1).
  - split.
    + apply (interning_tables g _ []); gfields; try done. intros i Hi. split; [done|].
      rewrite Vs, Vb. by rewrite !reallocate_at_nil.
    + unfold contents. gfields.
      pose proof (c_wf_sell _ _ _ _ _ _ _ HC) as Ws. pose proof (c_wf_buy _ _ _ _ _ _ _ HC) as Wb.
      eapply content_venues; [exact HC| | | |]; intros i.
      * rewrite Vs. case_match; [by apply reallocate_wf|done].
      * rewrite Vb. case_match; [by apply reallocate_wf|done].
      * intros k. rewrite Vs. destruct (Z.eqb_spec i (sellingAsset t)) as [->|]; [apply reallocate_venue|done].
      * intros k. rewrite Vb. destruct (Z.eqb_spec i (buyingAsset t)) as [->|]; [apply reallocate_venue|done].
  - intros t' Ht'. apply Hprs. by right.
  - exists g'. split_and!; done.
Qed.

Lemma repr_meta g O P tx l : repr g O P -> repr (with_ledger l (with_batch tx g)) O P.
Proof. intros [[] HC]. split; [by split|exact HC]. Qed.

Lemma repr_batch g O P tx : repr g O P -> repr (with_batch tx g) O P.
Proof. intros [[] HC]. split; [by split|exact HC]. Qed.

Lemma repr_ledger g O P l : repr g O P -> repr (with_ledger l g) O P.
Proof. intros [[] HC]. split; [by split|exact HC]. Qed.

Lemma Apply_spec g O P ledger : repr g O P ->
  committed (batchedUpdates g) = false -> Forall op_valid (operations (batchedUpdates g)) ->
  Z.of_nat (length (idToAssetString g)) + 2 * Z.of_nat (length (operations (batchedUpdates g))) <= 2 ^ 31 ->
  (lastLedger g >? 0) && (ledger <=? lastLedger g) = false ->
  exists g', Apply g ledger = Ok (g', None) /\
    repr g' (ops_offers (operations (batchedUpdates g)) O) (ops_pools (operations (batchedUpdates g)) P) /\
    lastLedger g' = ledger /\ batchedUpdates g' = batch.
Proof.
  intros HR Hc Hops Hroom Hl. unfold Apply, apply. rewrite Hc. gfields. rewrite Hl.
  destruct (apply_operations_spec (operations (batchedUpdates g))
    (with_batch (mkBatch (operations (batchedUpdates g)) true) g) O P ∅)
    as (g1 & prs & E1 & R1 & M1 & H1); [by apply repr_batch|done|done|intros t; by rewrite elem_of_empty|].
  rewrite E1, bind_Ok_l.
  destruct (reallocate_pairs_spec (elements prs) (with_ledger ledger g1) _ _ (repr_ledger _ _ _ ledger R1))
    as (g2 & E2 & R2 & [M2 M2']).
  { intros t. rewrite elem_of_elements. apply H1. }
  rewrite E2, !bind_Ok_l. eexists. split; [done|]. split_and!; [by apply repr_batch|done|done].
Qed.

(** ** Observers *)

Lemma NoDup_concat {A} (ll : list (list A)) :
  (forall i l, ll !! i = Some l -> NoDup l) ->
  (forall i j l l' x, ll !! i = Some l -> ll !! j = Some l' -> x ∈ l -> x ∈ l' -> i = j) ->
  NoDup (concat ll).
Proof.
  induction ll as [|l ll IH]; intros Hnd Hdisj; simpl; [constructor|].
  apply NoDup_app. split_and!.
  - by apply (Hnd 0%nat).
  - intros x Hx Hin. rewrite list_elem_of_In in Hin. apply in_concat in Hin as (l' & H1 & H2).
    rewrite <- list_elem_of_In in H1. rewrite <- list_elem_of_In in H2. apply list_elem_of_lookup_1 in H1 as [j Hj].
    by pose proof (Hdisj 0%nat (S j) l l' x eq_refl Hj Hx H2).
  - apply IH; [intros i l' H; by apply (Hnd (S i))|].
    intros i j l1 l2 x H1 H2 H3 H4. by apply Nat.succ_inj, (Hdisj (S i) (S j) l1 l2 x).
Qed.

Lemma venue_elem e x : wf e -> x ∈ e -> venue e (key x) = value x.
Proof.
  intros Hw Hx. apply list_elem_of_split in Hx as (e1 & e2 & ->).
  apply venue_middle; [done|]. destruct Hw as [Hn _ _]. rewrite map_app in Hn. simpl in Hn.
  apply NoDup_app in Hn as (_ & Hd & _). intros Hin. apply (Hd _ Hin). left.
Qed.

Lemma venue_elem_inv e k : venue e k <> noVenues -> exists x, x ∈ e /\ key x = k /\ value x = venue e k.
Proof.
  induction e as [|x e IH]; simpl; [done|]. destruct (Z.eqb_spec (key x) k) as [Hk|Hk].
  - intros _. exists x. split_and!; [left|done|done].
  - intros H. destruct (IH H) as (y & H1 & H2 & H3). exists y. split_and!; [by right|done|done].
Qed.

Lemma lookup_E tbl i e : tbl !! i = Some e -> E tbl (Z.of_nat i) = e.
Proof.
  intros H. unfold E. destruct (Z.ltb_spec (Z.of_nat i) 0); [lia|]. by rewrite Nat2Z.id, H.
Qed.

Lemma E_lookup tbl i : E tbl i <> [] -> exists j, i = Z.of_nat j /\ tbl !! j = Some (E tbl i).
Proof.
  unfold E. destruct (Z.ltb_spec i 0); [done|]. destruct (tbl !! Z.to_nat i) as [e|] eqn:E0; [|done].
  intros _. exists (Z.to_nat i). split; [lia|done].
Qed.

Definition edge_offers (e : edgeSet) : list OfferEntry := concat (map (fun x => offers (value x)) e).

Lemma elem_of_edge_offers e o : wf e -> o ∈ edge_offers e <-> exists k, o ∈ offers (venue e k).
Proof.
  intros Hw. unfold edge_offers. rewrite list_elem_of_In, in_concat. split.
  - intros (l & Hl & Ho). apply in_map_iff in Hl as (x & <- & Hx).
    rewrite <- list_elem_of_In in Hx. rewrite <- list_elem_of_In in Ho. exists (key x). by rewrite venue_elem.
  - intros [k Ho]. destruct (venue_elem_inv e k) as (x & H1 & H2 & H3).
    { intros E0. rewrite E0 in Ho. by apply elem_of_nil in Ho. }
    exists (offers (value x)). split; [|by rewrite H3, <- list_elem_of_In].
    apply in_map_iff. exists x. by rewrite <- list_elem_of_In.
Qed.

Lemma elem_of_Offers g O P o : repr g O P -> o ∈ Offers g <-> O !! OfferId o = Some o.
Proof.
  intros [HI HC]. unfold Offers. rewrite list_elem_of_In, in_concat. split.
  - intros (l & Hl & Ho). apply in_map_iff in Hl as (e & <- & He).
    rewrite <- list_elem_of_In in He. rewrite <- list_elem_of_In in Ho. apply list_elem_of_lookup_1 in He as [i He].
    apply lookup_E in He as <-. apply elem_of_edge_offers in Ho as [k Ho]; [|apply HC].
    by apply HC in Ho as [? _].
  - intros HO. destruct (used_selling_of _ _ _ _ _ _ _ _ _ HC HO) as (s & b & Hsb).
    assert (Hin : o ∈ offers (venue (E (venuesForSellingAsset g) s) b)) by (by apply HC).
    destruct (E_lookup (venuesForSellingAsset g) s) as (j & Hj & Hlk).
    { intros E0. rewrite E0 in Hin. by apply elem_of_nil in Hin. }
    eexists. split.
    + apply in_map_iff. eexists. split; [done|]. rewrite <- list_elem_of_In.
      by eapply list_elem_of_lookup_2.
    + rewrite <- list_elem_of_In. apply elem_of_edge_offers; [apply HC|]. by exists b.
Qed.

Lemma NoDup_edge_offers g O P i : repr g O P -> NoDup (edge_offers (E (venuesForSellingAsset g) i)).
Proof.
  intros [HI HC]. pose proof (c_wf_sell _ _ _ _ _ _ _ HC i) as Hw. apply NoDup_concat.
  - intros j l Hl. apply list_lookup_fmap_Some in Hl as (x & -> & Hx).
    apply list_elem_of_lookup_2 in Hx. rewrite <- (venue_elem _ _ Hw Hx).
    apply (NoDup_fmap_1 OfferId). apply (v_nodup _ (venue_wf _ _ Hw)).
  - intros j j' l l' o Hl Hl' Ho Ho'.
    apply list_lookup_fmap_Some in Hl as (x & -> & Hx). apply list_lookup_fmap_Some in Hl' as (x' & -> & Hx').
    pose proof (list_elem_of_lookup_2 _ _ _ Hx) as Ex. pose proof (list_elem_of_lookup_2 _ _ _ Hx') as Ex'.
    rewrite <- (venue_elem _ _ Hw Ex) in Ho. rewrite <- (venue_elem _ _ Hw Ex') in Ho'.
    apply HC in Ho as [_ [_ Hb]]. apply HC in Ho' as [_ [_ Hb']].
    eapply (NoDup_lookup (keys (E (venuesForSellingAsset g) i))); [apply Hw| |].
    + apply list_lookup_fmap_Some. by exists x.
    + apply list_lookup_fmap_Some. exists x'. split; [congruence|done].
Qed.

Lemma NoDup_Offers g O P : repr g O P -> NoDup (Offers g).
Proof.
  intros HR. apply NoDup_concat.
  - intros i l Hl. apply list_lookup_fmap_Some in Hl as (e & -> & He). apply lookup_E in He as <-.
    by apply (NoDup_edge_offers g O P).
  - intros i j l l' o Hl Hl' Ho Ho'.
    apply list_lookup_fmap_Some in Hl as (e & -> & He). apply list_lookup_fmap_Some in Hl' as (e' & -> & He').
    apply lookup_E in He as <-. apply lookup_E in He' as <-. destruct HR as [_ HC].
    apply elem_of_edge_offers in Ho as [k Ho]; [|apply HC].
    apply elem_of_edge_offers in Ho' as [k' Ho']; [|apply HC].
    apply HC in Ho as [_ [Hs _]]. apply HC in Ho' as [_ [Hs' _]].
    assert (Z.of_nat i = Z.of_nat j) by congruence. lia.
Qed.

Lemma NoDup_map_values {K V} `{Countable K} (m : gmap K V) :
  (forall k1 k2 v, m !! k1 = Some v -> m !! k2 = Some v -> k1 = k2) -> NoDup (map_to_list m).*2.
Proof.
  intros Hinj. apply NoDup_fmap_2_strong; [|apply NoDup_map_to_list].
  intros [k1 v1] [k2 v2] H1 H2 Hv. simpl in Hv. subst v2.
  apply elem_of_map_to_list in H1, H2. f_equal. by eapply Hinj.
Qed.

Lemma elem_of_map_values {K V} `{Countable K} (m : gmap K V) v :
  v ∈ (map_to_list m).*2 <-> exists k, m !! k = Some v.
Proof.
  rewrite list_elem_of_fmap. split.
  - intros ([k v'] & -> & Hk). exists k. by apply elem_of_map_to_list in Hk.
  - intros [k Hk]. exists (k, v). split; [done|]. by apply elem_of_map_to_list.
Qed.

Lemma Offers_perm g O P : repr g O P -> Offers g ≡ₚ (map_to_list O).*2.
Proof.
  intros HR. pose proof (c_O _ _ _ _ _ _ _ (proj2 HR)) as HO. apply NoDup_Permutation.
  - by eapply NoDup_Offers.
  - apply NoDup_map_values. intros k1 k2 o H1 H2. apply HO in H1 as [<- _]. by apply HO in H2 as [<- _].
  - intros o. rewrite (elem_of_Offers g O P o HR), elem_of_map_values. split; [by eauto|].
    intros [id H]. by destruct (HO _ _ H) as [<- _].
Qed.

Lemma pool_has_ids f sell buy lp tp O P k e : content f sell buy lp tp O P ->
  P !! k = Some e -> pool_key e = k /\ exists a b, pool_ids f e a b.
Proof.
  intros C HP. destruct (c_P _ _ _ _ _ _ _ C _ _ HP) as [Hk [cp Hv]]. split; [done|].
  pose proof (pv_body _ _ Hv) as HB.
  destruct (c_used _ _ _ _ _ _ _ C _ (used_A O P k e cp HP HB)) as [a Ha].
  destruct (c_used _ _ _ _ _ _ _ C _ (used_B O P k e cp HP HB)) as [b Hb]. by exists a, b, cp.
Qed.

Lemma LiquidityPools_perm g O P : repr g O P -> LiquidityPools g ≡ₚ (map_to_list P).*2.
Proof.
  intros [_ HC]. pose proof (c_lp _ _ _ _ _ _ _ HC) as Hlp. apply NoDup_Permutation.
  - apply NoDup_map_values. intros [a b] [a' b'] e H1 H2. apply Hlp in H1 as [_ H1], H2 as [_ H2].
    by destruct (pool_ids_fun _ _ _ _ _ _ H1 H2) as [-> ->].
  - apply NoDup_map_values. intros k1 k2 e H1 H2.
    destruct (pool_has_ids _ _ _ _ _ _ _ _ _ HC H1) as [<- _].
    by destruct (pool_has_ids _ _ _ _ _ _ _ _ _ HC H2) as [<- _].
  - intros e. unfold LiquidityPools. rewrite !elem_of_map_values. split.
    + intros [[a b] H]. apply Hlp in H as [H _]. eauto.
    + intros [k H]. destruct (pool_has_ids _ _ _ _ _ _ _ _ _ HC H) as [Hk (a & b & Hids)].
      exists (mkPair a b). apply Hlp. by rewrite Hk.
Qed.

Lemma values_empty {K V} `{Countable K} (m : gmap K V) : (map_to_list m).*2 = [] <-> m = ∅.
Proof.
  rewrite <- map_to_list_empty_iff. split; [apply fmap_nil_inv|by intros ->].
Qed.

Lemma IsEmpty_iff g O P : repr g O P -> IsEmpty g = true <-> O = ∅ /\ P = ∅.
Proof.
  intros HR. unfold IsEmpty. rewrite andb_true_iff, !Nat.eqb_eq, !map_size_empty_iff.
  pose proof (LiquidityPools_perm g O P HR) as Hp. unfold LiquidityPools in Hp.
  assert (Ep : liquidityPools g = ∅ <-> P = ∅).
  { rewrite <- (values_empty P), <- values_empty. split; intros E0; rewrite E0 in Hp;
      [by apply Permutation_nil_l in Hp|by apply Permutation_nil_r in Hp]. }
  assert (Eo : tradingPairForOffer g = ∅ <-> O = ∅).
  { destruct HR as [_ HC]. split; intros E0; apply map_empty; intros id.
    - destruct (O !! id) as [o|] eqn:Ho; [|done].
      destruct (used_selling_of _ _ _ _ _ _ _ _ _ HC Ho) as (s & b & Hsb).
      assert (Ht : tradingPairForOffer g !! id = Some (mkPair b s)) by (apply HC; by exists o).
      by rewrite E0, lookup_empty in Ht.
    - destruct (tradingPairForOffer g !! id) as [t|] eqn:Et; [|done].
      apply HC in Et as (o & Ho & _). by rewrite E0, lookup_empty in Ho. }
  rewrite Ep, Eo. naive_solver.
Qed.

(** ** Reachable graphs *)

Lemma E_nil i : E [] i = [].
Proof. unfold E. case_match; [done|]. by rewrite lookup_nil. Qed.

Lemma repr_Clear g : repr (Clear g) ∅ ∅.
Proof.
  split.
  - split; try done; cbn.
    + intros s i. rewrite lookup_empty. split; [done|]. intros [Hs H]. destruct Hs. rewrite <- H.
      apply name_out. simpl. lia.
    + constructor.
    + intros i. split; [by intros ?%elem_of_nil|lia].
    + intros i _ H. destruct H. apply name_out. simpl. lia.
  - unfold contents, Clear. gfields. split; try (intros *; rewrite ?E_nil, ?lookup_empty; simpl).
    + apply wf_nil.
    + apply wf_nil.
    + done.
    + split; [by intros ?%elem_of_nil|naive_solver].
    + intros Hb. split; [by intros <-|naive_solver].
    + naive_solver.
    + split; [done|]. intros (o & H & _). done.
    + done.
    + done.
    + intros H. destruct H as [id o H|id o H|k p cp H|k p cp H]; by rewrite lookup_empty in H.
Qed.

(** Graphs built by the exported methods from valid entries, with the number
    of interned assets within int32. *)
Inductive reachable : OrderBookGraph -> Prop :=
| reach_new : reachable NewOrderBookGraph
| reach_add_offers g os : reachable g -> Forall offer_valid os -> reachable (AddOffers g os)
| reach_add_pools g es : reachable g -> Forall (fun e => exists cp, pool_valid e cp) es ->
    reachable (AddLiquidityPools g es)
| reach_remove_offer g id : reachable g -> reachable (RemoveOffer g id)
| reach_remove_pool g e cp : reachable g -> pool_valid e cp -> reachable (RemoveLiquidityPool g e)
| reach_discard g : reachable g -> reachable (Discard g)
| reach_clear g : reachable g -> reachable (Clear g)
| reach_apply g ledger g' err : reachable g ->
    Z.of_nat (length (idToAssetString g)) + 2 * Z.of_nat (length (operations (batchedUpdates g))) <= 2 ^ 31 ->
    Apply g ledger = Ok (g', err) -> reachable g'.

Definition good (g : OrderBookGraph) : Prop :=
  (exists O P, repr g O P) /\ Forall op_valid (operations (batchedUpdates g)).

Lemma good_push g op : good g -> op_valid op -> good (with_batch (batch_push (batchedUpdates g) op) g).
Proof.
  intros [(O & P & HR) Hops] Hop. split; [exists O, P; by apply repr_batch|]. gfields. cbn.
  apply Forall_app. split; [done|]. by constructor.
Qed.

Lemma Apply_stale g ledger : committed (batchedUpdates g) = false ->
  (lastLedger g >? 0) && (ledger <=? lastLedger g) = true ->
  Apply g ledger = Ok (with_batch (mkBatch (operations (batchedUpdates g)) true) g, Some errUnexpectedLedger).
Proof. intros Hc Hl. unfold Apply, apply. rewrite Hc. gfields. by rewrite Hl. Qed.

Lemma reachable_good g : reachable g -> good g.
Proof.
  intros Hr. induction Hr as [|g os _ IH Hos|g es _ IH Hes|g id _ IH|g e cp _ IH He|g _ IH|g _ IH
    |g l g' err _ IH Hroom HA].
  - split; [exists ∅, ∅; apply repr_Clear|constructor].
  - revert g IH. induction Hos as [|o os Ho _ IH']; intros g IH; [done|]. apply IH'.
    apply good_push; [done|]. by constructor.
  - revert g IH. induction Hes as [|e es [cp He] _ IH']; intros g IH; [done|]. apply IH'.
    apply good_push; [done|]. by econstructor.
  - apply good_push; [done|]. constructor.
  - apply good_push; [done|]. by econstructor.
  - destruct IH as [(O & P & HR) _]. split; [exists O, P; by apply repr_batch|constructor].
  - split; [exists ∅, ∅; apply repr_Clear|constructor].
  - destruct IH as [(O & P & HR) Hops]. destruct (committed (batchedUpdates g)) eqn:Hc.
    { unfold Apply, apply in HA. by rewrite Hc in HA. }
    destruct ((lastLedger g >? 0) && (l <=? lastLedger g)) eqn:Hl.
    + rewrite Apply_stale in HA by done. injection HA as <- <-.
      split; [exists O, P; by apply repr_batch|done].
    + destruct (Apply_spec g O P l HR Hc Hops Hroom Hl) as (g1 & E1 & R1 & _ & B1).
      rewrite E1 in HA. injection HA as <- <-. split; [by eauto|]. rewrite B1. constructor.
Qed.

(** ** Properties *)

(** C2: Applying a batch of valid operations to a graph that represents a book
    succeeds and yields a graph that represents the book obtained by performing
    the operations in order on the two maps (insert or replace an offer by id,
    delete an offer, insert or replace a pool by asset pair, delete it); no
    internal operation errors or panics; the ledger is recorded and a fresh
    batch is ready. *)
Theorem Apply_refines (g : OrderBookGraph) (O : offer_map) (P : pool_map) (ledger : Z)
  (HR : repr g O P) (Hc : committed (batchedUpdates g) = false)
  (Hops : Forall op_valid (operations (batchedUpdates g)))
  (Hroom : Z.of_nat (length (idToAssetString g)) +
           2 * Z.of_nat (length (operations (batchedUpdates g))) <= 2 ^ 31)
  (Hl : lastLedger g = 0 \/ lastLedger g < ledger) :
  exists g', Apply g ledger = Ok (g', None) /\
    repr g' (ops_offers (operations (batchedUpdates g)) O)
            (ops_pools (operations (batchedUpdates g)) P) /\
    lastLedger g' = ledger /\ batchedUpdates g' = batch.
Proof. apply Apply_spec; try done. lia. Qed.

(** A ledger that is not newer than the last one is rejected with
    [errUnexpectedLedger] and leaves the book untouched, but the batch is
    spent: every further [Apply] panics until [Discard] installs a new batch. *)
Theorem Apply_stale_ledger (g : OrderBookGraph) (O : offer_map) (P : pool_map) (ledger : Z)
  (HR : repr g O P) (Hc : committed (batchedUpdates g) = false)
  (Hroom : Z.of_nat (length (idToAssetString g)) <= 2 ^ 31)
  (Hl : 0 < lastLedger g /\ ledger <= lastLedger g) :
  exists g', Apply g ledger = Ok (g', Some errUnexpectedLedger) /\ repr g' O P /\
    lastLedger g' = lastLedger g /\
    (forall l, Apply g' l = Panic errBatchAlreadyApplied) /\
    (forall l, lastLedger g < l -> exists g2, Apply (Discard g') l = Ok (g2, None) /\ repr g2 O P).
Proof.
  rewrite Apply_stale by (done || lia). eexists. split; [done|]. split_and!; try done.
  - by apply repr_batch.
  - intros l Hll. match goal with |- context [Apply ?x l] => set (g1 := x) end.
    destruct (Apply_spec g1 O P l) as (g2 & E2 & R2 & _).
    + by do 2 apply repr_batch.
    + done.
    + constructor.
    + unfold g1, Discard. gfields. cbn [batch operations length]. lia.
    + unfold g1, Discard. gfields. lia.
    + by exists g2.
Qed.

(** C26: Every graph reachable by the exported methods from a new graph, with
    valid entries and within the range of asset ids, represents some book, its
    queue holds valid operations only, and its offer lists are sorted from
    cheapest to dearest in every edge of both tables, which mirror each other. *)
Theorem reachable_represents (g : OrderBookGraph) (Hr : reachable g) :
  (exists O P, repr g O P) /\ Forall op_valid (operations (batchedUpdates g)) /\
  (forall s b, ascending (offers (venue (E (venuesForSellingAsset g) s) b)) /\
     venue (E (venuesForSellingAsset g) s) b = venue (E (venuesForBuyingAsset g) b) s).
Proof.
  destruct (reachable_good g Hr) as [(O & P & HR) Hops]. split_and!; [by eauto|done|].
  intros s b. destruct HR as [_ HC]. split; [|apply HC].
  apply (v_sorted _ (venue_wf _ _ (c_wf_sell _ _ _ _ _ _ _ HC s))).
Qed.

(** The observers report the book: [Offers] lists every offer exactly
    once, [LiquidityPools] every pool exactly once, [IsEmpty] holds exactly of
    the empty book, and the edge from a selling to a buying asset holds exactly
    the offers between the two. *)
Theorem observers_report_book (g : OrderBookGraph) (O : offer_map) (P : pool_map) (HR : repr g O P) :
  Offers g ≡ₚ (map_to_list O).*2 /\
  LiquidityPools g ≡ₚ (map_to_list P).*2 /\
  (IsEmpty g = true <-> O = ∅ /\ P = ∅) /\
  (forall s b o, o ∈ offers (venue (E (venuesForSellingAsset g) s) b) <->
     O !! OfferId o = Some o /\ sells (sid (assetStringToID g)) o s b).
Proof.
  split_and!; [by eapply Offers_perm|by eapply LiquidityPools_perm|by apply IsEmpty_iff|].
  intros s b o. apply HR.
Qed.

(** ** Witnesses *)

Lemma sample_offer_valid id : offer_valid (sample_offer id 2 1).
Proof. split; [split; cbn; lia|apply Asset.usd_wf|done|done]. Qed.

Definition sample_graph : OrderBookGraph :=
  AddOffers NewOrderBookGraph [sample_offer 1 2 1; sample_offer 2 2 1].

Lemma sample_graph_repr : repr sample_graph ∅ ∅.
Proof. unfold sample_graph, AddOffers. cbn [fold_left]. do 2 apply repr_batch. apply repr_Clear. Qed.

Lemma sample_graph_ops : Forall op_valid (operations (batchedUpdates sample_graph)).
Proof. repeat (apply Forall_cons; split); [apply op_add_offer..|apply Forall_nil_2]; apply sample_offer_valid. Qed.

Lemma Apply_refines_witness :
  exists g', Apply sample_graph 5 = Ok (g', None) /\
    repr g' {[2 := sample_offer 2 2 1; 1 := sample_offer 1 2 1]} ∅ /\ lastLedger g' = 5.
Proof.
  destruct (Apply_refines sample_graph ∅ ∅ 5 sample_graph_repr eq_refl sample_graph_ops
    ltac:(vm_compute; discriminate) (or_introl eq_refl)) as (g' & H1 & H2 & H3 & _).
  exists g'. split; [exact H1|]. split; [exact H2|exact H3].
Defined.

Lemma Apply_stale_ledger_witness :
  exists g', Apply (with_ledger 7 sample_graph) 7 = Ok (g', Some errUnexpectedLedger).
Proof.
  destruct (Apply_stale_ledger (with_ledger 7 sample_graph) ∅ ∅ 7
    (repr_ledger _ _ _ 7 sample_graph_repr) eq_refl ltac:(vm_compute; discriminate)
    ltac:(cbn; lia)) as (g' & H & _).
  exists g'. exact H.
Defined.

Lemma reachable_represents_witness : exists O P, repr sample_graph O P.
Proof.
  apply (proj1 (reachable_represents sample_graph
    (reach_add_offers _ _ reach_new
      (Forall_cons_2 _ _ _ (sample_offer_valid 1)
        (Forall_cons_2 _ _ _ (sample_offer_valid 2) (Forall_nil_2 _)))))).
Defined.

Lemma observers_report_book_witness : IsEmpty sample_graph = true.
Proof.
  apply (proj1 (proj2 (proj2 (observers_report_book sample_graph ∅ ∅ sample_graph_repr)))).
  split; reflexivity.
Defined.

End GraphRefine.
