(* ===== verification/GraphVerify.v ===== *)
(** * The self check of the order book graph

    [Verify] of graph.go walks both tables of edges and compares them with each
    other and with the maps.  It succeeds on every graph that represents an
    order book, and so on every graph the operations can build, and returns the
    offers and the pools of that book. *)
From S2P Require Import Prelude Price Xdr Pools Edges Graph GraphRefine.
Local Open Scope Z_scope.

Module GraphVerify.
Import Pools Edges Graph GraphRefine.

(** ** Loops that do not fail *)

Lemma res_fold_inv {A B} (f : A -> B -> res A) (I : list B -> A -> Prop) l0 acc :
  (forall done x rest acc, l0 = done ++ x :: rest -> I done acc ->
     exists acc', f acc x = Ok acc' /\ I (done ++ [x]) acc') ->
  I [] acc -> exists acc', res_fold f acc l0 = Ok acc' /\ I l0 acc'.
Proof.
  intros Hstep. assert (H : forall l done acc, l0 = done ++ l -> I done acc ->
    exists acc', res_fold f acc l = Ok acc' /\ I (done ++ l) acc').
  { clear acc. induction l as [|x l IH]; intros done acc Hl HI; simpl.
    - exists acc. by rewrite app_nil_r.
    - destruct (Hstep done x l acc Hl HI) as (acc1 & -> & H1). rewrite bind_Ok_l.
      destruct (IH (done ++ [x]) acc1) as (acc' & -> & H'); [by rewrite <- app_assoc|done|].
      exists acc'. split; [done|]. by rewrite <- app_assoc in H'. }
  intros HI. by apply (H l0 [] acc).
Qed.

Lemma res_fold_imap {A B} (f : A -> nat * B -> res A) (I : nat -> A -> Prop) l : forall m acc,
  (forall i x acc, l !! i = Some x -> I (m + i)%nat acc ->
     exists acc', f acc (m + i, x)%nat = Ok acc' /\ I (S (m + i)) acc') ->
  I m acc -> exists acc', res_fold f acc (imap (fun i => pair (m + i)%nat) l) = Ok acc' /\ I (m + length l)%nat acc'.
Proof.
  induction l as [|x l IH]; intros m acc Hstep HI; simpl.
  - exists acc. by rewrite Nat.add_0_r.
  - destruct (Hstep 0%nat x acc eq_refl) as (acc1 & H1 & H2); [by rewrite Nat.add_0_r|].
    rewrite H1, bind_Ok_l. rewrite Nat.add_0_r in H2.
    destruct (IH (S m) acc1) as (acc' & H3 & H4); [|done|].
    + intros i y a Hy Ha. destruct (Hstep (S i) y a Hy) as (a' & H5 & H6).
      { by replace (m + S i)%nat with (S m + i)%nat by lia. }
      exists a'. by replace (S m + i)%nat with (m + S i)%nat by lia.
    + exists acc'. split; [|by replace (m + S (length l))%nat with (S m + length l)%nat by lia].
      rewrite <- H3. f_equal. apply imap_ext. intros i y _. simpl. f_equal. lia.
Qed.

(** ** Sets of offers *)

Definition offer_set (os : list OfferEntry) : gmap Z OfferEntry :=
  list_to_map (map (fun o => (OfferId o, o)) os).

Lemma offer_set_keys os : (map (fun o => (OfferId o, o)) os).*1 = ids os.
Proof. unfold ids. induction os as [|o os IH]; [done|]. cbn. f_equal. exact IH. Qed.

Lemma offer_set_lookup os id o : NoDup (ids os) ->
  offer_set os !! id = Some o <-> o ∈ os /\ OfferId o = id.
Proof.
  intros Hn. unfold offer_set. rewrite <- elem_of_list_to_map by by rewrite offer_set_keys.
  rewrite list_elem_of_In, in_map_iff, list_elem_of_In. naive_solver.
Qed.

Lemma offer_set_fresh os id : id ∉ ids os -> offer_set os !! id = None.
Proof. intros H. unfold offer_set. apply not_elem_of_list_to_map_1. by rewrite offer_set_keys. Qed.

Lemma offer_set_snoc os o : OfferId o ∉ ids os -> offer_set (os ++ [o]) = <[OfferId o := o]> (offer_set os).
Proof.
  intros H. unfold offer_set. rewrite map_app. simpl. rewrite list_to_map_snoc; [done|].
  by rewrite offer_set_keys.
Qed.

Lemma offer_set_perm os os' : NoDup (ids os) -> os ≡ₚ os' -> offer_set os = offer_set os'.
Proof.
  intros Hn Hp. apply list_to_map_proper; [by rewrite offer_set_keys|]. by apply Permutation_map.
Qed.

Lemma ids_app os os' : ids (os ++ os') = ids os ++ ids os'.
Proof. apply map_app. Qed.

Lemma NoDup_ids_prefix os os' : NoDup (ids (os ++ os')) -> NoDup (ids os).
Proof. rewrite ids_app, NoDup_app. by intros [? _]. Qed.

Section Verify.
Context (g : OrderBookGraph) (O : offer_map) (P : pool_map).
Hypothesis HR : repr g O P.
Hypothesis Hlen : Z.of_nat (length (idToAssetString g)) < 2 ^ 31.

Abbreviation f := (sid (assetStringToID g)).
Abbreviation sell := (E (venuesForSellingAsset g)).
Abbreviation buy := (E (venuesForBuyingAsset g)).
Abbreviation nm := (name (idToAssetString g)).

(** The venue [v] of the assets with ids [i] (sold) and [k] (bought). *)
Record edge_ok (i k : Z) (v : Venues) : Prop := {
  eo_venue : v = venue (sell i) k;
  eo_occupied : occupied v
}.

Lemma sell_edge_ok i x : x ∈ sell i -> edge_ok i (key x) (value x).
Proof.
  intros Hx. pose proof (c_wf_sell _ _ _ _ _ _ _ (proj2 HR) i) as Hw. split.
  - by rewrite venue_elem.
  - pose proof (e_occupied _ Hw) as Ho. by rewrite Forall_forall in Ho; apply Ho.
Qed.

Lemma buy_edge_ok k x : x ∈ buy k -> edge_ok (key x) k (value x).
Proof.
  intros Hx. pose proof (c_wf_buy _ _ _ _ _ _ _ (proj2 HR) k) as Hw. split.
  - rewrite (c_sym _ _ _ _ _ _ _ (proj2 HR)). by rewrite venue_elem.
  - pose proof (e_occupied _ Hw) as Ho. by rewrite Forall_forall in Ho; apply Ho.
Qed.

Lemma edge_offer i k v o : edge_ok i k v -> o ∈ offers v -> O !! OfferId o = Some o /\ sells f o i k.
Proof. intros [-> _] Ho. by apply HR in Ho. Qed.

Lemma edge_pool i k v : edge_ok i k v -> has_pool v = true ->
  P !! pool_key (poolEntry (pool v)) = Some (poolEntry (pool v)) /\
  pool_ids f (poolEntry (pool v)) (assetA (pool v)) (assetB (pool v)) /\ between (pool v) i k.
Proof.
  intros [-> _] Hp. apply HR; [|done]. unfold has_pool in Hp. by destruct (BodyConstantProduct _).
Qed.

(** Both ends of an edge are interned. *)
Lemma edge_ends i k v : edge_ok i k v -> (exists a, f a = Some i) /\ (exists b, f b = Some k).
Proof.
  intros He. destruct (eo_occupied _ _ _ He) as [Ho|Hp].
  - destruct (offers v) as [|o os] eqn:Eo; [done|].
    destruct (edge_offer i k v o He) as [_ [H1 H2]]; [rewrite Eo; left|]. eauto.
  - destruct (edge_pool i k v He Hp) as (_ & (cp & _ & H1 & H2) & [[-> ->]|[-> ->]]); eauto.
Qed.

Lemma interned i a : f a = Some i ->
  0 <= i < Z.of_nat (length (idToAssetString g)) /\ nm i = Asset.String_ a /\ nm i <> EmptyString.
Proof.
  intros H. destruct (sid_range g [] a i (proj1 HR) H) as [H1 H2]. split; [done|]. split; [done|].
  rewrite H2. apply Asset.String_nonempty.
Qed.

Lemma edge_index i k v : edge_ok i k v ->
  index (idToAssetString g) i = Ok (nm i) /\ index (idToAssetString g) k = Ok (nm k).
Proof.
  intros He. destruct (edge_ends i k v He) as [[a Ha] [b Hb]].
  apply interned in Ha as [Ha _]. apply interned in Hb as [Hb _]. by rewrite !index_name.
Qed.

(** ** Checks of one edge *)

Lemma valid_offer o : O !! OfferId o = Some o -> offer_valid o.
Proof. intros H. by apply HR in H as [_ ?]. Qed.

Lemma offer_assets_ok i k o prev : O !! OfferId o = Some o -> sells f o i k ->
  (match prev with Some q => O !! OfferId q = Some q /\ sells f q i k | None => True end) ->
  verify_offer_assets prev o (nm k) (nm i) = Ok tt.
Proof.
  intros HO [Hs Hb] Hprev. unfold verify_offer_assets. destruct prev as [q|].
  - destruct Hprev as [HOq [Hsq Hbq]]. pose proof (valid_offer o HO) as V. pose proof (valid_offer q HOq) as V'.
    assert (Buying o = Buying q) as -> by (apply Asset.String_inj; [apply V|apply V'|]; by eapply sid_inj; [apply HR|..]).
    assert (Selling o = Selling q) as -> by (apply Asset.String_inj; [apply V|apply V'|]; by eapply sid_inj; [apply HR|..]).
    by rewrite !(proj2 (Asset.Equals_eq _ _)).
  - apply interned in Hs as (_ & -> & _). apply interned in Hb as (_ & -> & _). by rewrite !String.eqb_refl.
Qed.

Lemma trading_pair o i k : O !! OfferId o = Some o -> sells f o i k ->
  tradingPairForOffer g !! OfferId o = Some (mkPair k i).
Proof. intros HO Hs. apply HR. by exists o. Qed.

Lemma selling_offers_ok i k os : forall prev st,
  Forall (fun o => O !! OfferId o = Some o /\ sells f o i k) os ->
  (match prev with Some q => O !! OfferId q = Some q /\ sells f q i k | None => True end) ->
  NoDup (ids (vs_offers st ++ os)) -> vs_offerSet st = offer_set (vs_offers st) ->
  verify_selling_offers g i k (nm i) (nm k) prev os st =
    Ok (mkVerify (vs_offers st ++ os) (vs_pools st) (vs_poolSet st) (offer_set (vs_offers st ++ os))).
Proof.
  induction os as [|o os IH]; intros prev st Hos Hprev Hn Hset.
  - rewrite app_nil_r. destruct st; simpl in *. by subst.
  - apply Forall_cons in Hos as [[HO Hs] Hos]. cbn [verify_selling_offers].
    assert (Hfresh : OfferId o ∉ ids (vs_offers st)).
    { rewrite ids_app in Hn. apply NoDup_app in Hn as (_ & Hd & _). intros Hin. apply (Hd _ Hin). left. }
    rewrite Hset, offer_set_fresh by done. rewrite (trading_pair o i k HO Hs). cbn [default from_option id sellingAsset buyingAsset].
    rewrite !Z.eqb_refl. cbn [negb]. rewrite (offer_assets_ok i k o prev HO Hs Hprev), bind_Ok_l.
    rewrite IH; cbn [vs_offers vs_pools vs_poolSet vs_offerSet]; try done.
    + by rewrite <- app_assoc.
    + by rewrite <- app_assoc.
    + by rewrite offer_set_snoc.
Qed.

Lemma assertPoolsEqual_refl p cp : pool_valid p cp -> assertPoolsEqual p p = Ok tt.
Proof.
  intros [Ht Hb _ _ _]. unfold assertPoolsEqual. rewrite bool_decide_eq_true_2 by done. cbn [negb].
  assert (E1 : MustConstantProduct p = Ok cp).
  { unfold MustConstantProduct, GetConstantProduct. rewrite Ht, Hb. done. }
  rewrite E1, !bind_Ok_l. rewrite !(proj2 (Asset.Equals_eq _ _)) by done. by rewrite !Z.eqb_refl.
Qed.

Lemma verify_pool_ok i k v : edge_ok i k v -> has_pool v = true ->
  verify_pool g i k (pool v) = Ok tt /\ verify_pool g k i (pool v) = Ok tt.
Proof.
  intros He Hp. destruct (edge_pool i k v He Hp) as (HP & Hids & Hbt).
  destruct (c_P _ _ _ _ _ _ _ (proj2 HR) _ _ HP) as [_ (cp & Hv)].
  assert (Hlp : liquidityPools g !! mkPair (assetA (pool v)) (assetB (pool v)) = Some (poolEntry (pool v)))
    by (by apply HR).
  assert (Hboth : forall x y, between (pool v) x y -> verify_pool g x y (pool v) = Ok tt).
  { intros x y Hxy. unfold verify_pool.
    assert (E1 : (if assetA (pool v) =? x then
         if negb (assetB (pool v) =? y) then Err "pool assetB does not match edge" else Ok tt
       else if assetB (pool v) =? x then
         if negb (assetA (pool v) =? y) then Err "pool assetA does not match edge" else Ok tt
       else Err "pool assets does not match sellingAsset") = Ok tt).
    { destruct Hxy as [[-> ->]|[-> ->]].
      - by rewrite !Z.eqb_refl.
      - destruct (Z.eqb_spec (assetA (pool v)) (assetB (pool v))) as [->|]; by rewrite ?Z.eqb_refl. }
    rewrite E1, bind_Ok_l, Hlp. cbn [default from_option id]. rewrite (assertPoolsEqual_refl _ cp Hv), bind_Ok_l.
    destruct Hids as (cp' & Hb & HA & HB). unfold deref, from_opt. rewrite Hb. rewrite bind_Ok_l.
    unfold sid in HA, HB. rewrite HA, HB. cbn [default from_option id buyingAsset sellingAsset]. by rewrite !Z.eqb_refl. }
  split; [by apply Hboth|]. apply Hboth. destruct Hbt as [[-> ->]|[-> ->]]; [by right|by left].
Qed.

(** ** The first loop *)

Definition edge_pool_list (x : edge) : list LiquidityPoolEntry :=
  if has_pool (value x) then [poolEntry (pool (value x))] else [].
Definition edge_pools (e : edgeSet) : list LiquidityPoolEntry := concat (map edge_pool_list e).

(** The pools seen so far, one per pool id. *)
Record pools_inv (visited : list LiquidityPoolEntry) (st : verifyState) : Prop := {
  pi_sub e : e ∈ vs_pools st -> e ∈ visited;
  pi_nodup : NoDup (LiquidityPoolId <$> vs_pools st);
  pi_all e : e ∈ visited -> LiquidityPoolId e ∈ LiquidityPoolId <$> vs_pools st;
  pi_set id : is_Some (vs_poolSet st !! id) <-> id ∈ LiquidityPoolId <$> vs_pools st
}.

Record first_inv (os : list OfferEntry) (visited : list LiquidityPoolEntry) (st : verifyState) : Prop := {
  fi_offers : vs_offers st = os;
  fi_set : vs_offerSet st = offer_set os;
  fi_pools : pools_inv visited st
}.

Lemma pools_inv_seen visited st e : pools_inv visited st ->
  is_Some (vs_poolSet st !! LiquidityPoolId e) -> pools_inv (visited ++ [e]) st.
Proof.
  intros [H1 H2 H3 H4] He. split; [|done| |done].
  - intros x Hx. rewrite elem_of_app. auto.
  - intros x Hx. apply elem_of_app in Hx as [Hx|Hx]; [auto|]. apply list_elem_of_singleton in Hx as ->.
    by apply H4.
Qed.

Lemma pools_inv_new visited st e os oset : pools_inv visited st ->
  vs_poolSet st !! LiquidityPoolId e = None ->
  pools_inv (visited ++ [e]) (mkVerify os (vs_pools st ++ [e]) (<[LiquidityPoolId e := e]> (vs_poolSet st)) oset).
Proof.
  intros [H1 H2 H3 H4] He.
  assert (Hni : LiquidityPoolId e ∉ LiquidityPoolId <$> vs_pools st) by (rewrite <- H4, He; by intros [? ?]).
  split; cbn [vs_pools vs_poolSet].
  - intros x Hx. rewrite elem_of_app in *. destruct Hx; auto.
  - rewrite fmap_app. apply NoDup_app. split; [done|]. split; [|apply NoDup_singleton].
    intros id Hid Hid'. apply list_elem_of_singleton in Hid' as ->. done.
  - intros x Hx. rewrite fmap_app, elem_of_app. apply elem_of_app in Hx as [Hx|Hx]; [auto|].
    apply list_elem_of_singleton in Hx as ->. right. by left.
  - intros id. rewrite lookup_insert_is_Some', fmap_app, elem_of_app, H4. cbn.
    rewrite list_elem_of_singleton. naive_solver.
Qed.

Lemma selling_edge_ok i x os visited st : x ∈ sell i -> first_inv os visited st ->
  NoDup (ids (os ++ offers (value x))) ->
  exists st', verify_selling_edge g i (nm i) st x = Ok st' /\
    first_inv (os ++ offers (value x)) (visited ++ edge_pool_list x) st'.
Proof.
  intros Hx [Ho Hs Hp] Hn. pose proof (sell_edge_ok i x Hx) as He.
  unfold verify_selling_edge. rewrite (proj2 (edge_index _ _ _ He)), bind_Ok_l.
  rewrite selling_offers_ok; [|by apply Forall_forall; intros o; apply edge_offer|done|by rewrite Ho|by rewrite Ho].
  rewrite bind_Ok_l, Ho. unfold edge_pool_list. destruct (has_pool (value x)) eqn:Epool.
  - rewrite (proj1 (verify_pool_ok i (key x) (value x) He Epool)), bind_Ok_l. cbn [vs_poolSet vs_pools vs_offers vs_offerSet].
    destruct (vs_poolSet st !! _) eqn:El; (eexists; split; [done|]); (split; [done|done|]).
    + pose proof (pools_inv_seen visited st (poolEntry (pool (value x))) Hp) as [? ? ? ?]; [by rewrite El|].
      by split.
    + by apply pools_inv_new.
  - eexists. split; [done|]. split; [done|done|]. rewrite app_nil_r. destruct Hp. by split.
Qed.

Lemma selling_edges_ok i os visited st : first_inv os visited st -> NoDup (ids (os ++ edge_offers (sell i))) ->
  exists st', res_fold (verify_selling_edge g i (nm i)) st (sell i) = Ok st' /\
    first_inv (os ++ edge_offers (sell i)) (visited ++ edge_pools (sell i)) st'.
Proof.
  intros Hi Hn. apply (res_fold_inv _ (fun done => first_inv (os ++ edge_offers done) (visited ++ edge_pools done))).
  - intros done x rest st' Hl Hd. unfold edge_offers, edge_pools in *. rewrite !map_app, !concat_app. cbn [map concat].
    rewrite !app_nil_r, !app_assoc. apply selling_edge_ok; [rewrite Hl; set_solver|done|].
    rewrite Hl, map_app, concat_app in Hn. cbn [map concat] in Hn. rewrite !app_assoc in Hn.
    by eapply NoDup_ids_prefix.
  - unfold edge_offers, edge_pools. cbn. by rewrite !app_nil_r.
Qed.

Abbreviation T := (venuesForSellingAsset g).
Abbreviation U := (venuesForBuyingAsset g).

Lemma vacant_no_edges i : nm i = EmptyString -> sell i = [] /\ buy i = [].
Proof.
  intros Hv. split; [destruct (sell i) as [|x e] eqn:Ex|destruct (buy i) as [|x e] eqn:Ex]; try done; exfalso.
  - destruct (edge_ends i (key x) (value x)) as [[a Ha] _]; [apply sell_edge_ok; rewrite Ex; left|].
    by apply interned in Ha as (_ & _ & ?).
  - destruct (edge_ends (key x) i (value x)) as [_ [a Ha]]; [apply buy_edge_ok; rewrite Ex; left|].
    by apply interned in Ha as (_ & _ & ?).
Qed.

Lemma names_index i e : T !! i = Some e \/ U !! i = Some e ->
  index (idToAssetString g) (Z.of_nat i) = Ok (nm (Z.of_nat i)) /\ to_int32 (Z.of_nat i) = Z.of_nat i.
Proof.
  intros H. assert (Hi : (i < length (idToAssetString g))%nat).
  { destruct HR as [HI _]. rewrite <- (n_sell _ _ HI) at 1.
    destruct H as [H|H]; apply lookup_lt_Some in H; [done|]. rewrite (n_sell _ _ HI), <- (n_buy _ _ HI). done. }
  split; [apply index_name; lia|]. apply swrap_small; unfold in_int; lia.
Qed.

Lemma concat_take {A} (h : edgeSet -> list A) (tbl : list edgeSet) i e : tbl !! i = Some e ->
  concat (map h (take (S i) tbl)) = concat (map h (take i tbl)) ++ h e.
Proof.
  intros H. rewrite (take_S_r tbl i e H), map_app, concat_app. cbn. by rewrite app_nil_r.
Qed.

Lemma concat_take_drop {A} (h : edgeSet -> list A) (tbl : list edgeSet) i e : tbl !! i = Some e ->
  concat (map h tbl) = concat (map h (take i tbl)) ++ h e ++ concat (map h (drop (S i) tbl)).
Proof.
  intros H. rewrite <- (take_drop_middle tbl i e H) at 1. rewrite map_app, concat_app. done.
Qed.

Definition loop1_inv (m : nat) (acc : verifyState * gset Z) : Prop :=
  first_inv (concat (map edge_offers (take m T))) (concat (map edge_pools (take m T))) acc.1 /\
  forall j, j ∈ acc.2 <-> 0 <= j < Z.of_nat m /\ nm j = EmptyString.

Lemma NoDup_ids_Offers : NoDup (ids (Offers g)).
Proof.
  apply NoDup_fmap_2_strong; [|by eapply NoDup_Offers].
  intros o o' Ho Ho' Hid. rewrite (elem_of_Offers g O P o HR) in Ho. rewrite (elem_of_Offers g O P o' HR) in Ho'.
  rewrite Hid in Ho. congruence.
Qed.

Lemma loop1_step i e acc : T !! i = Some e -> loop1_inv i acc ->
  exists acc', verify_selling_asset g acc (i, e) = Ok acc' /\ loop1_inv (S i) acc'.
Proof.
  intros He [Hst Hvac]. destruct acc as [st vac]; cbn [fst snd] in *.
  pose proof (lookup_E _ _ _ He) as HE. destruct (names_index i e (or_introl He)) as [Hidx Hwrap].
  unfold verify_selling_asset. rewrite Hidx, bind_Ok_l, Hwrap.
  destruct (String.eqb_spec (nm (Z.of_nat i)) EmptyString) as [Hv|Hv]; cbn [andb].
  - assert (e = []) as -> by (rewrite <- HE; by apply vacant_no_edges). cbn [length Nat.eqb].
    eexists. split; [done|]. split; cbn [fst snd].
    + rewrite !(concat_take _ T i [] He). cbn. by rewrite !app_nil_r.
    + intros j. rewrite elem_of_union, elem_of_singleton, Hvac. split.
      * intros [->|[? ?]]; [split; [lia|done]|split; [lia|done]].
      * intros [? ?]. destruct (decide (j = Z.of_nat i)); [by left|right; split; [lia|done]].
  - assert (Hid : assetStringToID g !! nm (Z.of_nat i) = Some (Z.of_nat i)) by (by apply HR).
    rewrite Hid, Z.eqb_refl. cbn [negb].
    destruct (selling_edges_ok (Z.of_nat i) _ _ st Hst) as (st' & Hf & Hst').
    + rewrite HE. pose proof NoDup_ids_Offers as Hn. unfold Offers in Hn. fold edge_offers in Hn.
      rewrite (concat_take_drop edge_offers T i e He), app_assoc in Hn. by eapply NoDup_ids_prefix.
    + rewrite HE in Hf, Hst'. rewrite Hf, bind_Ok_l. eexists. split; [done|]. split; cbn [fst snd].
      * by rewrite !(concat_take _ T i e He).
      * intros j. rewrite Hvac. split; [intros [? ?]; split; [lia|done]|]. intros [? ?].
        destruct (decide (j = Z.of_nat i)) as [->|]; [done|split; [lia|done]].
Qed.

Lemma loop1 : exists st vac, res_fold (verify_selling_asset g) (mkVerify [] [] ∅ ∅, ∅) (imap pair T) = Ok (st, vac) /\
  first_inv (Offers g) (concat (map edge_pools T)) st /\ vac = list_to_set (vacantIDs g).
Proof.
  destruct (res_fold_imap (verify_selling_asset g) loop1_inv T 0 (mkVerify [] [] ∅ ∅, ∅))
    as ([st vac] & Hf & [H1 H2]).
  - intros i e acc He. by apply loop1_step.
  - split; cbn [fst snd].
    + split; [done|done|]. split; cbn [vs_pools vs_poolSet fmap list_fmap concat map take].
      * by intros e ?%elem_of_nil.
      * constructor.
      * by intros e ?%elem_of_nil.
      * intros id. rewrite lookup_empty, elem_of_nil. by split; [intros [? ?]|].
    + intros j. rewrite elem_of_empty. cbn. split; [done|lia].
  - exists st, vac. cbn [Nat.add fst snd] in *. split; [exact Hf|]. rewrite firstn_all in H1. split; [done|].
    apply set_eq. intros j. rewrite H2, elem_of_list_to_set, (n_vacant _ _ (proj1 HR)).
    by rewrite (n_sell _ _ (proj1 HR)).
Qed.

(** ** The second loop *)

Lemma buy_offer k i o : o ∈ offers (venue (buy k) i) -> O !! OfferId o = Some o /\ sells f o i k.
Proof. rewrite <- (c_sym _ _ _ _ _ _ _ (proj2 HR)). intros Ho. by apply HR. Qed.

Lemma NoDup_buy_offers : NoDup (concat (map edge_offers U)).
Proof.
  assert (Hw : forall k, wf (buy k)) by apply HR. apply NoDup_concat.
  - intros j l Hl. apply list_lookup_fmap_Some in Hl as (e & -> & He). apply lookup_E in He as <-.
    apply NoDup_concat.
    + intros n l' Hl'. apply list_lookup_fmap_Some in Hl' as (x & -> & Hx). apply list_elem_of_lookup_2 in Hx.
      rewrite <- (venue_elem _ _ (Hw _) Hx). apply (NoDup_fmap_1 OfferId). apply (v_nodup _ (venue_wf _ _ (Hw _))).
    + intros n n' l1 l2 o H1 H2 Ho1 Ho2.
      apply list_lookup_fmap_Some in H1 as (x & -> & Hx). apply list_lookup_fmap_Some in H2 as (y & -> & Hy).
      pose proof (list_elem_of_lookup_2 _ _ _ Hx) as Ex. pose proof (list_elem_of_lookup_2 _ _ _ Hy) as Ey.
      rewrite <- (venue_elem _ _ (Hw _) Ex) in Ho1. rewrite <- (venue_elem _ _ (Hw _) Ey) in Ho2.
      apply buy_offer in Ho1 as [_ [H1 _]]. apply buy_offer in Ho2 as [_ [H2 _]].
      eapply (NoDup_lookup (keys (buy (Z.of_nat j)))); [apply Hw| |]; apply list_lookup_fmap_Some.
      * by exists x.
      * exists y. split; [congruence|done].
  - intros n n' l1 l2 o H1 H2 Ho1 Ho2.
    apply list_lookup_fmap_Some in H1 as (e & -> & He). apply list_lookup_fmap_Some in H2 as (e' & -> & He').
    apply lookup_E in He as <-. apply lookup_E in He' as <-.
    apply elem_of_edge_offers in Ho1 as [k1 Ho1]; [|apply Hw]. apply elem_of_edge_offers in Ho2 as [k2 Ho2]; [|apply Hw].
    apply buy_offer in Ho1 as [_ [_ H1]]. apply buy_offer in Ho2 as [_ [_ H2]].
    assert (Z.of_nat n = Z.of_nat n') by congruence. lia.
Qed.

Lemma elem_of_buy_offers o : o ∈ concat (map edge_offers U) <-> O !! OfferId o = Some o.
Proof.
  assert (Hw : forall k, wf (buy k)) by apply HR. rewrite list_elem_of_In, in_concat. split.
  - intros (l & Hl & Ho). apply in_map_iff in Hl as (e & <- & He).
    rewrite <- list_elem_of_In in He. rewrite <- list_elem_of_In in Ho. apply list_elem_of_lookup_1 in He as [k He].
    apply lookup_E in He as <-. apply elem_of_edge_offers in Ho as [i Ho]; [|apply Hw]. by apply buy_offer in Ho as [? _].
  - intros HO. destruct (used_selling_of _ _ _ _ _ _ _ _ _ (proj2 HR) HO) as (i & k & Hsb).
    assert (Hin : o ∈ offers (venue (buy k) i))
      by (rewrite <- (c_sym _ _ _ _ _ _ _ (proj2 HR)); by apply HR).
    destruct (E_lookup U k) as (j & Hj & Hlk).
    { intros E0. rewrite E0 in Hin. by apply elem_of_nil in Hin. }
    eexists. split.
    + apply in_map_iff. eexists. split; [done|]. rewrite <- list_elem_of_In. by eapply list_elem_of_lookup_2.
    + rewrite <- list_elem_of_In. apply elem_of_edge_offers; [apply Hw|]. by exists i.
Qed.

Lemma buy_offers_perm : Offers g ≡ₚ concat (map edge_offers U).
Proof.
  apply NoDup_Permutation; [by eapply NoDup_Offers|apply NoDup_buy_offers|].
  intros o. by rewrite (elem_of_Offers g O P o HR), elem_of_buy_offers.
Qed.

Lemma assertOffersEqual_refl o : assertOffersEqual o o = Ok tt.
Proof.
  unfold assertOffersEqual. rewrite bool_decide_eq_true_2, Z.eqb_refl by done.
  by rewrite !(proj2 (Asset.Equals_eq _ _)).
Qed.

Lemma buying_offers_ok i k os rest : forall prev,
  Forall (fun o => O !! OfferId o = Some o /\ sells f o i k) os ->
  (match prev with Some q => O !! OfferId q = Some q /\ sells f q i k | None => True end) ->
  NoDup (ids (os ++ rest)) ->
  verify_buying_offers (nm k) (nm i) prev os (offer_set (os ++ rest)) = Ok (offer_set rest).
Proof.
  induction os as [|o os IH]; intros prev Hos Hprev Hn; [done|].
  apply Forall_cons in Hos as [[HO Hs] Hos]. cbn [app ids map] in Hn. apply NoDup_cons in Hn as [Hni Hn].
  assert (Eset : offer_set ((o :: os) ++ rest) = <[OfferId o := o]> (offer_set (os ++ rest))) by done.
  cbn [verify_buying_offers]. rewrite Eset, lookup_insert_eq, assertOffersEqual_refl, bind_Ok_l.
  rewrite (offer_assets_ok i k o prev HO Hs Hprev), bind_Ok_l.
  rewrite delete_insert_id by by apply offer_set_fresh. by apply IH.
Qed.

Lemma selling_pool_visited i k v : edge_ok i k v -> has_pool v = true ->
  poolEntry (pool v) ∈ concat (map edge_pools T).
Proof.
  intros [-> _] Hp. destruct (venue_elem_inv (sell i) k) as (x & Hx & _ & Hv); [by intros E0; rewrite E0 in Hp|].
  destruct (E_lookup T i) as (j & _ & Hlk); [by intros E0; rewrite E0 in Hx; apply elem_of_nil in Hx|].
  rewrite list_elem_of_In, in_concat. exists (edge_pools (sell i)). split.
  - apply in_map_iff. eexists. split; [done|]. rewrite <- list_elem_of_In. by eapply list_elem_of_lookup_2.
  - apply in_concat. exists (edge_pool_list x). split.
    + apply in_map_iff. exists x. split; [done|]. by rewrite <- list_elem_of_In.
    + unfold edge_pool_list. rewrite Hv, Hp. by left.
Qed.

Lemma buying_edge_ok k poolSet x rest : edge_ok (key x) k (value x) ->
  NoDup (ids (offers (value x) ++ rest)) ->
  (forall e, e ∈ concat (map edge_pools T) -> is_Some (poolSet !! LiquidityPoolId e)) ->
  verify_buying_edge g poolSet k (nm k) (offer_set (offers (value x) ++ rest)) x = Ok (offer_set rest).
Proof.
  intros He Hn Hpools. unfold verify_buying_edge. rewrite (proj1 (edge_index _ _ _ He)), bind_Ok_l.
  rewrite buying_offers_ok; [|by apply Forall_forall; intros o; apply edge_offer|done|done]. rewrite bind_Ok_l.
  destruct (has_pool (value x)) eqn:Epool; [|done].
  rewrite (proj2 (verify_pool_ok _ _ _ He Epool)), bind_Ok_l.
  by destruct (Hpools _ (selling_pool_visited _ _ _ He Epool)) as [y ->].
Qed.

Lemma buying_edges_ok k poolSet rest : NoDup (ids (edge_offers (buy k) ++ rest)) ->
  (forall e, e ∈ concat (map edge_pools T) -> is_Some (poolSet !! LiquidityPoolId e)) ->
  res_fold (verify_buying_edge g poolSet k (nm k)) (offer_set (edge_offers (buy k) ++ rest)) (buy k) =
    Ok (offer_set rest).
Proof.
  intros Hn Hpools. assert (Hall : forall x, x ∈ buy k -> edge_ok (key x) k (value x)) by (intros; by apply buy_edge_ok).
  revert Hn Hall. generalize (buy k). intros l. induction l as [|x l IH]; intros Hn Hall; [done|].
  unfold edge_offers in *. cbn [res_fold map concat] in *. rewrite <- app_assoc in *.
  rewrite buying_edge_ok; [|apply Hall; left|done|done]. rewrite bind_Ok_l.
  apply IH; [|intros y Hy; apply Hall; by right]. rewrite ids_app in Hn. by apply NoDup_app in Hn as (_ & _ & ?).
Qed.

Lemma loop2 poolSet : (forall e, e ∈ concat (map edge_pools T) -> is_Some (poolSet !! LiquidityPoolId e)) ->
  res_fold (verify_buying_asset g poolSet) (offer_set (concat (map edge_offers U))) (imap pair U) = Ok ∅.
Proof.
  intros Hpools.
  assert (HnU : NoDup (ids (concat (map edge_offers U)))).
  { assert (ids (Offers g) ≡ₚ ids (concat (map edge_offers U))) as <- by apply Permutation_map, buy_offers_perm.
    apply NoDup_ids_Offers. }
  destruct (res_fold_imap (verify_buying_asset g poolSet)
    (fun m acc => acc = offer_set (concat (map edge_offers (drop m U)))) U 0
    (offer_set (concat (map edge_offers U)))) as (acc & Hf & ->); [|by rewrite drop_0|].
  - intros i e acc He ->. cbn [Nat.add]. eexists. split; [|done].
    pose proof (lookup_E _ _ _ He) as HE. destruct (names_index i e (or_intror He)) as [Hidx Hwrap].
    rewrite (drop_S U e i He). cbn [map concat]. unfold verify_buying_asset. rewrite Hidx, bind_Ok_l, Hwrap.
    destruct (String.eqb_spec (nm (Z.of_nat i)) EmptyString) as [Hv|Hv]; cbn [andb].
    + assert (e = []) as -> by (rewrite <- HE; by apply vacant_no_edges). done.
    + rewrite <- HE. apply buying_edges_ok; [|done]. rewrite HE.
      rewrite (concat_take_drop edge_offers U i e He), ids_app in HnU. by apply NoDup_app in HnU as (_ & _ & ?).
  - cbn [Nat.add] in Hf. rewrite drop_all in Hf. exact Hf.
Qed.

Lemma offer_set_Offers : offer_set (Offers g) = O.
Proof.
  apply map_eq. intros id. apply option_eq. intros o.
  rewrite (offer_set_lookup _ _ _ NoDup_ids_Offers), (elem_of_Offers g O P o HR). split.
  - by intros [HO <-].
  - intros HO. destruct (c_O _ _ _ _ _ _ _ (proj2 HR) _ _ HO) as [<- _]. done.
Qed.

Lemma trading_pairs_size : size O = size (tradingPairForOffer g).
Proof.
  rewrite <- !size_dom. f_equal. apply set_eq. intros id. rewrite !elem_of_dom. split.
  - intros [o HO]. destruct (c_O _ _ _ _ _ _ _ (proj2 HR) _ _ HO) as [<- _].
    destruct (used_selling_of _ _ _ _ _ _ _ _ _ (proj2 HR) HO) as (i & k & Hs). exists (mkPair k i).
    by apply trading_pair.
  - intros [t Ht]. apply HR in Ht as (o & HO & _). by exists o.
Qed.

Lemma visited_in_P e : e ∈ concat (map edge_pools T) <-> P !! pool_key e = Some e.
Proof.
  split.
  - rewrite list_elem_of_In, in_concat. intros (l & Hl & He). apply in_map_iff in Hl as (es & <- & Hes).
    apply in_concat in He as (l & Hl & He). apply in_map_iff in Hl as (x & <- & Hx).
    apply list_elem_of_In in Hes. apply list_elem_of_In in Hx. apply list_elem_of_lookup_1 in Hes as [i Hi]. apply lookup_E in Hi as <-.
    unfold edge_pool_list in He. destruct (has_pool (value x)) eqn:Ep; [|done]. destruct He as [<-|[]].
    by apply (edge_pool (Z.of_nat i) (key x) (value x)); [apply sell_edge_ok|].
  - intros HP. destruct (pool_has_ids _ _ _ _ _ _ _ _ _ (proj2 HR) HP) as [_ (a & b & Hab)].
    assert (Hb : BodyConstantProduct (poolEntry (mkPool e a b)) <> None) by (cbn; destruct Hab as (cp & -> & _); done).
    assert (Hv : pool (venue (sell a) b) = mkPool e a b).
    { apply HR; [done|]. split; [done|]. split; [done|]. by left. }
    assert (Hp : has_pool (venue (sell a) b) = true).
    { unfold has_pool. rewrite Hv. by destruct (BodyConstantProduct _). }
    replace e with (poolEntry (pool (venue (sell a) b))) by by rewrite Hv.
    apply (selling_pool_visited a b); [|done]. split; [done|by right].
Qed.

Lemma Verify_ok : exists os ps, Verify g = Ok (os, ps) /\ os = Offers g /\
  exists st, ps = vs_pools st /\ pools_inv (concat (map edge_pools T)) st.
Proof.
  destruct loop1 as (st & vac & H1 & [Ho Hs Hp] & Hv).
  pose proof (n_sell _ _ (proj1 HR)) as N1. pose proof (n_buy _ _ (proj1 HR)) as N2.
  exists (Offers g), (vs_pools st). split; [|split; [done|by exists st]].
  unfold Verify. rewrite N1, N2, !Nat.eqb_refl. cbn [negb]. rewrite H1, bind_Ok_l.
  rewrite Hs, offer_set_Offers, trading_pairs_size, Nat.eqb_refl. cbn [negb].
  rewrite <- offer_set_Offers, (offer_set_perm _ _ NoDup_ids_Offers buy_offers_perm).
  rewrite loop2, bind_Ok_l by (intros e He; by apply (pi_set _ _ Hp), (pi_all _ _ Hp)).
  rewrite map_size_empty, Nat.eqb_refl. cbn [negb].
  rewrite Hv, size_list_to_set by apply HR. rewrite Nat.eqb_refl. cbn [negb].
  replace (forallb _ _) with true; [by rewrite Ho|].
  symmetry. apply forallb_forall. intros v Hin. apply bool_decide_eq_true_2.
  by rewrite elem_of_list_to_set, list_elem_of_In.
Qed.

End Verify.

(** The self check accepts every graph that represents an order book: it
    finds no discrepancy between the two tables of edges, the maps and the
    interning tables, and returns exactly the offers of the book and, when the
    pools have distinct ids, exactly its pools. *)
Theorem Verify_accepts (g : OrderBookGraph) (O : offer_map) (P : pool_map) (HR : repr g O P)
  (Hlen : Z.of_nat (length (idToAssetString g)) < 2 ^ 31) :
  exists os ps, Verify g = Ok (os, ps) /\ os ≡ₚ (map_to_list O).*2 /\
    ((forall k k' e e', P !! k = Some e -> P !! k' = Some e' -> LiquidityPoolId e = LiquidityPoolId e' -> k = k') ->
     ps ≡ₚ (map_to_list P).*2).
Proof.
  destruct (Verify_ok g O P HR Hlen) as (os & ps & HV & -> & st & -> & [Hsub Hnd Hall _]).
  eexists _, _. split; [exact HV|]. split; [by eapply Offers_perm|]. intros Hinj.
  pose proof (c_P _ _ _ _ _ _ _ (proj2 HR)) as HP. apply NoDup_Permutation.
  - by eapply NoDup_fmap_1.
  - apply NoDup_map_values. intros k1 k2 e H1 H2. by eapply Hinj.
  - intros e. rewrite elem_of_map_values. split.
    + intros He. apply Hsub, (visited_in_P g O P HR) in He. eauto.
    + intros [k Hk]. pose proof (proj1 (HP _ _ Hk)) as Hkey. rewrite <- Hkey in Hk.
      assert (Hv := proj2 (visited_in_P g O P HR e) Hk).
      apply Hall, list_elem_of_fmap in Hv as (e' & Hid & He').
      pose proof He' as He2. apply Hsub, (visited_in_P g O P HR) in He2.
      assert (pool_key e = pool_key e') as Ek by (by eapply Hinj).
      rewrite <- Ek in He2. assert (e = e') as -> by congruence. done.
Qed.

(** The graph with two offers. *)
Definition applied_graph : OrderBookGraph :=
  match Apply sample_graph 5 with Ok (g, _) => g | _ => NewOrderBookGraph end.

Lemma applied_graph_repr : exists O, repr applied_graph O ∅ /\ size O = 2%nat.
Proof.
  destruct (Apply_spec sample_graph ∅ ∅ 5 sample_graph_repr eq_refl sample_graph_ops) as (g' & H1 & H2 & _);
    [vm_compute; discriminate|done|].
  unfold applied_graph. rewrite H1. eexists. split; [exact H2|]. done.
Qed.

Lemma Verify_accepts_witness : exists os ps, Verify applied_graph = Ok (os, ps) /\ length os = 2%nat.
Proof.
  destruct applied_graph_repr as (O & HR & Hs).
  destruct (Verify_accepts applied_graph O ∅ HR ltac:(vm_compute; reflexivity)) as (os & ps & HV & Ho & _).
  exists os, ps. split; [exact HV|]. rewrite Ho, length_fmap, length_map_to_list. exact Hs.
Defined.

End GraphVerify.
