(* ===== verification/Search.v ===== *)
(** * Path finding (exp/orderbook/search.go and the path part of graph.go)

    A bounded-depth search over the order book graph.  The Go interface
    [searchState] is a record of operations with two implementations; path
    nodes live in a heap and are addressed by pointers, because the search
    overwrites the [prev] field of nodes it has already stored; the context is
    an oracle that may cancel the search at any check. *)
From S2P Require Import Prelude Price Xdr Pools Edges Graph.

Module Search.
Import Pools Edges Graph.

Definition errEmptyOffers : error := "offers is empty".
Definition errAssetAmountIsZero : error := "current asset amount is 0".
Definition errSoldTooMuch : error := "sold more than current balance".

(** utils.go *)
Definition positiveMin (a b : Z) : Z :=
  if b <=? 0 then a else if (b <? a) || (a <=? 0) then b else a.

Record Path := mkPath {
  SourceAsset : string;
  SourceAmount : Z;
  DestinationAsset : string;
  DestinationAmount : Z;
  InteriorNodes : list string
}.

(** An amount together with the error returned beside it; [Panic] otherwise. *)
Definition outcome : Type := res (Z * option error).

(** ** Consuming offers *)

Definition ignored (ignoreOffersFrom : option AccountId.t) (o : OfferEntry) : bool :=
  match ignoreOffersFrom with
  | Some a => AccountId.Equals a (SellerId o)
  | None => false
  end.

Fixpoint selling_loop (os : list OfferEntry) (ignoreOffersFrom : option AccountId.t)
  (currentAssetAmount totalConsumed : Z) : outcome :=
  match os with
  | [] => Ok (-1, None)
  | o :: os =>
      if ignored ignoreOffersFrom o then
        selling_loop os ignoreOffersFrom currentAssetAmount totalConsumed
      else
        match Price.ConvertToBuyingUnits (Amount_ o) currentAssetAmount
                (Price.N (Price_ o)) (Price.D (Price_ o)) with
        | Panic m => Panic m
        | Err e => if String.eqb e Price.ErrOverflow then Ok (-1, None) else Ok (-1, Some e)
        | Ok (buyingUnitsFromOffer, sellingUnitsFromOffer) =>
            let totalConsumed := to_int64 (totalConsumed + buyingUnitsFromOffer) in
            let currentAssetAmount := to_int64 (currentAssetAmount - sellingUnitsFromOffer) in
            if currentAssetAmount =? 0 then Ok (totalConsumed, None) else
            if currentAssetAmount <? 0 then Ok (-1, Some errSoldTooMuch) else
            selling_loop os ignoreOffersFrom currentAssetAmount totalConsumed
        end
  end.

Definition consumeOffersForSellingAsset (os : list OfferEntry) (ignoreOffersFrom : option AccountId.t)
  (currentAssetAmount currentBestAmount : Z) : outcome :=
  if Nat.eqb (length os) 0 then Ok (0, Some errEmptyOffers) else
  if currentAssetAmount =? 0 then Ok (0, Some errAssetAmountIsZero) else
  selling_loop os ignoreOffersFrom currentAssetAmount 0.

Fixpoint buying_loop (os : list OfferEntry) (currentAssetAmount totalConsumed : Z) : outcome :=
  match os with
  | [] => Ok (-1, None)
  | o :: os =>
      let n := Price.N (Price_ o) in
      let d := Price.D (Price_ o) in
      let consume_all :=
        match Price.ConvertToBuyingUnits (Amount_ o) (Amount_ o) n d with
        | Panic m => Panic m
        | Err e => if String.eqb e Price.ErrOverflow then Ok (-1, None) else Ok (-1, Some e)
        | Ok (buyingUnitsFromOffer, sellingUnitsFromOffer) =>
            let totalConsumed := to_int64 (totalConsumed + sellingUnitsFromOffer) in
            let currentAssetAmount := to_int64 (currentAssetAmount - buyingUnitsFromOffer) in
            if currentAssetAmount =? 0 then Ok (totalConsumed, None) else
            if currentAssetAmount <? 0 then Ok (-1, Some errSoldTooMuch) else
            buying_loop os currentAssetAmount totalConsumed
        end in
      match Price.MulFractionRoundDown currentAssetAmount d n with
      | Panic m => Panic m
      | Ok amountSold =>
          if amountSold =? 0 then Ok (-1, None) else
          if amountSold <? 0 then Ok (-1, Some errSoldTooMuch) else
          if amountSold <=? Amount_ o then Ok (to_int64 (totalConsumed + amountSold), None)
          else consume_all
      | Err e => if String.eqb e Price.ErrOverflow then consume_all else Ok (-1, Some e)
      end
  end.

Definition consumeOffersForBuyingAsset (os : list OfferEntry) (currentAssetAmount : Z) : outcome :=
  if Nat.eqb (length os) 0 then Ok (0, Some errEmptyOffers) else
  if currentAssetAmount =? 0 then Ok (0, Some errAssetAmountIsZero) else
  buying_loop os currentAssetAmount 0.

(** ** The interface of a search *)

Record searchState := mkSearchState {
  totalAssets : Z;
  considerPools : bool;
  isTerminalNode : Z -> bool;
  includePath : Z -> Z -> bool;
  betterPathAmount : Z -> Z -> bool;
  appendToPaths : list Path -> list Z -> Z -> Z -> res (list Path);
  venues : Z -> res edgeSet;
  consumeOffers : Z -> Z -> list OfferEntry -> outcome;
  consumePool : liquidityPool -> Z -> Z -> res Z
}.

Definition processVenues (state : searchState) (currentAsset currentAssetAmount : Z) (v : Venues) : outcome :=
  if currentAssetAmount =? 0 then Ok (0, Some errAssetAmountIsZero) else
  poolAmount ← (if considerPools state && has_pool v then
                  match consumePool state (pool v) currentAsset currentAssetAmount with
                  | Ok amount => Ok amount
                  | Err _ => Ok 0
                  | Panic m => Panic m
                  end
                else Ok 0);
  if (poolAmount =? 0) && Nat.eqb (length (offers v)) 0 then Ok (-1, None) else
  '(nextAssetAmount, err) ← consumeOffers state currentAssetAmount poolAmount (offers v);
  match err with
  | Some e => if poolAmount =? 0 then Ok (0, Some e) else Ok (nextAssetAmount, None)
  | None => Ok (nextAssetAmount, None)
  end.

(** ** Path nodes *)

Record pathNode := mkNode { pn_asset : Z; pn_prev : option nat }.

(** The assets met by [for cur := p; cur != nil; cur = cur.prev]; every node
    points to an older one, so the number of nodes bounds the walk. *)
Fixpoint walk (fuel : nat) (heap : list pathNode) (p : option nat) : list Z :=
  match fuel, p with
  | S fuel, Some a =>
      match heap !! a with
      | Some n => pn_asset n :: walk fuel heap (pn_prev n)
      | None => []
      end
  | _, _ => []
  end.

Definition contains (heap : list pathNode) (p : option nat) (node : Z) : bool :=
  existsb (fun a => a =? node) (walk (length heap) heap p).

(** The in-place reversal: swaps [i] and its opposite, from the middle out. *)
Fixpoint reverse_loop (i : nat) (path : list Z) : list Z :=
  match i with
  | O => path
  | S i =>
      let opp := (length path - 1 - i)%nat in
      match path !! i, path !! opp with
      | Some x, Some y => reverse_loop i (<[i := y]> (<[opp := x]> path))
      | _, _ => path
      end
  end.

Definition reversePath (path : list Z) : list Z := reverse_loop (length path / 2) path.

Definition node_path (heap : list pathNode) (p : option nat) : list Z :=
  reversePath (walk (length heap) heap p).

(** ** The search loop *)

(** The local variables of [search]; [checks] counts the calls of ctx.Err. *)
Record searchVars := mkVars {
  bestAmount : list Z;
  updateAmount : list Z;
  bestPath : list (option nat);
  updatePath : list (option nat);
  updatedAssets : list Z;
  heap : list pathNode;
  found : list Path;
  checks : nat
}.

Section WithContext.
Context (ctx : nat -> option error).
Context (state : searchState).

Definition tick (v : searchVars) : searchVars :=
  mkVars (bestAmount v) (updateAmount v) (bestPath v) (updatePath v) (updatedAssets v)
    (heap v) (found v) (S (checks v)).

(** The improvement branch: record the amount and the path, report the path. *)
Definition improve (v : searchVars) (path : option nat) (nextAsset nextAssetAmount : Z) : res searchVars :=
  upd ← index (updateAmount v) nextAsset;
  best ← index (bestAmount v) nextAsset;
  ua ← assign (updateAmount v) nextAsset nextAssetAmount;
  v ← (if upd =? best then
         up ← assign (updatePath v) nextAsset (Some (length (heap v)));
         Ok (mkVars (bestAmount v) ua (bestPath v) up (updatedAssets v ++ [nextAsset])
               (heap v ++ [mkNode nextAsset path]) (found v) (checks v))
       else
         p ← index (updatePath v) nextAsset;
         a ← from_opt "nil pointer dereference" p;
         n ← from_opt "nil pointer dereference" (heap v !! a);
         Ok (mkVars (bestAmount v) ua (bestPath v) (updatePath v) (updatedAssets v)
               (<[a := mkNode (pn_asset n) path]> (heap v)) (found v) (checks v)));
  if includePath state nextAsset nextAssetAmount then
    ps ← appendToPaths state (found v) (node_path (heap v) path ++ [nextAsset]) nextAsset nextAssetAmount;
    Ok (mkVars (bestAmount v) (updateAmount v) (bestPath v) (updatePath v) (updatedAssets v)
          (heap v) ps (checks v))
  else Ok v.

(** One iteration of the loop over the edges of [currentAsset]. *)
Definition visit_edge (last : bool) (currentAsset currentAmount : Z) (path : option nat)
  (v : searchVars) (x : edge) : res searchVars :=
  match ctx (checks v) with
  | Some err => Err err
  | None =>
      let v := tick v in
      let nextAsset := key x in
      if last && negb (isTerminalNode state nextAsset) then Ok v else
      if contains (heap v) path nextAsset then Ok v else
      '(nextAssetAmount, err) ← processVenues state currentAsset currentAmount (value x);
      match err with
      | Some e => Err e
      | None =>
          if nextAssetAmount <=? 0 then Ok v else
          upd ← index (updateAmount v) nextAsset;
          if betterPathAmount state upd nextAssetAmount then improve v path nextAsset nextAssetAmount
          else Ok v
      end
  end.

(** One iteration of the loop over the assets. *)
Definition visit_asset (last : bool) (v : searchVars) (currentAsset : Z) : res searchVars :=
  currentAmount ← index (bestAmount v) currentAsset;
  if currentAmount =? 0 then Ok v else
  path ← index (bestPath v) currentAsset;
  edges ← venues state currentAsset;
  res_fold (visit_edge last currentAsset currentAmount path) v edges.

(** The loop over [updatedAssets] at the end of a round. *)
Definition commit_asset (v : searchVars) (asset : Z) : res searchVars :=
  p ← index (updatePath v) asset;
  bp ← assign (bestPath v) asset p;
  a ← index (updateAmount v) asset;
  ba ← assign (bestAmount v) asset a;
  Ok (mkVars ba (updateAmount v) bp (updatePath v) (updatedAssets v) (heap v) (found v) (checks v)).

Definition round (maxPathLength : Z) (v : searchVars) (i : Z) : res searchVars :=
  let v := mkVars (bestAmount v) (updateAmount v) (bestPath v) (updatePath v) []
             (heap v) (found v) (checks v) in
  v ← res_fold (visit_asset (i =? maxPathLength - 1)) v (seqZ 0 (totalAssets state));
  if i <? maxPathLength - 1 then res_fold commit_asset v (updatedAssets v) else Ok v.

Definition search (maxPathLength sourceAsset sourceAssetAmount : Z) (paths : list Path) : res (list Path) :=
  if totalAssets state <? 0 then Panic "makeslice: len out of range" else
  let n := Z.to_nat (totalAssets state) in
  ba ← assign (replicate n 0) sourceAsset sourceAssetAmount;
  bp ← assign (replicate n None) sourceAsset (Some 0%nat);
  paths ← (if includePath state sourceAsset sourceAssetAmount
           then appendToPaths state paths [sourceAsset] sourceAsset sourceAssetAmount else Ok paths);
  v ← res_fold (round maxPathLength)
        (mkVars ba ba bp (replicate n None) [] [mkNode sourceAsset None] paths 0)
        (seqZ 0 maxPathLength);
  Ok (found v).

End WithContext.

(** ** The two searches *)

Definition assetIDsToAssetStrings (g : OrderBookGraph) (path : list Z) : res (list string) :=
  res_fold (fun acc id => s ← index (idToAssetString g) id; Ok (acc ++ [s])) [] path.

(** [path[1 : len(path)-1]] when there are interior nodes. *)
Definition interior (path : list Z) : list Z :=
  if Nat.ltb 2 (length path) then take (length path - 2) (drop 1 path) else [].

Section WithUint256.
Context `{UO : Uint256Ops}.

(** The fields of [sellingGraphSearchState]; [paths] is threaded by [search]. *)
Record sellingGraphSearchState := mkSelling {
  s_graph : OrderBookGraph;
  destinationAssetString : string;
  destinationAssetAmount : Z;
  ignoreOffersFrom : option AccountId.t;
  s_targetAssets : gmap Z Z;
  validateSourceBalance : bool;
  s_includePools : bool
}.

Definition selling_includePath (st : sellingGraphSearchState) (currentAsset currentAssetAmount : Z) : bool :=
  match s_targetAssets st !! currentAsset with
  | Some targetAssetBalance =>
      negb (validateSourceBalance st) || (targetAssetBalance >=? currentAssetAmount)
  | None => false
  end.

Definition selling_betterPathAmount (currentAmount alternativeAmount : Z) : bool :=
  if currentAmount =? 0 then true else
  if alternativeAmount =? 0 then false else alternativeAmount <? currentAmount.

Definition selling_appendToPaths (st : sellingGraphSearchState) (paths : list Path) (path : list Z)
  (currentAsset currentAssetAmount : Z) : res (list Path) :=
  let path := if Nat.ltb 2 (length path) then reversePath (interior path) else [] in
  source ← index (idToAssetString (s_graph st)) currentAsset;
  nodes ← assetIDsToAssetStrings (s_graph st) path;
  Ok (paths ++ [mkPath source currentAssetAmount (destinationAssetString st)
                  (destinationAssetAmount st) nodes]).

Definition selling_consumeOffers (st : sellingGraphSearchState)
  (currentAssetAmount currentBestAmount : Z) (os : list OfferEntry) : outcome :=
  '(nextAmount, err) ← consumeOffersForSellingAsset os (ignoreOffersFrom st)
                          currentAssetAmount currentBestAmount;
  Ok (positiveMin currentBestAmount nextAmount, err).

Definition selling_consumePool (p : liquidityPool) (currentAsset currentAssetAmount : Z) : res Z :=
  makeTrade p (getOtherAsset currentAsset p) tradeTypeExpectation currentAssetAmount.

Definition sellingSearch (st : sellingGraphSearchState) : searchState := {|
  totalAssets := to_int32 (Z.of_nat (length (idToAssetString (s_graph st))));
  considerPools := s_includePools st;
  isTerminalNode a := bool_decide (is_Some (s_targetAssets st !! a));
  includePath := selling_includePath st;
  betterPathAmount := selling_betterPathAmount;
  appendToPaths := selling_appendToPaths st;
  venues a := index (venuesForSellingAsset (s_graph st)) a;
  consumeOffers := selling_consumeOffers st;
  consumePool := selling_consumePool
|}.

Record buyingGraphSearchState := mkBuying {
  b_graph : OrderBookGraph;
  sourceAssetString : string;
  b_sourceAssetAmount : Z;
  b_targetAssets : gset Z;
  b_includePools : bool
}.

Definition buying_appendToPaths (st : buyingGraphSearchState) (paths : list Path) (path : list Z)
  (currentAsset currentAssetAmount : Z) : res (list Path) :=
  nodes ← assetIDsToAssetStrings (b_graph st) (interior path);
  destination ← index (idToAssetString (b_graph st)) currentAsset;
  Ok (paths ++ [mkPath (sourceAssetString st) (b_sourceAssetAmount st) destination
                  currentAssetAmount nodes]).

Definition buying_consumeOffers (currentAssetAmount currentBestAmount : Z) (os : list OfferEntry) : outcome :=
  '(nextAmount, err) ← consumeOffersForBuyingAsset os currentAssetAmount;
  Ok (Ordered.Max nextAmount currentBestAmount, err).

Definition buying_consumePool (p : liquidityPool) (currentAsset currentAssetAmount : Z) : res Z :=
  makeTrade p currentAsset tradeTypeDeposit currentAssetAmount.

Definition buyingSearch (st : buyingGraphSearchState) : searchState := {|
  totalAssets := to_int32 (Z.of_nat (length (idToAssetString (b_graph st))));
  considerPools := b_includePools st;
  isTerminalNode a := bool_decide (a ∈ b_targetAssets st);
  includePath a _ := bool_decide (a ∈ b_targetAssets st);
  betterPathAmount cur alt := alt >? cur;
  appendToPaths := buying_appendToPaths st;
  venues a := index (venuesForBuyingAsset (b_graph st)) a;
  consumeOffers := buying_consumeOffers;
  consumePool := buying_consumePool
|}.

(** ** graph.go: sorting and filtering *)

Definition string_lt (a b : string) : bool := GoString.bytes_lt (bytes_of a) (bytes_of b).

Definition compareSourceAsset (p q : Path) : bool :=
  if String.eqb (SourceAsset p) (SourceAsset q) then
    if SourceAmount p =? SourceAmount q then
      Nat.ltb (length (InteriorNodes p)) (length (InteriorNodes q))
    else SourceAmount p <? SourceAmount q
  else string_lt (SourceAsset p) (SourceAsset q).

Definition compareDestinationAsset (p q : Path) : bool :=
  if String.eqb (DestinationAsset p) (DestinationAsset q) then
    if DestinationAmount p =? DestinationAmount q then
      Nat.ltb (length (InteriorNodes p)) (length (InteriorNodes q))
    else DestinationAmount p >? DestinationAmount q
  else string_lt (DestinationAsset p) (DestinationAsset q).

Definition sourceAssetEquals (p otherPath : Path) : bool :=
  String.eqb (SourceAsset p) (SourceAsset otherPath).
Definition destinationAssetEquals (p otherPath : Path) : bool :=
  String.eqb (DestinationAsset p) (DestinationAsset otherPath).

(** sort.Sort promises a sorted permutation and no stability. *)
Context (sortSort : (Path -> Path -> bool) -> list Path -> list Path).

(** The filtering loop; [prev] is the last path kept. *)
Fixpoint filter_loop (assetsEqual : Path -> Path -> bool) (maxPathsPerAsset : Z)
  (prev : option Path) (countForAsset : Z) (allPaths : list Path) : list Path :=
  match allPaths with
  | [] => []
  | entry :: rest =>
      if match prev with None => true | Some q => negb (assetsEqual q entry) end
      then entry :: filter_loop assetsEqual maxPathsPerAsset (Some entry) 1 rest
      else if countForAsset <? maxPathsPerAsset
      then entry :: filter_loop assetsEqual maxPathsPerAsset (Some entry) (countForAsset + 1) rest
      else filter_loop assetsEqual maxPathsPerAsset prev countForAsset rest
  end.

Definition sortBySourceAsset : string := "source".
Definition sortByDestinationAsset : string := "destination".

Definition sortAndFilterPaths (allPaths : list Path) (maxPathsPerAsset : Z) (sortType : string)
  : res (list Path) :=
  if String.eqb sortType sortBySourceAsset then
    Ok (filter_loop sourceAssetEquals maxPathsPerAsset None 0 (sortSort compareSourceAsset allPaths))
  else if String.eqb sortType sortByDestinationAsset then
    Ok (filter_loop destinationAssetEquals maxPathsPerAsset None 0
          (sortSort compareDestinationAsset allPaths))
  else Err "invalid sort by type".

(** ** graph.go: the exported queries *)

(** The loop that maps the source assets to their balances. *)
Fixpoint sourceAssetsMap (g : OrderBookGraph) (assets : list Asset.t) (balances : list Z) (i : Z)
  (m : gmap Z Z) : res (gmap Z Z) :=
  match assets with
  | [] => Ok m
  | a :: assets =>
      match assetStringToID g !! Asset.String_ a with
      | None => sourceAssetsMap g assets balances (i + 1) m
      | Some id =>
          b ← index balances i;
          sourceAssetsMap g assets balances (i + 1) (<[id := b]> m)
      end
  end.

Definition findPathsWithLock (ctx : nat -> option error) (g : OrderBookGraph) (maxPathLength : Z)
  (destinationAsset : Asset.t) (destinationAmount : Z) (sourceAccountID : option AccountId.t)
  (sourceAssets : list Asset.t) (sourceAssetBalances : list Z)
  (validate includePools : bool) : res (list Path * Z) :=
  sources ← sourceAssetsMap g sourceAssets sourceAssetBalances 0 ∅;
  match assetStringToID g !! Asset.String_ destinationAsset with
  | None => Ok ([], lastLedger g)
  | Some destinationAssetID =>
      if Nat.eqb (size sources) 0 then Ok ([], lastLedger g) else
      paths ← search ctx (sellingSearch (mkSelling g (Asset.String_ destinationAsset) destinationAmount
                sourceAccountID sources validate includePools))
              maxPathLength destinationAssetID destinationAmount [];
      Ok (paths, lastLedger g)
  end.

Definition wrap_error {A} (msg : string) (r : res A) : res A :=
  match r with Err _ => Err msg | r => r end.

Definition FindPaths (ctx : nat -> option error) (g : OrderBookGraph) (maxPathLength : Z)
  (destinationAsset : Asset.t) (destinationAmount : Z) (sourceAccountID : option AccountId.t)
  (sourceAssets : list Asset.t) (sourceAssetBalances : list Z)
  (validate : bool) (maxAssetsPerPath : Z) (includePools : bool) : res (list Path * Z) :=
  '(paths, ledger) ← wrap_error "could not determine paths"
     (findPathsWithLock ctx g maxPathLength destinationAsset destinationAmount sourceAccountID
        sourceAssets sourceAssetBalances validate includePools);
  paths ← sortAndFilterPaths paths maxAssetsPerPath sortBySourceAsset;
  Ok (paths, ledger).

Definition destination_targets (g : OrderBookGraph) (assets : list Asset.t) : gset Z :=
  fold_left (fun t a => match assetStringToID g !! Asset.String_ a with
                        | Some id => {[id]} ∪ t | None => t end) assets ∅.

Definition findFixedPathsWithLock (ctx : nat -> option error) (g : OrderBookGraph) (maxPathLength : Z)
  (sourceAsset : Asset.t) (amountToSpend : Z) (destinationAssets : list Asset.t)
  (includePools : bool) : res (list Path * Z) :=
  let target := destination_targets g destinationAssets in
  match assetStringToID g !! Asset.String_ sourceAsset with
  | None => Ok ([], lastLedger g)
  | Some sourceAssetID =>
      if Nat.eqb (size target) 0 then Ok ([], lastLedger g) else
      paths ← search ctx (buyingSearch (mkBuying g (Asset.String_ sourceAsset) amountToSpend target includePools))
              maxPathLength sourceAssetID amountToSpend [];
      Ok (paths, lastLedger g)
  end.

Definition FindFixedPaths (ctx : nat -> option error) (g : OrderBookGraph) (maxPathLength : Z)
  (sourceAsset : Asset.t) (amountToSpend : Z) (destinationAssets : list Asset.t)
  (maxAssetsPerPath : Z) (includePools : bool) : res (list Path * Z) :=
  '(paths, ledger) ← wrap_error "could not determine paths"
     (findFixedPathsWithLock ctx g maxPathLength sourceAsset amountToSpend destinationAssets includePools);
  paths ← sortAndFilterPaths paths maxAssetsPerPath sortByDestinationAsset;
  Ok (paths, ledger).

End WithUint256.
End Search.
