(* ===== verification/Consume.v ===== *)
(** * Taking offers (consumeOffersFor*Asset of exp/orderbook/search.go)

    The two loops that walk a sorted list of offers, related to exact
    computations over the unbounded integers. *)
From S2P Require Import Prelude Price Xdr Pools Edges Graph Search.

Module Consume.
Import Edges Search.

(** Offers as the ledger holds them. *)
Definition sane (o : OfferEntry) : Prop :=
  Price.positive (Price_ o) /\ 0 < Amount_ o < 2 ^ 63.

Definition n_of (o : OfferEntry) : Z := Price.N (Price_ o).
Definition d_of (o : OfferEntry) : Z := Price.D (Price_ o).

(** Units that can be bought of one offer, and what [s] units cost. *)
Definition available (o : OfferEntry) : Z := Price.offer_bound (Amount_ o) (n_of o) (d_of o).
Definition cost (o : OfferEntry) (s : Z) : Z := Price.ceil_div (s * n_of o) (d_of o).

(** The price of buying [amt] units off the offers, cheapest first, skipping
    the ignored seller; [None] when they do not suffice or one payment does not
    fit an int64. *)
Fixpoint total_cost (ig : option AccountId.t) (os : list OfferEntry) (amt : Z) : option Z :=
  match os with
  | [] => None
  | o :: os =>
      if ignored ig o then total_cost ig os amt else
      let s := Z.min (available o) amt in
      if cost o s >? MaxInt64 then None else
      if s =? amt then Some (cost o s) else
      c ← total_cost ig os (amt - s); Some (cost o s + c)
  end.

(** What spending [amt] on the offers yields. *)
Fixpoint total_proceeds (os : list OfferEntry) (amt : Z) : option Z :=
  match os with
  | [] => None
  | o :: os =>
      let sold := amt * d_of o / n_of o in
      if sold =? 0 then None else
      if sold <=? Amount_ o then Some sold else
      let s := available o in
      if cost o s =? amt then Some s else
      c ← total_proceeds os (amt - cost o s); Some (s + c)
  end.

Lemma offer_bound_range a n d : 0 < a -> 0 < n -> 0 < d ->
  0 <= Price.offer_bound a n d <= a.
Proof.
  intros Ha Hn Hd. unfold Price.offer_bound. destruct (Z.leb_spec n d); [|lia].
  pose proof (Z.mul_div_le (a * n) d Hd). assert (0 <= a * n / d) by (apply Z.div_pos; nia).
  split; [apply Price.ceil_div_nonneg; nia|apply Price.ceil_div_le; nia].
Qed.

Lemma sane_bounds o : sane o ->
  0 < n_of o < 2 ^ 31 /\ 0 < d_of o < 2 ^ 31 /\ 0 < Amount_ o < 2 ^ 63 /\
  0 <= available o <= Amount_ o.
Proof.
  intros [[Hn Hd] Ha]. unfold n_of, d_of, available. split_and!; try lia;
    apply offer_bound_range; unfold n_of, d_of in *; lia.
Qed.

Lemma cost_nonneg o s : sane o -> 0 <= s -> 0 <= cost o s.
Proof. intros H Hs. pose proof (sane_bounds o H). unfold cost. apply Price.ceil_div_nonneg; nia. Qed.

Lemma cost_mono o s s' : sane o -> s <= s' -> cost o s <= cost o s'.
Proof.
  intros H Hs. pose proof (sane_bounds o H). unfold cost.
  apply Price.ceil_div_le; [lia|]. destruct (Price.ceil_div_bounds (s' * n_of o) (d_of o)); nia.
Qed.

Lemma Convert_sane o amt : sane o -> 0 <= amt < 2 ^ 63 ->
  Price.ConvertToBuyingUnits (Amount_ o) amt (n_of o) (d_of o) =
  let s := Z.min (available o) amt in
  if cost o s >? MaxInt64 then Err Price.ErrOverflow else Ok (cost o s, s).
Proof.
  intros H Ha. pose proof (sane_bounds o H) as (Hn & Hd & Hamt & _).
  rewrite Price.ConvertToBuyingUnits_exact by (unfold Price.nat64; lia).
  unfold Price.buying_units_spec, Price.checked64. fold (available o). fold (cost o (Z.min (available o) amt)).
  cbv zeta. by destruct (_ >? _).
Qed.

(** The loop of the selling search computes [total_cost], modulo 2^64. *)
Lemma selling_loop_exact ig os : forall amt total, Forall sane os -> 0 < amt < 2 ^ 63 ->
  (forall c, total_cost ig os amt = Some c ->
     selling_loop os ig amt total = Ok (to_int64 (total + c), None)) /\
  (total_cost ig os amt = None -> selling_loop os ig amt total = Ok (-1, None)).
Proof.
  induction os as [|o os IH]; intros amt total Hos Ha; cbn [selling_loop total_cost]; [done|].
  apply Forall_cons in Hos as [Ho Hos]. destruct (ignored ig o); [by apply IH|].
  pose proof (sane_bounds o Ho) as (Hn & Hd & Hamt & Hav).
  fold (n_of o) (d_of o). rewrite Convert_sane by (done || lia). cbv zeta.
  set (s := Z.min (available o) amt). assert (Hs : 0 <= s <= amt) by lia.
  destruct (cost o s >? MaxInt64) eqn:Ec; [done|]. zbool.
  rewrite (swrap_small 64 (amt - s)) by (unfold in_int; lia).
  destruct (Z.eqb_spec s amt) as [E|E].
  - replace (amt - s =? 0) with true by lia. split; [by intros c [= <-]|done].
  - replace (amt - s =? 0) with false by lia. replace (amt - s <? 0) with false by lia.
    destruct (IH (amt - s) (to_int64 (total + cost o s)) Hos ltac:(lia)) as [IH1 IH2].
    destruct (total_cost ig os (amt - s)) as [c|]; cbn; [|split; [done|by intros _; apply IH2]].
    split; [|done]. intros c' [= <-]. rewrite (IH1 c) by done. by rewrite swrap_add_l, Z.add_assoc.
Qed.

(** An offer that cannot absorb [amt] costs at most [amt] as a whole. *)
Lemma whole_cost o amt : sane o -> Amount_ o < amt * d_of o / n_of o -> cost o (available o) <= amt.
Proof.
  intros Ho Hlt. pose proof (sane_bounds o Ho) as (Hn & Hd & Hamt & Hav).
  etransitivity; [apply (cost_mono o _ (Amount_ o) Ho); lia|]. unfold cost.
  apply Price.ceil_div_le; [lia|]. pose proof (Z.mul_div_le (amt * d_of o) (n_of o) ltac:(lia)). nia.
Qed.

(** The loop of the buying search computes [total_proceeds], modulo 2^64, and
    never sells more than it has. *)
Lemma buying_loop_exact os : forall amt total, Forall sane os -> 0 < amt < 2 ^ 63 ->
  (forall c, total_proceeds os amt = Some c ->
     buying_loop os amt total = Ok (to_int64 (total + c), None)) /\
  (total_proceeds os amt = None -> buying_loop os amt total = Ok (-1, None)).
Proof.
  induction os as [|o os IH]; intros amt total Hos Ha; cbn [buying_loop total_proceeds]; [done|].
  apply Forall_cons in Hos as [Ho Hos]. pose proof (sane_bounds o Ho) as (Hn & Hd & Hamt & Hav).
  fold (n_of o) (d_of o). set (sold := amt * d_of o / n_of o).
  assert (Hsold : 0 <= sold) by (apply Z.div_pos; nia).
  rewrite Price.MulFractionRoundDown_exact by (unfold Price.nat64; lia).
  rewrite Convert_sane by (done || lia). cbv zeta. rewrite (Z.min_l (available o)) by lia.
  fold sold. unfold Price.checked64.
  destruct (Z.leb_spec sold (Amount_ o)) as [Hle|Hgt].
  - replace (sold >? MaxInt64) with false by (unfold MaxInt64; lia).
    destruct (sold =? 0); [done|]. replace (sold <? 0) with false by lia.
    replace (sold <=? Amount_ o) with true by lia. split; [by intros c [= <-]|done].
  - pose proof (whole_cost o amt Ho Hgt) as Hc. pose proof (cost_nonneg o (available o) Ho ltac:(lia)) as Hc0.
    replace (sold =? 0) with false by lia.
    replace (cost o (available o) >? MaxInt64) with false by (unfold MaxInt64; lia).
    rewrite (swrap_small 64 (amt - _)) by (unfold in_int; lia).
    match goal with |- context [if cost o (available o) =? amt then _ else ?r] => set (rest := r) end.
    match goal with |- context [if sold >? MaxInt64 then _ else Ok sold] =>
      match goal with |- (forall c, _ -> ?L = _) /\ _ =>
        assert (EL : L = (if amt - cost o (available o) =? 0
          then Ok (to_int64 (total + available o), None)
          else if amt - cost o (available o) <? 0 then Ok (-1, Some errSoldTooMuch)
          else buying_loop os (amt - cost o (available o)) (to_int64 (total + available o)))) end end.
    { destruct (sold >? MaxInt64); [done|]. replace (sold =? 0) with false by lia.
      replace (sold <? 0) with false by lia. by replace (sold <=? Amount_ o) with false by lia. }
    rewrite !EL. clear EL. unfold rest.
    destruct (Z.eqb_spec (cost o (available o)) amt) as [E|E].
    + replace (amt - cost o (available o) =? 0) with true by lia. split; [by intros c [= <-]|done].
    + replace (amt - cost o (available o) =? 0) with false by lia.
      replace (amt - cost o (available o) <? 0) with false by lia.
      destruct (IH (amt - cost o (available o)) (to_int64 (total + available o)) Hos ltac:(lia)) as [IH1 IH2].
      destruct (total_proceeds os _) as [c|]; cbn; [|split; [done|by intros _; apply IH2]].
      split; [|done]. intros c' [= <-]. rewrite (IH1 c) by done. by rewrite swrap_add_l, Z.add_assoc.
Qed.

Lemma total_cost_nonneg ig os : forall amt c, Forall sane os -> 0 < amt ->
  total_cost ig os amt = Some c -> 0 <= c.
Proof.
  induction os as [|o os IH]; intros amt c Hos Ha; cbn [total_cost]; [done|].
  apply Forall_cons in Hos as [Ho Hos]. pose proof (sane_bounds o Ho) as (Hn & Hd & Hamt & Hav).
  destruct (ignored ig o); [by apply IH|].
  pose proof (cost_nonneg o (Z.min (available o) amt) Ho ltac:(lia)).
  destruct (_ >? _); [done|]. destruct (Z.eqb_spec (Z.min (available o) amt) amt); [by intros [= <-]|].
  destruct (total_cost ig os _) as [c0|] eqn:E0; [|done]. intros [= <-].
  specialize (IH (amt - Z.min (available o) amt) c0 Hos ltac:(lia) E0). lia.
Qed.

(** At prices of at least [n/d] nobody sells for less. *)
Lemma total_cost_fair ig n d os : 0 < d -> forall amt c, Forall sane os -> 0 < amt ->
  Forall (fun o => ignored ig o = false -> n * d_of o <= n_of o * d) os ->
  total_cost ig os amt = Some c -> amt * n <= c * d.
Proof.
  intros Hdpos. induction os as [|o os IH]; intros amt c Hos Ha Hp; cbn [total_cost]; [done|].
  apply Forall_cons in Hos as [Ho Hos]. apply Forall_cons in Hp as [Hpo Hp].
  destruct (ignored ig o) eqn:Ei; [by apply IH|]. specialize (Hpo eq_refl).
  pose proof (sane_bounds o Ho) as (Hn & Hd & Hamt & Hav).
  set (s := Z.min (available o) amt). assert (Hs : 0 <= s <= amt) by lia.
  destruct (Price.ceil_div_bounds (s * n_of o) (d_of o) ltac:(lia)) as [Hc _]. fold (cost o s) in Hc.
  assert (Hsc : s * n <= cost o s * d).
  { apply (Z.mul_le_mono_pos_r _ _ (d_of o)); [lia|]. nia. }
  destruct (_ >? _); [done|]. destruct (Z.eqb_spec s amt) as [E|E]; [intros [= <-]; by rewrite <- E at 1|].
  destruct (total_cost ig os _) as [c0|] eqn:E0; [|done]. intros [= <-].
  specialize (IH (amt - s) c0 Hos ltac:(lia) Hp E0). lia.
Qed.

(** At prices of at least [n/d] nobody gets more for his money. *)
Lemma total_proceeds_fair n d os : 0 < d -> forall amt c, Forall sane os -> 0 < amt ->
  Forall (fun o => n * d_of o <= n_of o * d) os ->
  total_proceeds os amt = Some c -> 0 < c /\ c * n <= amt * d.
Proof.
  intros Hdpos. induction os as [|o os IH]; intros amt c Hos Ha Hp; cbn [total_proceeds]; [done|].
  apply Forall_cons in Hos as [Ho Hos]. apply Forall_cons in Hp as [Hpo Hp].
  pose proof (sane_bounds o Ho) as (Hn & Hd & Hamt & Hav).
  pose proof (Z.mul_div_le (amt * d_of o) (n_of o) ltac:(lia)) as Hq.
  assert (Hq0 : 0 <= amt * d_of o / n_of o) by (apply Z.div_pos; nia).
  set (sold := amt * d_of o / n_of o) in *.
  destruct (Z.eqb_spec sold 0); [done|].
  destruct (Z.leb_spec sold (Amount_ o)) as [Hle|Hgt].
  { intros [= <-]. split; [lia|]. apply (Z.mul_le_mono_pos_r _ _ (d_of o)); [lia|]. nia. }
  pose proof (whole_cost o amt Ho Hgt) as Hw. set (s := available o) in *.
  destruct (Price.ceil_div_bounds (s * n_of o) (d_of o) ltac:(lia)) as [Hc Hc']. fold (cost o s) in Hc, Hc'.
  assert (Hsc : s * n <= cost o s * d).
  { apply (Z.mul_le_mono_pos_r _ _ (d_of o)); [lia|]. nia. }
  destruct (Z.eqb_spec (cost o s) amt) as [E|E].
  - intros [= <-]. rewrite <- E. split; [|done]. nia.
  - destruct (total_proceeds os _) as [c0|] eqn:E0; [|done]. intros [= <-].
    destruct (IH (amt - cost o s) c0 Hos ltac:(lia) Hp E0). split; lia.
Qed.

(** Buying less never costs more. *)
Lemma total_cost_mono ig os : forall amt amt' c, Forall sane os -> 0 < amt' <= amt ->
  total_cost ig os amt = Some c -> exists c', total_cost ig os amt' = Some c' /\ c' <= c.
Proof.
  induction os as [|o os IH]; intros amt amt' c Hos Ha; cbn [total_cost]; [done|].
  apply Forall_cons in Hos as [Ho Hos]. destruct (ignored ig o); [by apply IH|].
  pose proof (sane_bounds o Ho) as (Hn & Hd & Hamt & Hav).
  set (s := Z.min (available o) amt). set (s' := Z.min (available o) amt').
  pose proof (cost_mono o s' s Ho ltac:(lia)) as Hm.
  destruct (cost o s >? MaxInt64) eqn:Ec; [done|]. zbool.
  replace (cost o s' >? MaxInt64) with false by lia.
  destruct (Z.eqb_spec s amt) as [E|E].
  - intros [= <-]. replace (s' =? amt') with true by lia. eauto.
  - destruct (total_cost ig os (amt - s)) as [c0|] eqn:E0; [|done]. cbn. intros [= <-].
    pose proof (total_cost_nonneg ig os (amt - s) c0 Hos ltac:(lia) E0).
    destruct (Z.eqb_spec s' amt') as [E'|E']; [exists (cost o s'); split; [done|lia]|].
    destruct (IH (amt - s) (amt' - s') c0 Hos ltac:(lia) E0) as (c1 & -> & Hc1).
    eexists. split; [done|]. lia.
Qed.

(** ** Properties *)

(** Walking sane offers to buy [amt] units returns the exact total price,
    reduced modulo 2^64 to an int64, or -1 when the offers do not suffice; no
    error is ever reported. When the exact total fits an int64 it is the
    result; buying less never costs more; and the total is never below
    [amt] at a price that no considered offer undercuts. *)
Theorem selling_consumption_exact (os : list OfferEntry) (ig : option AccountId.t) (amt best : Z)
  (Hne : os <> []) (Hos : Forall sane os) (Ha : 0 < amt < 2 ^ 63) :
  match total_cost ig os amt with
  | None => consumeOffersForSellingAsset os ig amt best = Ok (-1, None)
  | Some c =>
      consumeOffersForSellingAsset os ig amt best = Ok (to_int64 c, None) /\
      (c <= MaxInt64 -> to_int64 c = c) /\
      (forall amt', 0 < amt' <= amt -> exists c', total_cost ig os amt' = Some c' /\ c' <= c) /\
      (forall n d, 0 < d ->
         Forall (fun o => ignored ig o = false -> n * d_of o <= n_of o * d) os -> amt * n <= c * d)
  end.
Proof.
  unfold consumeOffersForSellingAsset. replace (amt =? 0) with false by lia.
  assert (Nat.eqb (length os) 0 = false) as -> by (by destruct os).
  destruct (selling_loop_exact ig os amt 0 Hos Ha) as [H1 H2].
  destruct (total_cost ig os amt) as [c|] eqn:E0; [|by apply H2]. split_and!.
  - by rewrite (H1 c).
  - intros Hc. pose proof (total_cost_nonneg ig os amt c Hos ltac:(lia) E0).
    apply swrap_small; [lia|]. unfold in_int, MaxInt64 in *. lia.
  - intros amt' Ha'. by apply (total_cost_mono ig os amt).
  - intros n d Hd Hp. by apply (total_cost_fair ig n d os Hd amt c Hos ltac:(lia) Hp).
Qed.

(** Spending [amt] on sane offers returns the exact number of units
    received, reduced modulo 2^64, or -1 when the money cannot be spent; no
    error is reported and more than the balance is never sold; the units
    received are positive and never worth more than [amt] at a price that no
    offer undercuts. *)
Theorem buying_consumption_exact (os : list OfferEntry) (amt : Z)
  (Hne : os <> []) (Hos : Forall sane os) (Ha : 0 < amt < 2 ^ 63) :
  match total_proceeds os amt with
  | None => consumeOffersForBuyingAsset os amt = Ok (-1, None)
  | Some c =>
      consumeOffersForBuyingAsset os amt = Ok (to_int64 c, None) /\
      (c <= MaxInt64 -> to_int64 c = c) /\ 0 < c /\
      (forall n d, 0 < d -> Forall (fun o => n * d_of o <= n_of o * d) os -> c * n <= amt * d)
  end.
Proof.
  unfold consumeOffersForBuyingAsset. replace (amt =? 0) with false by lia.
  assert (Nat.eqb (length os) 0 = false) as -> by (by destruct os).
  destruct (buying_loop_exact os amt 0 Hos Ha) as [H1 H2].
  destruct (total_proceeds os amt) as [c|] eqn:E0; [|by apply H2].
  assert (Hpos : 0 < c).
  { apply (total_proceeds_fair 0 1 os ltac:(lia) amt c Hos ltac:(lia)); [|done].
    eapply Forall_impl; [exact Hos|]. intros o Ho. pose proof (sane_bounds o Ho). lia. }
  split_and!; [by rewrite (H1 c)| |done|].
  - intros Hc. apply swrap_small; [lia|]. unfold in_int, MaxInt64 in *. lia.
  - intros n d Hd Hp. by apply (total_proceeds_fair n d os Hd amt c Hos ltac:(lia) Hp).
Qed.

Definition priced_offer (id amount n d : Z) : OfferEntry :=
  mkOffer Asset.zero_account id Asset.usd Asset.Native amount (Price.mk n d) 0.

Lemma selling_consumption_exact_witness :
  consumeOffersForSellingAsset [priced_offer 1 10 1 2; priced_offer 2 10 3 1] None 12 0 = Ok (11, None).
Proof.
  refine (proj1 (selling_consumption_exact [priced_offer 1 10 1 2; priced_offer 2 10 3 1] None 12 0
    ltac:(discriminate) _ ltac:(lia))).
  repeat constructor; cbn; lia.
Defined.

Lemma buying_consumption_exact_witness :
  consumeOffersForBuyingAsset [priced_offer 1 10 1 2; priced_offer 2 10 3 1] 11 = Ok (12, None).
Proof.
  refine (proj1 (buying_consumption_exact [priced_offer 1 10 1 2; priced_offer 2 10 3 1] 11
    ltac:(discriminate) _ ltac:(lia))).
  repeat constructor; cbn; lia.
Defined.

(** The running total is not checked for overflow: three payments that add up
    to 2^64 + 5 are reported as a price of 5. *)
Example selling_total_wraps :
  let os := [priced_offer 1 (2 ^ 33 + 5) 1 1; priced_offer 2 (2 ^ 32) (2 ^ 31 - 1) 1;
             priced_offer 3 (2 ^ 32) (2 ^ 31 - 1) 1] in
  total_cost None os (2 ^ 34 + 5) = Some (2 ^ 64 + 5) /\
  consumeOffersForSellingAsset os None (2 ^ 34 + 5) 0 = Ok (5, None).
Proof. vm_compute. done. Qed.

End Consume.
