(* ===== verification/SearchProofs.v ===== *)
(** * Soundness of path finding

    What the search of exp/orderbook/search.go reports: every path is a chain
    of distinct assets whose amounts are obtained by trading along the edges,
    within the bound on its length; the mutation of path nodes is invisible. *)
From S2P Require Import Prelude Price Xdr Pools Edges Graph Search.

Module SearchProofs.
Import Pools Edges Graph Search.

(** ** Path reversal *)

Lemma reverse_loop_lookup k : forall path, (k <= length path / 2)%nat ->
  length (reverse_loop k path) = length path /\
  forall j, (j < length path)%nat ->
    reverse_loop k path !! j =
    if Nat.ltb j k || Nat.leb (length path - k) j then path !! (length path - 1 - j)%nat else path !! j.
Proof.
  induction k as [|k IH]; intros path Hk; cbn [reverse_loop].
  { split; [done|]. intros j Hj. simpl. by rewrite (proj2 (Nat.leb_gt _ _)) by lia. }
  pose proof (Nat.div_mod (length path) 2 ltac:(lia)) as Hdm.
  set (opp := (length path - 1 - k)%nat).
  destruct (lookup_lt_is_Some_2 path k) as [x Ex]; [lia|].
  destruct (lookup_lt_is_Some_2 path opp) as [y Ey]; [unfold opp; lia|]. rewrite Ex, Ey.
  set (path' := <[k:=y]> (<[opp:=x]> path)).
  assert (Hl : length path' = length path) by (unfold path'; by rewrite !length_insert).
  destruct (IH path') as [IHl IHj]; [rewrite Hl; lia|]. split; [by rewrite IHl|].
  intros j Hj. rewrite IHj by lia. rewrite Hl. unfold path'.
  assert (Hkl : (k < length path)%nat) by lia. assert (Hol : (opp < length path)%nat) by lia.
  assert (Hget : forall m, <[k:=y]> (<[opp:=x]> path) !! m =
    if Nat.eqb m k then Some y else if Nat.eqb m opp then Some x else path !! m).
  { intros m. destruct (Nat.eqb_spec m k) as [->|]; [by rewrite list_lookup_insert_eq by (rewrite length_insert; lia)|].
    rewrite list_lookup_insert_ne by lia. destruct (Nat.eqb_spec m opp) as [->|];
      [by rewrite list_lookup_insert_eq by lia|by rewrite list_lookup_insert_ne by lia]. }
  rewrite !Hget. destruct (Nat.ltb_spec j k); cbn [orb].
  { rewrite (proj2 (Nat.ltb_lt j (S k))) by lia. cbn [orb].
    rewrite (proj2 (Nat.eqb_neq _ k)), (proj2 (Nat.eqb_neq _ opp)) by lia. done. }
  destruct (Nat.leb_spec (length path - k) j).
  { rewrite (proj2 (Nat.leb_le (length path - S k) j)), orb_true_r by lia.
    rewrite (proj2 (Nat.eqb_neq _ k)), (proj2 (Nat.eqb_neq _ opp)) by lia. done. }
  destruct (Nat.eqb_spec j k) as [->|].
  { rewrite (proj2 (Nat.ltb_lt k (S k))) by lia. cbn [orb]. by fold opp. }
  destruct (Nat.eqb_spec j opp) as [->|].
  { rewrite (proj2 (Nat.leb_le (length path - S k) opp)), orb_true_r by lia.
    by replace (length path - 1 - opp)%nat with k by lia. }
  by rewrite (proj2 (Nat.ltb_ge j (S k))), (proj2 (Nat.leb_gt (length path - S k) j)) by lia.
Qed.

(** Swapping in place from the middle out reverses the slice. *)
Lemma reversePath_reverse path : reversePath path = reverse path.
Proof.
  unfold reversePath. pose proof (Nat.div_mod (length path) 2 ltac:(lia)).
  pose proof (Nat.mod_upper_bound (length path) 2 ltac:(lia)).
  destruct (reverse_loop_lookup (length path / 2) path (Nat.le_refl _)) as [Hl Hj].
  apply list_eq_same_length with (n := length path); [by rewrite length_reverse|done|].
  intros j x y Hlt. rewrite Hj, reverse_lookup by lia.
  replace (length path - S j)%nat with (length path - 1 - j)%nat by lia.
  destruct (Nat.ltb_spec j (length path / 2)), (Nat.leb_spec (length path - length path / 2) j); cbn [orb];
    try congruence.
  replace (length path - 1 - j)%nat with j by lia. congruence.
Qed.

(** ** Nodes in the heap *)

Definition acyclic (h : list pathNode) : Prop :=
  forall a n b, h !! a = Some n -> pn_prev n = Some b -> (b < a)%nat.

(** [denotes h p l]: following [prev] from [p] meets the assets [l]. *)
Inductive denotes (h : list pathNode) : option nat -> list Z -> Prop :=
| denotes_nil : denotes h None []
| denotes_cons a n l : h !! a = Some n -> denotes h (pn_prev n) l ->
    denotes h (Some a) (pn_asset n :: l).

Lemma denotes_walk h p l : denotes h p l -> forall fuel, (length l <= fuel)%nat -> walk fuel h p = l.
Proof.
  induction 1 as [|a n l Ha _ IH]; intros [|fuel] Hf; simpl in *; try done; try lia.
  rewrite Ha. f_equal. apply IH. lia.
Qed.

Lemma denotes_length h p l : acyclic h -> denotes h p l ->
  match p with Some a => (length l <= S a)%nat | None => l = [] end.
Proof.
  intros Hac. induction 1 as [|a n l Ha Hd IH]; [done|]. simpl.
  destruct (pn_prev n) as [b|] eqn:Eb; [|subst; simpl; lia].
  pose proof (Hac a n b Ha Eb). lia.
Qed.

Lemma denotes_full h p l : acyclic h -> denotes h p l -> walk (length h) h p = l.
Proof.
  intros Hac Hd. apply (denotes_walk h p l Hd). pose proof (denotes_length h p l Hac Hd) as Hl.
  destruct Hd as [|a n l Ha _]; [simpl; lia|]. apply lookup_lt_Some in Ha. lia.
Qed.

Lemma denotes_app h h' p l : denotes h p l -> denotes (h ++ h') p l.
Proof. induction 1; econstructor; [|done]. by apply lookup_app_l_Some. Qed.

Lemma denotes_update h a0 n0 p l : acyclic h -> (match p with Some a => (a < a0)%nat | None => True end) ->
  denotes h p l -> denotes (<[a0 := n0]> h) p l.
Proof.
  intros Hac Hp Hd. induction Hd as [|a n l Ha Hd IH]; [constructor|].
  constructor; [by rewrite list_lookup_insert_ne by lia|]. apply IH.
  destruct (pn_prev n) as [b|] eqn:Eb; [|done]. pose proof (Hac a n b Ha Eb). lia.
Qed.

Lemma acyclic_app h n : acyclic h -> (match pn_prev n with Some b => (b < length h)%nat | None => True end) ->
  acyclic (h ++ [n]).
Proof.
  intros Hac Hn a m b Ha Hb. apply lookup_app_Some in Ha as [Ha|[Hl Ha]]; [by eapply Hac|].
  apply list_lookup_singleton_Some in Ha as [Ha <-]. rewrite Hb in Hn. lia.
Qed.

Lemma acyclic_update h a0 n0 : acyclic h -> (match pn_prev n0 with Some b => (b < a0)%nat | None => True end) ->
  acyclic (<[a0 := n0]> h).
Proof.
  intros Hac Hn a m b Ha Hb. apply list_lookup_insert_Some in Ha as [(-> & <- & _)|[_ Ha]].
  - by rewrite Hb in Hn.
  - by eapply Hac.
Qed.

Lemma contains_elem h p l x : acyclic h -> denotes h p l -> contains h p x = true <-> x ∈ l.
Proof.
  intros Hac Hd. unfold contains. rewrite (denotes_full h p l Hac Hd), existsb_exists.
  setoid_rewrite Z.eqb_eq. rewrite list_elem_of_In. split; [by intros (y & Hy & ->)|eauto].
Qed.

(** ** Routes *)

Section Soundness.
Context (ctx : nat -> option error) (state : searchState).
Context (maxPathLength source sourceAmount : Z).

(** Trading from the source along distinct assets; the list is the route so
    far, the number what is held (or needed) of its last asset. *)
Inductive route : list Z -> Z -> Prop :=
| route_start : route [source] sourceAmount
| route_step l cur amt es x amt' :
    route (l ++ [cur]) amt -> amt <> 0 -> venues state cur = Ok es -> x ∈ es ->
    key x ∉ l ++ [cur] -> processVenues state cur amt (value x) = Ok (amt', None) -> 0 < amt' ->
    route ((l ++ [cur]) ++ [key x]) amt'.

Lemma route_NoDup l amt : route l amt -> NoDup l.
Proof.
  induction 1 as [|l cur amt es x amt' _ IH _ _ _ Hk _ _]; [apply NoDup_singleton|].
  apply NoDup_app. split_and!; [done| |apply NoDup_singleton].
  intros y Hy. rewrite list_elem_of_singleton. intros ->. done.
Qed.

Lemma route_head l amt : route l amt -> exists t, l = source :: t.
Proof.
  induction 1 as [|l cur amt es x amt' _ [t IH] _ _ _ _ _ _]; [by exists []|].
  rewrite IH. by eexists.
Qed.

(** The paths reported: each is a route ending in an accepted asset. *)
Inductive emitted (ps0 : list Path) : list Path -> Prop :=
| emitted_start : emitted ps0 ps0
| emitted_add ps l a amt ps' : emitted ps0 ps -> route (l ++ [a]) amt ->
    includePath state a amt = true -> Z.of_nat (length (l ++ [a])) <= Z.max 0 maxPathLength + 1 ->
    appendToPaths state ps (l ++ [a]) a amt = Ok ps' -> emitted ps0 ps'.

(** A pointer to a stored route that ends in [a]. *)
Definition stored (h : list pathNode) (base : nat) (len : nat) (a amt : Z) (p : nat) : Prop :=
  (p < base)%nat /\ exists l, denotes h (Some p) (reverse (l ++ [a])) /\ route (l ++ [a]) amt /\
    (length (l ++ [a]) <= len)%nat.

(** A node made in this round: its predecessor is a stored route. *)
Definition pending (h : list pathNode) (base : nat) (len : nat) (a amt : Z) (p : nat) : Prop :=
  (base <= p)%nat /\ exists q l, h !! p = Some (mkNode a (Some q)) /\ (q < base)%nat /\
    denotes h (Some q) (reverse l) /\ route (l ++ [a]) amt /\ (length (l ++ [a]) <= S len)%nat.

(** [slot l a] is the entry of a table at an asset id. *)
Definition slot {A} (l : list A) (a : Z) : option A := if a <? 0 then None else l !! Z.to_nat a.

Lemma index_slot {A} (l : list A) a x : index l a = Ok x <-> slot l a = Some x.
Proof. unfold index, slot. destruct (a <? 0); [done|]. destruct (l !! Z.to_nat a); naive_solver. Qed.

Lemma assign_slot {A} (l l' : list A) a x : assign l a x = Ok l' ->
  forall b, slot l' b = if b =? a then Some x else slot l b.
Proof.
  unfold assign, slot. destruct (Z.ltb_spec a 0), (Z.leb_spec (Z.of_nat (length l)) a); try done.
  intros [= <-] b. destruct (Z.ltb_spec b 0), (Z.eqb_spec b a) as [->|]; try lia; try done.
  - by rewrite list_lookup_insert_eq by lia.
  - by rewrite list_lookup_insert_ne by lia.
Qed.

Record inv (ps0 : list Path) (base len : nat) (v : searchVars) : Prop := {
  i_acyclic : acyclic (heap v);
  i_base : (base <= length (heap v))%nat;
  i_best a amt : slot (bestAmount v) a = Some amt -> amt <> 0 ->
    exists p, slot (bestPath v) a = Some (Some p) /\ stored (heap v) base len a amt p;
  i_pending a : a ∈ updatedAssets v ->
    exists amt p, slot (updateAmount v) a = Some amt /\ slot (updatePath v) a = Some (Some p) /\
      pending (heap v) base len a amt p;
  i_fresh a u b : slot (updateAmount v) a = Some u -> slot (bestAmount v) a = Some b -> u <> b ->
    a ∈ updatedAssets v;
  i_found : emitted ps0 (found v)
}.

Lemma inv_tick ps0 base len v : inv ps0 base len v -> inv ps0 base len (tick v).
Proof. by intros []. Qed.

Lemma stored_app h n base len a amt p : stored h base len a amt p -> stored (h ++ [n]) base len a amt p.
Proof.
  intros (Hp & l & Hd & Hr & Hl). split; [done|]. exists l. split_and!; [by apply denotes_app|done|done].
Qed.

Lemma stored_update h a0 n base len a amt p : acyclic h -> (base <= a0)%nat ->
  stored h base len a amt p -> stored (<[a0 := n]> h) base len a amt p.
Proof.
  intros Hac Hb (Hp & l & Hd & Hr & Hl). split; [done|]. exists l.
  split_and!; [apply denotes_update; [done|lia|done]|done|done].
Qed.

Lemma pending_app h n base len a amt p : pending h base len a amt p -> pending (h ++ [n]) base len a amt p.
Proof.
  intros (Hp & q & l & Hn & Hq & Hd & Hr & Hl). split; [done|]. exists q, l.
  split_and!; try done; [by apply lookup_app_l_Some|by apply denotes_app].
Qed.

Lemma pending_update h a0 n0 base len a amt p : acyclic h -> (base <= a0)%nat -> p <> a0 ->
  pending h base len a amt p -> pending (<[a0 := n0]> h) base len a amt p.
Proof.
  intros Hac Hb Hne (Hp & q & l & Hn & Hq & Hd & Hr & Hl). split; [done|]. exists q, l.
  split_and!; try done; [by rewrite list_lookup_insert_ne by lia|apply denotes_update; [done|lia|done]].
Qed.

(** Storing the improved amount and its node keeps the invariant, except for
    the report; the stored route it extends is still denoted by [path]. *)
Lemma inv_extend ps0 base len v path l a amt :
  inv ps0 base len v -> (path < base)%nat -> denotes (heap v) (Some path) (reverse l) ->
  route (l ++ [a]) amt -> (length (l ++ [a]) <= S len)%nat ->
  forall u b ua v', slot (updateAmount v) a = Some u -> slot (bestAmount v) a = Some b ->
  assign (updateAmount v) a amt = Ok ua ->
  (if u =? b then
     up ← assign (updatePath v) a (Some (length (heap v)));
     Ok (mkVars (bestAmount v) ua (bestPath v) up (updatedAssets v ++ [a])
           (heap v ++ [mkNode a (Some path)]) (found v) (checks v))
   else
     p ← index (updatePath v) a;
     x ← from_opt "nil pointer dereference" p;
     n ← from_opt "nil pointer dereference" (heap v !! x);
     Ok (mkVars (bestAmount v) ua (bestPath v) (updatePath v) (updatedAssets v)
           (<[x := mkNode (pn_asset n) (Some path)]> (heap v)) (found v) (checks v))) = Ok v' ->
  inv ps0 base len v' /\ denotes (heap v') (Some path) (reverse l) /\ found v' = found v.
Proof.
  intros [] Hpath Hden Hroute Hlen u b ua v' Hu Hb Hua Hv'.
  pose proof (assign_slot _ _ _ _ Hua) as Sua.
  destruct (Z.eqb_spec u b) as [->|Hub].
  - apply bind_Ok in Hv' as (up & Hup & [= <-]). pose proof (assign_slot _ _ _ _ Hup) as Sup.
    split; [|split; [by apply denotes_app|done]]. split; simpl.
    + apply acyclic_app; [done|]. simpl. lia.
    + rewrite length_app. lia.
    + intros c w Hc Hw. destruct (i_best0 c w Hc Hw) as (p & Hp & Hs). exists p.
      split; [done|]. by apply stored_app.
    + intros c. rewrite elem_of_app, list_elem_of_singleton, Sua, Sup.
      destruct (Z.eqb_spec c a) as [->|Hca].
      * intros _. exists amt, (length (heap v)). split_and!; [done|done|]. split; [lia|].
        exists path, l. split_and!; try done; [by rewrite list_lookup_middle|by apply denotes_app].
      * intros [Hc|]; [|done]. destruct (i_pending0 c Hc) as (w & p & H1 & H2 & H3).
        exists w, p. split_and!; [done|done|]. by apply pending_app.
    + intros c u' b'. rewrite Sua, elem_of_app, list_elem_of_singleton.
      destruct (Z.eqb_spec c a) as [->|Hca]; [by auto|]. intros H1 H2 H3. left. by eapply i_fresh0.
    + done.
  - pose proof (i_fresh0 a u b Hu Hb Hub) as Hin.
    destruct (i_pending0 a Hin) as (w & p & H1 & H2 & (Hbp & q & l' & Hn & _)).
    apply bind_Ok in Hv' as (p' & Hp' & Hv'). apply index_slot in Hp'. rewrite H2 in Hp'. injection Hp' as <-.
    cbn [from_opt] in Hv'. rewrite bind_Ok_l, Hn in Hv'. cbn [from_opt] in Hv'.
    rewrite bind_Ok_l in Hv'. injection Hv' as <-. cbn [pn_asset].
    assert (Hpl : (p < length (heap v))%nat) by (by eapply lookup_lt_Some).
    split; [|split; [apply denotes_update; [done|lia|done]|done]]. split; simpl.
    + apply acyclic_update; [done|]. simpl. lia.
    + by rewrite length_insert.
    + intros c w' Hc Hw. destruct (i_best0 c w' Hc Hw) as (p' & Hp & Hs). exists p'.
      split; [done|]. by apply stored_update.
    + intros c Hc. rewrite Sua. destruct (Z.eqb_spec c a) as [->|Hca].
      * exists amt, p. split_and!; [done|done|]. split; [done|]. exists path, l.
        split_and!; try done; [by rewrite list_lookup_insert_eq|apply denotes_update; [done|lia|done]].
      * destruct (i_pending0 c Hc) as (w' & p' & G1 & G2 & G3). exists w', p'. split_and!; [done|done|].
        apply pending_update; try done. intros ->.
        destruct G3 as (_ & q' & l'' & Hn' & _). congruence.
    + intros c u' b'. rewrite Sua. destruct (Z.eqb_spec c a) as [->|Hca]; [done|]. apply i_fresh0.
    + done.
Qed.

Lemma improve_inv ps0 base len v path l a amt v' :
  inv ps0 base len v -> (path < base)%nat -> denotes (heap v) (Some path) (reverse l) ->
  route (l ++ [a]) amt -> (length (l ++ [a]) <= S len)%nat ->
  Z.of_nat (S len) <= Z.max 0 maxPathLength + 1 ->
  improve state v (Some path) a amt = Ok v' -> inv ps0 base len v' /\
  (forall p l', (p < base)%nat -> denotes (heap v) (Some p) l' -> denotes (heap v') (Some p) l') /\
  bestAmount v' = bestAmount v /\ bestPath v' = bestPath v.
Proof.
  intros HI Hpath Hden Hroute Hlen Hmax. unfold improve.
  intros (u & Hu & H)%bind_Ok. apply bind_Ok in H as (b & Hb & H). apply bind_Ok in H as (ua & Hua & H).
  apply bind_Ok in H as (v1 & Hv1 & H). apply index_slot in Hu, Hb.
  destruct (inv_extend ps0 base len v path l a amt HI Hpath Hden Hroute Hlen u b ua v1 Hu Hb Hua Hv1)
    as (HI1 & Hd1 & Hf1).
  assert (Hrest : (forall p l', (p < base)%nat -> denotes (heap v) (Some p) l' -> denotes (heap v1) (Some p) l') /\
    bestAmount v1 = bestAmount v /\ bestPath v1 = bestPath v).
  { destruct (u =? b) eqn:Eub.
    - apply bind_Ok in Hv1 as (up & _ & [= <-]). split_and!; [|done|done].
      intros p l' _ Hd. by apply denotes_app.
    - apply bind_Ok in Hv1 as (p' & Hp' & Hv1). apply bind_Ok in Hv1 as (x & Hx & Hv1).
      apply bind_Ok in Hv1 as (n & Hn & [= <-]). split_and!; [|done|done].
      intros p l' Hp Hd. apply denotes_update; [apply HI| |done].
      apply index_slot in Hp'. apply from_opt_Ok in Hx. subst p'.
      zbool. destruct (i_pending _ _ _ _ HI a) as (w & p2 & _ & H2 & (Hbp & _));
        [by eapply (i_fresh _ _ _ _ HI)|]. assert (x = p2) by congruence. lia. }
  destruct (includePath state a amt) eqn:Einc; [|injection H as <-; by split].
  apply bind_Ok in H as (ps & Hps & [= <-]). destruct HI1. simpl. split; [|done].
  split; simpl; try done. eapply emitted_add; [exact i_found0|exact Hroute|done| |].
  - lia.
  - unfold node_path in Hps. rewrite (denotes_full _ _ _ i_acyclic0 Hd1), reversePath_reverse,
      reverse_involutive in Hps. exact Hps.
Qed.

(** What stays fixed while the edges of one asset are visited. *)
Definition frozen (base : nat) (v v' : searchVars) : Prop :=
  (forall p l, (p < base)%nat -> denotes (heap v) (Some p) l -> denotes (heap v') (Some p) l) /\
  bestAmount v' = bestAmount v /\ bestPath v' = bestPath v.

Lemma frozen_refl base v : frozen base v v.
Proof. by split_and!. Qed.

Lemma frozen_trans base v1 v2 v3 : frozen base v1 v2 -> frozen base v2 v3 -> frozen base v1 v3.
Proof. intros (H1 & H2 & H3) (G1 & G2 & G3). split_and!; [eauto|congruence|congruence]. Qed.

Lemma visit_edge_inv last ps0 base len v cur amt path l es x v' :
  inv ps0 base len v -> Z.of_nat (S len) <= Z.max 0 maxPathLength + 1 ->
  (path < base)%nat -> denotes (heap v) (Some path) (reverse (l ++ [cur])) ->
  route (l ++ [cur]) amt -> (length (l ++ [cur]) <= len)%nat -> amt <> 0 ->
  venues state cur = Ok es -> x ∈ es ->
  visit_edge ctx state last cur amt (Some path) v x = Ok v' -> inv ps0 base len v' /\ frozen base v v'.
Proof.
  intros HI Hmax Hpath Hden Hroute Hlen Ha Hes Hx. unfold visit_edge.
  destruct (ctx (checks v)); [done|]. apply inv_tick in HI. cbv zeta.
  destruct (last && _); [intros [= <-]; split; [done|by split_and!]|].
  destruct (contains _ _ _) eqn:Ec; [intros [= <-]; split; [done|by split_and!]|].
  intros ([nxt err] & Hpv & H)%bind_Ok. destruct err as [e|]; [done|].
  destruct (Z.leb_spec nxt 0); [injection H as <-; split; [done|by split_and!]|].
  apply bind_Ok in H as (u & _ & H).
  destruct (betterPathAmount state u nxt); [|injection H as <-; split; [done|by split_and!]].
  assert (Hk : key x ∉ l ++ [cur]).
  { intros Hin. rewrite <- not_true_iff_false in Ec. apply Ec.
    apply (contains_elem _ _ _ _ (i_acyclic _ _ _ _ HI) Hden). by rewrite elem_of_reverse. }
  assert (Hr : route ((l ++ [cur]) ++ [key x]) nxt) by (by eapply route_step).
  destruct (improve_inv ps0 base len (tick v) path (l ++ [cur]) (key x) nxt v' HI Hpath Hden Hr) as (H1 & H2 & H3);
    [rewrite length_app; simpl; lia|done|done|]. split; [done|]. by split.
Qed.

Lemma visit_edges_inv last ps0 base len cur amt path l es xs : forall v v',
  inv ps0 base len v -> Z.of_nat (S len) <= Z.max 0 maxPathLength + 1 ->
  (path < base)%nat -> denotes (heap v) (Some path) (reverse (l ++ [cur])) ->
  route (l ++ [cur]) amt -> (length (l ++ [cur]) <= len)%nat -> amt <> 0 ->
  venues state cur = Ok es -> (forall x, x ∈ xs -> x ∈ es) ->
  res_fold (visit_edge ctx state last cur amt (Some path)) v xs = Ok v' ->
  inv ps0 base len v' /\ frozen base v v'.
Proof.
  induction xs as [|x xs IH]; intros v v' HI Hmax Hpath Hden Hroute Hlen Ha Hes Hxs; cbn [res_fold].
  { intros [= <-]. split; [done|apply frozen_refl]. }
  intros (v1 & H1 & H)%bind_Ok.
  destruct (visit_edge_inv last ps0 base len v cur amt path l es x v1) as [HI1 F1]; try done.
  { apply Hxs. left. }
  destruct (IH v1 v' HI1 Hmax Hpath) as [HI2 F2]; try done.
  { by apply F1. } { intros y Hy. apply Hxs. by right. }
  split; [done|]. by eapply frozen_trans.
Qed.

Lemma visit_assets_inv last ps0 base len cs : forall v v',
  inv ps0 base len v -> Z.of_nat (S len) <= Z.max 0 maxPathLength + 1 ->
  res_fold (visit_asset ctx state last) v cs = Ok v' -> inv ps0 base len v'.
Proof.
  induction cs as [|c cs IH]; intros v v' HI Hmax; cbn [res_fold]; [by intros [= <-]|].
  intros (v1 & H1 & H)%bind_Ok. apply (IH v1); [|done|done]. unfold visit_asset in H1.
  apply bind_Ok in H1 as (amt & Ha & H1). apply index_slot in Ha.
  destruct (Z.eqb_spec amt 0); [by injection H1 as <-|].
  apply bind_Ok in H1 as (path & Hp & H1). apply index_slot in Hp.
  apply bind_Ok in H1 as (es & Hes & H1).
  destruct (i_best _ _ _ _ HI c amt Ha) as (p & Hp' & Hb & l & Hd & Hr & Hl); [done|].
  assert (path = Some p) as -> by congruence.
  by eapply (visit_edges_inv last ps0 base len c amt p l es es v v1).
Qed.

(** While the round is committed: [todo] are the assets still to copy. *)
Record cinv (ps0 : list Path) (base len : nat) (todo : list Z) (v : searchVars) : Prop := {
  ci_acyclic : acyclic (heap v);
  ci_best a amt : slot (bestAmount v) a = Some amt -> amt <> 0 ->
    exists p, slot (bestPath v) a = Some (Some p) /\ stored (heap v) (length (heap v)) (S len) a amt p;
  ci_pending a : a ∈ todo ->
    exists amt p, slot (updateAmount v) a = Some amt /\ slot (updatePath v) a = Some (Some p) /\
      pending (heap v) base len a amt p;
  ci_fresh a u b : slot (updateAmount v) a = Some u -> slot (bestAmount v) a = Some b -> u <> b -> a ∈ todo;
  ci_found : emitted ps0 (found v)
}.

Lemma inv_cinv ps0 base len v : inv ps0 base len v -> cinv ps0 base len (updatedAssets v) v.
Proof.
  intros []. split; try done. intros a amt Ha Hamt.
  destruct (i_best0 a amt Ha Hamt) as (p & Hp & Hb & l & Hd & Hr & Hl). exists p. split; [done|].
  split; [lia|]. exists l. split_and!; [done|done|lia].
Qed.

Lemma pending_stored h base len a amt p : pending h base len a amt p -> stored h (length h) (S len) a amt p.
Proof.
  intros (Hb & q & l & Hn & Hq & Hd & Hr & Hl). split; [by eapply lookup_lt_Some|]. exists l.
  split_and!; [|done|done]. rewrite reverse_snoc.
  change a with (pn_asset (mkNode a (Some q))). by constructor.
Qed.

Lemma commit_assets_inv ps0 base len todo : forall v v',
  cinv ps0 base len todo v -> res_fold commit_asset v todo = Ok v' -> cinv ps0 base len [] v'.
Proof.
  induction todo as [|c todo IH]; intros v v' HI; cbn [res_fold]; [by intros [= <-]|].
  intros (v1 & H1 & H)%bind_Ok. apply (IH v1); [|done]. unfold commit_asset in H1.
  apply bind_Ok in H1 as (p & Hp & H1). apply bind_Ok in H1 as (bp & Hbp & H1).
  apply bind_Ok in H1 as (u & Hu & H1). apply bind_Ok in H1 as (ba & Hba & [= <-]).
  apply index_slot in Hp, Hu. destruct HI.
  pose proof (assign_slot _ _ _ _ Hbp) as Sbp. pose proof (assign_slot _ _ _ _ Hba) as Sba.
  destruct (ci_pending0 c) as (amt & q & E1 & E2 & Hpend); [left|].
  assert (u = amt) as -> by congruence. assert (p = Some q) as -> by congruence.
  split; simpl; try done.
  - intros a w. rewrite Sba, Sbp. destruct (Z.eqb_spec a c) as [->|]; [|by apply ci_best0].
    intros [= <-] _. exists q. split; [done|]. by eapply pending_stored.
  - intros a Ha. apply ci_pending0. by right.
  - intros a u b. rewrite Sba. destruct (Z.eqb_spec a c) as [->|Hac]; [congruence|].
    intros G1 G2 G3. pose proof (ci_fresh0 a u b G1 G2 G3) as Hin. apply elem_of_cons in Hin as [?|?]; done.
Qed.

Lemma round_inv ps0 len v i v' :
  inv ps0 (length (heap v)) len (mkVars (bestAmount v) (updateAmount v) (bestPath v) (updatePath v) []
    (heap v) (found v) (checks v)) ->
  Z.of_nat (S len) <= Z.max 0 maxPathLength + 1 ->
  round ctx state maxPathLength v i = Ok v' ->
  emitted ps0 (found v') /\
  (i < maxPathLength - 1 -> inv ps0 (length (heap v')) (S len)
     (mkVars (bestAmount v') (updateAmount v') (bestPath v') (updatePath v') []
        (heap v') (found v') (checks v'))).
Proof.
  intros HI Hmax. unfold round. intros (v1 & H1 & H)%bind_Ok.
  apply (visit_assets_inv _ _ _ _ _ _ _ HI Hmax) in H1 as HI1.
  destruct (Z.ltb_spec i (maxPathLength - 1)).
  - pose proof (commit_assets_inv ps0 _ len _ v1 v' (inv_cinv _ _ _ _ HI1) H) as []. split; [done|]. intros _.
    split; simpl; try done. intros a Ha. by apply elem_of_nil in Ha.
  - injection H as <-. split; [apply HI1|lia].
Qed.

Lemma rounds_inv ps0 (m : nat) : forall v v' i len,
  inv ps0 (length (heap v)) len (mkVars (bestAmount v) (updateAmount v) (bestPath v) (updatePath v) []
    (heap v) (found v) (checks v)) ->
  0 <= i -> Z.of_nat len = i + 1 -> i + Z.of_nat m = Z.max 0 maxPathLength ->
  res_fold (round ctx state maxPathLength) v (seqZ i (Z.of_nat m)) = Ok v' -> emitted ps0 (found v').
Proof.
  induction m as [|m IH]; intros v v' i len HI Hi Hlen Him.
  { rewrite seqZ_nil by lia. cbn. intros [= <-]. apply HI. }
  rewrite seqZ_cons by lia. cbn [res_fold]. intros (v1 & H1 & H)%bind_Ok.
  destruct (round_inv ps0 len v i v1 HI ltac:(lia) H1) as [Hem Hnext].
  destruct m as [|m].
  { rewrite seqZ_nil in H by lia. cbn in H. by injection H as <-. }
  replace (Z.pred (Z.of_nat (S (S m)))) with (Z.of_nat (S m)) in H by lia.
  apply (IH v1 v' (Z.succ i) (S len)); [apply Hnext; lia|lia..|done].
Qed.

Lemma slot_replicate {A} n (x y : A) a : slot (replicate n x) a = Some y -> y = x.
Proof. unfold slot. destruct (a <? 0); [done|]. intros [? _]%lookup_replicate. done. Qed.

(** The invariant holds before the first round. *)
Lemma search_start_inv n ps0 ps1 ba bp :
  assign (replicate n 0) source sourceAmount = Ok ba ->
  assign (replicate n None) source (Some 0%nat) = Ok bp -> emitted ps0 ps1 ->
  inv ps0 1 1 (mkVars ba ba bp (replicate n None) [] [mkNode source None] ps1 0).
Proof.
  intros Hba Hbp Hem.
  pose proof (assign_slot _ _ _ _ Hba) as Sba. pose proof (assign_slot _ _ _ _ Hbp) as Sbp.
  split; simpl.
  - intros a m b Ha. apply list_lookup_singleton_Some in Ha as [_ <-]. done.
  - lia.
  - intros a amt. rewrite Sba, Sbp. destruct (Z.eqb_spec a source) as [->|].
    + intros [= <-] _. exists 0%nat. split; [done|]. split; [lia|]. exists []. split_and!; [|constructor|simpl; lia].
      simpl. change source with (pn_asset (mkNode source None)) at 2. constructor; [done|constructor].
    + intros Ha Hamt. by apply slot_replicate in Ha.
  - intros a Ha. by apply elem_of_nil in Ha.
  - intros a u b H1 H2. congruence.
  - done.
Qed.

Lemma search_emitted ps0 ps : search ctx state maxPathLength source sourceAmount ps0 = Ok ps -> emitted ps0 ps.
Proof.
  unfold search. destruct (totalAssets state <? 0); [done|]. cbv zeta.
  intros (ba & Hba & H)%bind_Ok. apply bind_Ok in H as (bp & Hbp & H).
  apply bind_Ok in H as (ps1 & Hps1 & H). apply bind_Ok in H as (v & Hv & [= <-]).
  assert (Hem : emitted ps0 ps1).
  { destruct (includePath state source sourceAmount) eqn:Ei; [|injection Hps1 as <-; constructor].
    eapply (emitted_add ps0 ps0 [] source sourceAmount); try done; [constructor|constructor|simpl; lia]. }
  assert (Hseq : seqZ 0 maxPathLength = seqZ 0 (Z.of_nat (Z.to_nat maxPathLength))).
  { destruct (Z.leb_spec 0 maxPathLength); [by rewrite Z2Nat.id|].
    by rewrite !seqZ_nil by lia. }
  rewrite Hseq in Hv. eapply (rounds_inv ps0 (Z.to_nat maxPathLength) _ _ 0 1); [|lia|lia|lia|exact Hv].
  by eapply search_start_inv.
Qed.

End Soundness.

(** ** From asset ids to the reported path *)

Lemma assetIDs_names g path : forall acc nodes,
  res_fold (fun acc id => s ← index (idToAssetString g) id; Ok (acc ++ [s])) acc path = Ok nodes ->
  exists names, nodes = acc ++ names /\ Forall2 (fun id s => index (idToAssetString g) id = Ok s) path names.
Proof.
  induction path as [|id path IH]; intros acc nodes; cbn [res_fold].
  { intros [= <-]. exists []. by rewrite app_nil_r. }
  intros (acc1 & H1 & H)%bind_Ok. apply bind_Ok in H1 as (s & Hs & [= <-]).
  apply IH in H as (names & -> & Hn). exists (s :: names). rewrite <- app_assoc. split; [done|]. by constructor.
Qed.

Lemma interior_route (x a : Z) t : interior (x :: t ++ [a]) = t.
Proof.
  unfold interior. cbn [length drop]. rewrite length_app. cbn [length].
  destruct (Nat.ltb_spec 2 (S (length t + 1))).
  - replace (S (length t + 1) - 2)%nat with (length t) by lia. apply take_app_length.
  - destruct t; [done|]. simpl in *. lia.
Qed.

(** The interior of a route that starts at [src] and ends at [a]. *)
Lemma interior_of state src amt0 l a amt : route state src amt0 (l ++ [a]) amt ->
  exists t, interior (l ++ [a]) = t /\ (length (l ++ [a]) <= 1 \/ length (l ++ [a]) = length t + 2)%nat /\
    ((l = [] /\ t = []) \/ l = src :: t).
Proof.
  intros Hr. destruct (route_head _ _ _ _ _ Hr) as [t Ht]. destruct l as [|y l].
  - exists []. split_and!; [done|simpl; lia|by left].
  - simpl in Ht. injection Ht as -> <-. exists l. split_and!; [apply interior_route| |by right].
    right. simpl. rewrite length_app. simpl. lia.
Qed.

Section Selling.
Context `{UO : Uint256Ops}.
Context (ctx : nat -> option error) (st : sellingGraphSearchState) (maxPathLength dest : Z).

(** What a reported path of the selling search stands for: [route] leads from
    the destination back to the source. *)
Definition selling_path (p : Path) : Prop :=
  exists l a, route (sellingSearch st) dest (destinationAssetAmount st) (l ++ [a]) (SourceAmount p) /\
    NoDup (l ++ [a]) /\ Z.of_nat (length (InteriorNodes p)) <= Z.max 0 (maxPathLength - 1) /\
    selling_includePath st a (SourceAmount p) = true /\
    index (idToAssetString (s_graph st)) a = Ok (SourceAsset p) /\
    Forall2 (fun id s => index (idToAssetString (s_graph st)) id = Ok s)
      (reverse (interior (l ++ [a]))) (InteriorNodes p) /\
    DestinationAsset p = destinationAssetString st /\ DestinationAmount p = destinationAssetAmount st.

Lemma selling_append_path ps l a amt ps' :
  route (sellingSearch st) dest (destinationAssetAmount st) (l ++ [a]) amt ->
  selling_includePath st a amt = true ->
  Z.of_nat (length (l ++ [a])) <= Z.max 0 maxPathLength + 1 ->
  selling_appendToPaths st ps (l ++ [a]) a amt = Ok ps' ->
  exists p, ps' = ps ++ [p] /\ selling_path p.
Proof.
  intros Hr Hinc Hlen. unfold selling_appendToPaths.
  destruct (interior_of _ _ _ _ _ _ Hr) as (t & Ht & Hl & _).
  assert (Hif : (if Nat.ltb 2 (length (l ++ [a])) then reversePath (interior (l ++ [a])) else []) =
    reverse (interior (l ++ [a]))).
  { destruct (Nat.ltb_spec 2 (length (l ++ [a]))); [apply reversePath_reverse|].
    rewrite Ht. destruct t; [done|]. simpl in Hl. rewrite length_app in *. simpl in *.
    destruct l as [|? [|]]; simpl in *; try lia. unfold interior in Ht. done. }
  rewrite Hif. intros (src & Hsrc & H)%bind_Ok. apply bind_Ok in H as (nodes & Hn & [= <-]).
  apply assetIDs_names in Hn as (names & -> & Hn). rewrite app_nil_l.
  eexists. split; [done|]. exists l, a. cbn [SourceAmount InteriorNodes SourceAsset DestinationAsset DestinationAmount].
  split_and!; try done; [by eapply route_NoDup|].
  apply Forall2_length in Hn. rewrite length_reverse, Ht in Hn. rewrite <- Hn.
  destruct Hl as [Hl|Hl]; [|lia]. destruct l; [|simpl in Hl; rewrite length_app in Hl; simpl in Hl; lia].
  unfold interior in Ht. simpl in Ht. subst t. simpl. lia.
Qed.

Lemma selling_emitted ps :
  emitted (sellingSearch st) maxPathLength dest (destinationAssetAmount st) [] ps -> Forall selling_path ps.
Proof.
  induction 1 as [|ps l a amt ps' _ IH Hr Hinc Hlen Happ]; [constructor|].
  destruct (selling_append_path ps l a amt ps' Hr Hinc Hlen Happ) as (p & -> & Hp).
  apply Forall_app. split; [done|]. by constructor.
Qed.

End Selling.

Section Buying.
Context `{UO : Uint256Ops}.
Context (ctx : nat -> option error) (st : buyingGraphSearchState) (maxPathLength src : Z).

(** What a reported path of the buying search stands for. *)
Definition buying_path (p : Path) : Prop :=
  exists l a, route (buyingSearch st) src (b_sourceAssetAmount st) (l ++ [a]) (DestinationAmount p) /\
    NoDup (l ++ [a]) /\ Z.of_nat (length (InteriorNodes p)) <= Z.max 0 (maxPathLength - 1) /\
    a ∈ b_targetAssets st /\
    index (idToAssetString (b_graph st)) a = Ok (DestinationAsset p) /\
    Forall2 (fun id s => index (idToAssetString (b_graph st)) id = Ok s)
      (interior (l ++ [a])) (InteriorNodes p) /\
    SourceAsset p = sourceAssetString st /\ SourceAmount p = b_sourceAssetAmount st.

Lemma buying_append_path ps l a amt ps' :
  route (buyingSearch st) src (b_sourceAssetAmount st) (l ++ [a]) amt ->
  a ∈ b_targetAssets st ->
  Z.of_nat (length (l ++ [a])) <= Z.max 0 maxPathLength + 1 ->
  buying_appendToPaths st ps (l ++ [a]) a amt = Ok ps' ->
  exists p, ps' = ps ++ [p] /\ buying_path p.
Proof.
  intros Hr Hinc Hlen. unfold buying_appendToPaths.
  destruct (interior_of _ _ _ _ _ _ Hr) as (t & Ht & Hl & _).
  intros (nodes & Hn & H)%bind_Ok. apply bind_Ok in H as (dst & Hdst & [= <-]).
  apply assetIDs_names in Hn as (names & -> & Hn). rewrite app_nil_l.
  eexists. split; [done|]. exists l, a. cbn [SourceAmount InteriorNodes SourceAsset DestinationAsset DestinationAmount].
  split_and!; try done; [by eapply route_NoDup|].
  apply Forall2_length in Hn. rewrite Ht in Hn. rewrite <- Hn.
  destruct Hl as [Hl|Hl]; [|lia]. destruct l; [|simpl in Hl; rewrite length_app in Hl; simpl in Hl; lia].
  unfold interior in Ht. simpl in Ht. subst t. simpl. lia.
Qed.

Lemma buying_emitted ps :
  emitted (buyingSearch st) maxPathLength src (b_sourceAssetAmount st) [] ps -> Forall buying_path ps.
Proof.
  induction 1 as [|ps l a amt ps' _ IH Hr Hinc Hlen Happ]; [constructor|].
  apply bool_decide_eq_true in Hinc.
  destruct (buying_append_path ps l a amt ps' Hr Hinc Hlen Happ) as (p & -> & Hp).
  apply Forall_app. split; [done|]. by constructor.
Qed.

End Buying.

(** ** Sorting and filtering *)

Definition strict_weak (less : Path -> Path -> bool) : Prop :=
  (forall x y, less x y = true -> less y x = false) /\
  (forall x y z, less x z = true -> less x y = true \/ less y z = true).

(** The documented behaviour of sort.Sort: the elements are permuted so that
    none is less than one before it. *)
Record sort_laws (sortSort : (Path -> Path -> bool) -> list Path -> list Path) : Prop := {
  sort_perm less l : sortSort less l ≡ₚ l;
  sort_sorted less l i j x y : strict_weak less -> (i < j)%nat ->
    sortSort less l !! i = Some x -> sortSort less l !! j = Some y -> less y x = false
}.

(** Lexicographic comparison by asset name, amount and number of hops. *)
Definition lex (k : Path -> string) (amt : Path -> Z) (p q : Path) : bool :=
  if String.eqb (k p) (k q) then
    if amt p =? amt q then Nat.ltb (length (InteriorNodes p)) (length (InteriorNodes q))
    else amt p <? amt q
  else string_lt (k p) (k q).

Lemma string_lt_total a b : string_lt a b = false -> string_lt b a = false -> a = b.
Proof.
  unfold string_lt. intros H1 H2. pose proof (GoString.bytes_lt_total _ _ H1 H2) as E.
  rewrite <- (string_of_bytes_of a), <- (string_of_bytes_of b). by f_equal.
Qed.

Lemma string_lt_trans a b c : string_lt a b = true -> string_lt b c = true -> string_lt a c = true.
Proof. apply GoString.bytes_lt_trans. Qed.

Lemma string_lt_irrefl a : string_lt a a = false.
Proof. apply GoString.bytes_lt_irrefl. Qed.

Lemma lex_strict_weak k amt : strict_weak (lex k amt).
Proof.
  split; unfold lex.
  - intros x y. rewrite (String.eqb_sym (k y)), (Z.eqb_sym (amt y)). destruct (String.eqb_spec (k x) (k y)).
    + destruct (Z.eqb_spec (amt x) (amt y)); [rewrite Nat.ltb_lt, Nat.ltb_ge; lia|lia].
    + intros H. destruct (string_lt (k y) (k x)) eqn:E; [|done].
      pose proof (string_lt_trans _ _ _ H E) as Hc. by rewrite string_lt_irrefl in Hc.
  - intros x y z. destruct (String.eqb_spec (k x) (k z)) as [Exz|Exz].
    + destruct (String.eqb_spec (k x) (k y)) as [Exy|Exy], (String.eqb_spec (k y) (k z)) as [Eyz|Eyz]; try congruence.
      * destruct (Z.eqb_spec (amt x) (amt z)), (Z.eqb_spec (amt x) (amt y)), (Z.eqb_spec (amt y) (amt z));
          rewrite ?Nat.ltb_lt, ?Z.ltb_lt; try lia.
      * intros _. destruct (string_lt (k x) (k y)) eqn:E1; [by left|right].
        destruct (string_lt (k y) (k z)) eqn:E2; [done|]. rewrite <- Exz in E2.
        by pose proof (string_lt_total _ _ E1 E2).
    + intros H. destruct (String.eqb_spec (k x) (k y)) as [Exy|Exy];
        [right; destruct (String.eqb_spec (k y) (k z)); congruence|].
      destruct (String.eqb_spec (k y) (k z)) as [Eyz|Eyz]; [left; congruence|].
      destruct (string_lt (k x) (k y)) eqn:E1; [by left|right].
      destruct (string_lt (k y) (k x)) eqn:E2; [by eapply string_lt_trans|].
      by pose proof (string_lt_total _ _ E1 E2).
Qed.

Lemma compareSource_lex p q : compareSourceAsset p q = lex SourceAsset SourceAmount p q.
Proof. done. Qed.

Lemma compareDestination_lex p q :
  compareDestinationAsset p q = lex DestinationAsset (fun p => - DestinationAmount p) p q.
Proof.
  unfold compareDestinationAsset, lex. destruct (String.eqb _ _); [|done].
  destruct (Z.eqb_spec (DestinationAmount p) (DestinationAmount q)),
    (Z.eqb_spec (- DestinationAmount p) (- DestinationAmount q)); try lia; done.
Qed.

Lemma strict_weak_ext f g : (forall p q, f p q = g p q) -> strict_weak g -> strict_weak f.
Proof. intros H [H1 H2]. split; intros *; rewrite !H; auto. Qed.

Lemma compareSource_weak : strict_weak compareSourceAsset.
Proof. apply (strict_weak_ext _ _ compareSource_lex), lex_strict_weak. Qed.

Lemma compareDestination_weak : strict_weak compareDestinationAsset.
Proof. apply (strict_weak_ext _ _ compareDestination_lex), lex_strict_weak. Qed.

(** Paths with the same key are adjacent. *)
Definition grouped (k : Path -> string) (l : list Path) : Prop :=
  forall i j m x y z, (i < j < m)%nat -> l !! i = Some x -> l !! j = Some y -> l !! m = Some z ->
    k x = k z -> k y = k x.

Definition ordered_by (less : Path -> Path -> bool) (l : list Path) : Prop :=
  forall i j x y, (i < j)%nat -> l !! i = Some x -> l !! j = Some y -> less y x = false.

Lemma ordered_grouped k amt less l : (forall p q, less p q = lex k amt p q) ->
  ordered_by less l -> grouped k l.
Proof.
  intros Hl Ho i j m x y z [H1 H2] Hx Hy Hz Hk.
  pose proof (Ho i j x y H1 Hx Hy) as A. pose proof (Ho j m y z H2 Hy Hz) as B.
  rewrite Hl in A, B. unfold lex in A, B.
  destruct (String.eqb_spec (k y) (k x)) as [|N]; [done|].
  rewrite <- Hk in B. destruct (String.eqb_spec (k x) (k y)); [congruence|].
  by apply string_lt_total.
Qed.

Lemma grouped_tail k x l : grouped k (x :: l) -> grouped k l.
Proof. intros H i j m a b c Hij Ha Hb Hc. apply (H (S i) (S j) (S m) a b c); [lia|done..]. Qed.

Lemma grouped_drop k x y l : grouped k (x :: y :: l) -> grouped k (x :: l).
Proof.
  intros H i j m a b c Hij Ha Hb Hc.
  destruct i as [|i], j as [|j], m as [|m]; try lia.
  - apply (H 0%nat (S (S j)) (S (S m)) a b c); [lia|done..].
  - apply (H (S (S i)) (S (S j)) (S (S m)) a b c); [lia|done..].
Qed.

Definition count (k : Path -> string) (s : string) (l : list Path) : Z :=
  Z.of_nat (length (List.filter (fun p => String.eqb (k p) s) l)).

Lemma count_cons k s p l : count k s (p :: l) = (if String.eqb (k p) s then 1 else 0) + count k s l.
Proof. unfold count. simpl. destruct (String.eqb (k p) s); simpl length; lia. Qed.

Lemma count_zero k s l : (forall p, p ∈ l -> k p <> s) -> count k s l = 0.
Proof.
  induction l as [|p l IH]; intros H; [done|]. rewrite count_cons, IH.
  - destruct (String.eqb_spec (k p) s) as [E|]; [|done]. exfalso. apply (H p); [left|done].
  - intros q Hq. apply H. by right.
Qed.

Section Filter.
Context (k : Path -> string) (maxp : Z).
Let eqk (p q : Path) : bool := String.eqb (k p) (k q).

Lemma filter_loop_sublist l : forall prev cnt, filter_loop eqk maxp prev cnt l `sublist_of` l.
Proof.
  induction l as [|x l IH]; intros prev cnt; simpl; [done|].
  destruct (match prev with None => true | Some q => negb (eqk q x) end); [by constructor|].
  destruct (cnt <? maxp); by constructor.
Qed.

Lemma filter_loop_elem l prev cnt p : p ∈ filter_loop eqk maxp prev cnt l -> p ∈ l.
Proof. intros H. eapply elem_of_sublist; [exact H|apply filter_loop_sublist]. Qed.

(** After a kept path of key [k q], at most [maxp - cnt] more of its key and at
    most [max 1 maxp] of any other key are kept. *)
Lemma filter_loop_count l : forall q cnt s, grouped k (q :: l) -> 0 <= cnt ->
  count k s (filter_loop eqk maxp (Some q) cnt l) <=
  if String.eqb (k q) s then Z.max 0 (maxp - cnt) else Z.max 1 maxp.
Proof.
  induction l as [|x l IH]; intros q cnt s Hg Hc; simpl.
  { change (count k s []) with 0. case_match; lia. }
  unfold eqk at 1. destruct (String.eqb_spec (k q) (k x)) as [Eqx|Nqx]; cbn [negb].
  - destruct (Z.ltb_spec cnt maxp).
    + rewrite count_cons. specialize (IH x (cnt + 1) s (grouped_tail _ _ _ Hg) ltac:(lia)).
      rewrite <- Eqx in IH |- *. destruct (String.eqb (k q) s); lia.
    + apply (IH q cnt s); [by eapply grouped_drop|done].
  - rewrite count_cons. specialize (IH x 1 s (grouped_tail _ _ _ Hg) ltac:(lia)).
    destruct (String.eqb_spec (k q) s) as [<-|]; [|destruct (String.eqb (k x) s); lia].
    rewrite (proj2 (String.eqb_neq (k x) (k q))) by congruence.
    rewrite count_zero; [lia|]. intros p Hp E0. apply filter_loop_elem in Hp.
    apply list_elem_of_lookup_1 in Hp as [m Hm]. apply Nqx. symmetry.
    apply (Hg 0%nat 1%nat (S (S m)) q x p); [lia|done..].
Qed.

Lemma filter_paths_count l s : grouped k l ->
  count k s (filter_loop eqk maxp None 0 l) <= Z.max 1 maxp.
Proof.
  destruct l as [|x l]; intros Hg; simpl; [change (count k s []) with 0; lia|].
  rewrite count_cons. pose proof (filter_loop_count l x 1 s Hg ltac:(lia)).
  destruct (String.eqb (k x) s); lia.
Qed.

(** The first path of every key is kept. *)
Lemma filter_loop_first l : forall prev cnt i x, l !! i = Some x ->
  (match prev with Some q => k q <> k x | None => True end) ->
  exists j y, (j <= i)%nat /\ l !! j = Some y /\ k y = k x /\ y ∈ filter_loop eqk maxp prev cnt l.
Proof.
  induction l as [|z l IH]; intros prev cnt i x Hx Hp; [done|]. cbn [filter_loop].
  assert (Hkeep : forall c, (match prev with None => true | Some q => negb (eqk q z) end) = true \/ k z <> k x ->
    exists j y, (j <= i)%nat /\ (z :: l) !! j = Some y /\ k y = k x /\ y ∈ z :: filter_loop eqk maxp (Some z) c l).
  { intros c Hz. destruct (decide (k z = k x)) as [Ez|Nz].
    - exists 0%nat, z. split_and!; [lia|done|done|left].
    - destruct i as [|i]; [simpl in Hx; congruence|].
      destruct (IH (Some z) c i x Hx Nz) as (j & y & H1 & H2 & H3 & H4).
      exists (S j), y. split_and!; [lia|done|done|by right]. }
  destruct (match prev with None => true | Some q => negb (eqk q z) end) eqn:Ez; [apply Hkeep; by left|].
  destruct prev as [q|]; [|done]. apply negb_false_iff, String.eqb_eq in Ez.
  assert (Nz : k z <> k x) by congruence.
  destruct (cnt <? maxp); [apply Hkeep; by right|].
  destruct i as [|i]; [simpl in Hx; congruence|].
  destruct (IH (Some q) cnt i x Hx Hp) as (j & y & H1 & H2 & H3 & H4).
  exists (S j), y. split_and!; [lia|done..].
Qed.

End Filter.

Section SortFilter.
Context (sortSort : (Path -> Path -> bool) -> list Path -> list Path).
Context (sortSort_ok : sort_laws sortSort).

(** What [sortAndFilterPaths] promises for one of its two orders. *)
Definition best_paths (k : Path -> string) (less : Path -> Path -> bool) (maxp : Z) (all out : list Path) : Prop :=
  (forall p, p ∈ out -> p ∈ all) /\ ordered_by less out /\
  (forall s, count k s out <= Z.max 1 maxp) /\
  (forall p, p ∈ all -> exists q, q ∈ out /\ k q = k p /\ less p q = false).

Lemma ordered_cons less x l :
  ordered_by less (x :: l) <-> (forall y, y ∈ l -> less y x = false) /\ ordered_by less l.
Proof.
  split.
  - intros H. split.
    + intros y [j Hj]%list_elem_of_lookup_1. apply (H 0%nat (S j) x y); [lia|done..].
    + intros i j a b Hij Ha Hb. apply (H (S i) (S j) a b); [lia|done..].
  - intros [H1 H2] [|i] [|j] a b Hij Ha Hb; try lia; simpl in *.
    + injection Ha as <-. apply H1. by eapply list_elem_of_lookup_2.
    + apply (H2 i j a b); [lia|done..].
Qed.

Lemma sublist_ordered less l l' : l `sublist_of` l' -> ordered_by less l' -> ordered_by less l.
Proof.
  induction 1 as [|x l l' Hs IH|x l l' Hs IH]; rewrite ?ordered_cons; [done| |naive_solver].
  intros [H1 H2]. split; [|auto]. intros y Hy. apply H1. by eapply elem_of_sublist.
Qed.

Lemma best_paths_filter k amt less maxp all :
  (forall p q, less p q = lex k amt p q) -> strict_weak less ->
  best_paths k less maxp all
    (filter_loop (fun p q => String.eqb (k p) (k q)) maxp None 0 (sortSort less all)).
Proof.
  intros Hlex Hw.
  assert (Ho : ordered_by less (sortSort less all))
    by (intros i j x y Hij Hx Hy; by eapply (sort_sorted _ sortSort_ok)).
  pose proof (sort_perm _ sortSort_ok less all) as Hp. split_and!.
  - intros p Hin. apply filter_loop_elem in Hin. by rewrite Hp in Hin.
  - eapply sublist_ordered; [apply filter_loop_sublist|done].
  - intros s. apply filter_paths_count. by eapply ordered_grouped.
  - intros p Hin. rewrite <- Hp in Hin. apply list_elem_of_lookup_1 in Hin as [i Hi].
    destruct (filter_loop_first k maxp _ None 0 i p Hi I) as (j & q & Hj & Hq & Hk & Hout).
    exists q. split_and!; [done|done|].
    destruct (decide (j = i)) as [->|]; [|apply (Ho j i q p); [lia|done..]].
    assert (q = p) as -> by congruence. destruct (less p p) eqn:E; [|done].
    by rewrite (proj1 Hw p p E) in E.
Qed.

(** Sorting and filtering: whatever sorted permutation sort.Sort returns,
    the result holds only paths found, is ordered by asset, then by amount
    (cheapest source first, or largest destination first), then by number of
    hops, has at most max(1, maxPathsPerAsset) paths per asset, and keeps for
    every asset a path that none of the found ones beats; any other sort type
    is an error. *)
Theorem sortAndFilterPaths_spec (all : list Path) (maxp : Z) :
  (exists out, sortAndFilterPaths sortSort all maxp sortBySourceAsset = Ok out /\
     best_paths SourceAsset compareSourceAsset maxp all out) /\
  (exists out, sortAndFilterPaths sortSort all maxp sortByDestinationAsset = Ok out /\
     best_paths DestinationAsset compareDestinationAsset maxp all out) /\
  (forall t, t <> sortBySourceAsset -> t <> sortByDestinationAsset ->
     sortAndFilterPaths sortSort all maxp t = Err "invalid sort by type").
Proof.
  split_and!.
  - eexists. split; [done|].
    apply (best_paths_filter _ _ _ _ _ compareSource_lex compareSource_weak).
  - eexists. split; [done|].
    apply (best_paths_filter _ _ _ _ _ compareDestination_lex compareDestination_weak).
  - intros t H1 H2. unfold sortAndFilterPaths.
    by rewrite (proj2 (String.eqb_neq _ _) H1), (proj2 (String.eqb_neq _ _) H2).
Qed.

End SortFilter.

(** ** A sorting function with the documented behaviour: insertion sort *)

Fixpoint insert_path (less : Path -> Path -> bool) (x : Path) (l : list Path) : list Path :=
  match l with
  | [] => [x]
  | y :: l' => if less x y then x :: l else y :: insert_path less x l'
  end.

Definition insertion_sort (less : Path -> Path -> bool) (l : list Path) : list Path :=
  foldr (insert_path less) [] l.

Lemma insert_path_perm less x l : insert_path less x l ≡ₚ x :: l.
Proof.
  induction l as [|y l IH]; simpl; [done|]. destruct (less x y); [done|].
  rewrite IH. apply Permutation_swap.
Qed.

Lemma insert_path_ordered less x l : strict_weak less -> ordered_by less l ->
  ordered_by less (insert_path less x l).
Proof.
  intros [Hasym Htri]. induction l as [|y l IH]; intros Ho; simpl.
  { apply ordered_cons. split; [intros z Hz; by apply elem_of_nil in Hz|intros i j a b _ Ha; done]. }
  apply ordered_cons in Ho as [Hy Ho]. destruct (less x y) eqn:E.
  - apply ordered_cons. split; [|by apply ordered_cons].
    intros z Hz. apply elem_of_cons in Hz as [->|Hz]; [by apply Hasym|].
    destruct (less z x) eqn:Ez; [|done]. destruct (Htri z y x Ez) as [H|H].
    + by rewrite (Hy z Hz) in H.
    + by rewrite (Hasym x y E) in H.
  - apply ordered_cons. split; [|by apply IH]. intros z Hz. rewrite insert_path_perm in Hz.
    apply elem_of_cons in Hz as [->|Hz]; auto.
Qed.

Lemma insertion_sort_laws : sort_laws insertion_sort.
Proof.
  split.
  - intros less l. induction l as [|x l IH]; simpl; [done|]. by rewrite insert_path_perm, IH.
  - intros less l i j x y Hw. revert i j x y. induction l as [|z l IH]; simpl; [done|].
    by apply insert_path_ordered.
Qed.

Lemma sortAndFilterPaths_spec_witness :
  let p a n := mkPath a n "d" 1 [] in
  exists out, sortAndFilterPaths insertion_sort [p "b" 2; p "a" 7; p "b" 1; p "b" 3] 2 sortBySourceAsset = Ok out /\
    best_paths SourceAsset compareSourceAsset 2 [p "b" 2; p "a" 7; p "b" 1; p "b" 3] out /\
    out = [p "a" 7; p "b" 1; p "b" 2].
Proof.
  destruct (proj1 (sortAndFilterPaths_spec insertion_sort insertion_sort_laws
    [mkPath "b" 2 "d" 1 []; mkPath "a" 7 "d" 1 []; mkPath "b" 1 "d" 1 []; mkPath "b" 3 "d" 1 []] 2))
    as (out & H1 & H2).
  exists out. split; [exact H1|]. split; [exact H2|]. vm_compute in H1. injection H1 as <-. reflexivity.
Defined.

End SearchProofs.
