(* ===== verification/PathFinding.v ===== *)
(** * Path finding over a valid order book

    Totality of the search (it terminates without error or panic on a graph
    that represents a book of valid entries) and what the exported queries FindPaths
    and FindFixedPaths of exp/orderbook/graph.go do with the paths found;
    [PathPrices] has their properties. *)
From S2P Require Import Prelude Price Xdr Pools Edges Graph GraphRefine Search Consume SearchProofs.

Module PathFinding.
Import Pools Edges Graph GraphRefine Search Consume SearchProofs.

Definition amount64 (z : Z) : Prop := 0 < z < 2 ^ 63.

Lemma Forall_last_app {A} (Q : A -> Prop) l x : Forall Q (l ++ [x]) -> Q x.
Proof. intros H. apply Forall_app in H as [_ H]. by inversion H. Qed.

Lemma nonempty_elem {A} (l : list A) : l <> [] -> exists x, x ∈ l.
Proof. destruct l as [|x l]; [done|]. intros _. exists x. left. Qed.

(** ** Totality of the generic search *)

Section Totality.
Context (state : searchState).
Context (maxPathLength source sourceAmount : Z).
Context (n : nat).

Definition id_ok (a : Z) : Prop := 0 <= a < Z.of_nat n.

(** What the search needs from its state: every edge of every asset can be
    traded at every amount, and paths over known ids can be reported. *)
Record searchable : Prop := {
  sb_total : totalAssets state = Z.of_nat n;
  sb_venues a : id_ok a -> exists es, venues state a = Ok es /\ forall x, x ∈ es -> id_ok (key x) /\
    forall amt, amount64 amt -> exists r, processVenues state a amt (value x) = Ok (r, None) /\ r < 2 ^ 63;
  sb_append ps path a amt : Forall id_ok path -> id_ok a ->
    exists ps', appendToPaths state ps path a amt = Ok ps'
}.

Hypothesis Hsb : searchable.
Hypothesis Hsource : id_ok source.
Hypothesis Hamount : amount64 sourceAmount.

Lemma route_ok l amt : route state source sourceAmount l amt -> Forall id_ok l /\ amount64 amt.
Proof.
  induction 1 as [|l cur amt es x amt' _ [IH1 IH2] _ Hes Hx _ Hpv Hpos]; [split; [by apply Forall_singleton|done]|].
  assert (Hcur : id_ok cur) by (by eapply Forall_last_app).
  destruct (sb_venues Hsb cur Hcur) as (es' & Hes' & Hall). assert (es' = es) as -> by congruence.
  destruct (Hall x Hx) as [Hk Hp]. destruct (Hp amt IH2) as (r & Hr & Hlt).
  assert (r = amt') as -> by congruence. split; [|by split].
  apply Forall_app. split; [done|]. by apply Forall_singleton.
Qed.

(** All four tables have an entry per asset. *)
Definition sized (v : searchVars) : Prop :=
  length (bestAmount v) = n /\ length (updateAmount v) = n /\
  length (bestPath v) = n /\ length (updatePath v) = n.

Lemma index_ok {A} (l : list A) a : length l = n -> id_ok a -> exists x, index l a = Ok x.
Proof.
  intros Hl Ha. unfold index. destruct (Z.ltb_spec a 0); [unfold id_ok in Ha; lia|].
  destruct (lookup_lt_is_Some_2 l (Z.to_nat a)) as [x ->]; [unfold id_ok in Ha; lia|eauto].
Qed.

Lemma assign_ok {A} (l : list A) a x : length l = n -> id_ok a ->
  exists l', assign l a x = Ok l' /\ length l' = n.
Proof.
  intros Hl Ha. rewrite assign_Ok by (unfold id_ok in Ha; lia). eexists. split; [done|].
  by rewrite length_insert.
Qed.

Lemma improve_total ps0 base len v path l a amt :
  inv state maxPathLength source sourceAmount ps0 base len v -> sized v ->
  (path < base)%nat -> denotes (heap v) (Some path) (reverse l) ->
  route state source sourceAmount (l ++ [a]) amt -> id_ok a ->
  exists v', improve state v (Some path) a amt = Ok v' /\ sized v'.
Proof.
  intros HI (L1 & L2 & L3 & L4) Hpath Hden Hroute Ha. unfold improve.
  destruct (index_ok (updateAmount v) a L2 Ha) as [u Hu]. rewrite Hu, bind_Ok_l.
  destruct (index_ok (bestAmount v) a L1 Ha) as [b Hb]. rewrite Hb, bind_Ok_l.
  destruct (assign_ok (updateAmount v) a amt L2 Ha) as (ua & Hua & Lua). rewrite Hua, bind_Ok_l.
  assert (Hstep : forall r : res searchVars, (exists v1, r = Ok v1 /\ sized v1 /\ acyclic (heap v1) /\
      denotes (heap v1) (Some path) (reverse l)) ->
    exists v', (r ≫= fun v => if includePath state a amt then
      ps ← appendToPaths state (found v) (node_path (heap v) (Some path) ++ [a]) a amt;
      Ok (mkVars (bestAmount v) (updateAmount v) (bestPath v) (updatePath v) (updatedAssets v)
            (heap v) ps (checks v)) else Ok v) = Ok v' /\ sized v').
  { intros r (v1 & -> & (S1 & S2 & S3 & S4) & Hac & Hd). rewrite bind_Ok_l.
    destruct (includePath state a amt); [|by exists v1].
    unfold node_path. rewrite (denotes_full _ _ _ Hac Hd), reversePath_reverse, reverse_involutive.
    destruct (sb_append Hsb (found v1) (l ++ [a]) a amt (proj1 (route_ok _ _ Hroute)) Ha) as [ps Hps].
    rewrite Hps, bind_Ok_l. eexists. split; [done|]. by split_and!. }
  apply Hstep. destruct HI. destruct (Z.eqb_spec u b) as [->|Hub].
  - destruct (assign_ok (updatePath v) a (Some (length (heap v))) L4 Ha) as (up & Hup & Lup).
    rewrite Hup, bind_Ok_l. eexists. split; [done|]. split; [by split_and!|]. simpl.
    split; [apply acyclic_app; [done|simpl; lia]|by apply denotes_app].
  - apply index_slot in Hu, Hb. pose proof (i_fresh0 a u b Hu Hb Hub) as Hin.
    destruct (i_pending0 a Hin) as (w & p & _ & H2 & (Hbp & q & l' & Hn & _)).
    apply index_slot in H2. rewrite H2, bind_Ok_l. cbn [from_opt]. rewrite bind_Ok_l, Hn. cbn [from_opt].
    rewrite bind_Ok_l. eexists. split; [done|]. split; [by split_and!|]. simpl.
    split; [apply acyclic_update; [done|simpl; lia]|apply denotes_update; [done|lia|done]].
Qed.

Definition no_cancel (k : nat) : option error := None.

Lemma visit_edge_total last ps0 base len v cur amt path l es x :
  inv state maxPathLength source sourceAmount ps0 base len v -> sized v ->
  (path < base)%nat -> denotes (heap v) (Some path) (reverse (l ++ [cur])) ->
  route state source sourceAmount (l ++ [cur]) amt -> venues state cur = Ok es -> x ∈ es ->
  exists v', visit_edge no_cancel state last cur amt (Some path) v x = Ok v' /\ sized v'.
Proof.
  intros HI Hsz Hpath Hden Hroute Hes Hx. unfold visit_edge. cbn [no_cancel]. cbv zeta.
  destruct (route_ok _ _ Hroute) as [Hids Hamt].
  assert (Hcur : id_ok cur) by (by eapply Forall_last_app).
  destruct (sb_venues Hsb cur Hcur) as (es' & Hes' & Hall). assert (es' = es) as -> by congruence.
  destruct (Hall x Hx) as [Hk Hp]. destruct (Hp amt Hamt) as (r & Hr & Hlt).
  destruct (last && _); [by exists (tick v)|].
  destruct (contains _ _ _) eqn:Ec; [by exists (tick v)|].
  rewrite Hr, bind_Ok_l. destruct (Z.leb_spec r 0); [by exists (tick v)|].
  destruct (index_ok (updateAmount (tick v)) (key x) (proj1 (proj2 Hsz)) Hk) as [u Hu]. rewrite Hu, bind_Ok_l.
  destruct (betterPathAmount state u r); [|by exists (tick v)].
  apply inv_tick in HI. apply (improve_total ps0 base len (tick v) path (l ++ [cur])); try done.
  eapply route_step; try done; [unfold amount64 in Hamt; lia|].
  intros Hin. rewrite <- not_true_iff_false in Ec. apply Ec.
  apply (contains_elem _ _ _ _ (i_acyclic _ _ _ _ _ _ _ _ HI) Hden). by rewrite elem_of_reverse.
Qed.

Lemma visit_edges_total last ps0 base len cur amt path l es xs : forall v,
  inv state maxPathLength source sourceAmount ps0 base len v -> sized v ->
  Z.of_nat (S len) <= Z.max 0 maxPathLength + 1 ->
  (path < base)%nat -> denotes (heap v) (Some path) (reverse (l ++ [cur])) ->
  route state source sourceAmount (l ++ [cur]) amt -> (length (l ++ [cur]) <= len)%nat ->
  venues state cur = Ok es -> (forall x, x ∈ xs -> x ∈ es) ->
  exists v', res_fold (visit_edge no_cancel state last cur amt (Some path)) v xs = Ok v' /\ sized v'.
Proof.
  induction xs as [|x xs IH]; intros v HI Hsz Hmax Hpath Hden Hroute Hlen Hes Hxs; cbn [res_fold];
    [by exists v|].
  assert (Hx : x ∈ es) by (apply Hxs; left).
  destruct (visit_edge_total last ps0 base len v cur amt path l es x HI Hsz Hpath Hden Hroute Hes Hx)
    as (v1 & H1 & Hsz1). rewrite H1, bind_Ok_l.
  destruct (route_ok _ _ Hroute) as [_ Hamt].
  destruct (visit_edge_inv no_cancel state maxPathLength source sourceAmount last ps0 base len v cur amt path l es x v1)
    as [HI1 F1]; try done; [unfold amount64 in Hamt; lia|].
  apply IH; try done; [by apply F1|]. intros y Hy. apply Hxs. by right.
Qed.

Lemma visit_assets_total last ps0 base len cs : forall v,
  inv state maxPathLength source sourceAmount ps0 base len v -> sized v ->
  Z.of_nat (S len) <= Z.max 0 maxPathLength + 1 -> Forall id_ok cs ->
  exists v', res_fold (visit_asset no_cancel state last) v cs = Ok v' /\ sized v'.
Proof.
  induction cs as [|c cs IH]; intros v HI Hsz Hmax Hcs; cbn [res_fold]; [by exists v|].
  apply Forall_cons in Hcs as [Hc Hcs].
  assert (Hone : exists v1, visit_asset no_cancel state last v c = Ok v1 /\ sized v1).
  { unfold visit_asset. destruct Hsz as (L1 & L2 & L3 & L4).
    destruct (index_ok (bestAmount v) c L1 Hc) as [amt Ha]. rewrite Ha, bind_Ok_l. apply index_slot in Ha.
    destruct (Z.eqb_spec amt 0); [by exists v|].
    destruct (i_best _ _ _ _ _ _ _ _ HI c amt Ha) as (p & Hp & Hb & l & Hd & Hr & Hl); [done|].
    apply index_slot in Hp. rewrite Hp, bind_Ok_l.
    destruct (sb_venues Hsb c Hc) as (es & Hes & _). rewrite Hes, bind_Ok_l.
    by eapply (visit_edges_total last ps0 base len c amt p l es es v). }
  destruct Hone as (v1 & H1 & Hsz1). rewrite H1, bind_Ok_l. apply IH; try done.
  apply (visit_assets_inv no_cancel state maxPathLength source sourceAmount last ps0 base len [c] v v1 HI Hmax).
  cbn [res_fold]. by rewrite H1.
Qed.

Lemma commit_assets_total todo : forall v, sized v -> Forall id_ok todo ->
  exists v', res_fold commit_asset v todo = Ok v' /\ sized v'.
Proof.
  induction todo as [|c todo IH]; intros v (L1 & L2 & L3 & L4) Hcs; cbn [res_fold]; [by exists v|].
  apply Forall_cons in Hcs as [Hc Hcs].
  assert (Hone : exists v1, commit_asset v c = Ok v1 /\ sized v1).
  { unfold commit_asset.
    destruct (index_ok (updatePath v) c L4 Hc) as [p ->]. rewrite bind_Ok_l.
    destruct (assign_ok (bestPath v) c p L3 Hc) as (bp & -> & Lbp). rewrite bind_Ok_l.
    destruct (index_ok (updateAmount v) c L2 Hc) as [u ->]. rewrite bind_Ok_l.
    destruct (assign_ok (bestAmount v) c u L1 Hc) as (ba & -> & Lba). rewrite bind_Ok_l.
    eexists. split; [done|]. by split_and!. }
  destruct Hone as (v1 & -> & Hsz1). rewrite bind_Ok_l. by apply IH.
Qed.

Lemma seqZ_id_ok : Forall id_ok (seqZ 0 (totalAssets state)).
Proof. rewrite (sb_total Hsb). apply Forall_seqZ. intros z. unfold id_ok. lia. Qed.

(** The assets updated in a round have an entry in the tables. *)
Lemma updated_ids ps0 base len v : inv state maxPathLength source sourceAmount ps0 base len v ->
  sized v -> Forall id_ok (updatedAssets v).
Proof.
  intros HI (_ & L2 & _). apply Forall_forall. intros a Ha.
  destruct (i_pending _ _ _ _ _ _ _ _ HI a Ha) as (amt & p & Hs & _). unfold slot in Hs.
  destruct (Z.ltb_spec a 0); [done|]. apply lookup_lt_Some in Hs. unfold id_ok. lia.
Qed.

Definition clear_updated (v : searchVars) : searchVars :=
  mkVars (bestAmount v) (updateAmount v) (bestPath v) (updatePath v) [] (heap v) (found v) (checks v).

Lemma round_total ps0 len v i :
  inv state maxPathLength source sourceAmount ps0 (length (heap v)) len (clear_updated v) -> sized v ->
  Z.of_nat (S len) <= Z.max 0 maxPathLength + 1 ->
  exists v', round no_cancel state maxPathLength v i = Ok v' /\ sized v'.
Proof.
  intros HI Hsz Hmax. unfold round.
  destruct (visit_assets_total (i =? maxPathLength - 1) ps0 _ len (seqZ 0 (totalAssets state)) _ HI Hsz Hmax seqZ_id_ok)
    as (v1 & H1 & Hsz1). unfold clear_updated in H1. rewrite H1, bind_Ok_l.
  destruct (i <? maxPathLength - 1); [|by exists v1].
  apply commit_assets_total; [done|]. eapply updated_ids; [|done].
  eapply visit_assets_inv; [exact HI|done|exact H1].
Qed.

Lemma rounds_total ps0 (m : nat) : forall v i len,
  inv state maxPathLength source sourceAmount ps0 (length (heap v)) len (clear_updated v) -> sized v ->
  0 <= i -> Z.of_nat len = i + 1 -> i + Z.of_nat m = Z.max 0 maxPathLength ->
  exists v', res_fold (round no_cancel state maxPathLength) v (seqZ i (Z.of_nat m)) = Ok v'.
Proof.
  induction m as [|m IH]; intros v i len HI Hsz Hi Hlen Him.
  { rewrite seqZ_nil by lia. by exists v. }
  rewrite seqZ_cons by lia. cbn [res_fold].
  destruct (round_total ps0 len v i HI Hsz ltac:(lia)) as (v1 & H1 & Hsz1). rewrite H1, bind_Ok_l.
  destruct (round_inv no_cancel state maxPathLength source sourceAmount ps0 len v i v1 HI ltac:(lia) H1) as [_ Hnext].
  replace (Z.pred (Z.of_nat (S m))) with (Z.of_nat m) by lia.
  destruct m as [|m]; [rewrite seqZ_nil by lia; by exists v1|].
  apply (IH v1 (Z.succ i) (S len)); [apply Hnext; lia|done|lia..].
Qed.

(** With a context that is never cancelled the search returns its paths. *)
Lemma search_total ps0 : exists ps, search no_cancel state maxPathLength source sourceAmount ps0 = Ok ps.
Proof.
  unfold search. rewrite (sb_total Hsb). rewrite (proj2 (Z.ltb_ge (Z.of_nat n) 0)) by lia. cbv zeta.
  rewrite Nat2Z.id.
  destruct (assign_ok (replicate n 0) source sourceAmount (length_replicate _ _) Hsource) as (ba & Hba & Lba).
  destruct (assign_ok (replicate n None) source (Some 0%nat) (length_replicate _ _) Hsource) as (bp & Hbp & Lbp).
  rewrite Hba, bind_Ok_l, Hbp, bind_Ok_l.
  assert (Hps : exists ps1, (if includePath state source sourceAmount
    then appendToPaths state ps0 [source] source sourceAmount else Ok ps0) = Ok ps1 /\
    emitted state maxPathLength source sourceAmount ps0 ps1).
  { destruct (includePath state source sourceAmount) eqn:Ei; [|eexists; split; [done|constructor]].
    destruct (sb_append Hsb ps0 [source] source sourceAmount) as [ps1 H1]; [by apply Forall_singleton|done|].
    exists ps1. split; [done|].
    eapply (emitted_add state maxPathLength source sourceAmount ps0 ps0 [] source sourceAmount); try done;
      [constructor|constructor|simpl; lia]. }
  destruct Hps as (ps1 & -> & Hem). rewrite bind_Ok_l.
  pose proof (search_start_inv state maxPathLength source sourceAmount n ps0 ps1 ba bp Hba Hbp Hem) as HI.
  assert (Hseq : seqZ 0 maxPathLength = seqZ 0 (Z.of_nat (Z.to_nat maxPathLength))).
  { destruct (Z.leb_spec 0 maxPathLength); [by rewrite Z2Nat.id|]. by rewrite !seqZ_nil by lia. }
  rewrite Hseq.
  destruct (rounds_total ps0 (Z.to_nat maxPathLength)
    (mkVars ba ba bp (replicate n None) [] [mkNode source None] ps1 0) 0 1) as [v' ->];
    [exact HI|split_and!; [done..|apply length_replicate]|lia..|].
  rewrite bind_Ok_l. by eexists.
Qed.

End Totality.

(** ** Books of valid entries *)

(** Amounts, reserves and fees within the protocol's ranges. *)
Definition book_sane (O : offer_map) (P : pool_map) : Prop :=
  (forall id o, O !! id = Some o -> sane o) /\
  (forall k e cp, P !! k = Some e -> BodyConstantProduct e = Some cp ->
     reserve (ReserveA cp) /\ reserve (ReserveB cp) /\ fee (Fee cp)).

Definition tradable (v : Venues) : Prop :=
  Forall sane (offers v) /\ (has_pool v = true -> exists cp, pool_ok (pool v) cp).

Lemma venue_facts g O P i k : repr g O P -> book_sane O P ->
  let v := venue (E (venuesForSellingAsset g) i) k in
  tradable v /\ (occupied v -> id_ok (length (idToAssetString g)) i /\ id_ok (length (idToAssetString g)) k).
Proof.
  intros [HI HC] [HO HP] v.
  assert (Hpool : has_pool v = true -> exists cp, BodyConstantProduct (poolEntry (pool v)) = Some cp /\
    P !! pool_key (poolEntry (pool v)) = Some (poolEntry (pool v)) /\
    pool_ids (sid (assetStringToID g)) (poolEntry (pool v)) (assetA (pool v)) (assetB (pool v)) /\
    between (pool v) i k).
  { intros Hh. unfold has_pool in Hh. destruct (BodyConstantProduct (poolEntry (pool v))) as [cp|] eqn:Eb; [|done].
    exists cp. split; [done|]. apply (c_pools _ _ _ _ _ _ _ HC i k (pool v)); [by rewrite Eb|done]. }
  split; [split|].
  - apply Forall_forall. intros o Ho. apply HC in Ho as [Ho _]. by eapply HO.
  - intros Hh. destruct (Hpool Hh) as (cp & Eb & Hp & _). exists cp.
    destruct (c_P _ _ _ _ _ _ _ HC _ _ Hp) as [_ [cp' Hv]].
    assert (cp' = cp) as -> by (pose proof (pv_body _ _ Hv); congruence).
    destruct (HP _ _ _ Hp Eb) as (H1 & H2 & H3). split; [split; [apply Hv|done]|done..].
  - intros [Hne|Hh].
    + destruct (nonempty_elem _ Hne) as [o Hin]. apply HC in Hin as [_ [Hs Hb]].
      apply (sid_range _ _ _ _ HI) in Hs as [Hs _]. by apply (sid_range _ _ _ _ HI) in Hb as [Hb _].
    + destruct (Hpool Hh) as (cp & Eb & _ & (cp' & _ & Ha & Hb) & Hbt).
      apply (sid_range _ _ _ _ HI) in Ha as [Ha _], Hb as [Hb _].
      unfold id_ok. destruct Hbt as [[Ei Ek]|[Ei Ek]]; lia.
Qed.

Lemma edge_facts g O P : repr g O P -> book_sane O P -> forall a x,
  x ∈ E (venuesForSellingAsset g) a \/ x ∈ E (venuesForBuyingAsset g) a ->
  tradable (value x) /\ id_ok (length (idToAssetString g)) (key x).
Proof.
  intros HR HB a x Hx. pose proof HR as [HI HC].
  assert (Hv : value x = venue (E (venuesForSellingAsset g) a) (key x) \/
               value x = venue (E (venuesForSellingAsset g) (key x)) a).
  { destruct Hx as [Hx|Hx]; [left|right; rewrite (c_sym _ _ _ _ _ _ _ HC)]; symmetry; apply venue_elem;
      try done; apply HC. }
  assert (Ho : occupied (value x)).
  { assert (Hocc : forall e, wf e -> x ∈ e -> occupied (value x)).
    { intros e [_ Hocc _] Hin. rewrite Forall_forall in Hocc. by apply Hocc. }
    destruct Hx as [Hx|Hx]; eapply Hocc; try exact Hx; apply HC. }
  destruct Hv as [Ev|Ev]; rewrite Ev in *;
    [destruct (venue_facts g O P a (key x) HR HB) as [Ht Hi]|destruct (venue_facts g O P (key x) a HR HB) as [Ht Hi]];
    (split; [done|]); by apply Hi.
Qed.

Section Venues.
Context `{UO : Uint256Ops} {UL : Uint256Laws}.

(** A pool trade gives an amount or is declined; it does not panic. *)
Lemma trade_outcome pool cp asset tt amt : pool_ok pool cp -> amount64 amt ->
  tt = tradeTypeDeposit \/ tt = tradeTypeExpectation ->
  (exists e, makeTrade pool asset tt amt = Err e) \/
  (exists r, makeTrade pool asset tt amt = Ok r /\ 0 <= r < 2 ^ 63).
Proof.
  intros Hp Ha Htt. unfold amount64 in Ha. destruct (sides pool cp asset) as [X Y] eqn:Hs.
  destruct (sides_reserve _ _ _ _ _ Hp Hs) as [HX HY]. pose proof (ok_fee _ _ Hp) as HF.
  unfold reserve in HX, HY. assert (Hin : in_int 64 amt) by (unfold in_int; lia).
  destruct Htt as [->| ->].
  - rewrite (deposit_exact pool cp asset amt X Y Hp Hs Hin). unfold deposit_spec.
    replace (amt <=? 0) with false by lia. destruct (_ || _); [by left; eexists|]. right.
    eexists. split; [done|]. pose proof (payout_le X Y amt (Fee cp) ltac:(lia) ltac:(lia) ltac:(lia) HF). lia.
  - rewrite (expectation_exact pool cp asset amt X Y Hp Hs Hin). unfold expectation_spec.
    replace (amt <=? 0) with false by lia. destruct (_ || _) eqn:E0; [by left; eexists|]. right.
    eexists. split; [done|]. zbool. split; [|lia]. unfold fee in HF.
    apply Price.ceil_div_nonneg; nia.
Qed.

(** The two halves that the searches differ in. *)
Lemma processVenues_total state a amt v :
  amount64 amt -> tradable v ->
  (forall cp, pool_ok (pool v) cp -> (exists e, consumePool state (pool v) a amt = Err e) \/
     (exists r, consumePool state (pool v) a amt = Ok r /\ 0 <= r < 2 ^ 63)) ->
  (forall best, 0 <= best < 2 ^ 63 -> exists r err, consumeOffers state amt best (offers v) = Ok (r, err) /\
     r < 2 ^ 63 /\ (offers v <> [] -> err = None)) ->
  exists r, processVenues state a amt v = Ok (r, None) /\ r < 2 ^ 63.
Proof.
  intros Ha [Hs Hp] Hpool Hoff. unfold processVenues. unfold amount64 in Ha.
  replace (amt =? 0) with false by lia.
  assert (Hpa : exists pa, (if considerPools state && has_pool v then
      match consumePool state (pool v) a amt with Ok x => Ok x | Err _ => Ok 0 | Panic m => Panic m end
      else Ok 0) = Ok pa /\ 0 <= pa < 2 ^ 63).
  { destruct (considerPools state && has_pool v) eqn:Ec; [|exists 0; split; [done|lia]]. zbool.
    destruct (Hp ltac:(done)) as [cp Hcp].
    destruct (Hpool cp Hcp) as [[e ->]|(r & -> & Hr)]; [exists 0; split; [done|lia]|by exists r]. }
  destruct Hpa as (pa & -> & Hpa). rewrite bind_Ok_l.
  destruct (Z.eqb_spec pa 0) as [->|Hne]; cbn [andb].
  - destruct (offers v) as [|o os] eqn:Eo; [by exists (-1)|]. cbn [length Nat.eqb].
    destruct (Hoff 0 ltac:(lia)) as (r & err & -> & Hr & Herr). rewrite bind_Ok_l.
    rewrite Herr by done. by exists r.
  - destruct (Hoff pa Hpa) as (r & err & -> & Hr & Herr). rewrite bind_Ok_l. exists r.
    by destruct err.
Qed.

Lemma to_int64_lt z : to_int64 z < 2 ^ 63.
Proof. pose proof (swrap_range 64 z ltac:(lia)) as [_ Hz]. exact Hz. Qed.

Lemma selling_venues st a amt v : amount64 amt -> tradable v ->
  exists r, processVenues (sellingSearch st) a amt v = Ok (r, None) /\ r < 2 ^ 63.
Proof.
  intros Ha Hv. apply processVenues_total; try done.
  - intros cp Hcp. apply (trade_outcome _ cp); [done|done|by right].
  - intros best Hb. cbn [consumeOffers sellingSearch]. unfold selling_consumeOffers.
    assert (Hpm : forall z, z < 2 ^ 63 -> positiveMin best z < 2 ^ 63)
      by (intros z Hz; unfold positiveMin; repeat case_match; lia).
    unfold consumeOffersForSellingAsset. unfold amount64 in Ha. replace (amt =? 0) with false by lia.
    destruct (offers v) as [|o os] eqn:Eo; cbn [length Nat.eqb].
    { rewrite bind_Ok_l. eexists _, _. split; [done|]. split; [apply Hpm; lia|done]. }
    destruct Hv as [Hs _]. rewrite Eo in Hs.
    destruct (selling_loop_exact (ignoreOffersFrom st) (o :: os) amt 0 Hs Ha) as [H1 H2].
    destruct (total_cost _ _ _) as [c|]; [rewrite (H1 c eq_refl)|rewrite (H2 eq_refl)]; rewrite bind_Ok_l;
      eexists _, _; (split; [done|]); (split; [apply Hpm|done]); [apply to_int64_lt|lia].
Qed.

Lemma buying_venues st a amt v : amount64 amt -> tradable v ->
  exists r, processVenues (buyingSearch st) a amt v = Ok (r, None) /\ r < 2 ^ 63.
Proof.
  intros Ha Hv. apply processVenues_total; try done.
  - intros cp Hcp. apply (trade_outcome _ cp); [done|done|by left].
  - intros best Hb. cbn [consumeOffers buyingSearch]. unfold buying_consumeOffers.
    assert (Hpm : forall z, z < 2 ^ 63 -> Ordered.Max z best < 2 ^ 63)
      by (intros z Hz; rewrite Ordered.Max_max; lia).
    unfold consumeOffersForBuyingAsset. unfold amount64 in Ha. replace (amt =? 0) with false by lia.
    destruct (offers v) as [|o os] eqn:Eo; cbn [length Nat.eqb].
    { rewrite bind_Ok_l. eexists _, _. split; [done|]. split; [apply Hpm; lia|done]. }
    destruct Hv as [Hs _]. rewrite Eo in Hs.
    destruct (buying_loop_exact (o :: os) amt 0 Hs Ha) as [H1 H2].
    destruct (total_proceeds _ _) as [c|]; [rewrite (H1 c eq_refl)|rewrite (H2 eq_refl)]; rewrite bind_Ok_l;
      eexists _, _; (split; [done|]); (split; [apply Hpm|done]); [apply to_int64_lt|lia].
Qed.

Lemma names_total g path acc : Forall (id_ok (length (idToAssetString g))) path ->
  exists nodes, res_fold (fun acc id => s ← index (idToAssetString g) id; Ok (acc ++ [s])) acc path = Ok nodes.
Proof.
  revert acc. induction path as [|id path IH]; intros acc Hp; cbn [res_fold]; [by eexists|].
  apply Forall_cons in Hp as [Hid Hp]. rewrite index_name by done. rewrite !bind_Ok_l. by apply IH.
Qed.

Lemma interior_sub path (Q : Z -> Prop) : Forall Q path -> Forall Q (interior path).
Proof.
  intros Hp. unfold interior. case_match; [|constructor]. by apply Forall_take, Forall_drop.
Qed.

Lemma selling_searchable g O P st : repr g O P -> book_sane O P -> room (length (idToAssetString g)) ->
  s_graph st = g -> searchable (sellingSearch st) (length (idToAssetString g)).
Proof.
  intros HR HB Hroom Hg. pose proof HR as [HI HC]. split; cbn [totalAssets venues appendToPaths sellingSearch];
    rewrite ?Hg.
  - by apply room_int32.
  - intros a Ha. rewrite index_E by (rewrite (n_sell _ _ HI); done). eexists. split; [done|].
    intros x Hx. destruct (edge_facts g O P HR HB a x) as [Ht Hk]; [by left|]. split; [done|].
    intros amt Hamt. by apply selling_venues.
  - intros ps path a amt Hp Ha. unfold selling_appendToPaths. rewrite Hg, index_name, bind_Ok_l by done.
    destruct (names_total g (if Nat.ltb 2 (length path) then reversePath (interior path) else []) [])
      as [nodes Hn].
    { case_match; [|constructor]. rewrite reversePath_reverse. apply Forall_reverse, interior_sub, Hp. }
    unfold assetIDsToAssetStrings. rewrite Hn, bind_Ok_l. by eexists.
Qed.

Lemma buying_searchable g O P st : repr g O P -> book_sane O P -> room (length (idToAssetString g)) ->
  b_graph st = g -> searchable (buyingSearch st) (length (idToAssetString g)).
Proof.
  intros HR HB Hroom Hg. pose proof HR as [HI HC]. split; cbn [totalAssets venues appendToPaths buyingSearch];
    rewrite ?Hg.
  - by apply room_int32.
  - intros a Ha. rewrite index_E by (rewrite (n_buy _ _ HI); done). eexists. split; [done|].
    intros x Hx. destruct (edge_facts g O P HR HB a x) as [Ht Hk]; [by right|]. split; [done|].
    intros amt Hamt. by apply buying_venues.
  - intros ps path a amt Hp Ha. unfold buying_appendToPaths. rewrite Hg.
    destruct (names_total g (interior path) []) as [nodes Hn]; [by apply interior_sub|].
    unfold assetIDsToAssetStrings. rewrite Hn, bind_Ok_l, index_name, bind_Ok_l by done. by eexists.
Qed.

End Venues.

Lemma sources_total g assets : forall balances i m, 0 <= i ->
  i + Z.of_nat (length assets) <= Z.of_nat (length balances) ->
  exists m', sourceAssetsMap g assets balances i m = Ok m'.
Proof.
  induction assets as [|a assets IH]; intros balances i m Hi Hl; cbn [sourceAssetsMap]; [by eexists|].
  cbn [length] in Hl. destruct (assetStringToID g !! Asset.String_ a) as [id|]; [|apply IH; lia].
  destruct (lookup_lt_is_Some_2 balances (Z.to_nat i)) as [b Hb]; [lia|].
  assert (index balances i = Ok b) as ->.
  { unfold index. rewrite (proj2 (Z.ltb_ge i 0)) by lia. by rewrite Hb. }
  rewrite bind_Ok_l. apply IH; lia.
Qed.

(** ** Sorting and limiting the result *)

Section Queries.
Context `{UO : Uint256Ops} {UL : Uint256Laws}.
Context (sortSort : (Path -> Path -> bool) -> list Path -> list Path) (sortSort_ok : sort_laws sortSort).
Context (g : OrderBookGraph) (O : offer_map) (P : pool_map).

Lemma sortBySource_elem all maxp out : sortAndFilterPaths sortSort all maxp sortBySourceAsset = Ok out ->
  best_paths SourceAsset compareSourceAsset maxp all out.
Proof.
  intros [= <-]. apply (best_paths_filter sortSort sortSort_ok _ _ _ _ _ compareSource_lex compareSource_weak).
Qed.

Lemma sortByDestination_elem all maxp out : sortAndFilterPaths sortSort all maxp sortByDestinationAsset = Ok out ->
  best_paths DestinationAsset compareDestinationAsset maxp all out.
Proof.
  intros [= <-]. apply (best_paths_filter sortSort sortSort_ok _ _ _ _ _ compareDestination_lex compareDestination_weak).
Qed.

Lemma wrap_Ok {A} msg (r : res A) x : wrap_error msg r = Ok x <-> r = Ok x.
Proof. by destruct r. Qed.

End Queries.

(** ** A sample book *)

Definition sample_book : OrderBookGraph :=
  match Apply sample_graph 5 with Ok (g, None) => g | _ => sample_graph end.

Lemma sample_book_repr : repr sample_book {[2 := sample_offer 2 2 1; 1 := sample_offer 1 2 1]} ∅.
Proof.
  destruct (Apply_spec sample_graph ∅ ∅ 5 sample_graph_repr eq_refl sample_graph_ops
    ltac:(vm_compute; discriminate) eq_refl) as (g' & H1 & H2 & _).
  unfold sample_book. rewrite H1. exact H2.
Qed.

Lemma sample_book_sane : book_sane {[2 := sample_offer 2 2 1; 1 := sample_offer 1 2 1]} ∅.
Proof.
  split; [|by intros k e cp; rewrite lookup_empty]. intros id o H.
  assert (o = sample_offer 2 2 1 \/ o = sample_offer 1 2 1) as [->| ->].
  { apply lookup_insert_Some in H as [[_ <-]|[_ H]]; [by left|].
    apply lookup_singleton_Some in H as [_ <-]. by right. }
  - repeat split; cbn; lia.
  - repeat split; cbn; lia.
Qed.

End PathFinding.
