(* ===== verification/PathPrices.v ===== *)
(** * The prices of the paths found

    What the amounts of the paths of FindPaths and FindFixedPaths
    (exp/orderbook/graph.go, search.go) mean: every hop is priced by the best of
    the quotes of the edge, which are defined here in exact integers: the offers of
    the edge taken one after the other, and the formulas of CAP-38 for its pool.
    Also that an asset with a direct trade is never missed: some path of it that is
    as good as the direct trade is returned. *)
From S2P Require Import Prelude Price Xdr Pools Edges Graph GraphRefine Search Consume SearchProofs PathFinding.

Module PathPrices.
Import Pools Edges Graph GraphRefine Search Consume SearchProofs PathFinding.

(** ** Quotes *)

Definition positive_quotes (l : list Z) : list Z := filter (fun q => 0 < q) l.
Definition list_of_option (o : option Z) : list Z := match o with Some q => [q] | None => [] end.

(** What the pool of an edge asks or pays by the formula [spec], if it has one. *)
Definition pool_quote (pools : bool) (spec : Z -> Z -> Z -> Z -> res Z) (v : Venues) (asset amt : Z) : list Z :=
  match BodyConstantProduct (poolEntry (pool v)) with
  | Some cp =>
      if pools then
        let '(X, Y) := sides (pool v) cp asset in
        match spec X Y (Fee cp) amt with Ok q => [q] | _ => [] end
      else []
  | None => []
  end.

(** What is to be paid to receive [amt] of [cur] over an edge. *)
Definition buy_quotes (ig : option AccountId.t) (pools : bool) (cur amt : Z) (v : Venues) : list Z :=
  positive_quotes (pool_quote pools expectation_spec v (getOtherAsset cur (pool v)) amt ++
                   list_of_option (total_cost ig (offers v) amt)).

(** What is received for [amt] of [cur] over an edge. *)
Definition sell_quotes (pools : bool) (cur amt : Z) (v : Venues) : list Z :=
  positive_quotes (pool_quote pools deposit_spec v cur amt ++ list_of_option (total_proceeds (offers v) amt)).

Definition best_of (le : Z -> Z -> Prop) (qs : list Z) (q : Z) : Prop := q ∈ qs /\ forall q', q' ∈ qs -> le q q'.

(** All offers of an edge together: what they cost, and what they sell.  The code
    adds these up in an int64 without a check. *)
Definition offers_cost (os : list OfferEntry) : Z := foldr (fun o acc => cost o (Amount_ o) + acc) 0 os.
Definition offers_amount (os : list OfferEntry) : Z := foldr (fun o acc => Amount_ o + acc) 0 os.

Lemma positive_quotes_elem l q : q ∈ positive_quotes l <-> 0 < q /\ q ∈ l.
Proof. apply list_elem_of_filter. Qed.

Lemma offers_cost_nonneg os : Forall sane os -> 0 <= offers_cost os.
Proof.
  induction 1 as [|o os Ho _ IH]; [done|]. cbn [offers_cost foldr]. fold (offers_cost os).
  pose proof (sane_bounds o Ho). pose proof (cost_nonneg o (Amount_ o) Ho). lia.
Qed.

Lemma offers_amount_nonneg os : Forall sane os -> 0 <= offers_amount os.
Proof.
  induction 1 as [|o os Ho _ IH]; [done|]. cbn [offers_amount foldr]. fold (offers_amount os).
  pose proof (sane_bounds o Ho). lia.
Qed.

Lemma total_cost_le ig os : forall amt c, Forall sane os -> 0 < amt -> total_cost ig os amt = Some c -> c <= offers_cost os.
Proof.
  induction os as [|o os IH]; intros amt c Hos Ha; cbn [total_cost]; [done|].
  apply Forall_cons in Hos as [Ho Hos]. cbn [offers_cost foldr]. fold (offers_cost os).
  pose proof (sane_bounds o Ho) as (Hn & Hd & Hamt & Hav). pose proof (offers_cost_nonneg os Hos).
  pose proof (cost_nonneg o (Amount_ o) Ho).
  destruct (ignored ig o); [intros H1; specialize (IH amt c Hos Ha H1); lia|].
  pose proof (cost_mono o (Z.min (available o) amt) (Amount_ o) Ho ltac:(lia)) as Hm.
  destruct (_ >? _); [done|]. destruct (Z.eqb_spec (Z.min (available o) amt) amt); [intros [= <-]; lia|].
  destruct (total_cost ig os _) as [c0|] eqn:E0; [|done]. intros [= <-].
  specialize (IH (amt - Z.min (available o) amt) c0 Hos ltac:(lia) E0). lia.
Qed.

Lemma total_proceeds_le os : forall amt c, Forall sane os -> 0 < amt -> total_proceeds os amt = Some c -> c <= offers_amount os.
Proof.
  induction os as [|o os IH]; intros amt c Hos Ha; cbn [total_proceeds]; [done|].
  apply Forall_cons in Hos as [Ho Hos]. cbn [offers_amount foldr]. fold (offers_amount os).
  pose proof (sane_bounds o Ho) as (Hn & Hd & Hamt & Hav). pose proof (offers_amount_nonneg os Hos).
  destruct (_ =? 0); [done|].
  destruct (Z.leb_spec (amt * d_of o / n_of o) (Amount_ o)) as [Hle|Hgt]; [intros [= <-]; lia|].
  pose proof (whole_cost o amt Ho Hgt) as Hw.
  destruct (Z.eqb_spec (cost o (available o)) amt); [intros [= <-]; lia|].
  destruct (total_proceeds os _) as [c0|] eqn:E0; [|done]. intros [= <-].
  specialize (IH (amt - cost o (available o)) c0 Hos ltac:(lia) E0). lia.
Qed.

Lemma total_cost_positive ig os amt c : Forall sane os -> 0 < amt -> total_cost ig os amt = Some c -> 0 < c.
Proof.
  intros Hos Ha Hc. assert (amt * 1 <= c * 2 ^ 31); [|lia].
  apply (total_cost_fair ig 1 (2 ^ 31) os ltac:(lia) amt c Hos Ha); [|done].
  eapply Forall_impl; [exact Hos|]. intros o Ho _. pose proof (sane_bounds o Ho). nia.
Qed.

Lemma total_proceeds_positive os amt c : Forall sane os -> 0 < amt -> total_proceeds os amt = Some c -> 0 < c.
Proof.
  intros Hos Ha Hc. apply (total_proceeds_fair 0 1 os ltac:(lia) amt c Hos ltac:(lia)); [|done].
  eapply Forall_impl; [exact Hos|]. intros o Ho. pose proof (sane_bounds o Ho). lia.
Qed.

Section Prices.
Context `{UO : Uint256Ops} {UL : Uint256Laws}.

(** The pool's part of a price: its quote, or 0 without one. *)
Lemma pool_amount state spec v asset a amt : tradable v ->
  (forall cp, pool_ok (pool v) cp -> consumePool state (pool v) a amt = let '(X, Y) := sides (pool v) cp asset in spec X Y (Fee cp) amt) ->
  (forall cp, pool_ok (pool v) cp -> (exists e, consumePool state (pool v) a amt = Err e) \/
     (exists r, consumePool state (pool v) a amt = Ok r /\ 0 <= r < 2 ^ 63)) ->
  exists pa, (if considerPools state && has_pool v then
      match consumePool state (pool v) a amt with Ok x => Ok x | Err _ => Ok 0 | Panic m => Panic m end
    else Ok 0) = Ok pa /\ 0 <= pa < 2 ^ 63 /\
    (pool_quote (considerPools state) spec v asset amt = [pa] \/ pool_quote (considerPools state) spec v asset amt = [] /\ pa = 0).
Proof.
  intros [_ Hp] Hspec Hout. unfold pool_quote, has_pool in *.
  destruct (BodyConstantProduct (poolEntry (pool v))) as [cp|] eqn:Eb; cycle 1.
  { rewrite andb_false_r. exists 0. split; [done|]. split; [lia|by right]. }
  destruct (considerPools state); cbn [andb]; [|exists 0; split; [done|]; split; [lia|by right]].
  destruct (Hp eq_refl) as [cp' Hcp]. assert (cp' = cp) as -> by (destruct (ok_body _ _ Hcp); congruence).
  specialize (Hout cp Hcp). specialize (Hspec cp Hcp). destruct (sides (pool v) cp asset) as [X Y] eqn:Es.
  rewrite Hspec in Hout |- *.
  destruct Hout as [[e ->]|(r & -> & Hr)]; [exists 0; split; [done|]; split; [lia|by right]|exists r; auto].
Qed.

(** The price of an edge: the best quote, or nothing positive without quotes. *)
Definition priced (le : Z -> Z -> Prop) (qs : list Z) (r : Z) : Prop :=
  (0 < r -> best_of le qs r) /\ (qs <> [] -> 0 < r).

Lemma pool_quotes_elem pq pa : pq = [pa] \/ pq = [] /\ pa = 0 -> forall q, q ∈ pq /\ 0 < q <-> q = pa /\ 0 < pa.
Proof.
  intros Hq q. destruct Hq as [->|[-> ->]]; [rewrite list_elem_of_singleton; naive_solver|].
  split; [intros [H _]; by apply elem_of_nil in H|lia].
Qed.

(** The smaller of the pool's price and the offers' cost, and the larger of the
    pool's payout and the offers' proceeds. *)
Lemma least_quote pq pa tc r : pq = [pa] \/ pq = [] /\ pa = 0 -> 0 <= pa < 2 ^ 63 ->
  r = positiveMin pa (default (-1) tc) \/ (r = -1 /\ pa = 0 /\ tc = None) -> (forall c, tc = Some c -> 0 < c) ->
  priced Z.le (positive_quotes (pq ++ list_of_option tc)) r.
Proof.
  intros Hq Hpa Hr Hc. set (qs := positive_quotes _).
  assert (Hin : forall q, q ∈ qs <-> (q = pa /\ 0 < pa) \/ tc = Some q).
  { intros q. unfold qs. rewrite positive_quotes_elem, elem_of_app, <- (pool_quotes_elem _ _ Hq). unfold list_of_option. destruct tc as [c|].
    - specialize (Hc c eq_refl). rewrite list_elem_of_singleton. naive_solver.
    - rewrite elem_of_nil. naive_solver. }
  assert (Hcase : match tc with
    | Some c => r = (if 0 <? pa then Z.min pa c else c)
    | None => 0 < pa /\ r = pa \/ pa = 0 /\ r <= 0 end).
  { destruct Hr as [->|(-> & -> & ->)]; [|lia]. unfold positiveMin. destruct tc as [c|]; cbn [default from_option id].
    - specialize (Hc c eq_refl). rewrite (proj2 (Z.leb_gt c 0)) by lia.
      destruct (Z.ltb_spec 0 pa), (Z.ltb_spec c pa), (Z.leb_spec pa 0); cbn [orb]; lia.
    - change (-1 <=? 0) with true. cbv iota. lia. }
  split.
  - intros Hpos. split; [apply Hin|intros q' Hq'; apply Hin in Hq'].
    + destruct tc as [c|]; [|left; lia]. specialize (Hc c eq_refl). destruct (Z.ltb_spec 0 pa); [|by right; congruence].
      destruct (Z.min_spec pa c) as [[_ E]|[_ E]]; rewrite E in Hcase; [left; lia|right; congruence].
    + destruct tc as [c|]; [|destruct Hq' as [[-> ?]|?]; [lia|done]].
      destruct Hq' as [[-> ?]|[= <-]]; destruct (Z.ltb_spec 0 pa); lia.
  - intros Hne. destruct (nonempty_elem _ Hne) as [q Hqin]. apply Hin in Hqin. destruct tc as [c|].
    + specialize (Hc c eq_refl). destruct (Z.ltb_spec 0 pa); lia.
    + destruct Hqin as [[-> ?]|?]; [lia|done].
Qed.

Lemma greatest_quote pq pa tp r : pq = [pa] \/ pq = [] /\ pa = 0 -> 0 <= pa < 2 ^ 63 ->
  r = Z.max (default 0 tp) pa \/ (r <= 0 /\ pa = 0 /\ tp = None) -> (forall c, tp = Some c -> 0 < c) ->
  priced Z.ge (positive_quotes (pq ++ list_of_option tp)) r.
Proof.
  intros Hq Hpa Hr Hc. set (qs := positive_quotes _).
  assert (Hin : forall q, q ∈ qs <-> (q = pa /\ 0 < pa) \/ tp = Some q).
  { intros q. unfold qs. rewrite positive_quotes_elem, elem_of_app, <- (pool_quotes_elem _ _ Hq). unfold list_of_option. destruct tp as [c|].
    - specialize (Hc c eq_refl). rewrite list_elem_of_singleton. naive_solver.
    - rewrite elem_of_nil. naive_solver. }
  assert (Hcase : match tp with Some c => r = Z.max c pa | None => 0 < pa /\ r = pa \/ pa = 0 /\ r <= 0 end).
  { destruct Hr as [->|(? & -> & ->)]; [|lia]. destruct tp as [c|]; simpl in *; lia. }
  split.
  - intros Hpos. split; [apply Hin|intros q' Hq'; apply Hin in Hq'].
    + destruct tp as [c|]; [|left; lia]. specialize (Hc c eq_refl).
      destruct (Z.max_spec c pa) as [[_ E]|[_ E]]; rewrite E in Hcase; [left; lia|right; congruence].
    + destruct tp as [c|]; [|destruct Hq' as [[-> ?]|?]; [lia|done]]. destruct Hq' as [[-> ?]|[= <-]]; lia.
  - intros Hne. destruct (nonempty_elem _ Hne) as [q Hqin]. apply Hin in Hqin. destruct tp as [c|].
    + specialize (Hc c eq_refl). lia.
    + destruct Hqin as [[-> ?]|?]; [lia|done].
Qed.

Lemma selling_price st a amt v : amount64 amt -> tradable v -> offers_cost (offers v) <= MaxInt64 ->
  exists r, processVenues (sellingSearch st) a amt v = Ok (r, None) /\
    priced Z.le (buy_quotes (ignoreOffersFrom st) (s_includePools st) a amt v) r.
Proof.
  intros Ha Hv Hfit. unfold processVenues. unfold amount64 in Ha. rewrite (proj2 (Z.eqb_neq amt 0)) by lia.
  destruct (pool_amount (sellingSearch st) expectation_spec v (getOtherAsset a (pool v)) a amt Hv) as (pa & -> & Hpa & Hq).
  { intros cp Hcp. destruct (sides _ _ _) as [X Y] eqn:Es. apply (expectation_exact _ cp _ _ X Y Hcp Es). unfold in_int. lia. }
  { intros cp Hcp. apply (trade_outcome _ cp); [done|done|by right]. }
  rewrite bind_Ok_l. unfold buy_quotes. cbn [considerPools consumeOffers sellingSearch] in *. set (pq := pool_quote _ _ _ _ _) in *.
  assert (Hgen : forall r tc, total_cost (ignoreOffersFrom st) (offers v) amt = tc ->
    r = positiveMin pa (default (-1) tc) \/ (r = -1 /\ pa = 0 /\ tc = None) -> (forall c, tc = Some c -> 0 < c) ->
    priced Z.le (positive_quotes (pq ++ list_of_option (total_cost (ignoreOffersFrom st) (offers v) amt))) r)
    by (intros r tc ->; by apply least_quote).
  destruct Hv as [Hs _].
  destruct (offers v) as [|o os] eqn:Eo; cbn [length Nat.eqb]; [rewrite andb_true_r|rewrite andb_false_r].
  - destruct (Z.eqb_spec pa 0) as [E0|E0]; [exists (-1); split; [done|]; by eapply (Hgen (-1) None); [done|right|]|].
    exists pa. split; [unfold selling_consumeOffers, consumeOffersForSellingAsset; cbn [length Nat.eqb]; rewrite !bind_Ok_l;
      unfold positiveMin; by change (0 <=? 0) with true|].
    eapply (Hgen pa None); [done|left; unfold positiveMin; done|done].
  - assert (Hc : forall c, total_cost (ignoreOffersFrom st) (o :: os) amt = Some c -> 0 < c <= MaxInt64).
    { intros c E. pose proof (total_cost_positive _ _ amt _ Hs ltac:(lia) E).
      pose proof (total_cost_le _ _ amt _ Hs ltac:(lia) E). lia. }
    destruct (selling_loop_exact (ignoreOffersFrom st) (o :: os) amt 0 Hs Ha) as [H1 H2].
    unfold selling_consumeOffers, consumeOffersForSellingAsset. cbn [length Nat.eqb]. rewrite (proj2 (Z.eqb_neq amt 0)) by lia.
    destruct (total_cost (ignoreOffersFrom st) (o :: os) amt) as [c|] eqn:E.
    + destruct (Hc c eq_refl). unfold MaxInt64 in *. rewrite (H1 c eq_refl). rewrite Z.add_0_l, swrap_small by (unfold in_int; lia). rewrite !bind_Ok_l.
      eexists. split; [done|]. eapply (Hgen _ (Some c)); [done|by left|]. by intros ? [= <-].
    + rewrite (H2 eq_refl), !bind_Ok_l. eexists. split; [done|]. eapply (Hgen _ None); [done|by left|done].
Qed.

Lemma buying_price st a amt v : amount64 amt -> tradable v -> offers_amount (offers v) <= MaxInt64 ->
  exists r, processVenues (buyingSearch st) a amt v = Ok (r, None) /\
    priced Z.ge (sell_quotes (b_includePools st) a amt v) r.
Proof.
  intros Ha Hv Hfit. unfold processVenues. unfold amount64 in Ha. rewrite (proj2 (Z.eqb_neq amt 0)) by lia.
  destruct (pool_amount (buyingSearch st) deposit_spec v a a amt Hv) as (pa & -> & Hpa & Hq).
  { intros cp Hcp. destruct (sides _ _ _) as [X Y] eqn:Es. apply (deposit_exact _ cp _ _ X Y Hcp Es). unfold in_int. lia. }
  { intros cp Hcp. apply (trade_outcome _ cp); [done|done|by left]. }
  rewrite bind_Ok_l. unfold sell_quotes. cbn [considerPools consumeOffers buyingSearch] in *. set (pq := pool_quote _ _ _ _ _) in *.
  assert (Hgen : forall r tp, total_proceeds (offers v) amt = tp ->
    r = Z.max (default 0 tp) pa \/ (r <= 0 /\ pa = 0 /\ tp = None) -> (forall c, tp = Some c -> 0 < c) ->
    priced Z.ge (positive_quotes (pq ++ list_of_option (total_proceeds (offers v) amt))) r)
    by (intros r tp ->; by apply greatest_quote).
  destruct Hv as [Hs _].
  destruct (offers v) as [|o os] eqn:Eo; cbn [length Nat.eqb]; [rewrite andb_true_r|rewrite andb_false_r].
  - destruct (Z.eqb_spec pa 0) as [E0|E0]; [exists (-1); split; [done|]; by eapply (Hgen (-1) None); [done|right; split_and!; [lia|done..]|]|].
    exists pa. split; [unfold buying_consumeOffers, consumeOffersForBuyingAsset; cbn [length Nat.eqb]; rewrite !bind_Ok_l, Ordered.Max_max;
      by rewrite Z.max_r by lia|].
    eapply (Hgen pa None); [done|left; simpl; lia|done].
  - assert (Hc : forall c, total_proceeds (o :: os) amt = Some c -> 0 < c <= MaxInt64).
    { intros c E. pose proof (total_proceeds_positive _ amt _ Hs ltac:(lia) E).
      pose proof (total_proceeds_le _ amt _ Hs ltac:(lia) E). lia. }
    destruct (buying_loop_exact (o :: os) amt 0 Hs Ha) as [H1 H2].
    unfold buying_consumeOffers, consumeOffersForBuyingAsset. cbn [length Nat.eqb]. rewrite (proj2 (Z.eqb_neq amt 0)) by lia.
    destruct (total_proceeds (o :: os) amt) as [c|] eqn:E.
    + destruct (Hc c eq_refl). unfold MaxInt64 in *. rewrite (H1 c eq_refl). rewrite Z.add_0_l, swrap_small by (unfold in_int; lia).
      rewrite !bind_Ok_l, Ordered.Max_max. eexists. split; [done|]. eapply (Hgen _ (Some c)); [done|by left|]. by intros ? [= <-].
    + rewrite (H2 eq_refl), !bind_Ok_l, Ordered.Max_max. eexists. split; [done|].
      eapply (Hgen _ None); [done| |done]. destruct (Z.eqb_spec pa 0); [right; split_and!; [lia|done..]|left; simpl; lia].
Qed.

End Prices.

(** ** Routes at the quoted prices *)

(** Trading from the source along distinct assets over the edges [tbl]: at every
    hop the next amount is the best quote for the amount before it. *)
Inductive priced_route (tbl : Z -> edgeSet) (le : Z -> Z -> Prop) (quotes : Z -> Z -> Venues -> list Z) (source amount : Z)
  : list Z -> Z -> Prop :=
| priced_start : priced_route tbl le quotes source amount [source] amount
| priced_step l cur amt x amt' : priced_route tbl le quotes source amount (l ++ [cur]) amt ->
    x ∈ tbl cur -> key x ∉ l ++ [cur] -> best_of le (quotes cur amt (value x)) amt' ->
    priced_route tbl le quotes source amount ((l ++ [cur]) ++ [key x]) amt'.

Lemma route_priced state n tbl le quotes source amount l amt : searchable state n -> id_ok n source -> amount64 amount ->
  (forall a es, venues state a = Ok es -> es = tbl a) ->
  (forall a x amt, id_ok n a -> x ∈ tbl a -> amount64 amt ->
     exists r, processVenues state a amt (value x) = Ok (r, None) /\ priced le (quotes a amt (value x)) r) ->
  route state source amount l amt -> priced_route tbl le quotes source amount l amt.
Proof.
  intros Hsb Hsrc Ham Htbl Hprice. induction 1 as [|l cur amt es x amt' Hr IH _ Hes Hx Hk Hpv Hpos]; [constructor|].
  destruct (route_ok state source amount n Hsb Hsrc Ham _ _ Hr) as [Hids Hamt]. rewrite (Htbl _ _ Hes) in Hx.
  destruct (Hprice cur x amt (Forall_last_app _ _ _ Hids) Hx Hamt) as (r & Hr' & [Hbest _]).
  assert (r = amt') as -> by congruence. 
  apply (priced_step _ _ _ _ _ l cur amt x amt' IH Hx Hk). by apply Hbest.
Qed.

(** ** The direct trade is found *)

Lemma res_fold_app {A B} (f : A -> B -> res A) l1 l2 : forall acc,
  res_fold f acc (l1 ++ l2) = (acc ← res_fold f acc l1; res_fold f acc l2).
Proof.
  induction l1 as [|x l1 IH]; intros acc; cbn [app res_fold]; [done|].
  destruct (f acc x) as [acc1|e|m]; [rewrite !bind_Ok_l; apply IH|done..].
Qed.

Section Direct.
Context (state : searchState) (maxPathLength source sourceAmount : Z).
Hypothesis Hgrow : forall ps path a amt ps', appendToPaths state ps path a amt = Ok ps' -> forall p : Path, p ∈ ps -> p ∈ ps'.

Definition grows (v v' : searchVars) : Prop := forall p, p ∈ found v -> p ∈ found v'.

Lemma visit_edge_grows ctx last cur amt path v x v' : visit_edge ctx state last cur amt path v x = Ok v' -> grows v v'.
Proof.
  unfold visit_edge. destruct (ctx _); [done|]. cbv zeta. destruct (last && _); [intros [= <-]; exact (fun p H => H)|].
  destruct (contains _ _ _); [intros [= <-]; exact (fun p H => H)|]. intros ([r err] & _ & H)%bind_Ok. destruct err; [done|].
  destruct (r <=? 0); [injection H as <-; exact (fun p H => H)|]. apply bind_Ok in H as (u & _ & H).
  destruct (betterPathAmount state u r); [|injection H as <-; exact (fun p H => H)]. unfold improve in H.
  apply bind_Ok in H as (u' & _ & H). apply bind_Ok in H as (b & _ & H). apply bind_Ok in H as (ua & _ & H).
  apply bind_Ok in H as (v1 & Hv1 & H).
  assert (Hf : found v1 = found v).
  { destruct (u' =? b); [by apply bind_Ok in Hv1 as (? & _ & [= <-])|].
    apply bind_Ok in Hv1 as (? & _ & Hv1). apply bind_Ok in Hv1 as (? & _ & Hv1). by apply bind_Ok in Hv1 as (? & _ & [= <-]). }
  destruct (includePath _ _ _); [|injection H as <-; intros p; by rewrite Hf].
  apply bind_Ok in H as (ps & Hps & [= <-]). intros p Hp. eapply Hgrow; [exact Hps|]. by rewrite Hf.
Qed.

Lemma fold_grows {X} (f : searchVars -> X -> res searchVars) (Hf : forall v x v', f v x = Ok v' -> grows v v') xs : forall v v',
  res_fold f v xs = Ok v' -> grows v v'.
Proof.
  induction xs as [|x xs IH]; intros v v'; cbn [res_fold]; [intros [= <-]; exact (fun p H => H)|].
  intros (v1 & H1 & H2)%bind_Ok p Hp. eapply IH; [exact H2|]. by eapply Hf.
Qed.

Lemma visit_asset_grows ctx last v c v' : visit_asset ctx state last v c = Ok v' -> grows v v'.
Proof.
  unfold visit_asset. intros (amt & _ & H)%bind_Ok. destruct (amt =? 0); [injection H as <-; exact (fun p H => H)|].
  apply bind_Ok in H as (path & _ & H). apply bind_Ok in H as (es & _ & H).
  eapply fold_grows; [|exact H]. intros. by eapply visit_edge_grows.
Qed.

Lemma commit_asset_grows v a v' : commit_asset v a = Ok v' -> grows v v'.
Proof.
  unfold commit_asset. intros (? & _ & H)%bind_Ok. apply bind_Ok in H as (? & _ & H). apply bind_Ok in H as (? & _ & H).
  apply bind_Ok in H as (? & _ & [= <-]). exact (fun p H => H).
Qed.

Lemma round_grows ctx v i v' : round ctx state maxPathLength v i = Ok v' -> grows v v'.
Proof.
  unfold round. cbv zeta. intros (v1 & H1 & H)%bind_Ok. intros p Hp.
  assert (Hp1 : p ∈ found v1) by (eapply (fold_grows _ (visit_asset_grows ctx _)); [exact H1|done]).
  destruct (i <? _); [|by injection H as <-]. by eapply (fold_grows _ commit_asset_grows); [exact H|].
Qed.

(** Visiting an edge changes the pending amount of its asset only. *)
Lemma visit_edge_updates ctx last cur amt path v y v' a : visit_edge ctx state last cur amt path v y = Ok v' -> a <> key y ->
  slot (updateAmount v') a = slot (updateAmount v) a.
Proof.
  intros H Ha. unfold visit_edge in H. destruct (ctx _); [done|]. cbv zeta in H. destruct (last && _); [by injection H as <-|].
  destruct (contains _ _ _); [by injection H as <-|]. apply bind_Ok in H as ([r err] & _ & H). destruct err; [done|].
  destruct (r <=? 0); [by injection H as <-|]. apply bind_Ok in H as (u & _ & H).
  destruct (betterPathAmount state u r); [|by injection H as <-]. unfold improve in H.
  apply bind_Ok in H as (u' & _ & H). apply bind_Ok in H as (b & _ & H). apply bind_Ok in H as (ua & Hua & H).
  apply bind_Ok in H as (v1 & Hv1 & H).
  assert (Hu : updateAmount v1 = ua).
  { destruct (u' =? b); [by apply bind_Ok in Hv1 as (? & _ & [= <-])|].
    apply bind_Ok in Hv1 as (? & _ & Hv1). apply bind_Ok in Hv1 as (? & _ & Hv1). by apply bind_Ok in Hv1 as (? & _ & [= <-]). }
  assert (Hs : slot ua a = slot (updateAmount (tick v)) a).
  { rewrite (assign_slot _ _ _ _ Hua). by rewrite (proj2 (Z.eqb_neq a (key y))) by done. }
  destruct (includePath _ _ _); [apply bind_Ok in H as (ps & _ & [= <-])|injection H as <-]; cbn [updateAmount]; by rewrite ?Hu, Hs.
Qed.

Lemma visit_edges_updates ctx last cur amt path a xs : forall v v', a ∉ map key xs ->
  res_fold (visit_edge ctx state last cur amt path) v xs = Ok v' -> slot (updateAmount v') a = slot (updateAmount v) a.
Proof.
  induction xs as [|x xs IH]; intros v v' Ha; cbn [res_fold]; [by intros [= <-]|].
  intros (v1 & H1 & H2)%bind_Ok. cbn in Ha. rewrite not_elem_of_cons in Ha. destruct Ha as [Ha1 Ha2].
  rewrite (IH v1 v' Ha2 H2). by eapply visit_edge_updates.
Qed.

(** An edge to a new asset without a pending amount is reported. *)
Lemma visit_edge_reports last v x r v' : acyclic (heap v) -> denotes (heap v) (Some 0%nat) [source] -> key x <> source ->
  slot (updateAmount v) (key x) = Some 0 -> slot (bestAmount v) (key x) = Some 0 ->
  processVenues state source sourceAmount (value x) = Ok (r, None) -> 0 < r -> betterPathAmount state 0 r = true ->
  isTerminalNode state (key x) = true -> includePath state (key x) r = true ->
  visit_edge no_cancel state last source sourceAmount (Some 0%nat) v x = Ok v' ->
  appendToPaths state (found v) [source; key x] (key x) r = Ok (found v').
Proof.
  intros Hac Hd Hne Hu Hb Hpv Hr Hbet Hterm Hinc. unfold visit_edge. cbn [no_cancel]. cbv zeta.
  rewrite Hterm, andb_false_r. change (heap (tick v)) with (heap v).
  assert (Hc : contains (heap v) (Some 0%nat) (key x) = false).
  { apply not_true_iff_false. intros Hc. apply (contains_elem _ _ _ _ Hac Hd) in Hc. by apply list_elem_of_singleton in Hc. }
  rewrite Hc, Hpv, bind_Ok_l. rewrite (proj2 (Z.leb_gt r 0)) by lia. change (updateAmount (tick v)) with (updateAmount v).
  pose proof (proj2 (index_slot _ _ _) Hu) as Hu'. pose proof (proj2 (index_slot _ _ _) Hb) as Hb'.
  rewrite Hu', bind_Ok_l, Hbet. unfold improve. change (updateAmount (tick v)) with (updateAmount v). change (bestAmount (tick v)) with (bestAmount v).
  rewrite Hu', bind_Ok_l, Hb', bind_Ok_l, Z.eqb_refl. intros (ua & _ & H)%bind_Ok. apply bind_Ok in H as (v1 & Hv1 & H).
  apply bind_Ok in Hv1 as (up & _ & [= <-]). rewrite Hinc in H. apply bind_Ok in H as (ps & Hps & [= <-]). cbn [found heap tick] in *.
  unfold node_path in Hps. rewrite (denotes_full _ _ [source]), reversePath_reverse in Hps.
  - exact Hps.
  - apply acyclic_app; [done|]. cbn [pn_prev]. inversion Hd as [|a m l Ha Hd' Ea]. subst. by apply lookup_lt_Some in Ha.
  - by apply denotes_app.
Qed.

(** Assets without an amount are passed over. *)
Lemma visit_assets_skip last v l : (forall a, a ∈ l -> slot (bestAmount v) a = Some 0) ->
  res_fold (visit_asset no_cancel state last) v l = Ok v.
Proof.
  induction l as [|a l IH]; intros Hl; cbn [res_fold]; [done|].
  assert (Hv : visit_asset no_cancel state last v a = Ok v).
  { unfold visit_asset. by rewrite (proj2 (index_slot _ _ _) (Hl a ltac:(left))), bind_Ok_l. }
  rewrite Hv, bind_Ok_l. apply IH. intros b Hb. apply Hl. by right.
Qed.

(** The search begins with the source as its only path. *)
Lemma start_emitted ps0 : (if includePath state source sourceAmount then appendToPaths state [] [source] source sourceAmount else Ok []) = Ok ps0 ->
  emitted state maxPathLength source sourceAmount [] ps0.
Proof.
  destruct (includePath state source sourceAmount) eqn:Ei; [|intros [= <-]; constructor]. intros H.
  eapply (emitted_add _ _ _ _ [] [] [] source sourceAmount); try done; [constructor|constructor|simpl; lia].
Qed.

(** In the first round only the source has an amount, so an edge of the source is
    met before any other edge to its asset. *)
Lemma search_direct n es x r ps : 1 <= maxPathLength -> totalAssets state = Z.of_nat n -> id_ok n source -> id_ok n (key x) ->
  amount64 sourceAmount -> venues state source = Ok es -> x ∈ es -> NoDup (map key es) -> key x <> source ->
  processVenues state source sourceAmount (value x) = Ok (r, None) -> 0 < r -> betterPathAmount state 0 r = true ->
  isTerminalNode state (key x) = true -> includePath state (key x) r = true ->
  search no_cancel state maxPathLength source sourceAmount [] = Ok ps ->
  exists ps1 ps2, appendToPaths state ps1 [source; key x] (key x) r = Ok ps2 /\ forall p, p ∈ ps2 -> p ∈ ps.
Proof.
  intros Hmax Hn Hsrc Hkx Ham Hes Hx Hnd Hne Hpv Hr Hbet Hterm Hinc. unfold search. rewrite Hn.
  rewrite (proj2 (Z.ltb_ge (Z.of_nat n) 0)) by lia. cbv zeta. rewrite Nat2Z.id.
  intros (ba & Hba & H)%bind_Ok. apply bind_Ok in H as (bp & Hbp & H). apply bind_Ok in H as (ps0 & Hps0 & H).
  apply bind_Ok in H as (vl & H & [= <-]). rewrite seqZ_cons in H by lia. cbn [res_fold] in H.
  apply bind_Ok in H as (v1 & H1 & Hrest). unfold round in H1. cbv zeta in H1. cbn [bestAmount updateAmount bestPath updatePath heap found checks] in H1.
  apply bind_Ok in H1 as (v2 & H2 & H1).
  set (v0 := mkVars ba ba bp (replicate n None) [] [mkNode source None] ps0 0) in *.
  pose proof (search_start_inv state maxPathLength source sourceAmount n [] ps0 ba bp Hba Hbp (start_emitted _ Hps0)) as HI. fold v0 in HI.
  pose proof (assign_slot _ _ _ _ Hba) as Sba.
  assert (Sz : forall a, id_ok n a -> a <> source -> slot ba a = Some 0).
  { intros a Ha Hna. rewrite Sba, (proj2 (Z.eqb_neq a source)) by done. unfold slot, id_ok in *.
    rewrite (proj2 (Z.ltb_ge a 0)) by lia. apply lookup_replicate. lia. }
  assert (Hsplit : seqZ 0 (totalAssets state) = seqZ 0 source ++ source :: seqZ (Z.succ source) (Z.pred (Z.of_nat n - source))).
  { rewrite Hn. unfold id_ok in Hsrc. replace (Z.of_nat n) with (source + (Z.of_nat n - source)) at 1 by lia.
    rewrite seqZ_app by lia. f_equal. rewrite seqZ_cons by lia. by rewrite Z.add_0_l. }
  rewrite Hsplit, res_fold_app in H2. apply bind_Ok in H2 as (v3 & H3 & H2).
  assert (v3 = v0) as ->.
  { rewrite visit_assets_skip in H3; [congruence|]. intros a Hin%elem_of_seqZ. apply Sz; unfold id_ok in *; lia. }
  cbn [res_fold] in H2. apply bind_Ok in H2 as (v4 & H4 & H2). unfold visit_asset in H4.
  change (bestAmount v0) with ba in H4. change (bestPath v0) with bp in H4.
  assert (Hs1 : slot ba source = Some sourceAmount) by (by rewrite Sba, Z.eqb_refl).
  assert (Hs2 : slot bp source = Some (Some 0%nat)) by (by rewrite (assign_slot _ _ _ _ Hbp), Z.eqb_refl).
  unfold amount64 in Ham.
  rewrite (proj2 (index_slot _ _ _) Hs1), bind_Ok_l, (proj2 (Z.eqb_neq sourceAmount 0)) in H4 by lia.
  rewrite (proj2 (index_slot _ _ _) Hs2), bind_Ok_l, Hes, bind_Ok_l in H4.
  apply list_elem_of_split in Hx as (es1 & es2 & ->). rewrite res_fold_app in H4. apply bind_Ok in H4 as (v5 & H5 & H4).
  cbn [res_fold] in H4. apply bind_Ok in H4 as (v6 & H6 & H4).
  assert (Hd0 : denotes (heap v0) (Some 0%nat) (reverse ([] ++ [source]))).
  { change (reverse ([] ++ [source])) with [pn_asset (mkNode source None)]. constructor; [done|constructor]. }
  destruct (visit_edges_inv no_cancel state maxPathLength source sourceAmount (0 =? maxPathLength - 1) [] 1 1 source sourceAmount 0%nat []
    (es1 ++ x :: es2) es1 v0 v5) as [HI5 (F1 & F2 & F3)]; try done; try lia; try apply route_start.
  { intros y Hy. apply elem_of_app. by left. }
  assert (Hk1 : key x ∉ map key es1).
  { rewrite map_app in Hnd. apply NoDup_app in Hnd as (_ & Hnd & _). intros Hin. apply (Hnd _ Hin). left. }
  assert (Hu5 : slot (updateAmount v5) (key x) = Some 0).
  { rewrite (visit_edges_updates _ _ _ _ _ _ _ _ _ Hk1 H5). by apply Sz. }
  exists (found v5), (found v6). split.
  - eapply (visit_edge_reports (0 =? maxPathLength - 1) v5 x r v6); try done; [by apply HI5|by apply F1; [lia|]|].
    rewrite F2. by apply Sz.
  - intros p Hp. eapply (fold_grows _ (round_grows no_cancel)); [exact Hrest|].
    assert (Hp2 : p ∈ found v2).
    { eapply (fold_grows _ (visit_asset_grows no_cancel _)); [exact H2|].
      by eapply (fold_grows _ (visit_edge_grows no_cancel _ _ _ _)); [exact H4|]. }
    destruct (0 <? _); [|by injection H1 as <-]. by eapply (fold_grows _ commit_asset_grows); [exact H1|].
Qed.

End Direct.

(** ** The assets of a query *)

(** [id] is among the assets given to FindPaths, with balance [b]: that of its last
    occurrence. *)
Definition offered (g : OrderBookGraph) (assets : list Asset.t) (balances : list Z) (id b : Z) : Prop :=
  exists i a, assets !! i = Some a /\ assetStringToID g !! Asset.String_ a = Some id /\ balances !! i = Some b /\
    forall j a', (i < j)%nat -> assets !! j = Some a' -> assetStringToID g !! Asset.String_ a' <> Some id.

Lemma sourceAssetsMap_elem g id b assets : forall balances i m m', 0 <= i -> sourceAssetsMap g assets balances i m = Ok m' ->
  m' !! id = Some b <->
  offered g assets (drop (Z.to_nat i) balances) id b \/
  (m !! id = Some b /\ forall j a, assets !! j = Some a -> assetStringToID g !! Asset.String_ a <> Some id).
Proof.
  induction assets as [|a assets IH]; intros balances i m m' Hi; cbn [sourceAssetsMap].
  { intros [= <-]. unfold offered. split; [by right|]. by intros [(? & ? & ? & _)|[? _]]. }
  intros H.
  assert (Hoff : offered g (a :: assets) (drop (Z.to_nat i) balances) id b <->
    offered g assets (drop (Z.to_nat (i + 1)) balances) id b \/
    (assetStringToID g !! Asset.String_ a = Some id /\ drop (Z.to_nat i) balances !! 0%nat = Some b /\
     forall j a', assets !! j = Some a' -> assetStringToID g !! Asset.String_ a' <> Some id)).
  { replace (Z.to_nat (i + 1)) with (S (Z.to_nat i)) by lia. unfold offered. setoid_rewrite lookup_drop. split.
    - intros ([|k] & a0 & H1 & H2 & H3 & H4); simpl in H1.
      + right. injection H1 as <-. split_and!; [done|done|]. intros j a' Hj. by apply (H4 (S j) a'); [lia|].
      + left. exists k, a0. rewrite <- Nat.add_succ_comm in H3. split_and!; [done..|]. intros j a' Hj. apply (H4 (S j) a'). lia.
    - intros [(k & a0 & H1 & H2 & H3 & H4)|(H1 & H2 & H3)].
      + exists (S k), a0. rewrite <- Nat.add_succ_comm. split_and!; [done..|]. intros [|j] a' Hj; [lia|]. apply H4. lia.
      + exists 0%nat, a. split_and!; [done..|]. intros [|j] a' Hj; [lia|]. apply H3. }
  assert (Hall : (forall j a', (a :: assets) !! j = Some a' -> assetStringToID g !! Asset.String_ a' <> Some id) <->
    assetStringToID g !! Asset.String_ a <> Some id /\
    (forall j a', assets !! j = Some a' -> assetStringToID g !! Asset.String_ a' <> Some id)).
  { split; [|intros [H1 H2] [|j] a'; simpl; [by intros [= <-]|apply H2]].
    intros Hj. split; [by apply (Hj 0%nat)|]. intros j. apply (Hj (S j)). }
  rewrite Hoff, Hall. destruct (assetStringToID g !! Asset.String_ a) as [id'|] eqn:Ea.
  - apply bind_Ok in H as (b' & Hb' & H). rewrite (IH balances (i + 1) _ m' ltac:(lia) H). rewrite lookup_drop, Nat.add_0_r.
    apply index_slot in Hb'. unfold slot in Hb'. rewrite (proj2 (Z.ltb_ge i 0)) in Hb' by lia. rewrite Hb'.
    destruct (decide (id' = id)) as [->|Hne]; [rewrite lookup_insert_eq|rewrite lookup_insert_ne by done]; naive_solver.
  - rewrite (IH balances (i + 1) m m' ltac:(lia) H). naive_solver.
Qed.

Lemma destination_targets_elem g assets id :
  id ∈ destination_targets g assets <-> exists a, a ∈ assets /\ assetStringToID g !! Asset.String_ a = Some id.
Proof.
  unfold destination_targets. assert (Hgen : forall t : gset Z,
    id ∈ fold_left (fun t a => match assetStringToID g !! Asset.String_ a with Some i => {[i]} ∪ t | None => t end) assets t <->
    id ∈ t \/ exists a, a ∈ assets /\ assetStringToID g !! Asset.String_ a = Some id).
  { induction assets as [|a assets IH]; intros t; cbn [fold_left].
    - setoid_rewrite elem_of_nil. naive_solver.
    - rewrite IH. setoid_rewrite elem_of_cons. destruct (assetStringToID g !! Asset.String_ a) as [i|] eqn:Ea; set_solver. }
  rewrite Hgen. set_solver.
Qed.

(** ** The exported queries *)

Section Queries.
Context `{UO : Uint256Ops} {UL : Uint256Laws}.
Context (sortSort : (Path -> Path -> bool) -> list Path -> list Path) (sortSort_ok : sort_laws sortSort).
Context (g : OrderBookGraph) (O : offer_map) (P : pool_map).
Hypotheses (HR : repr g O P) (HB : book_sane O P) (Hroom : room (length (idToAssetString g))).

Definition named (ids : list Z) (names : list string) : Prop :=
  Forall2 (fun id s => index (idToAssetString g) id = Ok s) ids names.

(** A path of FindPaths is genuine: trading back from the destination over edges of
    the graph, every hop at the best quote, costs the source amount; the route has
    distinct assets and at most maxPathLength - 1 interior ones, ends in an asset the
    caller has (and has enough of, if asked), and is named in trading order. *)
Definition genuine_source (maxPathLength : Z) (dst : Asset.t) (amount : Z) (account : option AccountId.t)
  (assets : list Asset.t) (balances : list Z) (validate pools : bool) (p : Path) : Prop :=
  exists dest l a b, assetStringToID g !! Asset.String_ dst = Some dest /\
    priced_route (E (venuesForSellingAsset g)) Z.le (buy_quotes account pools) dest amount (l ++ [a]) (SourceAmount p) /\
    NoDup (l ++ [a]) /\ Z.of_nat (length (InteriorNodes p)) <= Z.max 0 (maxPathLength - 1) /\
    offered g assets balances a b /\ (validate = true -> SourceAmount p <= b) /\
    named [a] [SourceAsset p] /\ named (reverse (interior (l ++ [a]))) (InteriorNodes p) /\
    DestinationAsset p = Asset.String_ dst /\ DestinationAmount p = amount.

(** The same for FindFixedPaths, from the source on, for what is received. *)
Definition genuine_destination (maxPathLength : Z) (src : Asset.t) (amount : Z) (assets : list Asset.t) (pools : bool) (p : Path) : Prop :=
  exists source l a asset, assetStringToID g !! Asset.String_ src = Some source /\
    priced_route (E (venuesForBuyingAsset g)) Z.ge (sell_quotes pools) source amount (l ++ [a]) (DestinationAmount p) /\
    NoDup (l ++ [a]) /\ Z.of_nat (length (InteriorNodes p)) <= Z.max 0 (maxPathLength - 1) /\
    asset ∈ assets /\ assetStringToID g !! Asset.String_ asset = Some a /\
    named [a] [DestinationAsset p] /\ named (interior (l ++ [a])) (InteriorNodes p) /\
    SourceAsset p = Asset.String_ src /\ SourceAmount p = amount.

Lemma table_lookup tbl a es : index tbl a = Ok es -> es = E tbl a.
Proof.
  intros H. assert (id_ok (length tbl) a) as Ha.
  { apply index_slot in H. unfold slot in H. destruct (Z.ltb_spec a 0); [done|]. apply lookup_lt_Some in H. unfold id_ok. lia. }
  rewrite index_E in H by exact Ha. congruence.
Qed.

Section Source.
Context (maxPathLength : Z) (dst : Asset.t) (amount : Z) (account : option AccountId.t)
  (assets : list Asset.t) (balances : list Z) (validate pools : bool) (dest : Z) (sources : gmap Z Z).
Hypothesis Hfit : forall a x, x ∈ E (venuesForSellingAsset g) a -> offers_cost (offers (value x)) <= MaxInt64.
Hypothesis Ha : amount64 amount.
Hypothesis Hdest : assetStringToID g !! Asset.String_ dst = Some dest.
Hypothesis Hsources : sourceAssetsMap g assets balances 0 ∅ = Ok sources.
Let st := mkSelling g (Asset.String_ dst) amount account sources validate pools.

Lemma sources_offered id b : sources !! id = Some b <-> offered g assets balances id b.
Proof.
  rewrite (sourceAssetsMap_elem g id b assets balances 0 ∅ sources ltac:(lia) Hsources), drop_0, lookup_empty. naive_solver.
Qed.

Lemma selling_path_genuine p : selling_path st maxPathLength dest p ->
  genuine_source maxPathLength dst amount account assets balances validate pools p.
Proof.
  intros (l & a & Hr & Hnd & Hlen & Hinc & Hname & Hint & H1 & H2).
  unfold selling_includePath in Hinc. cbn [s_targetAssets validateSourceBalance st] in Hinc.
  destruct (sources !! a) as [b|] eqn:Eb; [|done]. apply sources_offered in Eb.
  exists dest, l, a, b. split_and!; try done.
  - eapply (route_priced (sellingSearch st) (length (idToAssetString g))); [by eapply selling_searchable| |exact Ha| | |exact Hr].
    + by apply (sid_range _ _ _ _ (proj1 HR)) in Hdest as [? _].
    + intros c es. apply table_lookup.
    + intros c x amt _ Hx Hamt. destruct (edge_facts g O P HR HB c x) as [Ht _]; [by left|].
      apply selling_price; [done|done|by eapply Hfit].
  - intros ->. cbn [negb orb] in Hinc. zbool. lia.
  - by repeat constructor.
Qed.

Lemma selling_direct ps id b x q : 1 <= maxPathLength ->
  search no_cancel (sellingSearch st) maxPathLength dest amount [] = Ok ps ->
  offered g assets balances id b -> id <> dest -> x ∈ E (venuesForSellingAsset g) dest -> key x = id ->
  q ∈ buy_quotes account pools dest amount (value x) -> (validate = true -> q <= b) ->
  exists p, p ∈ ps /\ named [id] [SourceAsset p] /\ SourceAmount p <= q.
Proof.
  intros Hmax Hps Hoff Hne Hx Hk Hq Hval. destruct (edge_facts g O P HR HB dest x) as [Ht Hid]; [by left|].
  destruct (selling_price st dest amount (value x) Ha Ht (Hfit _ _ Hx)) as (r & Hr & Hbest & Hpos).
  cbn [ignoreOffersFrom s_includePools st] in Hbest, Hpos. assert (Hr0 : 0 < r) by (apply Hpos; intros E; by rewrite E in Hq; apply elem_of_nil in Hq).
  destruct (Hbest Hr0) as [_ Hle]. specialize (Hle q Hq). apply sources_offered in Hoff. pose proof HR as [HI HC].
  assert (Hd : id_ok (length (idToAssetString g)) dest) by (by apply (sid_range _ _ _ _ HI) in Hdest as [? _]).
  destruct (search_direct (sellingSearch st) maxPathLength dest amount) with (n := length (idToAssetString g))
    (es := E (venuesForSellingAsset g) dest) (x := x) (r := r) (ps := ps) as (ps1 & ps2 & Happ & Hsub); try done.
  - intros ps' path a amt ps'' H p Hp. cbn [appendToPaths sellingSearch] in H. unfold selling_appendToPaths in H.
    apply bind_Ok in H as (? & _ & H). apply bind_Ok in H as (? & _ & [= <-]). apply elem_of_app. by left.
  - by apply room_int32.
  - cbn [venues sellingSearch]. apply index_E. by rewrite (n_sell _ _ HI).
  - apply HC.
  - by rewrite Hk.
  - apply bool_decide_eq_true. cbn [s_targetAssets st]. rewrite Hk. by eexists.
  - cbn [includePath sellingSearch]. unfold selling_includePath. cbn [s_targetAssets validateSourceBalance st].
    rewrite Hk, Hoff. destruct validate; [|done]. specialize (Hval eq_refl). cbn [negb orb]. zbool. lia.
  - cbn [appendToPaths sellingSearch] in Happ. unfold selling_appendToPaths in Happ. cbn [length Nat.ltb Nat.leb] in Happ.
    apply bind_Ok in Happ as (s & Hs & Happ). apply bind_Ok in Happ as (nodes & _ & [= <-]). cbn [s_graph st] in Hs.
    eexists. split; [apply Hsub, elem_of_app; right; by apply list_elem_of_singleton|]. cbn [SourceAsset SourceAmount]. rewrite <- Hk.
    split; [by repeat constructor|lia].
Qed.

End Source.

Section Destination.
Context (maxPathLength : Z) (src : Asset.t) (amount : Z) (assets : list Asset.t) (pools : bool) (source : Z).
Hypothesis Hfit : forall a x, x ∈ E (venuesForBuyingAsset g) a -> offers_amount (offers (value x)) <= MaxInt64.
Hypothesis Ha : amount64 amount.
Hypothesis Hsource : assetStringToID g !! Asset.String_ src = Some source.
Let st := mkBuying g (Asset.String_ src) amount (destination_targets g assets) pools.

Lemma buying_path_genuine p : buying_path st maxPathLength source p ->
  genuine_destination maxPathLength src amount assets pools p.
Proof.
  intros (l & a & Hr & Hnd & Hlen & Hin & Hname & Hint & H1 & H2).
  cbn [b_targetAssets st] in Hin. apply destination_targets_elem in Hin as (asset & Hasset & Hid).
  exists source, l, a, asset. split_and!; try done.
  - eapply (route_priced (buyingSearch st) (length (idToAssetString g))); [by eapply buying_searchable| |exact Ha| | |exact Hr].
    + by apply (sid_range _ _ _ _ (proj1 HR)) in Hsource as [? _].
    + intros c es. apply table_lookup.
    + intros c x amt _ Hx Hamt. destruct (edge_facts g O P HR HB c x) as [Ht _]; [by right|].
      apply buying_price; [done|done|by eapply Hfit].
  - by repeat constructor.
Qed.

Lemma buying_direct ps asset id x q : 1 <= maxPathLength ->
  search no_cancel (buyingSearch st) maxPathLength source amount [] = Ok ps ->
  asset ∈ assets -> assetStringToID g !! Asset.String_ asset = Some id -> id <> source ->
  x ∈ E (venuesForBuyingAsset g) source -> key x = id -> q ∈ sell_quotes pools source amount (value x) ->
  exists p, p ∈ ps /\ named [id] [DestinationAsset p] /\ q <= DestinationAmount p.
Proof.
  intros Hmax Hps Hasset Hid Hne Hx Hk Hq. destruct (edge_facts g O P HR HB source x) as [Ht Hidx]; [by right|].
  destruct (buying_price st source amount (value x) Ha Ht (Hfit _ _ Hx)) as (r & Hr & Hbest & Hpos).
  cbn [b_includePools st] in Hbest, Hpos. assert (Hr0 : 0 < r) by (apply Hpos; intros E; by rewrite E in Hq; apply elem_of_nil in Hq).
  destruct (Hbest Hr0) as [_ Hle]. specialize (Hle q Hq). pose proof HR as [HI HC].
  assert (Htgt : id ∈ destination_targets g assets) by (apply destination_targets_elem; by exists asset).
  assert (Hd : id_ok (length (idToAssetString g)) source) by (by apply (sid_range _ _ _ _ HI) in Hsource as [? _]).
  destruct (search_direct (buyingSearch st) maxPathLength source amount) with (n := length (idToAssetString g))
    (es := E (venuesForBuyingAsset g) source) (x := x) (r := r) (ps := ps) as (ps1 & ps2 & Happ & Hsub); try done.
  - intros ps' path a amt ps'' H p Hp. cbn [appendToPaths buyingSearch] in H. unfold buying_appendToPaths in H.
    apply bind_Ok in H as (? & _ & H). apply bind_Ok in H as (? & _ & [= <-]). apply elem_of_app. by left.
  - by apply room_int32.
  - cbn [venues buyingSearch]. apply index_E. by rewrite (n_buy _ _ HI).
  - apply HC.
  - by rewrite Hk.
  - cbn [betterPathAmount buyingSearch]. zbool. lia.
  - apply bool_decide_eq_true. by rewrite Hk.
  - apply bool_decide_eq_true. by rewrite Hk.
  - cbn [appendToPaths buyingSearch] in Happ. unfold buying_appendToPaths in Happ.
    apply bind_Ok in Happ as (nodes & _ & Happ). apply bind_Ok in Happ as (s & Hs & [= <-]). cbn [b_graph st] in Hs.
    eexists. split; [apply Hsub, elem_of_app; right; by apply list_elem_of_singleton|]. cbn [DestinationAsset DestinationAmount]. rewrite <- Hk.
    split; [by repeat constructor|lia].
Qed.

End Destination.

(** What sorting and limiting keep of the paths found. *)
Lemma ordered_ext less less' (l : list Path) : (forall p q, less p q = less' p q) -> ordered_by less l -> ordered_by less' l.
Proof. intros H Ho i j x y. rewrite <- H. apply Ho. Qed.

(** C3: FindPaths, for a graph that represents a book of valid entries no edge of
    which has offers costing more than an int64 holds together. Whatever the context
    does, the result of a query has the graph's ledger, is ordered by source asset, then
    amount, then number of hops, has at most max(1, maxAssetsPerPath) paths per source
    asset, and every path of it is genuine: a chain of distinct assets over edges of the
    graph, of at most maxPathLength - 1 interior assets, from an asset the caller has
    (with a sufficient balance if asked) to the destination, whose source amount is
    obtained by taking at every hop the cheapest quote of the edge, the offers consumed
    in order or the pool by its formula in exact integers. An uncancelled query returns,
    and for every asset of the caller with a direct quote it can pay returns a path that
    costs no more than the quote. *)
Theorem FindPaths_correct (maxPathLength : Z) (dst : Asset.t) (amount : Z) (account : option AccountId.t)
  (assets : list Asset.t) (balances : list Z) (validate : bool) (maxp : Z) (pools : bool)
  (Ha : amount64 amount) (Hl : (length assets <= length balances)%nat)
  (Hfit : forall a x, x ∈ E (venuesForSellingAsset g) a -> offers_cost (offers (value x)) <= MaxInt64) :
  (forall ctx paths ledger,
     FindPaths sortSort ctx g maxPathLength dst amount account assets balances validate maxp pools = Ok (paths, ledger) ->
     ledger = lastLedger g /\ ordered_by (lex SourceAsset SourceAmount) paths /\
     (forall s, count SourceAsset s paths <= Z.max 1 maxp) /\
     forall p, p ∈ paths -> genuine_source maxPathLength dst amount account assets balances validate pools p) /\
  (exists paths,
     FindPaths sortSort no_cancel g maxPathLength dst amount account assets balances validate maxp pools = Ok (paths, lastLedger g) /\
     forall dest id b x q, 1 <= maxPathLength -> assetStringToID g !! Asset.String_ dst = Some dest ->
       offered g assets balances id b -> id <> dest -> x ∈ E (venuesForSellingAsset g) dest -> key x = id ->
       q ∈ buy_quotes account pools dest amount (value x) -> (validate = true -> q <= b) ->
       exists p, p ∈ paths /\ named [id] [SourceAsset p] /\ SourceAmount p <= q).
Proof.
  split.
  - intros ctx paths ledger. unfold FindPaths. intros ([all l] & H1 & H2)%bind_Ok. apply wrap_Ok in H1.
    apply bind_Ok in H2 as (out & Hout & [= <- <-]).
    destruct (sortBySource_elem sortSort sortSort_ok _ _ _ Hout) as (Hsub & Hord & Hcnt & _).
    apply (ordered_ext _ _ _ compareSource_lex) in Hord. unfold findPathsWithLock in H1.
    apply bind_Ok in H1 as (sources & Hsrc & H1).
    assert (Hnone : all = [] -> forall p, p ∈ out -> genuine_source maxPathLength dst amount account assets balances validate pools p).
    { intros -> p Hp%Hsub. by apply elem_of_nil in Hp. }
    destruct (assetStringToID g !! Asset.String_ dst) as [dest|] eqn:Ed; [|injection H1 as <- <-; by auto].
    destruct (Nat.eqb (size sources) 0); [injection H1 as <- <-; by auto|].
    apply bind_Ok in H1 as (ps & Hps & [= <- <-]). split_and!; [done..|]. intros p Hp%Hsub.
    apply search_emitted, selling_emitted in Hps. rewrite Forall_forall in Hps. by eapply selling_path_genuine, Hps.
  - unfold FindPaths, findPathsWithLock.
    destruct (sources_total g assets balances 0 ∅ ltac:(lia) ltac:(lia)) as [sources Hsrc]. rewrite Hsrc, bind_Ok_l.
    destruct (assetStringToID g !! Asset.String_ dst) as [dest|] eqn:Ed; [|by eexists; split; [done|]].
    destruct (Nat.eqb_spec (size sources) 0) as [E0|_].
    { eexists. split; [done|]. intros ? id b ? ? _ _ Hoff. exfalso. apply (sources_offered _ _ _ Hsrc) in Hoff.
      apply map_size_empty_iff in E0. by rewrite E0, lookup_empty in Hoff. }
    destruct (search_total (sellingSearch (mkSelling g (Asset.String_ dst) amount account sources validate pools))
      maxPathLength dest amount (length (idToAssetString g))) with (ps0 := @nil Path) as [ps Hps];
      [by eapply selling_searchable|by apply (sid_range _ _ _ _ (proj1 HR)) in Ed as [? _]|done|].
    rewrite Hps, bind_Ok_l. unfold wrap_error. rewrite bind_Ok_l.
    destruct (sortAndFilterPaths_spec sortSort sortSort_ok ps maxp) as [(out & Hout & (_ & _ & _ & Hkeep)) _].
    rewrite Hout, bind_Ok_l. exists out. split; [done|]. intros dest' id b x q Hmax [= <-] Hoff Hne Hx Hk Hq Hval.
    destruct (selling_direct maxPathLength dst amount account assets balances validate pools dest sources Hfit Ha Ed Hsrc
      ps id b x q Hmax Hps Hoff Hne Hx Hk Hq Hval) as (p & Hp & Hname & Hle).
    destruct (Hkeep p Hp) as (p' & Hp' & Hkey & Hless). exists p'. split; [done|]. rewrite Hkey. split; [done|].
    unfold compareSourceAsset in Hless. rewrite <- Hkey, String.eqb_refl in Hless.
    destruct (Z.eqb_spec (SourceAmount p) (SourceAmount p')); zbool; lia.
Qed.

(** C25: FindFixedPaths, for a graph that represents a book of valid entries no edge of
    which has offers selling more than an int64 holds together. Whatever the context
    does, the result of a query has the graph's ledger, is ordered by destination asset,
    then from the largest amount, then by number of hops, has at most
    max(1, maxAssetsPerPath) paths per destination asset, and every path of it is
    genuine: a chain of distinct assets over edges of the graph, of at most
    maxPathLength - 1 interior assets, from the source to one of the destination assets,
    whose destination amount is obtained by taking at every hop the best quote of the
    edge, the offers consumed in order or the pool by its formula in exact integers.
    An uncancelled query returns, and for every destination asset with a direct quote
    returns a path that pays at least the quote. *)
Theorem FindFixedPaths_correct (maxPathLength : Z) (src : Asset.t) (amount : Z)
  (assets : list Asset.t) (maxp : Z) (pools : bool) (Ha : amount64 amount)
  (Hfit : forall a x, x ∈ E (venuesForBuyingAsset g) a -> offers_amount (offers (value x)) <= MaxInt64) :
  (forall ctx paths ledger,
     FindFixedPaths sortSort ctx g maxPathLength src amount assets maxp pools = Ok (paths, ledger) ->
     ledger = lastLedger g /\ ordered_by (lex DestinationAsset (fun p => - DestinationAmount p)) paths /\
     (forall s, count DestinationAsset s paths <= Z.max 1 maxp) /\
     forall p, p ∈ paths -> genuine_destination maxPathLength src amount assets pools p) /\
  (exists paths,
     FindFixedPaths sortSort no_cancel g maxPathLength src amount assets maxp pools = Ok (paths, lastLedger g) /\
     forall source asset id x q, 1 <= maxPathLength -> assetStringToID g !! Asset.String_ src = Some source ->
       asset ∈ assets -> assetStringToID g !! Asset.String_ asset = Some id -> id <> source ->
       x ∈ E (venuesForBuyingAsset g) source -> key x = id -> q ∈ sell_quotes pools source amount (value x) ->
       exists p, p ∈ paths /\ named [id] [DestinationAsset p] /\ q <= DestinationAmount p).
Proof.
  split.
  - intros ctx paths ledger. unfold FindFixedPaths. intros ([all l] & H1 & H2)%bind_Ok. apply wrap_Ok in H1.
    apply bind_Ok in H2 as (out & Hout & [= <- <-]).
    destruct (sortByDestination_elem sortSort sortSort_ok _ _ _ Hout) as (Hsub & Hord & Hcnt & _).
    apply (ordered_ext _ _ _ compareDestination_lex) in Hord. unfold findFixedPathsWithLock in H1.
    assert (Hnone : all = [] -> forall p, p ∈ out -> genuine_destination maxPathLength src amount assets pools p).
    { intros -> p Hp%Hsub. by apply elem_of_nil in Hp. }
    destruct (assetStringToID g !! Asset.String_ src) as [source|] eqn:Ed; [|injection H1 as <- <-; by auto].
    destruct (Nat.eqb _ 0); [injection H1 as <- <-; by auto|].
    apply bind_Ok in H1 as (ps & Hps & [= <- <-]). split_and!; [done..|]. intros p Hp%Hsub.
    apply search_emitted, buying_emitted in Hps. rewrite Forall_forall in Hps. by eapply buying_path_genuine, Hps.
  - unfold FindFixedPaths, findFixedPathsWithLock.
    destruct (assetStringToID g !! Asset.String_ src) as [source|] eqn:Ed; [|by eexists; split; [done|]].
    destruct (Nat.eqb_spec (size (destination_targets g assets)) 0) as [E0|_].
    { eexists. split; [done|]. intros ? asset id ? ? _ _ Hin Hid. exfalso. apply size_empty_inv in E0.
      apply (not_elem_of_empty (C := gset Z) id). rewrite <- E0. apply destination_targets_elem. by exists asset. }
    destruct (search_total (buyingSearch (mkBuying g (Asset.String_ src) amount (destination_targets g assets) pools))
      maxPathLength source amount (length (idToAssetString g))) with (ps0 := @nil Path) as [ps Hps];
      [by eapply buying_searchable|by apply (sid_range _ _ _ _ (proj1 HR)) in Ed as [? _]|done|].
    rewrite Hps, bind_Ok_l. unfold wrap_error. rewrite bind_Ok_l.
    destruct (sortAndFilterPaths_spec sortSort sortSort_ok ps maxp) as [_ [(out & Hout & (_ & _ & _ & Hkeep)) _]].
    rewrite Hout, bind_Ok_l. exists out. split; [done|]. intros source' asset id x q Hmax [= <-] Hin Hid Hne Hx Hk Hq.
    destruct (buying_direct maxPathLength src amount assets pools source Hfit Ha Ed
      ps asset id x q Hmax Hps Hin Hid Hne Hx Hk Hq) as (p & Hp & Hname & Hle).
    destruct (Hkeep p Hp) as (p' & Hp' & Hkey & Hless). exists p'. split; [done|]. rewrite Hkey. split; [done|].
    unfold compareDestinationAsset in Hless. rewrite <- Hkey, String.eqb_refl in Hless.
    destruct (Z.eqb_spec (DestinationAmount p) (DestinationAmount p')); zbool; lia.
Qed.

End Queries.

(** ** Witnesses *)

Lemma table_fits (f : Venues -> Z) tbl : forallb (forallb (fun x => f (value x) <=? MaxInt64)) tbl = true ->
  forall a x, x ∈ E tbl a -> f (value x) <= MaxInt64.
Proof.
  intros H a x Hx. unfold E in Hx. destruct (a <? 0); [by apply elem_of_nil in Hx|].
  destruct (tbl !! Z.to_nat a) as [es|] eqn:Ees; [|by apply elem_of_nil in Hx]. cbn [default from_option id] in Hx.
  apply list_elem_of_lookup_2, list_elem_of_In in Ees. rewrite forallb_forall in H. apply H in Ees. rewrite forallb_forall in Ees.
  apply list_elem_of_In, Ees in Hx. by apply Z.leb_le.
Qed.

(** The edges of the sample book: native is paid for usd. *)
Definition first_edge (tbl : list edgeSet) (a : Z) : edge := default (mkEdge 0 noVenues false) (E tbl a !! 0%nat).

Lemma first_edge_elem tbl a : bool_decide (E tbl a = []) = false -> first_edge tbl a ∈ E tbl a.
Proof. intros H%bool_decide_eq_false. unfold first_edge. destruct (E tbl a); [done|left]. Qed.

Lemma sample_offered : offered sample_book [Asset.Native] [1000] 0 1000.
Proof. exists 0%nat, Asset.Native. split_and!; [done|vm_compute; reflexivity|done|]. intros [|j] a Hj H; [lia|discriminate H]. Qed.

Lemma FindPaths_correct_witness :
  exists paths, FindPaths (UO := uint256_Z) insertion_sort no_cancel sample_book 5 Asset.usd 3 None
      [Asset.Native] [1000] true 5 true = Ok (paths, 5) /\ map SourceAmount paths = [6] /\
    (forall p, p ∈ paths -> genuine_source sample_book 5 Asset.usd 3 None [Asset.Native] [1000] true true p) /\
    exists p, p ∈ paths /\ named sample_book [0] [SourceAsset p] /\ SourceAmount p <= 6.
Proof.
  destruct (FindPaths_correct (UO := uint256_Z) (UL := uint256_Z_laws) insertion_sort insertion_sort_laws
    sample_book _ ∅ sample_book_repr sample_book_sane ltac:(vm_compute; reflexivity) 5 Asset.usd 3 None [Asset.Native] [1000] true 5 true
    ltac:(unfold amount64; lia) ltac:(simpl; lia)
    (table_fits (fun v => offers_cost (offers v)) (venuesForSellingAsset sample_book) ltac:(vm_compute; reflexivity)))
    as [Hsound (paths & H & Hdirect)].
  exists paths. split; [exact H|]. split; [vm_compute in H; injection H as <-; reflexivity|].
  split; [apply (Hsound no_cancel paths 5 H)|].
  apply (Hdirect 1 0 1000 (first_edge (venuesForSellingAsset sample_book) 1) 6 ltac:(lia)).
  - vm_compute. reflexivity.
  - exact sample_offered.
  - lia.
  - apply first_edge_elem. vm_compute. reflexivity.
  - vm_compute. reflexivity.
  - assert (E6 : buy_quotes None true 1 3 (value (first_edge (venuesForSellingAsset sample_book) 1)) = [6]) by (vm_compute; reflexivity).
    rewrite E6. left.
  - lia.
Defined.

Lemma FindFixedPaths_correct_witness :
  exists paths, FindFixedPaths (UO := uint256_Z) insertion_sort no_cancel sample_book 5 Asset.Native 10
      [Asset.usd] 5 true = Ok (paths, 5) /\ map DestinationAmount paths = [5] /\
    (forall p, p ∈ paths -> genuine_destination sample_book 5 Asset.Native 10 [Asset.usd] true p) /\
    exists p, p ∈ paths /\ named sample_book [1] [DestinationAsset p] /\ 5 <= DestinationAmount p.
Proof.
  destruct (FindFixedPaths_correct (UO := uint256_Z) (UL := uint256_Z_laws) insertion_sort insertion_sort_laws
    sample_book _ ∅ sample_book_repr sample_book_sane ltac:(vm_compute; reflexivity) 5 Asset.Native 10 [Asset.usd] 5 true
    ltac:(unfold amount64; lia)
    (table_fits (fun v => offers_amount (offers v)) (venuesForBuyingAsset sample_book) ltac:(vm_compute; reflexivity)))
    as [Hsound (paths & H & Hdirect)].
  exists paths. split; [exact H|]. split; [vm_compute in H; injection H as <-; reflexivity|].
  split; [apply (Hsound no_cancel paths 5 H)|].
  apply (Hdirect 0 Asset.usd 1 (first_edge (venuesForBuyingAsset sample_book) 0) 5 ltac:(lia)).
  - vm_compute. reflexivity.
  - left.
  - vm_compute. reflexivity.
  - lia.
  - apply first_edge_elem. vm_compute. reflexivity.
  - vm_compute. reflexivity.
  - assert (E5 : sell_quotes true 0 10 (value (first_edge (venuesForBuyingAsset sample_book) 0)) = [5]) by (vm_compute; reflexivity).
    rewrite E5. left.
Defined.

End PathPrices.
