(* ===== verification/Checkpoints.v ===== *)
(** * Checkpoints of a history archive (historyarchive/range.go, dirprefix.go)

    A history archive publishes one checkpoint every [checkpointFreq] ledgers.
    This file models the arithmetic on [uint32] ledger sequences that finds the
    checkpoint of a ledger, the ranges of ledgers and of checkpoints, and the
    directory prefixes that have to be walked for a range. *)
From S2P Require Import Prelude Price.
From Stdlib Require Import Sorted.
Local Open Scope Z_scope.
Import Ordered.

Module Checkpoints.

Definition DefaultCheckpointFrequency : Z := 64.

Record Range := mkRange { Low : Z; High : Z }.

Record CheckpointManager := mkCheckpointManager { checkpointFreq : Z }.

#[global] Instance Range_eq_dec : EqDecision Range.
Proof. solve_decision. Defined.

Definition NewCheckpointManager (checkpointFrequency : Z) : CheckpointManager :=
  mkCheckpointManager (if checkpointFrequency =? 0 then DefaultCheckpointFrequency
                       else checkpointFrequency).

Definition GetCheckpointFrequency (c : CheckpointManager) : Z := checkpointFreq c.

(** Go's [/] and [%] panic on a zero divisor, which a [CheckpointManager{}] has. *)
Definition divide (a b : Z) : res Z :=
  if b =? 0 then Panic "integer divide by zero" else Ok (a / b).
Definition modulo (a b : Z) : res Z :=
  if b =? 0 then Panic "integer divide by zero" else Ok (a mod b).

Definition IsCheckpoint (c : CheckpointManager) (i : Z) : res bool :=
  r ← modulo (to_uint32 (i + 1)) (checkpointFreq c); Ok (r =? 0).

Definition PrevCheckpoint (c : CheckpointManager) (i : Z) : res Z :=
  let freq := checkpointFreq c in
  if i <? freq then Ok (to_uint32 (freq - 1)) else
  q ← divide (to_uint32 (i + 1)) freq;
  Ok (to_uint32 (to_uint32 (q * freq) - 1)).

Definition NextCheckpoint (c : CheckpointManager) (i : Z) : res Z :=
  if i =? 0 then Ok (to_uint32 (checkpointFreq c - 1)) else
  let freq := checkpointFreq c in
  let v := i in
  q ← divide (to_uint64 (v + freq)) freq;
  let n := to_uint64 (to_uint64 (q * freq) - 1) in
  Ok (to_uint32 (Min n 0xffffffff)).

Definition GetCheckpoint (c : CheckpointManager) (i : Z) : res Z := NextCheckpoint c i.

Definition GetCheckpointRange (c : CheckpointManager) (i : Z) : res Range :=
  checkpoint ← GetCheckpoint c i;
  let low := to_uint32 (to_uint32 (checkpoint - checkpointFreq c) + 1) in
  let low := if low =? 0 then to_uint32 (low + 1) else low in
  Ok (mkRange low checkpoint).

Definition MakeRange (c : CheckpointManager) (low high : Z) : res Range :=
  let high := Max high low in
  l ← PrevCheckpoint c low;
  h ← NextCheckpoint c high;
  Ok (mkRange l h).

Definition clamp (r other : Range) (cManager : CheckpointManager) : res Range :=
  let low := Max (Low r) (Low other) in
  let high := Min (High r) (High other) in
  MakeRange cManager low high.

(** The values the goroutine sends, in order; [None]: the loop did not end
    within the fuel.  The loop variable is a [uint64]. *)
Fixpoint checkpoints_loop (fuel : nat) (i high freq : Z) : option (list Z) :=
  match fuel with
  | O => None
  | S fuel =>
      if i <=? high then
        rest ← checkpoints_loop fuel (to_uint64 (i + freq)) high freq;
        Some (to_uint32 i :: rest)
      else Some []
  end.

Definition GenerateCheckpoints (r : Range) (cManager : CheckpointManager) : option (list Z) :=
  checkpoints_loop (S (Z.to_nat (High r - Low r + 1))) (Low r) (High r) (checkpointFreq cManager).

Definition SizeInCheckPoints (r : Range) (cManager : CheckpointManager) : res Z :=
  q ← divide (to_uint32 (High r - Low r)) (checkpointFreq cManager);
  Ok (1 + q).

Definition InRange (r : Range) (sequence : Z) : bool :=
  (sequence >=? Low r) && (sequence <=? High r).

Definition Size (r : Range) : Z := to_uint32 (1 + to_uint32 (High r - Low r)).

(** ** Printing *)

Definition hex_digit (d : Z) : string :=
  String (char_of (if d <? 10 then 48 + d else 87 + d)) EmptyString.

(** [n] lower-case hexadecimal digits, as [%02x] prints a byte and [%8.8x] a [uint32]. *)
Fixpoint hex (n : nat) (v : Z) : string :=
  match n with
  | O => EmptyString
  | S n => String.append (hex n (v / 16)) (hex_digit (v mod 16))
  end.

Definition Range_String (r : Range) : string :=
  String.concat "" ["[0x"; hex 8 (Low r); ", 0x"; hex 8 (High r); "]"].

Definition collapsedString (r : Range) : string :=
  if Low r =? High r then String.append "0x" (hex 8 (Low r)) else
  String.concat "" ["[0x"; hex 8 (Low r); "-0x"; hex 8 (High r); "]"].

(** One turn of the loop over [vs]: the strings so far and [curr]. *)
Definition collapse_step (freq : Z) (st : list string * option Range) (t : Z) :
    list string * option Range :=
  let '(s, curr) := st in
  match curr with
  | Some r =>
      if to_uint32 (High r + freq) =? t then (s, Some (mkRange (Low r) t))
      else (s ++ [collapsedString r], Some (mkRange t t))
  | None => (s, Some (mkRange t t))
  end.

Definition fmtRangeList (slicesSort : list Z -> list Z) (vs : list Z)
    (cManager : CheckpointManager) : string :=
  let '(s, curr) := fold_left (collapse_step (checkpointFreq cManager)) (slicesSort vs) ([], None) in
  let s := match curr with Some r => s ++ [collapsedString r] | None => s end in
  String.concat ", " s.

(** ** Directory prefixes *)

(** [[3]uint8] *)
Abbreviation DirPrefix := (list Z).

(** [for i, b := range d]: [i] runs from the given index. *)
Fixpoint prefix_loop (i n : Z) (d : DirPrefix) : list string :=
  match d with
  | [] => []
  | b :: d => if i >? n then [] else hex 2 b :: prefix_loop (i + 1) n d
  end.

(** [path.Join] of non-empty components without dots or slashes. *)
Definition pathPrefix (d : DirPrefix) (n : Z) : string := String.concat "/" (prefix_loop 0 n d).

Definition Path (d : DirPrefix) : string := pathPrefix d (Z.of_nat (length d)).

Definition CheckpointPrefix (seq : Z) : DirPrefix :=
  [to_uint8 (Z.shiftr seq 24); to_uint8 (Z.shiftr seq 16); to_uint8 (Z.shiftr seq 8)].

(** The loop that sets [diff]: the index of the first difference, or the last index. *)
Fixpoint diff_loop (i diff : nat) (low high : DirPrefix) : nat :=
  match low, high with
  | e :: low, h :: high => if h =? e then diff_loop (S i) i low high else i
  | _, _ => diff
  end.

Definition RangePaths (r : Range) : list string :=
  let lowpre := CheckpointPrefix (Low r) in
  let highpre := CheckpointPrefix (High r) in
  let diff := diff_loop 0 0 lowpre highpre in
  let first := default 0 (lowpre !! diff) in
  let last := default 0 (highpre !! diff) in
  (fun i => pathPrefix (<[diff := to_uint8 i]> lowpre) (Z.of_nat diff)) <$>
    seqZ first (last - first + 1).

(** ** Checkpoints *)

(** A manager whose frequency is a positive [uint32], as [NewCheckpointManager] builds it. *)
Definition valid (c : CheckpointManager) : Prop := 0 < checkpointFreq c < 2 ^ 32.

Lemma NewCheckpointManager_valid f : in_uint 32 f -> valid (NewCheckpointManager f).
Proof.
  unfold valid, in_uint, NewCheckpointManager, DefaultCheckpointFrequency; simpl checkpointFreq.
  destruct (Z.eqb_spec f 0); lia.
Qed.

Lemma divide_ok a b : 0 < b -> divide a b = Ok (a / b).
Proof. intros H. unfold divide. by rewrite (proj2 (Z.eqb_neq b 0)) by lia. Qed.

Lemma modulo_ok a b : 0 < b -> modulo a b = Ok (a mod b).
Proof. intros H. unfold modulo. by rewrite (proj2 (Z.eqb_neq b 0)) by lia. Qed.

Lemma IsCheckpoint_spec c i : valid c -> in_uint 32 i ->
  IsCheckpoint c i = Ok true <->
  i = MaxUint32 \/ exists k, i + 1 = k * checkpointFreq c.
Proof.
  intros Hc Hi. unfold valid, in_uint, MaxUint32 in *. unfold IsCheckpoint.
  rewrite modulo_ok, bind_Ok_l by lia.
  destruct (Z.eq_dec i (2 ^ 32 - 1)) as [->|Hn].
  - split; [by left|]. intros _.
    replace (2 ^ 32 - 1 + 1) with (2 ^ 32) by lia. unfold uwrap.
    by rewrite Z.mod_same, Z.mod_0_l by lia.
  - rewrite uwrap_small by lia. split.
    + intros [= H]. apply Z.eqb_eq in H. right. exists ((i + 1) / checkpointFreq c).
      pose proof (Z.div_mod (i + 1) (checkpointFreq c)). lia.
    + intros [?|[k ->]]; [lia|]. by rewrite Z.mod_mul by lia.
Qed.

(** The block of [f] ledgers that holds [i] ends at [next f i]. *)
Definition next (f i : Z) : Z := (i / f + 1) * f - 1.

Lemma next_bounds f i : 0 < f -> i <= next f i < i + f.
Proof. intros Hf. unfold next. pose proof (Z.div_mod i f). pose proof (Z.mod_pos_bound i f). nia. Qed.

Lemma next_least f i k : 0 < f -> i < k * f -> next f i < k * f.
Proof.
  intros Hf H. unfold next. assert (i / f < k); [|nia].
  apply Z.div_lt_upper_bound; lia.
Qed.

Lemma NextCheckpoint_value c i : valid c -> in_uint 32 i ->
  NextCheckpoint c i = Ok (Z.min (next (checkpointFreq c) i) MaxUint32).
Proof.
  intros Hc Hi. unfold valid, in_uint in *. unfold NextCheckpoint.
  pose proof (next_bounds (checkpointFreq c) i ltac:(lia)) as Hb.
  destruct (Z.eqb_spec i 0) as [->|Hn].
  - unfold next in *. rewrite Z.div_0_l, uwrap_small by lia. unfold MaxUint32. f_equal. lia.
  - rewrite divide_ok, bind_Ok_l, (uwrap_small 64 (i + _)) by lia.
    replace ((i + checkpointFreq c) / checkpointFreq c) with (i / checkpointFreq c + 1)
      by (rewrite <- Z.div_add by lia; f_equal; lia).
    unfold next in *. rewrite (uwrap_small 64 (_ * _)) by lia.
    rewrite (uwrap_small 64) by lia. rewrite Min_min. unfold MaxUint32.
    by rewrite uwrap_small by lia.
Qed.

Lemma PrevCheckpoint_value c i : valid c -> in_uint 32 i ->
  PrevCheckpoint c i = Ok (
    if i <? checkpointFreq c then checkpointFreq c - 1
    else if i =? MaxUint32 then MaxUint32
    else (i + 1) / checkpointFreq c * checkpointFreq c - 1).
Proof.
  intros Hc Hi. unfold valid, in_uint, MaxUint32 in *. unfold PrevCheckpoint.
  destruct (Z.ltb_spec i (checkpointFreq c)); [by rewrite uwrap_small by lia|].
  rewrite divide_ok, bind_Ok_l by lia.
  destruct (Z.eqb_spec i (2 ^ 32 - 1)) as [->|Hn].
  - replace (2 ^ 32 - 1 + 1) with (2 ^ 32) by lia. unfold uwrap at 3.
    rewrite Z.mod_same, Z.div_0_l by lia. done.
  - pose proof (Z.div_mod (i + 1) (checkpointFreq c)).
    pose proof (Z.mod_pos_bound (i + 1) (checkpointFreq c)).
    rewrite (uwrap_small 32 (i + 1)) by lia.
    rewrite (uwrap_small 32 (_ * _)) by nia.
    rewrite uwrap_small; [done|]. assert (1 <= (i + 1) / checkpointFreq c); [|nia].
    apply Z.div_le_lower_bound; lia.
Qed.

Lemma checkpoint_multiple c m : valid c -> 0 <= m < MaxUint32 ->
  IsCheckpoint c m = Ok true -> exists k, m + 1 = k * checkpointFreq c.
Proof.
  intros Hc Hm H. unfold MaxUint32 in Hm.
  apply IsCheckpoint_spec in H as [->|?]; [unfold MaxUint32 in Hm; lia|done|done|unfold in_uint; lia].
Qed.

Lemma NextCheckpoint_least c i : valid c -> in_uint 32 i ->
  exists n, NextCheckpoint c i = Ok n /\ IsCheckpoint c n = Ok true /\ i <= n <= MaxUint32 /\
    forall m, i <= m <= MaxUint32 -> IsCheckpoint c m = Ok true -> n <= m.
Proof.
  intros Hc Hi. pose proof Hc as Hv. pose proof Hi as Hr. unfold valid, in_uint in Hv, Hr.
  pose proof (next_bounds (checkpointFreq c) i ltac:(lia)) as Hb.
  eexists. split; [by apply NextCheckpoint_value|]. unfold MaxUint32.
  split; [|split; [lia|]].
  - apply IsCheckpoint_spec; [done|unfold in_uint; lia|]. unfold MaxUint32.
    destruct (Z.le_ge_cases (next (checkpointFreq c) i) (2 ^ 32 - 1)); [right|left; lia].
    exists (i / checkpointFreq c + 1). rewrite Z.min_l by done. unfold next. lia.
  - intros m Hm Hk. destruct (Z.eq_dec m (2 ^ 32 - 1)); [lia|].
    apply checkpoint_multiple in Hk as [k Hk]; [|done|unfold MaxUint32; lia].
    pose proof (next_least (checkpointFreq c) i k). lia.
Qed.

Lemma PrevCheckpoint_greatest c i : valid c -> in_uint 32 i ->
  exists p, PrevCheckpoint c i = Ok p /\ IsCheckpoint c p = Ok true /\ 0 <= p <= MaxUint32 /\
    (p <= i \/ p = checkpointFreq c - 1) /\
    forall m, 0 <= m <= i -> IsCheckpoint c m = Ok true -> m <= p.
Proof.
  intros Hc Hi. pose proof Hc as Hv. pose proof Hi as Hr. unfold valid, in_uint in Hv, Hr.
  eexists. split; [by apply PrevCheckpoint_value|]. unfold MaxUint32.
  destruct (Z.ltb_spec i (checkpointFreq c)); [|destruct (Z.eqb_spec i (2 ^ 32 - 1)) as [->|Hn]].
  - split; [|split; [lia|split; [lia|intros; lia]]].
    apply IsCheckpoint_spec; [done|unfold in_uint; lia|]. right. exists 1. lia.
  - split; [|repeat split; lia]. apply IsCheckpoint_spec; [done|done|]. by left.
  - pose proof (Z.div_mod (i + 1) (checkpointFreq c)).
    pose proof (Z.mod_pos_bound (i + 1) (checkpointFreq c)).
    assert (1 <= (i + 1) / checkpointFreq c) by (apply Z.div_le_lower_bound; lia).
    split; [|split; [nia|split; [left; nia|]]].
    + apply IsCheckpoint_spec; [done|unfold in_uint; nia|]. right.
      exists ((i + 1) / checkpointFreq c). lia.
    + intros m Hm Hk. apply checkpoint_multiple in Hk as [k Hk]; [|done|unfold MaxUint32; lia].
      assert (k <= (i + 1) / checkpointFreq c) by (apply Z.div_le_lower_bound; lia). nia.
Qed.

(** [NextCheckpoint] is the least checkpoint at or after a ledger, and
    [PrevCheckpoint] the greatest one at or before it (the first checkpoint of
    all when there is none), for every frequency and every [uint32] ledger, the
    end of the [uint32] range included: there [IsCheckpoint] and both functions
    agree that the last sequence number is a checkpoint. *)
Theorem checkpoint_neighbours (c : CheckpointManager) (i : Z) (Hc : valid c) (Hi : in_uint 32 i) :
  (exists n, NextCheckpoint c i = Ok n /\ IsCheckpoint c n = Ok true /\ i <= n <= MaxUint32 /\
     forall m, i <= m <= MaxUint32 -> IsCheckpoint c m = Ok true -> n <= m) /\
  (exists p, PrevCheckpoint c i = Ok p /\ IsCheckpoint c p = Ok true /\ 0 <= p <= MaxUint32 /\
     (p <= i \/ p = checkpointFreq c - 1) /\
     forall m, 0 <= m <= i -> IsCheckpoint c m = Ok true -> m <= p).
Proof. split; [by apply NextCheckpoint_least|by apply PrevCheckpoint_greatest]. Qed.

Lemma checkpoint_neighbours_witness :
  NextCheckpoint (NewCheckpointManager 0) 64 = Ok 127 /\
  PrevCheckpoint (NewCheckpointManager 0) 64 = Ok 63 /\
  exists n, NextCheckpoint (NewCheckpointManager 0) 64 = Ok n /\
    IsCheckpoint (NewCheckpointManager 0) n = Ok true.
Proof.
  split; [done|split; [done|]].
  destruct (checkpoint_neighbours (NewCheckpointManager 0) 64) as [(n & ? & ? & _) _].
  - apply NewCheckpointManager_valid. unfold in_uint. lia.
  - unfold in_uint. lia.
  - by exists n.
Defined.

(** ** Ranges *)

Lemma InRange_spec r j : InRange r j = true <-> Low r <= j <= High r.
Proof.
  unfold InRange. rewrite Z.geb_leb, andb_true_iff, !Z.leb_le. lia.
Qed.

Lemma next_same_block f i j : 0 < f -> next f i - f < j <= next f i -> next f j = next f i.
Proof.
  intros Hf Hj. unfold next in *. f_equal. f_equal. f_equal.
  symmetry. apply Z.div_unique with (j - i / f * f); lia.
Qed.

Lemma GetCheckpointRange_value c i : valid c -> in_uint 32 i -> next (checkpointFreq c) i <= MaxUint32 ->
  GetCheckpointRange c i =
    Ok (mkRange (Z.max 1 (next (checkpointFreq c) i - checkpointFreq c + 1)) (next (checkpointFreq c) i)).
Proof.
  intros Hc Hi Hn. unfold GetCheckpointRange, GetCheckpoint.
  rewrite NextCheckpoint_value, bind_Ok_l, Z.min_l by done.
  unfold valid, in_uint, MaxUint32 in *.
  pose proof (next_bounds (checkpointFreq c) i ltac:(lia)).
  replace (to_uint32 (to_uint32 (next (checkpointFreq c) i - checkpointFreq c) + 1))
    with (next (checkpointFreq c) i - checkpointFreq c + 1).
  - destruct (Z.eqb_spec (next (checkpointFreq c) i - checkpointFreq c + 1) 0) as [->|];
      [done|]. f_equal. f_equal. unfold next in *. assert (0 <= i / checkpointFreq c) by (apply Z.div_pos; lia). nia.
  - unfold uwrap. rewrite Zplus_mod_idemp_l, Z.mod_small; [done|].
    unfold next in *. assert (0 <= i / checkpointFreq c) by (apply Z.div_pos; lia). nia.
Qed.

(** The ledgers of [GetCheckpointRange] are exactly the ledgers whose
    information is in the same checkpoint file: the range holds the ledger,
    ends at its checkpoint, and another ledger is in the range if and only if
    [GetCheckpoint] sends it to that checkpoint.  The range has [checkpointFreq]
    ledgers, one less for the first checkpoint since ledger 0 does not exist. *)
Theorem checkpoint_range_block (c : CheckpointManager) (i : Z) (Hc : valid c) (Hi : in_uint 32 i)
    (H1 : 1 <= i) (Hn : next (checkpointFreq c) i <= MaxUint32) :
  exists r, GetCheckpointRange c i = Ok r /\ InRange r i = true /\ GetCheckpoint c i = Ok (High r) /\
    Size r = (if i <? checkpointFreq c then checkpointFreq c - 1 else checkpointFreq c) /\
    forall j, in_uint 32 j -> 1 <= j -> InRange r j = true <-> GetCheckpoint c j = Ok (High r).
Proof.
  rewrite GetCheckpointRange_value by done.
  eexists. split; [done|]. unfold GetCheckpoint. rewrite NextCheckpoint_value, Z.min_l by done.
  unfold Size. simpl Low. simpl High. unfold valid, in_uint, MaxUint32 in *.
  pose proof (next_bounds (checkpointFreq c) i ltac:(lia)) as Hb.
  split; [apply InRange_spec; simpl; lia|]. split; [done|]. split.
  - assert (Hq : (if i <? checkpointFreq c then next (checkpointFreq c) i = checkpointFreq c - 1
                  else checkpointFreq c <= next (checkpointFreq c) i - checkpointFreq c + 1)).
    { unfold next. destruct (Z.ltb_spec i (checkpointFreq c)); [rewrite Z.div_small by lia; lia|].
      assert (1 <= i / checkpointFreq c) by (apply Z.div_le_lower_bound; lia). nia. }
    destruct (i <? checkpointFreq c); rewrite !uwrap_small; rewrite ?uwrap_small; lia.
  - intros j Hj Hj1. rewrite InRange_spec, NextCheckpoint_value by done. simpl.
    pose proof (next_bounds (checkpointFreq c) j ltac:(lia)) as Hbj. split.
    + intros Hr. rewrite (next_same_block _ i j) by lia. rewrite Z.min_l; [done|]. unfold MaxUint32. lia.
    + intros [= He]. unfold MaxUint32 in He.
      destruct (Z.le_ge_cases (next (checkpointFreq c) j) (2 ^ 32 - 1)); [lia|].
      pose proof (next_least (checkpointFreq c) j (i / checkpointFreq c + 1)).
      unfold next in *. lia.
Qed.

Lemma checkpoint_range_block_witness :
  exists r, GetCheckpointRange (NewCheckpointManager 64) 5 = Ok r /\ r = mkRange 1 63 /\ Size r = 63 /\
    GetCheckpoint (NewCheckpointManager 64) 62 = Ok (High r).
Proof.
  destruct (checkpoint_range_block (NewCheckpointManager 64) 5) as (r & Hr & _ & _ & Hs & Hj).
  - apply NewCheckpointManager_valid. unfold in_uint. lia.
  - unfold in_uint. lia.
  - lia.
  - vm_compute. discriminate.
  - exists r. split; [done|]. injection Hr as <-. split; [done|]. split; [done|].
    apply (Hj 62); [unfold in_uint; lia|lia|done].
Defined.

(** The loop of [GenerateCheckpoints] sends [n] values, [freq] apart. *)
Lemma checkpoints_loop_run high freq n : 0 < freq < 2 ^ 32 -> high < 2 ^ 32 -> forall fuel i,
  (n < fuel)%nat -> 0 <= i < 2 ^ 33 -> high < i + Z.of_nat n * freq ->
  (n = 0%nat \/ i + (Z.of_nat n - 1) * freq <= high) ->
  checkpoints_loop fuel i high freq = Some ((fun k => i + k * freq) <$> seqZ 0 (Z.of_nat n)).
Proof.
  intros Hf Hh. induction n as [|n IH]; intros fuel i Hfuel Hi Hend Hlast;
    (destruct fuel as [|fuel]; [lia|]); simpl checkpoints_loop.
  - by rewrite (proj2 (Z.leb_gt i high)) by lia.
  - destruct Hlast as [|Hlast]; [done|].
    replace (Z.of_nat (S n)) with (Z.of_nat n + 1) in * by lia.
    assert (0 <= Z.of_nat n * freq) by nia.
    rewrite (proj2 (Z.leb_le i high)) by lia. rewrite !uwrap_small by lia.
    rewrite IH; [|lia|lia|lia|]. 2: { destruct n; [by left|right; lia]. }
    simpl. rewrite (seqZ_cons 0 (Z.of_nat n + 1)) by lia. f_equal. rewrite fmap_cons. f_equal; [lia|].
    apply list_eq. intros k. rewrite !list_lookup_fmap.
    destruct (decide (k < n)%nat) as [Hk|Hk].
    + rewrite !lookup_seqZ_lt by lia. simpl. f_equal. lia.
    + by rewrite !lookup_seqZ_ge by lia.
Qed.

Lemma GenerateCheckpoints_arith c lo n : valid c -> 0 <= n -> 0 <= lo ->
  lo + n * checkpointFreq c < 2 ^ 32 ->
  GenerateCheckpoints (mkRange lo (lo + n * checkpointFreq c)) c =
    Some ((fun k => lo + k * checkpointFreq c) <$> seqZ 0 (n + 1)).
Proof.
  intros Hc Hn Hlo Hb. unfold valid in Hc. unfold GenerateCheckpoints. simpl Low. simpl High.
  rewrite <- (Z2Nat.id (n + 1)) by lia.
  apply checkpoints_loop_run; [done|lia|nia|nia|nia|right; nia].
Qed.

Lemma GenerateCheckpoints_aligned c a b : valid c -> 1 <= a <= b -> b * checkpointFreq c <= 2 ^ 32 ->
  GenerateCheckpoints (mkRange (a * checkpointFreq c - 1) (b * checkpointFreq c - 1)) c =
    Some ((fun k => a * checkpointFreq c - 1 + k * checkpointFreq c) <$> seqZ 0 (b - a + 1)).
Proof.
  intros Hc Hab Hb. unfold valid in Hc. rewrite <- GenerateCheckpoints_arith; [|done|nia|nia|nia].
  f_equal. f_equal. lia.
Qed.

(** An aligned range reads off its checkpoints. *)
Lemma aligned_checkpoints c a b m : valid c -> 1 <= a <= b -> b * checkpointFreq c <= 2 ^ 32 ->
  m ∈ ((fun k => a * checkpointFreq c - 1 + k * checkpointFreq c) <$> seqZ 0 (b - a + 1)) <->
  IsCheckpoint c m = Ok true /\ a * checkpointFreq c - 1 <= m <= b * checkpointFreq c - 1.
Proof.
  intros Hc Hab Hb. pose proof Hc as Hv. unfold valid in Hv.
  rewrite list_elem_of_fmap. setoid_rewrite elem_of_seqZ. split.
  - intros (k & -> & Hk). assert (Hr : a * checkpointFreq c - 1 <= a * checkpointFreq c - 1 + k * checkpointFreq c <= b * checkpointFreq c - 1) by nia.
    split; [|done]. apply IsCheckpoint_spec; [done|unfold in_uint; nia|].
    right. exists (a + k). lia.
  - intros [Hk Hr]. assert (Hm : exists k, m + 1 = k * checkpointFreq c).
    { apply IsCheckpoint_spec in Hk as [->|?]; [|done|done|unfold in_uint; nia].
      exists b. unfold MaxUint32 in *. nia. }
    destruct Hm as [k Hm]. exists (k - a). split; [lia|nia].
Qed.

Lemma fmap_affine_sorted s f n : 0 < f ->
  StronglySorted Z.lt ((fun k => s + k * f) <$> seqZ 0 n).
Proof.
  intros Hf. assert (H : forall m, StronglySorted Z.lt ((fun k => s + k * f) <$> seqZ m n)); [|done].
  destruct (Z.le_ge_cases n 0); [intros; rewrite seqZ_nil by lia; constructor|].
  generalize dependent n. apply (natlike_ind (fun n => forall m, StronglySorted Z.lt ((fun k => s + k * f) <$> seqZ m n))).
  - intros. rewrite seqZ_nil by lia. constructor.
  - intros n Hn IH m. rewrite seqZ_cons, fmap_cons by lia.
    replace (Z.pred (Z.succ n)) with n by lia. constructor; [apply IH|].
    apply Forall_fmap, Forall_forall. intros k Hk. apply elem_of_seqZ in Hk. simpl. nia.
Qed.

Lemma PrevCheckpoint_aligned c i : valid c -> in_uint 32 i -> next (checkpointFreq c) i <= MaxUint32 ->
  exists a, PrevCheckpoint c i = Ok (a * checkpointFreq c - 1) /\ 1 <= a <= i / checkpointFreq c + 1 /\
    forall j, i <= j -> a * checkpointFreq c - 1 <= next (checkpointFreq c) j.
Proof.
  intros Hc Hi Hn. rewrite PrevCheckpoint_value by done.
  unfold valid, in_uint, MaxUint32, next in *.
  set (f := checkpointFreq c) in *.
  assert (Hm : forall j, i <= j -> i / f <= j / f) by (intros; apply Z.div_le_mono; lia).
  assert (Hp : 0 <= i / f) by (apply Z.div_pos; lia).
  destruct (Z.ltb_spec i f).
  - exists 1. split; [f_equal; lia|]. split; [lia|]. intros j Hj. specialize (Hm j Hj). nia.
  - exists ((i + 1) / f).
    assert (Hd : i / f <= (i + 1) / f <= i / f + 1).
    { split; [apply Z.div_le_mono; lia|].
      pose proof (Z.div_mod i f). pose proof (Z.mod_pos_bound i f).
      enough ((i + 1) / f < i / f + 2) by lia. apply Z.div_lt_upper_bound; nia. }
    assert (1 <= (i + 1) / f) by (apply Z.div_le_lower_bound; lia).
    split; [|split; [lia|intros j Hj; specialize (Hm j Hj); nia]].
    destruct (Z.eqb_spec i (2 ^ 32 - 1)) as [Hmax|]; [|done]. f_equal.
    pose proof (Z.div_mod i f). pose proof (Z.mod_pos_bound i f).
    replace (i + 1) with ((i / f + 1) * f) by lia. rewrite Z.div_mul by lia. lia.
Qed.

(** C40: The range [MakeRange low high] (and so [clamp], which is [MakeRange] on
    an intersection) starts and ends at checkpoints; [GenerateCheckpoints] ends
    and sends each checkpoint of the range exactly once, in increasing order,
    as many as [SizeInCheckPoints] announces; and the checkpoint of every ledger
    from [low] to [high] is among them. *)
Theorem make_range_checkpoints (c : CheckpointManager) (low high : Z) (Hc : valid c)
    (Hl : in_uint 32 low) (Hh : in_uint 32 high)
    (Hn : next (checkpointFreq c) (Z.max high low) <= MaxUint32) :
  exists r l, MakeRange c low high = Ok r /\ GenerateCheckpoints r c = Some l /\
    SizeInCheckPoints r c = Ok (Z.of_nat (length l)) /\ StronglySorted Z.lt l /\
    (forall m, m ∈ l <-> IsCheckpoint c m = Ok true /\ InRange r m = true) /\
    forall j, low <= j <= Z.max high low -> exists m, GetCheckpoint c j = Ok m /\ m ∈ l.
Proof.
  pose proof Hc as Hv. unfold valid in Hv. set (f := checkpointFreq c) in *.
  set (top := Z.max high low) in *.
  assert (Htop : in_uint 32 top) by (unfold in_uint in *; lia).
  assert (Hmono : forall j, low <= j <= top -> j / f <= top / f) by (intros; apply Z.div_le_mono; lia).
  destruct (PrevCheckpoint_aligned c low) as (a & Hp & Ha & Hcov); [done|done| |].
  { specialize (Hmono low ltac:(lia)). unfold next in *. fold f. nia. }
  fold f in Hp, Ha, Hcov.
  assert (Hab : 1 <= a <= top / f + 1) by (specialize (Hmono low ltac:(lia)); lia).
  assert (Hb : (top / f + 1) * f <= 2 ^ 32) by (unfold next, MaxUint32 in *; lia).
  exists (mkRange (a * f - 1) ((top / f + 1) * f - 1)). eexists.
  split; [|split; [by apply GenerateCheckpoints_aligned|split; [|split; [apply fmap_affine_sorted; lia|split]]]].
  - unfold MakeRange. rewrite Max_max, Hp, bind_Ok_l. fold top.
    rewrite NextCheckpoint_value, bind_Ok_l, Z.min_l by done. done.
  - unfold SizeInCheckPoints. rewrite divide_ok, bind_Ok_l by lia. simpl Low. simpl High.
    rewrite length_fmap, length_seqZ, uwrap_small by nia. f_equal. fold f.
    replace ((top / f + 1) * f - 1 - (a * f - 1)) with ((top / f + 1 - a) * f) by lia.
    rewrite Z.div_mul by lia. lia.
  - intros m. rewrite InRange_spec. by apply aligned_checkpoints.
  - intros j Hj. exists (next f j). specialize (Hmono j Hj).
    assert (Hjr : in_uint 32 j) by (unfold in_uint in *; lia).
    assert (0 <= j / f) by (unfold in_uint in *; apply Z.div_pos; lia).
    assert (Hle : next f j <= (top / f + 1) * f - 1) by (unfold next; nia).
    assert (Hbj : j <= next f j) by (apply next_bounds; lia).
    specialize (Hcov j ltac:(lia)). split.
    + unfold GetCheckpoint. rewrite NextCheckpoint_value by done. fold f.
      rewrite Z.min_l; [done|]. unfold MaxUint32. lia.
    + apply aligned_checkpoints; [done|done|done|]. split; [|done].
      apply IsCheckpoint_spec; [done|unfold in_uint in *; lia|]. right.
      exists (j / f + 1). unfold next. fold f. lia.
Qed.

Lemma make_range_checkpoints_witness :
  exists r l, MakeRange (NewCheckpointManager 64) 100 200 = Ok r /\ GenerateCheckpoints r (NewCheckpointManager 64) = Some l /\
    r = mkRange 63 255 /\ l = [63; 127; 191; 255] /\ (127 ∈ l <-> InRange r 127 = true).
Proof.
  destruct (make_range_checkpoints (NewCheckpointManager 64) 100 200) as (r & l & Hr & Hl & _ & _ & Hm & _).
  - apply NewCheckpointManager_valid. unfold in_uint. lia.
  - unfold in_uint. lia.
  - unfold in_uint. lia.
  - vm_compute. discriminate.
  - exists r, l. split; [done|]. split; [done|]. injection Hr as <-. injection Hl as <-.
    split; [done|]. split; [done|]. rewrite Hm. split; [by intros []|done].
Defined.

(** ** Collapsed lists of checkpoints *)

(** The contract of [slices.Sort] on a [[]uint32]. *)
Class SliceSort (slicesSort : list Z -> list Z) : Prop := {
  slicesSort_perm l : slicesSort l ≡ₚ l;
  slicesSort_sorted l : StronglySorted Z.le (slicesSort l)
}.

(** The ranges that the loop forms after [curr] from the rest of the list. *)
Fixpoint collapse (freq : Z) (curr : Range) (l : list Z) : list Range :=
  match l with
  | [] => [curr]
  | t :: l => if to_uint32 (High curr + freq) =? t then collapse freq (mkRange (Low curr) t) l
              else curr :: collapse freq (mkRange t t) l
  end.

Lemma collapse_fold freq l : forall s curr,
  (let '(s', curr') := fold_left (collapse_step freq) l (s, Some curr) in
   match curr' with Some r => s' ++ [collapsedString r] | None => s' end) =
  s ++ (collapsedString <$> collapse freq curr l).
Proof.
  induction l as [|t l IH]; intros s curr; [done|].
  rewrite fold_left_cons. simpl collapse. unfold collapse_step at 2.
  destruct (_ =? t); rewrite IH; [done|]. by rewrite <- app_assoc.
Qed.

Lemma collapse_head freq l : forall curr, exists r rs, collapse freq curr l = r :: rs /\ Low r = Low curr.
Proof.
  induction l as [|t l IH]; intros curr; simpl; [by eexists _, _|].
  destruct (_ =? t); [apply (IH (mkRange (Low curr) t))|by eexists _, _].
Qed.

(** Neighbouring ranges could not have been merged. *)
Lemma collapse_separated freq l : forall curr i r1 r2,
  collapse freq curr l !! i = Some r1 -> collapse freq curr l !! S i = Some r2 ->
  to_uint32 (High r1 + freq) <> Low r2.
Proof.
  induction l as [|t l IH]; intros curr i r1 r2; simpl; [by destruct i|].
  destruct (Z.eqb_spec (to_uint32 (High curr + freq)) t) as [|Hne]; [apply IH|].
  destruct i as [|i]; simpl; [|apply IH].
  intros [= <-]. destruct (collapse_head freq l (mkRange t t)) as (r & rs & -> & Hl).
  intros [= <-]. by rewrite Hl.
Qed.

Lemma seqZ_snoc_fmap (g : Z -> Z) n : 0 <= n ->
  g <$> seqZ 0 (n + 1) = (g <$> seqZ 0 n) ++ [g n].
Proof.
  intros Hn. rewrite seqZ_app by lia. rewrite fmap_app. f_equal.
Qed.

(** The checkpoints of the collapsed ranges are the checkpoints of the list. *)
Lemma collapse_checkpoints c l : valid c -> forall lo n, 0 <= n -> 0 <= lo ->
  Forall (in_uint 32) (lo + n * checkpointFreq c :: l) ->
  StronglySorted Z.le (lo + n * checkpointFreq c :: l) ->
  exists ls, Forall2 (fun r l => GenerateCheckpoints r c = Some l)
      (collapse (checkpointFreq c) (mkRange lo (lo + n * checkpointFreq c)) l) ls /\
    concat ls = ((fun k => lo + k * checkpointFreq c) <$> seqZ 0 (n + 1)) ++ l.
Proof.
  intros Hc. pose proof Hc as Hv. unfold valid in Hv.
  induction l as [|t l IH]; intros lo n Hn Hlo Hu Hs; simpl collapse.
  - apply Forall_cons in Hu as [[_ Hu] _]. eexists. split.
    + constructor; [by apply GenerateCheckpoints_arith|constructor].
    + simpl. by rewrite app_nil_r.
  - apply Forall_cons in Hu as [[_ Hu] Hut]. pose proof Hut as Ht. apply Forall_cons in Ht as [Ht _].
    apply StronglySorted_inv in Hs as [Hs Hle]. apply Forall_cons in Hle as [Hle _].
    destruct (Z.eqb_spec (to_uint32 (lo + n * checkpointFreq c + checkpointFreq c)) t) as [He|Hne].
    + assert (t = lo + (n + 1) * checkpointFreq c) as Heq.
      { unfold in_uint in Ht. destruct (Z.lt_ge_cases (lo + n * checkpointFreq c + checkpointFreq c) (2 ^ 32)).
        - rewrite uwrap_small in He by nia. lia.
        - unfold uwrap in He. rewrite <- (Z.mod_unique _ _ 1 (lo + n * checkpointFreq c + checkpointFreq c - 2 ^ 32)) in He; lia. }
      rewrite Heq in *. destruct (IH lo (n + 1)) as (ls & Hf & Hcat); [lia|done|done|done|].
      exists ls. split; [done|]. rewrite Hcat, (seqZ_snoc_fmap _ (n + 1)) by lia. by rewrite <- app_assoc.
    + destruct (IH t 0) as (ls & Hf & Hcat); [lia|unfold in_uint in Ht; lia| | |];
        rewrite ?Z.mul_0_l, ?Z.add_0_r in *; [done|done|].
      eexists (_ :: ls). split.
      * constructor; [by apply GenerateCheckpoints_arith|done].
      * simpl. rewrite Hcat. simpl. by rewrite Z.add_0_r.
Qed.

(** [fmtRangeList] prints a list of checkpoints as ranges without losing
    or adding any: the printed ranges, expanded by [GenerateCheckpoints], are
    the sorted input, and no two neighbouring ranges could be merged. *)
Theorem fmtRangeList_collapses (slicesSort : list Z -> list Z) (HS : SliceSort slicesSort)
    (c : CheckpointManager) (vs : list Z) (Hc : valid c) (Hvs : Forall (in_uint 32) vs) :
  exists rs ls, fmtRangeList slicesSort vs c = String.concat ", " (collapsedString <$> rs) /\
    Forall2 (fun r l => GenerateCheckpoints r c = Some l) rs ls /\ concat ls = slicesSort vs /\
    forall i r1 r2, rs !! i = Some r1 -> rs !! S i = Some r2 ->
      to_uint32 (High r1 + checkpointFreq c) <> Low r2.
Proof.
  pose proof (slicesSort_sorted vs) as Hs. rewrite <- (slicesSort_perm vs) in Hvs.
  unfold fmtRangeList. destruct (slicesSort vs) as [|t l].
  - exists [], []. split; [done|]. split; [constructor|]. by split.
  - pose proof (collapse_fold (checkpointFreq c) l [] (mkRange t t)) as Hf.
    destruct (collapse_checkpoints c l Hc t 0) as (ls & Hls & Hcat);
      rewrite ?Z.mul_0_l, ?Z.add_0_r in *; [lia|by apply Forall_cons in Hvs as [[] _]|done|done|].
    exists (collapse (checkpointFreq c) (mkRange t t) l), ls.
    split; [|split; [done|split; [by rewrite Hcat; simpl; rewrite Z.add_0_r|apply collapse_separated]]].
    rewrite fold_left_cons. simpl (collapse_step _ _ t). destruct (fold_left _ _ _) as [s curr].
    rewrite app_nil_l in Hf. by rewrite <- Hf.
Qed.

(** Insertion sort satisfies the contract of [slices.Sort]. *)
Fixpoint insert_Z (x : Z) (l : list Z) : list Z :=
  match l with
  | [] => [x]
  | y :: l' => if x <=? y then x :: l else y :: insert_Z x l'
  end.

Lemma insert_Z_perm x l : insert_Z x l ≡ₚ x :: l.
Proof.
  induction l as [|y l IH]; simpl; [done|]. destruct (x <=? y); [done|].
  rewrite IH. constructor.
Qed.

#[global] Instance insertion_SliceSort : SliceSort (foldr insert_Z []).
Proof.
  split.
  - intros l. induction l as [|x l IH]; simpl; [done|]. by rewrite insert_Z_perm, IH.
  - intros l. induction l as [|x l IH]; simpl; [constructor|].
    induction IH as [|y m Hm IHm Hle]; simpl; [repeat constructor|].
    destruct (Z.leb_spec x y) as [Hxy|Hxy].
    + constructor; [by constructor|]. constructor; [done|].
      eapply Forall_impl; [done|]. intros. simpl in *. lia.
    + constructor; [done|]. rewrite insert_Z_perm. constructor; [lia|done].
Qed.

Lemma fmtRangeList_collapses_witness :
  fmtRangeList (foldr insert_Z []) [255; 63; 127] (NewCheckpointManager 64) = "[0x0000003f-0x0000007f], 0x000000ff" /\
  exists rs ls, Forall2 (fun r l => GenerateCheckpoints r (NewCheckpointManager 64) = Some l) rs ls /\
    concat ls = [63; 127; 255].
Proof.
  split; [done|].
  destruct (fmtRangeList_collapses (foldr insert_Z []) insertion_SliceSort (NewCheckpointManager 64) [255; 63; 127])
    as (rs & ls & _ & Hf & Hc & _).
  - apply NewCheckpointManager_valid. unfold in_uint. lia.
  - repeat constructor; unfold in_uint; lia.
  - by exists rs, ls.
Defined.

(** ** Directories of a range *)

Lemma prefix_cancel (a b c : string) :
  String.prefix (String.append a b) (String.append a c) = String.prefix b c.
Proof. induction a as [|x a IH]; simpl; [done|]. by destruct (Ascii.ascii_dec x x). Qed.

Lemma prefix_append (a b : string) : String.prefix a (String.append a b) = true.
Proof. induction a as [|x a IH]; simpl; [by destruct b|]. by destruct (Ascii.ascii_dec x x). Qed.

Lemma prefix_refl (a : string) : String.prefix a a = true.
Proof. induction a as [|x a IH]; simpl; [done|]. by destruct (Ascii.ascii_dec x x). Qed.

(** The first [n + 1] bytes of a prefix name an ancestor of its directory. *)
Lemma pathPrefix_prefix x y z n : n = 0 \/ n = 1 \/ n = 2 ->
  String.prefix (pathPrefix [x; y; z] n) (Path [x; y; z]) = true.
Proof.
  change (Path [x; y; z]) with (String.append (hex 2 x) (String.append "/"
    (String.append (hex 2 y) (String.append "/" (hex 2 z))))).
  intros [->|[->| ->]].
  - apply prefix_append.
  - change (pathPrefix [x; y; z] 1) with (String.append (hex 2 x) (String.append "/" (hex 2 y))).
    rewrite !prefix_cancel. apply prefix_append.
  - apply prefix_refl.
Qed.

Lemma CheckpointPrefix_bytes s : in_uint 32 s ->
  CheckpointPrefix s = [s / 2 ^ 24; s / 2 ^ 16 mod 256; s / 2 ^ 8 mod 256].
Proof.
  intros Hs. unfold CheckpointPrefix, in_uint in *. rewrite !Z.shiftr_div_pow2 by lia.
  unfold uwrap. rewrite (Z.mod_small (s / 2 ^ 24)); [done|].
  split; [apply Z.div_pos; lia|apply Z.div_lt_upper_bound; lia].
Qed.

(** The path of the byte [i] at the position where the bounds of a range differ. *)
Lemma RangePaths_elem r d i (Hd : d = diff_loop 0 0 (CheckpointPrefix (Low r)) (CheckpointPrefix (High r))) :
  default 0 (CheckpointPrefix (Low r) !! d) <= i <= default 0 (CheckpointPrefix (High r) !! d) ->
  is_byte i -> pathPrefix (<[d := i]> (CheckpointPrefix (Low r))) (Z.of_nat d) ∈ RangePaths r.
Proof.
  intros Hi Hb. unfold RangePaths. rewrite <- Hd. apply list_elem_of_fmap. exists i. split.
  - by rewrite uwrap_small.
  - apply elem_of_seqZ. lia.
Qed.

(** The leading bytes of a number between two others. *)
Lemma bytes_between l s h : 0 <= l <= s -> s <= h ->
  l / 2 ^ 24 <= s / 2 ^ 24 <= h / 2 ^ 24 /\
  (h / 2 ^ 24 = l / 2 ^ 24 -> l / 2 ^ 16 mod 256 <= s / 2 ^ 16 mod 256 <= h / 2 ^ 16 mod 256 /\
   (h / 2 ^ 16 mod 256 = l / 2 ^ 16 mod 256 ->
    l / 2 ^ 8 mod 256 <= s / 2 ^ 8 mod 256 <= h / 2 ^ 8 mod 256)).
Proof.
  intros H1 H2.
  assert (H8 : l / 2 ^ 8 <= s / 2 ^ 8 <= h / 2 ^ 8) by (split; apply Z.div_le_mono; lia).
  assert (E : forall x, x / 2 ^ 16 = x / 2 ^ 8 / 256 /\ x / 2 ^ 24 = x / 2 ^ 8 / 256 / 256)
    by (intros; rewrite !Z.div_div by lia; done).
  destruct (E l) as [-> ->], (E s) as [-> ->], (E h) as [-> ->].
  revert H8. generalize (l / 2 ^ 8), (s / 2 ^ 8), (h / 2 ^ 8). clear. intros l s h H8.
  Z.to_euclidean_division_equations. lia.
Qed.

(** [RangePaths] loses no checkpoint: the directory of every ledger of the
    range is one of the listed directories or below one of them. *)
Theorem RangePaths_cover (r : Range) (s : Z) (Hl : in_uint 32 (Low r)) (Hh : in_uint 32 (High r))
    (Hs : InRange r s = true) :
  exists p, p ∈ RangePaths r /\ String.prefix p (Path (CheckpointPrefix s)) = true.
Proof.
  apply InRange_spec in Hs. assert (Hsr : in_uint 32 s) by (unfold in_uint in *; lia).
  pose proof (RangePaths_elem r _ (s / 2 ^ 24) eq_refl) as H0.
  pose proof (RangePaths_elem r _ (s / 2 ^ 16 mod 256) eq_refl) as H1.
  pose proof (RangePaths_elem r _ (s / 2 ^ 8 mod 256) eq_refl) as H2.
  rewrite (CheckpointPrefix_bytes s Hsr).
  rewrite (CheckpointPrefix_bytes _ Hl), (CheckpointPrefix_bytes _ Hh) in *.
  unfold in_uint, is_byte in *.
  destruct (bytes_between (Low r) s (High r)) as [B0 B]; [lia|lia|].
  assert (0 <= s / 2 ^ 24 < 256)
    by (split; [apply Z.div_pos; lia|apply Z.div_lt_upper_bound; lia]).
  pose proof (Z.mod_pos_bound (s / 2 ^ 16) 256 ltac:(lia)).
  pose proof (Z.mod_pos_bound (s / 2 ^ 8) 256 ltac:(lia)).
  cbn [diff_loop] in H0, H1, H2.
  destruct (Z.eqb_spec (High r / 2 ^ 24) (Low r / 2 ^ 24)) as [E0|N0].
  - destruct (B E0) as [B1 B']. assert (S0 : Low r / 2 ^ 24 = s / 2 ^ 24) by lia.
    destruct (Z.eqb_spec (High r / 2 ^ 16 mod 256) (Low r / 2 ^ 16 mod 256)) as [E1|N1].
    + specialize (B' E1). assert (S1 : Low r / 2 ^ 16 mod 256 = s / 2 ^ 16 mod 256) by lia.
      rewrite S0, S1 in H2. destruct (High r / 2 ^ 8 mod 256 =? Low r / 2 ^ 8 mod 256);
        (eexists; split; [by apply H2|]; apply pathPrefix_prefix; by right; right).
    + rewrite S0 in H1. eexists. split; [by apply H1|].
      exact (pathPrefix_prefix _ _ (s / 2 ^ 8 mod 256) 1 (or_intror (or_introl eq_refl))).
  - eexists. split; [by apply H0|].
    exact (pathPrefix_prefix _ (s / 2 ^ 16 mod 256) (s / 2 ^ 8 mod 256) 0 (or_introl eq_refl)).
Qed.

Lemma RangePaths_cover_witness :
  RangePaths (mkRange 0x0002ff 0x00053f) = ["00/00/02"; "00/00/03"; "00/00/04"; "00/00/05"] /\
  exists p, p ∈ RangePaths (mkRange 0x0002ff 0x00053f) /\
    String.prefix p (Path (CheckpointPrefix 0x00043f)) = true.
Proof.
  split; [done|]. apply RangePaths_cover; [unfold in_uint; simpl; lia..|done].
Defined.

End Checkpoints.
