(* ===== verification/Bitmap.v ===== *)
(** * Bitmap indices (exp/lighthorizon/index/types/bitmap.go)

    A [BitmapIndex] is a growing bitmap of the checkpoints in which an account
    was active.  Bit [x] (counted from 1) is bit [7 - (x - 1) mod 8] of byte
    [(x - 1) / 8 - (firstBit - 1) / 8]: the bitmap starts at the byte of the
    first active bit and ends at the byte of the last one.  The operations are
    shown to implement those of a finite set of positions. *)
From S2P Require Import Prelude.
From Stdlib Require Import Sorted.
Local Open Scope Z_scope.

Module Bitmap.

Record BitmapIndex := mkBitmapIndex { bitmap : list Z; firstBit : Z; lastBit : Z }.


(** A slice access out of range panics. *)
Definition index (l : list Z) (n : Z) : res Z :=
  if n <? 0 then Panic "index out of range" else
  from_opt "index out of range" (l !! Z.to_nat n).
Definition assign (l : list Z) (n v : Z) : res (list Z) :=
  _ ← index l n; Ok (<[Z.to_nat n := v]> l).
Definition make_bytes (n : Z) : res (list Z) :=
  if n <? 0 then Panic "makeslice: len out of range" else Ok (replicate (Z.to_nat n) 0).

Definition Size (i : BitmapIndex) : Z := Z.of_nat (length (bitmap i)).

Definition bitShiftLeft (index : Z) : Z :=
  if index mod 8 =? 0 then 1 else to_uint8 (Z.shiftl 1 (8 - index mod 8)).

Definition rangeFirstBit (i : BitmapIndex) : Z :=
  to_uint32 (to_uint32 (firstBit i - 1) / 8 * 8 + 1).

Definition rangeLastBit (i : BitmapIndex) : Z :=
  to_uint32 (rangeFirstBit i + to_uint32 (Z.of_nat (length (bitmap i))) * 8 - 1).

(** Go's [int] division truncates. *)
Definition distance (i j : Z) : Z := Z.quot (j - 1) 8 - Z.quot (i - 1) 8.

Definition setActive (i : BitmapIndex) (index_ : Z) : res BitmapIndex :=
  if firstBit i =? 0 then Ok (mkBitmapIndex [bitShiftLeft index_] index_ index_)
  else if (index_ >=? rangeFirstBit i) && (index_ <=? rangeLastBit i) then
    let b := bitShiftLeft index_ in
    let loc := to_uint32 (index_ - rangeFirstBit i) / 8 in
    old ← index (bitmap i) loc;
    bm ← assign (bitmap i) loc (Z.lor old b);
    Ok (mkBitmapIndex bm
      (if index_ <? firstBit i then index_ else firstBit i)
      (if index_ >? lastBit i then index_ else lastBit i))
  else if index_ <? rangeFirstBit i then
    newBytes ← make_bytes (distance index_ (rangeFirstBit i));
    let bm := newBytes ++ bitmap i in
    let b := bitShiftLeft index_ in
    old ← index bm 0;
    bm ← assign bm 0 (Z.lor old b);
    Ok (mkBitmapIndex bm index_ (lastBit i))
  else if index_ >? rangeLastBit i then
    newBytes ← make_bytes (distance (rangeLastBit i) index_);
    let bm := bitmap i ++ newBytes in
    let b := bitShiftLeft index_ in
    let loc := to_uint32 (index_ - rangeFirstBit i) / 8 in
    old ← index bm loc;
    bm ← assign bm loc (Z.lor old b);
    Ok (mkBitmapIndex bm (firstBit i) index_)
  else Ok i.

(** [for shift := after; shift < 8; shift++]; at most 8 turns. *)
Fixpoint max_bit_loop (turns : nat) (b shift : Z) : Z * bool :=
  match turns with
  | O => (0, false)
  | S turns =>
      if shift <? 8 then
        let mask := Z.shiftr 128 shift in
        if negb (Z.land mask b =? 0) then (shift, true)
        else max_bit_loop turns b (to_uint32 (shift + 1))
      else (0, false)
  end.

Definition maxBitAfter (b after : Z) : Z * bool :=
  if b =? 0 then (0, false) else max_bit_loop 8 b after.

(** The scan of the bytes from position [loc] on. *)
Fixpoint scan_bytes (first loc : Z) (bytes : list Z) : res Z :=
  match bytes with
  | [] => Err EOF
  | b :: bytes =>
      let '(shift, ok) := maxBitAfter b 0 in
      if ok then Ok (to_uint32 (first + loc * 8 + shift))
      else scan_bytes first (to_uint32 (loc + 1)) bytes
  end.

Definition nextActiveBit (i : BitmapIndex) (position : Z) : res Z :=
  if (firstBit i =? 0) || (position >? lastBit i) then Err EOF else
  let position := if position <? firstBit i then firstBit i else position in
  let loc := to_uint32 (position - rangeFirstBit i) / 8 in
  b ← index (bitmap i) loc;
  let '(shift, ok) := maxBitAfter b (to_uint32 (position - 1) mod 8) in
  if ok then Ok (to_uint32 (rangeFirstBit i + loc * 8 + shift)) else
  scan_bytes (rangeFirstBit i) (to_uint32 (loc + 1)) (drop (Z.to_nat (loc + 1)) (bitmap i)).

(** [for i.bitmap[j] == 0 { j-- }] *)
Fixpoint trim_loop (bm : list Z) (j : nat) : res nat :=
  b ← from_opt "index out of range" (bm !! j);
  if b =? 0 then match j with O => Panic "index out of range" | S j => trim_loop bm j end
  else Ok j.

(** [for ; j >= 0 && !ok; j--], entered with [j = n - 1]: the final [j]. *)
Fixpoint last_bit_loop (b : Z) (n : nat) : Z :=
  match n with
  | O => -1
  | S j => let '(_, ok) := maxBitAfter b (Z.of_nat j) in
           if ok then Z.of_nat j - 1 else last_bit_loop b j
  end.

(** The first active bit [index_] was cleared: find the next one and trim the
    bytes before it. *)
Definition repair_first (i : BitmapIndex) (index_ : Z) : res BitmapIndex :=
  match nextActiveBit i index_ with
  | Err e => if bool_decide (e = EOF) then Ok (mkBitmapIndex [] 0 0) else Err e
  | Panic m => Panic m
  | Ok nextBit =>
      let d := distance (firstBit i) nextBit in
      if (d <? 0) || (d >? Z.of_nat (length (bitmap i))) then Panic "slice bounds out of range"
      else Ok (mkBitmapIndex (drop (Z.to_nat d) (bitmap i)) nextBit (lastBit i))
  end.

(** A bit of the last byte [loc] was cleared: trim the bytes that are empty and
    find the new last active bit. *)
Definition repair_last (i : BitmapIndex) (loc index_ : Z) : res BitmapIndex :=
  cur ← index (bitmap i) loc;
  '(bm, idx) ← (if cur =? 0 then
                  j ← trim_loop (bitmap i) (length (bitmap i) - 1);
                  Ok (take (j + 1) (bitmap i), 8)
                else if lastBit i =? index_ then
                  Ok (bitmap i, if negb (index_ mod 8 =? 0) then index_ mod 8 else 8)
                else Ok (bitmap i, -1));
  let i := mkBitmapIndex bm (firstBit i) (lastBit i) in
  if idx >? -1 then
    let l := to_uint32 (Z.of_nat (length (bitmap i)) - 1) in
    last ← index (bitmap i) l;
    let j := last_bit_loop last (Z.to_nat (idx + 1)) in
    Ok (mkBitmapIndex (bitmap i) (firstBit i)
          (to_uint32 (rangeFirstBit i + l * 8 + to_uint32 j + 1)))
  else Ok i.

Definition setInactive (i : BitmapIndex) (index_ : Z) : res BitmapIndex :=
  if (firstBit i =? 0) || (index_ <? rangeFirstBit i) || (index_ >? rangeLastBit i) then Ok i else
  let loc := to_uint32 (index_ - rangeFirstBit i) / 8 in
  let b := bitShiftLeft index_ in
  old ← index (bitmap i) loc;
  bm ← assign (bitmap i) loc (Z.land old (Z.lxor b 255));
  let i := mkBitmapIndex bm (firstBit i) (lastBit i) in
  if (loc =? 0) && (firstBit i =? index_) then repair_first i index_
  else if loc =? Z.of_nat (length (bitmap i)) - 1 then repair_last i loc index_
  else Ok i.

Definition isActive (i : BitmapIndex) (index_ : Z) : res bool :=
  if (index_ >=? firstBit i) && (index_ <=? lastBit i) then
    let b := bitShiftLeft index_ in
    let loc := to_uint32 (index_ - rangeFirstBit i) / 8 in
    v ← index (bitmap i) loc; Ok (negb (Z.land v b =? 0))
  else Ok false.

(** The endless loop of [iterate] after [curr]: the positions handed to the callback. *)
Fixpoint iterate_loop (fuel : nat) (i : BitmapIndex) (curr : Z) : res (list Z) :=
  match fuel with
  | O => Panic "out of fuel"
  | S fuel =>
      match nextActiveBit i (to_uint32 (curr + 1)) with
      | Err e => if bool_decide (e = EOF) then Ok [] else Err e
      | Panic m => Panic m
      | Ok curr => rest ← iterate_loop fuel i curr; Ok (curr :: rest)
      end
  end.

Definition iterate (i : BitmapIndex) : res (list Z) :=
  if firstBit i =? 0 then Ok [] else
  rest ← iterate_loop (S (8 * length (bitmap i))) i (firstBit i);
  Ok (firstBit i :: rest).

(** [Merge] calls [setActive] on every position of [other]. *)
Fixpoint set_all (i : BitmapIndex) (l : list Z) : res BitmapIndex :=
  match l with
  | [] => Ok i
  | x :: l => i ← setActive i x; set_all i l
  end.

Definition Merge (i other : BitmapIndex) : res BitmapIndex :=
  l ← iterate other; set_all i l.

(** The exported operations take the lock of the index around the internal ones. *)
Definition SetActive := setActive.
Definition SetInactive := setInactive.
Definition NextActiveBit := nextActiveBit.

(** ** Bits and bytes *)

Ltac dlia := Z.to_euclidean_division_equations; lia.

(** The bit of position [x] within its byte. *)
Definition bit (x : Z) : Z := 7 - (x - 1) mod 8.

Lemma bit_range x : 0 <= bit x < 8.
Proof. unfold bit. dlia. Qed.

Lemma bitShiftLeft_bit x : bitShiftLeft x = 2 ^ bit x.
Proof.
  unfold bitShiftLeft, bit. destruct (Z.eqb_spec (x mod 8) 0).
  - replace ((x - 1) mod 8) with 7 by dlia. done.
  - replace (7 - (x - 1) mod 8) with (8 - x mod 8) by dlia.
    rewrite Z.shiftl_mul_pow2, Z.mul_1_l by dlia. apply uwrap_small.
    split; [apply Z.pow_nonneg; lia|]. apply Z.pow_lt_mono_r; dlia.
Qed.

Lemma land_pow2_zero b k : 0 <= k -> (Z.land b (2 ^ k) =? 0) = negb (Z.testbit b k).
Proof.
  intros Hk. destruct (Z.testbit b k) eqn:E; simpl.
  - apply Z.eqb_neq. intros H. apply (f_equal (fun z => Z.testbit z k)) in H.
    rewrite Z.land_spec, E, Z.pow2_bits_true, Z.bits_0 in H by lia. done.
  - apply Z.eqb_eq, Z.bits_inj'. intros n Hn. rewrite Z.land_spec, Z.bits_0.
    rewrite Z.pow2_bits_eqb by lia. destruct (Z.eqb_spec k n) as [<-|]; [by rewrite E|apply andb_false_r].
Qed.

Lemma byte_testbit_high b k : is_byte b -> 8 <= k -> Z.testbit b k = false.
Proof.
  intros Hb Hk. unfold is_byte in Hb. rewrite <- (Z.mod_small b (2 ^ 8)) by lia.
  apply Z.mod_pow2_bits_high. lia.
Qed.

(** A byte is zero iff none of its eight bits is set. *)
Lemma byte_zero b : is_byte b -> (forall s, 0 <= s < 8 -> Z.testbit b (7 - s) = false) -> b = 0.
Proof.
  intros Hb H. apply Z.bits_inj'. intros n Hn. rewrite Z.bits_0.
  destruct (Z.lt_ge_cases n 8); [|by apply byte_testbit_high].
  replace n with (7 - (7 - n)) by lia. apply H. lia.
Qed.

Lemma byte_of_bits b : 0 <= b -> (forall k, 8 <= k -> Z.testbit b k = false) -> is_byte b.
Proof.
  intros Hb H. split; [done|]. destruct (Z.eq_dec b 0) as [->|]; [done|].
  change 256 with (2 ^ 8). apply Z.log2_lt_pow2; [lia|].
  destruct (Z.lt_ge_cases (Z.log2 b) 8); [done|].
  specialize (H (Z.log2 b) ltac:(done)). rewrite Z.bit_log2 in H by lia. done.
Qed.

Lemma lor_byte b k : is_byte b -> 0 <= k < 8 -> is_byte (Z.lor b (2 ^ k)).
Proof.
  intros Hb Hk. apply byte_of_bits.
  - apply Z.lor_nonneg. split; [apply Hb|apply Z.pow_nonneg; lia].
  - intros n Hn. rewrite Z.lor_spec, byte_testbit_high, Z.pow2_bits_false by (done || lia). done.
Qed.

Lemma land_byte b m : is_byte b -> is_byte (Z.land b m).
Proof.
  intros Hb. apply byte_of_bits.
  - apply Z.land_nonneg. left. apply Hb.
  - intros n Hn. by rewrite Z.land_spec, byte_testbit_high.
Qed.

Lemma testbit_set b x y : (x - 1) / 8 = (y - 1) / 8 ->
  Z.testbit (Z.lor b (bitShiftLeft x)) (bit y) = Z.testbit b (bit y) || (y =? x).
Proof.
  intros Hq. rewrite bitShiftLeft_bit, Z.lor_spec, Z.pow2_bits_eqb by apply bit_range. f_equal.
  unfold bit. destruct (Z.eqb_spec y x) as [->|]; [apply Z.eqb_refl|].
  apply Z.eqb_neq. dlia.
Qed.

Lemma testbit_clear b x y : (x - 1) / 8 = (y - 1) / 8 ->
  Z.testbit (Z.land b (Z.lxor (bitShiftLeft x) 255)) (bit y) = Z.testbit b (bit y) && negb (y =? x).
Proof.
  intros Hq. rewrite bitShiftLeft_bit, Z.land_spec, Z.lxor_spec, Z.pow2_bits_eqb by apply bit_range.
  change 255 with (Z.ones 8). rewrite Z.ones_spec_low by apply bit_range. rewrite xorb_true_r.
  f_equal. f_equal. unfold bit. destruct (Z.eqb_spec y x) as [->|]; [apply Z.eqb_refl|].
  apply Z.eqb_neq. dlia.
Qed.

(** [maxBitAfter] finds the first set bit, from the left, at or after a position. *)
Lemma max_bit_loop_spec b turns : forall after, 0 <= after <= 8 -> (8 - after <= Z.of_nat turns) ->
  match max_bit_loop turns b after with
  | (s, true) => after <= s < 8 /\ Z.testbit b (7 - s) = true /\
                 forall t, after <= t < s -> Z.testbit b (7 - t) = false
  | (_, false) => forall t, after <= t < 8 -> Z.testbit b (7 - t) = false
  end.
Proof.
  induction turns as [|n IH]; intros after Ha Hn; simpl; [intros; lia|].
  destruct (Z.ltb_spec after 8); [|intros; lia].
  rewrite Z.land_comm. replace (Z.shiftr 128 after) with (2 ^ (7 - after)).
  2: { rewrite Z.shiftr_div_pow2 by lia. change 128 with (2 ^ 7). apply Z.pow_sub_r; lia. }
  rewrite land_pow2_zero, negb_involutive by lia.
  destruct (Z.testbit b (7 - after)) eqn:E; [repeat split; [lia|lia|done|intros; lia]|].
  rewrite uwrap_small by lia. specialize (IH (after + 1) ltac:(lia) ltac:(lia)).
  destruct (max_bit_loop n b (after + 1)) as [s [|]].
  - destruct IH as (Hs & Ht & Hl). split; [lia|]. split; [done|]. intros t Hr.
    destruct (Z.eq_dec t after) as [->|]; [done|apply Hl; lia].
  - intros t Hr. destruct (Z.eq_dec t after) as [->|]; [done|apply IH; lia].
Qed.

Lemma maxBitAfter_spec b after : 0 <= after <= 8 ->
  match maxBitAfter b after with
  | (s, true) => after <= s < 8 /\ Z.testbit b (7 - s) = true /\
                 forall t, after <= t < s -> Z.testbit b (7 - t) = false
  | (_, false) => forall t, after <= t < 8 -> Z.testbit b (7 - t) = false
  end.
Proof.
  intros Ha. unfold maxBitAfter. destruct (Z.eqb_spec b 0) as [->|].
  - intros. apply Z.bits_0.
  - apply max_bit_loop_spec; lia.
Qed.

(** The downward loop ends one below the last set bit. *)
Lemma last_bit_loop_spec b n : is_byte b -> b <> 0 -> (n <= 9)%nat ->
  (forall t, Z.of_nat n <= t < 8 -> Z.testbit b (7 - t) = false) ->
  exists s, last_bit_loop b n = s - 1 /\ 0 <= s < 8 /\ Z.testbit b (7 - s) = true /\
    forall t, s < t < 8 -> Z.testbit b (7 - t) = false.
Proof.
  intros Hb Hne. induction n as [|j IH]; intros Hn Habove.
  - exfalso. apply Hne, byte_zero; [done|]. intros s Hs. apply Habove. lia.
  - simpl. pose proof (maxBitAfter_spec b (Z.of_nat j) ltac:(lia)) as Hm.
    destruct (maxBitAfter b (Z.of_nat j)) as [s [|]].
    + destruct Hm as (Hs & Ht & _). exists (Z.of_nat j). split; [done|].
      assert (s = Z.of_nat j) as <-.
      { destruct (Z.eq_dec s (Z.of_nat j)); [done|]. rewrite Habove in Ht by lia. done. }
      split; [lia|]. split; [done|]. intros t Hr. apply Habove. lia.
    + apply IH; [lia|done].
Qed.

(** ** The bytes of a bitmap by absolute number *)

(** Byte [q] of a bitmap whose first byte is number [base]; zero outside. *)
Definition blk (base : Z) (bm : list Z) (q : Z) : Z :=
  if q <? base then 0 else default 0 (bm !! Z.to_nat (q - base)).

Lemma blk_byte base bm q : Forall is_byte bm -> is_byte (blk base bm q).
Proof.
  intros Hb. unfold blk. destruct (q <? base); [done|].
  destruct (bm !! _) as [v|] eqn:E; [|done]. by eapply Forall_lookup_1 in E.
Qed.

Lemma blk_index base bm q : base <= q < base + Z.of_nat (length bm) ->
  index bm (q - base) = Ok (blk base bm q).
Proof.
  intros Hq. unfold index, blk. rewrite (proj2 (Z.ltb_ge _ _)), (proj2 (Z.ltb_ge _ _)) by lia.
  destruct (lookup_lt_is_Some_2 bm (Z.to_nat (q - base))) as [v Hv]; [lia|]. by rewrite Hv.
Qed.

Lemma blk_assign base bm q v : base <= q < base + Z.of_nat (length bm) ->
  assign bm (q - base) v = Ok (<[Z.to_nat (q - base) := v]> bm).
Proof. intros Hq. unfold assign. by rewrite blk_index. Qed.

Lemma blk_insert base bm q0 v q : base <= q0 < base + Z.of_nat (length bm) ->
  blk base (<[Z.to_nat (q0 - base) := v]> bm) q = if q =? q0 then v else blk base bm q.
Proof.
  intros Hq. unfold blk. destruct (Z.eqb_spec q q0) as [->|Hne].
  - rewrite (proj2 (Z.ltb_ge _ _)), list_lookup_insert_eq by lia. done.
  - destruct (Z.ltb_spec q base); [done|]. by rewrite list_lookup_insert_ne by lia.
Qed.

Lemma blk_app_r base bm n q : blk base (bm ++ replicate n 0) q = blk base bm q.
Proof.
  unfold blk. destruct (q <? base); [done|].
  destruct (decide (Z.to_nat (q - base) < length bm)%nat).
  - by rewrite lookup_app_l by lia.
  - rewrite lookup_app_r, (lookup_ge_None_2 bm) by lia.
    destruct (replicate n 0 !! _) eqn:E; [|done]. by apply lookup_replicate in E as [-> _].
Qed.

Lemma blk_app_l base bm n q : blk (base - Z.of_nat n) (replicate n 0 ++ bm) q = blk base bm q.
Proof.
  unfold blk. destruct (Z.ltb_spec q base), (Z.ltb_spec q (base - Z.of_nat n)); try done; try lia.
  - rewrite lookup_app_l by (rewrite length_replicate; lia).
    destruct (replicate n 0 !! _) eqn:E; [|done]. by apply lookup_replicate in E as [-> _].
  - rewrite lookup_app_r; rewrite length_replicate; [|lia]. f_equal. f_equal. lia.
Qed.

Lemma blk_drop base bm d q :
  blk (base + Z.of_nat d) (drop d bm) q = if q <? base + Z.of_nat d then 0 else blk base bm q.
Proof.
  unfold blk. destruct (Z.ltb_spec q (base + Z.of_nat d)); [done|].
  rewrite (proj2 (Z.ltb_ge _ _)) by lia. rewrite lookup_drop. f_equal. f_equal. lia.
Qed.

Lemma blk_take base bm n q :
  blk base (take n bm) q = if q <? base + Z.of_nat n then blk base bm q else 0.
Proof.
  unfold blk. destruct (Z.ltb_spec q base), (Z.ltb_spec q (base + Z.of_nat n)); try done; try lia.
  - by rewrite lookup_take_lt by lia.
  - by rewrite lookup_take_ge by lia.
Qed.

(** ** The set a bitmap index stands for *)

(** The last position that the [uint32] arithmetic of the byte bounds can represent. *)
Definition MaxBit : Z := 2 ^ 32 - 8.

Definition base (i : BitmapIndex) : Z := (firstBit i - 1) / 8.
Definition byte_at (i : BitmapIndex) (q : Z) : Z := blk (base i) (bitmap i) q.
Definition has (i : BitmapIndex) (x : Z) : bool := Z.testbit (byte_at i ((x - 1) / 8)) (bit x).

(** The bounds of an index enclose its active bits, its bytes reach from the
    byte of the first bound to the byte of the second. *)
Record ranged (i : BitmapIndex) : Prop := {
  rng_bytes : Forall is_byte (bitmap i);
  rng_bounds : 1 <= firstBit i <= lastBit i /\ lastBit i <= MaxBit;
  rng_length : Z.of_nat (length (bitmap i)) = (lastBit i - 1) / 8 - base i + 1;
  rng_has x : has i x = true -> firstBit i <= x <= lastBit i
}.

Definition empty : BitmapIndex := mkBitmapIndex [] 0 0.

(** The invariant: the empty index, or one whose bounds are active. *)
Definition wf (i : BitmapIndex) : Prop :=
  i = empty \/ ranged i /\ has i (firstBit i) = true /\ has i (lastBit i) = true.

Definition repr (i : BitmapIndex) (s : gset Z) : Prop :=
  wf i /\ forall x, x ∈ s <-> has i x = true.

Lemma has_empty x : has empty x = false.
Proof. unfold has, byte_at, blk. simpl. destruct (_ <? _); apply Z.bits_0. Qed.

Lemma rangeFirstBit_value i : ranged i -> rangeFirstBit i = base i * 8 + 1.
Proof.
  intros [_ [Hb Hm] _ _]. unfold rangeFirstBit, base, MaxBit in *.
  rewrite (uwrap_small 32 (firstBit i - 1)) by lia. apply uwrap_small. dlia.
Qed.

Lemma rangeLastBit_value i : ranged i ->
  rangeLastBit i = (base i + Z.of_nat (length (bitmap i))) * 8.
Proof.
  intros Hr. unfold rangeLastBit. rewrite rangeFirstBit_value by done.
  destruct Hr as [_ [Hb Hm] Hl _]. unfold base, MaxBit in *. rewrite Hl.
  rewrite (uwrap_small 32 ((lastBit i - 1) / 8 - _ + 1)) by dlia.
  rewrite uwrap_small by dlia. lia.
Qed.

(** The byte of a position at or after the first byte. *)
Lemma loc_value i x : ranged i -> base i * 8 < x < 2 ^ 32 ->
  to_uint32 (x - rangeFirstBit i) / 8 = (x - 1) / 8 - base i.
Proof.
  intros Hr Hx. rewrite rangeFirstBit_value by done.
  assert (0 <= base i) by (destruct Hr as [_ [Hb _] _ _]; unfold base; dlia).
  rewrite uwrap_small by lia. dlia.
Qed.

Lemma in_bytes i x : ranged i -> base i * 8 < x <= (base i + Z.of_nat (length (bitmap i))) * 8 ->
  base i <= (x - 1) / 8 < base i + Z.of_nat (length (bitmap i)).
Proof. intros Hr Hx. dlia. Qed.

Lemma has_set bm' f' l' i x :
  (forall q, blk ((f' - 1) / 8) bm' q =
     if q =? (x - 1) / 8 then Z.lor (byte_at i q) (bitShiftLeft x) else byte_at i q) ->
  forall y, has (mkBitmapIndex bm' f' l') y = has i y || (y =? x).
Proof.
  intros H y. unfold has at 1. unfold byte_at, base; simpl. rewrite H.
  destruct (Z.eqb_spec ((y - 1) / 8) ((x - 1) / 8)) as [E|N]; [by apply testbit_set|].
  rewrite (proj2 (Z.eqb_neq y x)) by (intros ->; done). by rewrite orb_false_r.
Qed.

Lemma has_clear bm' l' i x :
  (forall q, blk (base i) bm' q =
     if q =? (x - 1) / 8 then Z.land (byte_at i q) (Z.lxor (bitShiftLeft x) 255) else byte_at i q) ->
  forall y, has (mkBitmapIndex bm' (firstBit i) l') y = has i y && negb (y =? x).
Proof.
  intros H y. unfold has at 1. unfold byte_at. change (base (mkBitmapIndex _ _ _)) with (base i).
  simpl bitmap. rewrite H.
  destruct (Z.eqb_spec ((y - 1) / 8) ((x - 1) / 8)) as [E|N]; [by apply testbit_clear|].
  rewrite (proj2 (Z.eqb_neq y x)) by (intros ->; done). by rewrite andb_true_r.
Qed.

(** A new index with the bits of [i] and [x] has the bounds widened to [x]. *)
Lemma repr_widen i s bm' f' l' x : repr i s -> ranged i -> 1 <= x <= MaxBit ->
  f' = Z.min (firstBit i) x -> l' = Z.max (lastBit i) x ->
  (forall q, blk ((f' - 1) / 8) bm' q =
     if q =? (x - 1) / 8 then Z.lor (byte_at i q) (bitShiftLeft x) else byte_at i q) ->
  Forall is_byte bm' -> Z.of_nat (length bm') = (l' - 1) / 8 - (f' - 1) / 8 + 1 ->
  repr (mkBitmapIndex bm' f' l') ({[x]} ∪ s).
Proof.
  intros [Hwf Hs] Hr Hx -> -> Hq Hby Hlen. pose proof (has_set _ _ (Z.max (lastBit i) x) _ _ Hq) as Hh.
  destruct Hwf as [->|(_ & Hf & Hl)]; [destruct Hr as [_ [? _] _ _]; simpl in *; lia|].
  destruct Hr as [_ Hb _ Hhas]. split.
  - right. split; [split; [done|simpl; lia|done|]|split].
    + intros y. rewrite Hh, orb_true_iff, Z.eqb_eq. simpl. intros [H| ->]; [apply Hhas in H|]; lia.
    + rewrite Hh. simpl firstBit. destruct (Z.min_spec (firstBit i) x) as [[_ ->]|[_ ->]];
        [by rewrite Hf|by rewrite Z.eqb_refl, orb_true_r].
    + rewrite Hh. simpl lastBit. destruct (Z.max_spec (lastBit i) x) as [[_ ->]|[_ ->]];
        [by rewrite Z.eqb_refl, orb_true_r|by rewrite Hl].
  - intros y. rewrite Hh, orb_true_iff, Z.eqb_eq, elem_of_union, elem_of_singleton, Hs. tauto.
Qed.

Lemma wf_ranged i : wf i -> (firstBit i =? 0) = false -> ranged i.
Proof. intros [->|(H & _)] E; [done|done]. Qed.

Lemma set_first x : 1 <= x <= MaxBit -> repr (mkBitmapIndex [bitShiftLeft x] x x) {[x]}.
Proof.
  intros Hx. assert (Hh : forall y, has (mkBitmapIndex [bitShiftLeft x] x x) y = (y =? x)).
  { intros y. rewrite (has_set _ _ _ empty x); [by rewrite has_empty|].
    intros q. assert (byte_at empty q = 0) as -> by (unfold byte_at, blk; by destruct (_ <? _)).
    unfold blk. destruct (Z.eqb_spec q ((x - 1) / 8)) as [->|N].
    - rewrite (proj2 (Z.ltb_ge _ _)), Z.sub_diag by lia. done.
    - destruct (Z.ltb_spec q ((x - 1) / 8)); [done|]. by rewrite lookup_ge_None_2 by (simpl; lia). }
  split.
  - right. split; [split; simpl|split; rewrite Hh; apply Z.eqb_refl].
    + repeat constructor; rewrite bitShiftLeft_bit; pose proof (bit_range x);
        [apply Z.pow_nonneg; lia|]. change 256 with (2 ^ 8). apply Z.pow_lt_mono_r; lia.
    + lia.
    + unfold base. simpl. lia.
    + intros y. rewrite Hh, Z.eqb_eq. lia.
  - intros y. by rewrite Hh, Z.eqb_eq, elem_of_singleton.
Qed.

Lemma distance_value i j : 1 <= i -> 1 <= j -> distance i j = (j - 1) / 8 - (i - 1) / 8.
Proof. intros Hi Hj. unfold distance. rewrite !Z.quot_div_nonneg by lia. done. Qed.

(** Setting bit [x] of a bitmap padded to [bm] updates its byte only. *)
Lemma set_padded i bs bm x : (forall q, blk bs bm q = byte_at i q) -> Forall is_byte bm ->
  bs <= (x - 1) / 8 < bs + Z.of_nat (length bm) ->
  exists bm', (old ← index bm ((x - 1) / 8 - bs); assign bm ((x - 1) / 8 - bs) (Z.lor old (bitShiftLeft x))) = Ok bm' /\
    length bm' = length bm /\ Forall is_byte bm' /\
    forall q, blk bs bm' q = if q =? (x - 1) / 8 then Z.lor (byte_at i q) (bitShiftLeft x) else byte_at i q.
Proof.
  intros Hq Hb Hx. rewrite blk_index, bind_Ok_l, blk_assign by done. eexists. split; [done|].
  split; [apply length_insert|]. split.
  - apply Forall_insert; [done|]. rewrite bitShiftLeft_bit.
    apply lor_byte; [by apply blk_byte|apply bit_range].
  - intros q. rewrite blk_insert by done. destruct (Z.eqb_spec q ((x - 1) / 8)) as [->|]; by rewrite Hq.
Qed.

Lemma bind_assoc_ok {B} (bm : list Z) n (g : Z -> Z) (k : list Z -> res B) bm' :
  (old ← index bm n; assign bm n (g old)) = Ok bm' ->
  (old ← index bm n; bm ← assign bm n (g old); k bm) = k bm'.
Proof. destruct (index bm n); [|done..]. rewrite !bind_Ok_l. by intros ->. Qed.

Lemma setActive_repr i s x : repr i s -> 1 <= x <= MaxBit ->
  exists i', setActive i x = Ok i' /\ repr i' ({[x]} ∪ s).
Proof.
  intros Hrep Hx. pose proof Hrep as [Hwf Hs]. unfold setActive.
  destruct (firstBit i =? 0) eqn:E0.
  { eexists. split; [done|]. destruct Hwf as [->|([_ [? _] _ _] & _)]; [|zbool; lia].
    replace ({[x]} ∪ s) with ({[x]} : gset Z); [by apply set_first|].
    assert (s = ∅) as ->; [|set_solver]. apply set_eq. intros y. rewrite Hs, has_empty. set_solver. }
  pose proof (wf_ranged i Hwf E0) as Hr. pose proof Hr as [Hb [Hf Hm] Hl _]. unfold MaxBit in *.
  rewrite rangeFirstBit_value, rangeLastBit_value by done.
  destruct (_ && _) eqn:Ein; [zbool|destruct (Z.ltb_spec x (base i * 8 + 1)) as [Hlt|Hge]].
  - rewrite <- (rangeFirstBit_value i), loc_value by (done || lia).
    destruct (set_padded i (base i) (bitmap i) x) as (bm' & Hset & Hlen & Hby & Hblk);
      [done|done|dlia|].
    rewrite (bind_assoc_ok _ _ (fun old => Z.lor old (bitShiftLeft x)) _ _ Hset).
    eexists. split; [done|]. apply repr_widen with i; try done; unfold base in *.
    + destruct (Z.ltb_spec x (firstBit i)); lia.
    + destruct (x >? lastBit i) eqn:E; zbool; lia.
    + intros q. rewrite <- Hblk. f_equal. destruct (x <? firstBit i) eqn:E; zbool; dlia.
    + rewrite Hlen, Hl. destruct (x >? lastBit i) eqn:E1; destruct (x <? firstBit i) eqn:E2; zbool; dlia.
  - rewrite distance_value by (unfold base in *; dlia).
    replace ((base i * 8 + 1 - 1) / 8) with (base i) by dlia.
    unfold make_bytes. rewrite (proj2 (Z.ltb_ge _ _)) by dlia. rewrite bind_Ok_l.
    set (n := Z.to_nat (base i - (x - 1) / 8)).
    destruct (set_padded i ((x - 1) / 8) (replicate n 0 ++ bitmap i) x) as (bm' & Hset & Hlen & Hby & Hblk).
    { intros q. replace ((x - 1) / 8) with (base i - Z.of_nat n) by (subst n; dlia). apply blk_app_l. }
    { apply Forall_app. split; [|done]. by apply Forall_replicate. }
    { rewrite length_app, length_replicate. subst n. dlia. }
    rewrite Z.sub_diag in Hset.
    rewrite (bind_assoc_ok _ _ (fun old => Z.lor old (bitShiftLeft x)) _ _ Hset).
    eexists. split; [done|]. apply repr_widen with i; try done; unfold base in *; [dlia|dlia|].
    rewrite Hlen, length_app, length_replicate. subst n. dlia.
  - destruct (x >? _) eqn:Egt; [|exfalso; apply andb_false_iff in Ein as []; zbool; lia].
    zbool. rewrite <- (rangeFirstBit_value i), loc_value by (done || lia).
    rewrite distance_value by (unfold base in *; dlia).
    unfold make_bytes. rewrite (proj2 (Z.ltb_ge _ _)) by dlia. rewrite bind_Ok_l.
    match goal with |- context [replicate (Z.to_nat ?d) 0] => set (n := Z.to_nat d) end.
    destruct (set_padded i (base i) (bitmap i ++ replicate n 0) x) as (bm' & Hset & Hlen & Hby & Hblk).
    { intros q. apply blk_app_r. }
    { apply Forall_app. split; [done|]. by apply Forall_replicate. }
    { rewrite length_app, length_replicate. subst n. dlia. }
    rewrite (bind_assoc_ok _ _ (fun old => Z.lor old (bitShiftLeft x)) _ _ Hset).
    eexists. split; [done|]. apply repr_widen with i; try done; unfold base in *; [dlia|dlia|].
    rewrite Hlen, length_app, length_replicate. subst n. dlia.
Qed.

(** ** Looking for active bits *)

(** [n] is the least active position from [p] on, or there is none. *)
Definition least_from (i : BitmapIndex) (p : Z) (r : res Z) : Prop :=
  match r with
  | Ok n => p <= n /\ has i n = true /\ forall y, p <= y -> has i y = true -> n <= y
  | Err e => e = EOF /\ forall y, p <= y -> has i y = false
  | Panic _ => False
  end.

(** The position of bit [s] of byte [q]. *)
Lemma has_position i q s : 0 <= s < 8 -> has i (q * 8 + 1 + s) = Z.testbit (byte_at i q) (7 - s).
Proof.
  intros Hs. unfold has, bit. replace ((q * 8 + 1 + s - 1) / 8) with q by dlia.
  by replace ((q * 8 + 1 + s - 1) mod 8) with s by dlia.
Qed.

Lemma position_split y : exists q s, y = q * 8 + 1 + s /\ 0 <= s < 8.
Proof. exists ((y - 1) / 8), ((y - 1) mod 8). dlia. Qed.

Lemma least_from_skip i p p' r : p <= p' ->
  (forall y, p <= y -> has i y = true -> p' <= y) -> least_from i p' r -> least_from i p r.
Proof.
  intros Hp Hskip. destruct r as [n|e|m]; simpl; [|intros [-> Hn]|done].
  - intros (Hn & Hh & Hle). split; [lia|]. split; [done|]. intros y Hy Hhas. apply Hle; [by apply Hskip|done].
  - split; [done|]. intros y Hy. destruct (has i y) eqn:E; [|done].
    rewrite <- (Hn y) by by apply Hskip. done.
Qed.

Lemma ranged_length i : ranged i -> 0 <= base i /\ (base i + Z.of_nat (length (bitmap i))) * 8 <= MaxBit.
Proof. intros [_ [Hf Hm] Hl _]. unfold base, MaxBit in *. rewrite Hl. dlia. Qed.

Lemma scan_bytes_spec i : ranged i -> forall bytes loc,
  bytes = drop (Z.to_nat loc) (bitmap i) -> 0 <= loc <= Z.of_nat (length (bitmap i)) ->
  least_from i ((base i + loc) * 8 + 1) (scan_bytes (base i * 8 + 1) loc bytes).
Proof.
  intros Hr. pose proof (ranged_length i Hr) as [Hbase Hlen]. unfold MaxBit in *.
  induction bytes as [|b bytes IH]; intros loc Hd Hloc; cbn [scan_bytes].
  - split; [done|]. intros y Hy. unfold has, byte_at, blk.
    apply (f_equal length) in Hd. rewrite length_drop in Hd. simpl in Hd.
    rewrite lookup_ge_None_2 by dlia. destruct (_ <? _); apply Z.bits_0.
  - assert (Hlt : (Z.to_nat loc < length (bitmap i))%nat).
    { apply (f_equal length) in Hd. rewrite length_drop in Hd. simpl in Hd. lia. }
    assert (Hbyte : byte_at i (base i + loc) = b).
    { unfold byte_at, blk. rewrite (proj2 (Z.ltb_ge _ _)) by lia.
      replace (base i + loc - base i) with loc by lia.
      rewrite <- (Nat.add_0_r (Z.to_nat loc)), <- lookup_drop, <- Hd. done. }
    pose proof (maxBitAfter_spec b 0 ltac:(lia)) as Hmax.
    destruct (maxBitAfter b 0) as [s [|]].
    + destruct Hmax as (Hs & Ht & Hle). rewrite uwrap_small by lia.
      replace (base i * 8 + 1 + loc * 8 + s) with ((base i + loc) * 8 + 1 + s) by lia.
      split; [lia|]. rewrite has_position, Hbyte by lia. split; [done|].
      intros y Hy Hhas. destruct (position_split y) as (q & t & -> & Ht8).
      destruct (Z.lt_ge_cases (base i + loc) q); [lia|].
      assert (q = base i + loc) as -> by lia. rewrite has_position, Hbyte in Hhas by lia.
      destruct (Z.lt_ge_cases t s); [rewrite Hle in Hhas by lia; done|lia].
    + rewrite uwrap_small by lia. apply least_from_skip with ((base i + (loc + 1)) * 8 + 1).
      * lia.
      * intros y Hy Hhas. destruct (position_split y) as (q & t & -> & Ht8).
        destruct (Z.lt_ge_cases (base i + loc) q); [lia|].
        assert (q = base i + loc) as -> by lia.
        rewrite has_position, Hbyte, Hmax in Hhas by lia. done.
      * apply IH; [|lia]. by rewrite Z2Nat.inj_add, <- drop_drop, <- Hd by lia.
Qed.

Lemma nextActiveBit_spec i p : ranged i -> 0 <= p -> least_from i p (nextActiveBit i p).
Proof.
  intros Hr Hp. pose proof (ranged_length i Hr) as [Hbase Hlen].
  pose proof Hr as [_ [Hf Hm] Hl Hhas]. unfold MaxBit in *. unfold nextActiveBit.
  rewrite (proj2 (Z.eqb_neq (firstBit i) 0)) by lia. simpl orb.
  destruct (p >? lastBit i) eqn:Egt; zbool.
  { split; [done|]. intros y Hy. destruct (has i y) eqn:E; [apply Hhas in E; lia|done]. }
  set (p' := if p <? firstBit i then firstBit i else p).
  assert (Hp' : p' = Z.max p (firstBit i)) by (subst p'; destruct (Z.ltb_spec p (firstBit i)); lia).
  clearbody p'. apply least_from_skip with p'; [lia|intros y Hy E; apply Hhas in E; lia|].
  assert (Hin : base i <= (p' - 1) / 8 < base i + Z.of_nat (length (bitmap i))) by (unfold base in *; dlia).
  rewrite loc_value by (done || (unfold base in *; dlia)).
  rewrite blk_index, bind_Ok_l by done. fold (byte_at i ((p' - 1) / 8)).
  rewrite (uwrap_small 32 (p' - 1)) by lia. rewrite rangeFirstBit_value by done.
  set (q := (p' - 1) / 8) in *. set (t := (p' - 1) mod 8).
  assert (Hsplit : p' = q * 8 + 1 + t /\ 0 <= t < 8) by (subst q t; dlia). clearbody q t.
  destruct Hsplit as [-> Ht8].
  pose proof (maxBitAfter_spec (byte_at i q) t ltac:(lia)) as Hmax.
  destruct (maxBitAfter (byte_at i q) t) as [s [|]].
  - destruct Hmax as (Hs & Ht & Hle). rewrite uwrap_small by lia.
    replace (base i * 8 + 1 + (q - base i) * 8 + s) with (q * 8 + 1 + s) by lia.
    split; [lia|]. rewrite has_position by lia. split; [done|]. intros y Hy E.
    destruct (position_split y) as (q' & t' & -> & Ht').
    destruct (Z.lt_ge_cases q q'); [lia|]. assert (q' = q) as -> by lia.
    rewrite has_position in E by lia. destruct (Z.lt_ge_cases t' s); [rewrite Hle in E by lia; done|lia].
  - rewrite uwrap_small by lia.
    apply least_from_skip with ((base i + (q - base i + 1)) * 8 + 1); [lia| |].
    + intros y Hy E. destruct (position_split y) as (q' & t' & -> & Ht').
      destruct (Z.lt_ge_cases q q'); [lia|]. assert (q' = q) as -> by lia.
      rewrite has_position, Hmax in E by lia. done.
    + apply scan_bytes_spec; [done|done|lia].
Qed.

(** ** Clearing a bit *)

(** [i] after the bit [x] of its bitmap is cleared. *)
Lemma clear_bit i x : ranged i -> base i * 8 < x <= (base i + Z.of_nat (length (bitmap i))) * 8 ->
  exists bm, (old ← index (bitmap i) ((x - 1) / 8 - base i);
              assign (bitmap i) ((x - 1) / 8 - base i) (Z.land old (Z.lxor (bitShiftLeft x) 255))) = Ok bm /\
    length bm = length (bitmap i) /\ ranged (mkBitmapIndex bm (firstBit i) (lastBit i)) /\
    forall y, has (mkBitmapIndex bm (firstBit i) (lastBit i)) y = has i y && negb (y =? x).
Proof.
  intros Hr Hx. apply in_bytes in Hx; [|done]. rewrite blk_index, bind_Ok_l, blk_assign by done.
  pose proof Hr as [Hb Hf Hl Hhas].
  eexists. split; [done|]. split; [apply length_insert|].
  assert (Hh : forall y, has (mkBitmapIndex (<[Z.to_nat ((x - 1) / 8 - base i) :=
      Z.land (blk (base i) (bitmap i) ((x - 1) / 8)) (Z.lxor (bitShiftLeft x) 255)]> (bitmap i))
      (firstBit i) (lastBit i)) y = has i y && negb (y =? x)).
  { apply has_clear. intros q. rewrite blk_insert by done.
    destruct (Z.eqb_spec q ((x - 1) / 8)) as [->|]; done. }
  split; [|done]. split.
  - apply Forall_insert; [done|]. by apply land_byte, blk_byte.
  - done.
  - simpl bitmap. by rewrite length_insert.
  - intros y. rewrite Hh, andb_true_iff. intros [E _]. by apply Hhas.
Qed.

(** The index that keeps the bits of [i] and ends at the last bit of byte [j]. *)
Lemma shrink_last i j v : ranged i -> has i (firstBit i) = true ->
  0 <= j < Z.of_nat (length (bitmap i)) ->
  0 <= v < 8 -> Z.testbit (byte_at i (base i + j)) (7 - v) = true ->
  (forall t, v < t < 8 -> Z.testbit (byte_at i (base i + j)) (7 - t) = false) ->
  (forall q, base i + j < q -> byte_at i q = 0) ->
  let i' := mkBitmapIndex (take (Z.to_nat (j + 1)) (bitmap i)) (firstBit i) ((base i + j) * 8 + 1 + v) in
  wf i' /\ forall y, has i' y = has i y.
Proof.
  intros Hr Hfirst Hj Hv Hbit Habove Hzero i'. pose proof (ranged_length i Hr) as [Hbase Hlen].
  pose proof Hr as [Hb [Hf Hm] Hl Hhas]. unfold MaxBit in *.
  assert (Hh : forall y, has i' y = has i y).
  { intros y. unfold has, byte_at at 1. change (base i') with (base i). simpl bitmap.
    rewrite blk_take. destruct (Z.ltb_spec ((y - 1) / 8) (base i + Z.of_nat (Z.to_nat (j + 1)))); [done|].
    by rewrite Hzero by lia. }
  assert (Hle : forall y, has i y = true -> y <= (base i + j) * 8 + 1 + v).
  { intros y E. destruct (position_split y) as (q & t & -> & Ht).
    rewrite has_position in E by lia. destruct (Z.lt_ge_cases (base i + j) q).
    - rewrite Hzero, Z.bits_0 in E by lia. done.
    - destruct (Z.eq_dec q (base i + j)) as [->|]; [|lia].
      destruct (Z.lt_ge_cases v t); [rewrite Habove in E by lia; done|lia]. }
  split; [|done]. right. split; [split; simpl|].
  - by apply Forall_take.
  - pose proof (Hle _ Hfirst). unfold MaxBit. lia.
  - rewrite length_take. unfold base in *. simpl. dlia.
  - intros y E. rewrite Hh in E. split; [apply Hhas, E|apply Hle, E].
  - rewrite !Hh. simpl. split; [done|]. by rewrite (has_position i (base i + j) v) by lia.
Qed.

(** The trimming loop stops at the last byte that is not zero. *)
Lemma trim_loop_spec bm n m v : (n < length bm)%nat -> bm !! m = Some v -> v <> 0 -> (m <= n)%nat ->
  exists j w, trim_loop bm n = Ok j /\ (j <= n)%nat /\ bm !! j = Some w /\ w <> 0 /\
    forall k, (j < k <= n)%nat -> bm !! k = Some 0.
Proof.
  intros Hn Hm Hv. revert Hn. induction n as [|n IH]; intros Hn Hle; cbn [trim_loop];
    (destruct (lookup_lt_is_Some_2 bm _ Hn) as [b Hb]); rewrite Hb; simpl from_opt; rewrite bind_Ok_l;
    destruct (Z.eqb_spec b 0) as [->|Hne].
  - assert (m = 0%nat) as -> by lia. congruence.
  - exists 0%nat, b. split; [done|]. split; [done|]. split; [done|]. split; [done|]. intros; lia.
  - assert (m <> S n) by congruence.
    destruct IH as (j & w & -> & Hj & Hw & Hnz & Hz); [lia|lia|].
    exists j, w. split; [done|]. split; [lia|]. split; [done|]. split; [done|].
    intros k Hk. destruct (decide (k = S n)) as [->|]; [done|apply Hz; lia].
  - exists (S n), b. split; [done|]. split; [done|]. split; [done|]. split; [done|]. intros; lia.
Qed.

(** The index that keeps the bits of [i] from its least active bit [n] on. *)
Lemma shrink_first i n : ranged i -> has i (lastBit i) = true ->
  firstBit i <= n -> has i n = true -> (forall y, firstBit i <= y -> has i y = true -> n <= y) ->
  let i' := mkBitmapIndex (drop (Z.to_nat (distance (firstBit i) n)) (bitmap i)) n (lastBit i) in
  0 <= distance (firstBit i) n <= Z.of_nat (length (bitmap i)) /\ wf i' /\ forall y, has i' y = has i y.
Proof.
  intros Hr Hlast Hn Hhn Hleast i'. pose proof Hr as [Hb [Hf Hm] Hl Hhas]. pose proof (Hhas _ Hhn) as Hn'.
  unfold i'. rewrite distance_value by lia. fold (base i).
  assert (Hd : 0 <= (n - 1) / 8 - base i < Z.of_nat (length (bitmap i))) by (unfold base in *; dlia).
  set (d := Z.to_nat ((n - 1) / 8 - base i)).
  assert (Hh : forall y, has (mkBitmapIndex (drop d (bitmap i)) n (lastBit i)) y = has i y).
  { intros y. unfold has, byte_at at 1, base at 1. simpl bitmap. simpl firstBit.
    replace ((n - 1) / 8) with (base i + Z.of_nat d) by (subst d; lia). rewrite blk_drop.
    destruct (Z.ltb_spec ((y - 1) / 8) (base i + Z.of_nat d)); [|done].
    rewrite Z.bits_0. symmetry. change (has i y = false). destruct (has i y) eqn:E; [|done].
    apply Hleast in E as Hy; [|apply Hhas, E]. subst d. dlia. }
  split; [lia|]. split; [|done]. right. split; [split; simpl|by rewrite !Hh].
  - by apply Forall_drop.
  - lia.
  - rewrite length_drop. unfold base in *. simpl. subst d. dlia.
  - intros y E. rewrite Hh in E. split; [apply Hleast, E; apply Hhas, E|apply Hhas, E].
Qed.

(** What the two repairs promise of an index in which bit [x] was cleared. *)
Definition repaired (i : BitmapIndex) (r : res BitmapIndex) : Prop :=
  exists i', r = Ok i' /\ wf i' /\ forall y, has i' y = has i y.

Lemma repair_first_spec i x : ranged i -> firstBit i = x -> has i x = false ->
  (lastBit i = x \/ has i (lastBit i) = true) -> repaired i (repair_first i x).
Proof.
  intros Hr Hf Hx Hlast. pose proof Hr as [_ [Hb _] _ Hhas]. unfold repair_first.
  pose proof (nextActiveBit_spec i x Hr ltac:(lia)) as Hn.
  destruct (nextActiveBit i x) as [n|e|m]; simpl in Hn; [| |done].
  - destruct Hn as (Hn & Hhn & Hle).
    destruct Hlast as [Hlast|Hlast].
    { apply Hhas in Hhn as Hr'. assert (n = x) as -> by lia. congruence. }
    rewrite <- Hf in Hn, Hle. destruct (shrink_first i n) as (Hd & Hw & Hh); [done..|].
    rewrite (proj2 (Z.ltb_ge _ _)), Z.gtb_ltb, (proj2 (Z.ltb_ge _ _)) by lia. by eexists.
  - destruct Hn as [-> Hn]. rewrite bool_decide_true by done. eexists. split; [done|].
    split; [by left|]. intros y. rewrite has_empty. symmetry.
    destruct (has i y) eqn:E; [|done]. rewrite <- E. apply Hn. apply Hhas in E. lia.
Qed.

(** The last active bit of a last byte [j] of the bitmap that is not zero. *)
Lemma find_last i j n : ranged i -> has i (firstBit i) = true -> 0 <= j < Z.of_nat (length (bitmap i)) ->
  byte_at i (base i + j) <> 0 -> (n <= 9)%nat ->
  (forall t, Z.of_nat n <= t < 8 -> Z.testbit (byte_at i (base i + j)) (7 - t) = false) ->
  (forall q, base i + j < q -> byte_at i q = 0) ->
  let i' := mkBitmapIndex (take (Z.to_nat (j + 1)) (bitmap i)) (firstBit i) (lastBit i) in
  repaired i (
    let l := to_uint32 (Z.of_nat (length (bitmap i')) - 1) in
    last ← index (bitmap i') l;
    Ok (mkBitmapIndex (bitmap i') (firstBit i')
          (to_uint32 (rangeFirstBit i' + l * 8 + to_uint32 (last_bit_loop last n) + 1)))).
Proof.
  intros Hr Hfirst Hj Hne Hn9 Habove Hzero i'. pose proof (ranged_length i Hr) as [Hbase Hlen].
  pose proof Hr as [Hb _ _ _]. unfold MaxBit in *. simpl bitmap. simpl firstBit.
  rewrite length_take, Nat.min_l by lia. rewrite uwrap_small by lia.
  replace (Z.of_nat (Z.to_nat (j + 1)) - 1) with (base i + j - base i) by lia. cbn zeta.
  rewrite (blk_index (base i)) by (rewrite length_take; lia).
  rewrite bind_Ok_l, blk_take, (proj2 (Z.ltb_lt _ _)) by lia. fold (byte_at i (base i + j)).
  destruct (last_bit_loop_spec (byte_at i (base i + j)) n) as (v & -> & Hv & Hbit & Hab);
    [by apply blk_byte|done|done|done|].
  destruct (shrink_last i j v) as [Hw Hh]; [done..|].
  change (rangeFirstBit i') with (rangeFirstBit i). rewrite rangeFirstBit_value by done.
  replace (to_uint32 _) with ((base i + j) * 8 + 1 + v); [by eexists|].
  rewrite uwrap_add_mid, uwrap_small by lia. lia.
Qed.

Lemma repair_last_spec i x : ranged i -> has i (firstBit i) = true -> has i x = false ->
  (lastBit i = x \/ has i (lastBit i) = true) ->
  (x - 1) / 8 - base i = Z.of_nat (length (bitmap i)) - 1 -> 1 <= x ->
  repaired i (repair_last i ((x - 1) / 8 - base i) x).
Proof.
  intros Hr Hfirst Hx Hlast Hloc Hx1. pose proof (ranged_length i Hr) as [Hbase Hlen].
  pose proof Hr as [Hb [Hf _] Hl Hhas]. unfold repair_last.
  assert (Hpos : (0 < length (bitmap i))%nat) by (unfold base in *; dlia).
  rewrite blk_index, bind_Ok_l by lia. fold (byte_at i ((x - 1) / 8)).
  assert (Hend : forall q, base i + Z.of_nat (length (bitmap i)) <= q -> byte_at i q = 0).
  { intros q Hq. unfold byte_at, blk. rewrite lookup_ge_None_2 by lia. by destruct (_ <? _). }
  assert (Hbyte : forall k, (k < length (bitmap i))%nat -> bitmap i !! k = Some (byte_at i (base i + Z.of_nat k))).
  { intros k Hk. unfold byte_at, blk. rewrite (proj2 (Z.ltb_ge _ _)) by lia.
    replace (Z.to_nat (base i + Z.of_nat k - base i)) with k by lia.
    destruct (lookup_lt_is_Some_2 (bitmap i) k Hk) as [v Hv]. by rewrite Hv. }
  destruct (Z.eqb_spec (byte_at i ((x - 1) / 8)) 0) as [Hz|Hnz]; [|destruct (Z.eqb_spec (lastBit i) x) as [Hlx|Hlx]].
  - destruct (trim_loop_spec (bitmap i) (length (bitmap i) - 1) 0 (byte_at i (base i)))
      as (j & w & Hj & Hjn & Hw & Hwn & Hzero); [lia| | |lia|].
    { rewrite Hbyte by lia. by rewrite Z.add_0_r. }
    { intros H. unfold has in Hfirst. fold (base i) in Hfirst. rewrite H, Z.bits_0 in Hfirst. done. }
    rewrite Hj, !bind_Ok_l. change (8 >? -1) with true. cbv iota.
    replace (j + 1)%nat with (Z.to_nat (Z.of_nat j + 1)) by lia.
    rewrite Hbyte in Hw by lia. injection Hw as <-.
    apply find_last; [done|done|lia|done|done|simpl; intros; lia|].
    intros q Hq. destruct (Z.lt_ge_cases q (base i + Z.of_nat (length (bitmap i)))); [|by apply Hend].
    specialize (Hzero (Z.to_nat (q - base i)) ltac:(lia)). rewrite Hbyte in Hzero by lia.
    injection Hzero as Hzero. by replace (base i + Z.of_nat (Z.to_nat (q - base i))) with q in Hzero by lia.
  - rewrite bind_Ok_l. set (idx := if negb (x mod 8 =? 0) then x mod 8 else 8).
    assert (Hidx : idx = (x - 1) mod 8 + 1) by (subst idx; destruct (Z.eqb_spec (x mod 8) 0); simpl; dlia).
    clearbody idx. rewrite Z.gtb_ltb, (proj2 (Z.ltb_lt _ _)) by dlia.
    replace ((x - 1) / 8) with (base i + (Z.of_nat (length (bitmap i)) - 1)) in Hnz by lia.
    pose proof (find_last i (Z.of_nat (length (bitmap i)) - 1) (Z.to_nat (idx + 1)) Hr Hfirst) as H.
    rewrite (take_ge (bitmap i)) in H by lia.
    apply H; [lia|done|dlia| |intros q Hq; apply Hend; lia].
    intros t Ht. rewrite <- has_position by dlia. apply not_true_is_false. intros E.
    apply Hhas in E. pose proof (Z.div_mod (x - 1) 8 ltac:(lia)).
    pose proof (Z.mod_pos_bound (x - 1) 8 ltac:(lia)). lia.
  - rewrite bind_Ok_l. eexists. split; [by destruct i|]. split; [|done]. right.
    destruct Hlast; [done|]. done.
Qed.

Lemma setInactive_repr i s x : repr i s -> in_uint 32 x ->
  exists i', setInactive i x = Ok i' /\ repr i' (s ∖ {[x]}).
Proof.
  intros [Hwf Hs] Hx. unfold in_uint in Hx. unfold setInactive.
  assert (Hskip : has i x = false -> repr i (s ∖ {[x]})).
  { intros E. split; [done|]. intros y. rewrite elem_of_difference, elem_of_singleton, Hs.
    split; [tauto|]. intros H. split; [done|]. intros ->. congruence. }
  destruct (firstBit i =? 0) eqn:E0; simpl orb.
  { exists i. split; [done|]. apply Hskip. destruct Hwf as [->|([_ [? _] _ _] & _)]; [apply has_empty|zbool; lia]. }
  destruct Hwf as [->|(Hr & Hfirst & Hlast)]; [done|]. rewrite rangeFirstBit_value, rangeLastBit_value by done.
  destruct (_ || _) eqn:Eout.
  { exists i. split; [done|]. apply Hskip. apply orb_true_iff in Eout. unfold has, byte_at, blk.
    destruct (Z.ltb_spec ((x - 1) / 8) (base i)); [apply Z.bits_0|].
    rewrite lookup_ge_None_2; [apply Z.bits_0|]. destruct Eout; zbool; dlia. }
  zbool. rewrite <- (rangeFirstBit_value i), loc_value by (done || lia).
  destruct (clear_bit i x Hr) as (bm & Hset & Hlen & Hr1 & Hh); [lia|].
  rewrite (bind_assoc_ok _ _ (fun old => Z.land old (Z.lxor (bitShiftLeft x) 255)) _ _ Hset).
  simpl firstBit. simpl bitmap. set (i1 := mkBitmapIndex bm (firstBit i) (lastBit i)) in *.
  assert (Hdone : forall r, repaired i1 r -> exists i', r = Ok i' /\ repr i' (s ∖ {[x]})).
  { intros r (i' & -> & Hw & He). exists i'. split; [done|]. split; [done|]. intros y.
    rewrite He, Hh, elem_of_difference, elem_of_singleton, Hs, andb_true_iff, negb_true_iff, Z.eqb_neq. done. }
  pose proof (ranged_length i Hr) as [Hbase _]. pose proof Hr as [_ [Hf _] Hl _].
  assert (Hx0 : has i1 x = false) by (rewrite Hh, Z.eqb_refl; apply andb_false_r).
  assert (Hkeep : forall y, has i y = true -> y = x \/ has i1 y = true).
  { intros y E. rewrite Hh, E. destruct (Z.eqb_spec y x); auto. }
  destruct (_ && _) eqn:Ef; zbool; apply Hdone.
  - apply repair_first_spec; [done|done|done|]. by apply (Hkeep (lastBit i)).
  - assert (Hf1 : has i1 (firstBit i1) = true).
    { destruct (Hkeep _ Hfirst) as [E|]; [|done]. exfalso. apply andb_false_iff in Ef.
      unfold base in Ef. rewrite <- E in Ef. destruct Ef; zbool; lia. }
    destruct (Z.eqb_spec ((x - 1) / 8 - base i) (Z.of_nat (length bm) - 1)) as [Hl1|Hl1].
    + apply (repair_last_spec i1 x); [done|done|done|by apply (Hkeep (lastBit i))|done|lia].
    + exists i1. split; [done|]. split; [|done]. right. split; [done|]. split; [done|].
      destruct (Hkeep _ Hlast) as [E|]; [|done]. exfalso. apply Hl1. rewrite Hlen, Hl, E. lia.
Qed.

(** ** Queries *)

Lemma isActive_value i x : wf i -> in_uint 32 x -> x <> 0 -> isActive i x = Ok (has i x).
Proof.
  intros Hwf Hx Hx0. unfold in_uint, isActive in *.
  destruct Hwf as [->|(Hr & _)].
  - rewrite has_empty. simpl. by rewrite (proj2 (Z.leb_gt x 0)), andb_false_r by lia.
  - pose proof (ranged_length i Hr) as [Hbase _]. pose proof Hr as [_ [Hf _] Hl Hhas].
    destruct (_ && _) eqn:E; zbool.
    + rewrite loc_value by (done || (unfold base in *; dlia)).
      rewrite blk_index, bind_Ok_l by (unfold base in *; dlia). fold (byte_at i ((x - 1) / 8)).
      pose proof (bit_range x). by rewrite bitShiftLeft_bit, land_pow2_zero, negb_involutive by lia.
    + f_equal. symmetry. apply not_true_is_false. intros H. apply Hhas in H.
      apply andb_false_iff in E as []; zbool; lia.
Qed.

Lemma iterate_loop_S fuel i curr : iterate_loop (S fuel) i curr =
  match nextActiveBit i (to_uint32 (curr + 1)) with
  | Err e => if bool_decide (e = EOF) then Ok [] else Err e
  | Panic m => Panic m
  | Ok curr => rest ← iterate_loop fuel i curr; Ok (curr :: rest)
  end.
Proof. done. Qed.

Lemma iterate_loop_spec i : ranged i -> forall fuel curr, firstBit i <= curr <= MaxBit ->
  lastBit i - curr < Z.of_nat fuel ->
  exists l, iterate_loop (S fuel) i curr = Ok l /\ StronglySorted Z.lt l /\
    forall y, y ∈ l <-> curr < y /\ has i y = true.
Proof.
  intros Hr. pose proof Hr as [_ [Hf Hm] _ Hhas]. unfold MaxBit in *.
  induction fuel as [|fuel IH]; intros curr Hc Hfuel; rewrite iterate_loop_S;
    rewrite uwrap_small by lia; pose proof (nextActiveBit_spec i (curr + 1) Hr ltac:(lia)) as Hn;
    destruct (nextActiveBit i (curr + 1)) as [n|e|m]; simpl in Hn; try done.
  2,4: (destruct Hn as [-> Hn]; rewrite bool_decide_true by done; exists []; split; [done|];
        split; [constructor|]; intros y; rewrite elem_of_nil; split; [done|]; intros [Hy E];
        rewrite Hn in E by lia; done).
  - destruct Hn as (Hn & Hh & _). apply Hhas in Hh. lia.
  - destruct Hn as (Hn & Hh & Hle). pose proof (Hhas _ Hh).
    destruct (IH n) as (l & -> & Hs & Hl); [lia|lia|]. rewrite bind_Ok_l.
    exists (n :: l). split; [done|]. split.
    + constructor; [done|]. apply Forall_forall. intros y Hy. apply Hl, Hy.
    + intros y. rewrite elem_of_cons, Hl. split; [intros [->|[]]; split; [lia|done|lia|done]|].
      intros [Hy E]. specialize (Hle y ltac:(lia) E). destruct (Z.eq_dec y n); [by left|right; split; [lia|done]].
Qed.

Lemma iterate_repr i s : repr i s ->
  exists l, iterate i = Ok l /\ StronglySorted Z.lt l /\ forall y, y ∈ l <-> y ∈ s.
Proof.
  intros [Hwf Hs]. setoid_rewrite Hs. unfold iterate. destruct Hwf as [->|(Hr & Hfirst & _)].
  - exists []. split; [done|]. split; [constructor|]. intros y. rewrite has_empty. set_solver.
  - pose proof Hr as [_ [Hf Hm] Hl Hhas]. rewrite (proj2 (Z.eqb_neq (firstBit i) 0)) by lia.
    destruct (iterate_loop_spec i Hr (8 * length (bitmap i)) (firstBit i)) as (l & -> & Hsort & Hel);
      [lia|unfold base in *; dlia|].
    rewrite bind_Ok_l. exists (firstBit i :: l). split; [done|]. split.
    + constructor; [done|]. apply Forall_forall. intros y Hy. apply Hel, Hy.
    + intros y. rewrite elem_of_cons, Hel. split; [intros [->|[]]; done|].
      intros E. pose proof (Hhas _ E). destruct (Z.eq_dec y (firstBit i)); [by left|right; split; [lia|done]].
Qed.

Lemma repr_bounds i s x : repr i s -> x ∈ s -> 1 <= x <= MaxBit.
Proof.
  intros [Hwf Hs] Hx. apply Hs in Hx. destruct Hwf as [->|(Hr & _)]; [by rewrite has_empty in Hx|].
  destruct Hr as [_ [Hf Hm] _ Hhas]. apply Hhas in Hx. lia.
Qed.

Lemma set_all_repr l : forall i s, repr i s -> Forall (fun x => 1 <= x <= MaxBit) l ->
  exists i', set_all i l = Ok i' /\ repr i' (s ∪ list_to_set l).
Proof.
  induction l as [|x l IH]; intros i s Hrep Hl; simpl.
  - exists i. split; [done|]. by rewrite union_empty_r_L.
  - apply Forall_cons in Hl as [Hx Hl]. destruct (setActive_repr i s x Hrep Hx) as (i1 & -> & Hrep1).
    rewrite bind_Ok_l. destruct (IH i1 _ Hrep1 Hl) as (i' & -> & Hrep').
    exists i'. split; [done|].
    by replace (s ∪ ({[x]} ∪ list_to_set l)) with ({[x]} ∪ s ∪ list_to_set l) by set_solver.
Qed.

Lemma empty_repr : repr empty ∅.
Proof. split; [by left|]. intros x. rewrite has_empty. set_solver. Qed.

(** ** The set refinement *)

(** C23: [setActive] and [setInactive] implement insertion into and deletion
    from a finite set of positions: on an index that satisfies the invariant
    they return no error and never index out of range, the new index satisfies
    the invariant (its bounds are its first and last active bits, its bytes
    reach from one to the other), and it stands for the set with the position
    added or removed.  Insertion is stated for the positions 1 to 2^32 - 8;
    deletion for every [uint32]. *)
Theorem bitmap_updates_refine (i : BitmapIndex) (s : gset Z) (x : Z) (Hrep : repr i s) :
  (1 <= x <= MaxBit -> exists i', SetActive i x = Ok i' /\ repr i' ({[x]} ∪ s)) /\
  (in_uint 32 x -> exists i', SetInactive i x = Ok i' /\ repr i' (s ∖ {[x]})).
Proof. split; [by apply setActive_repr|by apply setInactive_repr]. Qed.

Lemma bitmap_updates_refine_witness :
  (exists i', SetActive empty 12 = Ok i' /\ i' = mkBitmapIndex [16] 12 12 /\ repr i' ({[12]} ∪ ∅)) /\
  (exists i', SetInactive (mkBitmapIndex [16] 12 12) 12 = Ok i' /\ i' = empty /\ repr i' ({[12]} ∖ {[12]})).
Proof.
  split.
  - destruct (bitmap_updates_refine empty ∅ 12 empty_repr) as [H _].
    destruct H as (i' & He & Hr); [unfold MaxBit; lia|]. exists i'. split; [done|].
    split; [|done]. by injection He.
  - destruct (bitmap_updates_refine (mkBitmapIndex [16] 12 12) {[12]} 12) as [_ H].
    + apply (set_first 12). unfold MaxBit. lia.
    + destruct H as (i' & He & Hr); [unfold in_uint; lia|]. exists i'. split; [done|].
      split; [|done]. vm_compute in He. by injection He.
Defined.

(** The queries of an index answer for the set it stands for: [isActive] is
    membership; [NextActiveBit] is the least element at or after a position, and
    [io.EOF] exactly when there is none; [iterate] ends and visits every element
    once, in increasing order. *)
Theorem bitmap_queries_refine (i : BitmapIndex) (s : gset Z) (Hrep : repr i s) :
  (forall x, in_uint 32 x -> x <> 0 -> isActive i x = Ok (bool_decide (x ∈ s))) /\
  (forall p, in_uint 32 p ->
     match NextActiveBit i p with
     | Ok n => n ∈ s /\ p <= n /\ forall y, y ∈ s -> p <= y -> n <= y
     | Err e => e = EOF /\ forall y, y ∈ s -> y < p
     | Panic _ => False
     end) /\
  (exists l, iterate i = Ok l /\ StronglySorted Z.lt l /\ forall y, y ∈ l <-> y ∈ s).
Proof.
  pose proof Hrep as [Hwf Hs]. split; [|split; [|by apply iterate_repr]].
  - intros x Hx Hx0. rewrite isActive_value by done. f_equal.
    destruct (has i x) eqn:E; symmetry; [by apply bool_decide_true, Hs|].
    apply bool_decide_false. rewrite Hs. congruence.
  - intros p [Hp _]. unfold NextActiveBit. destruct Hwf as [->|(Hr & _)].
    + simpl. split; [done|]. intros y Hy. apply Hs in Hy. by rewrite has_empty in Hy.
    + pose proof (nextActiveBit_spec i p Hr Hp) as H.
      destruct (nextActiveBit i p) as [n|e|m]; simpl in H; [| |done].
      * destruct H as (Hn & Hh & Hle). rewrite Hs. split; [done|]. split; [done|].
        intros y Hy Hpy. apply Hle; [done|by apply Hs].
      * destruct H as [-> H]. split; [done|]. intros y Hy. apply Hs in Hy.
        destruct (Z.lt_ge_cases y p); [done|]. rewrite H in Hy by lia. done.
Qed.

Lemma bitmap_queries_refine_witness :
  isActive (mkBitmapIndex [16] 12 12) 12 = Ok true /\
  NextActiveBit (mkBitmapIndex [16] 12 12) 3 = Ok 12 /\
  exists l, iterate (mkBitmapIndex [16] 12 12) = Ok l /\ forall y, y ∈ l <-> y ∈ ({[12]} : gset Z).
Proof.
  destruct (bitmap_queries_refine (mkBitmapIndex [16] 12 12) {[12]}) as (_ & _ & l & Hl & _ & H).
  - apply (set_first 12). unfold MaxBit. lia.
  - split; [done|]. split; [done|]. by exists l.
Defined.

(** [Merge] is union: it ends, returns no error, and the merged index
    satisfies the invariant and stands for the union of the two sets. *)
Theorem bitmap_Merge_union (i other : BitmapIndex) (s t : gset Z)
    (Hi : repr i s) (Ho : repr other t) :
  exists i', Merge i other = Ok i' /\ repr i' (s ∪ t).
Proof.
  unfold Merge. destruct (iterate_repr other t Ho) as (l & -> & _ & Hl). rewrite bind_Ok_l.
  destruct (set_all_repr l i s Hi) as (i' & He & Hr).
  - apply Forall_forall. intros x Hx. apply Hl in Hx. by eapply repr_bounds.
  - exists i'. split; [done|]. replace t with (list_to_set l : gset Z); [done|].
    apply set_eq. intros y. by rewrite elem_of_list_to_set, Hl.
Qed.

Lemma bitmap_Merge_union_witness :
  exists i', Merge (mkBitmapIndex [16] 12 12) (mkBitmapIndex [1] 40 40) = Ok i' /\
    i' = mkBitmapIndex [16; 0; 0; 1] 12 40 /\ repr i' ({[12]} ∪ {[40]}).
Proof.
  destruct (bitmap_Merge_union (mkBitmapIndex [16] 12 12) (mkBitmapIndex [1] 40 40) {[12]} {[40]})
    as (i' & He & Hr).
  - apply (set_first 12). unfold MaxBit. lia.
  - apply (set_first 40). unfold MaxBit. lia.
  - exists i'. split; [done|]. split; [|done]. vm_compute in He. by injection He.
Defined.

(** The bound on insertions is needed: in the last byte of the [uint32] range
    [rangeLastBit] wraps to 0, and a bit that was set cannot be cleared again. *)
Example last_byte_stuck :
  (i ← SetActive empty MaxUint32; i ← SetInactive i MaxUint32; isActive i MaxUint32) = Ok true.
Proof. reflexivity. Qed.

End Bitmap.
