(* ===== verification/Trie.v ===== *)
(** * The trie index of lighthorizon (exp/lighthorizon/index/types/trie.go)

    A prefix trie from byte strings to byte strings.  The prefixes of its nodes
    are Go slices: [doUpsert] keeps sub-slices of the caller's key.  The
    operations are therefore written over an abstract type of slices with
    functions to read and to re-slice them; with [list Z] for it they are the
    trie of immutable strings, with slices of a memory of shared arrays they are
    the trie that [Merge] builds while [iterate] appends to those arrays.

    A value of length 0 counts as absent, as in [iterate].  The children of a
    node are an association list in the order in which Go iterates over the
    map; the theorems hold for every such list. *)
From S2P Require Import Prelude.
Local Open Scope Z_scope.
Local Set Warnings "-register-all".

Module Trie.

Definition TrieIndexVersion : Z := 1.

(** ** Nodes *)

Inductive trieNode (S : Type) :=
| mkNode (Prefix : S) (Value : list Z) (Children : list (Z * trieNode S)).
Arguments mkNode {S} Prefix Value Children.

Definition Prefix {S} (n : trieNode S) : S := match n with mkNode p _ _ => p end.
Definition Value {S} (n : trieNode S) : list Z := match n with mkNode _ v _ => v end.
Definition Children {S} (n : trieNode S) : list (Z * trieNode S) := match n with mkNode _ _ c => c end.

(** A [TrieIndex] is its root, [None] for nil. *)
Abbreviation TrieIndex S := (option (trieNode S)).

(** Length of the longest common prefix: the inner loop of [doUpsert] and [Get]. *)
Fixpoint common (p k : list Z) : nat :=
  match p, k with
  | x :: p, y :: k => if x =? y then S (common p k) else O
  | _, _ => O
  end.

Fixpoint assoc {A} (b : Z) (l : list (Z * A)) : option A :=
  match l with
  | [] => None
  | (b', a) :: l => if b =? b' then Some a else assoc b l
  end.

(** Assignment to a map entry. *)
Fixpoint assoc_set {A} (b : Z) (x : A) (l : list (Z * A)) : list (Z * A) :=
  match l with
  | [] => [(b, x)]
  | (b', a) :: l => if b =? b' then (b, x) :: l else (b', a) :: assoc_set b x l
  end.

Section Operations.
Context {S : Type} (bytes : S -> list Z) (upto from : nat -> S -> S).

(** The walk of [doUpsert] from a node: the node that takes its place, and the
    returned previous value and flag. *)
Fixpoint upsert_node (n : trieNode S) (key : S) (value : list Z) {struct n} : trieNode S * (list Z * bool) :=
  match n with
  | mkNode p v cs =>
      let splitPos := common (bytes p) (bytes key) in
      let key := from splitPos key in
      match bytes key with
      | [] =>
          if Nat.eqb splitPos (length (bytes p)) then (mkNode p value cs, (v, true))
          else (mkNode (upto splitPos p) value
                  [(nth splitPos (bytes p) 0, mkNode (from (splitPos + 1) p) v cs)], ([], false))
      | b :: _ =>
          if Nat.eqb splitPos (length (bytes p)) then
            let key := from 1 key in
            let '(cs', r) :=
              (fix visit (l : list (Z * trieNode S)) : list (Z * trieNode S) * (list Z * bool) :=
                 match l with
                 | [] => ([(b, mkNode key value [])], ([], false))
                 | (b', c) :: l =>
                     if b =? b' then let '(c', r) := upsert_node c key value in ((b', c') :: l, r)
                     else let '(l', r) := visit l in ((b', c) :: l', r)
                 end) cs in
            (mkNode p v cs', r)
          else
            (mkNode (upto splitPos p) []
               (assoc_set b (mkNode (from 1 key) value [])
                  [(nth splitPos (bytes p) 0, mkNode (from (splitPos + 1) p) v cs)]), ([], false))
      end
  end.

Definition doUpsert (index : TrieIndex S) (key : S) (value : list Z) : TrieIndex S * (list Z * bool) :=
  match index with
  | None => (Some (mkNode key value []), ([], false))
  | Some root => let '(root', r) := upsert_node root key value in (Some root', r)
  end.

Definition Upsert (index : TrieIndex S) (key : S) (value : list Z) : res (TrieIndex S * (list Z * bool)) :=
  if Nat.eqb (length (bytes key)) 0 then Panic "len(key) must be > 0"
  else Ok (doUpsert index key value).

(** [Get] compares with a key of its own. *)
Fixpoint get_node (n : trieNode S) (key : list Z) {struct n} : list Z * bool :=
  match n with
  | mkNode p v cs =>
      let splitPos := common (bytes p) key in
      match drop splitPos key with
      | [] => (v, true)
      | b :: key =>
          if Nat.eqb splitPos (length (bytes p)) then
            (fix visit (l : list (Z * trieNode S)) : list Z * bool :=
               match l with
               | [] => ([], false)
               | (b', c) :: l => if b =? b' then get_node c key else visit l
               end) cs
          else ([], false)
      end
  end.

Definition Get (index : TrieIndex S) (key : list Z) : list Z * bool :=
  match index with None => ([], false) | Some root => get_node root key end.

(** ** What an index maps *)

(** The value of the node whose path is exactly the key. *)
Fixpoint find (n : trieNode S) (key : list Z) {struct n} : option (list Z) :=
  match n with
  | mkNode p v cs =>
      let splitPos := common (bytes p) key in
      if negb (Nat.eqb splitPos (length (bytes p))) then None else
      match drop splitPos key with
      | [] => Some v
      | b :: key =>
          (fix visit (l : list (Z * trieNode S)) : option (list Z) :=
             match l with
             | [] => None
             | (b', c) :: l => if b =? b' then find c key else visit l
             end) cs
      end
  end.

(** The value stored under a key, empty when there is none. *)
Definition stored (index : TrieIndex S) (key : list Z) : list Z :=
  match index with None => [] | Some root => default [] (find root key) end.

Definition at_node (index : TrieIndex S) (key : list Z) : bool :=
  match index with None => false | Some root => bool_decide (is_Some (find root key)) end.

(** No byte leads to two children. *)
Inductive wf : trieNode S -> Prop :=
| wf_node p v cs : NoDup cs.*1 -> Forall (fun c => wf c.2) cs -> wf (mkNode p v cs).

End Operations.

(** ** Tries of immutable strings *)

Abbreviation node := (trieNode (list Z)).
Definition lupto (n : nat) (s : list Z) : list Z := take n s.
Definition lfrom (n : nat) (s : list Z) : list Z := drop n s.

(** [iterate]: the keys and values passed to [f], in order. *)
Fixpoint iterate (n : node) (prefix : list Z) {struct n} : list (list Z * list Z) :=
  match n with
  | mkNode p v cs =>
      let key := prefix ++ p in
      (if Nat.eqb (length v) 0 then [] else [(key, v)]) ++
      (fix visit (l : list (Z * node)) : list (list Z * list Z) :=
         match l with
         | [] => []
         | (b, c) :: l => iterate c (key ++ [b]) ++ visit l
         end) cs
  end.

Definition Iterate (index : TrieIndex (list Z)) : list (list Z * list Z) :=
  match index with None => [] | Some root => iterate root [] end.

(** ** Walking along a key *)

Lemma node_ind' {S} (P : trieNode S -> Prop) :
  (forall p v cs, Forall (fun c => P c.2) cs -> P (mkNode p v cs)) -> forall n, P n.
Proof.
  intros H. fix IH 1. intros [p v cs]. apply H. induction cs as [|[b c] cs IHcs]; constructor; [apply IH|done].
Qed.

Lemma common_split P K : exists c P' K', P = c ++ P' /\ K = c ++ K' /\ common P K = length c /\
  (forall x y Q R, P' = x :: Q -> K' = y :: R -> x <> y).
Proof.
  revert K. induction P as [|x P IH]; intros [|y K]; cbn [common].
  - exists [], [], []. split_and!; done.
  - exists [], [], (y :: K). split_and!; done.
  - exists [], (x :: P), []. split_and!; done.
  - destruct (Z.eqb_spec x y) as [->|Hne].
    + destruct (IH K) as (c & P' & K' & -> & -> & Hc & Hd). exists (y :: c), P', K'.
      split_and!; try done. cbn. by rewrite Hc.
    + exists [], (x :: P), (y :: K). split_and!; try done. by intros ???? [= <- <-] [= <- <-].
Qed.

(** The rest of [k] after the prefix [P]. *)
Fixpoint strip (P k : list Z) : option (list Z) :=
  match P, k with
  | [], _ => Some k
  | x :: P, y :: k => if x =? y then strip P k else None
  | _ :: _, [] => None
  end.

Lemma strip_common P k :
  (if negb (Nat.eqb (common P k) (length P)) then None else Some (drop (common P k) k)) = strip P k.
Proof.
  revert k. induction P as [|x P IH]; intros [|y k]; cbn [common strip length Nat.eqb negb drop]; try done.
  destruct (Z.eqb_spec x y) as [->|]; [|done]. rewrite <- IH. done.
Qed.

Lemma strip_app c P k : strip (c ++ P) k = match strip c k with Some k' => strip P k' | None => None end.
Proof.
  revert k. induction c as [|x c IH]; intros [|y k]; cbn [app strip]; try done.
  destruct (x =? y); [apply IH|done].
Qed.

Lemma strip_Some P k k' : strip P k = Some k' <-> k = P ++ k'.
Proof.
  revert k. induction P as [|x P IH]; intros [|y k]; cbn [app strip]; try naive_solver.
  destruct (Z.eqb_spec x y) as [->|]; [rewrite IH|]; naive_solver.
Qed.

Lemma strip_self P : strip P P = Some [].
Proof. apply strip_Some. by rewrite app_nil_r. Qed.

(** What a node with prefix [P] stores under [k]; [ch b] is what its child at
    [b] stores. *)
Definition look (P v : list Z) (ch : Z -> list Z -> list Z) (k : list Z) : list Z :=
  match strip P k with
  | None => []
  | Some [] => v
  | Some (b :: k) => ch b k
  end.

(** Splitting a node changes nothing. *)
Lemma look_split c x Q v ch k :
  look (c ++ x :: Q) v ch k = look c [] (fun b k => if b =? x then look Q v ch k else []) k.
Proof.
  unfold look. rewrite strip_app. destruct (strip c k) as [[|y k']|]; cbn [strip]; try done.
  rewrite (Z.eqb_sym y x). by destruct (x =? y).
Qed.

Lemma look_leaf Q v k : look Q v (fun _ _ => []) k = if decide (k = Q) then v else [].
Proof.
  unfold look. destruct (strip Q k) as [r|] eqn:E.
  - apply strip_Some in E as ->. destruct r; [by rewrite app_nil_r, decide_True|].
    rewrite decide_False; [done|]. intros H. apply (f_equal length) in H. rewrite length_app in H. simpl in H. lia.
  - rewrite decide_False; [done|]. intros ->. rewrite strip_self in E. congruence.
Qed.

Lemma look_ext P v ch ch' k : (forall b k, ch b k = ch' b k) -> look P v ch k = look P v ch' k.
Proof. intros H. unfold look. by destruct (strip P k) as [[|b k']|]. Qed.

(** Changing the value, or one child. *)
Lemma look_value P v v' ch k : look P v' ch k = if decide (k = P) then v' else look P v ch k.
Proof.
  unfold look. destruct (strip P k) as [r|] eqn:E.
  - apply strip_Some in E as ->. destruct r; [by rewrite app_nil_r, decide_True|].
    rewrite decide_False; [done|]. intros H. apply (f_equal length) in H. rewrite length_app in H. simpl in H. lia.
  - rewrite decide_False; [done|]. intros ->. rewrite strip_self in E. congruence.
Qed.

Lemma look_child P v b R val ch ch' k :
  (forall b' k', ch' b' k' = if decide (b' = b /\ k' = R) then val else ch b' k') ->
  look P v ch' k = if decide (k = P ++ b :: R) then val else look P v ch k.
Proof.
  intros H. unfold look. destruct (strip P k) as [r|] eqn:E.
  - apply strip_Some in E as ->. destruct r as [|b' k']; [rewrite decide_False; [done|]|].
    + rewrite app_nil_r. intros Heq. apply (f_equal length) in Heq. rewrite length_app in Heq. simpl in Heq. lia.
    + rewrite H. destruct (decide (b' = b /\ k' = R)) as [[-> ->]|Hne]; [by rewrite decide_True|].
      rewrite decide_False; [done|]. intros Heq%app_inv_head. naive_solver.
  - rewrite decide_False; [done|]. intros ->.
    assert (strip P (P ++ b :: R) = Some (b :: R)) by by apply strip_Some. congruence.
Qed.

Section Laws.
Context {S : Type} (bytes : S -> list Z) (upto from : nat -> S -> S).
Hypothesis bytes_upto : forall n s, (n <= length (bytes s))%nat -> bytes (upto n s) = take n (bytes s).
Hypothesis bytes_from : forall n s, bytes (from n s) = drop n (bytes s).

Definition val (n : trieNode S) (k : list Z) : list Z := default [] (find bytes n k).

Lemma find_child (l : list (Z * trieNode S)) b k :
  (fix visit (l : list (Z * trieNode S)) : option (list Z) :=
     match l with
     | [] => None
     | (b', c) :: l => if b =? b' then find bytes c k else visit l
     end) l = match assoc b l with Some c => find bytes c k | None => None end.
Proof. induction l as [|[b' c] l IH]; cbn [assoc]; [done|]. by destruct (b =? b'). Qed.

Lemma val_look p v cs k : val (mkNode p v cs) k =
  look (bytes p) v (fun b k => match assoc b cs with Some c => val c k | None => [] end) k.
Proof.
  unfold val, look. cbn [find]. rewrite <- (strip_common (bytes p) k).
  destruct (negb _); [done|]. destruct (drop _ k) as [|b r]; [done|].
  rewrite find_child. by destruct (assoc b cs).
Qed.

Lemma upsert_child (l : list (Z * trieNode S)) b key value :
  (fix visit (l : list (Z * trieNode S)) : list (Z * trieNode S) * (list Z * bool) :=
     match l with
     | [] => ([(b, mkNode key value [])], ([], false))
     | (b', c) :: l =>
         if b =? b' then let '(c', r) := upsert_node bytes upto from c key value in ((b', c') :: l, r)
         else let '(l', r) := visit l in ((b', c) :: l', r)
     end) l =
  match assoc b l with
  | Some c => (assoc_set b (upsert_node bytes upto from c key value).1 l,
               (upsert_node bytes upto from c key value).2)
  | None => (assoc_set b (mkNode key value []) l, ([], false))
  end.
Proof.
  induction l as [|[b' c] l IH]; cbn [assoc assoc_set]; [done|].
  destruct (Z.eqb_spec b b') as [->|]; [by destruct (upsert_node _ _ _ c key value)|].
  rewrite IH. by destruct (assoc b l).
Qed.

Lemma assoc_set_lookup {A} b (x : A) l b' : assoc b' (assoc_set b x l) = if b' =? b then Some x else assoc b' l.
Proof.
  induction l as [|[c a] l IH]; cbn [assoc assoc_set].
  - by destruct (b' =? b).
  - destruct (Z.eqb_spec b c) as [->|Hne]; cbn [assoc].
    + by destruct (Z.eqb_spec b' c).
    + rewrite IH. destruct (Z.eqb_spec b' c) as [->|]; [|done]. by rewrite (proj2 (Z.eqb_neq c b)).
Qed.

Lemma assoc_elem {A} b (x : A) l : assoc b l = Some x -> (b, x) ∈ l.
Proof.
  induction l as [|[c a] l IH]; cbn [assoc]; [done|]. destruct (Z.eqb_spec b c) as [->|].
  - intros [= ->]. left.
  - intros H. right. auto.
Qed.

(** [doUpsert] stores the value under the key and nothing else changes. *)
Lemma upsert_node_val n : forall key value k,
  val (upsert_node bytes upto from n key value).1 k =
    if decide (k = bytes key) then value else val n k.
Proof.
  induction n as [p v cs IH] using node_ind'. intros key value k. cbn [upsert_node].
  destruct (common_split (bytes p) (bytes key)) as (c & P' & K' & HP & HK & Hc & Hd).
  rewrite Hc, bytes_from, HK, drop_app_length, HP, length_app.
  destruct K' as [|b R].
  - rewrite app_nil_r. destruct P' as [|x Q].
    + rewrite Nat.add_0_r, Nat.eqb_refl. cbn [fst]. rewrite !val_look, HP, app_nil_r. apply look_value.
    + cbn [length]. rewrite (proj2 (Nat.eqb_neq _ _)) by lia. cbn [fst].
      rewrite !val_look, HP, bytes_upto by (rewrite HP, length_app; lia). rewrite HP, take_app_length, nth_middle.
      rewrite (look_split c x Q v), (look_value c []). destruct (decide _); [done|]. apply look_ext. intros b' k'.
      cbn [assoc]. destruct (b' =? x); [|done]. rewrite val_look, bytes_from, HP.
      by rewrite drop_app_add.
  - cbn [length]. destruct P' as [|x Q].
    + rewrite Nat.add_0_r, Nat.eqb_refl, upsert_child.
      set (key' := from 1 (from (length c) key)).
      assert (Hkey : bytes key' = R) by (unfold key'; by rewrite !bytes_from, HK, drop_app_length).
      destruct (assoc b cs) as [n'|] eqn:Ea; cbn [fst]; rewrite !val_look, HP, app_nil_r; apply look_child;
        intros b' k'; rewrite assoc_set_lookup; destruct (Z.eqb_spec b' b) as [->|Hne].
      * assert (Hin : (b, n') ∈ cs) by (by apply assoc_elem). rewrite Forall_forall in IH.
        rewrite (IH _ Hin), Hkey, Ea. repeat case_decide; naive_solver.
      * by rewrite decide_False by naive_solver.
      * rewrite val_look, Hkey. cbn [assoc]. rewrite look_leaf, Ea. repeat case_decide; naive_solver.
      * by rewrite decide_False by naive_solver.
    + cbn [length]. rewrite (proj2 (Nat.eqb_neq _ _)) by lia. cbn [fst].
      assert (Hxb : x <> b) by by eapply Hd.
      rewrite !val_look, HP, bytes_upto by (rewrite HP, length_app; lia). rewrite HP, take_app_length, nth_middle.
      rewrite (look_split c x Q v). apply look_child. intros b' k'. rewrite assoc_set_lookup. cbn [assoc].
      destruct (Z.eqb_spec b' b) as [->|Hne].
      * rewrite val_look, !bytes_from, HK, drop_app_length. cbn [drop assoc]. rewrite look_leaf.
        rewrite (proj2 (Z.eqb_neq b x)) by done. repeat case_decide; naive_solver.
      * rewrite decide_False by naive_solver. destruct (Z.eqb_spec b' x); [|done].
        rewrite val_look, bytes_from, HP. by rewrite drop_app_add.
Qed.

Lemma find_strip p v cs k : find bytes (mkNode p v cs) k =
  match strip (bytes p) k with
  | None => None
  | Some [] => Some v
  | Some (b :: k) => match assoc b cs with Some c => find bytes c k | None => None end
  end.
Proof.
  cbn [find]. rewrite <- (strip_common (bytes p) k). destruct (negb _); [done|].
  destruct (drop _ k) as [|b r]; [done|]. by rewrite find_child.
Qed.

(** The returned pair tells what was at the key. *)
Lemma upsert_node_ret n : forall key value,
  (upsert_node bytes upto from n key value).2 =
    match find bytes n (bytes key) with Some v => (v, true) | None => ([], false) end.
Proof.
  induction n as [p v cs IH] using node_ind'. intros key value. rewrite find_strip. cbn [upsert_node].
  destruct (common_split (bytes p) (bytes key)) as (c & P' & K' & HP & HK & Hc & Hd).
  rewrite Hc, bytes_from, HK, drop_app_length, HP, length_app, strip_app.
  rewrite (proj2 (strip_Some c (c ++ K') K') eq_refl).
  destruct K' as [|b R], P' as [|x Q]; cbn [length strip]; rewrite ?Nat.add_0_r, ?Nat.eqb_refl.
  - done.
  - by rewrite (proj2 (Nat.eqb_neq _ _)) by lia.
  - rewrite upsert_child. destruct (assoc b cs) as [n'|] eqn:Ea; cbn [snd]; [|done].
    rewrite Forall_forall in IH. rewrite (IH _ (assoc_elem _ _ _ Ea)).
    by rewrite !bytes_from, HK, drop_app_length.
  - rewrite (proj2 (Nat.eqb_neq _ _)) by lia. rewrite (proj2 (Z.eqb_neq x b)) by by eapply Hd. done.
Qed.

Lemma get_child (l : list (Z * trieNode S)) b k :
  (fix visit (l : list (Z * trieNode S)) : list Z * bool :=
     match l with
     | [] => ([], false)
     | (b', c) :: l => if b =? b' then get_node bytes c k else visit l
     end) l = match assoc b l with Some c => get_node bytes c k | None => ([], false) end.
Proof. induction l as [|[b' c] l IH]; cbn [assoc]; [done|]. by destruct (b =? b'). Qed.

(** [Get] finds the nearest node at or below the key, if any. *)
Lemma get_node_spec n : forall k,
  (get_node bytes n k = ([], false) /\ forall e, find bytes n (k ++ e) = None) \/
  (exists e v, get_node bytes n k = (v, true) /\ find bytes n (k ++ e) = Some v /\
     forall e1 e2, e = e1 ++ e2 -> e2 <> [] -> find bytes n (k ++ e1) = None).
Proof.
  induction n as [p v cs IH] using node_ind'. intros k. cbn [get_node].
  destruct (common_split (bytes p) k) as (c & P' & K' & HP & HK & Hc & Hd).
  rewrite Hc, HK, drop_app_length, HP, length_app.
  assert (Hf : forall e, find bytes (mkNode p v cs) ((c ++ K') ++ e) =
    match strip P' (K' ++ e) with
    | None => None
    | Some [] => Some v
    | Some (b :: k) => match assoc b cs with Some c => find bytes c k | None => None end
    end).
  { intros e. rewrite find_strip, HP, strip_app, <- app_assoc.
    by rewrite (proj2 (strip_Some c (c ++ K' ++ e) (K' ++ e)) eq_refl). }
  destruct K' as [|b R].
  - right. exists P', v. split; [done|]. rewrite Hf, app_nil_l. split.
    + by rewrite strip_self.
    + intros e1 e2 He Hne. rewrite Hf, app_nil_l, He. destruct (strip (e1 ++ e2) e1) as [r|] eqn:E; [|done].
      apply strip_Some in E. apply (f_equal length) in E. rewrite !length_app in E.
      destruct e2; [done|]. simpl in E. lia.
  - destruct P' as [|x Q]; cbn [length].
    + rewrite Nat.add_0_r, Nat.eqb_refl, get_child. cbn [strip app] in Hf.
      destruct (assoc b cs) as [n'|] eqn:Ea.
      * rewrite Forall_forall in IH. destruct (IH _ (assoc_elem _ _ _ Ea) R) as [[H1 H2]|(e & v' & H1 & H2 & H3)].
        -- left. split; [done|]. intros e. by rewrite Hf.
        -- right. exists e, v'. split; [done|]. rewrite Hf. split; [done|]. intros e1 e2 He Hne. rewrite Hf. by eapply H3.
      * left. split; [done|]. intros e. by rewrite Hf.
    + left. rewrite (proj2 (Nat.eqb_neq _ _)) by lia. split; [done|]. intros e. rewrite Hf. cbn [app strip].
      by rewrite (proj2 (Z.eqb_neq x b)) by by eapply Hd.
Qed.

(** ** Well-formedness *)

Lemma assoc_set_keys {A} b (x : A) l : NoDup l.*1 -> NoDup (assoc_set b x l).*1 /\
  (forall b', b' ∈ (assoc_set b x l).*1 <-> b' = b \/ b' ∈ l.*1).
Proof.
  induction l as [|[c a] l IH]; cbn [assoc_set]; intros Hn.
  - split; [apply NoDup_singleton|]. intros b'. cbn. rewrite list_elem_of_singleton, elem_of_nil. naive_solver.
  - cbn in Hn. apply NoDup_cons in Hn as [Hni Hn]. destruct (Z.eqb_spec b c) as [->|Hne]; cbn.
    + split; [by apply NoDup_cons|]. intros b'. rewrite !elem_of_cons. naive_solver.
    + destruct (IH Hn) as [H1 H2]. split.
      * apply NoDup_cons. split; [|done]. rewrite H2. naive_solver.
      * intros b'. rewrite !elem_of_cons, H2. naive_solver.
Qed.

Lemma Forall_assoc_set {A} (P : A -> Prop) b x l : P x -> Forall (fun c => P c.2) l ->
  Forall (fun c => P c.2) (assoc_set b x l).
Proof.
  intros Hx. induction 1 as [|[c a] l Ha Hl IH]; cbn [assoc_set]; [by constructor|].
  destruct (b =? c); by constructor.
Qed.

Lemma wf_leaf (p : S) v : wf (mkNode p v []).
Proof. constructor; [apply NoDup_nil_2|constructor]. Qed.

Lemma upsert_node_wf n : forall key value, wf n -> wf (upsert_node bytes upto from n key value).1.
Proof.
  induction n as [p v cs IH] using node_ind'. intros key value Hw. inversion Hw as [? ? ? Hn Hc]; subst. cbn [upsert_node].
  assert (Hpush : wf (mkNode (from (common (bytes p) (bytes key) + 1) p) v cs)) by by constructor.
  destruct (bytes (from _ key)) as [|b R].
  - destruct (Nat.eqb _ _); cbn [fst]; constructor; try done; [apply NoDup_singleton|by constructor].
  - destruct (Nat.eqb _ _).
    + rewrite upsert_child. rewrite Forall_forall in IH.
      destruct (assoc b cs) as [n'|] eqn:Ea; cbn [fst]; constructor;
        try (by apply assoc_set_keys); apply Forall_assoc_set; try done; [|apply wf_leaf].
      pose proof (assoc_elem _ _ _ Ea) as Hin. apply (IH _ Hin). rewrite Forall_forall in Hc. by apply (Hc _ Hin).
    + cbn [fst]. constructor.
      * apply assoc_set_keys. apply NoDup_singleton.
      * apply Forall_assoc_set; [apply wf_leaf|]. by constructor.
Qed.

(** The key itself is a node afterwards. *)
Lemma upsert_node_find n : forall key value,
  find bytes (upsert_node bytes upto from n key value).1 (bytes key) = Some value.
Proof.
  induction n as [p v cs IH] using node_ind'. intros key value. cbn [upsert_node].
  destruct (common_split (bytes p) (bytes key)) as (c & P' & K' & HP & HK & Hc & Hd).
  assert (Hs : forall r, strip c (c ++ r) = Some r) by (intros r; by apply strip_Some).
  rewrite Hc, bytes_from, HK, drop_app_length, HP, length_app.
  destruct K' as [|b R], P' as [|x Q]; cbn [length]; rewrite ?Nat.add_0_r, ?Nat.eqb_refl.
  - cbn [fst]. rewrite find_strip, HP, !app_nil_r. by rewrite strip_self.
  - rewrite (proj2 (Nat.eqb_neq _ _)) by lia. cbn [fst].
    rewrite find_strip, bytes_upto, HP, take_app_length by (rewrite HP, length_app; lia). by rewrite Hs.
  - rewrite upsert_child. destruct (assoc b cs) as [n'|] eqn:Ea; cbn [fst];
      rewrite find_strip, HP, app_nil_r, Hs, assoc_set_lookup, Z.eqb_refl.
    + rewrite Forall_forall in IH. pose proof (IH _ (assoc_elem _ _ _ Ea) (from 1 (from (length c) key)) value) as H.
      by rewrite !bytes_from, HK, drop_app_length in H.
    + rewrite find_strip, !bytes_from, HK, drop_app_length. change (drop 1 (b :: R)) with R.
      by rewrite strip_self.
  - rewrite (proj2 (Nat.eqb_neq _ _)) by lia. cbn [fst].
    rewrite find_strip, bytes_upto, HP, take_app_length by (rewrite HP, length_app; lia).
    rewrite Hs, assoc_set_lookup, Z.eqb_refl, find_strip, !bytes_from, HK, drop_app_length.
    change (drop 1 (b :: R)) with R. by rewrite strip_self.
Qed.

Lemma get_node_at n k v : find bytes n k = Some v -> get_node bytes n k = (v, true).
Proof.
  intros H. destruct (get_node_spec n k) as [[_ Hn]|(e & v' & -> & He & Hmin)].
  - specialize (Hn []). rewrite app_nil_r in Hn. congruence.
  - destruct e as [|b e]; [rewrite app_nil_r in He; congruence|].
    specialize (Hmin [] (b :: e) eq_refl ltac:(done)). rewrite app_nil_r in Hmin. congruence.
Qed.

(** ** Whole indices *)

Lemma doUpsert_stored index key value k :
  stored bytes (doUpsert bytes upto from index key value).1 k =
    if decide (k = bytes key) then value else stored bytes index k.
Proof.
  destruct index as [root|]; cbn [doUpsert stored].
  - pose proof (upsert_node_val root key value k) as H. unfold val in H.
    destruct (upsert_node _ _ _ root key value) as [root' r]. done.
  - transitivity (val (mkNode key value []) k); [done|]. rewrite val_look. cbn [assoc]. by rewrite look_leaf.
Qed.

Lemma doUpsert_ret index key value :
  (doUpsert bytes upto from index key value).2 = (stored bytes index (bytes key), at_node bytes index (bytes key)).
Proof.
  destruct index as [root|]; cbn [doUpsert stored at_node]; [|done].
  pose proof (upsert_node_ret root key value) as H. destruct (upsert_node _ _ _ root key value) as [root' r].
  cbn [snd] in *. rewrite H. by destruct (find bytes root (bytes key)).
Qed.

Definition index_wf (index : TrieIndex S) : Prop := match index with None => True | Some root => wf root end.

Lemma doUpsert_wf index key value : index_wf index -> index_wf (doUpsert bytes upto from index key value).1.
Proof.
  destruct index as [root|]; cbn [doUpsert index_wf]; intros Hw; [|apply wf_leaf].
  pose proof (upsert_node_wf root key value Hw) as H. by destruct (upsert_node _ _ _ root key value).
Qed.

Lemma doUpsert_get index key value :
  Get bytes (doUpsert bytes upto from index key value).1 (bytes key) = (value, true).
Proof.
  destruct index as [root|]; cbn [doUpsert Get].
  - pose proof (upsert_node_find root key value) as H. destruct (upsert_node _ _ _ root key value) as [root' r].
    by apply get_node_at.
  - apply get_node_at. rewrite find_strip. by rewrite strip_self.
Qed.

End Laws.

(** ** Iterating *)

Lemma iterate_children (l : list (Z * node)) key :
  (fix visit (l : list (Z * node)) : list (list Z * list Z) :=
     match l with
     | [] => []
     | (b, c) :: l => iterate c (key ++ [b]) ++ visit l
     end) l = concat (map (fun c => iterate c.2 (key ++ [c.1])) l).
Proof. induction l as [|[b c] l IH]; cbn; [done|]. by rewrite IH. Qed.

Lemma assoc_Some {A} b (x : A) l : NoDup l.*1 -> assoc b l = Some x <-> (b, x) ∈ l.
Proof.
  intros Hn. split; [apply assoc_elem|]. induction l as [|[c a] l IH]; cbn [assoc]; [by intros ?%elem_of_nil|].
  cbn in Hn. apply NoDup_cons in Hn as [Hni Hn]. intros Hin. apply elem_of_cons in Hin as [[= -> ->]|Hin].
  - by rewrite Z.eqb_refl.
  - destruct (Z.eqb_spec b c) as [->|]; [|by apply IH]. destruct Hni. apply list_elem_of_fmap. by exists (c, x).
Qed.

(** The pairs visited: the stored keys with their values. *)
Lemma iterate_elem n : wf n -> forall pre k v,
  (k, v) ∈ iterate n pre <-> exists k', k = pre ++ k' /\ find (fun s => s) n k' = Some v /\ v <> [].
Proof.
  induction n as [p v0 cs IH] using node_ind'. intros Hw pre k v. inversion Hw as [? ? ? Hn Hc]; subst.
  cbn [iterate]. rewrite iterate_children, elem_of_app. rewrite Forall_forall in IH, Hc.
  assert (Hf : forall k', find (fun s : list Z => s) (mkNode p v0 cs) k' = Some v <->
    (k' = p /\ v = v0) \/ (exists b c r, k' = p ++ b :: r /\ (b, c) ∈ cs /\ find (fun s => s) c r = Some v)).
  { intros k'. rewrite find_strip. split.
    - destruct (strip p k') as [[|b r]|] eqn:E; [|destruct (assoc b cs) as [c|] eqn:Ea|]; try done; apply strip_Some in E as ->.
      + intros [= <-]. left. by rewrite app_nil_r.
      + intros H. right. exists b, c, r. split; [done|]. split; [by apply assoc_elem|done].
    - intros [[-> ->]|(b & c & r & -> & Hin & H)].
      + by rewrite strip_self.
      + rewrite (proj2 (strip_Some p (p ++ b :: r) (b :: r)) eq_refl). by rewrite (proj2 (assoc_Some b c cs Hn)). }
  split.
  - intros [H|H].
    + destruct (Nat.eqb_spec (length v0) 0) as [|Hne]; [by apply elem_of_nil in H|].
      apply list_elem_of_singleton in H as [= -> ->]. exists p. split; [done|]. split; [apply Hf; by left|]. by destruct v0.
    + rewrite list_elem_of_In, in_concat in H. destruct H as (l & Hl & Hin). apply in_map_iff in Hl as ([b c] & <- & Hbc).
      apply list_elem_of_In in Hin. apply list_elem_of_In in Hbc. cbn [fst snd] in Hin.
      apply (IH _ Hbc (Hc _ Hbc)) in Hin as (k' & -> & Hk & Hv). exists (p ++ b :: k').
      rewrite <- !app_assoc. split; [done|]. split; [|done]. apply Hf. right. by exists b, c, k'.
  - intros (k' & -> & Hk & Hv). apply Hf in Hk as [[-> ->]|(b & c & r & -> & Hin & H)].
    + left. destruct v0; [done|]. by apply list_elem_of_singleton.
    + right. rewrite list_elem_of_In, in_concat. exists (iterate c ((pre ++ p) ++ [b])). split.
      * apply in_map_iff. exists (b, c). split; [done|]. by rewrite <- list_elem_of_In.
      * rewrite <- list_elem_of_In. apply (IH _ Hin (Hc _ Hin)). exists r. rewrite <- !app_assoc. done.
Qed.

Lemma iterate_prefix n pre k v : wf n -> (k, v) ∈ iterate n pre -> exists k', k = pre ++ k'.
Proof. intros Hw H. apply iterate_elem in H as (k' & -> & _); [by exists k'|done]. Qed.

(** No key is visited twice. *)
Lemma iterate_NoDup n : wf n -> forall pre, NoDup (iterate n pre).*1.
Proof.
  induction n as [p v cs IH] using node_ind'. intros Hw pre. inversion Hw as [? ? ? Hn Hc]; subst.
  cbn [iterate]. rewrite iterate_children, fmap_app. generalize (pre ++ p). intros key.
  assert (Hch : NoDup (concat (map (fun c => iterate c.2 (key ++ [c.1])) cs)).*1 /\
    forall k, k ∈ (concat (map (fun c => iterate c.2 (key ++ [c.1])) cs)).*1 -> exists b r, b ∈ cs.*1 /\ k = key ++ b :: r).
  { clear Hw. induction cs as [|[b c] cs IHcs]; cbn [map concat].
    - split; [apply NoDup_nil_2|]. by intros k ?%elem_of_nil.
    - cbn in Hn. apply NoDup_cons in Hn as [Hni Hn]. apply Forall_cons in Hc as [Hc1 Hc]. apply Forall_cons in IH as [IH1 IH].
      destruct (IHcs IH Hn Hc) as [H1 H2]. rewrite fmap_app. cbn [fst snd].
      assert (Hhead : forall k, k ∈ (iterate c (key ++ [b])).*1 -> exists r, k = key ++ b :: r).
      { intros k Hk. apply list_elem_of_fmap in Hk as ([k0 v0] & -> & Hk).
        apply iterate_prefix in Hk as [r ->]; [|done]. exists r. by rewrite <- app_assoc. }
      split.
      + apply NoDup_app. split; [by apply IH1|]. split; [|done]. intros k Hk Hk'.
        apply Hhead in Hk as [r ->]. apply H2 in Hk' as (b' & r' & Hb' & Heq). apply app_inv_head in Heq. by simplify_eq.
      + intros k Hk. apply elem_of_app in Hk as [Hk|Hk].
        * apply Hhead in Hk as [r ->]. exists b, r. split; [left|done].
        * apply H2 in Hk as (b' & r & Hb' & ->). exists b', r. split; [by right|done]. }
  destruct Hch as [H1 H2]. apply NoDup_app. split.
  - destruct (Nat.eqb _ _); [apply NoDup_nil_2|apply NoDup_singleton].
  - split; [|done]. intros k Hk Hk'. destruct (Nat.eqb _ _); [by apply elem_of_nil in Hk|].
    apply list_elem_of_singleton in Hk as ->. apply H2 in Hk' as (b & r & _ & Heq).
    apply (f_equal length) in Heq. rewrite length_app in Heq. simpl in Heq. lia.
Qed.

(** ** Properties *)

Lemma lupto_take n (s : list Z) : (n <= length s)%nat -> lupto n s = take n s.
Proof. done. Qed.

Lemma lfrom_drop n (s : list Z) : lfrom n s = drop n s.
Proof. done. Qed.

(** C24: a trie index is a map from keys to values, on every shape of trie: an
    upsert keeps the index well formed, stores the value under its key and
    leaves every other key alone whether it updates a node, adds a leaf or
    splits a node, returns the previous value and whether the key was a node,
    and can be read back; an empty key panics. *)
Theorem trie_upsert_refines (index : TrieIndex (list Z)) (key value : list Z) (Hwf : index_wf index) :
  match Upsert id lupto lfrom index key value with
  | Ok (index', prev) =>
      key <> [] /\ index_wf index' /\
      (forall k, stored id index' k = if decide (k = key) then value else stored id index k) /\
      prev = (stored id index key, at_node id index key) /\
      Get id index' key = (value, true)
  | Panic _ => key = []
  | Err _ => False
  end.
Proof.
  unfold Upsert. change (id key) with key. destruct key as [|b key]; [done|]. cbn [length Nat.eqb].
  destruct (doUpsert id lupto lfrom index (b :: key) value) as [index' prev] eqn:E.
  pose proof (doUpsert_stored id lupto lfrom lupto_take lfrom_drop index (b :: key) value) as H1.
  pose proof (doUpsert_ret id lupto lfrom lfrom_drop index (b :: key) value) as H2.
  pose proof (doUpsert_wf id lupto lfrom index (b :: key) value Hwf) as H3.
  pose proof (doUpsert_get id lupto lfrom lupto_take lfrom_drop index (b :: key) value) as H4.
  rewrite E in H1, H2, H3, H4. by split_and!.
Qed.

Definition abc : TrieIndex (list Z) :=
  Some (mkNode [97] [1] [(98, mkNode [99; 100] [2] []); (120, mkNode [] [3] [])]).

Lemma abc_wf : index_wf abc.
Proof.
  constructor; [repeat (apply NoDup_cons_2; [set_solver|]); apply NoDup_nil_2|].
  repeat (apply Forall_cons_2; [apply wf_leaf|]). apply Forall_nil_2.
Qed.

Lemma trie_upsert_refines_witness :
  exists index', Upsert id lupto lfrom abc [97; 98; 99] [7] = Ok (index', ([], false)) /\
     stored id index' [97; 98; 99] = [7] /\ stored id index' [97; 98; 99; 100] = [2].
Proof.
  pose proof (trie_upsert_refines abc [97; 98; 99] [7] abc_wf) as H.
  destruct (Upsert id lupto lfrom abc [97; 98; 99] [7]) as [[index' prev]|e|m] eqn:E; [|done|done].
  destruct H as (_ & _ & Hs & Hp & _). exists index'. split; [by rewrite Hp|].
  rewrite !Hs. split; reflexivity.
Defined.

(** [Get] answers with the nearest node at or below the key: the value of
    the shortest path of the trie that extends it, and false only when no path
    does.  So a stored key is found with its value, and a key that is only a
    prefix of a stored one is reported as present too. *)
Theorem trie_Get_nearest (index : TrieIndex (list Z)) (k : list Z) :
  (Get id index k = ([], false) /\ forall e, at_node id index (k ++ e) = false) \/
  (exists e, Get id index k = (stored id index (k ++ e), true) /\ at_node id index (k ++ e) = true /\
     forall e1 e2, e = e1 ++ e2 -> e2 <> [] -> at_node id index (k ++ e1) = false).
Proof.
  destruct index as [root|]; [|by left]. cbn [Get stored at_node].
  destruct (get_node_spec id root k) as [[H1 H2]|(e & v & H1 & H2 & H3)].
  - left. split; [done|]. intros e. by rewrite H2.
  - right. exists e. rewrite H2. split; [done|]. split; [done|]. intros e1 e2 He Hne. by rewrite (H3 e1 e2 He Hne).
Qed.

(** A prefix that was never inserted is reported as present. *)
Example Get_prefix_of_key : Get id (Some (mkNode [97; 98; 99] [1] [])) [97] = ([1], true).
Proof. reflexivity. Qed.

End Trie.
