(* ===== verification/TrieMemory.v ===== *)
(** * The trie index over shared memory (exp/lighthorizon/index/types/trie.go)

    [Iterate] builds the key of a node with [append], and Go's append writes
    into the array it is given when the capacity allows.  A callback that only
    reads its key sees the right bytes; [Merge] passes a callback that keeps
    sub-slices of the key in another trie.  Here slices are windows of arrays in
    a memory, the growth policy of the runtime is a parameter, and the theorems
    say what each callback observes. *)
From S2P Require Import Prelude Trie.
Import Trie.
Local Open Scope Z_scope.
Local Set Warnings "-register-all".

Module TrieMemory.

(** ** Slices of shared arrays *)

Record slice := mkSlice { arr : nat; off : nat; len : nat; cap : nat }.
Abbreviation memory := (list (list Z)).
Definition nil_slice : slice := mkSlice 0 0 0 0.

Definition read (m : memory) (s : slice) : list Z := take (len s) (drop (off s) (default [] (m !! arr s))).
Definition hupto (n : nat) (s : slice) : slice := mkSlice (arr s) (off s) (Nat.min n (len s)) (cap s).
Definition hfrom (n : nat) (s : slice) : slice := mkSlice (arr s) (off s + n) (len s - n) (cap s - n).

Definition write_at (i : nat) (bs a : list Z) : list Z := take i a ++ bs ++ drop (i + length bs) a.

Section Heap.
(** The capacity that the runtime gives to a reallocated slice, from the old
    capacity and the required length: at least the required length, the rest is
    not specified by the language. *)
Context (grow : nat -> nat -> nat).

Definition append (m : memory) (s : slice) (bs : list Z) : memory * slice :=
  let n := (len s + length bs)%nat in
  if Nat.leb n (cap s) then
    (<[arr s := write_at (off s + len s) bs (default [] (m !! arr s))]> m, mkSlice (arr s) (off s) n (cap s))
  else
    let c := grow (cap s) n in
    (m ++ [read m s ++ bs ++ replicate (c - n) 0], mkSlice (length m) 0 n c).

(** [iterate] with the memory and the state of the callback threaded. *)
Fixpoint iterate_mem {A} (f : slice -> list Z -> memory * A -> memory * A) (n : trieNode slice) (prefix : slice)
    (st : memory * A) {struct n} : memory * A :=
  match n with
  | mkNode p v cs =>
      let '(m, key) := append st.1 prefix (read st.1 p) in
      let st := if Nat.eqb (length v) 0 then (m, st.2) else f key v (m, st.2) in
      (fix visit (l : list (Z * trieNode slice)) (st : memory * A) : memory * A :=
         match l with
         | [] => st
         | (b, c) :: l =>
             let '(m, k) := append st.1 key [b] in
             visit l (iterate_mem f c k (m, st.2))
         end) cs st
  end.

Definition Iterate {A} (f : slice -> list Z -> memory * A -> memory * A) (index : TrieIndex slice)
    (st : memory * A) : memory * A :=
  match index with None => st | Some root => iterate_mem f root nil_slice st end.

(** [Merge]: every pair of [other] is upserted into [i]. *)
Definition Merge (m : memory) (i other : TrieIndex slice) : memory * TrieIndex slice :=
  Iterate (fun key value st => (st.1, (doUpsert (read st.1) hupto hfrom st.2 key value).1)) other (m, i).

End Heap.

(** ** Reading slices *)

Definition get (m : memory) (a : nat) : list Z := default [] (m !! a).

Record valid (m : memory) (s : slice) : Prop := {
  valid_len : (len s <= cap s)%nat;
  valid_cap : (off s + cap s <= length (get m (arr s)))%nat;
  valid_arr : (arr s < length m)%nat
}.

(** [upd m m' s]: of the arrays of [m], only the spare capacity of [s] changed. *)
Record upd (m m' : memory) (s : slice) : Prop := {
  upd_length : (length m <= length m')%nat;
  upd_other a : (a < length m)%nat -> a <> arr s -> get m' a = get m a;
  upd_size : length (get m' (arr s)) = length (get m (arr s));
  upd_low : take (off s + len s) (get m' (arr s)) = take (off s + len s) (get m (arr s));
  upd_high : drop (off s + cap s) (get m' (arr s)) = drop (off s + cap s) (get m (arr s))
}.

(** [k] extends [s] in place, or lies in an array that [m] does not have. *)
Definition derived (m : memory) (s k : slice) : Prop :=
  (arr k = arr s /\ off k = off s /\ cap k = cap s /\ (len s <= len k)%nat) \/ (length m <= arr k)%nat.

(** Appending to [s] leaves the arrays below [L] alone. *)
Definition fresh (L : nat) (s : slice) : Prop := (L <= arr s)%nat \/ cap s = len s.

Lemma read_get m s : read m s = drop (off s) (take (off s + len s) (get m (arr s))).
Proof. unfold read, get. by rewrite skipn_firstn_comm, Nat.add_comm, Nat.add_sub. Qed.

Lemma length_read m s : valid m s -> length (read m s) = len s.
Proof.
  intros [Hl Hc _]. unfold read. fold (get m (arr s)). rewrite length_take, length_drop. lia.
Qed.

Lemma read_hupto m n s : read m (hupto n s) = take n (read m s).
Proof. unfold read, hupto. cbn [len off arr]. by rewrite take_take. Qed.

Lemma read_hfrom m n s : read m (hfrom n s) = drop n (read m s).
Proof.
  unfold read, hfrom. cbn [len off arr]. by rewrite skipn_firstn_comm, drop_drop.
Qed.

Lemma upd_refl m s : upd m m s.
Proof. by split. Qed.

Lemma upd_read m m' s : upd m m' s -> read m' s = read m s.
Proof. intros H. by rewrite !read_get, (upd_low _ _ _ H). Qed.

Lemma upd_valid m m' s : upd m m' s -> valid m s -> valid m' s.
Proof. intros [H1 _ H3 _ _] [? ? ?]. split; [done|by rewrite H3|lia]. Qed.

Lemma upd_old m m' s L a : upd m m' s -> fresh L s -> (L <= length m)%nat -> (a < L)%nat -> get m' a = get m a.
Proof.
  intros H [Hf|Hf] HL Ha; destruct (decide (a = arr s)) as [->|]; [lia| |..];
    try (apply (upd_other _ _ _ H); [lia|done]).
  rewrite <- (take_drop (off s + len s) (get m' (arr s))), (upd_low _ _ _ H).
  rewrite <- Hf, (upd_high _ _ _ H). apply take_drop.
Qed.

Lemma take_le_eq {A} (i j : nat) (l l' : list A) : (i <= j)%nat -> take j l = take j l' -> take i l = take i l'.
Proof. intros Hij H. apply (f_equal (take i)) in H. rewrite !take_take in H. by rewrite Nat.min_l in H by lia. Qed.

Lemma upd_trans m m1 m2 s k : upd m m1 s -> derived m s k -> (arr s < length m)%nat -> upd m1 m2 k -> upd m m2 s.
Proof.
  intros [A1 A2 A3 A4 A5] Hd Hs [B1 B2 B3 B4 B5]. destruct Hd as [(Ha & Ho & Hc & Hl)|Hd].
  - rewrite Ha, ?Ho, ?Hc in *. split; [lia| |congruence| |congruence].
    + intros a Hin Hne. rewrite B2 by (done || lia). by apply A2.
    + rewrite <- A4. eapply take_le_eq; [|done]. lia.
  - assert (Heq : forall a, (a < length m)%nat -> get m2 a = get m1 a) by (intros a Hin; apply B2; lia).
    split; [lia|..].
    + intros a Hin Hne. rewrite Heq by done. by apply A2.
    + by rewrite Heq.
    + by rewrite Heq.
    + by rewrite Heq.
Qed.

Lemma derived_refl m s : derived m s s.
Proof. by left. Qed.

(** ** Tries in memory *)

(** The trie of strings that a trie of slices stands for. *)
Fixpoint resolve (m : memory) (n : trieNode slice) : node :=
  match n with
  | mkNode p v cs => mkNode (read m p) v (map (fun c => (c.1, resolve m c.2)) cs)
  end.

(** The slices of a trie lie in the first [L] arrays. *)
Inductive slices_in (L : nat) : trieNode slice -> Prop :=
| slices_in_node p v cs : (arr p < L)%nat -> Forall (fun c => slices_in L c.2) cs -> slices_in L (mkNode p v cs).

Lemma assoc_map {A B} (f : A -> B) b (l : list (Z * A)) :
  assoc b (map (fun c => (c.1, f c.2)) l) = f <$> assoc b l.
Proof. induction l as [|[b' c] l IH]; cbn [assoc map fst snd]; [done|]. by destruct (b =? b'). Qed.

Lemma find_resolve m n : forall k, find id (resolve m n) k = find (read m) n k.
Proof.
  induction n as [p v cs IH] using node_ind'. intros k. cbn [resolve]. rewrite !find_strip. unfold id at 1.
  destruct (strip (read m p) k) as [[|b r]|]; try done. rewrite assoc_map.
  destruct (assoc b cs) as [c|] eqn:E; cbn; [|done]. rewrite Forall_forall in IH. by apply (IH _ (assoc_elem _ _ _ E)).
Qed.

Lemma resolve_wf m n : wf n -> wf (resolve m n).
Proof.
  induction n as [p v cs IH] using node_ind'. inversion 1 as [? ? ? Hn Hc]; subst. cbn [resolve]. constructor.
  - clear IH Hc. rewrite <- list_fmap_compose. done.
  - rewrite Forall_fmap. rewrite Forall_forall in *. intros c Hin. by apply (IH _ Hin), Hc.
Qed.

Lemma find_slices m m' L n : slices_in L n -> (forall a, (a < L)%nat -> get m' a = get m a) ->
  forall k, find (read m') n k = find (read m) n k.
Proof.
  intros Hs Hg. induction n as [p v cs IH] using node_ind'. inversion Hs as [? ? ? Hp Hc]; subst. intros k.
  rewrite !find_strip, !read_get, Hg by done. destruct (strip _ k) as [[|b r]|]; try done.
  destruct (assoc b cs) as [c|] eqn:E; [|done]. rewrite Forall_forall in IH, Hc.
  pose proof (assoc_elem _ _ _ E) as Hin. by apply (IH _ Hin), (Hc _ Hin).
Qed.

(** ** append *)

Lemma length_write_at i bs (a : list Z) : (i + length bs <= length a)%nat -> length (write_at i bs a) = length a.
Proof. intros H. unfold write_at. rewrite !length_app, length_take, length_drop. lia. Qed.

Lemma get_insert m a x b : (a < length m)%nat -> get (<[a := x]> m) b = if decide (b = a) then x else get m b.
Proof.
  intros Ha. unfold get. case_decide as E; [subst; by rewrite list_lookup_insert_eq|].
  by rewrite list_lookup_insert_ne by done.
Qed.

Lemma get_app_l m l a : (a < length m)%nat -> get (m ++ l) a = get m a.
Proof. intros H. unfold get. by rewrite lookup_app_l. Qed.

Section Growth.
Context (grow : nat -> nat -> nat).
Hypothesis grow_enough : forall c n, (n <= grow c n)%nat.

Lemma append_spec m s bs m' k : valid m s -> append grow m s bs = (m', k) ->
  valid m' k /\ read m' k = read m s ++ bs /\ upd m m' s /\ derived m s k /\
  (forall L, fresh L s -> (L <= length m)%nat -> fresh L k).
Proof.
  intros [Hl Hc Ha]. unfold append. set (n := (len s + length bs)%nat). destruct (Nat.leb_spec n (cap s)) as [Hn|Hn].
  - intros [= <- <-]. fold (get m (arr s)). set (w := write_at _ _ _).
    assert (Hw : length w = length (get m (arr s))) by (apply length_write_at; lia).
    assert (Hg : get (<[arr s := w]> m) (arr s) = w) by (by rewrite get_insert, decide_True).
    split_and!.
    + split; cbn [len cap off arr]; [lia|by rewrite Hg, Hw|by rewrite length_insert].
    + rewrite !read_get. cbn [len off arr]. rewrite Hg. unfold w, write_at, n.
      rewrite app_assoc, take_app_le, take_ge by (rewrite !length_app, !length_take; lia).
      rewrite drop_app_le by (rewrite length_take; lia). done.
    + split.
      * by rewrite length_insert.
      * intros a Hin Hne. by rewrite get_insert, decide_False.
      * by rewrite Hg.
      * rewrite Hg. unfold w, write_at. rewrite take_app_le by (rewrite length_take; lia). by rewrite take_take, Nat.min_id.
      * rewrite Hg. unfold w, write_at. rewrite app_assoc, drop_app_ge by (rewrite length_app, length_take; lia).
        rewrite length_app, length_take, drop_drop. f_equal. lia.
    + left. cbn. lia.
    + intros L [HL|HL] HLm; [by left|right]. cbn. lia.
  - intros [= <- <-]. specialize (grow_enough (cap s) n). set (c := grow (cap s) n) in *.
    pose proof (length_read m s (Build_valid _ _ Hl Hc Ha)) as Hr.
    assert (Hg : get (m ++ [read m s ++ bs ++ replicate (c - n) 0]) (length m) = read m s ++ bs ++ replicate (c - n) 0).
    { unfold get. rewrite lookup_app_r, Nat.sub_diag by lia. done. }
    split_and!.
    + split; cbn [len cap off arr]; [done| |rewrite length_app; simpl; lia].
      rewrite Hg, !length_app, length_replicate, Hr. lia.
    + rewrite read_get. cbn [len off arr]. rewrite Hg, app_assoc, drop_0.
      apply take_app_length'. rewrite length_app, Hr. done.
    + split; rewrite ?get_app_l by done; try done; [rewrite length_app; lia|]. intros a Hin _. by apply get_app_l.
    + right. done.
    + intros L _ HL. by left.
Qed.

(** Without spare capacity every append copies. *)
Definition tight : Prop := forall c n, grow c n = n.

Lemma append_tight m s bs m' k : tight -> valid m s -> cap s = len s -> append grow m s bs = (m', k) ->
  cap k = len k /\ m `prefix_of` m'.
Proof.
  intros Ht [Hl Hc Ha] Hf. unfold append. destruct (Nat.leb_spec (len s + length bs) (cap s)) as [Hn|Hn].
  - intros [= <- <-]. destruct bs as [|b bs]; [|simpl in Hn; lia]. cbn. split; [lia|].
    rewrite list_insert_id; [done|]. destruct (lookup_lt_is_Some_2 m (arr s) Ha) as [x Hx].
    unfold write_at. rewrite Hx. cbn. f_equal. by rewrite Nat.add_0_r, take_drop.
  - intros [= <- <-]. rewrite !Ht. cbn. split; [done|]. by eexists.
Qed.

(** ** The calls of the callback *)

(** A callback that leaves the memory alone. *)
Definition reading {A} (h : memory -> slice -> list Z -> A -> A) (key : slice) (value : list Z) (st : memory * A) :
    memory * A := (st.1, h st.1 key value st.2).

(** A call: the memory at the time, the key and the value. *)
Abbreviation call := (list (list Z) * slice * list Z)%type.

Definition run_calls {A} (h : memory -> slice -> list Z -> A -> A) (t : list call) (a : A) : A :=
  fold_left (fun a c => h c.1.1 c.1.2 c.2 a) t a.

(** What the callback can read in the calls. *)
Definition seen (t : list call) : list (list Z * list Z) := map (fun c => (read c.1.1 c.1.2, c.2)) t.

(** Between the calls the memory is only extended, and a key lies in it. *)
Fixpoint chain (m : memory) (t : list call) (m' : memory) : Prop :=
  match t with
  | [] => m `prefix_of` m'
  | (m1, k, v) :: t => m `prefix_of` m1 /\ (arr k < length m1)%nat /\ chain m1 t m'
  end.

Lemma chain_pre m m1 t m' : m `prefix_of` m1 -> chain m1 t m' -> chain m t m'.
Proof.
  destruct t as [|[[m2 k] v] t]; cbn [chain]; intros H; [by intros; etrans|]. intros [? ?]. split; [by etrans|done].
Qed.

Lemma chain_app m t m1 t' m2 : chain m t m1 -> chain m1 t' m2 -> chain m (t ++ t') m2.
Proof.
  revert m. induction t as [|[[m3 k] v] t IH]; cbn [chain app]; intros m; [apply chain_pre|].
  intros (H1 & H2 & H3) H4. split_and!; try done. by apply IH.
Qed.

Definition visit_children {A} (f : slice -> list Z -> memory * A -> memory * A) (key : slice) :=
  fix visit (l : list (Z * trieNode slice)) (st : memory * A) : memory * A :=
    match l with
    | [] => st
    | (b, c) :: l => let '(m, k) := append grow st.1 key [b] in visit l (iterate_mem grow f c k (m, st.2))
    end.

Lemma iterate_mem_eq {A} (f : slice -> list Z -> memory * A -> memory * A) p v cs prefix st :
  iterate_mem grow f (mkNode p v cs) prefix st =
    let '(m, key) := append grow st.1 prefix (read st.1 p) in
    visit_children f key cs (if Nat.eqb (length v) 0 then (m, st.2) else f key v (m, st.2)).
Proof.
  cbn [iterate_mem]. destruct (append grow st.1 prefix (read st.1 p)) as [m key].
  generalize (if Nat.eqb (length v) 0 then (m, st.2) else f key v (m, st.2)).
  induction cs as [|[b c] cs IH]; intros st'; [done|]. cbn [visit_children].
  destruct (append grow st'.1 key [b]) as [m' k]. apply IH.
Qed.

(** [calls] are what iterating from a memory does, whatever the callback. *)
Definition does (go : forall A, (slice -> list Z -> memory * A -> memory * A) -> memory * A -> memory * A)
    (m : memory) (t : list call) (m' : memory) : Prop :=
  forall A (h : memory -> slice -> list Z -> A -> A) a, go A (reading h) (m, a) = (m', run_calls h t a).

Lemma children_calls m0 cs key : fresh (length m0) key ->
  Forall (fun c => slices_in (length m0) c.2) cs ->
  Forall (fun c => forall prefix m, valid m prefix -> fresh (length m0) prefix -> (length m0 <= length m)%nat ->
    (forall a, (a < length m0)%nat -> get m a = get m0 a) ->
    exists m' t, does (fun A f => iterate_mem grow f c.2 prefix) m t m' /\ upd m m' prefix /\
      seen t = iterate (resolve m0 c.2) (read m prefix) /\
      (tight -> cap prefix = len prefix -> chain m t m')) cs ->
  forall m, valid m key -> (length m0 <= length m)%nat -> (forall a, (a < length m0)%nat -> get m a = get m0 a) ->
  exists m' t, does (fun A f => visit_children f key cs) m t m' /\ upd m m' key /\
    seen t = concat (map (fun c => iterate (resolve m0 c.2) (read m key ++ [c.1])) cs) /\
    (tight -> cap key = len key -> chain m t m').
Proof.
  intros Hf Hs. induction cs as [|[b c] cs IH]; intros Hc m Hv HL Hg.
  { exists m, []. split; [done|]. split; [apply upd_refl|]. split; [done|]. intros _ _. cbn [chain]. reflexivity. }
  apply Forall_cons in Hs as [Hs1 Hs]. apply Forall_cons in Hc as [Hc1 Hc].
  destruct (append grow m key [b]) as [m1 k] eqn:Ea.
  destruct (append_spec m key [b] m1 k Hv Ea) as (Hvk & Hrk & Hu & Hd & Hfk).
  assert (HL1 : (length m0 <= length m1)%nat) by (pose proof (upd_length _ _ _ Hu); lia).
  assert (Hg1 : forall a, (a < length m0)%nat -> get m1 a = get m0 a)
    by (intros a Hin; rewrite (upd_old _ _ _ _ a Hu Hf) by done; by apply Hg).
  destruct (Hc1 k m1 Hvk (Hfk _ Hf HL) HL1 Hg1) as (m2 & t2 & Ht2 & Hu2 & Hs2 & Hch2).
  assert (Hu' : upd m m2 key) by (eapply upd_trans; [done|done|apply Hv|done]).
  destruct (IH Hs Hc m2) as (m3 & t3 & Ht3 & Hu3 & Hs3 & Hch3).
  - by eapply upd_valid.
  - pose proof (upd_length _ _ _ Hu'). lia.
  - intros a Hin. rewrite (upd_old _ _ _ _ a Hu' Hf) by done. by apply Hg.
  - exists m3, (t2 ++ t3). split_and!.
    + intros A h a. cbn [visit_children fst snd]. rewrite Ea, Ht2, Ht3. unfold run_calls. by rewrite fold_left_app.
    + eapply upd_trans; [done|apply derived_refl|apply Hv|done].
    + unfold seen. rewrite map_app. fold (seen t2) (seen t3). cbn [map concat fst snd].
      by rewrite Hs2, Hs3, Hrk, (upd_read _ _ _ Hu').
    + intros Ht Hcap. destruct (append_tight _ _ _ _ _ Ht Hv Hcap Ea) as [Hk Hpre].
      apply chain_app with m2; [|by apply Hch3]. apply chain_pre with m1; [done|by apply Hch2].
Qed.

Lemma iterate_calls m0 n : slices_in (length m0) n ->
  forall prefix m, valid m prefix -> fresh (length m0) prefix -> (length m0 <= length m)%nat ->
    (forall a, (a < length m0)%nat -> get m a = get m0 a) ->
    exists m' t, does (fun A f => iterate_mem grow f n prefix) m t m' /\ upd m m' prefix /\
      seen t = iterate (resolve m0 n) (read m prefix) /\
      (tight -> cap prefix = len prefix -> chain m t m').
Proof.
  induction n as [p v cs IH] using node_ind'. intros Hs prefix m Hv Hf HL Hg. inversion Hs as [? ? ? Hp Hc]; subst.
  assert (Hrp : read m p = read m0 p) by (by rewrite !read_get, Hg).
  destruct (append grow m prefix (read m p)) as [m1 key] eqn:Ea.
  destruct (append_spec _ _ _ _ _ Hv Ea) as (Hvk & Hrk & Hu & Hd & Hfk).
  destruct (children_calls m0 cs key (Hfk _ Hf HL) Hc) with (m := m1) as (m2 & t & Ht & Hu2 & Hs2 & Hch2).
  - rewrite Forall_forall in *. intros c Hin. by apply IH, Hc.
  - done.
  - pose proof (upd_length _ _ _ Hu). lia.
  - intros a Hin. rewrite (upd_old _ _ _ _ a Hu Hf) by done. by apply Hg.
  - assert (Hu' : upd m m2 prefix) by (eapply upd_trans; [done|done|apply Hv|done]).
    exists m2, ((if Nat.eqb (length v) 0 then [] else [(m1, key, v)]) ++ t). split_and!; [|done|..].
    + intros A h a. rewrite iterate_mem_eq. cbn [fst snd]. rewrite Ea. unfold run_calls. rewrite fold_left_app.
      destruct (Nat.eqb (length v) 0); apply Ht.
    + cbn [resolve iterate]. rewrite iterate_children, map_map. unfold seen. rewrite map_app. fold (seen t).
      rewrite Hs2, Hrk, Hrp. f_equal. destruct (Nat.eqb (length v) 0); [done|]. cbn [map fst snd]. by rewrite Hrk, Hrp.
    + intros Htight Hcap. destruct (append_tight _ _ _ _ _ Htight Hv Hcap Ea) as [Hk Hpre].
      apply chain_app with m1; [|by apply Hch2]. destruct (Nat.eqb (length v) 0); [done|].
      split; [done|]. split; [apply Hvk|]. cbn [chain]. reflexivity.
Qed.

Lemma nil_valid m : m <> [] -> valid m nil_slice.
Proof. intros H. split; cbn; [lia|lia|]. destruct m; [done|simpl; lia]. Qed.

Lemma Iterate_calls m root : m <> [] -> slices_in (length m) root ->
  exists m' t, does (fun A f => iterate_mem grow f root nil_slice) m t m' /\
    seen t = Trie.Iterate (Some (resolve m root)) /\ m `prefix_of` m' /\ (tight -> chain m t m').
Proof.
  intros Hm Hs. destruct (iterate_calls m root Hs nil_slice m) as (m' & t & Ht & Hu & Hst & Hch).
  - by apply nil_valid.
  - by right.
  - done.
  - done.
  - exists m', t. split_and!; [done|done| |intros Htt; by apply Hch].
    exists (drop (length m) m'). rewrite <- (take_drop (length m) m') at 1. f_equal.
    pose proof (upd_length _ _ _ Hu) as Hl. apply list_eq. intros a. destruct (decide (a < length m)%nat) as [Ha|Ha].
    + rewrite lookup_take_lt by done. assert (Hg : get m' a = get m a).
      { apply (upd_old _ _ _ (length m) a Hu); [by right|done|done]. }
      unfold get in Hg. destruct (lookup_lt_is_Some_2 m a Ha) as [x Hx].
      destruct (lookup_lt_is_Some_2 m' a) as [x' Hx']; [lia|]. rewrite Hx, Hx' in *. cbn in Hg. congruence.
    + rewrite lookup_take_ge by lia. symmetry. apply lookup_ge_None. lia.
Qed.

End Growth.

(** ** Upserting into a trie of slices *)

Definition index_in (L : nat) (index : TrieIndex slice) : Prop :=
  match index with None => True | Some root => slices_in L root end.

Lemma slices_in_leaf L k v : (arr k < L)%nat -> slices_in L (mkNode k v []).
Proof. intros H. by constructor. Qed.

Lemma slices_in_mono L L' n : (L <= L')%nat -> slices_in L n -> slices_in L' n.
Proof.
  intros HL. induction n as [p v cs IH] using node_ind'. inversion 1 as [? ? ? Hp Hc]; subst. constructor; [lia|].
  rewrite Forall_forall in *. intros c Hin. by apply IH, Hc.
Qed.

Lemma upsert_node_in L m n : forall key value, slices_in L n -> (arr key < L)%nat ->
  slices_in L (upsert_node (read m) hupto hfrom n key value).1.
Proof.
  induction n as [p v cs IH] using node_ind'. intros key value Hs Hk. inversion Hs as [? ? ? Hp Hc]; subst.
  cbn [upsert_node]. set (i := common (read m p) (read m key)).
  assert (Hpush : slices_in L (mkNode (hfrom (i + 1) p) v cs)) by by constructor.
  destruct (read m (hfrom i key)) as [|b R].
  - destruct (Nat.eqb i _); cbn [fst]; constructor; try done. by constructor.
  - destruct (Nat.eqb i _).
    + rewrite upsert_child. rewrite Forall_forall in IH.
      destruct (assoc b cs) as [n'|] eqn:Ea; cbn [fst]; constructor; try done; apply Forall_assoc_set; try done.
      pose proof (assoc_elem _ _ _ Ea) as Hin. apply (IH _ Hin); [|done]. rewrite Forall_forall in Hc. by apply (Hc _ Hin).
    + cbn [fst]. constructor; [done|]. apply Forall_assoc_set; [by apply slices_in_leaf|]. by constructor.
Qed.

Lemma doUpsert_in L m index key value : index_in L index -> (arr key < L)%nat ->
  index_in L (doUpsert (read m) hupto hfrom index key value).1.
Proof.
  destruct index as [root|]; cbn [doUpsert index_in]; intros Hs Hk; [|by apply slices_in_leaf].
  pose proof (upsert_node_in L m root key value Hs Hk). by destruct (upsert_node _ _ _ root key value).
Qed.

Lemma prefix_get (m m' : memory) a : m `prefix_of` m' -> (a < length m)%nat -> get m' a = get m a.
Proof. intros [l ->] Ha. by apply get_app_l. Qed.

Lemma stored_prefix m m' index k : index_in (length m) index -> m `prefix_of` m' ->
  stored (read m') index k = stored (read m) index k.
Proof.
  destruct index as [root|]; cbn [stored index_in]; intros Hs Hp; [|done].
  by rewrite (find_slices m m' (length m) root) by (done || intros; by apply prefix_get).
Qed.

(** The updates that [Merge] makes, against the pairs that it reads. *)
Definition overwrite (pairs : list (list Z * list Z)) (f : list Z -> list Z) : list Z -> list Z :=
  fold_left (fun f kv k => if decide (k = kv.1) then kv.2 else f k) pairs f.

Lemma overwrite_ext pairs f g : (forall k, f k = g k) -> forall k, overwrite pairs f k = overwrite pairs g k.
Proof.
  revert f g. induction pairs as [|[k0 v0] pairs IH]; intros f g H k; [done|]. cbn. apply IH.
  intros k'. cbn. by rewrite H.
Qed.

Lemma overwrite_notin pairs f k : k ∉ pairs.*1 -> overwrite pairs f k = f k.
Proof.
  revert f. induction pairs as [|[k0 v0] pairs IH]; intros f H; [done|]. cbn in *.
  rewrite IH by set_solver. cbn. rewrite decide_False; [done|set_solver].
Qed.

Lemma overwrite_in pairs f k v : NoDup pairs.*1 -> (k, v) ∈ pairs -> overwrite pairs f k = v.
Proof.
  revert f. induction pairs as [|[k0 v0] pairs IH]; intros f Hn Hin; [by apply elem_of_nil in Hin|]. cbn in *.
  apply NoDup_cons in Hn as [Hni Hn]. apply elem_of_cons in Hin as [[= -> ->]|Hin].
  - rewrite overwrite_notin by done. cbn. by rewrite decide_True.
  - by apply IH.
Qed.

Definition upsert_call (m : memory) (key : slice) (value : list Z) (i : TrieIndex slice) : TrieIndex slice :=
  (doUpsert (read m) hupto hfrom i key value).1.

Lemma merge_calls t : forall m i m', chain m t m' -> index_in (length m) i -> index_wf i ->
  let i' := run_calls upsert_call t i in
  index_in (length m') i' /\ index_wf i' /\ forall k, stored (read m') i' k = overwrite (seen t) (stored (read m) i) k.
Proof.
  assert (Hmono : forall (m m1 : memory) i, m `prefix_of` m1 -> index_in (length m) i -> index_in (length m1) i).
  { intros m m1 [root|] Hp; cbn; [|done]. apply slices_in_mono. by apply prefix_length. }
  induction t as [|[[m1 k0] v0] t IH]; intros m i m'; cbn [chain].
  - intros Hp Hi Hw. cbn. split; [by eapply Hmono|]. split; [done|]. intros k. by apply stored_prefix.
  - intros (Hp & Hk & Hc) Hi Hw. assert (Hi1 := Hmono _ _ _ Hp Hi).
    destruct (IH m1 (upsert_call m1 k0 v0 i) m' Hc) as (H1 & H2 & H3).
    + by apply doUpsert_in.
    + by apply doUpsert_wf.
    + split; [done|]. split; [done|]. intros k. etrans; [apply H3|]. cbn [seen map fst snd].
      change (overwrite (?p :: ?l) ?f) with (overwrite l (fun k => if decide (k = p.1) then p.2 else f k)).
      apply overwrite_ext. intros k'. cbn [fst snd].
      unfold upsert_call. rewrite doUpsert_stored; [|intros; apply read_hupto|intros; apply read_hfrom].
      case_decide; [done|]. by apply stored_prefix.
Qed.

Lemma iterate_pairs m root : wf root ->
  NoDup (Trie.Iterate (Some (resolve m root))).*1 /\
  forall k v, (k, v) ∈ Trie.Iterate (Some (resolve m root)) <-> v <> [] /\ stored (read m) (Some root) k = v.
Proof.
  intros Hw. apply (resolve_wf m) in Hw. split; [by apply iterate_NoDup|]. intros k v. cbn [Trie.Iterate stored].
  rewrite iterate_elem, <- find_resolve by done. change (fun s : list Z => s) with (@id (list Z)). split.
  - intros (k' & -> & H & Hv). cbn [app]. by rewrite H.
  - intros [Hv H]. exists k. split; [done|]. destruct (find id (resolve m root) k); cbn in H; [by subst|by subst].
Qed.

(** ** Properties *)

(** iterating over a trie calls the callback exactly once for every stored
    key, with the key and its value, for every growth policy of append: the
    in-place appends never disturb a key while the callback reads it nor the
    trie being read.  The callback is arbitrary, but may only read its key
    during the call. *)
Theorem trie_Iterate_exact (grow : nat -> nat -> nat) (m : memory) (root : trieNode slice)
    (Hgrow : forall c n, (n <= grow c n)%nat) (Hm : m <> []) (Hin : slices_in (length m) root) (Hwf : wf root) :
  exists m' pairs,
    (forall A (h : list Z -> list Z -> A -> A) a,
       Iterate grow (fun key value st => (st.1, h (read st.1 key) value st.2)) (Some root) (m, a) =
         (m', fold_left (fun a kv => h kv.1 kv.2 a) pairs a)) /\
    NoDup pairs.*1 /\
    (forall k v, (k, v) ∈ pairs <-> v <> [] /\ stored (read m) (Some root) k = v) /\
    m `prefix_of` m'.
Proof.
  destruct (Iterate_calls grow Hgrow m root Hm Hin) as (m' & t & Ht & Hs & Hp & _).
  exists m', (seen t). split_and!; [|rewrite Hs; by apply iterate_pairs..|done].
  intros A h a. cbn [Iterate]. etrans; [apply (Ht A (fun m k v a => h (read m k) v a) a)|]. f_equal.
  unfold run_calls, seen. clear. revert a. induction t as [|c t IH]; intros a; [done|]. cbn. apply IH.
Qed.

(** Two keys below one node, the prefix in array 1 of the memory. *)
Definition mem2 : memory := [[]; [97; 98; 99]].
Definition two_keys : trieNode slice :=
  mkNode (mkSlice 1 0 3 3) [] [(88, mkNode nil_slice [1] []); (89, mkNode nil_slice [2] [])].

Lemma two_keys_in : slices_in (length mem2) two_keys.
Proof. constructor; [cbn; lia|]. repeat (apply Forall_cons_2; [apply slices_in_leaf; cbn; lia|]). apply Forall_nil_2. Qed.

Lemma two_keys_wf : wf two_keys.
Proof.
  constructor; [repeat (apply NoDup_cons_2; [set_solver|]); apply NoDup_nil_2|].
  repeat (apply Forall_cons_2; [apply wf_leaf|]). apply Forall_nil_2.
Qed.

(** The runtime rounds small allocations up to eight bytes. *)
Definition eight (c n : nat) : nat := Nat.max 8 n.

Lemma trie_Iterate_exact_witness : exists m' pairs,
  (forall A (h : list Z -> list Z -> A -> A) a,
     Iterate eight (fun key value st => (st.1, h (read st.1 key) value st.2)) (Some two_keys) (mem2, a) =
       (m', fold_left (fun a kv => h kv.1 kv.2 a) pairs a)) /\ ([97; 98; 99; 89], [2]) ∈ pairs.
Proof.
  destruct (trie_Iterate_exact eight mem2 two_keys) as (m' & pairs & H1 & _ & H2 & _).
  - intros c n. apply Nat.le_max_r.
  - done.
  - apply two_keys_in.
  - apply two_keys_wf.
  - exists m', pairs. split; [done|]. apply H2. split; [done|reflexivity].
Defined.

(** merging overrides: when appends leave no spare capacity, the merged
    index stores the value of [other] under the keys of [other] and keeps the
    value of the receiver under all other keys, and stays well formed. *)
Theorem trie_Merge_overrides (grow : nat -> nat -> nat) (m : memory) (i : TrieIndex slice) (other : trieNode slice)
    (Htight : forall c n, grow c n = n) (Hm : m <> []) (Hi : index_in (length m) i) (Hwi : index_wf i)
    (Ho : slices_in (length m) other) (Hwo : wf other) :
  let '(m', i') := Merge grow m i (Some other) in
  m `prefix_of` m' /\ index_wf i' /\ index_in (length m') i' /\
  forall k, stored (read m') i' k =
    if decide (stored (read m) (Some other) k = []) then stored (read m) i k else stored (read m) (Some other) k.
Proof.
  destruct (Iterate_calls grow (fun c n => Nat.eq_le_incl _ _ (eq_sym (Htight c n))) m other Hm Ho)
    as (m' & t & Ht & Hs & Hp & Hch).
  unfold Merge, Iterate. change (fun key value st => _) with (reading upsert_call). rewrite Ht.
  destruct (merge_calls t m i m' (Hch Htight) Hi Hwi) as (H1 & H2 & H3).
  destruct (iterate_pairs m other Hwo) as [Hnd Hel]. rewrite Hs in H3. split_and!; try done. intros k. rewrite H3. case_decide as E.
  - apply overwrite_notin. intros Hk. apply list_elem_of_fmap in Hk as ([k0 v0] & -> & Hk).
    apply Hel in Hk as [Hv0 Hk]. cbn [fst] in E. congruence.
  - apply overwrite_in; [done|]. by apply Hel.
Qed.

Lemma trie_Merge_overrides_witness :
  let '(m', i') := Merge (fun _ n => n) mem2 (Some two_keys) (Some two_keys) in
  stored (read m') i' [97; 98; 99; 88] = [1] /\ stored (read m') i' [97; 98; 99; 89] = [2].
Proof.
  pose proof (trie_Merge_overrides (fun _ n => n) mem2 (Some two_keys) two_keys (fun _ _ => eq_refl) ltac:(done)
    two_keys_in two_keys_wf two_keys_in two_keys_wf) as H.
  destruct (Merge _ _ _ _) as [m' i']. destruct H as (_ & _ & _ & H). rewrite !H. split; reflexivity.
Defined.

(** With spare capacity merging loses keys: with allocations of eight bytes,
    merging a trie of two keys into an empty one leaves only the second, because
    the first kept a slice of the array into which the second was written. *)
Example trie_Merge_loses_key :
  let '(m', i') := Merge eight mem2 None (Some two_keys) in
  stored (read mem2) (Some two_keys) [97; 98; 99; 88] = [1] /\
  stored (read m') i' [97; 98; 99; 88] = [] /\
  stored (read m') i' [97; 98; 99; 89] <> [].
Proof. vm_compute. done. Qed.

End TrieMemory.
