(* ===== verification/LedgerKeys.v ===== *)
(** * Ledger keys (xdr/ledger_entry.go, xdr/ledger_key.go, xdr/trust_line_asset.go)

    The identity of a ledger entry: the key of each kind of entry, equality of
    keys, the XDR encoding that the ingestion code uses as a map key, and the
    compressed encoding that the checkpoint reader uses for the same purpose.
    Contract values ([ScVal]) are a parameter with an injective encoding. *)
From S2P Require Import Prelude Xdr.
Local Open Scope Z_scope.

Module LedgerKeys.

(** ** The XDR encoder

    The encoder of the XDR library, by the XDR standard: an integer takes four
    bytes and is determined by them, opaque data of a fixed length is written as
    it is when no padding is needed, and a string can be read back. *)
Class XdrEncoder := {
  EncodeInt : Z -> list Z;
  EncodeHyper : Z -> list Z;
  EncodeString : list Z -> list Z;
  EncodeFixedOpaque : list Z -> list Z
}.

Class XdrLaws {XE : XdrEncoder} : Prop := {
  EncodeInt_length z : length (EncodeInt z) = 4%nat;
  EncodeInt_inj a b : in_int 32 a -> in_int 32 b -> EncodeInt a = EncodeInt b -> a = b;
  EncodeHyper_inj a b : in_int 64 a -> in_int 64 b -> EncodeHyper a = EncodeHyper b -> a = b;
  EncodeString_inj a b : Z.of_nat (length a) < 2 ^ 32 -> Z.of_nat (length b) < 2 ^ 32 ->
    EncodeString a = EncodeString b -> a = b;
  EncodeFixedOpaque_aligned l : (length l mod 4 = 0)%nat -> EncodeFixedOpaque l = l
}.

(** The generated type of contract values, its encoding and its equality. *)
Class ScValOps (ScVal : Type) := {
  ScVal_EncodeTo : ScVal -> list Z;
  ScVal_Equals : ScVal -> ScVal -> bool
}.

Class ScValLaws (ScVal : Type) {SO : ScValOps ScVal} : Prop := {
  ScVal_EncodeTo_inj (a b : ScVal) : ScVal_EncodeTo a = ScVal_EncodeTo b -> a = b;
  ScVal_Equals_spec (a b : ScVal) : ScVal_Equals a b = true <-> a = b
}.

(** ** Trust line assets and contract addresses *)

Inductive TrustLineAsset :=
| TLAsset (a : Asset.t)
| TLPoolShare (LiquidityPoolId : list Z).

Inductive ScAddress :=
| ScAccount (AccountId : AccountId.t)
| ScContract (ContractId : list Z).

Inductive LedgerEntryType :=
| LedgerEntryTypeAccount | LedgerEntryTypeTrustline | LedgerEntryTypeOffer | LedgerEntryTypeData
| LedgerEntryTypeClaimableBalance | LedgerEntryTypeLiquidityPool | LedgerEntryTypeContractData
| LedgerEntryTypeContractCode | LedgerEntryTypeConfigSetting | LedgerEntryTypeTtl.

(** The extension of an entry holds the account that sponsors it, if any. *)
Inductive LedgerEntryExt :=
| LedgerEntryExtV0
| LedgerEntryExtV1 (SponsoringId : option AccountId.t).

Definition TrustLineAsset_Equals (a other : TrustLineAsset) : bool :=
  match a, other with
  | TLAsset a, TLAsset b => Asset.Equals a b
  | TLPoolShare p, TLPoolShare q => bool_decide (p = q)
  | _, _ => false
  end.

Definition ScAddress_Equals (s o : ScAddress) : bool :=
  match s, o with
  | ScAccount a, ScAccount b => AccountId.Equals a b
  | ScContract c, ScContract d => bool_decide (c = d)
  | _, _ => false
  end.

Section Keys.
Context {XE : XdrEncoder}.

Definition AccountId_EncodeTo (a : AccountId.t) : list Z := EncodeInt 0 ++ EncodeFixedOpaque (AccountId.Ed25519 a).

Definition TrustLineAsset_EncodeTo (a : TrustLineAsset) : list Z :=
  match a with
  | TLAsset Asset.Native => EncodeInt 0
  | TLAsset (Asset.AlphaNum4 code issuer) => EncodeInt 1 ++ EncodeFixedOpaque code ++ AccountId_EncodeTo issuer
  | TLAsset (Asset.AlphaNum12 code issuer) => EncodeInt 2 ++ EncodeFixedOpaque code ++ AccountId_EncodeTo issuer
  | TLPoolShare p => EncodeInt 3 ++ EncodeFixedOpaque p
  end.

Definition ScAddress_EncodeTo (a : ScAddress) : list Z :=
  match a with
  | ScAccount a => EncodeInt 0 ++ AccountId_EncodeTo a
  | ScContract c => EncodeInt 1 ++ EncodeFixedOpaque c
  end.

Context {ScVal : Type} {SO : ScValOps ScVal}.

(** ** Keys *)

Inductive LedgerKey :=
| KAccount (AccountId : AccountId.t)
| KTrustLine (AccountId : AccountId.t) (asset : TrustLineAsset)
| KOffer (SellerId : AccountId.t) (OfferId : Z)
| KData (AccountId : AccountId.t) (DataName : list Z)
| KClaimableBalance (V0 : list Z)
| KLiquidityPool (LiquidityPoolId : list Z)
| KContractData (Contract : ScAddress) (Key : ScVal) (Durability : Z)
| KContractCode (Hash : list Z)
| KConfigSetting (ConfigSettingId : Z)
| KTtl (KeyHash : list Z).

(** The [LedgerEntryType] of a key. *)
Definition KeyType (k : LedgerKey) : Z :=
  match k with
  | KAccount _ => 0 | KTrustLine _ _ => 1 | KOffer _ _ => 2 | KData _ _ => 3
  | KClaimableBalance _ => 4 | KLiquidityPool _ => 5 | KContractData _ _ _ => 6
  | KContractCode _ => 7 | KConfigSetting _ => 8 | KTtl _ => 9
  end.

Definition LedgerKey_Equals (key other : LedgerKey) : bool :=
  match key, other with
  | KAccount a, KAccount b => AccountId.Equals a b
  | KData a n, KData b m => AccountId.Equals a b && bool_decide (n = m)
  | KOffer a i, KOffer b j => AccountId.Equals a b && (i =? j)
  | KTrustLine a x, KTrustLine b y => AccountId.Equals a b && TrustLineAsset_Equals x y
  | KLiquidityPool p, KLiquidityPool q => bool_decide (p = q)
  | KConfigSetting i, KConfigSetting j => i =? j
  | KContractData c k d, KContractData c' k' d' =>
      ScAddress_Equals c c' && ScVal_Equals k k' && (d =? d')
  | KContractCode h, KContractCode h' => bool_decide (h = h')
  | KClaimableBalance b, KClaimableBalance b' => bool_decide (b = b')
  | KTtl h, KTtl h' => bool_decide (h = h')
  | _, _ => false
  end.

(** The setters build the union with [NewLedgerKey], which fails only on a value
    of the wrong type. *)
Definition SetAccount (account : AccountId.t) : res LedgerKey := Ok (KAccount account).
Definition SetData (account : AccountId.t) (name : list Z) : res LedgerKey := Ok (KData account name).
Definition SetOffer (account : AccountId.t) (id : Z) : res LedgerKey := Ok (KOffer account (to_int64 id)).
Definition SetTrustline (account : AccountId.t) (line : TrustLineAsset) : res LedgerKey :=
  Ok (KTrustLine account line).
Definition SetClaimableBalance (balanceID : list Z) : res LedgerKey := Ok (KClaimableBalance balanceID).
Definition SetLiquidityPool (poolID : list Z) : res LedgerKey := Ok (KLiquidityPool poolID).
Definition SetContractData (contract : ScAddress) (keyVal : ScVal) (keyDurability : Z) : res LedgerKey :=
  Ok (KContractData contract keyVal keyDurability).
Definition SetContractCode (contractID : list Z) : res LedgerKey := Ok (KContractCode contractID).
Definition SetConfigSetting (configSettingID : Z) : res LedgerKey := Ok (KConfigSetting configSettingID).
Definition SetTtl (keyHash : list Z) : res LedgerKey := Ok (KTtl keyHash).

Definition EncodeTo (k : LedgerKey) : list Z :=
  EncodeInt (KeyType k) ++
  match k with
  | KAccount a => AccountId_EncodeTo a
  | KTrustLine a x => AccountId_EncodeTo a ++ TrustLineAsset_EncodeTo x
  | KOffer a i => AccountId_EncodeTo a ++ EncodeHyper i
  | KData a n => AccountId_EncodeTo a ++ EncodeString n
  | KClaimableBalance b => EncodeInt 0 ++ EncodeFixedOpaque b
  | KLiquidityPool p => EncodeFixedOpaque p
  | KContractData c v d => ScAddress_EncodeTo c ++ ScVal_EncodeTo v ++ EncodeInt d
  | KContractCode h => EncodeFixedOpaque h
  | KConfigSetting i => EncodeInt i
  | KTtl h => EncodeFixedOpaque h
  end.

(** ** Compressed encoding *)

Definition accountIdCompressEncodeTo (a : AccountId.t) : list Z := to_uint8 0 :: AccountId.Ed25519 a.

Definition assetTrustlineCompressEncodeTo (a : TrustLineAsset) : list Z :=
  match a with
  | TLAsset Asset.Native => [to_uint8 0]
  | TLAsset (Asset.AlphaNum4 code issuer) =>
      to_uint8 1 :: Asset.trimRightZeros code ++ accountIdCompressEncodeTo issuer
  | TLAsset (Asset.AlphaNum12 code issuer) =>
      to_uint8 2 :: Asset.trimRightZeros code ++ accountIdCompressEncodeTo issuer
  | TLPoolShare p => to_uint8 3 :: p
  end.

Definition claimableBalanceCompressEncodeTo (b : list Z) : list Z := to_uint8 0 :: b.

Definition ledgerKeyCompressEncodeTo (key : LedgerKey) : list Z :=
  to_uint8 (KeyType key) ::
  match key with
  | KAccount a => accountIdCompressEncodeTo a
  | KTrustLine a x => accountIdCompressEncodeTo a ++ assetTrustlineCompressEncodeTo x
  | KOffer _ i => EncodeHyper i
  | KData a n => accountIdCompressEncodeTo a ++ Asset.trimRightZeros n
  | KClaimableBalance b => claimableBalanceCompressEncodeTo b
  | KLiquidityPool p => p
  | KContractData c v d => ScAddress_EncodeTo c ++ ScVal_EncodeTo v ++ [to_uint8 d]
  | KContractCode h => h
  | KConfigSetting i => EncodeInt i
  | KTtl h => EncodeFixedOpaque h
  end.

(** ** Entries *)

(** The payload of an entry: the fields its key is made of, and the others as
    one value whose type depends on the kind of the entry.  [UnknownEntry] is a
    value whose type is none of the ten. *)
Context {Body : LedgerEntryType -> Type}.

Inductive LedgerEntryData :=
| Account (AccountId : AccountId.t) (body : Body LedgerEntryTypeAccount)
| TrustLine (AccountId : AccountId.t) (asset : TrustLineAsset) (body : Body LedgerEntryTypeTrustline)
| Offer (SellerId : AccountId.t) (OfferId : Z) (body : Body LedgerEntryTypeOffer)
| Data (AccountId : AccountId.t) (DataName : list Z) (body : Body LedgerEntryTypeData)
| ClaimableBalance (BalanceId : list Z) (body : Body LedgerEntryTypeClaimableBalance)
| LiquidityPool (LiquidityPoolId : list Z) (body : Body LedgerEntryTypeLiquidityPool)
| ContractData (Contract : ScAddress) (Key : ScVal) (Durability : Z) (body : Body LedgerEntryTypeContractData)
| ContractCode (Hash : list Z) (body : Body LedgerEntryTypeContractCode)
| ConfigSetting (ConfigSettingId : Z) (body : Body LedgerEntryTypeConfigSetting)
| Ttl (KeyHash : list Z) (body : Body LedgerEntryTypeTtl)
| UnknownEntry (typ : Z).

Record LedgerEntry := mkLedgerEntry {
  LastModifiedLedgerSeq : Z;
  EntryData : LedgerEntryData;
  EntryExt : LedgerEntryExt
}.

(** The [Type] field of the union. *)
Definition DataType (d : LedgerEntryData) : Z :=
  match d with
  | Account _ _ => 0 | TrustLine _ _ _ => 1 | Offer _ _ _ => 2 | Data _ _ _ => 3
  | ClaimableBalance _ _ => 4 | LiquidityPool _ _ => 5 | ContractData _ _ _ _ => 6
  | ContractCode _ _ => 7 | ConfigSetting _ _ => 8 | Ttl _ _ => 9 | UnknownEntry t => t
  end.

Definition Data_LedgerKey (data : LedgerEntryData) : res LedgerKey :=
  match data with
  | Account a _ => SetAccount a
  | TrustLine a x _ => SetTrustline a x
  | ContractData c k d _ => SetContractData c k d
  | ContractCode h _ => SetContractCode h
  | Data a n _ => SetData a n
  | Offer a i _ => SetOffer a (to_uint64 i)
  | LiquidityPool p _ => SetLiquidityPool p
  | ClaimableBalance b _ => SetClaimableBalance b
  | ConfigSetting i _ => SetConfigSetting i
  | Ttl h _ => SetTtl h
  | UnknownEntry _ => Err "unknown ledger entry type"
  end.

Definition Entry_LedgerKey (entry : LedgerEntry) : res LedgerKey := Data_LedgerKey (EntryData entry).

(** ** Well-formed keys *)

Definition TrustLineAsset_wf (a : TrustLineAsset) : Prop :=
  match a with TLAsset a => Asset.wf a | TLPoolShare p => length p = 32%nat end.

Definition ScAddress_wf (a : ScAddress) : Prop :=
  match a with ScAccount a => AccountId.wf a | ScContract c => length c = 32%nat end.

(** Hashes and ids are arrays of 32 bytes, numbers are in the range of their
    type, and a data name has at most 64 bytes. *)
Definition key_wf (k : LedgerKey) : Prop :=
  match k with
  | KAccount a => AccountId.wf a
  | KTrustLine a x => AccountId.wf a /\ TrustLineAsset_wf x
  | KOffer a i => AccountId.wf a /\ in_int 64 i
  | KData a n => AccountId.wf a /\ (length n <= 64)%nat
  | KClaimableBalance h | KLiquidityPool h | KContractCode h | KTtl h => length h = 32%nat
  | KContractData c _ d => ScAddress_wf c /\ in_int 32 d
  | KConfigSetting i => in_int 32 i
  end.

#[global] Instance AccountId_wf_dec a : Decision (AccountId.wf a).
Proof. unfold AccountId.wf, is_byte. apply _. Defined.
#[global] Instance key_wf_dec k : Decision (key_wf k).
Proof.
  destruct k; simpl; try apply _; unfold in_int; try apply _.
  - destruct asset as [[|c i|c i]|p]; simpl; unfold is_byte; apply _.
  - destruct Contract; simpl; apply _.
Defined.

Context {XL : XdrLaws}.

Lemma AccountId_Equals_eq a b : AccountId.Equals a b = true <-> a = b.
Proof.
  unfold AccountId.Equals. rewrite bool_decide_eq_true.
  destruct a, b; simpl. split; [by intros ->|by intros [= ->]].
Qed.

Lemma AccountId_EncodeTo_length a : AccountId.wf a -> length (AccountId_EncodeTo a) = 36%nat.
Proof.
  intros [H _]. unfold AccountId_EncodeTo.
  by rewrite length_app, EncodeInt_length, EncodeFixedOpaque_aligned, H by by rewrite H.
Qed.

Lemma opaque_inj n a b : length a = n -> length b = n -> (n mod 4 = 0)%nat ->
  EncodeFixedOpaque a = EncodeFixedOpaque b -> a = b.
Proof. intros Ha Hb Hn. by rewrite !EncodeFixedOpaque_aligned by congruence. Qed.

Lemma AccountId_EncodeTo_inj a b : AccountId.wf a -> AccountId.wf b ->
  AccountId_EncodeTo a = AccountId_EncodeTo b -> a = b.
Proof.
  intros [Ha _] [Hb _]. unfold AccountId_EncodeTo. intros H. apply app_inv_head in H.
  apply (opaque_inj 32) in H; [|done..]. destruct a, b. simpl in H. by subst.
Qed.

(** Encodings that start with different union tags differ. *)
Lemma tag_eq s t x y : in_int 32 s -> in_int 32 t -> EncodeInt s ++ x = EncodeInt t ++ y -> s = t /\ x = y.
Proof.
  intros Hs Ht H. apply app_inj_1 in H as [H Hxy]; [|by rewrite !EncodeInt_length].
  split; [by apply EncodeInt_inj|done].
Qed.

Ltac clash H := apply tag_eq in H as [H _]; [discriminate H|unfold in_int; lia..].

(** Split equal concatenations whose first parts have the same length. *)
Ltac split_app H := apply app_inj_1 in H as [? H]; [|by rewrite !AccountId_EncodeTo_length].

Lemma code_issuer_EncodeTo_inj n c c' i i' : length c = n -> length c' = n -> (n mod 4 = 0)%nat ->
  AccountId.wf i -> AccountId.wf i' ->
  EncodeFixedOpaque c ++ AccountId_EncodeTo i = EncodeFixedOpaque c' ++ AccountId_EncodeTo i' ->
  c = c' /\ i = i'.
Proof.
  intros Hc Hc' Hn Hi Hi' H. apply app_inj_2 in H as [H H']; [|by rewrite !AccountId_EncodeTo_length].
  split; [by apply (opaque_inj n) in H|by apply AccountId_EncodeTo_inj].
Qed.

Lemma TrustLineAsset_EncodeTo_inj a b : TrustLineAsset_wf a -> TrustLineAsset_wf b ->
  TrustLineAsset_EncodeTo a = TrustLineAsset_EncodeTo b -> a = b.
Proof.
  intros Ha Hb H.
  destruct a as [[|c i|c i]|p], b as [[|c' i'|c' i']|p']; cbn [TrustLineAsset_EncodeTo] in H; try done;
    try clash H; try (rewrite <- (app_nil_r (EncodeInt 0)) in H; clash H); apply app_inv_head in H.
  - destruct Ha as (Hc & _ & Hi), Hb as (Hc' & _ & Hi').
    by apply (code_issuer_EncodeTo_inj 4) in H as [-> ->].
  - destruct Ha as (Hc & _ & Hi), Hb as (Hc' & _ & Hi').
    by apply (code_issuer_EncodeTo_inj 12) in H as [-> ->].
  - by apply (opaque_inj 32) in H as ->.
Qed.

Lemma ScAddress_EncodeTo_split a b x y : ScAddress_wf a -> ScAddress_wf b ->
  ScAddress_EncodeTo a ++ x = ScAddress_EncodeTo b ++ y -> a = b /\ x = y.
Proof.
  intros Ha Hb H. destruct a as [a|c], b as [b|d]; cbn [ScAddress_EncodeTo] in H; rewrite <- !app_assoc in H.
  - apply app_inv_head in H. split_app H. split; [|done]. f_equal. by apply AccountId_EncodeTo_inj.
  - clash H.
  - clash H.
  - apply app_inv_head in H. simpl in Ha, Hb.
    rewrite !EncodeFixedOpaque_aligned in H by by rewrite ?Ha, ?Hb.
    apply app_inj_1 in H as [-> H]; [done|congruence].
Qed.

Lemma KeyType_in_int k : in_int 32 (KeyType k).
Proof. destruct k; simpl; unfold in_int; lia. Qed.

Lemma LedgerKey_Equals_eq `{SL : !ScValLaws ScVal} k k' : LedgerKey_Equals k k' = true <-> k = k'.
Proof.
  destruct k, k'; simpl; try done;
    rewrite ?andb_true_iff, ?AccountId_Equals_eq, ?bool_decide_eq_true, ?Z.eqb_eq;
    try (split; [intros; naive_solver|by intros [= -> ->]]);
    try (split; [by intros ->|by intros [= ->]]).
  - split; [intros [-> H]|intros [= -> ->]; split; [done|]].
    + f_equal. destruct asset, asset0; simpl in H; try done;
        [by apply Asset.Equals_eq in H as ->|by apply bool_decide_eq_true in H as ->].
    + destruct asset0; simpl; [by apply Asset.Equals_eq|by apply bool_decide_eq_true].
  - rewrite ScVal_Equals_spec. split; [intros [[H ->] ->]|intros [= -> -> ->]; split; [split|]; [|done..]].
    + f_equal. destruct Contract, Contract0; simpl in H; try done;
        [by apply AccountId_Equals_eq in H as ->|by apply bool_decide_eq_true in H as ->].
    + destruct Contract0; simpl; [by apply AccountId_Equals_eq|by apply bool_decide_eq_true].
Qed.

Lemma EncodeTo_inj `{SL : !ScValLaws ScVal} k k' : key_wf k -> key_wf k' ->
  EncodeTo k = EncodeTo k' -> k = k'.
Proof.
  intros Hk Hk' H. unfold EncodeTo in H. apply tag_eq in H as [Ht H]; [|apply KeyType_in_int..].
  destruct k, k'; try done; simpl in Hk, Hk'; clear Ht.
  - f_equal. by apply AccountId_EncodeTo_inj.
  - destruct Hk as [Ha Hx], Hk' as [Ha' Hx']. split_app H.
    f_equal; [by apply AccountId_EncodeTo_inj|by apply TrustLineAsset_EncodeTo_inj].
  - destruct Hk as [Ha Hx], Hk' as [Ha' Hx']. split_app H.
    f_equal; [by apply AccountId_EncodeTo_inj|by apply EncodeHyper_inj].
  - destruct Hk as [Ha Hx], Hk' as [Ha' Hx']. split_app H.
    f_equal; [by apply AccountId_EncodeTo_inj|apply EncodeString_inj; [lia|lia|done]].
  - apply app_inv_head in H. by apply (opaque_inj 32) in H as ->.
  - by apply (opaque_inj 32) in H as ->.
  - destruct Hk as [Hc Hd], Hk' as [Hc' Hd']. apply ScAddress_EncodeTo_split in H as [-> H]; [|done..].
    apply app_inj_2 in H as [Hv Hdur]; [|by rewrite !EncodeInt_length].
    apply ScVal_EncodeTo_inj in Hv as ->. by apply EncodeInt_inj in Hdur as ->.
  - by apply (opaque_inj 32) in H as ->.
  - f_equal. by apply EncodeInt_inj.
  - by apply (opaque_inj 32) in H as ->.
Qed.

(** ** Compressed keys *)

(** What the compressed encoding relies on: a data name does not end in a zero
    byte, a durability fits in a byte. *)
Definition compressible (k : LedgerKey) : Prop :=
  match k with
  | KData _ n => Asset.trimRightZeros n = n
  | KContractData _ _ d => is_byte d
  | _ => True
  end.

(** Offers are identified by their id alone. *)
Definition same_identity (k k' : LedgerKey) : Prop :=
  match k, k' with
  | KOffer _ i, KOffer _ j => i = j
  | _, _ => k = k'
  end.

Lemma accountIdCompress_length a : AccountId.wf a -> length (accountIdCompressEncodeTo a) = 33%nat.
Proof. intros [H _]. simpl. by rewrite H. Qed.

Lemma accountIdCompress_inj a b : accountIdCompressEncodeTo a = accountIdCompressEncodeTo b -> a = b.
Proof. unfold accountIdCompressEncodeTo. intros [= H]. destruct a, b. by f_equal. Qed.

Lemma compressed_code_issuer_inj c c' i i' : AccountId.wf i -> AccountId.wf i' -> length c = length c' ->
  Asset.trimRightZeros c ++ accountIdCompressEncodeTo i =
  Asset.trimRightZeros c' ++ accountIdCompressEncodeTo i' -> c = c' /\ i = i'.
Proof.
  intros Hi Hi' Hl H. apply app_inj_2 in H as [Hc H]; [|by rewrite !accountIdCompress_length].
  split; [by apply Asset.trimRightZeros_inj|by apply accountIdCompress_inj].
Qed.

Lemma assetTrustlineCompress_inj a b : TrustLineAsset_wf a -> TrustLineAsset_wf b ->
  assetTrustlineCompressEncodeTo a = assetTrustlineCompressEncodeTo b -> a = b.
Proof.
  destruct a as [[|c i|c i]|p], b as [[|c' i'|c' i']|p']; cbn [assetTrustlineCompressEncodeTo];
    intros Ha Hb H; try done; injection H as H; try (by vm_compute in H).
  - destruct Ha as (Hc & _ & Hi), Hb as (Hc' & _ & Hi').
    apply compressed_code_issuer_inj in H as [-> ->]; [done|done|done|congruence].
  - destruct Ha as (Hc & _ & Hi), Hb as (Hc' & _ & Hi').
    apply compressed_code_issuer_inj in H as [-> ->]; [done|done|done|congruence].
  - by subst.
Qed.

Lemma compress_inj `{SL : !ScValLaws ScVal} k k' :
  key_wf k -> key_wf k' -> compressible k -> compressible k' ->
  ledgerKeyCompressEncodeTo k = ledgerKeyCompressEncodeTo k' -> same_identity k k'.
Proof.
  intros Hk Hk' Hz Hz' H. unfold ledgerKeyCompressEncodeTo in H.
  pose proof (f_equal head H) as Ht. apply (f_equal tail) in H. cbn [head tail] in Ht, H.
  destruct k, k'; try (by vm_compute in Ht); simpl in Hk, Hk', Hz, Hz' |- *; clear Ht; cbv iota in H.
  - f_equal. by apply accountIdCompress_inj.
  - destruct Hk as [Ha Hx], Hk' as [Ha' Hx'].
    apply app_inj_1 in H as [Hacc H]; [|by rewrite !accountIdCompress_length].
    f_equal; [by apply accountIdCompress_inj|by apply assetTrustlineCompress_inj].
  - apply EncodeHyper_inj; [apply Hk|apply Hk'|done].
  - destruct Hk as [Ha Hx], Hk' as [Ha' Hx'].
    apply app_inj_1 in H as [Hacc H]; [|by rewrite !accountIdCompress_length].
    f_equal; [by apply accountIdCompress_inj|congruence].
  - by injection H as ->.
  - by f_equal.
  - destruct Hk as [Hc Hd], Hk' as [Hc' Hd'].
    apply ScAddress_EncodeTo_split in H as [-> H]; [|done..].
    apply app_inj_2 in H as [Hv [= Hdur]]; [|done]. apply ScVal_EncodeTo_inj in Hv as ->.
    rewrite !uwrap_small in Hdur by done. by subst.
  - by f_equal.
  - f_equal. by apply EncodeInt_inj.
  - by apply (opaque_inj 32) in H as ->.
Qed.

(** Two well-formed ledger keys have the same XDR encoding exactly when they
    are the same key, which is also what [LedgerKey.Equals] decides; and they
    have the same compressed encoding exactly when they name the same entry
    (offers by their id alone), provided data names do not end in zero bytes.
    The byte strings are thus sound map keys for ledger entries. *)
Theorem ledger_key_encodings {SL : ScValLaws ScVal} (k k' : LedgerKey)
    (Hk : key_wf k) (Hk' : key_wf k') :
  (EncodeTo k = EncodeTo k' <-> k = k') /\ (LedgerKey_Equals k k' = true <-> k = k') /\
  (compressible k -> compressible k' ->
   ledgerKeyCompressEncodeTo k = ledgerKeyCompressEncodeTo k' <-> same_identity k k').
Proof.
  split; [|split; [apply LedgerKey_Equals_eq|intros Hz Hz'; split; [by apply compress_inj|]]].
  - split; [by apply EncodeTo_inj|by intros ->].
  - destruct k, k'; simpl same_identity; try done; by intros ->.
Qed.

End Keys.
Arguments LedgerKey ScVal : clear implicits.
Arguments LedgerEntryData ScVal Body : clear implicits.
Arguments LedgerEntry ScVal Body : clear implicits.

(** The encoding of the standard. *)
Fixpoint be (n : nat) (z : Z) : list Z :=
  match n with
  | O => []
  | S n => be n (z / 256) ++ [z mod 256]
  end.

Definition pad (n : nat) : list Z := replicate ((4 - n mod 4) mod 4) 0.

Lemma length_be n z : length (be n z) = n.
Proof. revert z. induction n as [|n IH]; intros z; simpl; [done|]. rewrite length_app, IH. simpl. lia. Qed.

Lemma be_inj n : forall a b, 0 <= a < 256 ^ Z.of_nat n -> 0 <= b < 256 ^ Z.of_nat n ->
  be n a = be n b -> a = b.
Proof.
  induction n as [|n IH]; intros a b Ha Hb; simpl be; [simpl in *; lia|].
  rewrite Nat2Z.inj_succ, Z.pow_succ_r in Ha, Hb by lia.
  intros H. apply app_inj_2 in H as [H [= Hm]]; [|done].
  apply IH in H; [|split; [apply Z.div_pos; lia|apply Z.div_lt_upper_bound; lia]..].
  rewrite (Z.div_mod a 256), (Z.div_mod b 256) by lia. lia.
Qed.

Lemma uwrap_inj w a b : 1 <= w -> in_int w a -> in_int w b -> uwrap w a = uwrap w b -> a = b.
Proof.
  intros Hw Ha Hb H. rewrite <- (swrap_small w a), <- (swrap_small w b) by done.
  unfold swrap. f_equal. unfold uwrap in H. by rewrite Zplus_mod, H, <- Zplus_mod.
Qed.

#[global] Instance rfc4506 : XdrEncoder := {
  EncodeInt z := be 4 (to_uint32 z);
  EncodeHyper z := be 8 (to_uint64 z);
  EncodeString s := be 4 (to_uint32 (Z.of_nat (length s))) ++ s ++ pad (length s);
  EncodeFixedOpaque s := s ++ pad (length s)
}.

#[global] Instance rfc4506_laws : XdrLaws.
Proof.
  split; unfold EncodeInt, EncodeHyper, EncodeString, EncodeFixedOpaque, rfc4506.
  - intros. apply length_be.
  - intros a b Ha Hb H. apply be_inj in H; [by apply (uwrap_inj 32)|by apply (uwrap_range 32)..].
  - intros a b Ha Hb H. apply be_inj in H; [by apply (uwrap_inj 64)|by apply (uwrap_range 64)..].
  - intros a b Ha Hb H. apply app_inj_1 in H as [Hl H]; [|by rewrite !length_be].
    apply be_inj in Hl; [|by apply (uwrap_range 32)..]. rewrite !uwrap_small in Hl by lia.
    apply app_inj_1 in H as [H _]; [done|lia].
  - intros l Hl. unfold pad. rewrite Hl. apply app_nil_r.
Qed.

(** A toy type of contract values, with a one-byte encoding. *)
#[global] Instance bool_ScValOps : ScValOps bool := {
  ScVal_EncodeTo b := [if b then 1 else 0];
  ScVal_Equals := Bool.eqb
}.

#[global] Instance bool_ScValLaws : ScValLaws bool.
Proof. split; [by intros [] []|intros a b; apply eqb_true_iff]. Qed.

Definition account0 : AccountId.t := AccountId.mk (replicate 32 7).

Lemma account0_wf : AccountId.wf account0.
Proof. split; [done|]. repeat constructor; lia. Qed.

Lemma ledger_key_encodings_witness :
  let k : LedgerKey bool := KOffer account0 5 in
  let k' : LedgerKey bool := KData account0 [104; 105] in
  EncodeTo k <> EncodeTo k' /\ (LedgerKey_Equals k k' = true <-> k = k').
Proof.
  destruct (ledger_key_encodings (KOffer account0 5 : LedgerKey bool) (KData account0 [104; 105])) as (He & Hq & _).
  - split; [apply account0_wf|unfold in_int; lia].
  - split; [apply account0_wf|simpl; lia].
  - split; [|done]. rewrite He. done.
Defined.


End LedgerKeys.
