(* ===== verification/HexText.v ===== *)
(** * Hexadecimal text (encoding/hex)

    What the code uses of the standard library's package: encoding to lower case
    digits, decoding of either case with its two errors, and that decoding gives
    back what was encoded. *)
From S2P Require Import Prelude.
Local Open Scope Z_scope.

Module Hex.

Definition digits : list Z := bytes_of "0123456789abcdef".

Definition enc_digit (v : Z) : Z := nth (Z.to_nat v) digits 0.

Definition dec_digit (c : Z) : option Z :=
  if (48 <=? c) && (c <=? 57) then Some (c - 48)
  else if (97 <=? c) && (c <=? 102) then Some (c - 87)
  else if (65 <=? c) && (c <=? 70) then Some (c - 55)
  else None.

Definition EncodeToString (src : list Z) : list Z := concat (map (fun b => [enc_digit (b / 16); enc_digit (b mod 16)]) src).

Fixpoint Decode (src : list Z) : res (list Z) :=
  match src with
  | [] => Ok []
  | [_] => Err "encoding/hex: odd length hex string"
  | a :: b :: src =>
      match dec_digit a, dec_digit b with
      | Some x, Some y => l ← Decode src; Ok (x * 16 + y :: l)
      | _, _ => Err "encoding/hex: invalid byte"
      end
  end.

(** The size of the buffer of the streaming decoder. *)
Definition bufferSize : nat := 1024.

Lemma dec_enc_digit v : 0 <= v < 16 -> dec_digit (enc_digit v) = Some v /\ is_byte (enc_digit v).
Proof.
  intros Hv. assert (H : forallb (fun n => bool_decide (dec_digit (enc_digit (Z.of_nat n)) = Some (Z.of_nat n)) &&
    (0 <=? enc_digit (Z.of_nat n)) && (enc_digit (Z.of_nat n) <? 256)) (seq 0 16) = true) by (vm_compute; reflexivity).
  rewrite forallb_forall in H. specialize (H (Z.to_nat v) ltac:(apply in_seq; lia)). rewrite Z2Nat.id in H by lia.
  apply andb_prop in H as [H H3]. apply andb_prop in H as [H1 H2]. apply bool_decide_eq_true in H1.
  apply Z.leb_le in H2. apply Z.ltb_lt in H3. by split.
Qed.

Lemma hex_roundtrip l : Forall is_byte l -> Decode (EncodeToString l) = Ok l /\
  Forall is_byte (EncodeToString l) /\ length (EncodeToString l) = (2 * length l)%nat.
Proof.
  unfold EncodeToString. induction 1 as [|b l Hb _ (H1 & H2 & H3)]; [by split_and!|].
  unfold is_byte in Hb. pose proof (Z.div_mod b 16 ltac:(lia)) as Hd. pose proof (Z.mod_pos_bound b 16 ltac:(lia)) as Hm.
  assert (0 <= b / 16 < 16) as Hq by (split; [apply Z.div_pos; lia|apply Z.div_lt_upper_bound; lia]).
  destruct (dec_enc_digit _ Hq) as [E1 B1], (dec_enc_digit _ Hm) as [E2 B2].
  cbn [map concat app Decode]. rewrite E1, E2. split_and!.
  - rewrite H1, bind_Ok_l. do 2 f_equal. lia.
  - apply Forall_cons_2; [done|]. by apply Forall_cons_2.
  - cbn [length]. rewrite H3. lia.
Qed.

End Hex.
