(* ===== verification/XdrCodec.v ===== *)
(** * Reading and writing XDR

    The generated code of package xdr writes values with the encoder of an
    external XDR library and reads them back with its decoder.  The class
    [XdrCodec] has the operations of both that the trie index uses, [CodecLaws]
    what the XDR standard (RFC 4506) says about them, and [rfc4506_codec] is a
    codec that satisfies the laws. *)
From S2P Require Import Prelude LedgerKeys.
Local Open Scope Z_scope.

Module XdrCodec.

(** A reader is the rest of the input. *)
Abbreviation reader A := (list Z -> res (A * list Z)).

Class XdrCodec := {
  EncodeUint : Z -> list Z;
  EncodeUhyper : Z -> list Z;
  EncodeOpaque : list Z -> list Z;
  EncodeFixedOpaque : list Z -> list Z;
  DecodeUint : reader Z;
  DecodeUhyper : reader Z;
  DecodeOpaque : reader (list Z);
  DecodeFixedOpaqueInplace : nat -> reader (list Z);
  (** the remaining length of the input, when it is known *)
  InputLen : list Z -> option Z;
  (** [DefaultDecodeOptions.MaxDepth] *)
  MaxDepth : nat
}.

Class CodecLaws {XC : XdrCodec} : Prop := {
  DecodeUint_Encode z rest : in_uint 32 z -> DecodeUint (EncodeUint z ++ rest) = Ok (z, rest);
  DecodeUhyper_Encode z rest : in_uint 64 z -> DecodeUhyper (EncodeUhyper z ++ rest) = Ok (z, rest);
  DecodeUhyper_inv inp z rest : Forall is_byte inp -> DecodeUhyper inp = Ok (z, rest) ->
    in_uint 64 z /\ inp = EncodeUhyper z ++ rest;
  EncodeUhyper_bytes z : Forall is_byte (EncodeUhyper z) /\ length (EncodeUhyper z) = 8%nat;
  DecodeOpaque_Encode l rest : Forall is_byte l -> Z.of_nat (length l) <= MaxInt32 ->
    DecodeOpaque (EncodeOpaque l ++ rest) = Ok (l, rest);
  DecodeFixed_Encode l rest : Forall is_byte l ->
    DecodeFixedOpaqueInplace (length l) (EncodeFixedOpaque l ++ rest) = Ok (l, rest);
  EncodeOpaque_bytes l : Forall is_byte l ->
    Forall is_byte (EncodeOpaque l) /\ length (EncodeOpaque l) = (4 + (length l + 3) / 4 * 4)%nat;
  EncodeFixed_aligned l : (length l mod 4 = 0)%nat -> EncodeFixedOpaque l = l;
  EncodeFixed_length l : (length l <= length (EncodeFixedOpaque l))%nat;
  InputLen_rest inp il : InputLen inp = Some il -> il = Z.of_nat (length inp);
  EncodeUint_length z : length (EncodeUint z) = 4%nat /\ Forall is_byte (EncodeUint z);
  MaxDepth_min : (2 <= MaxDepth)%nat
}.

(** Reading [n] values one after the other. *)
Fixpoint read_many {A} (n : nat) (one : reader A) (inp : list Z) : res (list A * list Z) :=
  match n with
  | O => Ok ([], inp)
  | S n =>
      '(a, inp) ← one inp;
      '(l, inp) ← read_many n one inp;
      Ok (a :: l, inp)
  end.

(** ** The codec of the standard *)

Definition rfc_DecodeUint (inp : list Z) : res (Z * list Z) :=
  match inp with
  | a :: b :: c :: d :: rest => Ok (((a * 256 + b) * 256 + c) * 256 + d, rest)
  | _ => Err "EOF"
  end.

(** The value of big-endian bytes. *)
Definition be_value (l : list Z) : Z := fold_left (fun acc b => acc * 256 + b) l 0.

Definition rfc_DecodeUhyper (inp : list Z) : res (Z * list Z) :=
  if Nat.ltb (length inp) 8 then Err "EOF" else Ok (be_value (take 8 inp), drop 8 inp).

Definition rfc_DecodeFixed (n : nat) (inp : list Z) : res (list Z * list Z) :=
  let padded := (n + length (LedgerKeys.pad n))%nat in
  if Nat.ltb (length inp) padded then Err "EOF" else Ok (take n inp, drop padded inp).

Definition rfc_DecodeOpaque (inp : list Z) : res (list Z * list Z) :=
  '(n, inp) ← rfc_DecodeUint inp;
  if n >? MaxInt32 then Err "data size exceeds the maximum" else
  rfc_DecodeFixed (Z.to_nat n) inp.

#[global] Instance rfc4506_codec : XdrCodec := {
  EncodeUint z := LedgerKeys.be 4 (to_uint32 z);
  EncodeUhyper z := LedgerKeys.be 8 (to_uint64 z);
  EncodeOpaque l := LedgerKeys.be 4 (to_uint32 (Z.of_nat (length l))) ++ l ++ LedgerKeys.pad (length l);
  EncodeFixedOpaque l := l ++ LedgerKeys.pad (length l);
  DecodeUint := rfc_DecodeUint;
  DecodeUhyper := rfc_DecodeUhyper;
  DecodeOpaque := rfc_DecodeOpaque;
  DecodeFixedOpaqueInplace := rfc_DecodeFixed;
  InputLen inp := Some (Z.of_nat (length inp));
  MaxDepth := 200
}.

Lemma rfc_DecodeUint_be z rest : in_uint 32 z -> rfc_DecodeUint (LedgerKeys.be 4 (to_uint32 z) ++ rest) = Ok (z, rest).
Proof.
  intros Hz. rewrite uwrap_small by done. destruct Hz as [Hz1 Hz2]. cbn. do 2 f_equal.
  pose proof (Z.div_mod z 256). pose proof (Z.div_mod (z / 256) 256). pose proof (Z.div_mod (z / 256 / 256) 256).
  rewrite (Z.mod_small (z / 256 / 256 / 256)); [lia|]. rewrite !Z.div_div by lia.
  split; [apply Z.div_pos; lia|apply Z.div_lt_upper_bound; lia].
Qed.

Lemma be_value_snoc l b : be_value (l ++ [b]) = be_value l * 256 + b.
Proof. unfold be_value. by rewrite fold_left_app. Qed.

Lemma be_value_app l l' : be_value (l ++ l') = be_value l * 256 ^ Z.of_nat (length l') + be_value l'.
Proof.
  revert l. induction l' as [|b l' IH] using rev_ind; intros l; [rewrite app_nil_r; cbn; lia|].
  rewrite app_assoc, !be_value_snoc, IH, length_app. cbn [length].
  rewrite Nat2Z.inj_add, Z.pow_add_r by lia. change (256 ^ Z.of_nat 1) with 256. lia.
Qed.

Lemma be_value_be n : forall z, 0 <= z < 256 ^ Z.of_nat n -> be_value (LedgerKeys.be n z) = z.
Proof.
  induction n as [|n IH]; intros z Hz; cbn [LedgerKeys.be]; [cbn in *; lia|].
  rewrite Nat2Z.inj_succ, Z.pow_succ_r in Hz by lia.
  rewrite be_value_snoc, IH by (split; [apply Z.div_pos; lia|apply Z.div_lt_upper_bound; lia]).
  pose proof (Z.div_mod z 256). lia.
Qed.

Lemma be_bytes n : forall z, Forall is_byte (LedgerKeys.be n z).
Proof.
  induction n as [|n IH]; intros z; cbn [LedgerKeys.be]; [constructor|]. apply Forall_app. split; [apply IH|].
  apply Forall_singleton. unfold is_byte. pose proof (Z.mod_pos_bound z 256). lia.
Qed.

Lemma be_value_range l : Forall is_byte l -> 0 <= be_value l < 256 ^ Z.of_nat (length l).
Proof.
  induction l as [|b l IH] using rev_ind; intros Hl; [cbn; lia|]. apply Forall_app in Hl as [Hl Hb].
  rewrite Forall_singleton in Hb. specialize (IH Hl). rewrite be_value_snoc, length_app. cbn [length].
  rewrite Nat2Z.inj_add, Z.pow_add_r by lia. change (256 ^ Z.of_nat 1) with 256. unfold is_byte in Hb. lia.
Qed.

Lemma be_be_value l : Forall is_byte l -> LedgerKeys.be (length l) (be_value l) = l.
Proof.
  induction l as [|b l IH] using rev_ind; intros Hl; [done|]. apply Forall_app in Hl as [Hl Hb].
  rewrite Forall_singleton in Hb. unfold is_byte in Hb. rewrite length_app, Nat.add_comm, be_value_snoc. cbn [length Nat.add LedgerKeys.be].
  rewrite Z.div_add_l, Z.div_small, Z.add_0_r by lia. rewrite IH by done. f_equal.
  rewrite Z.add_comm, Z.mod_add, Z.mod_small by lia. done.
Qed.

Lemma length_pad n : (n + length (LedgerKeys.pad n) = (n + 3) / 4 * 4)%nat.
Proof.
  unfold LedgerKeys.pad. rewrite length_replicate. pose proof (Nat.div_mod n 4 ltac:(lia)) as Hn.
  pose proof (Nat.mod_upper_bound n 4 ltac:(lia)) as Hm. set (q := (n / 4)%nat) in *. set (r := (n mod 4)%nat) in *.
  destruct (decide (r = 0%nat)) as [Hr|Hr].
  - rewrite Hr. replace (n + 3)%nat with (q * 4 + 3)%nat by lia. rewrite Nat.div_add_l by lia.
    change ((4 - 0) mod 4)%nat with 0%nat. change (3 / 4)%nat with 0%nat. lia.
  - rewrite (Nat.mod_small (4 - r)) by lia. replace (n + 3)%nat with ((q + 1) * 4 + (r - 1))%nat by lia.
    rewrite Nat.div_add_l, Nat.div_small by lia. lia.
Qed.

Lemma rfc_DecodeFixed_app l rest : rfc_DecodeFixed (length l) ((l ++ LedgerKeys.pad (length l)) ++ rest) = Ok (l, rest).
Proof.
  unfold rfc_DecodeFixed. rewrite !length_app.
  rewrite (proj2 (Nat.ltb_ge _ _)) by lia. rewrite <- !app_assoc, take_app_length. do 2 f_equal.
  rewrite drop_app_add, drop_app_length. done.
Qed.

#[global] Instance rfc4506_codec_laws : CodecLaws.
Proof.
  split; unfold EncodeUint, EncodeUhyper, EncodeOpaque, EncodeFixedOpaque, DecodeUint, DecodeUhyper, DecodeOpaque, DecodeFixedOpaqueInplace,
    InputLen, MaxDepth, rfc4506_codec.
  - apply rfc_DecodeUint_be.
  - intros z rest Hz. unfold rfc_DecodeUhyper. rewrite uwrap_small by done. rewrite length_app, LedgerKeys.length_be.
    rewrite (proj2 (Nat.ltb_ge _ _)) by lia. rewrite take_app_length', drop_app_length' by (by rewrite LedgerKeys.length_be).
    by rewrite be_value_be.
  - intros inp z rest Hb. unfold rfc_DecodeUhyper. destruct (Nat.ltb_spec (length inp) 8) as [|Hl]; [done|].
    intros [= <- <-]. assert (H8 : length (take 8 inp) = 8%nat) by (rewrite length_take; lia).
    pose proof (Forall_take _ 8 _ Hb) as Ht. pose proof (be_value_range _ Ht) as Hr. rewrite H8 in Hr.
    split; [done|]. rewrite uwrap_small by done. rewrite <- H8 at 1. by rewrite be_be_value, take_drop.
  - intros z. split; [apply be_bytes|apply LedgerKeys.length_be].
  - intros l rest _ Hl. unfold rfc_DecodeOpaque. rewrite <- app_assoc, rfc_DecodeUint_be by (unfold in_uint, MaxInt32 in *; lia).
    rewrite bind_Ok_l. cbn beta iota. rewrite Z.gtb_ltb, (proj2 (Z.ltb_ge _ _)) by lia. rewrite Nat2Z.id. apply rfc_DecodeFixed_app.
  - intros l rest _. apply rfc_DecodeFixed_app.
  - intros l Hl. rewrite !length_app, LedgerKeys.length_be. split; [|by rewrite length_pad].
    rewrite !Forall_app. split; [apply be_bytes|]. split; [done|]. apply Forall_replicate. unfold is_byte. lia.
  - intros l Hl. unfold LedgerKeys.pad. rewrite Hl. apply app_nil_r.
  - intros l. rewrite length_app. lia.
  - by intros inp il [= <-].
  - intros z. split; [apply LedgerKeys.length_be|apply be_bytes].
  - lia.
Qed.

End XdrCodec.
