(* ===== verification/XdrStreams.v ===== *)
(** * Streams of XDR records (historyarchive/xdrstream.go, historyarchive/hash.go)

    The files of a history archive are sequences of records, each in front of it
    its length.  [XdrStream] reads them one by one and, when it is closed, compares
    the hash of everything it was given with an expected hash. *)
From S2P Require Import Prelude HexText LedgerKeys XdrCodec.
Import XdrCodec.
Local Open Scope Z_scope.

Module XdrStreams.

(** ** Hashes *)

Definition hash_size : nat := 32.

Definition DecodeHash (s : string) : res (list Z) :=
  hs ← Hex.Decode (bytes_of s);
  if negb (Nat.eqb (length hs) hash_size) then Err "unexpected hash size" else Ok hs.

Definition Hash_String (h : list Z) : string := string_of (Hex.EncodeToString h).

Definition IsZero (h : list Z) : bool := forallb (fun n => n =? 0) h.

(** ** Streams *)

(** What an opened file delivers: its bytes, and then [io.EOF] or an error; and
    what closing it returns. *)
Record source := mkSource {
  content : list Z;
  fails : option error;
  close_error : option error
}.

(** The error that ends the source, when it is not [io.EOF]. *)
Definition read_error (s : source) : option error :=
  match fails s with
  | Some e => if bool_decide (e = EOF) then None else Some e
  | None => None
  end.

(** The readers and the running hash are determined by the source and the number
    of bytes taken from it: closing a reader does not stop the reading. *)
Record XdrStream := mkXdrStream {
  src : source;
  BytesRead : nat;
  validateHash : bool;
  expectedHash : list Z
}.

Definition NewXdrStream (inp : source) : XdrStream := mkXdrStream inp 0 false [].

Definition SetExpectedHash (x : XdrStream) (hash : list Z) : XdrStream :=
  mkXdrStream (src x) (BytesRead x) true hash.

Definition ExpectedHash (x : XdrStream) : list Z * bool := (expectedHash x, validateHash x).

(** The bytes that are left. *)
Definition left_of (x : XdrStream) : list Z := drop (BytesRead x) (content (src x)).

(** [n] more bytes, or all that are left. *)
Definition advance (n : nat) (x : XdrStream) : XdrStream :=
  mkXdrStream (src x) (BytesRead x + Nat.min n (length (left_of x))) (validateHash x) (expectedHash x).

Section Streams.
Context (sha256 : list Z -> list Z).

Definition closeReaders (x : XdrStream) : res unit :=
  match close_error (src x) with Some e => Err e | None => Ok tt end.

Definition Close (x : XdrStream) : res unit :=
  if validateHash x then
    match read_error (src x) with
    | Some e => Err (wrap_error "Error reading remaining bytes from rdr" e)
    | None =>
        if negb (bool_decide (expectedHash x = sha256 (content (src x))))
        then Err "Stream hash does not match expected hash!"
        else closeReaders x
    end
  else closeReaders x.

Context {A : Type} (decode : reader A).

(** The decoder of the record; a decoder returns errors and does not panic. *)
Definition DecodeBytes (b : list Z) : error + (A * nat) :=
  match decode b with
  | Ok (a, rest) => inr (a, (length b - length rest)%nat)
  | Err e => inl e
  | Panic m => inl (wrap_error "panic" m)
  end.

Definition ReadOne (x : XdrStream) : res A * XdrStream :=
  let r := left_of x in
  if Nat.ltb (length r) 4 then
    let x := advance 4 x in
    match read_error (src x) with
    | Some e => (Err (wrap_error "binary.Read error" e), x)
    | None => match r with
              | [] => (Err EOF, x)
              | _ => (Err (wrap_error "binary.Read error" "unexpected EOF"), x)
              end
    end
  else
    let nbytes := Z.land (be_value (take 4 r)) 0x7fffffff in
    let x := advance 4 x in
    if nbytes =? 0 then (Err EOF, x) else
    let n := Z.to_nat nbytes in
    let buf := take n (left_of x) in
    let x := advance n x in
    if negb (Nat.eqb (length buf) n) then
      match read_error (src x) with
      | Some e => (Err e, x)
      | None => (Err "Read wrong number of bytes from XDR", x)
      end
    else match DecodeBytes buf with
         | inl e => (Err e, x)
         | inr (a, readi) =>
             if negb (Nat.eqb readi n) then (Err "Unmarshalled bytes from XDR, expected", x) else (Ok a, x)
         end.

End Streams.

(** [io.CopyN] to nowhere. *)
Definition Discard (x : XdrStream) (n : nat) : res unit * XdrStream :=
  (if Nat.ltb (length (left_of x)) n
   then Err (default EOF (read_error (src x))) else Ok tt, advance n x).

End XdrStreams.
