(* ===== verification/TrieXdr.v ===== *)
(** * The serialized trie index (exp/lighthorizon/index/types/trie.go,
      xdr/xdr_generated.go)

    [MarshalBinary] and [UnmarshalBinary] of a trie index, the conversions
    between the trie and its XDR structure, and the generated encoders and
    decoders of that structure with their limit on the nesting depth.  The
    decoder descends with the depth that is left, so it is structural in it. *)
From S2P Require Import Prelude XdrCodec Trie.
Import XdrCodec Trie.
Local Open Scope Z_scope.
Local Set Warnings "-register-all".

Module TrieXdr.

(** ** The generated types *)

Inductive TrieNode :=
| mkTrieNode (Prefix Value : list Z) (Children : list (Z * TrieNode)).
(** A [TrieNodeChild] is its one-byte key with its node. *)
Abbreviation TrieNodeChild := (Z * TrieNode)%type.
Record TrieIndex := mkTrieIndex { Version : Z; Root : TrieNode }.

Definition ErrMaxDecodingDepthReached : error := "maximum decoding depth reached".

Section Codec.
Context {XC : XdrCodec}.

Definition Value_EncodeTo (s : list Z) : list Z := EncodeOpaque s.

Definition Value_DecodeFrom (maxDepth : nat) (d : list Z) : res (list Z * list Z) :=
  match maxDepth with
  | O => Err ErrMaxDecodingDepthReached
  | S _ => DecodeOpaque d
  end.

Definition Uint32_DecodeFrom (maxDepth : nat) (d : list Z) : res (Z * list Z) :=
  match maxDepth with
  | O => Err ErrMaxDecodingDepthReached
  | S _ => DecodeUint d
  end.

Fixpoint TrieNode_EncodeTo (s : TrieNode) : list Z :=
  match s with
  | mkTrieNode p v cs =>
      Value_EncodeTo p ++ Value_EncodeTo v ++ EncodeUint (to_uint32 (Z.of_nat (length cs))) ++
      (fix children (l : list TrieNodeChild) : list Z :=
         match l with
         | [] => []
         | (key, node) :: l => EncodeFixedOpaque [key] ++ TrieNode_EncodeTo node ++ children l
         end) cs
  end.

Definition TrieNodeChild_EncodeTo (s : TrieNodeChild) : list Z :=
  EncodeFixedOpaque [s.1] ++ TrieNode_EncodeTo s.2.

(** The decoders of a node and of a child call each other; the child's takes the
    node's as an argument, so that the two are tied by one [Fixpoint]. *)
Definition TrieNodeChild_DecodeFrom (TrieNode_DecodeFrom : nat -> reader TrieNode)
    (maxDepth : nat) (d : list Z) : res (TrieNodeChild * list Z) :=
  match maxDepth with
  | O => Err ErrMaxDecodingDepthReached
  | S maxDepth =>
      '(key, d) ← DecodeFixedOpaqueInplace 1 d;
      '(node, d) ← TrieNode_DecodeFrom maxDepth d;
      b ← from_opt "index out of range" (key !! 0%nat);
      Ok ((b, node), d)
  end.

Fixpoint TrieNode_DecodeFrom (maxDepth : nat) (d : list Z) {struct maxDepth} : res (TrieNode * list Z) :=
  match maxDepth with
  | O => Err ErrMaxDecodingDepthReached
  | S maxDepth =>
      '(p, d) ← Value_DecodeFrom maxDepth d;
      '(v, d) ← Value_DecodeFrom maxDepth d;
      '(l, d) ← DecodeUint d;
      if l >? 0 then
        if (match InputLen d with Some il => il <? l | None => false end)
        then Err "length exceeds remaining input length" else
        '(cs, d) ← read_many (Z.to_nat l) (TrieNodeChild_DecodeFrom TrieNode_DecodeFrom maxDepth) d;
        Ok (mkTrieNode p v cs, d)
      else Ok (mkTrieNode p v [], d)
  end.

Definition TrieIndex_EncodeTo (s : TrieIndex) : list Z := EncodeUint (Version s) ++ TrieNode_EncodeTo (Root s).

Definition TrieIndex_DecodeFrom (maxDepth : nat) (d : list Z) : res (TrieIndex * list Z) :=
  match maxDepth with
  | O => Err ErrMaxDecodingDepthReached
  | S maxDepth =>
      '(v, d) ← Uint32_DecodeFrom maxDepth d;
      '(n, d) ← TrieNode_DecodeFrom maxDepth d;
      Ok (mkTrieIndex v n, d)
  end.

Definition TrieIndex_MarshalBinary (s : TrieIndex) : res (list Z) := Ok (TrieIndex_EncodeTo s).

Definition TrieIndex_UnmarshalBinary (inp : list Z) : res TrieIndex :=
  '(s, _) ← TrieIndex_DecodeFrom MaxDepth inp; Ok s.

(** ** Conversions of the index *)

(** [buildXdrTrie], without its append to the children of the parent. *)
Fixpoint toXdr (n : node) : TrieNode :=
  match n with mkNode p v cs => mkTrieNode p v (map (fun c => (c.1, toXdr c.2)) cs) end.

Definition buildXdrTrie (key : Z) (n : node) (parent : TrieNode) : TrieNode :=
  match parent with mkTrieNode p v cs => mkTrieNode p v (cs ++ [(key, toXdr n)]) end.

(** [buildTrie], without its assignment to the children of the parent. *)
Fixpoint fromXdr (x : TrieNode) : node :=
  match x with
  | mkTrieNode p v cs =>
      mkNode p v (fold_left (fun m c => assoc_set c.1 c.2 m) (map (fun c => (c.1, fromXdr c.2)) cs) [])
  end.

Definition buildTrie (c : TrieNodeChild) (parent : node) : node :=
  match parent with mkNode p v cs => mkNode p v (assoc_set c.1 (fromXdr c.2) cs) end.

Definition MarshalBinary (i : Trie.TrieIndex (list Z)) : res (list Z) :=
  let xdrRoot :=
    match i with
    | None => mkTrieNode [] [] []
    | Some (mkNode p v cs) => fold_left (fun x c => buildXdrTrie c.1 c.2 x) cs (mkTrieNode p v [])
    end in
  TrieIndex_MarshalBinary (mkTrieIndex TrieIndexVersion xdrRoot).

Definition UnmarshalBinary (bytes : list Z) : res (Trie.TrieIndex (list Z)) :=
  xdrIndex ← TrieIndex_UnmarshalBinary bytes;
  match Root xdrIndex with
  | mkTrieNode p v cs => Ok (Some (fold_left (fun n c => buildTrie c n) cs (mkNode p v [])))
  end.

(** ** Sizes *)

(** The decoding depth that a node takes. *)
Fixpoint depth (n : TrieNode) : nat :=
  match n with
  | mkTrieNode _ _ cs => S (fold_right Nat.max 1%nat (map (fun c => S (depth c.2)) cs))
  end.

(** Bytes, and lengths that the decoder accepts. *)
Inductive fits : TrieNode -> Prop :=
| fits_node p v cs :
    Forall is_byte p -> Z.of_nat (length p) <= MaxInt32 ->
    Forall is_byte v -> Z.of_nat (length v) <= MaxInt32 ->
    Z.of_nat (length cs) < 2 ^ 32 -> Forall (fun c => is_byte c.1 /\ fits c.2) cs ->
    fits (mkTrieNode p v cs).

End Codec.

Lemma TrieNode_ind' (P : TrieNode -> Prop) :
  (forall p v cs, Forall (fun c => P c.2) cs -> P (mkTrieNode p v cs)) -> forall n, P n.
Proof.
  intros H. fix IH 1. intros [p v cs]. apply H. induction cs as [|[b c] cs IHcs]; constructor; [apply IH|done].
Qed.

Section Laws.
Context {XC : XdrCodec} {CL : CodecLaws}.

Lemma TrieNode_EncodeTo_eq p v cs : TrieNode_EncodeTo (mkTrieNode p v cs) =
  Value_EncodeTo p ++ Value_EncodeTo v ++ EncodeUint (to_uint32 (Z.of_nat (length cs))) ++
  concat (map TrieNodeChild_EncodeTo cs).
Proof.
  cbn [TrieNode_EncodeTo]. do 3 f_equal. induction cs as [|[b c] cs IH]; [done|]. cbn [map concat].
  rewrite IH. unfold TrieNodeChild_EncodeTo. by rewrite <- app_assoc.
Qed.

Lemma children_length cs : (length cs <= length (concat (map TrieNodeChild_EncodeTo cs)))%nat.
Proof.
  induction cs as [|[b c] cs IH]; [done|]. cbn [map concat length]. unfold TrieNodeChild_EncodeTo at 1.
  pose proof (EncodeFixed_length [b]) as H. cbn [fst length] in *. rewrite !length_app. lia.
Qed.

(** A decoder with enough depth returns the value and the rest, otherwise an error. *)
Definition decodes {A} (ok : bool) (r : res (A * list Z)) (a : A) (rest : list Z) : Prop :=
  if ok then r = Ok (a, rest) else exists e, r = Err e.

Lemma read_many_decodes {A} (one : reader A) (enc : A -> list Z) (ok : A -> bool) l :
  Forall (fun a => forall rest, decodes (ok a) (one (enc a ++ rest)) a rest) l ->
  forall rest, decodes (forallb ok l) (read_many (length l) one (concat (map enc l) ++ rest)) l rest.
Proof.
  induction 1 as [|a l Ha Hl IH]; intros rest; [done|]. cbn [length read_many map concat forallb].
  rewrite <- app_assoc. specialize (Ha (concat (map enc l) ++ rest)). unfold decodes in *. destruct (ok a); cbn [andb].
  - rewrite Ha, bind_Ok_l. specialize (IH rest). destruct (forallb ok l).
    + by rewrite IH, bind_Ok_l.
    + destruct IH as [e ->]. by exists e.
  - destruct Ha as [e ->]. by exists e.
Qed.

Lemma child_decodes b n : is_byte b ->
  (forall d rest, decodes (Nat.leb (depth n) d) (TrieNode_DecodeFrom d (TrieNode_EncodeTo n ++ rest)) n rest) ->
  forall d rest, decodes (Nat.leb (S (depth n)) d)
    (TrieNodeChild_DecodeFrom TrieNode_DecodeFrom d (TrieNodeChild_EncodeTo (b, n) ++ rest)) (b, n) rest.
Proof.
  intros Hb Hn [|d] rest; [by eexists|]. cbn [TrieNodeChild_DecodeFrom]. unfold TrieNodeChild_EncodeTo. cbn [fst snd].
  rewrite <- app_assoc. pose proof (DecodeFixed_Encode [b] (TrieNode_EncodeTo n ++ rest) ltac:(by apply Forall_singleton)) as Hk. cbn [length] in Hk. rewrite Hk.
  rewrite bind_Ok_l. specialize (Hn d rest). cbn [Nat.leb]. unfold decodes in *. destruct (Nat.leb (depth n) d).
  - by rewrite Hn, bind_Ok_l.
  - destruct Hn as [e ->]. by exists e.
Qed.

Lemma depth_children cs d : Nat.leb (fold_right Nat.max 1%nat (map (fun c : TrieNodeChild => S (depth c.2)) cs)) d =
  Nat.leb 1 d && forallb (fun c : TrieNodeChild => Nat.leb (S (depth c.2)) d) cs.
Proof.
  apply eq_true_iff_eq. rewrite andb_true_iff, forallb_forall, !Nat.leb_le. setoid_rewrite Nat.leb_le.
  induction cs as [|c cs IH]; cbn [map fold_right]; [naive_solver lia|]. rewrite Nat.max_lub_iff, IH. split.
  - intros (H1 & H2 & H3). split; [done|]. intros c' [->|Hin]; [done|by apply H3].
  - intros [H1 H2]. split; [apply H2; by left|]. split; [done|]. intros c' Hin. apply H2. by right.
Qed.

Lemma TrieNode_decodes n : fits n -> forall d rest,
  decodes (Nat.leb (depth n) d) (TrieNode_DecodeFrom d (TrieNode_EncodeTo n ++ rest)) n rest.
Proof.
  induction n as [p v cs IH] using TrieNode_ind'. intros Hf [|d] rest; [by eexists|].
  inversion Hf as [? ? ? Hp Hpl Hv Hvl Hcl Hc]; subst.
  rewrite TrieNode_EncodeTo_eq, <- !app_assoc. cbn [TrieNode_DecodeFrom depth Nat.leb]. rewrite depth_children.
  destruct d as [|d]; [by eexists|]. cbn [Value_DecodeFrom]. unfold Value_EncodeTo.
  rewrite DecodeOpaque_Encode, bind_Ok_l by done. rewrite DecodeOpaque_Encode, bind_Ok_l by done.
  rewrite uwrap_small by lia. rewrite DecodeUint_Encode, bind_Ok_l by (unfold in_uint; lia).
  destruct cs as [|c cs]; [done|]. set (cs' := c :: cs) in *.
  rewrite Z.gtb_ltb, (proj2 (Z.ltb_lt _ _)) by (simpl; lia).
  pose proof (children_length cs') as Hlen.
  replace (match InputLen _ with Some il => _ | None => false end) with false; cycle 1.
  { destruct (InputLen _) as [il|] eqn:E; [|done]. apply InputLen_rest in E as ->. symmetry. apply Z.ltb_ge.
    rewrite length_app. lia. }
  rewrite Nat2Z.id.
  pose proof (read_many_decodes (TrieNodeChild_DecodeFrom TrieNode_DecodeFrom (S d)) TrieNodeChild_EncodeTo
    (fun c : TrieNodeChild => Nat.leb (S (depth c.2)) (S d)) cs') as H.
  rewrite Forall_forall in IH, Hc. specialize (H ltac:(rewrite Forall_forall; intros [b n] Hin rest';
    destruct (Hc _ Hin); apply child_decodes; [done|]; by apply (IH _ Hin)) rest).
  unfold decodes in *. cbn [Nat.leb andb] in *. destruct (forallb _ cs').
  - by rewrite H, bind_Ok_l.
  - destruct H as [e ->]. by exists e.
Qed.

End Laws.

(** ** Converting and converting back *)

Lemma fold_buildXdrTrie cs p v acc :
  fold_left (fun x (c : Z * node) => buildXdrTrie c.1 c.2 x) cs (mkTrieNode p v acc) =
    mkTrieNode p v (acc ++ map (fun c => (c.1, toXdr c.2)) cs).
Proof.
  revert acc. induction cs as [|c cs IH]; intros acc; cbn [fold_left map]; [by rewrite app_nil_r|].
  cbn [buildXdrTrie]. by rewrite IH, <- app_assoc.
Qed.

Lemma fold_buildTrie cs p v acc :
  fold_left (fun n (c : TrieNodeChild) => buildTrie c n) cs (mkNode p v acc) =
    mkNode p v (fold_left (fun m c => assoc_set c.1 c.2 m) (map (fun c => (c.1, fromXdr c.2)) cs) acc).
Proof. revert acc. induction cs as [|c cs IH]; intros acc; cbn [fold_left map]; [done|]. cbn [buildTrie]. apply IH. Qed.

Lemma assoc_set_new {A} b (x : A) l : b ∉ l.*1 -> assoc_set b x l = l ++ [(b, x)].
Proof.
  induction l as [|[c a] l IH]; cbn [assoc_set]; intros H; [done|]. cbn in H.
  destruct (Z.eqb_spec b c) as [->|]; [set_solver|]. cbn. rewrite IH by set_solver. done.
Qed.

Lemma fold_assoc_set {A} (l acc : list (Z * A)) : NoDup (acc ++ l).*1 ->
  fold_left (fun m c => assoc_set c.1 c.2 m) l acc = acc ++ l.
Proof.
  revert acc. induction l as [|[b x] l IH]; intros acc Hn; cbn [fold_left]; [by rewrite app_nil_r|]. cbn [fst snd].
  rewrite assoc_set_new.
  - rewrite IH by by rewrite <- app_assoc. by rewrite <- app_assoc.
  - rewrite fmap_app in Hn. apply NoDup_app in Hn as (_ & Hd & _). intros Hin. apply (Hd _ Hin). cbn. by left.
Qed.

Lemma fromXdr_toXdr n : wf n -> fromXdr (toXdr n) = n.
Proof.
  induction n as [p v cs IH] using node_ind'. intros Hw. inversion Hw as [? ? ? Hn Hc]; subst. clear Hw. cbn [toXdr fromXdr].
  rewrite map_map. cbn [fst snd]. f_equal.
  assert (Hid : map (fun c : Z * node => (c.1, fromXdr (toXdr c.2))) cs = cs).
  { clear Hn. induction cs as [|[b c] cs IHcs]; [done|]. apply Forall_cons in IH as [IH1 IH].
    apply Forall_cons in Hc as [Hc1 Hc]. cbn [map fst snd] in *. rewrite (IH1 Hc1). f_equal. by apply IHcs. }
  rewrite Hid. by apply fold_assoc_set.
Qed.

(** A node that takes decoding depth lies at the end of a path of bytes. *)
Lemma depth_path n : wf n -> exists k, is_Some (find id n k) /\ (depth (toXdr n) <= 2 + 2 * length k)%nat.
Proof.
  induction n as [p v cs IH] using node_ind'. inversion 1 as [? ? ? Hn Hc]; subst. cbn [toXdr depth]. rewrite map_map. cbn [snd].
  assert (Hleaf : is_Some (find id (mkNode p v cs) p)) by (rewrite find_strip; unfold id at 1; by rewrite strip_self).
  assert (Hmax : exists k, is_Some (find id (mkNode p v cs) k) /\
    (fold_right Nat.max 1 (map (fun c : Z * node => S (depth (toXdr c.2))) cs) <= 1 + 2 * length k)%nat); cycle 1.
  { destruct Hmax as (k & Hk & Hd). exists k. split; [done|lia]. }
  assert (Hsub : forall l, (forall c, c ∈ l -> c ∈ cs) -> exists k, is_Some (find id (mkNode p v cs) k) /\
    (fold_right Nat.max 1 (map (fun c : Z * node => S (depth (toXdr c.2))) l) <= 1 + 2 * length k)%nat); [|by apply Hsub].
  rewrite Forall_forall in IH, Hc. induction l as [|[b c] l IHl]; intros Hin.
  - exists p. split; [done|]. cbn. lia.
  - destruct IHl as (k & Hk & Hd); [intros; apply Hin; by right|]. assert (Hbc : (b, c) ∈ cs) by (apply Hin; left).
    destruct (IH _ Hbc (Hc _ Hbc)) as (k' & Hk' & Hd'). cbn [map fold_right fst snd] in *.
    destruct (Nat.max_spec (S (depth (toXdr c))) (fold_right Nat.max 1 (map (fun c : Z * node => S (depth (toXdr c.2))) l))%nat)
      as [[_ ->]|[_ ->]]; [by exists k|]. exists (p ++ b :: k'). split.
    + rewrite find_strip. unfold id at 1. rewrite (proj2 (strip_Some p (p ++ b :: k') (b :: k')) eq_refl).
      by rewrite (proj2 (assoc_Some b c cs Hn) Hbc).
    + rewrite length_app. cbn [length]. lia.
Qed.

Section RoundTrip.
Context {XC : XdrCodec} {CL : CodecLaws}.

(** A nil root is written as an empty node. *)
Definition root_of (i : Trie.TrieIndex (list Z)) : node := default (mkNode [] [] []) i.

Lemma Marshal_root i : MarshalBinary i = Ok (TrieIndex_EncodeTo (mkTrieIndex TrieIndexVersion (toXdr (root_of i)))).
Proof. destruct i as [[p v cs]|]; [|done]. unfold MarshalBinary. by rewrite fold_buildXdrTrie. Qed.

Lemma UnmarshalBinary_encoded v x : in_uint 32 v -> fits x ->
  decodes (Nat.leb (S (depth x)) MaxDepth)
    (r ← UnmarshalBinary (TrieIndex_EncodeTo (mkTrieIndex v x)); Ok (r, [])) (Some (fromXdr x)) [].
Proof.
  intros Hv Hf. unfold UnmarshalBinary, TrieIndex_UnmarshalBinary, TrieIndex_EncodeTo, TrieIndex_DecodeFrom.
  cbn [Version Root]. destruct MaxDepth as [|d]; [by eexists|]. cbn [Nat.leb].
  destruct d as [|d]; [destruct x; by eexists|]. cbn [Uint32_DecodeFrom]. rewrite DecodeUint_Encode, bind_Ok_l by done.
  pose proof (TrieNode_decodes x Hf (S d) []) as H. rewrite app_nil_r in H. unfold decodes in *.
  destruct (Nat.leb (depth x) (S d)).
  - rewrite H, !bind_Ok_l. destruct x as [p w cs]. cbn [Root]. rewrite fold_buildTrie. done.
  - destruct H as [e ->]. by exists e.
Qed.

(** C38: a serialized index whose prefixes, values and numbers of children fit their
    length fields reads back as the same trie, a nil root as an empty
    node, whatever the order in which the children were written: exactly when
    the nesting is within the limit of the decoder, and with an error otherwise.
    The limit is met when no path has more than [(MaxDepth - 3) / 2] bytes. *)
Theorem trie_binary_roundtrip (i : Trie.TrieIndex (list Z)) (Hwf : index_wf i) (Hfits : fits (toXdr (root_of i))) :
  exists bytes, MarshalBinary i = Ok bytes /\
    (if decide (depth (toXdr (root_of i)) < MaxDepth)%nat
     then UnmarshalBinary bytes = Ok (Some (root_of i)) /\
          (forall k, stored id (Some (root_of i)) k = stored id i k)
     else exists e, UnmarshalBinary bytes = Err e) /\
    ((forall k, at_node id i k = true -> (2 * length k + 3 <= MaxDepth)%nat) -> (3 <= MaxDepth)%nat ->
     (depth (toXdr (root_of i)) < MaxDepth)%nat).
Proof.
  exists (TrieIndex_EncodeTo (mkTrieIndex TrieIndexVersion (toXdr (root_of i)))). split; [apply Marshal_root|].
  assert (Hw : wf (root_of i)) by (destruct i; [done|apply wf_leaf]).
  pose proof (UnmarshalBinary_encoded TrieIndexVersion (toXdr (root_of i)) ltac:(unfold in_uint, TrieIndexVersion; lia) Hfits) as H.
  rewrite fromXdr_toXdr in H by done. unfold decodes in H. split.
  - case_decide as E.
    + rewrite (proj2 (Nat.leb_le _ _)) in H by lia. split.
      * destruct (UnmarshalBinary _); rewrite ?bind_Ok_l in H; naive_solver.
      * intros k. destruct i as [root|]; [done|]. by destruct k.
    + rewrite (proj2 (Nat.leb_gt _ _)) in H by lia. destruct H as [e H]. exists e.
      destruct (UnmarshalBinary _); rewrite ?bind_Ok_l in H; naive_solver.
  - intros Hk Hd. destruct i as [root|]; [|cbn; lia]. destruct (depth_path root Hw) as (k & Hat & Hlen).
    specialize (Hk k). cbn [at_node root_of default from_option id] in *. rewrite bool_decide_eq_true in Hk.
    specialize (Hk Hat). unfold root_of. cbn. lia.
Qed.

End RoundTrip.

Lemma abc_fits : fits (toXdr (root_of abc)).
Proof.
  assert (Hleaf : forall p v, Forall is_byte p -> Forall is_byte v -> (length p <= 2)%nat -> (length v <= 2)%nat ->
    fits (mkTrieNode p v [])).
  { intros p v Hp Hv H1 H2. constructor; try done; unfold MaxInt32; lia. }
  constructor; try (unfold MaxInt32; cbn; lia); repeat (apply Forall_cons_2 || apply Forall_nil_2);
    try (unfold is_byte; lia); (split; [unfold is_byte; cbn; lia|]); apply Hleaf;
    try (cbn; lia); repeat (apply Forall_cons_2 || apply Forall_nil_2); unfold is_byte; lia.
Qed.

Lemma trie_binary_roundtrip_witness : exists bytes, MarshalBinary abc = Ok bytes /\ UnmarshalBinary bytes = Ok abc.
Proof.
  destruct (trie_binary_roundtrip abc abc_wf abc_fits) as (bytes & H1 & H2 & _). exists bytes. split; [done|].
  rewrite decide_True in H2 by (vm_compute; lia). apply H2.
Defined.

End TrieXdr.
