(* ===== verification/Muxed.v ===== *)
(** * Muxed accounts and signer keys (strkey/muxed_account.go,
      strkey/signed_payload.go, xdr/muxed_account.go, xdr/signer_key.go)

    The two packages that give an account a multiplexing id, and the keys that
    may sign a transaction, with their strkey texts. *)
From S2P Require Import Prelude Strkey Xdr XdrCodec.
Import XdrCodec.
Local Open Scope Z_scope.

Module StrkeyMuxed.
Section Muxed.
Context {XC : XdrCodec}.

Record MuxedAccount := mk { id : Z; ed25519 : list Z }.

Definition zero_key : list Z := replicate 32 0.

Definition SetID (m : MuxedAccount) (i : Z) : MuxedAccount := mk i (ed25519 m).

Definition SetAccountID (m : MuxedAccount) (address : string) : res MuxedAccount :=
  match Strkey.Decode Strkey.VersionByteAccountID address with
  | Ok raw => if negb (Nat.eqb (length raw) 32) then Err "invalid binary length" else Ok (mk (id m) raw)
  | Err _ => Err "invalid ed25519 public key"
  | Panic s => Panic s
  end.

Definition ID (m : MuxedAccount) : Z := id m.

Definition AccountID (m : MuxedAccount) : res string := Strkey.Encode Strkey.VersionByteAccountID (ed25519 m).

Definition Address (m : MuxedAccount) : res string :=
  if bool_decide (ed25519 m = zero_key) then Err "muxed account has no ed25519 key" else
  Strkey.Encode Strkey.VersionByteMuxedAccount (ed25519 m ++ EncodeUhyper (id m)).

Definition DecodeMuxedAccount (address : string) : res MuxedAccount :=
  match Strkey.Decode Strkey.VersionByteMuxedAccount address with
  | Ok raw =>
      if negb (Nat.eqb (length raw) 40) then Err "invalid binary length" else
      match DecodeUhyper (drop 32 raw) with
      | Ok (i, _) => Ok (mk i (take 32 raw))
      | _ => Err "can't marshall binary"
      end
  | Err _ => Err "invalid muxed account"
  | Panic s => Panic s
  end.

End Muxed.
End StrkeyMuxed.

Module SignedPayload.
Section Payload.
Context {XC : XdrCodec}.

Record t := mk { signer : string; payload : list Z }.

Definition maxPayloadLen : nat := 64.

Definition NewSignedPayload (signerPublicKey : string) (p : list Z) : res t :=
  if Nat.ltb maxPayloadLen (length p) then Err "payload length exceeds max" else Ok (mk signerPublicKey p).

Definition Encode (sp : t) : res string :=
  match Strkey.Decode Strkey.VersionByteAccountID (signer sp) with
  | Ok signerBytes =>
      match Strkey.Encode Strkey.VersionByteSignedPayload (signerBytes ++ EncodeOpaque (payload sp)) with
      | Err _ => Err "failed to encode signed payload"
      | r => r
      end
  | Err _ => Err "failed to decode signed payload signer"
  | Panic s => Panic s
  end.

(** The slice expressions on the decoded bytes panic on fewer than 32. *)
Definition DecodeSignedPayload (address : string) : res t :=
  match Strkey.Decode Strkey.VersionByteSignedPayload address with
  | Ok raw =>
      if Nat.ltb (length raw) 32 then Panic "slice bounds out of range" else
      match Strkey.Encode Strkey.VersionByteAccountID (take 32 raw) with
      | Ok signer =>
          match DecodeOpaque (drop 32 raw) with
          | Ok (payload, rest) =>
              if Nat.ltb 0 (length rest) then Err "invalid signed payload padding" else NewSignedPayload signer payload
          | _ => Err "invalid signed payload"
          end
      | Err _ => Err "invalid signed payload signer"
      | Panic s => Panic s
      end
  | Err _ => Err "invalid signed payload"
  | Panic s => Panic s
  end.

End Payload.
End SignedPayload.

Module Muxed.
Section Muxed.
Context {XC : XdrCodec}.

(** ** Muxed accounts

    [MNil] is the zero value of the Go struct: the type of an Ed25519 account
    without a key. *)
Inductive MuxedAccount :=
| MEd25519 (key : list Z)
| MMed25519 (id : Z) (key : list Z)
| MNil.

#[global] Instance MuxedAccount_eq_dec : EqDecision MuxedAccount.
Proof. solve_decision. Defined.

Definition wf (m : MuxedAccount) : Prop :=
  match m with
  | MEd25519 key => length key = 32%nat /\ Forall is_byte key
  | MMed25519 id key => in_uint 64 id /\ length key = 32%nat /\ Forall is_byte key
  | MNil => False
  end.

Definition SetEd25519Address (address : string) : res MuxedAccount :=
  if Nat.eqb (length (bytes_of address)) 56 then
    raw ← Strkey.Decode Strkey.VersionByteAccountID address;
    if negb (Nat.eqb (length raw) 32) then Err "invalid binary length" else Ok (MEd25519 raw)
  else Err "invalid address length".

Definition SetAddress (address : string) : res MuxedAccount :=
  if Nat.eqb (length (bytes_of address)) 56 then SetEd25519Address address
  else if Nat.eqb (length (bytes_of address)) 69 then
    raw ← Strkey.Decode Strkey.VersionByteMuxedAccount address;
    if negb (Nat.eqb (length raw) 40) then Err "invalid binary length" else
    '(id, _) ← DecodeUhyper (drop 32 raw);
    Ok (MMed25519 id (take 32 raw))
  else Err "invalid address length".

Definition AddressToMuxedAccount (address : string) : res MuxedAccount := SetAddress address.

Definition MustMuxedAddress (address : string) : res MuxedAccount :=
  match SetAddress address with Err e => Panic e | r => r end.

Definition MuxedAccountFromAccountId (gAddress : string) (id : Z) : res MuxedAccount :=
  accountId ← AccountId.AddressToAccountId gAddress;
  Ok (MMed25519 id (AccountId.Ed25519 accountId)).

Definition GetAddress (m : MuxedAccount) : res string :=
  match m with
  | MEd25519 key => Strkey.Encode Strkey.VersionByteAccountID key
  | MMed25519 id key => Strkey.Encode Strkey.VersionByteMuxedAccount (key ++ EncodeUhyper id)
  | MNil => Panic "nil pointer dereference"
  end.

Definition Address (m : MuxedAccount) : res string :=
  match GetAddress m with Err e => Panic e | r => r end.

Definition GetId (m : MuxedAccount) : res Z :=
  match m with
  | MMed25519 id _ => Ok id
  | _ => Err "muxed account has no ID"
  end.

Definition ToAccountId (m : MuxedAccount) : res AccountId.t :=
  match m with
  | MEd25519 key | MMed25519 _ key => Ok (AccountId.mk key)
  | MNil => Panic "nil pointer dereference"
  end.

(** ** Signer keys *)

Inductive SignerKey :=
| SEd25519 (key : list Z)
| SPreAuthTx (hash : list Z)
| SHashX (hash : list Z)
| SEd25519SignedPayload (key payload : list Z).

#[global] Instance SignerKey_eq_dec : EqDecision SignerKey.
Proof. solve_decision. Defined.

Definition SignerKey_wf (k : SignerKey) : Prop :=
  match k with
  | SEd25519 h | SPreAuthTx h | SHashX h => length h = 32%nat /\ Forall is_byte h
  | SEd25519SignedPayload h p =>
      (length h = 32%nat /\ Forall is_byte h) /\ Forall is_byte p /\ (length p <= SignedPayload.maxPayloadLen)%nat
  end.

Definition SignerKey_GetAddress (k : SignerKey) : res string :=
  match k with
  | SEd25519 key => Strkey.Encode Strkey.VersionByteAccountID key
  | SHashX key => Strkey.Encode Strkey.VersionByteHashX key
  | SPreAuthTx key => Strkey.Encode Strkey.VersionByteHashTx key
  | SEd25519SignedPayload key payload =>
      Strkey.Encode Strkey.VersionByteSignedPayload (EncodeFixedOpaque key ++ EncodeOpaque payload)
  end.

Definition SignerKey_Address (k : SignerKey) : res string :=
  match SignerKey_GetAddress k with Err e => Panic e | r => r end.

Definition SignerKey_Equals (k other : SignerKey) : bool :=
  match k, other with
  | SEd25519 l, SEd25519 r | SHashX l, SHashX r | SPreAuthTx l, SPreAuthTx r => bool_decide (l = r)
  | SEd25519SignedPayload l p, SEd25519SignedPayload r q => bool_decide (l = r) && bool_decide (p = q)
  | _, _ => false
  end.

Definition SignerKey_SetAddress (address : string) : res SignerKey :=
  match Strkey.Version address with
  | Ok vb =>
      if vb =? Strkey.VersionByteSignedPayload then
        sp ← SignedPayload.DecodeSignedPayload address;
        pubkey ← Strkey.Decode Strkey.VersionByteAccountID (SignedPayload.signer sp);
        Ok (SEd25519SignedPayload (resize 32 0 pubkey) (SignedPayload.payload sp))
      else
        let raw32 (mk : list Z -> SignerKey) :=
          raw ← Strkey.Decode vb address;
          if negb (Nat.eqb (length raw) 32) then Err "invalid address" else Ok (mk raw) in
        if vb =? Strkey.VersionByteAccountID then raw32 SEd25519
        else if vb =? Strkey.VersionByteHashX then raw32 SHashX
        else if vb =? Strkey.VersionByteHashTx then raw32 SPreAuthTx
        else Err "invalid version byte"
  | Err _ => Err "failed to extract address version"
  | Panic s => Panic s
  end.

Definition MustSigner (address : string) : res SignerKey :=
  match SignerKey_SetAddress address with Err e => Panic e | r => r end.

End Muxed.

(** ** Addresses and accounts *)

Section Laws.
Context {XC : XdrCodec} {CL : CodecLaws}.

Definition muxed_text (id : Z) (key : list Z) : string :=
  Strkey.text Strkey.VersionByteMuxedAccount (key ++ EncodeUhyper id).

Lemma muxed_raw id key : length key = 32%nat -> Forall is_byte key ->
  length (key ++ EncodeUhyper id) = 40%nat /\ Forall is_byte (key ++ EncodeUhyper id).
Proof.
  intros Hl Hb. destruct (EncodeUhyper_bytes id) as [H1 H2]. rewrite length_app, Hl, H2. split; [done|]. by apply Forall_app.
Qed.

Lemma no_newline_56 s payload v : Strkey.Decode v s = Ok payload -> length (bytes_of s) = 56%nat ->
  length payload = 32%nat -> Strkey.no_newline s.
Proof.
  intros Hd Hs Hp. apply (Strkey.Decode_no_newline _ _ _ Hd). rewrite Hs, Hp. intros k Hk.
  assert (Hall : forallb (fun k => negb (Nat.eqb (Base32.decoded_len k) 35)) (seq 0 56) = true) by reflexivity.
  rewrite forallb_forall in Hall. specialize (Hall k ltac:(apply in_seq; lia)). apply negb_true_iff, Nat.eqb_neq in Hall. done.
Qed.

Lemma no_newline_69 s payload v : Strkey.Decode v s = Ok payload -> length (bytes_of s) = 69%nat ->
  length payload = 40%nat -> Strkey.no_newline s.
Proof.
  intros Hd Hs Hp. apply (Strkey.Decode_no_newline _ _ _ Hd). rewrite Hs, Hp. intros k Hk.
  assert (Hall : forallb (fun k => negb (Nat.eqb (Base32.decoded_len k) 43)) (seq 0 69) = true) by reflexivity.
  rewrite forallb_forall in Hall. specialize (Hall k ltac:(apply in_seq; lia)). apply negb_true_iff, Nat.eqb_neq in Hall. done.
Qed.

(** The address of a well-formed account. *)
Definition address (m : MuxedAccount) : string :=
  match m with
  | MEd25519 key => Strkey.text Strkey.VersionByteAccountID key
  | MMed25519 id key => muxed_text id key
  | MNil => EmptyString
  end.

Lemma GetAddress_wf m : wf m -> GetAddress m = Ok (address m).
Proof.
  destruct m as [key|id key|]; cbn [wf GetAddress address]; [intros [Hl _]|intros (_ & Hl & Hb)|done];
    apply Strkey.Encode_text; try reflexivity.
  - rewrite Hl. unfold Strkey.maxPayloadSize. lia.
  - rewrite (proj1 (muxed_raw id key Hl Hb)). unfold Strkey.maxPayloadSize. lia.
Qed.

Lemma Address_wf m : wf m -> Address m = Ok (address m).
Proof. intros H. unfold Address. by rewrite GetAddress_wf. Qed.

Lemma SetAddress_wf m : wf m -> SetAddress (address m) = Ok m.
Proof.
  destruct m as [key|id key|]; cbn [wf address]; [intros [Hl Hb]|intros (Hi & Hl & Hb)|done]; unfold SetAddress.
  - rewrite Strkey.text_length, Hl. unfold SetEd25519Address. rewrite Strkey.text_length, Hl. cbn [Nat.eqb Base32.EncodedLen].
    destruct (Strkey.Decode_text Strkey.VersionByteAccountID key eq_refl Hb) as [-> _]. rewrite bind_Ok_l, Hl. done.
  - destruct (muxed_raw id key Hl Hb) as [H1 H2]. unfold muxed_text. rewrite Strkey.text_length, H1.
    destruct (Strkey.Decode_text Strkey.VersionByteMuxedAccount _ eq_refl H2) as [-> _].
    change (Nat.eqb (Base32.EncodedLen (40 + 3)) 56) with false. change (Nat.eqb (Base32.EncodedLen (40 + 3)) 69) with true.
    cbn match. rewrite bind_Ok_l, H1. cbn [Nat.eqb negb].
    rewrite drop_app_length', take_app_length' by done. rewrite <- (app_nil_r (EncodeUhyper id)), DecodeUhyper_Encode by done.
    done.
Qed.

Lemma SetAddress_inv s m : SetAddress s = Ok m -> wf m /\ s = address m.
Proof.
  unfold SetAddress, SetEd25519Address. destruct (Nat.eqb_spec (length (bytes_of s)) 56) as [H56|_].
  - intros H. apply bind_Ok in H as (raw & Hd & H). destruct (Nat.eqb_spec (length raw) 32) as [Hl|]; [|done].
    injection H as <-. destruct (Strkey.Decode_canonical _ _ _ (no_newline_56 _ _ _ Hd H56 Hl) Hd) as (_ & -> & Hb). done.
  - destruct (Nat.eqb_spec (length (bytes_of s)) 69) as [H69|]; [|done].
    intros H. apply bind_Ok in H as (raw & Hd & H). destruct (Nat.eqb_spec (length raw) 40) as [Hl|]; [|done].
    apply bind_Ok in H as ([id rest] & Hu & [= <-]).
    destruct (Strkey.Decode_canonical _ _ _ (no_newline_69 _ _ _ Hd H69 Hl) Hd) as (_ & -> & Hb).
    apply DecodeUhyper_inv in Hu as [Hid Hu]; [|by apply Forall_drop].
    assert (Hrest : rest = []).
    { apply (f_equal length) in Hu. rewrite length_drop, length_app, (proj2 (EncodeUhyper_bytes id)), Hl in Hu.
      destruct rest; [done|]. simpl in Hu. lia. }
    subst rest. rewrite app_nil_r in Hu. cbn [wf address]. split_and!.
    + done.
    + rewrite length_take. lia.
    + by apply Forall_take.
    + unfold muxed_text. by rewrite <- Hu, take_drop.
Qed.

Definition signer_text (k : SignerKey) : string :=
  match k with
  | SEd25519 h => Strkey.text Strkey.VersionByteAccountID h
  | SPreAuthTx h => Strkey.text Strkey.VersionByteHashTx h
  | SHashX h => Strkey.text Strkey.VersionByteHashX h
  | SEd25519SignedPayload h p => Strkey.text Strkey.VersionByteSignedPayload (h ++ EncodeOpaque p)
  end.

Lemma payload_raw h p : length h = 32%nat -> Forall is_byte h -> Forall is_byte p -> (length p <= 64)%nat ->
  (length (h ++ EncodeOpaque p) <= Strkey.maxPayloadSize)%nat /\ Forall is_byte (h ++ EncodeOpaque p) /\
  (32 <= length (h ++ EncodeOpaque p))%nat.
Proof.
  intros Hl Hb Hp Hpl. destruct (EncodeOpaque_bytes p Hp) as [H1 H2]. rewrite length_app, Hl, H2.
  pose proof (Nat.Div0.div_le_mono (length p + 3) 67 4 ltac:(lia)) as Hd. change (67 / 4)%nat with 16%nat in Hd.
  unfold Strkey.maxPayloadSize. split_and!; [lia| |lia]. by apply Forall_app.
Qed.

Lemma signer_GetAddress k : SignerKey_wf k -> SignerKey_GetAddress k = Ok (signer_text k).
Proof.
  destruct k as [h|h|h|h p]; cbn [SignerKey_wf SignerKey_GetAddress signer_text]; intros Hw; [..|destruct Hw as ([Hl Hb] & Hp & Hpl)];
    try (apply Strkey.Encode_text; [reflexivity|]; rewrite (proj1 Hw); unfold Strkey.maxPayloadSize; lia).
  rewrite EncodeFixed_aligned by by rewrite Hl. apply Strkey.Encode_text; [reflexivity|]. by apply payload_raw.
Qed.

Lemma DecodeSignedPayload_text h p : length h = 32%nat -> Forall is_byte h -> Forall is_byte p -> (length p <= 64)%nat ->
  SignedPayload.DecodeSignedPayload (Strkey.text Strkey.VersionByteSignedPayload (h ++ EncodeOpaque p)) =
    Ok (SignedPayload.mk (Strkey.text Strkey.VersionByteAccountID h) p).
Proof.
  intros Hl Hb Hp Hpl. destruct (payload_raw h p Hl Hb Hp Hpl) as (_ & H2 & H3).
  unfold SignedPayload.DecodeSignedPayload.
  destruct (Strkey.Decode_text Strkey.VersionByteSignedPayload _ eq_refl H2) as [-> _].
  rewrite (proj2 (Nat.ltb_ge _ _)) by lia. rewrite take_app_length', drop_app_length' by done.
  rewrite Strkey.Encode_text by (done || rewrite Hl; unfold Strkey.maxPayloadSize; lia).
  rewrite <- (app_nil_r (EncodeOpaque p)), DecodeOpaque_Encode by (done || unfold MaxInt32; lia). cbn [length Nat.ltb Nat.leb].
  unfold SignedPayload.NewSignedPayload, SignedPayload.maxPayloadLen. by rewrite (proj2 (Nat.ltb_ge _ _)) by lia.
Qed.

Lemma signer_SetAddress k : SignerKey_wf k -> SignerKey_SetAddress (signer_text k) = Ok k.
Proof.
  intros Hw. unfold SignerKey_SetAddress. destruct k as [h|h|h|h p]; cbn [signer_text SignerKey_wf] in *.
  1-3: destruct Hw as [Hl Hb];
    match goal with |- context [Strkey.text ?v ?h] =>
      destruct (Strkey.Decode_text v h eq_refl Hb) as (Hd & _ & Hv & _) end;
    rewrite Hv, Hd, !bind_Ok_l, !Hl; reflexivity.
  destruct Hw as ([Hl Hb] & Hp & Hpl). destruct (payload_raw h p Hl Hb Hp Hpl) as (_ & H2 & _).
  destruct (Strkey.Decode_text Strkey.VersionByteSignedPayload _ eq_refl H2) as (_ & _ & -> & _).
  rewrite Z.eqb_refl, DecodeSignedPayload_text, bind_Ok_l by done. cbn [SignedPayload.signer SignedPayload.payload].
  destruct (Strkey.Decode_text Strkey.VersionByteAccountID h eq_refl Hb) as [-> _]. rewrite bind_Ok_l.
  by rewrite resize_all_alt.
Qed.

(** The parser and printer of package strkey agree with those of package xdr. *)
Lemma strkey_muxed_agrees id key : wf (MMed25519 id key) ->
  StrkeyMuxed.DecodeMuxedAccount (muxed_text id key) = Ok (StrkeyMuxed.mk id key) /\
  StrkeyMuxed.Address (StrkeyMuxed.mk id key) =
    if bool_decide (key = StrkeyMuxed.zero_key) then Err "muxed account has no ed25519 key" else Ok (muxed_text id key).
Proof.
  intros (Hi & Hl & Hb). destruct (muxed_raw id key Hl Hb) as [H1 H2]. split.
  - unfold StrkeyMuxed.DecodeMuxedAccount, muxed_text.
    destruct (Strkey.Decode_text Strkey.VersionByteMuxedAccount _ eq_refl H2) as [-> _]. rewrite H1. cbn [Nat.eqb negb].
    rewrite drop_app_length', take_app_length' by done.
    by rewrite <- (app_nil_r (EncodeUhyper id)), DecodeUhyper_Encode.
  - unfold StrkeyMuxed.Address. cbn [StrkeyMuxed.ed25519 StrkeyMuxed.id]. destruct (bool_decide _); [done|].
    apply Strkey.Encode_text; [reflexivity|]. rewrite H1. unfold Strkey.maxPayloadSize. lia.
Qed.

(** ** Properties *)

(** C37: addresses and accounts correspond one to one.  A well-formed account,
    plain or muxed, has an address, which parses back to it and is the only text
    that does; every text that parses is the address of a well-formed account
    (the length check excludes the texts with newlines that the base32 decoder
    would skip).  The second implementation, in package strkey, parses the same
    muxed addresses, and prints them unless the key is all zeros. *)
Theorem muxed_address_bijection (m : MuxedAccount) (Hm : wf m) :
  exists s, GetAddress m = Ok s /\ SetAddress s = Ok m /\
    (forall s' m', SetAddress s' = Ok m' -> wf m' /\ GetAddress m' = Ok s' /\ (m' = m <-> s' = s)) /\
    match m with
    | MMed25519 id key =>
        StrkeyMuxed.DecodeMuxedAccount s = Ok (StrkeyMuxed.mk id key) /\
        StrkeyMuxed.Address (StrkeyMuxed.mk id key) =
          (if bool_decide (key = StrkeyMuxed.zero_key) then Err "muxed account has no ed25519 key" else Ok s)
    | _ => True
    end.
Proof.
  exists (address m). split; [by apply GetAddress_wf|]. split; [by apply SetAddress_wf|]. split.
  - intros s' m' H. destruct (SetAddress_inv _ _ H) as [Hw ->]. split; [done|]. split; [by apply GetAddress_wf|].
    split; [by intros ->|]. intros Heq. rewrite Heq, SetAddress_wf in H by done. congruence.
  - destruct m as [key|id key|]; try done. by apply strkey_muxed_agrees.
Qed.

(** signer keys of every type, signed payloads of any length included, have
    an address that parses back to them. *)
Theorem signer_key_roundtrip (k : SignerKey) (Hk : SignerKey_wf k) :
  exists s, SignerKey_GetAddress k = Ok s /\ SignerKey_SetAddress s = Ok k /\
    match k with
    | SEd25519SignedPayload h p =>
        exists sp, SignedPayload.DecodeSignedPayload s = Ok sp /\ SignedPayload.Encode sp = Ok s /\
          SignedPayload.payload sp = p
    | _ => True
    end.
Proof.
  exists (signer_text k). split; [by apply signer_GetAddress|]. split; [by apply signer_SetAddress|].
  destruct k as [| | |h p]; try done. destruct Hk as ([Hl Hb] & Hp & Hpl).
  eexists. split; [by apply DecodeSignedPayload_text|]. split; [|done]. unfold SignedPayload.Encode.
  cbn [SignedPayload.signer SignedPayload.payload].
  destruct (Strkey.Decode_text Strkey.VersionByteAccountID h eq_refl Hb) as [-> _].
  rewrite Strkey.Encode_text; [done|reflexivity|]. by apply payload_raw.
Qed.

End Laws.

Definition key7 : list Z := replicate 32 7.

Lemma key7_ok : length key7 = 32%nat /\ Forall is_byte key7.
Proof. split; [done|]. apply Forall_replicate. unfold is_byte. lia. Qed.

Lemma muxed_address_bijection_witness :
  exists s, GetAddress (MMed25519 12 key7) = Ok s /\ SetAddress s = Ok (MMed25519 12 key7) /\ length (bytes_of s) = 69%nat.
Proof.
  destruct (muxed_address_bijection (MMed25519 12 key7)) as (s & H1 & H2 & _).
  - split; [unfold in_uint; lia|apply key7_ok].
  - exists s. split; [done|]. split; [done|].
    assert (Hs : Ok s = GetAddress (MMed25519 12 key7)) by done. vm_compute in Hs. injection Hs as ->. reflexivity.
Defined.

Lemma signer_key_roundtrip_witness :
  exists s, SignerKey_GetAddress (SEd25519SignedPayload key7 [1; 2; 3]) = Ok s /\
    SignerKey_SetAddress s = Ok (SEd25519SignedPayload key7 [1; 2; 3]).
Proof.
  destruct (signer_key_roundtrip (SEd25519SignedPayload key7 [1; 2; 3])) as (s & H1 & H2 & _).
  - split; [apply key7_ok|]. split; [|unfold SignedPayload.maxPayloadLen; cbn; lia].
    repeat (apply Forall_cons_2; [unfold is_byte; lia|]). apply Forall_nil_2.
  - by exists s.
Defined.

(** A valid signed payload strkey of fewer than 32 bytes panics. *)
Example short_signed_payload_panics :
  SignerKey_SetAddress (Strkey.text Strkey.VersionByteSignedPayload [1; 2; 3]) = Panic "slice bounds out of range".
Proof. vm_compute. reflexivity. Qed.

End Muxed.
