(* ===== verification/Normalize.v ===== *)
(** * Normal forms of ledger entries (xdr/ledger_entry.go, xdr/signers.go,
      xdr/claimant.go)

    The same account can be written in several ways: its extensions may be
    missing or present with default values, and its signers may be in any order.
    [Normalize] chooses one.  The entries have concrete bodies here for accounts,
    trust lines and claimable balances, the kinds that [Normalize] looks into;
    the bodies of the other kinds and claim predicates are parameters. *)
From S2P Require Import Prelude Strkey Xdr LedgerKeys XdrCodec Muxed.
From stdpp Require Import sorting.
Import LedgerKeys.
Local Open Scope Z_scope.

Module Normalize.

(** ** Lists of results *)

Fixpoint map_res {A B} (f : A -> res B) (l : list A) : res (list B) :=
  match l with
  | [] => Ok []
  | a :: l => b ← f a; rest ← map_res f l; Ok (b :: rest)
  end.

(** ** [sort.Strings] *)

Definition string_lt (a b : string) : bool := GoString.bytes_lt (bytes_of a) (bytes_of b).

Fixpoint insert_string (s : string) (l : list string) : list string :=
  match l with
  | [] => [s]
  | t :: l' => if string_lt t s then t :: insert_string s l' else s :: l
  end.

(** Equal strings cannot be told apart, so that every sorting algorithm has this result. *)
Definition sort_Strings (l : list string) : list string := foldr insert_string [] l.

Definition string_le (a b : string) : Prop := string_lt b a = false.

#[export] Instance string_le_antisymm : AntiSymm (=) string_le.
Proof. intros a b Hab Hba. apply GoString.bytes_of_inj. by apply GoString.bytes_lt_total. Qed.

Lemma string_le_trans a b c : string_le a b -> string_le b c -> string_le a c.
Proof.
  unfold string_le, string_lt. intros Hab Hbc. destruct (GoString.bytes_lt (bytes_of c) (bytes_of a)) eqn:Hca; [|done].
  destruct (GoString.bytes_lt (bytes_of a) (bytes_of b)) eqn:Hab'.
  - by rewrite (GoString.bytes_lt_trans _ _ _ Hca Hab') in Hbc.
  - apply GoString.bytes_lt_total in Hab' as He; [|done]. rewrite He in *. congruence.
Qed.

Lemma insert_string_perm s l : insert_string s l ≡ₚ s :: l.
Proof. induction l as [|t l IH]; cbn; [done|]. destruct (string_lt t s); [|done]. rewrite IH. apply perm_swap. Qed.

Lemma sort_Strings_perm l : sort_Strings l ≡ₚ l.
Proof. induction l as [|s l IH]; cbn; [done|]. by rewrite insert_string_perm, IH. Qed.

Lemma insert_string_sorted s l : StronglySorted string_le l -> StronglySorted string_le (insert_string s l).
Proof.
  induction 1 as [|t l Hl IH Ht]; cbn; [repeat constructor|]. destruct (string_lt t s) eqn:Hts.
  - constructor; [done|]. rewrite insert_string_perm. constructor; [|done]. unfold string_le.
    destruct (string_lt s t) eqn:Hst; [|done]. unfold string_lt in *.
    by rewrite <- (GoString.bytes_lt_irrefl (bytes_of s)), (GoString.bytes_lt_trans _ _ _ Hst Hts).
  - constructor; [by constructor|]. constructor; [done|]. eapply Forall_impl; [done|]. intros u Hu. by apply (string_le_trans _ t).
Qed.

Lemma sort_Strings_sorted l : StronglySorted string_le (sort_Strings l).
Proof. induction l as [|s l IH]; cbn; [constructor|]. by apply insert_string_sorted. Qed.

Lemma sort_Strings_unique l l' : l ≡ₚ l' -> sort_Strings l = sort_Strings l'.
Proof.
  intros H. apply (StronglySorted_unique string_le); [apply sort_Strings_sorted..|]. by rewrite !sort_Strings_perm.
Qed.

(** ** Bodies of entries *)

Record Signer := mkSigner { Key : Muxed.SignerKey; Weight : Z }.
Record Liabilities := mkLiabilities { Buying : Z; Selling : Z }.

(** A sponsorship descriptor: the account that sponsors, if there is one. *)
Definition SponsorshipDescriptor : Type := option AccountId.t.

Inductive AccountEntryExtensionV2Ext :=
| V2Ext0
| V2Ext3 (SeqLedger SeqTime : Z).
Inductive AccountEntryExtensionV1Ext :=
| V1Ext0
| V1Ext2 (NumSponsored NumSponsoring : Z) (SignerSponsoringIDs : list SponsorshipDescriptor) (Ext : AccountEntryExtensionV2Ext).
Inductive AccountEntryExt :=
| AccountExt0
| AccountExt1 (liabilities : Liabilities) (Ext : AccountEntryExtensionV1Ext).

Record AccountBody := mkAccountBody {
  Balance : Z;
  SeqNum : Z;
  NumSubEntries : Z;
  InflationDest : option AccountId.t;
  Flags : Z;
  HomeDomain : list Z;
  Thresholds : list Z;
  Signers : list Signer;
  AccountExt : AccountEntryExt
}.

Inductive TrustLineEntryV1Ext :=
| TLV1Ext0
| TLV1Ext2 (LiquidityPoolUseCount : Z).
Inductive TrustLineEntryExt :=
| TLExt0
| TLExt1 (liabilities : Liabilities) (Ext : TrustLineEntryV1Ext).

Record TrustLineBody := mkTrustLineBody {
  tl_Balance : Z;
  tl_Limit : Z;
  tl_Flags : Z;
  tl_Ext : TrustLineEntryExt
}.

Inductive ClaimableBalanceEntryExt :=
| CBExt0
| CBExt1 (flags : Z).

Section Entries.
Context {XC : XdrCodec.XdrCodec} {ScVal Predicate : Type} {Rest : LedgerEntryType -> Type}.

(** The only type of claimant. *)
Record Claimant := mkClaimant { Destination : AccountId.t; predicate : Predicate }.

Record ClaimableBalanceBody := mkClaimableBalanceBody {
  Claimants : list Claimant;
  cb_Asset : Asset.t;
  cb_Amount : Z;
  cb_Ext : ClaimableBalanceEntryExt
}.

Definition Body (t : LedgerEntryType) : Type :=
  match t with
  | LedgerEntryTypeAccount => AccountBody
  | LedgerEntryTypeTrustline => TrustLineBody
  | LedgerEntryTypeClaimableBalance => ClaimableBalanceBody
  | t => Rest t
  end.

Abbreviation LedgerEntry := (LedgerEntry ScVal Body).

(** ** Sorting by address *)

(** The map of a loop [m[key(a)] = a]: later values replace earlier ones. *)
Definition last_by {A} (l : list (string * A)) : gmap string A :=
  fold_left (fun m kv => <[kv.1 := kv.2]> m) l ∅.

(** The loops that [SortSignersByKey] and [SortClaimantsByDestination] share: the
    keys, the map from keys, and the values in the order of the sorted keys. *)
Definition sort_by_address {A} (address : A -> res string) (l : list A) : res (list A) :=
  keys ← map_res address l;
  let keysMap := last_by (zip keys l) in
  Ok (omap (fun key => keysMap !! key) (sort_Strings keys)).

Definition SortSignersByKey (signers : list Signer) : res (list Signer) :=
  sort_by_address (fun signer => Muxed.SignerKey_Address (Key signer)) signers.

Definition SortClaimantsByDestination (claimants : list Claimant) : res (list Claimant) :=
  sort_by_address (fun claimant => AccountId.Address (Destination claimant)) claimants.

(** ** Normalize *)

(** The loop that maps the addresses of signers to their sponsors. *)
Fixpoint sponsors_loop (signers : list Signer) (ids : list SponsorshipDescriptor) (m : gmap string SponsorshipDescriptor) :
    res (gmap string SponsorshipDescriptor) :=
  match signers with
  | [] => Ok m
  | signer :: signers =>
      address ← Muxed.SignerKey_Address (Key signer);
      match ids with
      | [] => Panic "index out of range"
      | id :: ids => sponsors_loop signers ids (<[address := id]> m)
      end
  end.

Definition Normalize_account (a : AccountBody) : res AccountBody :=
  let '(liabilities, ext1) :=
    match AccountExt a with AccountExt0 => (mkLiabilities 0 0, V1Ext0) | AccountExt1 l e => (l, e) end in
  let '(numSponsored, numSponsoring, signerSponsoringIDs, ext2) :=
    match ext1 with
    | V1Ext0 => (0, 0, replicate (length (Signers a)) None, V2Ext0)
    | V1Ext2 n m ids e => (n, m, ids, e)
    end in
  let ext3 := match ext2 with V2Ext0 => V2Ext3 0 0 | e => e end in
  sponsorsMap ← sponsors_loop (Signers a) signerSponsoringIDs ∅;
  signers ← SortSignersByKey (Signers a);
  ids ← map_res (fun signer => address ← Muxed.SignerKey_Address (Key signer); Ok (default None (sponsorsMap !! address))) signers;
  Ok (mkAccountBody (Balance a) (SeqNum a) (NumSubEntries a) (InflationDest a) (Flags a) (HomeDomain a) (Thresholds a) signers
       (AccountExt1 liabilities (V1Ext2 numSponsored numSponsoring ids ext3))).

Definition Normalize_trustline (t : TrustLineBody) : TrustLineBody :=
  mkTrustLineBody (tl_Balance t) (tl_Limit t) (tl_Flags t)
    (match tl_Ext t with
     | TLExt0 => TLExt1 (mkLiabilities 0 0) TLV1Ext0
     | TLExt1 l _ => TLExt1 l TLV1Ext0
     end).

Definition Normalize_claimable_balance (c : ClaimableBalanceBody) : res ClaimableBalanceBody :=
  claimants ← SortClaimantsByDestination (Claimants c);
  Ok (mkClaimableBalanceBody claimants (cb_Asset c) (cb_Amount c)
       (match cb_Ext c with CBExt0 => CBExt1 0 | e => e end)).

Definition Normalize (entry : LedgerEntry) : res LedgerEntry :=
  let ext := match EntryExt entry with LedgerEntryExtV0 => LedgerEntryExtV1 None | e => e end in
  data ← match EntryData entry with
         | Account a body => body ← Normalize_account body; Ok (Account a body)
         | TrustLine a x body => Ok (TrustLine a x (Normalize_trustline body))
         | ClaimableBalance b body => body ← Normalize_claimable_balance body; Ok (ClaimableBalance b body)
         | data => Ok data
         end;
  Ok (mkLedgerEntry (LastModifiedLedgerSeq entry) data ext).

(** ** The order of sorted values *)

Lemma fold_insert {A} (l : list (string * A)) : NoDup l.*1 -> forall m : gmap string A,
  fold_left (fun m kv => <[kv.1 := kv.2]> m) l m = list_to_map l ∪ m.
Proof.
  induction l as [|[k a] l IH]; cbn; intros Hn m; [by rewrite map_empty_union|]. apply NoDup_cons in Hn as [Hk Hn].
  rewrite IH by done. rewrite <- insert_union_r by by apply not_elem_of_list_to_map_1. by rewrite insert_union_l.
Qed.

Lemma last_by_map {A} (l : list (string * A)) : NoDup l.*1 -> last_by l = list_to_map l.
Proof. intros Hn. unfold last_by. rewrite fold_insert by done. apply map_union_empty. Qed.

Lemma map_res_Ok {A B} (f : A -> res B) (g : A -> B) l : Forall (fun a => f a = Ok (g a)) l -> map_res f l = Ok (g <$> l).
Proof. induction 1 as [|a l Ha _ IH]; [done|]. cbn [map_res]. by rewrite Ha, bind_Ok_l, IH, bind_Ok_l. Qed.

Section Sorting.
Context {A : Type} (address : A -> res string) (text : A -> string).

Definition sorted_by (l : list A) : list A :=
  omap (fun key => (list_to_map ((fun a => (text a, a)) <$> l) : gmap string A) !! key) (sort_Strings (text <$> l)).

Lemma zip_text l : zip (text <$> l) l = (fun a => (text a, a)) <$> l.
Proof. induction l as [|a l IH]; cbn; [done|]. by rewrite IH. Qed.

Lemma keyed_fst l : ((fun a => (text a, a)) <$> l).*1 = text <$> l.
Proof. by rewrite <- list_fmap_compose. Qed.

Lemma sort_by_address_Ok l : Forall (fun a => address a = Ok (text a)) l -> NoDup (text <$> l) ->
  sort_by_address address l = Ok (sorted_by l).
Proof.
  intros Ha Hn. unfold sort_by_address. rewrite (map_res_Ok _ text), bind_Ok_l by done. unfold sorted_by.
  by rewrite zip_text, last_by_map by by rewrite keyed_fst.
Qed.

Lemma sorted_by_unique l l' : NoDup (text <$> l) -> l ≡ₚ l' -> sorted_by l = sorted_by l'.
Proof.
  intros Hn Hp. unfold sorted_by. rewrite (sort_Strings_unique _ (text <$> l')) by by apply fmap_Permutation.
  rewrite (list_to_map_proper _ ((fun a => (text a, a)) <$> l')); [done|by rewrite keyed_fst|by apply fmap_Permutation].
Qed.

Lemma omap_lookup_keys (m : gmap string A) (l : list A) : (forall a, a ∈ l -> m !! text a = Some a) ->
  omap (fun key => m !! key) (text <$> l) = l.
Proof.
  induction l as [|a l IH]; intros H; cbn; [done|]. rewrite (H a) by left. rewrite IH; [done|]. intros b Hb. apply H. by right.
Qed.

Lemma omap_perm {B C} (f : B -> option C) (l l' : list B) : l ≡ₚ l' -> omap f l ≡ₚ omap f l'.
Proof.
  induction 1 as [|x l l' _ IH|x y l|l l1 l2 _ IH1 _ IH2]; cbn; [done| | |by rewrite IH1].
  - destruct (f x); by rewrite IH.
  - destruct (f x), (f y); try done. apply perm_swap.
Qed.

Lemma keyed_lookup (l : list A) : NoDup (text <$> l) -> forall a, a ∈ l ->
  (list_to_map ((fun a => (text a, a)) <$> l) : gmap string A) !! text a = Some a.
Proof. intros Hn a Ha. apply elem_of_list_to_map_1; [by rewrite keyed_fst|]. apply list_elem_of_fmap. by exists a. Qed.

Lemma sorted_by_perm l : NoDup (text <$> l) -> sorted_by l ≡ₚ l.
Proof.
  intros Hn. unfold sorted_by. rewrite (omap_perm _ _ _ (sort_Strings_perm _)).
  by rewrite omap_lookup_keys by by apply keyed_lookup.
Qed.

End Sorting.

(** ** Entries that say the same *)

Context {CL : XdrCodec.CodecLaws}.

Definition signer_address (s : Signer) : string := Muxed.signer_text (Key s).

(** The extension fields of an account with their defaults. *)
Definition account_parts (a : AccountBody) : Liabilities * Z * Z * list SponsorshipDescriptor * AccountEntryExtensionV2Ext :=
  let none := replicate (length (Signers a)) None in
  let full e := match e with V2Ext0 => V2Ext3 0 0 | e => e end in
  match AccountExt a with
  | AccountExt0 => (mkLiabilities 0 0, 0, 0, none, V2Ext3 0 0)
  | AccountExt1 l V1Ext0 => (l, 0, 0, none, V2Ext3 0 0)
  | AccountExt1 l (V1Ext2 n m ids e) => (l, n, m, ids, full e)
  end.

Definition sponsors_of (a : AccountBody) : list SponsorshipDescriptor := (account_parts a).1.2.

(** What a ledger guarantees of the signers of an account: their keys are
    well-formed and distinct, and each has its sponsorship descriptor. *)
Definition account_ok (a : AccountBody) : Prop :=
  Forall (fun s => Muxed.SignerKey_wf (Key s)) (Signers a) /\ NoDup (Key <$> Signers a) /\
  length (sponsors_of a) = length (Signers a).

Definition same_account (a b : AccountBody) : Prop :=
  (Balance a, SeqNum a, NumSubEntries a, InflationDest a, Flags a, HomeDomain a, Thresholds a) =
    (Balance b, SeqNum b, NumSubEntries b, InflationDest b, Flags b, HomeDomain b, Thresholds b) /\
  (account_parts a).1.1 = (account_parts b).1.1 /\ (account_parts a).2 = (account_parts b).2 /\
  zip (Signers a) (sponsors_of a) ≡ₚ zip (Signers b) (sponsors_of b).

Lemma signers_text a : account_ok a ->
  Forall (fun s => Muxed.SignerKey_Address (Key s) = Ok (signer_address s)) (Signers a) /\ NoDup (signer_address <$> Signers a).
Proof.
  intros (Hw & Hn & _). split.
  - eapply Forall_impl; [exact Hw|]. intros s Hs. unfold Muxed.SignerKey_Address. by rewrite Muxed.signer_GetAddress.
  - change signer_address with (Muxed.signer_text ∘ Key). rewrite list_fmap_compose.
    assert (Hk : Forall Muxed.SignerKey_wf (Key <$> Signers a)) by by apply Forall_fmap.
    revert Hk Hn. generalize (Key <$> Signers a). intros l Hk Hn. induction Hn as [|k l Hni Hn IH]; cbn; [constructor|].
    apply Forall_cons in Hk as [Hk Hl]. constructor; [|by apply IH]. intros Hin. apply list_elem_of_fmap in Hin as (k' & Heq & Hin).
    rewrite Forall_forall in Hl. pose proof (Muxed.signer_SetAddress k Hk) as H1. pose proof (Muxed.signer_SetAddress k' (Hl _ Hin)) as H2.
    rewrite Heq, H2 in H1. injection H1 as ->. done.
Qed.

Lemma sponsors_loop_Ok signers : Forall (fun s => Muxed.SignerKey_Address (Key s) = Ok (signer_address s)) signers ->
  forall ids m, length ids = length signers ->
  sponsors_loop signers ids m = Ok (fold_left (fun m kv => <[kv.1 := kv.2]> m) (zip (signer_address <$> signers) ids) m).
Proof.
  induction 1 as [|s l Hs _ IH]; intros [|id ids] m Hl; try done. cbn [sponsors_loop]. rewrite Hs, bind_Ok_l. cbn. apply IH. by injection Hl.
Qed.

Definition sponsor_in (a : AccountBody) (s : Signer) : SponsorshipDescriptor :=
  default None ((list_to_map (zip (signer_address <$> Signers a) (sponsors_of a)) : gmap string SponsorshipDescriptor) !! signer_address s).

(** The normal form of an account. *)
Definition normal_account (a : AccountBody) : AccountBody :=
  let signers := sorted_by signer_address (Signers a) in
  let p := account_parts a in
  mkAccountBody (Balance a) (SeqNum a) (NumSubEntries a) (InflationDest a) (Flags a) (HomeDomain a) (Thresholds a) signers
    (AccountExt1 p.1.1.1.1 (V1Ext2 p.1.1.1.2 p.1.1.2 (sponsor_in a <$> signers) p.2)).

Lemma zip_map_fst {A B C} (f : A -> C) (l : list A) (k : list B) : zip (f <$> l) k = (fun p => (f p.1, p.2)) <$> zip l k.
Proof. revert k. induction l as [|a l IH]; intros [|b k]; cbn; [done..|]. by rewrite IH. Qed.

Lemma sponsor_keys a : account_ok a -> NoDup (zip (signer_address <$> Signers a) (sponsors_of a)).*1.
Proof. intros Ha. rewrite fst_zip; [by apply signers_text|]. rewrite length_fmap. by rewrite (proj2 (proj2 Ha)). Qed.

Lemma Normalize_account_Ok a : account_ok a -> Normalize_account a = Ok (normal_account a).
Proof.
  intros Ha. pose proof (signers_text a Ha) as [Ht Hn].
  assert (Hgen : forall l n m ids e, account_parts a = (l, n, m, ids, e) ->
    (sponsorsMap ← sponsors_loop (Signers a) ids ∅;
     signers ← SortSignersByKey (Signers a);
     ids ← map_res (fun signer => address ← Muxed.SignerKey_Address (Key signer); Ok (default None (sponsorsMap !! address))) signers;
     Ok (mkAccountBody (Balance a) (SeqNum a) (NumSubEntries a) (InflationDest a) (Flags a) (HomeDomain a) (Thresholds a) signers
          (AccountExt1 l (V1Ext2 n m ids e)))) = Ok (normal_account a)).
  { intros l n m ids e Hp. assert (Hids : sponsors_of a = ids) by (unfold sponsors_of; by rewrite Hp).
    rewrite sponsors_loop_Ok, bind_Ok_l by (done || rewrite <- Hids; apply Ha). rewrite <- Hids.
    rewrite fold_insert, map_union_empty by by apply sponsor_keys. unfold SortSignersByKey.
    rewrite (sort_by_address_Ok _ signer_address), bind_Ok_l by done.
    rewrite (map_res_Ok _ (sponsor_in a)), bind_Ok_l.
    - unfold normal_account. by rewrite Hp.
    - rewrite (sorted_by_perm signer_address) by done. eapply Forall_impl; [exact Ht|]. intros s Hs. cbn beta. by rewrite Hs, bind_Ok_l. }
  unfold Normalize_account, account_parts in *. destruct (AccountExt a) as [|l [|n m ids [|]]]; by apply Hgen.
Qed.

Lemma same_account_signers a b : account_ok a -> account_ok b -> same_account a b -> Signers a ≡ₚ Signers b.
Proof.
  intros (_ & _ & Ha) (_ & _ & Hb) (_ & _ & _ & Hp). apply (fmap_Permutation fst) in Hp. by rewrite !fst_zip in Hp by lia.
Qed.

(** Accounts that say the same have the same normal form. *)
Lemma normal_account_same a b : account_ok a -> account_ok b -> same_account a b -> normal_account a = normal_account b.
Proof.
  intros Ha Hb Hs. pose proof (same_account_signers a b Ha Hb Hs) as Hsig. destruct Hs as ([= E1 E2 E3 E4 E5 E6 E7] & E8 & E9 & Hz).
  assert (Hsorted : sorted_by signer_address (Signers a) = sorted_by signer_address (Signers b))
    by (apply sorted_by_unique; [by apply signers_text|done]).
  assert (Hspon : forall s, sponsor_in a s = sponsor_in b s).
  { intros s. unfold sponsor_in. rewrite (list_to_map_proper _ (zip (signer_address <$> Signers b) (sponsors_of b))); [done|by apply sponsor_keys|].
    rewrite !zip_map_fst. by apply fmap_Permutation. }
  unfold normal_account. rewrite Hsorted, E1, E2, E3, E4, E5, E6, E7, E9.
  destruct (account_parts a) as [[[[? ?] ?] ?] ?], (account_parts b) as [[[[? ?] ?] ?] ?]. cbn in E8 |- *. injection E8 as -> -> ->.
  do 3 f_equal. apply list_fmap_ext. intros i s _. apply Hspon.
Qed.

Lemma normal_account_spec a : account_ok a -> account_ok (normal_account a) /\ same_account (normal_account a) a.
Proof.
  intros Ha. pose proof (signers_text a Ha) as [_ Hn]. pose proof Ha as (Hw & Hk & Hl).
  pose proof (sorted_by_perm signer_address (Signers a) Hn) as Hp.
  assert (Hparts : account_parts (normal_account a) =
    ((account_parts a).1.1, sponsor_in a <$> sorted_by signer_address (Signers a), (account_parts a).2)).
  { unfold normal_account, account_parts at 1. cbn [AccountExt]. 
    destruct (account_parts a) as [[[[l n] m] ids] e] eqn:He. cbn. f_equal.
    unfold account_parts in He. destruct (AccountExt a) as [|l' [|n' m' ids' [|]]]; by injection He as <- <- <- <- <-. }
  assert (Hz : zip (Signers a) (sponsors_of a) = (fun s => (s, sponsor_in a s)) <$> Signers a).
  { assert (Hf : forall s i, (s, i) ∈ zip (Signers a) (sponsors_of a) -> sponsor_in a s = i).
    { intros s i Hin. unfold sponsor_in. erewrite elem_of_list_to_map_1; [done|by apply sponsor_keys|].
      rewrite zip_map_fst. apply list_elem_of_fmap. by exists (s, i). }
    clear -Hf Hl. revert Hl Hf. generalize (sponsors_of a). generalize (sponsor_in a). intros f. induction (Signers a) as [|s l IH];
      intros [|i k] Hl Hf; try done. cbn. rewrite (Hf s i) by left. f_equal. apply IH; [by injection Hl|]. intros. apply Hf. by right. }
  assert (Hs' : sponsors_of (normal_account a) = sponsor_in a <$> sorted_by signer_address (Signers a))
    by (unfold sponsors_of; by rewrite Hparts).
  split.
  - split; [by cbn; rewrite Hp|]. split; [cbn; by rewrite Hp|]. by rewrite Hs', length_fmap.
  - split; [done|]. split; [by rewrite Hparts|]. split; [by rewrite Hparts|]. rewrite Hs', Hz. cbn [Signers normal_account].
    transitivity ((fun s => (s, sponsor_in a s)) <$> sorted_by signer_address (Signers a)); [|by apply fmap_Permutation].
    clear. induction (sorted_by signer_address (Signers a)) as [|s l IH]; cbn; [done|]. by rewrite IH.
Qed.

Definition claimants_ok (c : ClaimableBalanceBody) : Prop :=
  Forall (fun c => AccountId.wf (Destination c)) (Claimants c) /\ NoDup (Destination <$> Claimants c).

Definition flags_of (e : ClaimableBalanceEntryExt) : Z := match e with CBExt0 => 0 | CBExt1 f => f end.
Definition liabilities_of (e : TrustLineEntryExt) : Liabilities := match e with TLExt0 => mkLiabilities 0 0 | TLExt1 l _ => l end.

Definition claimant_address (c : Claimant) : string := AccountId.address (Destination c).

Definition normal_balance (c : ClaimableBalanceBody) : ClaimableBalanceBody :=
  mkClaimableBalanceBody (sorted_by claimant_address (Claimants c)) (cb_Asset c) (cb_Amount c) (CBExt1 (flags_of (cb_Ext c))).

Lemma claimants_text c : claimants_ok c ->
  Forall (fun c => AccountId.Address (Destination c) = Ok (claimant_address c)) (Claimants c) /\ NoDup (claimant_address <$> Claimants c).
Proof.
  intros [Hw Hn]. split.
  - eapply Forall_impl; [exact Hw|]. intros x Hx. unfold AccountId.Address. by rewrite AccountId.GetAddress_total by (destruct Hx; lia).
  - change claimant_address with (AccountId.address ∘ Destination). rewrite list_fmap_compose.
    assert (Hk : Forall AccountId.wf (Destination <$> Claimants c)) by by apply Forall_fmap.
    revert Hk Hn. generalize (Destination <$> Claimants c). intros l Hk Hn. induction Hn as [|k l Hni Hn IH]; cbn; [constructor|].
    apply Forall_cons in Hk as [Hk Hl]. constructor; [|by apply IH]. intros Hin. apply list_elem_of_fmap in Hin as (k' & Heq & Hin).
    rewrite Forall_forall in Hl. apply AccountId.address_inj in Heq; [|done|by apply Hl]. by subst.
Qed.

Lemma Normalize_claimable_balance_Ok c : claimants_ok c -> Normalize_claimable_balance c = Ok (normal_balance c).
Proof.
  intros Hc. pose proof (claimants_text c Hc) as [Ht Hn]. unfold Normalize_claimable_balance, SortClaimantsByDestination.
  rewrite (sort_by_address_Ok _ claimant_address), bind_Ok_l by done. unfold normal_balance. by destruct (cb_Ext c).
Qed.

(** ** Normal forms of entries *)

Definition entry_ok (e : LedgerEntry) : Prop :=
  match EntryData e with
  | Account _ body => account_ok body
  | ClaimableBalance _ body => claimants_ok body
  | _ => True
  end.

Definition sponsor_of (e : LedgerEntry) : option AccountId.t :=
  match EntryExt e with LedgerEntryExtV0 => None | LedgerEntryExtV1 s => s end.

(** Entries that differ at most in the order of signers and claimants, in default
    values of extensions that are left out, and in the number of pools that use a
    trust line. *)
Definition same_entry (e e' : LedgerEntry) : Prop :=
  LastModifiedLedgerSeq e = LastModifiedLedgerSeq e' /\ sponsor_of e = sponsor_of e' /\
  match EntryData e, EntryData e' with
  | Account a body, Account a' body' => a = a' /\ same_account body body'
  | TrustLine a x body, TrustLine a' x' body' => a = a' /\ x = x' /\
      (tl_Balance body, tl_Limit body, tl_Flags body) = (tl_Balance body', tl_Limit body', tl_Flags body') /\
      liabilities_of (tl_Ext body) = liabilities_of (tl_Ext body')
  | ClaimableBalance b body, ClaimableBalance b' body' => b = b' /\
      (cb_Asset body, cb_Amount body) = (cb_Asset body', cb_Amount body') /\
      flags_of (cb_Ext body) = flags_of (cb_Ext body') /\ Claimants body ≡ₚ Claimants body'
  | d, d' => d = d'
  end.

Definition normal_entry (e : LedgerEntry) : LedgerEntry :=
  mkLedgerEntry (LastModifiedLedgerSeq e)
    (match EntryData e with
     | Account a body => Account a (normal_account body)
     | TrustLine a x body => TrustLine a x (Normalize_trustline body)
     | ClaimableBalance b body => ClaimableBalance b (normal_balance body)
     | d => d
     end) (LedgerEntryExtV1 (sponsor_of e)).

Lemma Normalize_Ok e : entry_ok e -> Normalize e = Ok (normal_entry e).
Proof.
  intros He. unfold Normalize, normal_entry, entry_ok, sponsor_of in *.
  destruct (EntryData e); cbn [mbind res_bind]; rewrite ?Normalize_account_Ok, ?Normalize_claimable_balance_Ok, ?bind_Ok_l by done;
    by destruct (EntryExt e).
Qed.

Lemma Normalize_trustline_eq t : Normalize_trustline t = mkTrustLineBody (tl_Balance t) (tl_Limit t) (tl_Flags t) (TLExt1 (liabilities_of (tl_Ext t)) TLV1Ext0).
Proof. unfold Normalize_trustline. by destruct (tl_Ext t). Qed.

Lemma normal_entry_same e e' : entry_ok e -> entry_ok e' -> same_entry e e' -> normal_entry e = normal_entry e'.
Proof.
  unfold normal_entry, entry_ok, same_entry. intros He He' (-> & -> & H). f_equal.
  destruct (EntryData e), (EntryData e'); try done.
  - destruct H as [-> H]. f_equal. by apply normal_account_same.
  - destruct H as (-> & -> & [= E1 E2 E3] & E4). f_equal. by rewrite !Normalize_trustline_eq, E1, E2, E3, E4.
  - destruct H as (-> & [= E1 E2] & E3 & Hp). f_equal. unfold normal_balance. rewrite E1, E2, E3. f_equal.
    apply sorted_by_unique; [by apply claimants_text|done].
Qed.

Lemma normal_entry_spec e : entry_ok e -> entry_ok (normal_entry e) /\ same_entry (normal_entry e) e /\
  Entry_LedgerKey (normal_entry e) = Entry_LedgerKey e.
Proof.
  unfold normal_entry, entry_ok, same_entry, Entry_LedgerKey. intros He. cbn [EntryData LastModifiedLedgerSeq].
  destruct (EntryData e); cbn [EntryData]; try (by split_and!).
  - pose proof (normal_account_spec _ He) as [H1 H2]. by split_and!.
  - rewrite Normalize_trustline_eq. by split_and!.
  - pose proof (claimants_text _ He) as [_ Hn]. pose proof (sorted_by_perm claimant_address _ Hn) as Hp. destruct He as [Hw Hd].
    split_and!; try done. split; cbn [normal_balance Claimants]; by rewrite Hp.
Qed.

(** C19: Normalizing an entry of a ledger never panics and keeps its ledger key; the
    result says the same as the entry, is its own normal form, and is the normal
    form of every entry that says the same. *)
Theorem Normalize_canonical (e : LedgerEntry) (He : entry_ok e) :
  exists n, Normalize e = Ok n /\ Entry_LedgerKey n = Entry_LedgerKey e /\ same_entry n e /\ Normalize n = Ok n /\
    forall e', entry_ok e' -> same_entry e e' -> Normalize e' = Ok n.
Proof.
  destruct (normal_entry_spec e He) as (Hok & Hs & Hk). exists (normal_entry e). split; [by apply Normalize_Ok|].
  split; [done|]. split; [done|]. split.
  - rewrite Normalize_Ok by done. by rewrite (normal_entry_same (normal_entry e) e).
  - intros e' He' Hs'. rewrite Normalize_Ok by done. by rewrite (normal_entry_same e e').
Qed.

End Entries.
Arguments Claimant Predicate : clear implicits.
Arguments ClaimableBalanceBody Predicate : clear implicits.
Arguments Body Predicate Rest t : clear implicits.

(** ** An example: two signers in the wrong order, without extensions *)

Definition example_account (signers : list Signer) (ext : AccountEntryExt) : LedgerEntry bool (Body unit (fun _ => Z)) :=
  mkLedgerEntry 7 (Account account0 (mkAccountBody 100 1 2 None 0 [] [1; 0; 0; 0] signers ext : Body unit (fun _ => Z) LedgerEntryTypeAccount))
    LedgerEntryExtV0.

Definition signer_x : Signer := mkSigner (Muxed.SHashX (replicate 32 3)) 1.
Definition signer_t : Signer := mkSigner (Muxed.SPreAuthTx (replicate 32 5)) 2.

Lemma example_ok : entry_ok (example_account [signer_x; signer_t] AccountExt0).
Proof.
  assert (Hb : forall n b, is_byte b -> length (replicate n b) = n /\ Forall is_byte (replicate n b))
    by (intros n b H; split; [apply length_replicate|by apply Forall_replicate]).
  split; [|split; [|done]].
  - constructor; [|constructor; [|constructor]]; apply Hb; unfold is_byte; lia.
  - apply (bool_decide_unpack _). vm_compute. exact I.
Qed.

Lemma Normalize_canonical_witness :
  entry_ok (example_account [signer_x; signer_t] AccountExt0) /\
  exists n, Normalize (example_account [signer_x; signer_t] AccountExt0) = Ok n /\ Normalize n = Ok n.
Proof.
  split; [apply example_ok|].
  destruct (Normalize_canonical (example_account [signer_x; signer_t] AccountExt0) example_ok) as (n & H1 & _ & _ & H2 & _).
  exists n. split; [exact H1|exact H2].
Defined.

(** The order changes, and the sponsor moves with its signer. *)
Example signers_sorted_with_sponsors :
  (e ← Normalize (example_account [signer_x; signer_t] (AccountExt1 (mkLiabilities 1 2) (V1Ext2 0 1 [Some account0; None] V2Ext0)));
   match EntryData e with
   | Account _ a => Ok (Signers a, AccountExt a)
   | _ => Err "another kind"
   end) =
  Ok ([signer_t; signer_x], AccountExt1 (mkLiabilities 1 2) (V1Ext2 0 1 [None; Some account0] (V2Ext3 0 0))).
Proof. vm_compute. reflexivity. Qed.

End Normalize.
