(* ===== verification/Keypair.v ===== *)
(** * Keypairs (keypair, xdr/decorated_signature.go)

    Addresses and seeds as keypairs, hints, signatures and their verification,
    over a class for Ed25519; and the base64 codec of the Go standard library,
    which package txnbuild uses for nonces and signatures. *)
From S2P Require Import Prelude Strkey Xdr.
Local Open Scope Z_scope.

(** ** Base64 with padding *)
Module Base64.
Import BitString.

Definition alphabet : list Z :=
  bytes_of "ABCDEFGHIJKLMNOPQRSTUVWXYZabcdefghijklmnopqrstuvwxyz0123456789+/".

Definition pad_char : Z := 61.

Definition enc_char (v : Z) : Z := nth (Z.to_nat v) alphabet 0.

Fixpoint index_of (c : Z) (l : list Z) (i : Z) : Z :=
  match l with
  | [] => 0xff
  | x :: l => if x =? c then i else index_of c l (i + 1)
  end.
Definition dec_char (c : Z) : Z := index_of c alphabet 0.

(** Characters without padding, and the padding, for [n] bytes. *)
Definition chars (n : nat) : nat := ((n * 8 + 5) / 6)%nat.
Definition padding (n : nat) : nat := ((3 - n mod 3) mod 3)%nat.

Definition EncodeToString (src : list Z) : list Z :=
  map enc_char (map of_bits (group (chars (length src)) 6 (flatten 8 src))) ++ replicate (padding (length src)) pad_char.

(** Newlines are skipped, the text is a whole number of quanta, at most the last
    two characters are padding; bits left over before the padding are ignored. *)
Definition trailing_padding (src : list Z) : nat :=
  match rev src with
  | a :: b :: _ => if a =? pad_char then if b =? pad_char then 2%nat else 1%nat else 0%nat
  | _ => 0%nat
  end.

Definition DecodeString (src : list Z) : res (list Z) :=
  let src := Base32.strip_newlines src in
  if negb (Nat.eqb (length src mod 4) 0) then Err "illegal base64 data" else
  let k := trailing_padding src in
  let vals := map dec_char (take (length src - k) src) in
  if existsb (fun v => v =? 0xff) vals then Err "illegal base64 data" else
  Ok (map of_bits (group (length src / 4 * 3 - k) 8 (flatten 6 vals))).

Lemma char_check :
  forallb (fun n => let c := enc_char (Z.of_nat n) in
    (dec_char c =? Z.of_nat n) && negb (Base32.is_newline c) && negb (c =? pad_char) && (0 <=? c) && (c <? 256)) (seq 0 64) = true.
Proof. vm_compute. reflexivity. Qed.

Lemma enc_char64_ok v : 0 <= v < 64 -> dec_char (enc_char v) = v /\ Base32.is_newline (enc_char v) = false /\
  enc_char v <> pad_char /\ is_byte (enc_char v).
Proof.
  intros Hv. pose proof char_check as H. rewrite forallb_forall in H.
  specialize (H (Z.to_nat v) ltac:(apply in_seq; lia)). rewrite Z2Nat.id in H by lia.
  cbv zeta in H. zbool. unfold is_byte. split_and!; done || lia.
Qed.

(** Whole quanta: no padding. *)
Lemma DecodeString_EncodeToString src : Forall is_byte src -> (length src mod 3 = 0)%nat -> DecodeString (EncodeToString src) = Ok src.
Proof.
  intros Hs H3. unfold EncodeToString. unfold padding. rewrite H3. change ((3 - 0) mod 3)%nat with 0%nat.
  cbn [replicate]. rewrite app_nil_r.
  set (q := (length src / 3)%nat). assert (Hq : length src = (3 * q)%nat) by (pose proof (Nat.div_mod (length src) 3 ltac:(lia)); lia).
  assert (Hch : chars (length src) = (4 * q)%nat).
  { unfold chars. rewrite Hq. replace (3 * q * 8 + 5)%nat with (4 * q * 6 + 5)%nat by lia.
    rewrite Nat.div_add_l by lia. change (5 / 6)%nat with 0%nat. lia. }
  set (vs := map of_bits (group (chars (length src)) 6 (flatten 8 src))).
  assert (Hv : Forall (fun v => 0 <= v < 64) vs) by apply (of_bits_groups _ 6).
  assert (Hlen : length vs = (4 * q)%nat) by (unfold vs; rewrite length_map, group_length; done).
  assert (Hstrip : Base32.strip_newlines (map enc_char vs) = map enc_char vs).
  { unfold Base32.strip_newlines. clear -Hv. induction Hv as [|v vs Hv _ IH]; [done|]. simpl.
    destruct (enc_char64_ok v Hv) as (_ & -> & _). simpl. by rewrite IH. }
  assert (Hpad : trailing_padding (map enc_char vs) = 0%nat).
  { unfold trailing_padding. rewrite <- map_rev. assert (Hr : Forall (fun v => 0 <= v < 64) (rev vs)) by (by apply Forall_rev).
    destruct Hr as [|a l Ha [|b l' Hb _]]; [done|done|]. cbn [map].
    destruct (enc_char64_ok a Ha) as (_ & _ & Hne & _). by rewrite (proj2 (Z.eqb_neq _ _)). }
  assert (Hdec : map dec_char (map enc_char vs) = vs).
  { clear -Hv. induction Hv as [|v vs Hv _ IH]; [done|]. simpl. destruct (enc_char64_ok v Hv) as (-> & _). by rewrite IH. }
  unfold DecodeString. rewrite Hstrip, Hpad, length_map, Hlen, Nat.sub_0_r, take_ge by (rewrite length_map; lia).
  rewrite Nat.mul_comm, Nat.Div0.mod_mul, Nat.div_mul by lia. cbn [Nat.eqb negb]. rewrite Hdec.
  replace (existsb (fun v => v =? 255) vs) with false.
  2:{ symmetry. clear -Hv. induction Hv as [|v vs Hv _ IH]; [done|]. simpl. rewrite IH. by replace (v =? 255) with false by lia. }
  unfold vs. rewrite flatten_of_bits, concat_group by apply group_widths.
  rewrite resize_all_alt by (rewrite flatten_length, Hch, Hq; lia).
  replace (q * 3 - 0)%nat with (length src) by lia. rewrite <- (app_nil_r (flatten 8 src)). by rewrite regroup.
Qed.

Lemma EncodeToString_length src : (length src mod 3 = 0)%nat -> length (EncodeToString src) = (length src / 3 * 4)%nat.
Proof.
  intros H3. unfold EncodeToString, padding. rewrite H3. change ((3 - 0) mod 3)%nat with 0%nat.
  rewrite length_app, !length_map, group_length. cbn [replicate length]. unfold chars.
  pose proof (Nat.div_mod (length src) 3 ltac:(lia)) as Hd. rewrite H3 in Hd. set (q := (length src / 3)%nat) in *.
  replace (length src * 8 + 5)%nat with (4 * q * 6 + 5)%nat by lia. rewrite Nat.div_add_l by lia. change (5 / 6)%nat with 0%nat. lia.
Qed.

End Base64.

(** ** Keypairs *)
Module Keypair.

(** Ed25519 of the Go standard library, on 32-byte seeds and public keys. *)
Class Ed25519 := {
  public_of : list Z -> list Z;
  ed25519_Sign : list Z -> list Z -> list Z;
  ed25519_Verify : list Z -> list Z -> list Z -> bool
}.

Class Ed25519Laws {ED : Ed25519} : Prop := {
  public_of_ok seed : length seed = 32%nat -> Forall is_byte seed ->
    length (public_of seed) = 32%nat /\ Forall is_byte (public_of seed);
  Sign_length seed msg : length (ed25519_Sign seed msg) = 64%nat;
  Verify_Sign seed msg : length seed = 32%nat -> Forall is_byte seed ->
    ed25519_Verify (public_of seed) msg (ed25519_Sign seed msg) = true
}.

Definition ErrInvalidSignature : error := "signature verification failed".
Definition ErrCannotSign : error := "cannot sign".

Record DecoratedSignature := mkDecorated { Hint : list Z; Signature : list Z }.

Definition NewDecoratedSignature (sig hint : list Z) : DecoratedSignature := mkDecorated hint sig.

(** The hint of a signed payload: the last four bytes of the payload, filled up
    with zeros, exclusive-or the hint of the key. *)
Definition NewDecoratedSignatureForPayload (sig keyHint payload : list Z) : DecoratedSignature :=
  let hint := if Nat.leb 4 (length payload) then drop (length payload - 4) payload else resize 4 0 payload in
  mkDecorated (zip_with Z.lxor hint keyHint) sig.

Section Keypair.
Context {ED : Ed25519}.

Record FromAddress := mkFromAddress { fa_address : string; fa_publicKey : list Z }.
Record Full := mkFull { address : string; seed : string; publicKey : list Z; privateKey : list Z }.
Inductive KP := KFromAddress (k : FromAddress) | KFull (k : Full).

Definition ParseAddress (a : string) : res FromAddress :=
  payload ← Strkey.Decode Strkey.VersionByteAccountID a; Ok (mkFromAddress a payload).

(** [ed25519.GenerateKey] reads 32 bytes of the decoded seed. *)
Definition ParseFull (s : string) : res Full :=
  rawSeed ← Strkey.Decode Strkey.VersionByteSeed s;
  if Nat.ltb (length rawSeed) 32 then Err "unexpected EOF" else
  let priv := take 32 rawSeed in
  a ← Strkey.Encode Strkey.VersionByteAccountID (public_of priv);
  Ok (mkFull a s (public_of priv) priv).

Definition FromRawSeed (rawSeed : list Z) : res Full :=
  s ← Strkey.Encode Strkey.VersionByteSeed rawSeed;
  a ← Strkey.Encode Strkey.VersionByteAccountID (public_of rawSeed);
  Ok (mkFull a s (public_of rawSeed) rawSeed).

Definition Parse (addressOrSeed : string) : res KP :=
  match ParseAddress addressOrSeed with
  | Ok addr => Ok (KFromAddress addr)
  | Panic m => Panic m
  | Err e => if negb (bool_decide (e = Strkey.ErrInvalidVersionByte)) then Err e else
      k ← ParseFull addressOrSeed; Ok (KFull k)
  end.

Definition KP_Address (k : KP) : string :=
  match k with KFromAddress k => fa_address k | KFull k => address k end.

(** The last four bytes of the public key; the slice expression panics when it
    has fewer than 28. *)
Definition key_hint (pub : list Z) : res (list Z) :=
  if Nat.ltb (length pub) 28 then Panic "slice bounds out of range" else Ok (resize 4 0 (drop 28 pub)).

(** The Ed25519 of the library panics on keys of another length than 32. *)
Definition key_Verify (pub input sig : list Z) : res unit :=
  if negb (Nat.eqb (length sig) 64) then Err ErrInvalidSignature
  else if negb (Nat.eqb (length pub) 32) then Panic "ed25519: bad public key length"
  else if negb (ed25519_Verify pub input sig) then Err ErrInvalidSignature else Ok tt.

Definition FromAddress_Hint (k : FromAddress) : res (list Z) := key_hint (fa_publicKey k).
Definition FromAddress_Verify (k : FromAddress) : list Z -> list Z -> res unit := key_Verify (fa_publicKey k).
Definition Full_Hint (k : Full) : res (list Z) := key_hint (publicKey k).

Definition Full_Sign (k : Full) (input : list Z) : res (list Z) := Ok (ed25519_Sign (privateKey k) input).

Definition Full_SignDecorated (k : Full) (input : list Z) : res DecoratedSignature :=
  sig ← Full_Sign k input;
  hint ← Full_Hint k;
  Ok (NewDecoratedSignature sig hint).

Definition Full_SignPayloadDecorated (k : Full) (input : list Z) : res DecoratedSignature :=
  sig ← Full_Sign k input;
  hint ← Full_Hint k;
  Ok (NewDecoratedSignatureForPayload sig hint input).

End Keypair.

(** A keypair that [Parse] made from a seed. *)
Section Laws.
Context {ED : Ed25519} {EL : Ed25519Laws}.

Lemma FromRawSeed_ok raw : length raw = 32%nat -> Forall is_byte raw ->
  exists k, FromRawSeed raw = Ok k /\ publicKey k = public_of raw /\ privateKey k = raw /\
    address k = AccountId.address (AccountId.mk (public_of raw)) /\
    Parse (seed k) = Ok (KFull k) /\ ParseAddress (address k) = Ok (mkFromAddress (address k) (public_of raw)).
Proof.
  intros Hl Hb. destruct (public_of_ok raw Hl Hb) as [Hpl Hpb].
  assert (Hs : Strkey.Encode Strkey.VersionByteSeed raw = Ok (Strkey.text Strkey.VersionByteSeed raw))
    by (apply Strkey.Encode_text; [reflexivity|unfold Strkey.maxPayloadSize; lia]).
  assert (Ha : Strkey.Encode Strkey.VersionByteAccountID (public_of raw) = Ok (Strkey.text Strkey.VersionByteAccountID (public_of raw)))
    by (apply Strkey.Encode_text; [reflexivity|unfold Strkey.maxPayloadSize; lia]).
  unfold FromRawSeed. rewrite Hs, bind_Ok_l, Ha, bind_Ok_l. eexists. split; [done|]. cbn [publicKey privateKey address seed].
  assert (Haddr : Strkey.text Strkey.VersionByteAccountID (public_of raw) = AccountId.address (AccountId.mk (public_of raw))).
  { unfold AccountId.address, AccountId.GetAddress. cbn [AccountId.Ed25519]. by rewrite Ha. }
  split_and!; try done.
  - unfold Parse, ParseAddress, Strkey.Decode. change (Strkey.checkValidVersionByte Strkey.VersionByteAccountID) with (@Ok unit tt).
    rewrite bind_Ok_l. unfold Strkey.text.
    rewrite Strkey.decodeString_raw; [|apply Strkey.raw_of_bytes; [by apply Strkey.valid_version_byte|done]|rewrite Strkey.raw_of_length; lia].
    rewrite bind_Ok_l, Strkey.raw_of_length, (proj2 (Nat.ltb_ge _ _)) by lia. rewrite Strkey.components_raw_of, bind_Ok_l.
    change (negb (Strkey.VersionByteSeed =? Strkey.VersionByteAccountID)) with true. cbn match. cbn [mbind res_bind].
    rewrite bool_decide_true by done. cbn [negb]. unfold ParseFull. fold (Strkey.text Strkey.VersionByteSeed raw).
    destruct (Strkey.Decode_text Strkey.VersionByteSeed raw eq_refl Hb) as [-> _]. rewrite bind_Ok_l, Hl. cbn [Nat.ltb Nat.leb].
    rewrite take_ge by lia. rewrite Ha, !bind_Ok_l. done.
  - unfold ParseAddress. destruct (Strkey.Decode_text Strkey.VersionByteAccountID (public_of raw) eq_refl Hpb) as [-> _]. done.
Qed.

End Laws.

(** A scheme that satisfies the laws: the signature is the key and the message. *)
#[global] Instance toy_ed25519 : Ed25519 := {
  public_of seed := seed;
  ed25519_Sign seed msg := resize 64 0 (seed ++ msg);
  ed25519_Verify pub msg sig := bool_decide (sig = resize 64 0 (pub ++ msg))
}.

#[global] Instance toy_ed25519_laws : Ed25519Laws.
Proof.
  split; unfold public_of, ed25519_Sign, ed25519_Verify, toy_ed25519.
  - done.
  - intros. apply length_resize.
  - intros. by rewrite bool_decide_true.
Qed.

End Keypair.
