(* ===== verification/Transactions.v ===== *)
(** * Transactions (txnbuild, network, xdr/transaction_envelope.go)

    Building, signing, hashing and parsing transactions and fee bump
    transactions, with their preconditions and memos.  Operations other than
    ManageData are given by the class [Operations], as the interface [Operation]
    of the code; the generated XDR encoding of a signature payload, SHA-256 and
    Ed25519 are parameters. *)
From S2P Require Import Prelude Price Strkey Xdr XdrCodec Muxed Keypair.
Import XdrCodec Muxed Keypair.
Local Open Scope Z_scope.

Module Transactions.

(** ** Operations *)

Class Operations := {
  (** the operations that are not ManageData, and the bodies of their XDR form *)
  Other : Type;
  OtherBody : Type;
  (** the extension of a transaction and its version *)
  Ext : Type;
  Ext0 : Ext;
  Ext_V : Ext -> Z;
  Other_Validate : Other -> res unit;
  (** [BuildXDR], with the receiver as the call leaves it *)
  Other_BuildXDR : Other -> res (Other * (option MuxedAccount * OtherBody));
  Other_FromXDR : option MuxedAccount -> OtherBody -> res Other;
  (** [BuildTransactionExt] of the smart contract operations *)
  Other_BuildTransactionExt : Other -> option (res Ext);
  (** assignment to the field Ext of an InvokeHostFunction; the others have none *)
  Other_SetExt : Ext -> Other -> Other;
  (** the operation as its exported fields show it *)
  Other_public : Other -> Other
}.

Record ManageData := mkManageData { Name : string; Value : option (list Z); md_SourceAccount : string }.

Section Model.
Context {XC : XdrCodec} {OPS : Operations}.

Inductive Operation := OManageData (md : ManageData) | OOther (o : Other).

(** ** XDR types *)

Inductive OperationBody := BManageData (DataName : string) (DataValue : option (list Z)) | BOther (b : OtherBody).
Record xOperation := mkXOperation { xop_SourceAccount : option MuxedAccount; Body : OperationBody }.

Inductive xMemo :=
| xMemoNone | xMemoText (s : list Z) | xMemoId (id : Z) | xMemoHash (h : list Z) | xMemoReturn (h : list Z).

Record xTimeBounds := mkXTimeBounds { xMinTime : Z; xMaxTime : Z }.
Record xLedgerBounds := mkXLedgerBounds { xMinLedger : Z; xMaxLedger : Z }.
Record PreconditionsV2 := mkPreconditionsV2 {
  v2_TimeBounds : option xTimeBounds;
  v2_LedgerBounds : option xLedgerBounds;
  v2_MinSeqNum : option Z;
  v2_MinSeqAge : Z;
  v2_MinSeqLedgerGap : Z;
  v2_ExtraSigners : list SignerKey
}.
Inductive xPreconditions := PrecondNone | PrecondTime (tb : xTimeBounds) | PrecondV2 (v2 : PreconditionsV2).

Record xTransaction := mkXTransaction {
  x_SourceAccount : MuxedAccount; x_Fee : Z; x_SeqNum : Z; x_Cond : xPreconditions; x_Memo : xMemo;
  x_Operations : list xOperation; x_Ext : Ext
}.
Record xTransactionV0 := mkXTransactionV0 {
  v0_SourceAccountEd25519 : list Z; v0_Fee : Z; v0_SeqNum : Z; v0_TimeBounds : option xTimeBounds; v0_Memo : xMemo;
  v0_Operations : list xOperation
}.
Record V1Envelope := mkV1Envelope { V1_Tx : xTransaction; V1_Signatures : list DecoratedSignature }.

(** The inner transaction of a fee bump is a pointer, which may be nil. *)
Inductive TransactionEnvelope :=
| EnvTx (v1 : V1Envelope)
| EnvTxV0 (tx : xTransactionV0) (signatures : list DecoratedSignature)
| EnvFeeBump (FeeSource : MuxedAccount) (Fee : Z) (InnerTx : option V1Envelope) (signatures : list DecoratedSignature).

Definition NewPreconditionsWithTimeBounds (timebounds : option xTimeBounds) : xPreconditions :=
  match timebounds with Some tb => PrecondTime tb | None => PrecondNone end.

Definition nil_pointer : string := "nil pointer dereference".

(** The accessors of an envelope; those of a fee bump read its inner transaction. *)
Definition env_access {A} (e : TransactionEnvelope) (v1 : V1Envelope -> A)
    (v0 : xTransactionV0 -> list DecoratedSignature -> A) : res A :=
  match e with
  | EnvTx v => Ok (v1 v)
  | EnvTxV0 tx sigs => Ok (v0 tx sigs)
  | EnvFeeBump _ _ inner _ => v ← from_opt nil_pointer inner; Ok (v1 v)
  end.

Definition env_SourceAccount (e : TransactionEnvelope) : res MuxedAccount :=
  env_access e (fun v => x_SourceAccount (V1_Tx v)) (fun tx _ => MEd25519 (v0_SourceAccountEd25519 tx)).
Definition env_Fee (e : TransactionEnvelope) : res Z :=
  env_access e (fun v => x_Fee (V1_Tx v)) (fun tx _ => v0_Fee tx).
Definition env_Signatures (e : TransactionEnvelope) : res (list DecoratedSignature) :=
  env_access e V1_Signatures (fun _ sigs => sigs).
Definition env_SeqNum (e : TransactionEnvelope) : res Z :=
  env_access e (fun v => x_SeqNum (V1_Tx v)) (fun tx _ => v0_SeqNum tx).
Definition env_Preconditions (e : TransactionEnvelope) : res xPreconditions :=
  env_access e (fun v => x_Cond (V1_Tx v)) (fun tx _ => NewPreconditionsWithTimeBounds (v0_TimeBounds tx)).
Definition env_Operations (e : TransactionEnvelope) : res (list xOperation) :=
  env_access e (fun v => x_Operations (V1_Tx v)) (fun tx _ => v0_Operations tx).
Definition env_Memo (e : TransactionEnvelope) : res xMemo :=
  env_access e (fun v => x_Memo (V1_Tx v)) (fun tx _ => v0_Memo tx).

(** ** Time and ledger bounds, preconditions *)

Definition TimeoutInfinite : Z := 0.

Record TimeBounds := mkTimeBounds { MinTime : Z; MaxTime : Z; wasBuilt : bool }.

Definition NewTimebounds (minTime maxTime : Z) : TimeBounds := mkTimeBounds minTime maxTime true.
Definition NewTimeout (now timeout : Z) : TimeBounds := mkTimeBounds 0 (to_int64 (now + timeout)) true.
Definition NewInfiniteTimeout : TimeBounds := mkTimeBounds 0 TimeoutInfinite true.

Definition TimeBounds_Validate (tb : TimeBounds) : res unit :=
  if negb (wasBuilt tb) then Err "timebounds must be constructed using NewTimebounds(), NewTimeout(), or NewInfiniteTimeout()"
  else if MinTime tb <? 0 then Err "invalid timebound: minTime cannot be negative"
  else if MaxTime tb <? 0 then Err "invalid timebound: maxTime cannot be negative"
  else if negb (MaxTime tb =? TimeoutInfinite) then
    if MaxTime tb <? MinTime tb then Err "invalid timebound: maxTime < minTime" else Ok tt
  else Ok tt.

Record LedgerBounds := mkLedgerBounds { MinLedger : Z; MaxLedger : Z }.

Definition LedgerBounds_Validate (lb : option LedgerBounds) : res unit :=
  match lb with
  | None => Ok tt
  | Some lb =>
      if (MaxLedger lb >? 0) && (MaxLedger lb <? MinLedger lb) then Err "invalid ledgerbound: max ledger < min ledger"
      else Ok tt
  end.

Record Preconditions := mkPreconditions {
  cond_TimeBounds : TimeBounds;
  cond_LedgerBounds : option LedgerBounds;
  MinSequenceNumber : option Z;
  MinSequenceNumberAge : Z;
  MinSequenceNumberLedgerGap : Z;
  ExtraSigners : list string
}.

Definition zero_Preconditions : Preconditions := mkPreconditions (mkTimeBounds 0 0 false) None None 0 0 [].
Definition time_Preconditions (tb : TimeBounds) : Preconditions := mkPreconditions tb None None 0 0 [].

Definition Preconditions_Validate (cond : Preconditions) : res unit :=
  _ ← TimeBounds_Validate (cond_TimeBounds cond);
  _ ← LedgerBounds_Validate (cond_LedgerBounds cond);
  if Nat.ltb 2 (length (ExtraSigners cond)) then Err "only 2 extra signers allowed" else Ok tt.

Definition hasV2Conditions (cond : Preconditions) : bool :=
  bool_decide (is_Some (cond_LedgerBounds cond)) || bool_decide (is_Some (MinSequenceNumber cond)) ||
  (MinSequenceNumberAge cond >? 0) || (MinSequenceNumberLedgerGap cond >? 0) || Nat.ltb 0 (length (ExtraSigners cond)).

Fixpoint parse_signers (l : list string) : res (list SignerKey) :=
  match l with
  | [] => Ok []
  | s :: l =>
      k ← (match SignerKey_SetAddress s with Err _ => Err "invalid signer" | r => r end);
      ks ← parse_signers l;
      Ok (k :: ks)
  end.

Definition Preconditions_BuildXDR (cond : Preconditions) : res xPreconditions :=
  let xdrTimeBounds := mkXTimeBounds (to_uint64 (MinTime (cond_TimeBounds cond))) (to_uint64 (MaxTime (cond_TimeBounds cond))) in
  if hasV2Conditions cond then
    signers ← parse_signers (ExtraSigners cond);
    let bounds := match cond_LedgerBounds cond with
                  | Some lb => if (MinLedger lb =? 0) && (MaxLedger lb =? 0) then None
                               else Some (mkXLedgerBounds (MinLedger lb) (MaxLedger lb))
                  | None => None
                  end in
    Ok (PrecondV2 (mkPreconditionsV2 (Some xdrTimeBounds) bounds (MinSequenceNumber cond) (MinSequenceNumberAge cond)
          (MinSequenceNumberLedgerGap cond) signers))
  else Ok (PrecondTime xdrTimeBounds).

(** The slice of extra signers is filled up to the first that has no address. *)
Fixpoint print_signers (l : list SignerKey) : list string * option error :=
  match l with
  | [] => ([], None)
  | k :: l =>
      match SignerKey_GetAddress k with
      | Ok s => let '(ss, e) := print_signers l in (s :: ss, e)
      | Err e | Panic e => (replicate (S (length l)) EmptyString, Some e)
      end
  end.

Definition bounds_from_xdr (tb : xTimeBounds) : TimeBounds :=
  NewTimebounds (to_int64 (xMinTime tb)) (to_int64 (xMaxTime tb)).

Definition Preconditions_FromXDR (precondXdr : xPreconditions) : Preconditions * option error :=
  match precondXdr with
  | PrecondNone => (zero_Preconditions, None)
  | PrecondTime tb => (time_Preconditions (bounds_from_xdr tb), None)
  | PrecondV2 inner =>
      let '(signers, err) := print_signers (v2_ExtraSigners inner) in
      (mkPreconditions
         (match v2_TimeBounds inner with Some tb => bounds_from_xdr tb | None => mkTimeBounds 0 0 false end)
         (match v2_LedgerBounds inner with Some lb => Some (mkLedgerBounds (xMinLedger lb) (xMaxLedger lb)) | None => None end)
         (v2_MinSeqNum inner) (v2_MinSeqAge inner) (v2_MinSeqLedgerGap inner) signers, err)
  end.

(** ** Memos *)

Inductive Memo := MemoText (s : list Z) | MemoID (id : Z) | MemoHash (h : list Z) | MemoReturn (h : list Z).

Definition MemoTextMaxLength : nat := 28.

Definition Memo_ToXDR (m : Memo) : res xMemo :=
  match m with
  | MemoText s => if Nat.ltb MemoTextMaxLength (length s) then Err "Memo text can't be longer than 28 bytes" else Ok (xMemoText s)
  | MemoID id => Ok (xMemoId id)
  | MemoHash h => Ok (xMemoHash h)
  | MemoReturn h => Ok (xMemoReturn h)
  end.

Definition memoFromXDR (memo : xMemo) : res (option Memo) :=
  match memo with
  | xMemoText s => Ok (Some (MemoText s))
  | xMemoId id => Ok (Some (MemoID id))
  | xMemoHash h => Ok (Some (MemoHash h))
  | xMemoReturn h => Ok (Some (MemoReturn h))
  | xMemoNone => Ok None
  end.

(** ** Operations *)

(** A source account that does not parse leaves the zero value. *)
Definition SetOpSourceAccount (sourceAccount : string) : option MuxedAccount :=
  if bool_decide (sourceAccount = EmptyString) then None
  else match SetAddress sourceAccount with Ok m => Some m | _ => Some MNil end.

Definition accountFromXDR (account : option MuxedAccount) : res string :=
  match account with Some m => Address m | None => Ok EmptyString end.

Definition ManageData_BuildXDR (md : ManageData) : res xOperation :=
  Ok (mkXOperation (SetOpSourceAccount (md_SourceAccount md)) (BManageData (Name md) (Value md))).

Definition ManageData_FromXDR (src : option MuxedAccount) (name : string) (value : option (list Z)) : res ManageData :=
  a ← accountFromXDR src; Ok (mkManageData name value a).

Definition ManageData_Validate (md : ManageData) : res unit :=
  if Nat.ltb 64 (length (bytes_of (Name md))) then Err "Field: Name, Error: maximum length is 64 characters"
  else if Nat.ltb 64 (length (default [] (Value md))) then Err "Field: Value, Error: maximum length is 64 bytes"
  else Ok tt.

Definition op_Validate (o : Operation) : res unit :=
  match o with OManageData md => ManageData_Validate md | OOther o => Other_Validate o end.

Definition op_public (o : Operation) : Operation :=
  match o with OManageData _ => o | OOther o => OOther (Other_public o) end.

Definition op_BuildXDR (o : Operation) : res (Operation * xOperation) :=
  match o with
  | OManageData md => x ← ManageData_BuildXDR md; Ok (o, x)
  | OOther o => '(o, (src, b)) ← Other_BuildXDR o; Ok (OOther o, mkXOperation src (BOther b))
  end.

Definition operationFromXDR (xdrOp : xOperation) : res Operation :=
  match Body xdrOp with
  | BManageData name value => md ← ManageData_FromXDR (xop_SourceAccount xdrOp) name value; Ok (OManageData md)
  | BOther b => o ← Other_FromXDR (xop_SourceAccount xdrOp) b; Ok (OOther o)
  end.

(** ** Transactions *)

Definition MinBaseFee : Z := 100.

Record SimpleAccount := mkSimpleAccount { AccountID : string; Sequence : Z }.

Definition IncrementSequenceNumber (sa : SimpleAccount) : SimpleAccount :=
  mkSimpleAccount (AccountID sa) (to_int64 (Sequence sa + 1)).

Record Transaction := mkTransaction {
  envelope : TransactionEnvelope;
  baseFee : Z;
  maxFee : Z;
  sourceAccount : SimpleAccount;
  operations : list Operation;
  memo : option Memo;
  preconditions : Preconditions
}.

Record FeeBumpTransaction := mkFeeBump {
  fb_envelope : TransactionEnvelope;
  fb_baseFee : Z;
  fb_maxFee : Z;
  feeAccount : string;
  inner : Transaction
}.

Inductive GenericTransaction := GSimple (tx : Transaction) | GFeeBump (fb : FeeBumpTransaction).

Definition Timebounds (t : Transaction) : TimeBounds := cond_TimeBounds (preconditions t).
Definition Signatures (t : Transaction) : res (list DecoratedSignature) := env_Signatures (envelope t).

Record TransactionParams := mkTransactionParams {
  p_SourceAccount : option SimpleAccount;
  IncrementSequenceNum : bool;
  p_Operations : list Operation;
  p_BaseFee : Z;
  p_Memo : option Memo;
  p_Preconditions : Preconditions
}.

(** The operations as building leaves them, their XDR, in order, and the
    extension of the last smart contract operation. *)
Fixpoint build_operations (ops : list Operation) (soroban : option (res Ext)) :
    res (list Operation * list xOperation * option (res Ext)) :=
  match ops with
  | [] => Ok ([], [], soroban)
  | o :: ops =>
      _ ← (match op_Validate o with Err _ => Err "validation failed for operation" | r => r end);
      '(o, x) ← (match op_BuildXDR o with Err _ => Err "failed to build operation" | r => r end);
      let soroban := match o with
                     | OOther o => match Other_BuildTransactionExt o with Some e => Some e | None => soroban end
                     | OManageData _ => soroban
                     end in
      '(os, xs, soroban) ← build_operations ops soroban;
      Ok (o :: os, x :: xs, soroban)
  end.

(** The transaction built for an account with its sequence number. *)
Definition build_transaction (params : TransactionParams) (sa : SimpleAccount) : res Transaction :=
  source ← (match SetAddress (AccountID sa) with Err _ => Err "account id is not valid" | r => r end);
  if p_BaseFee params <? 0 then Err "base fee cannot be negative" else
  if Nat.eqb (length (p_Operations params)) 0 then Err "transaction has no operations" else
  let '(hi, lo) := Bits.Mul64 (to_uint64 (p_BaseFee params)) (to_uint64 (Z.of_nat (length (p_Operations params)))) in
  if (hi >? 0) || (lo >? MaxUint32) then Err "base fee results in an overflow of max fee" else
  let maxFee := to_int64 lo in
  _ ← (match Preconditions_Validate (p_Preconditions params) with Err _ => Err "invalid preconditions" | r => r end);
  precondXdr ← (match Preconditions_BuildXDR (p_Preconditions params) with Err _ => Err "invalid preconditions" | r => r end);
  xdrMemo ← (match p_Memo params with
             | Some m => match Memo_ToXDR m with Err _ => Err "couldn't build memo XDR" | r => r end
             | None => Ok xMemoNone
             end);
  '(ops, xops, soroban) ← build_operations (p_Operations params) None;
  ext ← (match soroban with
         | Some e => match e with Err _ => Err "failed to build operation" | r => r end
         | None => Ok Ext0
         end);
  Ok (mkTransaction
        (EnvTx (mkV1Envelope (mkXTransaction source (to_uint32 maxFee) (Sequence sa) precondXdr xdrMemo xops ext) []))
        (p_BaseFee params) maxFee sa ops (p_Memo params) (p_Preconditions params)).

(** The account is updated before the transaction is checked. *)
Definition NewTransaction (params : TransactionParams) : option SimpleAccount * res Transaction :=
  match p_SourceAccount params with
  | None => (None, Err "transaction has no source account")
  | Some sa =>
      let sa := if IncrementSequenceNum params then IncrementSequenceNumber sa else sa in
      (Some sa, build_transaction params sa)
  end.

(** ** Fee bumps *)

Record FeeBumpTransactionParams := mkFeeBumpParams { Inner : option Transaction; FeeAccount : string; fbp_BaseFee : Z }.

Definition set_signatures (e : TransactionEnvelope) (sigs : list DecoratedSignature) : res TransactionEnvelope :=
  match e with
  | EnvTx v1 => Ok (EnvTx (mkV1Envelope (V1_Tx v1) sigs))
  | EnvTxV0 tx _ => Ok (EnvTxV0 tx sigs)
  | EnvFeeBump _ _ _ _ => Panic "invalid transaction type"
  end.

Definition with_envelope (t : Transaction) (e : TransactionEnvelope) : Transaction :=
  mkTransaction e (baseFee t) (maxFee t) (sourceAccount t) (operations t) (memo t) (preconditions t).

Definition convertToV1 (tx : Transaction) : res Transaction :=
  signatures ← Signatures tx;
  new ← (NewTransaction (mkTransactionParams (Some (sourceAccount tx)) false (operations tx) (baseFee tx) (memo tx)
           (time_Preconditions (Timebounds tx)))).2;
  e ← set_signatures (envelope new) signatures;
  Ok (with_envelope new e).

(** [innerEnv] is the envelope of the given transaction, before an upgrade.  The
    source returns a pair; the unfinished struct that it returns beside the errors
    about the fees and the fee account is left out, as an error is all that a caller may use. *)
Definition NewFeeBumpTransaction (params : FeeBumpTransactionParams) : res FeeBumpTransaction :=
  match Inner params with
  | None => Err "inner transaction is missing"
  | Some given =>
      let innerEnv := envelope given in
      inner ← (match innerEnv with
               | EnvTxV0 _ _ => match convertToV1 given with
                                | Err _ => Err "could not upgrade transaction from v0 to v1" | r => r end
               | EnvTx _ => Ok given
               | EnvFeeBump _ _ _ _ => Err "transactions cannot be fee bumped"
               end);
      let '(hi, lo) := Bits.Mul64 (to_uint64 (fbp_BaseFee params)) (to_uint64 (Z.of_nat (length (operations inner)) + 1)) in
      if (hi >? 0) || (lo >? MaxInt64) then Err "base fee results in an overflow of max fee" else
      let maxFee := to_int64 lo in
      if fbp_BaseFee params <? baseFee inner then Err "base fee cannot be lower than provided inner transaction fee" else
      if fbp_BaseFee params <? MinBaseFee then Err "base fee cannot be lower than network minimum" else
      feeSource ← (match SetAddress (FeeAccount params) with Err _ => Err "fee account is not a valid address" | r => r end);
      let v1 := match innerEnv with EnvTx v1 => Some v1 | _ => None end in
      Ok (mkFeeBump (EnvFeeBump feeSource maxFee v1 []) (fbp_BaseFee params) maxFee (FeeAccount params) inner)
  end.

(** ** Parsing *)

Fixpoint parse_operations (ext : Ext) (ops : list xOperation) : res (list Operation) :=
  match ops with
  | [] => Ok []
  | x :: ops =>
      o ← operationFromXDR x;
      let o := match o with
               | OOther o => OOther (if negb (Ext_V ext =? 0) then Other_SetExt ext o else o)
               | OManageData _ => o
               end in
      os ← parse_operations ext ops;
      Ok (o :: os)
  end.

Definition simpleFromParsedXDR (xdrEnv : TransactionEnvelope) : res Transaction :=
  source ← env_SourceAccount xdrEnv;
  accountID ← Address source;
  totalFee ← env_Fee xdrEnv;
  xops ← env_Operations xdrEnv;
  let count := Z.of_nat (length xops) in
  let baseFee := if count >? 0 then Z.quot totalFee count else totalFee in
  seq ← env_SeqNum xdrEnv;
  cond ← env_Preconditions xdrEnv;
  xm ← env_Memo xdrEnv;
  memo ← (match memoFromXDR xm with Err _ => Err "unable to parse memo" | r => r end);
  ops ← parse_operations (match xdrEnv with EnvTx v1 => x_Ext (V1_Tx v1) | _ => Ext0 end) xops;
  Ok (mkTransaction xdrEnv baseFee totalFee (mkSimpleAccount accountID seq) ops memo (Preconditions_FromXDR cond).1).

Definition transactionFromParsedXDR (xdrEnv : TransactionEnvelope) : res GenericTransaction :=
  match xdrEnv with
  | EnvFeeBump feeSource fee innerV1 _ =>
      v1 ← from_opt nil_pointer innerV1;
      innerTx ← (match simpleFromParsedXDR (EnvTx v1) with Err _ => Err "could not parse inner transaction" | r => r end);
      feeAccount ← Address feeSource;
      Ok (GFeeBump (mkFeeBump xdrEnv (Z.quot fee (Z.of_nat (length (operations innerTx)) + 1)) fee feeAccount innerTx))
  | _ => tx ← simpleFromParsedXDR xdrEnv; Ok (GSimple tx)
  end.

End Model.

(** ** Hashing and signing *)

(** SHA-256, and the generated XDR encoding of a signature payload. *)
Class TxHashing {OPS : Operations} := {
  sha256 : list Z -> list Z;
  marshal_tx_payload : list Z -> xTransaction -> res (list Z);
  marshal_fee_bump_payload : list Z -> MuxedAccount -> Z -> V1Envelope -> res (list Z)
}.

(** The UTF-8 encodings of the white space characters that strings.TrimSpace removes. *)
Definition white_space : list (list Z) :=
  [[32]; [9]; [10]; [11]; [12]; [13]; [194; 133]; [194; 160]; [225; 154; 128]; [226; 128; 128]; [226; 128; 129];
   [226; 128; 130]; [226; 128; 131]; [226; 128; 132]; [226; 128; 133]; [226; 128; 134]; [226; 128; 135];
   [226; 128; 136]; [226; 128; 137]; [226; 128; 138]; [226; 128; 168]; [226; 128; 169]; [226; 128; 175];
   [226; 129; 159]; [227; 128; 128]].

Definition trim_left1 (l : list Z) : option (list Z) :=
  match List.find (fun w => bool_decide (take (length w) l = w)) white_space with
  | Some w => Some (drop (length w) l)
  | None => None
  end.

Fixpoint all_space (fuel : nat) (l : list Z) : bool :=
  match l with
  | [] => true
  | _ => match fuel with
         | O => false
         | S fuel => match trim_left1 l with Some l => all_space fuel l | None => false end
         end
  end.

(** [strings.TrimSpace(s) == ""] *)
Definition blank (s : string) : bool := all_space (length (bytes_of s)) (bytes_of s).

Section Hashing.
Context {XC : XdrCodec} {OPS : Operations} {TH : TxHashing} {ED : Ed25519}.

Definition network_ID (passphrase : string) : list Z := sha256 (bytes_of passphrase).

Definition hashTx (payload : list Z -> res (list Z)) (passphrase : string) : res (list Z) :=
  if blank passphrase then Err "empty network passphrase" else
  txBytes ← (match payload (network_ID passphrase) with Err _ => Err "marshal tx failed" | r => r end);
  Ok (sha256 txBytes).

Definition HashTransaction (tx : xTransaction) : string -> res (list Z) := hashTx (fun id => marshal_tx_payload id tx).

Definition HashFeeBumpTransaction (feeSource : MuxedAccount) (fee : Z) (inner : option V1Envelope) : string -> res (list Z) :=
  hashTx (fun id => v1 ← from_opt nil_pointer inner; marshal_fee_bump_payload id feeSource fee v1).

Definition HashTransactionV0 (tx : xTransactionV0) : string -> res (list Z) :=
  HashTransaction (mkXTransaction (MEd25519 (v0_SourceAccountEd25519 tx)) (v0_Fee tx) (v0_SeqNum tx)
    (NewPreconditionsWithTimeBounds (v0_TimeBounds tx)) (v0_Memo tx) (v0_Operations tx) Ext0).

Definition HashTransactionInEnvelope (e : TransactionEnvelope) (passphrase : string) : res (list Z) :=
  match e with
  | EnvTx v1 => HashTransaction (V1_Tx v1) passphrase
  | EnvTxV0 tx _ => HashTransactionV0 tx passphrase
  | EnvFeeBump feeSource fee inner _ => HashFeeBumpTransaction feeSource fee inner passphrase
  end.

Definition Hash (t : Transaction) (networkStr : string) : res (list Z) := HashTransactionInEnvelope (envelope t) networkStr.

Fixpoint sign_all (h : list Z) (kps : list Full) : res (list DecoratedSignature) :=
  match kps with
  | [] => Ok []
  | kp :: kps =>
      sig ← (match Full_SignDecorated kp h with Err _ => Err "failed to sign transaction" | r => r end);
      sigs ← sign_all h kps;
      Ok (sig :: sigs)
  end.

Definition concatSignatures (e : TransactionEnvelope) (networkStr : string) (signatures : list DecoratedSignature)
    (kps : list Full) : res (list DecoratedSignature) :=
  h ← (match HashTransactionInEnvelope e networkStr with Err _ => Err "failed to hash transaction" | r => r end);
  new ← sign_all h kps;
  Ok (signatures ++ new).

Definition concatSignatureBase64 (e : TransactionEnvelope) (signatures : list DecoratedSignature)
    (networkStr publicKey : string) (signature : list Z) : res (list DecoratedSignature) :=
  if Nat.eqb (length signature) 0 then Err "signature not presented" else
  kp ← (match ParseAddress publicKey with Err _ => Err "failed to parse the public key" | r => r end);
  sigBytes ← (match Base64.DecodeString signature with Err _ => Err "failed to base64-decode the signature" | r => r end);
  h ← (match HashTransactionInEnvelope e networkStr with Err _ => Err "failed to hash transaction" | r => r end);
  _ ← (match FromAddress_Verify kp h sigBytes with Err _ => Err "failed to verify the signature" | r => r end);
  hint ← FromAddress_Hint kp;
  Ok (signatures ++ [mkDecorated hint sigBytes]).

(** [xdr.Signature] holds at most 64 bytes. *)
Definition concatHashX (signatures : list DecoratedSignature) (preimage : list Z) : res (list DecoratedSignature) :=
  if Nat.ltb 64 (length preimage) then Err "preimage cannot be more than 64 bytes"
  else Ok (signatures ++ [mkDecorated (resize 4 0 (drop 28 (sha256 preimage))) preimage]).

Definition clone (t : Transaction) (signatures : list DecoratedSignature) : res Transaction :=
  e ← set_signatures (envelope t) signatures; Ok (with_envelope t e).

Definition Sign (t : Transaction) (network : string) (kps : list Full) : res Transaction :=
  sigs ← Signatures t;
  extended ← concatSignatures (envelope t) network sigs kps;
  clone t extended.

Definition SignHashX (t : Transaction) (preimage : list Z) : res Transaction :=
  sigs ← Signatures t; extended ← concatHashX sigs preimage; clone t extended.

Definition ClearSignatures (t : Transaction) : res Transaction := clone t [].

Definition AddSignatureDecorated (t : Transaction) (new : list DecoratedSignature) : res Transaction :=
  sigs ← Signatures t; clone t (sigs ++ new).

Definition AddSignatureBase64 (t : Transaction) (network publicKey : string) (signature : list Z) : res Transaction :=
  sigs ← Signatures t;
  extended ← concatSignatureBase64 (envelope t) sigs network publicKey signature;
  clone t extended.

(** Fee bumps are signed in the same way, over their own hash. *)
Definition fb_Signatures (t : FeeBumpTransaction) : res (list DecoratedSignature) :=
  match fb_envelope t with
  | EnvFeeBump _ _ _ sigs => Ok sigs
  | _ => Panic "arm FeeBump is not set"
  end.

Definition fb_clone (t : FeeBumpTransaction) (signatures : list DecoratedSignature) : res FeeBumpTransaction :=
  match fb_envelope t with
  | EnvFeeBump feeSource fee v1 _ =>
      Ok (mkFeeBump (EnvFeeBump feeSource fee v1 signatures) (fb_baseFee t) (fb_maxFee t) (feeAccount t) (inner t))
  | _ => Panic nil_pointer
  end.

Definition fb_Sign (t : FeeBumpTransaction) (network : string) (kps : list Full) : res FeeBumpTransaction :=
  sigs ← fb_Signatures t;
  extended ← concatSignatures (fb_envelope t) network sigs kps;
  fb_clone t extended.

End Hashing.

End Transactions.
