(* ===== verification/TxProofs.v ===== *)
(** * Properties of transactions (txnbuild)

    What a built transaction is and that parsing its envelope gives it back;
    the fees of transactions and fee bumps; the round trip of preconditions. *)
From S2P Require Import Prelude Price Strkey Xdr XdrCodec Muxed Keypair Transactions.
Import XdrCodec Muxed Keypair Transactions.
Local Open Scope Z_scope.

Module TxProofs.

Lemma to_int64_uint64 z : in_int 64 z -> to_int64 (to_uint64 z) = z.
Proof.
  intros Hz. rewrite <- (swrap_small 64 z) at 2 by (done || lia). unfold swrap, uwrap.
  f_equal. by rewrite Zplus_mod_idemp_l.
Qed.

Section Proofs.
Context {XC : XdrCodec} {CL : CodecLaws} {OPS : Operations}.

(** ** Preconditions *)

(** A signer text that is the address of its key. *)
Definition canonical_signer (s : string) : Prop := exists k, SignerKey_wf k /\ s = signer_text k.

Lemma signers_roundtrip l : Forall canonical_signer l ->
  exists ks, parse_signers l = Ok ks /\ print_signers ks = (l, None).
Proof.
  induction 1 as [|s l (k & Hk & ->) _ (ks & Hp & Hq)]; [by exists []|]. exists (k :: ks).
  cbn [parse_signers print_signers]. rewrite signer_SetAddress, bind_Ok_l, Hp, bind_Ok_l by done.
  by rewrite signer_GetAddress, Hq.
Qed.

(** The ranges of the Go types of the fields. *)
Definition cond_typed (c : Preconditions) : Prop :=
  in_int 64 (MinTime (cond_TimeBounds c)) /\ in_int 64 (MaxTime (cond_TimeBounds c)) /\
  wasBuilt (cond_TimeBounds c) = true /\
  0 <= MinSequenceNumberAge c /\ 0 <= MinSequenceNumberLedgerGap c /\ Forall canonical_signer (ExtraSigners c).

(** Ledger bounds that always hold are not written. *)
Definition normal_bounds (lb : option LedgerBounds) : option LedgerBounds :=
  match lb with
  | Some lb => if (MinLedger lb =? 0) && (MaxLedger lb =? 0) then None else Some lb
  | None => None
  end.
Definition normal_cond (c : Preconditions) : Preconditions :=
  mkPreconditions (cond_TimeBounds c) (normal_bounds (cond_LedgerBounds c)) (MinSequenceNumber c)
    (MinSequenceNumberAge c) (MinSequenceNumberLedgerGap c) (ExtraSigners c).

Lemma bounds_roundtrip tb : in_int 64 (MinTime tb) -> in_int 64 (MaxTime tb) -> wasBuilt tb = true ->
  bounds_from_xdr (mkXTimeBounds (to_uint64 (MinTime tb)) (to_uint64 (MaxTime tb))) = tb.
Proof.
  intros H1 H2 H3. unfold bounds_from_xdr, NewTimebounds. cbn [xMinTime xMaxTime].
  rewrite !to_int64_uint64 by done. destruct tb. cbn in *. by subst.
Qed.

Lemma cond_roundtrip c : cond_typed c ->
  exists x, Preconditions_BuildXDR c = Ok x /\ Preconditions_FromXDR x = (normal_cond c, None).
Proof.
  intros (H1 & H2 & H3 & H4 & H5 & H6). unfold Preconditions_BuildXDR. destruct (hasV2Conditions c) eqn:E.
  - destruct (signers_roundtrip _ H6) as (ks & -> & Hks). rewrite bind_Ok_l. eexists. split; [done|].
    cbn [Preconditions_FromXDR v2_ExtraSigners v2_TimeBounds v2_LedgerBounds v2_MinSeqNum v2_MinSeqAge v2_MinSeqLedgerGap].
    rewrite Hks, bounds_roundtrip by done. do 2 f_equal. unfold normal_cond, normal_bounds. f_equal.
    destruct (cond_LedgerBounds c) as [[lo hi]|]; [|done]. cbn. by destruct ((lo =? 0) && (hi =? 0)).
  - eexists. split; [done|]. cbn [Preconditions_FromXDR]. rewrite bounds_roundtrip by done.
    unfold hasV2Conditions in E. rewrite !orb_false_iff in E. destruct E as ((((E1 & E2) & E3) & E4) & E5).
    apply bool_decide_eq_false in E1, E2. rewrite Z.gtb_ltb in E3, E4. apply Z.ltb_ge in E3, E4. apply Nat.ltb_ge in E5.
    destruct c as [tb lb seq age gap signers]. unfold time_Preconditions, normal_cond. cbn in *.
    destruct lb; [by destruct E1|]. destruct seq; [by destruct E2|]. destruct signers; [|simpl in E5; lia].
    do 2 f_equal; lia.
Qed.

(** ** Operations *)

Definition source_ok (s : string) : Prop := s = EmptyString \/ exists m, wf m /\ s = Muxed.address m.

Lemma address_nonempty m : wf m -> Muxed.address m <> EmptyString.
Proof. intros Hm Heq. pose proof (SetAddress_wf m Hm) as H. rewrite Heq in H. vm_compute in H. done. Qed.

Lemma source_roundtrip s : source_ok s -> accountFromXDR (SetOpSourceAccount s) = Ok s.
Proof.
  unfold SetOpSourceAccount. intros [->|(m & Hm & ->)]; [done|].
  rewrite bool_decide_false by by apply address_nonempty. rewrite SetAddress_wf by done. cbn. by apply Address_wf.
Qed.

(** An operation whose exported fields, as building leaves them, its XDR form
    determines under the extension of the transaction. *)
Definition op_stable (ext : Ext) (o : Operation) : Prop :=
  match o with
  | OManageData md => source_ok (md_SourceAccount md)
  | OOther o => forall o1 src b, Other_BuildXDR o = Ok (o1, (src, b)) -> exists o2, Other_FromXDR src b = Ok o2 /\
      (if negb (Ext_V ext =? 0) then Other_SetExt ext o2 else o2) = Other_public o1
  end.

(** What building does to an operation. *)
Definition built (o o1 : Operation) : Prop := exists x, op_BuildXDR o = Ok (o1, x).

Lemma op_roundtrip ext o o1 x l : op_stable ext o -> op_BuildXDR o = Ok (o1, x) ->
  parse_operations ext (x :: l) = (os ← parse_operations ext l; Ok (op_public o1 :: os)).
Proof.
  intros Hs Hb. destruct o as [md|o]; cbn [op_stable op_BuildXDR] in *.
  - unfold ManageData_BuildXDR in Hb. rewrite bind_Ok_l in Hb. injection Hb as <- <-.
    cbn [parse_operations operationFromXDR Body xop_SourceAccount]. unfold ManageData_FromXDR.
    rewrite source_roundtrip by done. rewrite !bind_Ok_l. by destruct md.
  - apply bind_Ok in Hb as ([o' [src b]] & Hb & [= <- <-]). destruct (Hs _ _ _ Hb) as (o2 & Ho & Heq).
    cbn [parse_operations operationFromXDR Body xop_SourceAccount]. rewrite Ho, !bind_Ok_l. by rewrite Heq.
Qed.

Lemma build_operations_parse ext ops : Forall (op_stable ext) ops -> forall acc os xs e,
  build_operations ops acc = Ok (os, xs, e) ->
  parse_operations ext xs = Ok (map op_public os) /\ length xs = length ops /\ Forall2 built ops os.
Proof.
  induction 1 as [|o ops Ho _ IH]; intros acc os xs e; cbn [build_operations].
  - intros [= <- <- _]. split_and!; [done|done|constructor].
  - intros H. apply bind_Ok in H as ([] & _ & H). apply bind_Ok in H as ([o1 x] & Hx & H).
    apply bind_Ok in H as ([[os' xs'] e'] & H & [= <- <- <-]).
    destruct (op_BuildXDR o) as [[o1' x']|?|?] eqn:Hb; try done. injection Hx as -> ->.
    destruct (IH _ _ _ _ H) as (H1 & H2 & H3). rewrite (op_roundtrip _ _ _ _ _ Ho Hb), H1.
    split_and!; [done|cbn; by rewrite H2|]. constructor; [by eexists|done].
Qed.

(** ** Fees *)

Lemma Mul64_fits x n m : 0 <= x < 2 ^ 64 -> 0 <= n < 2 ^ 64 -> 0 < m < 2 ^ 64 ->
  (let '(hi, lo) := Bits.Mul64 x n in (hi >? 0) || (lo >? m - 1)) = (x * n >=? m).
Proof.
  intros Hx Hn Hm. unfold Bits.Mul64. rewrite Z.geb_leb. destruct (Z.leb_spec m (x * n)) as [H|H].
  - apply orb_true_iff. rewrite !Z.gtb_ltb, !Z.ltb_lt. destruct (Z.lt_ge_cases (x * n) (2 ^ 64)) as [Hs|Hb].
    + right. rewrite Z.mod_small by lia. lia.
    + left. apply Z.div_str_pos. lia.
  - apply orb_false_iff. rewrite !Z.gtb_ltb, !Z.ltb_ge. rewrite Z.div_small, Z.mod_small by nia. lia.
Qed.

Lemma build_transaction_inv params sa tx : build_transaction params sa = Ok tx -> exists m cond mm ops xops soroban ext,
  SetAddress (AccountID sa) = Ok m /\ p_Operations params <> [] /\ 0 <= p_BaseFee params /\
  to_uint64 (p_BaseFee params) * to_uint64 (Z.of_nat (length (p_Operations params))) < 2 ^ 32 /\
  Preconditions_Validate (p_Preconditions params) = Ok tt /\
  Preconditions_BuildXDR (p_Preconditions params) = Ok cond /\
  match p_Memo params with Some m => Memo_ToXDR m = Ok mm | None => mm = xMemoNone end /\
  build_operations (p_Operations params) None = Ok (ops, xops, soroban) /\
  match soroban with Some e => e = Ok ext | None => ext = Ext0 end /\
  let fee := to_uint64 (p_BaseFee params) * to_uint64 (Z.of_nat (length (p_Operations params))) in
  tx = mkTransaction (EnvTx (mkV1Envelope (mkXTransaction m fee (Sequence sa) cond mm xops ext) []))
         (p_BaseFee params) fee sa ops (p_Memo params) (p_Preconditions params).
Proof.
  unfold build_transaction. intros H. apply bind_Ok in H as (m & Hm & H).
  destruct (Z.ltb_spec (p_BaseFee params) 0) as [|Hfee]; [done|].
  destruct (Nat.eqb_spec (length (p_Operations params)) 0) as [|Hn]; [done|].
  pose proof (uwrap_range 64 (p_BaseFee params) ltac:(lia)) as Hx.
  pose proof (uwrap_range 64 (Z.of_nat (length (p_Operations params))) ltac:(lia)) as Hy.
  set (x := to_uint64 (p_BaseFee params)) in *. set (y := to_uint64 (Z.of_nat (length (p_Operations params)))) in *.
  pose proof (Mul64_fits x y (2 ^ 32) Hx Hy ltac:(lia)) as Hf. unfold Bits.Mul64 in *. change (2 ^ 32 - 1) with MaxUint32 in Hf.
  cbv beta iota zeta in H, Hf. rewrite Hf in H. rewrite Z.geb_leb in H. destruct (Z.leb_spec (2 ^ 32) (x * y)) as [|Hlt]; [done|].
  apply bind_Ok in H as ([] & Hval & H). apply bind_Ok in H as (cond & Hcond & H). apply bind_Ok in H as (mm & Hmm & H).
  apply bind_Ok in H as ([[ops xops] soroban] & Hops & H). apply bind_Ok in H as (ext & Hext & [= <-]).
  exists m, cond, mm, ops, xops, soroban, ext. assert (Hxy : 0 <= x * y) by nia. rewrite Z.mod_small by lia.
  rewrite (swrap_small 64) by (unfold in_int; lia). rewrite (uwrap_small 32) by lia. split_and!; try done.
  - by destruct (SetAddress (AccountID sa)).
  - intros Heq. by rewrite Heq in Hn.
  - by destruct (Preconditions_Validate _) as [[]| |].
  - by destruct (Preconditions_BuildXDR _).
  - destruct (p_Memo params) as [m'|]; [by destruct (Memo_ToXDR m')|congruence].
  - destruct soroban as [[]|]; congruence.
Qed.

Lemma Memo_roundtrip m x : Memo_ToXDR m = Ok x -> memoFromXDR x = Ok (Some m).
Proof. destruct m as [s|id|h|h]; cbn [Memo_ToXDR]; try (by intros [= <-]). destruct (Nat.ltb _ (length s)); [done|]. by intros [= <-]. Qed.

(** The transaction as it reads back: with its preconditions as written and the
    exported fields of its operations. *)
Definition normal_tx (tx : Transaction) : Transaction :=
  mkTransaction (envelope tx) (baseFee tx) (maxFee tx) (sourceAccount tx) (map op_public (operations tx)) (memo tx)
    (normal_cond (preconditions tx)).

Definition tx_ext (tx : Transaction) : Ext := match envelope tx with EnvTx v1 => x_Ext (V1_Tx v1) | _ => Ext0 end.

Lemma build_transaction_parse params sa tx : build_transaction params sa = Ok tx ->
  in_int 64 (p_BaseFee params) -> Z.of_nat (length (p_Operations params)) < 2 ^ 64 ->
  Forall (op_stable (tx_ext tx)) (p_Operations params) -> cond_typed (p_Preconditions params) ->
  simpleFromParsedXDR (envelope tx) = Ok (normal_tx tx) /\
  maxFee tx = p_BaseFee params * Z.of_nat (length (p_Operations params)) /\ maxFee tx <= MaxUint32 /\
  baseFee tx = p_BaseFee params /\ Forall2 built (p_Operations params) (operations tx).
Proof.
  intros H Hb Hn Hops Hcond.
  destruct (build_transaction_inv _ _ _ H) as (m & cond & mm & ops & xops & sor & ext & H1 & H2 & H3 & H4 & _ & H6 & H7 & H8 & _ & ->).
  rewrite !uwrap_small in * by (unfold in_int in Hb; lia). cbn [tx_ext envelope V1_Tx x_Ext] in Hops.
  destruct (SetAddress_inv _ _ H1) as [Hm Hsa]. destruct (cond_roundtrip _ Hcond) as (x & Hx & Hfrom).
  rewrite Hx in H6. injection H6 as <-. destruct (build_operations_parse _ _ Hops _ _ _ _ H8) as (Hp & Hlen & Hbuilt).
  cbn [maxFee baseFee operations]. split; [|unfold MaxUint32; split_and!; (lia || done)].
  unfold simpleFromParsedXDR. cbn [envelope env_SourceAccount env_Fee env_Operations env_SeqNum env_Preconditions env_Memo
    env_access V1_Tx x_SourceAccount x_Fee x_SeqNum x_Cond x_Memo x_Operations x_Ext].
  unfold env_SourceAccount, env_Fee, env_Operations, env_SeqNum, env_Preconditions, env_Memo. cbn [env_access V1_Tx x_SourceAccount x_Fee x_SeqNum x_Cond x_Memo x_Operations x_Ext].
  rewrite bind_Ok_l, Address_wf, !bind_Ok_l, Hlen by done.
  assert (Hmemo : memoFromXDR mm = Ok (p_Memo params)).
  { destruct (p_Memo params) as [m'|]; [by apply Memo_roundtrip|]. by subst mm. }
  rewrite Hmemo, !bind_Ok_l, Hp, bind_Ok_l, Hfrom. cbn [fst].
  assert (0 < Z.of_nat (length (p_Operations params))) by (destruct (p_Operations params); [done|cbn; lia]).
  rewrite Z.gtb_ltb, (proj2 (Z.ltb_lt _ _)), Z.quot_mul by lia.
  unfold normal_tx. cbn [envelope baseFee maxFee sourceAccount operations memo preconditions]. do 2 f_equal.
  destruct sa. cbn in *. by rewrite Hsa.
Qed.

(** ** Fee bumps *)

Lemma fee_overflow b n : in_int 64 b -> 0 < n < 2 ^ 64 ->
  (let '(hi, lo) := Bits.Mul64 (to_uint64 b) n in (hi >? 0) || (lo >? MaxInt64)) = (b <? 0) || (b * n >? MaxInt64).
Proof.
  intros Hb Hn. pose proof (uwrap_range 64 b ltac:(lia)) as Hr.
  pose proof (Mul64_fits (to_uint64 b) n (2 ^ 63) Hr ltac:(lia) ltac:(lia)) as H. change (2 ^ 63 - 1) with MaxInt64 in H.
  rewrite H, Z.geb_leb. destruct (Z.ltb_spec b 0) as [Hneg|Hpos]; cbn [orb].
  - apply Z.leb_le. assert (Hu : to_uint64 b = b + 2 ^ 64).
    { unfold uwrap. rewrite <- (Z.mod_add b 1 (2 ^ 64)) by lia. rewrite Z.mul_1_l. apply Z.mod_small. unfold in_int in Hb. lia. }
    rewrite Hu. unfold in_int in Hb. nia.
  - rewrite uwrap_small by (unfold in_int in Hb; lia). unfold MaxInt64. rewrite Z.gtb_ltb.
    destruct (Z.leb_spec (2 ^ 63) (b * n)), (Z.ltb_spec (2 ^ 63 - 1) (b * n)); lia.
Qed.

Lemma fee_bump_eq params given v1 : Inner params = Some given -> envelope given = EnvTx v1 ->
  in_int 64 (fbp_BaseFee params) -> Z.of_nat (length (operations given)) < 2 ^ 63 ->
  let fee := fbp_BaseFee params * (Z.of_nat (length (operations given)) + 1) in
  NewFeeBumpTransaction params =
    if (fbp_BaseFee params <? 0) || (fee >? MaxInt64) then Err "base fee results in an overflow of max fee" else
    if fbp_BaseFee params <? baseFee given then Err "base fee cannot be lower than provided inner transaction fee" else
    if fbp_BaseFee params <? MinBaseFee then Err "base fee cannot be lower than network minimum" else
    match SetAddress (FeeAccount params) with
    | Ok feeSource =>
        Ok (mkFeeBump (EnvFeeBump feeSource fee (Some v1) []) (fbp_BaseFee params) fee (FeeAccount params) given)
    | Err _ => Err "fee account is not a valid address"
    | Panic m => Panic m
    end.
Proof.
  intros H1 H2 Hb Hn fee. unfold NewFeeBumpTransaction. rewrite H1, H2, bind_Ok_l.
  set (n := Z.of_nat (length (operations given)) + 1) in *. rewrite (uwrap_small 64 n) by lia.
  pose proof (fee_overflow (fbp_BaseFee params) n Hb ltac:(lia)) as Ho. fold fee in Ho. unfold Bits.Mul64 in *.
  cbv beta iota zeta in Ho |- *. rewrite Ho. destruct (Z.ltb_spec (fbp_BaseFee params) 0) as [|Hpos]; [done|]. cbn [orb].
  rewrite Z.gtb_ltb. destruct (Z.ltb_spec MaxInt64 fee) as [|Hfit]; [done|].
  destruct (fbp_BaseFee params <? baseFee given); [done|]. destruct (fbp_BaseFee params <? MinBaseFee); [done|].
  rewrite (uwrap_small 64) by (unfold in_int in Hb; lia). fold fee. unfold MaxInt64 in Hfit.
  assert (0 <= fee) by (unfold fee; nia). rewrite Z.mod_small by lia. rewrite swrap_small by (unfold in_int; lia).
  by destruct (SetAddress (FeeAccount params)).
Qed.

Lemma fee_bump_parse m fee v1 sigs b acct given : Muxed.wf m -> acct = Muxed.address m ->
  simpleFromParsedXDR (EnvTx v1) = Ok given -> fee = b * (Z.of_nat (length (operations given)) + 1) ->
  transactionFromParsedXDR (EnvFeeBump m fee (Some v1) sigs) = Ok (GFeeBump (mkFeeBump (EnvFeeBump m fee (Some v1) sigs) b fee acct given)).
Proof.
  intros Hm -> Hin ->. unfold transactionFromParsedXDR. cbn [from_opt]. rewrite bind_Ok_l, Hin, bind_Ok_l.
  rewrite Address_wf, bind_Ok_l by done. by rewrite Z.quot_mul by lia.
Qed.

(** A fee bump of a version 0 transaction has no inner transaction. *)
Lemma fee_bump_v0_inner params given tx0 sigs fb : Inner params = Some given -> envelope given = EnvTxV0 tx0 sigs ->
  NewFeeBumpTransaction params = Ok fb -> exists m fee, fb_envelope fb = EnvFeeBump m fee None [].
Proof.
  intros H1 H2. unfold NewFeeBumpTransaction. rewrite H1, H2. intros H. apply bind_Ok in H as (inner & _ & H).
  destruct (Bits.Mul64 _ _) as [hi lo]. repeat (case_scrutinee_in H; [done|]). apply bind_Ok in H as (m & _ & [= <-]).
  by exists m, (to_int64 lo).
Qed.

(** ** Properties *)

(** a built transaction is what its envelope says.  Whenever
    [NewTransaction] succeeds, the maximum fee is exactly the base fee times the
    number of operations and fits the 32-bit field, and parsing the envelope
    gives back the same transaction - source account, sequence number, fees,
    memo, operations, preconditions - where ledger bounds that always hold are
    dropped.  The account keeps the sequence number that was used. *)
Lemma NewTransaction_roundtrip (params : TransactionParams) (sa : SimpleAccount) (tx : Transaction)
    (Hbuild : NewTransaction params = (Some sa, Ok tx))
    (Hfee : in_int 64 (p_BaseFee params)) (Hcount : Z.of_nat (length (p_Operations params)) < 2 ^ 64)
    (Hops : Forall (op_stable (tx_ext tx)) (p_Operations params)) (Hcond : cond_typed (p_Preconditions params)) :
  transactionFromParsedXDR (envelope tx) = Ok (GSimple (normal_tx tx)) /\
  maxFee tx = p_BaseFee params * Z.of_nat (length (p_Operations params)) /\ 0 <= maxFee tx <= MaxUint32 /\
  baseFee tx = p_BaseFee params /\ sourceAccount tx = sa /\
  Forall2 built (p_Operations params) (operations tx) /\ memo tx = p_Memo params /\ Signatures tx = Ok [].
Proof.
  unfold NewTransaction in Hbuild. destruct (p_SourceAccount params) as [sa0|]; [|done].
  injection Hbuild as Hsa Hbuild. rewrite Hsa in Hbuild.
  destruct (build_transaction_parse _ _ _ Hbuild Hfee Hcount Hops Hcond) as (H1 & H2 & H3 & H4 & H5).
  destruct (build_transaction_inv _ _ _ Hbuild) as (? & ? & ? & ? & ? & ? & ? & _ & _ & Hpos & _ & _ & _ & _ & _ & _ & Htx).
  cbv zeta in Htx. assert (He : exists v1, envelope tx = EnvTx v1) by (rewrite Htx; by eexists). destruct He as [v1 He].
  rewrite H2 in H3 |- *. split_and!; try done; try (by rewrite Htx); [|nia].
  rewrite He in H1 |- *. cbn [transactionFromParsedXDR]. by rewrite H1.
Qed.

(** C34: fee bumps.  For an inner transaction with a current envelope every
    branch of [NewFeeBumpTransaction] is determined: the fee is the base fee
    times one more than the number of operations, a negative base fee or a fee
    beyond int64 is reported as an overflow, then base fees below that of the
    inner transaction or the network minimum, then a bad fee account; and the
    envelope of a fee bump whose inner envelope parses to the inner transaction
    parses back to the fee bump. *)
Theorem fee_bump_spec (params : FeeBumpTransactionParams) (given : Transaction) (v1 : V1Envelope)
    (Hinner : Inner params = Some given) (Henv : envelope given = EnvTx v1)
    (Hb : in_int 64 (fbp_BaseFee params)) (Hn : Z.of_nat (length (operations given)) < 2 ^ 63) :
  let fee := fbp_BaseFee params * (Z.of_nat (length (operations given)) + 1) in
  NewFeeBumpTransaction params =
    (if (fbp_BaseFee params <? 0) || (fee >? MaxInt64) then Err "base fee results in an overflow of max fee" else
     if fbp_BaseFee params <? baseFee given then Err "base fee cannot be lower than provided inner transaction fee" else
     if fbp_BaseFee params <? MinBaseFee then Err "base fee cannot be lower than network minimum" else
     match SetAddress (FeeAccount params) with
     | Ok feeSource =>
         Ok (mkFeeBump (EnvFeeBump feeSource fee (Some v1) []) (fbp_BaseFee params) fee (FeeAccount params) given)
     | Err _ => Err "fee account is not a valid address"
     | Panic m => Panic m
     end) /\
  (forall fb, NewFeeBumpTransaction params = Ok fb -> simpleFromParsedXDR (EnvTx v1) = Ok given ->
     transactionFromParsedXDR (fb_envelope fb) = Ok (GFeeBump fb)).
Proof.
  intros fee. pose proof (fee_bump_eq params given v1 Hinner Henv Hb Hn) as Heq. fold fee in Heq. cbv zeta in Heq.
  split; [exact Heq|]. intros fb Hfb Hparse. rewrite Heq in Hfb. repeat (case_scrutinee_in Hfb; [done|]).
  destruct (SetAddress (FeeAccount params)) as [m|?|?] eqn:Hm; [|done|done]. injection Hfb as <-.
  destruct (SetAddress_inv _ _ Hm) as [Hw Ha]. by apply fee_bump_parse.
Qed.

(** C35: a fee bump of a version 0 transaction is unusable: although
    [NewFeeBumpTransaction] upgrades the inner transaction and succeeds, the
    envelope is built from the envelope before the upgrade and has no inner
    transaction, so that hashing, signing and parsing it panic. *)
Theorem fee_bump_v0_panics {TH : TxHashing} {ED : Ed25519} (params : FeeBumpTransactionParams) (given : Transaction)
    (tx0 : xTransactionV0) (sigs : list DecoratedSignature) (fb : FeeBumpTransaction)
    (Hinner : Inner params = Some given) (Henv : envelope given = EnvTxV0 tx0 sigs)
    (Hfb : NewFeeBumpTransaction params = Ok fb) :
  (forall network kps, blank network = false -> fb_Sign fb network kps = Panic nil_pointer) /\
  transactionFromParsedXDR (fb_envelope fb) = Panic nil_pointer.
Proof.
  destruct (fee_bump_v0_inner _ _ _ _ _ Hinner Henv Hfb) as (m & fee & He). split.
  - intros network kps Hnet. unfold fb_Sign, fb_Signatures, concatSignatures. rewrite He, bind_Ok_l.
    cbn [HashTransactionInEnvelope]. unfold HashFeeBumpTransaction, hashTx. by rewrite Hnet.
  - by rewrite He.
Qed.

End Proofs.

(** ** Concrete transactions *)

#[export] Instance no_operations : Operations := {
  Other := unit; OtherBody := unit; Ext := Z; Ext0 := 0; Ext_V := id;
  Other_Validate _ := Ok tt;
  Other_BuildXDR o := Ok (o, (None, tt));
  Other_FromXDR _ _ := Ok tt;
  Other_BuildTransactionExt _ := None;
  Other_SetExt _ o := o;
  Other_public o := o
}.

#[export] Instance toy_hashing : TxHashing := {
  sha256 l := resize 32 0 l;
  marshal_tx_payload id tx := Ok (id ++ bytes_of "tx");
  marshal_fee_bump_payload id _ _ _ := Ok (id ++ bytes_of "fee bump")
}.

Definition addr7 : string := Muxed.address (MEd25519 key7).

Definition sample_params : TransactionParams :=
  mkTransactionParams (Some (mkSimpleAccount addr7 5)) true
    [OManageData (mkManageData "name" (Some [1; 2]) EmptyString); OOther tt] 150 (Some (MemoID 9))
    (time_Preconditions (NewTimebounds 0 1000)).

Definition sample_tx : Transaction :=
  match (NewTransaction sample_params).2 with
  | Ok tx => tx
  | _ => mkTransaction (EnvFeeBump MNil 0 None []) 0 0 (mkSimpleAccount EmptyString 0) [] None zero_Preconditions
  end.

Lemma sample_built : NewTransaction sample_params = (Some (mkSimpleAccount addr7 6), Ok sample_tx).
Proof. vm_compute. reflexivity. Qed.

Lemma sample_stable : Forall (op_stable (tx_ext sample_tx)) (p_Operations sample_params).
Proof.
  apply Forall_cons_2; [by left|]. apply Forall_cons_2; [|apply Forall_nil_2]. intros [] src b _. exists tt.
  split; [done|]. by destruct (negb _).
Qed.

Lemma sample_typed : cond_typed (p_Preconditions sample_params).
Proof. unfold cond_typed, in_int. cbn. split_and!; (lia || done || apply Forall_nil_2). Qed.

Definition sample_v1 : V1Envelope :=
  match envelope sample_tx with EnvTx v1 => v1 | _ => mkV1Envelope (mkXTransaction MNil 0 0 PrecondNone xMemoNone [] 0) [] end.

Lemma fee_bump_spec_witness :
  NewFeeBumpTransaction (mkFeeBumpParams (Some sample_tx) addr7 200) =
    Ok (mkFeeBump (EnvFeeBump (MEd25519 key7) 600 (Some sample_v1) []) 200 600 addr7 sample_tx).
Proof.
  destruct (fee_bump_spec (mkFeeBumpParams (Some sample_tx) addr7 200) sample_tx sample_v1) as [H _].
  - reflexivity.
  - vm_compute. reflexivity.
  - unfold in_int. cbn. lia.
  - vm_compute. reflexivity.
  - rewrite H. unfold addr7 at 1. cbn [FeeAccount]. vm_compute. reflexivity.
Defined.

(** The sample as a version 0 transaction. *)
Definition sample_v0 : Transaction :=
  with_envelope sample_tx (EnvTxV0 (mkXTransactionV0 key7 300 6 (Some (mkXTimeBounds 0 1000)) (xMemoId 9)
    (x_Operations (V1_Tx sample_v1))) []).

Lemma fee_bump_v0_panics_witness :
  exists fb, NewFeeBumpTransaction (mkFeeBumpParams (Some sample_v0) addr7 200) = Ok fb /\
    transactionFromParsedXDR (fb_envelope fb) = Panic nil_pointer /\
    fb_Sign fb "Test SDF Network ; September 2015" [] = Panic nil_pointer.
Proof.
  destruct (NewFeeBumpTransaction (mkFeeBumpParams (Some sample_v0) addr7 200)) as [fb|e|m] eqn:E.
  - exists fb. split; [done|].
    destruct (fee_bump_v0_panics (mkFeeBumpParams (Some sample_v0) addr7 200) sample_v0 _ _ fb eq_refl eq_refl E) as [H1 H2].
    split; [exact H2|]. apply H1. reflexivity.
  - exfalso. vm_compute in E. discriminate.
  - exfalso. vm_compute in E. discriminate.
Defined.

End TxProofs.
