(* ===== verification/TxAssets.v ===== *)
(** * Assets of transactions (txnbuild/asset.go, change_trust_asset.go,
    trust_line_asset.go, liquidity_pool_id.go, liquidity_pool_parameters.go)

    The three kinds of assets that operations name, their conversions to and
    from XDR, and the ids of liquidity pools.  An interface value of the code is
    an [option], since it can be nil; the interface BasicAsset is a class. *)
From S2P Require Import Prelude Strkey Xdr LedgerKeys.
Import LedgerKeys.
Local Open Scope Z_scope.

Module TxAssets.

(** A method call on a nil interface, or a dereference of a nil pointer. *)
Definition deref {A} (x : option A) : res A := from_opt "nil pointer dereference" x.

(** An error that is wrapped with a message; a panic passes. *)
Definition wrap {A} (msg : string) (r : res A) : res A := match r with Err _ => Err msg | r => r end.

(** ** XDR types

    The values of a union are constructors, so that the arm of its type is set. *)

(** The asset code of an AllowTrust operation. *)
Inductive AssetCode := AssetCode4 (code : list Z) | AssetCode12 (code : list Z) | UnknownAssetCode (typ : Z).

Inductive xLiquidityPoolParameters :=
| ConstantProduct (AssetA AssetB : Asset.t) (Fee : Z)
| UnknownPoolType (typ : Z).

Inductive xChangeTrustAsset := CTAsset (a : Asset.t) | CTPoolShare (p : xLiquidityPoolParameters).

Definition ToAssetCode (code : string) : res AssetCode :=
  let bytes := bytes_of code in
  let length := length bytes in
  if Nat.leb 1 length && Nat.leb length 4 then Ok (AssetCode4 (Asset.copy_code 4 bytes))
  else if Nat.leb 5 length && Nat.leb length 12 then Ok (AssetCode12 (Asset.copy_code 12 bytes))
  else Err "Asset code length is invalid".

Definition xToChangeTrustAsset (a : Asset.t) : xChangeTrustAsset := CTAsset a.
Definition xToTrustLineAsset (a : Asset.t) : TrustLineAsset := TLAsset a.

Definition CT_ToAsset (cta : xChangeTrustAsset) : res Asset.t :=
  match cta with CTAsset a => Ok a | CTPoolShare _ => Panic "Cannot transform type to Asset" end.
Definition TL_ToAsset (tla : TrustLineAsset) : res Asset.t :=
  match tla with TLAsset a => Ok a | TLPoolShare _ => Panic "Cannot transform type to Asset" end.

(** ** Assets *)

Inductive Asset := NativeAsset | CreditAsset (Code Issuer : string).

#[global] Instance Asset_eq_dec : EqDecision Asset.
Proof. solve_decision. Defined.

Definition AssetTypeNative : Z := 0.
Definition AssetTypeCreditAlphanum4 : Z := 1.
Definition AssetTypeCreditAlphanum12 : Z := 2.
Definition AssetTypePoolShare : Z := 3.

Definition CreditAsset_GetType (Code : string) : res Z :=
  let n := length (bytes_of Code) in
  if Nat.leb 1 n && Nat.leb n 4 then Ok AssetTypeCreditAlphanum4
  else if Nat.leb 5 n && Nat.leb n 12 then Ok AssetTypeCreditAlphanum12
  else Err "asset code length must be between 1 and 12 characters".

Definition CreditAsset_ToXDR (Code Issuer : string) : res Asset.t :=
  issuer ← AccountId.SetAddress Issuer;
  wrap "asset code length must be between 1 and 12 characters" (Asset.SetCredit Code issuer).

Definition Asset_ToXDR (a : Asset) : res Asset.t :=
  match a with
  | NativeAsset => Asset.SetNative
  | CreditAsset c i => CreditAsset_ToXDR c i
  end.

(** A conversion that fails makes the comparison false. *)
Definition CreditAsset_LessThan (Code Issuer : string) (other : option Asset) : res bool :=
  match CreditAsset_ToXDR Code Issuer with
  | Ok caXDR =>
      other ← deref other;
      match Asset_ToXDR other with
      | Ok otherXDR => Ok (Asset.LessThan caXDR otherXDR)
      | Err _ => Ok false
      | Panic m => Panic m
      end
  | Err _ => Ok false
  | Panic m => Panic m
  end.

Definition Asset_LessThan (a : Asset) (other : option Asset) : res bool :=
  match a with
  | NativeAsset => Ok true
  | CreditAsset c i => CreditAsset_LessThan c i other
  end.

(** [bytes.Trim] with zero bytes: from both ends. *)
Definition trimZeros (b : list Z) : list Z := Asset.drop_right_zeros (Asset.trimRightZeros b).

Definition assetFromXDR (xAsset : Asset.t) : res Asset :=
  match xAsset with
  | Asset.Native => Ok NativeAsset
  | Asset.AlphaNum4 code issuer | Asset.AlphaNum12 code issuer =>
      address ← AccountId.Address issuer;
      Ok (CreditAsset (string_of (trimZeros code)) address)
  end.

Definition MustAssetFromXDR (xAsset : Asset.t) : res Asset :=
  match assetFromXDR xAsset with Err e => Panic e | r => r end.

Definition assetCodeToCreditAsset (assetCode : AssetCode) : res Asset :=
  match assetCode with
  | AssetCode4 code | AssetCode12 code => Ok (CreditAsset (string_of (trimZeros code)) EmptyString)
  | UnknownAssetCode _ => Err "unknown asset type"
  end.

(** ** Liquidity pools *)

Definition LiquidityPoolFeeV18 : Z := 30.

Record LiquidityPoolParameters := mkPoolParams { AssetA : option Asset; AssetB : option Asset; Fee : Z }.

Definition LiquidityPoolParameters_ToXDR (lpi : LiquidityPoolParameters) : res xLiquidityPoolParameters :=
  a ← deref (AssetA lpi);
  xdrAssetA ← wrap "failed to build XDR AssetA ID" (Asset_ToXDR a);
  b ← deref (AssetB lpi);
  xdrAssetB ← wrap "failed to build XDR AssetB ID" (Asset_ToXDR b);
  Ok (ConstantProduct xdrAssetA xdrAssetB (Fee lpi)).

Definition liquidityPoolParametersFromXDR (params : xLiquidityPoolParameters) : res LiquidityPoolParameters :=
  match params with
  | UnknownPoolType _ => Err "failed to parse XDR type"
  | ConstantProduct a b fee =>
      assetA ← wrap "failed to parse XDR AssetA" (assetFromXDR a);
      assetB ← wrap "failed to parse XDR AssetB" (assetFromXDR b);
      Ok (mkPoolParams (Some assetA) (Some assetB) fee)
  end.

Section PoolIds.
Context {XE : XdrEncoder} (sha256 : list Z -> list Z).

Definition Asset_EncodeTo (a : Asset.t) : list Z :=
  match a with
  | Asset.Native => EncodeInt 0
  | Asset.AlphaNum4 code issuer => EncodeInt 1 ++ EncodeFixedOpaque code ++ AccountId_EncodeTo issuer
  | Asset.AlphaNum12 code issuer => EncodeInt 2 ++ EncodeFixedOpaque code ++ AccountId_EncodeTo issuer
  end.

(** The encoding of pool parameters with assets and fee. *)
Definition pool_params_EncodeTo (a b : Asset.t) (fee : Z) : list Z :=
  EncodeInt 0 ++ Asset_EncodeTo a ++ Asset_EncodeTo b ++ EncodeInt fee.

Definition NewPoolId (a b : Asset.t) (fee : Z) : res (list Z) :=
  if Asset.LessThan b a then Err "AssetA must be < AssetB"
  else Ok (sha256 (pool_params_EncodeTo a b fee)).

Definition NewLiquidityPoolId (a b : option Asset) : res (list Z) :=
  b' ← deref b;
  lt ← Asset_LessThan b' a;
  if (lt : bool) then Err "AssetA must be <= AssetB" else
  a' ← deref a;
  xdrAssetA ← wrap "failed to build XDR AssetA ID" (Asset_ToXDR a');
  xdrAssetB ← wrap "failed to build XDR AssetB ID" (Asset_ToXDR b');
  wrap "failed to build XDR liquidity pool id" (NewPoolId xdrAssetA xdrAssetB LiquidityPoolFeeV18).

End PoolIds.

(** ** Assets of trust lines and of ChangeTrust *)

Inductive TrustLineAsset :=
| LiquidityPoolShareTrustLineAsset (LiquidityPoolID : list Z)
| TrustLineAssetWrapper (a : option Asset).

Inductive ChangeTrustAsset :=
| LiquidityPoolShareChangeTrustAsset (p : LiquidityPoolParameters)
| ChangeTrustAssetWrapper (a : option Asset).

(** The union that [ToXDR] of a pool share returns has its pool id set but not
    its type: the type is the zero value, native, and the id is in an arm that is
    not read. *)
Definition TrustLineAsset_ToXDR (t : TrustLineAsset) : res LedgerKeys.TrustLineAsset :=
  match t with
  | LiquidityPoolShareTrustLineAsset _ => Ok (TLAsset Asset.Native)
  | TrustLineAssetWrapper a => a ← deref a; x ← Asset_ToXDR a; Ok (xToTrustLineAsset x)
  end.

Definition ChangeTrustAsset_ToXDR (t : ChangeTrustAsset) : res xChangeTrustAsset :=
  match t with
  | LiquidityPoolShareChangeTrustAsset p =>
      xdrPoolParams ← wrap "failed to build XDR liquidity pool parameters" (LiquidityPoolParameters_ToXDR p);
      Ok (CTPoolShare xdrPoolParams)
  | ChangeTrustAssetWrapper a => a ← deref a; x ← Asset_ToXDR a; Ok (xToChangeTrustAsset x)
  end.

Definition assetFromTrustLineAssetXDR (xAsset : LedgerKeys.TrustLineAsset) : res TrustLineAsset :=
  match xAsset with
  | TLPoolShare poolId => Ok (LiquidityPoolShareTrustLineAsset poolId)
  | _ => x ← TL_ToAsset xAsset; a ← assetFromXDR x; Ok (TrustLineAssetWrapper (Some a))
  end.

Definition assetFromChangeTrustAssetXDR (xAsset : xChangeTrustAsset) : res ChangeTrustAsset :=
  match xAsset with
  | CTPoolShare p =>
      params ← wrap "invalid XDR liquidity pool parameters" (liquidityPoolParametersFromXDR p);
      Ok (LiquidityPoolShareChangeTrustAsset params)
  | _ => x ← CT_ToAsset xAsset; a ← assetFromXDR x; Ok (ChangeTrustAssetWrapper (Some a))
  end.

(** ** The common interface *)

Class BasicAsset (A : Type) := {
  GetType : A -> res Z;
  IsNative : A -> res bool;
  GetCode : A -> res string;
  GetIssuer : A -> res string;
  ToAsset : A -> res Asset;
  ToTrustLineAsset : (list Z -> list Z) -> A -> res TrustLineAsset;
  ToChangeTrustAsset : A -> res ChangeTrustAsset
}.

#[global] Instance Asset_Basic : BasicAsset Asset := {
  GetType a := match a with NativeAsset => Ok AssetTypeNative | CreditAsset c _ => CreditAsset_GetType c end;
  IsNative a := Ok (match a with NativeAsset => true | CreditAsset _ _ => false end);
  GetCode a := Ok (match a with NativeAsset => EmptyString | CreditAsset c _ => c end);
  GetIssuer a := Ok (match a with NativeAsset => EmptyString | CreditAsset _ i => i end);
  ToAsset a := Ok a;
  ToTrustLineAsset _ a := Ok (TrustLineAssetWrapper (Some a));
  ToChangeTrustAsset a := Ok (ChangeTrustAssetWrapper (Some a))
}.

#[global] Instance TrustLineAsset_Basic : BasicAsset TrustLineAsset := {
  GetType t := match t with
    | LiquidityPoolShareTrustLineAsset _ => Ok AssetTypePoolShare | TrustLineAssetWrapper a => a ← deref a; GetType a end;
  IsNative t := match t with
    | LiquidityPoolShareTrustLineAsset _ => Ok false | TrustLineAssetWrapper a => a ← deref a; IsNative a end;
  GetCode t := match t with
    | LiquidityPoolShareTrustLineAsset _ => Ok EmptyString | TrustLineAssetWrapper a => a ← deref a; GetCode a end;
  GetIssuer t := match t with
    | LiquidityPoolShareTrustLineAsset _ => Ok EmptyString | TrustLineAssetWrapper a => a ← deref a; GetIssuer a end;
  ToAsset t := match t with
    | LiquidityPoolShareTrustLineAsset _ => Err "Cannot transform LiquidityPoolShare into Asset"
    | TrustLineAssetWrapper a => a ← deref a; ToAsset a end;
  ToTrustLineAsset sha256 t := match t with
    | LiquidityPoolShareTrustLineAsset _ => Ok t | TrustLineAssetWrapper a => a ← deref a; ToTrustLineAsset sha256 a end;
  ToChangeTrustAsset t := match t with
    | LiquidityPoolShareTrustLineAsset _ => Err "Cannot transform LiquidityPoolShare into ChangeTrustAsset"
    | TrustLineAssetWrapper a => a ← deref a; ToChangeTrustAsset a end
}.

#[global] Instance ChangeTrustAsset_Basic {XE : XdrEncoder} : BasicAsset ChangeTrustAsset := {
  GetType t := match t with
    | LiquidityPoolShareChangeTrustAsset _ => Ok AssetTypePoolShare | ChangeTrustAssetWrapper a => a ← deref a; GetType a end;
  IsNative t := match t with
    | LiquidityPoolShareChangeTrustAsset _ => Ok false | ChangeTrustAssetWrapper a => a ← deref a; IsNative a end;
  GetCode t := match t with
    | LiquidityPoolShareChangeTrustAsset _ => Ok EmptyString | ChangeTrustAssetWrapper a => a ← deref a; GetCode a end;
  GetIssuer t := match t with
    | LiquidityPoolShareChangeTrustAsset _ => Ok EmptyString | ChangeTrustAssetWrapper a => a ← deref a; GetIssuer a end;
  ToAsset t := match t with
    | LiquidityPoolShareChangeTrustAsset _ => Err "Cannot transform LiquidityPoolShare into Asset"
    | ChangeTrustAssetWrapper a => a ← deref a; ToAsset a end;
  ToTrustLineAsset sha256 t := match t with
    | LiquidityPoolShareChangeTrustAsset p =>
        poolId ← NewLiquidityPoolId sha256 (AssetA p) (AssetB p); Ok (LiquidityPoolShareTrustLineAsset poolId)
    | ChangeTrustAssetWrapper a => a ← deref a; ToTrustLineAsset sha256 a end;
  ToChangeTrustAsset t := match t with
    | LiquidityPoolShareChangeTrustAsset _ => Ok t | ChangeTrustAssetWrapper a => a ← deref a; ToChangeTrustAsset a end
}.

End TxAssets.
