(* ===== verification/TxOperations.v ===== *)
(** * The operations of transactions (package txnbuild)

    One record per operation struct, with [BuildXDR], [FromXDR] and [Validate]
    as in its file, and the validators of helpers.go.  [FromXDR] is the method
    on a fresh receiver, as [operationFromXDR] calls it.  [BuildXDR] returns the
    receiver as the call leaves it where the call changes it (ChangeTrust,
    SetOptions).  The generated types that operations only carry around (host
    functions, authorizations, contract values, footprints) are parameters. *)
From S2P Require Import Prelude HexText Amount Price Strkey Xdr LedgerKeys XdrCodec Muxed Transactions TxAssets.
Import LedgerKeys XdrCodec Muxed TxAssets.
Local Open Scope Z_scope.
Local Set Warnings "-register-all".

Module TxOperations.

(** Types of the generated code that operations pass on. *)
Class SorobanTypes := {
  ScVal : Type;
  HostFunction : Type;
  SorobanAuthorizationEntry : Type;
  SorobanTransactionData : Type
}.

Section Operations.
Context {XC : XdrCodec} {ST : SorobanTypes}.

(** ** XDR types *)

Inductive TransactionExt := ExtV0 | ExtV1 (data : SorobanTransactionData).

Inductive ClaimPredicate :=
| Unconditional
| And (AndPredicates : list ClaimPredicate)
| Or (OrPredicates : list ClaimPredicate)
| Not (predicate : option ClaimPredicate)
| BeforeAbsoluteTime (AbsBefore : Z)
| BeforeRelativeTime (RelBefore : Z).

Record xClaimant := mkXClaimant { V0_Destination : AccountId.t; V0_Predicate : ClaimPredicate }.
Record xSigner := mkXSigner { xKey : SignerKey; xWeight : Z }.

Record xSetOptionsOp := mkXSetOptions {
  x_InflationDest : option AccountId.t;
  x_ClearFlags : option Z;
  x_SetFlags : option Z;
  x_MasterWeight : option Z;
  x_LowThreshold : option Z;
  x_MedThreshold : option Z;
  x_HighThreshold : option Z;
  x_HomeDomain : option string;
  x_Signer : option xSigner
}.

Inductive xRevokeSponsorshipOp :=
| RevokeLedgerEntry (key : @LedgerKey ScVal)
| RevokeSigner (AccountId : AccountId.t) (SignerKey : SignerKey).

Inductive Body :=
| BCreateAccount (Destination : AccountId.t) (StartingBalance : Z)
| BPayment (Destination : MuxedAccount) (Asset : Asset.t) (Amount : Z)
| BPathPaymentStrictReceive (SendAsset : Asset.t) (SendMax : Z) (Destination : MuxedAccount) (DestAsset : Asset.t)
    (DestAmount : Z) (Path : list Asset.t)
| BManageSellOffer (Selling Buying : Asset.t) (Amount : Z) (Price : Price.t) (OfferId : Z)
| BCreatePassiveSellOffer (Selling Buying : Asset.t) (Amount : Z) (Price : Price.t)
| BSetOptions (op : xSetOptionsOp)
| BChangeTrust (Line : xChangeTrustAsset) (Limit : Z)
| BAllowTrust (Trustor : AccountId.t) (Asset : AssetCode) (Authorize : Z)
| BAccountMerge (Destination : MuxedAccount)
| BInflation
| BBumpSequence (BumpTo : Z)
| BManageBuyOffer (Selling Buying : Asset.t) (BuyAmount : Z) (Price : Price.t) (OfferId : Z)
| BPathPaymentStrictSend (SendAsset : Asset.t) (SendAmount : Z) (Destination : MuxedAccount) (DestAsset : Asset.t)
    (DestMin : Z) (Path : list Asset.t)
| BCreateClaimableBalance (Asset : Asset.t) (Amount : Z) (Claimants : list xClaimant)
| BClaimClaimableBalance (BalanceId : list Z)
| BBeginSponsoringFutureReserves (SponsoredId : AccountId.t)
| BEndSponsoringFutureReserves
| BRevokeSponsorship (op : xRevokeSponsorshipOp)
| BClawback (Asset : Asset.t) (From : MuxedAccount) (Amount : Z)
| BClawbackClaimableBalance (BalanceId : list Z)
| BSetTrustLineFlags (Trustor : AccountId.t) (Asset : Asset.t) (ClearFlags SetFlags : Z)
| BLiquidityPoolDeposit (LiquidityPoolId : list Z) (MaxAmountA MaxAmountB : Z) (MinPrice MaxPrice : Price.t)
| BLiquidityPoolWithdraw (LiquidityPoolId : list Z) (Amount MinAmountA MinAmountB : Z)
| BInvokeHostFunction (function : HostFunction) (Auth : list SorobanAuthorizationEntry)
| BExtendFootprintTtl (ExtendTo : Z)
| BRestoreFootprint.

(** An operation: its source account and its body. *)
Abbreviation xOp := (option MuxedAccount * Body)%type.

Definition build (sourceAccount : string) (b : Body) : res xOp := Ok (Transactions.SetOpSourceAccount sourceAccount, b).
Abbreviation accountFromXDR := Transactions.accountFromXDR.

(** ** Claimable balance ids as hexadecimal text *)

Definition ClaimableBalanceId_MarshalHex (V0 : list Z) : string :=
  string_of (Hex.EncodeToString (EncodeUint 0 ++ EncodeFixedOpaque V0)).

(** The generated decoder: the type, which must be V0, and a hash. *)
Definition ClaimableBalanceId_DecodeFrom (d : list Z) : res (list Z * list Z) :=
  if Nat.ltb MaxDepth 2 then Err "maximum decoding depth reached" else
  '(v, d) ← DecodeUint d;
  if negb (to_int32 v =? 0) then Err "not a valid ClaimableBalanceIdType enum value" else
  DecodeFixedOpaqueInplace 32 d.

(** [SafeUnmarshalHex] decodes the text as the decoder asks for bytes, 36 of
    them, and compares the length of the text with what was read of it.  The hex
    decoder reads blocks of [bufferSize], so that all of a shorter text is read
    at once, including what is never decoded. *)
Definition SafeUnmarshalHex (data : string) : res (list Z) :=
  let text := bytes_of data in
  raw ← Hex.Decode (take 72 text);
  '(id, _) ← ClaimableBalanceId_DecodeFrom raw;
  if Nat.ltb Hex.bufferSize (length text) then Err "input not fully consumed" else Ok id.

(** ** Validation helpers *)

Definition validateHcnetPublicKey (publicKey : string) : res unit :=
  if bool_decide (publicKey = EmptyString) then Err "public key is undefined"
  else if negb (Strkey.IsValidEd25519PublicKey publicKey) then Err "not a valid hcnet public key"
  else Ok tt.

Definition validateHcnetSignerKey (signerKey : string) : res unit :=
  if bool_decide (signerKey = EmptyString) then Err "signer key is undefined" else
  _ ← wrap "not a valid hcnet signer key" (SignerKey_SetAddress signerKey);
  Ok tt.

Definition validateHcnetAsset {A} `{BasicAsset A} (asset : option A) : res unit :=
  match asset with
  | None => Err "asset is undefined"
  | Some asset =>
      native ← IsNative asset;
      if (native : bool) then Ok tt else
      _ ← GetType asset;
      issuer ← GetIssuer asset;
      wrap "asset issuer" (validateHcnetPublicKey issuer)
  end.

Definition validateAmount64 (n : Z) : res unit := if n <? 0 then Err "amount can not be negative" else Ok tt.

Definition validateAmount (n : string) : res unit := v ← Amount.ParseInt64 n; validateAmount64 v.

Definition validatePrice (p : Price.t) : res unit :=
  if Price.N p =? 0 then Err "price cannot be 0"
  else if Price.D p =? 0 then Err "price denominator cannot be 0"
  else if (Price.N p <? 0) || (Price.D p <? 0) then Err "price cannot be negative"
  else Ok tt.

Definition validateAssetCode {A} `{BasicAsset A} (asset : option A) : res unit :=
  match asset with
  | None => Err "asset is undefined"
  | Some asset =>
      native ← IsNative asset;
      if (native : bool) then Err "native (XLM) asset type is not allowed" else
      _ ← GetType asset; Ok tt
  end.

Definition validateChangeTrustAsset `{XE : XdrEncoder} (asset : option ChangeTrustAsset) : res unit :=
  _ ← validateAssetCode asset;
  asset ← deref asset;
  assetType ← GetType asset;
  if assetType =? AssetTypePoolShare then Ok tt else
  issuer ← GetIssuer asset;
  wrap "asset issuer" (validateHcnetPublicKey issuer).

(** [NewValidationError] of a field. *)
Definition in_field {A} (field : string) (r : res A) : res A := wrap (String.append "Field: " field) r.

Definition validatePassiveOffer (buying selling : option Asset) (offerAmount : string) (price : Price.t) : res unit :=
  _ ← in_field "Buying" (validateHcnetAsset buying);
  _ ← in_field "Selling" (validateHcnetAsset selling);
  _ ← in_field "Amount" (validateAmount offerAmount);
  in_field "Price" (validatePrice price).

Definition validateOffer (buying selling : option Asset) (offerAmount : string) (price : Price.t) (offerID : Z) : res unit :=
  _ ← validatePassiveOffer buying selling offerAmount price;
  in_field "OfferID" (validateAmount64 offerID).

Definition ParseAssetString (canonical : string) : res Asset :=
  assets ← wrap "error parsing asset string" (Asset.BuildAssets canonical);
  match assets with
  | [a] => wrap "error parsing asset string via XDR types" (assetFromXDR a)
  | _ => Err "error parsing out a single asset"
  end.

(** The XDR of a list of assets, up to the first that fails. *)
Fixpoint assets_ToXDR (l : list (option Asset)) : res (list Asset.t) :=
  match l with
  | [] => Ok []
  | a :: l =>
      a ← deref a;
      x ← wrap "failed to set asset type" (Asset_ToXDR a);
      xs ← assets_ToXDR l;
      Ok (x :: xs)
  end.

Fixpoint assets_FromXDR (msg : string) (l : list Asset.t) : res (list (option Asset)) :=
  match l with
  | [] => Ok []
  | x :: l => a ← wrap msg (assetFromXDR x); l' ← assets_FromXDR msg l; Ok (Some a :: l')
  end.

(** ** CreateAccount *)

Record CreateAccount := mkCreateAccount { ca_Destination : string; ca_Amount : string; ca_SourceAccount : string }.

Definition CreateAccount_BuildXDR (ca : CreateAccount) : res xOp :=
  destination ← wrap "failed to set destination address" (AccountId.SetAddress (ca_Destination ca));
  balance ← wrap "failed to parse amount" (Amount.Parse (ca_Amount ca));
  build (ca_SourceAccount ca) (BCreateAccount destination balance).

Definition CreateAccount_FromXDR (xdrOp : xOp) : res CreateAccount :=
  match xdrOp.2 with
  | BCreateAccount d n =>
      src ← accountFromXDR xdrOp.1;
      address ← AccountId.Address d;
      Ok (mkCreateAccount address (Amount.String_ n) src)
  | _ => Err "error parsing create_account operation from xdr"
  end.

Definition CreateAccount_Validate (ca : CreateAccount) : res unit :=
  _ ← in_field "Destination" (validateHcnetPublicKey (ca_Destination ca));
  in_field "Amount" (validateAmount (ca_Amount ca)).

(** ** Payment *)

Record Payment := mkPayment {
  pay_Destination : string; pay_Amount : string; pay_Asset : option Asset; pay_SourceAccount : string }.

Definition Payment_BuildXDR (p : Payment) : res xOp :=
  destination ← wrap "failed to set destination address" (Muxed.SetAddress (pay_Destination p));
  xdrAmount ← wrap "failed to parse amount" (Amount.Parse (pay_Amount p));
  match pay_Asset p with
  | None => Err "you must specify an asset for payment"
  | Some a =>
      xdrAsset ← wrap "failed to set asset type" (Asset_ToXDR a);
      build (pay_SourceAccount p) (BPayment destination xdrAsset xdrAmount)
  end.

Definition Payment_FromXDR (xdrOp : xOp) : res Payment :=
  match xdrOp.2 with
  | BPayment d a n =>
      src ← accountFromXDR xdrOp.1;
      address ← Muxed.Address d;
      asset ← wrap "error parsing asset in payment operation" (assetFromXDR a);
      Ok (mkPayment address (Amount.String_ n) (Some asset) src)
  | _ => Err "error parsing payment operation from xdr"
  end.

Definition Payment_Validate (p : Payment) : res unit :=
  _ ← in_field "Destination" (AddressToMuxedAccount (pay_Destination p));
  _ ← in_field "Asset" (validateHcnetAsset (pay_Asset p));
  in_field "Amount" (validateAmount (pay_Amount p)).

(** ** Path payments *)

Record PathPaymentStrictReceive := mkPathPaymentStrictReceive {
  ppr_SendAsset : option Asset; ppr_SendMax : string; ppr_Destination : string; ppr_DestAsset : option Asset;
  ppr_DestAmount : string; ppr_Path : list (option Asset); ppr_SourceAccount : string }.

Definition PathPaymentStrictReceive_BuildXDR (pp : PathPaymentStrictReceive) : res xOp :=
  match ppr_SendAsset pp with
  | None => Err "you must specify an asset to send for payment"
  | Some sendAsset =>
      xdrSendAsset ← wrap "failed to set asset type" (Asset_ToXDR sendAsset);
      xdrSendMax ← wrap "failed to parse maximum amount to send" (Amount.Parse (ppr_SendMax pp));
      xdrDestination ← wrap "failed to set destination address" (Muxed.SetAddress (ppr_Destination pp));
      match ppr_DestAsset pp with
      | None => Err "you must specify an asset for destination account to receive"
      | Some destAsset =>
          xdrDestAsset ← wrap "failed to set asset type" (Asset_ToXDR destAsset);
          xdrDestAmount ← wrap "failed to parse amount of asset destination account receives" (Amount.Parse (ppr_DestAmount pp));
          xdrPath ← assets_ToXDR (ppr_Path pp);
          build (ppr_SourceAccount pp)
            (BPathPaymentStrictReceive xdrSendAsset xdrSendMax xdrDestination xdrDestAsset xdrDestAmount xdrPath)
      end
  end.

Definition PathPaymentStrictReceive_FromXDR (xdrOp : xOp) : res PathPaymentStrictReceive :=
  match xdrOp.2 with
  | BPathPaymentStrictReceive sa sm d da dn path =>
      src ← accountFromXDR xdrOp.1;
      address ← Muxed.Address d;
      destAsset ← wrap "error parsing dest_asset in path_payment operation" (assetFromXDR da);
      sendAsset ← wrap "error parsing send_asset in path_payment operation" (assetFromXDR sa);
      path ← assets_FromXDR "error parsing paths in path_payment operation" path;
      Ok (mkPathPaymentStrictReceive (Some sendAsset) (Amount.String_ sm) address (Some destAsset) (Amount.String_ dn) path src)
  | _ => Err "error parsing path_payment operation from xdr"
  end.

Definition PathPaymentStrictReceive_Validate (pp : PathPaymentStrictReceive) : res unit :=
  _ ← in_field "Destination" (AddressToMuxedAccount (ppr_Destination pp));
  _ ← in_field "SendAsset" (validateHcnetAsset (ppr_SendAsset pp));
  _ ← in_field "DestAsset" (validateHcnetAsset (ppr_DestAsset pp));
  _ ← in_field "SendMax" (validateAmount (ppr_SendMax pp));
  in_field "DestAmount" (validateAmount (ppr_DestAmount pp)).

Record PathPaymentStrictSend := mkPathPaymentStrictSend {
  pps_SendAsset : option Asset; pps_SendAmount : string; pps_Destination : string; pps_DestAsset : option Asset;
  pps_DestMin : string; pps_Path : list (option Asset); pps_SourceAccount : string }.

Definition PathPaymentStrictSend_BuildXDR (pp : PathPaymentStrictSend) : res xOp :=
  match pps_SendAsset pp with
  | None => Err "you must specify an asset to send for payment"
  | Some sendAsset =>
      xdrSendAsset ← wrap "failed to set asset type" (Asset_ToXDR sendAsset);
      xdrDestMin ← wrap "failed to parse minimum amount to receive" (Amount.Parse (pps_DestMin pp));
      xdrDestination ← wrap "failed to set destination address" (Muxed.SetAddress (pps_Destination pp));
      match pps_DestAsset pp with
      | None => Err "you must specify an asset for destination account to receive"
      | Some destAsset =>
          xdrDestAsset ← wrap "failed to set asset type" (Asset_ToXDR destAsset);
          xdrSendAmount ← wrap "failed to parse amount of asset source account sends" (Amount.Parse (pps_SendAmount pp));
          xdrPath ← assets_ToXDR (pps_Path pp);
          build (pps_SourceAccount pp)
            (BPathPaymentStrictSend xdrSendAsset xdrSendAmount xdrDestination xdrDestAsset xdrDestMin xdrPath)
      end
  end.

Definition PathPaymentStrictSend_FromXDR (xdrOp : xOp) : res PathPaymentStrictSend :=
  match xdrOp.2 with
  | BPathPaymentStrictSend sa sn d da dm path =>
      src ← accountFromXDR xdrOp.1;
      address ← Muxed.Address d;
      destAsset ← wrap "error parsing dest_asset in path_payment operation" (assetFromXDR da);
      sendAsset ← wrap "error parsing send_asset in path_payment operation" (assetFromXDR sa);
      path ← assets_FromXDR "error parsing paths in path_payment operation" path;
      Ok (mkPathPaymentStrictSend (Some sendAsset) (Amount.String_ sn) address (Some destAsset) (Amount.String_ dm) path src)
  | _ => Err "error parsing path_payment operation from xdr"
  end.

Definition PathPaymentStrictSend_Validate (pp : PathPaymentStrictSend) : res unit :=
  _ ← in_field "Destination" (AddressToMuxedAccount (pps_Destination pp));
  _ ← in_field "SendAsset" (validateHcnetAsset (pps_SendAsset pp));
  _ ← in_field "DestAsset" (validateHcnetAsset (pps_DestAsset pp));
  _ ← in_field "SendAmount" (validateAmount (pps_SendAmount pp));
  in_field "DestMin" (validateAmount (pps_DestMin pp)).

(** ** Offers *)

Record ManageSellOffer := mkManageSellOffer {
  mso_Selling : option Asset; mso_Buying : option Asset; mso_Amount : string; mso_Price : Price.t; mso_OfferID : Z;
  mso_SourceAccount : string }.

(** The optional source account is a variadic argument. *)
Definition offer_source (sourceAccount : list string) (offer : string -> ManageSellOffer) : res ManageSellOffer :=
  if Nat.ltb 1 (length sourceAccount) then Err "offer can't have multiple source accounts"
  else Ok (offer (match sourceAccount with [s] => s | _ => EmptyString end)).

Definition CreateOfferOp (selling buying : option Asset) (amount : string) (price : Price.t)
    (sourceAccount : list string) : res ManageSellOffer :=
  offer_source sourceAccount (mkManageSellOffer selling buying amount price 0).

Definition UpdateOfferOp (selling buying : option Asset) (amount : string) (price : Price.t) (offerID : Z)
    (sourceAccount : list string) : res ManageSellOffer :=
  offer_source sourceAccount (mkManageSellOffer selling buying amount price offerID).

Definition DeleteOfferOp (offerID : Z) (sourceAccount : list string) : res ManageSellOffer :=
  offer_source sourceAccount (mkManageSellOffer (Some NativeAsset)
    (Some (CreditAsset "FAKE" "GBAQPADEYSKYMYXTMASBUIS5JI3LMOAWSTM2CHGDBJ3QDDPNCSO3DVAA")) "0" (Price.mk 1 1) offerID).

Definition ManageSellOffer_BuildXDR (mo : ManageSellOffer) : res xOp :=
  selling ← deref (mso_Selling mo);
  xdrSelling ← wrap "failed to set XDR 'Selling' field" (Asset_ToXDR selling);
  buying ← deref (mso_Buying mo);
  xdrBuying ← wrap "failed to set XDR 'Buying' field" (Asset_ToXDR buying);
  xdrAmount ← wrap "failed to parse 'Amount'" (Amount.Parse (mso_Amount mo));
  build (mso_SourceAccount mo) (BManageSellOffer xdrSelling xdrBuying xdrAmount (mso_Price mo) (mso_OfferID mo)).

Definition ManageSellOffer_FromXDR (xdrOp : xOp) : res ManageSellOffer :=
  match xdrOp.2 with
  | BManageSellOffer s b n p id =>
      src ← accountFromXDR xdrOp.1;
      buying ← wrap "error parsing buying_asset in manage_sell_offer operation" (assetFromXDR b);
      selling ← wrap "error parsing selling_asset in manage_sell_offer operation" (assetFromXDR s);
      Ok (mkManageSellOffer (Some selling) (Some buying) (Amount.String_ n) p id src)
  | _ => Err "error parsing manage_sell_offer operation from xdr"
  end.

Definition ManageSellOffer_Validate (mo : ManageSellOffer) : res unit :=
  validateOffer (mso_Buying mo) (mso_Selling mo) (mso_Amount mo) (mso_Price mo) (mso_OfferID mo).

Record ManageBuyOffer := mkManageBuyOffer {
  mbo_Selling : option Asset; mbo_Buying : option Asset; mbo_Amount : string; mbo_Price : Price.t; mbo_OfferID : Z;
  mbo_SourceAccount : string }.

Definition ManageBuyOffer_BuildXDR (mo : ManageBuyOffer) : res xOp :=
  selling ← deref (mbo_Selling mo);
  xdrSelling ← wrap "failed to set XDR 'Selling' field" (Asset_ToXDR selling);
  buying ← deref (mbo_Buying mo);
  xdrBuying ← wrap "failed to set XDR 'Buying' field" (Asset_ToXDR buying);
  xdrAmount ← wrap "failed to parse 'Amount'" (Amount.Parse (mbo_Amount mo));
  build (mbo_SourceAccount mo) (BManageBuyOffer xdrSelling xdrBuying xdrAmount (mbo_Price mo) (mbo_OfferID mo)).

Definition ManageBuyOffer_FromXDR (xdrOp : xOp) : res ManageBuyOffer :=
  match xdrOp.2 with
  | BManageBuyOffer s b n p id =>
      src ← accountFromXDR xdrOp.1;
      buying ← wrap "error parsing buying_asset in manage_buy_offer operation" (assetFromXDR b);
      selling ← wrap "error parsing selling_asset in manage_buy_offer operation" (assetFromXDR s);
      Ok (mkManageBuyOffer (Some selling) (Some buying) (Amount.String_ n) p id src)
  | _ => Err "error parsing manage_buy_offer operation from xdr"
  end.

Definition ManageBuyOffer_Validate (mo : ManageBuyOffer) : res unit :=
  validateOffer (mbo_Buying mo) (mbo_Selling mo) (mbo_Amount mo) (mbo_Price mo) (mbo_OfferID mo).

Record CreatePassiveSellOffer := mkCreatePassiveSellOffer {
  cpo_Selling : option Asset; cpo_Buying : option Asset; cpo_Amount : string; cpo_Price : Price.t; cpo_SourceAccount : string }.

Definition CreatePassiveSellOffer_BuildXDR (cpo : CreatePassiveSellOffer) : res xOp :=
  selling ← deref (cpo_Selling cpo);
  xdrSelling ← wrap "failed to set XDR 'Selling' field" (Asset_ToXDR selling);
  buying ← deref (cpo_Buying cpo);
  xdrBuying ← wrap "failed to set XDR 'Buying' field" (Asset_ToXDR buying);
  xdrAmount ← wrap "failed to parse 'Amount'" (Amount.Parse (cpo_Amount cpo));
  build (cpo_SourceAccount cpo) (BCreatePassiveSellOffer xdrSelling xdrBuying xdrAmount (cpo_Price cpo)).

Definition CreatePassiveSellOffer_FromXDR (xdrOp : xOp) : res CreatePassiveSellOffer :=
  match xdrOp.2 with
  | BCreatePassiveSellOffer s b n p =>
      src ← accountFromXDR xdrOp.1;
      buying ← wrap "error parsing buying_asset in create_passive_sell_offer operation" (assetFromXDR b);
      selling ← wrap "error parsing selling_asset in create_passive_sell_offer operation" (assetFromXDR s);
      Ok (mkCreatePassiveSellOffer (Some selling) (Some buying) (Amount.String_ n) p src)
  | _ => Err "error parsing create_passive_sell_offer operation from xdr"
  end.

Definition CreatePassiveSellOffer_Validate (cpo : CreatePassiveSellOffer) : res unit :=
  validatePassiveOffer (cpo_Buying cpo) (cpo_Selling cpo) (cpo_Amount cpo) (cpo_Price cpo).

(** ** SetOptions *)

Definition AuthRequired : Z := 1.
Definition AuthRevocable : Z := 2.
Definition AuthImmutable : Z := 4.
Definition AuthClawbackEnabled : Z := 8.
Definition accountFlags : list Z := [AuthRequired; AuthRevocable; AuthImmutable; AuthClawbackEnabled].

Record Signer := mkSigner { sg_Address : string; sg_Weight : Z }.

(** [so_xdrOp] is the XDR operation that the handlers fill in; it is kept from
    one call of [BuildXDR] to the next. *)
Record SetOptions := mkSetOptions {
  so_InflationDestination : option string;
  so_SetFlags : list Z;
  so_ClearFlags : list Z;
  so_MasterWeight : option Z;
  so_LowThreshold : option Z;
  so_MediumThreshold : option Z;
  so_HighThreshold : option Z;
  so_HomeDomain : option string;
  so_Signer : option Signer;
  so_xdrOp : xSetOptionsOp;
  so_SourceAccount : string
}.

Definition zero_xSetOptions : xSetOptionsOp := mkXSetOptions None None None None None None None None None.

(** Each handler gives the new value of its field of [so_xdrOp]. *)
Definition handleInflation (so : SetOptions) : res (option AccountId.t) :=
  match so_InflationDestination so with
  | Some a => id ← AccountId.SetAddress a; Ok (Some id)
  | None => Ok (x_InflationDest (so_xdrOp so))
  end.

Definition or_flags (flags : list Z) : Z := fold_left Z.lor flags 0.

Definition handleSetFlags (so : SetOptions) : option Z :=
  if Nat.ltb 0 (length (so_SetFlags so)) then Some (or_flags (so_SetFlags so)) else x_SetFlags (so_xdrOp so).
Definition handleClearFlags (so : SetOptions) : option Z :=
  if Nat.ltb 0 (length (so_ClearFlags so)) then Some (or_flags (so_ClearFlags so)) else x_ClearFlags (so_xdrOp so).
Definition handleMasterWeight (so : SetOptions) : option Z :=
  match so_MasterWeight so with Some w => Some w | None => x_MasterWeight (so_xdrOp so) end.
Definition handleLowThreshold (so : SetOptions) : option Z :=
  match so_LowThreshold so with Some w => Some w | None => x_LowThreshold (so_xdrOp so) end.
Definition handleMediumThreshold (so : SetOptions) : option Z :=
  match so_MediumThreshold so with Some w => Some w | None => x_MedThreshold (so_xdrOp so) end.
Definition handleHighThreshold (so : SetOptions) : option Z :=
  match so_HighThreshold so with Some w => Some w | None => x_HighThreshold (so_xdrOp so) end.
Definition handleHomeDomain (so : SetOptions) : res (option string) :=
  match so_HomeDomain so with
  | Some d => if Nat.ltb 32 (length (bytes_of d)) then Err "homeDomain must be 32 characters or less" else Ok (Some d)
  | None => Ok (x_HomeDomain (so_xdrOp so))
  end.
Definition handleSigner (so : SetOptions) : res (option xSigner) :=
  match so_Signer so with
  | Some sg => key ← SignerKey_SetAddress (sg_Address sg); Ok (Some (mkXSigner key (sg_Weight sg)))
  | None => Ok (x_Signer (so_xdrOp so))
  end.

Definition with_xdrOp (so : SetOptions) (x : xSetOptionsOp) : SetOptions :=
  mkSetOptions (so_InflationDestination so) (so_SetFlags so) (so_ClearFlags so) (so_MasterWeight so) (so_LowThreshold so)
    (so_MediumThreshold so) (so_HighThreshold so) (so_HomeDomain so) (so_Signer so) x (so_SourceAccount so).

Definition SetOptions_BuildXDR (so : SetOptions) : res (SetOptions * xOp) :=
  inflation ← wrap "failed to set inflation destination address" (handleInflation so);
  domain ← wrap "failed to set home domain" (handleHomeDomain so);
  signer ← wrap "failed to set signer" (handleSigner so);
  let x := mkXSetOptions inflation (handleClearFlags so) (handleSetFlags so) (handleMasterWeight so) (handleLowThreshold so)
             (handleMediumThreshold so) (handleHighThreshold so) domain signer in
  op ← build (so_SourceAccount so) (BSetOptions x);
  Ok (with_xdrOp so x, op).

Definition handleInflationXDR (account : option AccountId.t) : res (option string) :=
  match account with Some a => s ← AccountId.Address a; Ok (Some s) | None => Ok None end.

Definition handleSetFlagsXDR (flags : option Z) : list Z :=
  match flags with
  | Some flags => filter (fun f => Z.land f flags <> 0) accountFlags
  | None => []
  end.
Definition handleClearFlagsXDR (flags : option Z) : list Z := handleSetFlagsXDR flags.

(** A threshold is a uint8: the XDR value is truncated. *)
Definition handleThresholdXDR (weight : option Z) : option Z :=
  match weight with Some w => Some (to_uint8 w) | None => None end.

Definition handleSignerXDR (signer : option xSigner) : res (option Signer) :=
  match signer with
  | Some s => a ← SignerKey_Address (xKey s); Ok (Some (mkSigner a (to_uint8 (xWeight s))))
  | None => Ok None
  end.

Definition SetOptions_FromXDR (xdrOp : xOp) : res SetOptions :=
  match xdrOp.2 with
  | BSetOptions x =>
      src ← accountFromXDR xdrOp.1;
      inflation ← handleInflationXDR (x_InflationDest x);
      signer ← handleSignerXDR (x_Signer x);
      Ok (mkSetOptions inflation (handleSetFlagsXDR (x_SetFlags x)) (handleClearFlagsXDR (x_ClearFlags x))
            (handleThresholdXDR (x_MasterWeight x)) (handleThresholdXDR (x_LowThreshold x))
            (handleThresholdXDR (x_MedThreshold x)) (handleThresholdXDR (x_HighThreshold x)) (x_HomeDomain x)
            signer zero_xSetOptions src)
  | _ => Err "error parsing set_options operation from xdr"
  end.

Definition SetOptions_Validate (so : SetOptions) : res unit := Ok tt.

(** ** ChangeTrust, AllowTrust and SetTrustLineFlags *)

Record ChangeTrust := mkChangeTrust { ct_Line : option ChangeTrustAsset; ct_Limit : string; ct_SourceAccount : string }.

Definition MaxTrustlineLimit : string := Amount.StringFromInt64 MaxInt64.

Definition RemoveTrustlineOp (issuedAsset : option ChangeTrustAsset) : ChangeTrust := mkChangeTrust issuedAsset "0" EmptyString.

(** An omitted limit is filled in. *)
Definition default_limit (ct : ChangeTrust) : ChangeTrust :=
  if bool_decide (ct_Limit ct = EmptyString) then mkChangeTrust (ct_Line ct) MaxTrustlineLimit (ct_SourceAccount ct) else ct.

Definition ChangeTrust_BuildXDR `{XE : XdrEncoder} (ct : ChangeTrust) : res (ChangeTrust * xOp) :=
  line ← deref (ct_Line ct);
  native ← IsNative line;
  if (native : bool) then Err "trustline cannot be extended to a native (XLM) asset" else
  xdrLine ← wrap "can't convert trustline asset to XDR" (ChangeTrustAsset_ToXDR line);
  let ct := default_limit ct in
  xdrLimit ← wrap "failed to parse limit amount" (Amount.Parse (ct_Limit ct));
  op ← build (ct_SourceAccount ct) (BChangeTrust xdrLine xdrLimit);
  Ok (ct, op).

Definition ChangeTrust_FromXDR (xdrOp : xOp) : res ChangeTrust :=
  match xdrOp.2 with
  | BChangeTrust line limit =>
      src ← accountFromXDR xdrOp.1;
      asset ← wrap "error parsing asset in change_trust operation" (assetFromChangeTrustAssetXDR line);
      Ok (mkChangeTrust (Some asset) (Amount.String_ limit) src)
  | _ => Err "error parsing change_trust operation from xdr"
  end.

Definition ChangeTrust_Validate `{XE : XdrEncoder} (ct : ChangeTrust) : res unit :=
  _ ← (if bool_decide (ct_Limit ct = EmptyString) then Ok tt else in_field "Limit" (validateAmount (ct_Limit ct)));
  in_field "Line" (validateChangeTrustAsset (ct_Line ct)).

Definition TrustLineAuthorized : Z := 1.
Definition TrustLineAuthorizedToMaintainLiabilities : Z := 2.
Definition TrustLineClawbackEnabled : Z := 4.

Definition has_flag (flag e : Z) : bool := negb (Z.land e flag =? 0).
Definition IsAuthorized : Z -> bool := has_flag TrustLineAuthorized.
Definition IsAuthorizedToMaintainLiabilitiesFlag : Z -> bool := has_flag TrustLineAuthorizedToMaintainLiabilities.
Definition IsClawbackEnabledFlag : Z -> bool := has_flag TrustLineClawbackEnabled.

Record AllowTrust := mkAllowTrust {
  at_Trustor : string; at_Type : option Asset; at_Authorize : bool; at_AuthorizeToMaintainLiabilities : bool;
  at_ClawbackEnabled : bool; at_SourceAccount : string }.

Definition AllowTrust_BuildXDR (at_ : AllowTrust) : res xOp :=
  trustor ← wrap "failed to set trustor address" (AccountId.SetAddress (at_Trustor at_));
  asset ← deref (at_Type at_);
  native ← IsNative asset;
  if (native : bool) then Err "trustline doesn't exist for a native (XLM) asset" else
  code ← GetCode asset;
  xdrAsset ← wrap "can't convert asset for trustline to allow trust asset type" (ToAssetCode code);
  let authorize := if at_Authorize at_ then TrustLineAuthorized
                   else if at_AuthorizeToMaintainLiabilities at_ then TrustLineAuthorizedToMaintainLiabilities else 0 in
  build (at_SourceAccount at_) (BAllowTrust trustor xdrAsset authorize).

Definition AllowTrust_FromXDR (xdrOp : xOp) : res AllowTrust :=
  match xdrOp.2 with
  | BAllowTrust trustor code authorize =>
      src ← accountFromXDR xdrOp.1;
      address ← AccountId.Address trustor;
      let flag := to_int32 authorize in
      t ← wrap "error parsing allow_trust operation from xdr" (assetCodeToCreditAsset code);
      Ok (mkAllowTrust address (Some t) (IsAuthorized flag) (IsAuthorizedToMaintainLiabilitiesFlag flag) false src)
  | _ => Err "error parsing allow_trust operation from xdr"
  end.

Definition AllowTrust_Validate (at_ : AllowTrust) : res unit :=
  _ ← in_field "Trustor" (validateHcnetPublicKey (at_Trustor at_));
  in_field "Type" (validateAssetCode (at_Type at_)).

Record SetTrustLineFlags := mkSetTrustLineFlags {
  stf_Trustor : string; stf_Asset : option Asset; stf_SetFlags : list Z; stf_ClearFlags : list Z; stf_SourceAccount : string }.

Definition trustLineFlagsToXDR (flags : list Z) : Z := or_flags flags.

Definition fromXDRTrustlineFlag (flags : Z) : list Z :=
  let flagsValue := to_int32 flags in
  (if IsAuthorized flagsValue then [TrustLineAuthorized] else []) ++
  (if IsAuthorizedToMaintainLiabilitiesFlag flagsValue then [TrustLineAuthorizedToMaintainLiabilities] else []) ++
  (if IsClawbackEnabledFlag flagsValue then [TrustLineClawbackEnabled] else []).

Definition SetTrustLineFlags_BuildXDR (stf : SetTrustLineFlags) : res xOp :=
  trustor ← wrap "failed to set trustor address" (AccountId.SetAddress (stf_Trustor stf));
  asset ← deref (stf_Asset stf);
  native ← IsNative asset;
  if (native : bool) then Err "trustline doesn't exist for a native (XLM) asset" else
  xdrAsset ← wrap "can't convert asset to XDR" (Asset_ToXDR asset);
  build (stf_SourceAccount stf)
    (BSetTrustLineFlags trustor xdrAsset (trustLineFlagsToXDR (stf_ClearFlags stf)) (trustLineFlagsToXDR (stf_SetFlags stf))).

Definition SetTrustLineFlags_FromXDR (xdrOp : xOp) : res SetTrustLineFlags :=
  match xdrOp.2 with
  | BSetTrustLineFlags trustor a clear set =>
      src ← accountFromXDR xdrOp.1;
      address ← AccountId.Address trustor;
      asset ← wrap "error parsing asset from xdr" (assetFromXDR a);
      Ok (mkSetTrustLineFlags address (Some asset) (fromXDRTrustlineFlag set) (fromXDRTrustlineFlag clear) src)
  | _ => Err "error parsing allow_trust operation from xdr"
  end.

Definition SetTrustLineFlags_Validate (stf : SetTrustLineFlags) : res unit :=
  _ ← in_field "Trustor" (validateHcnetPublicKey (stf_Trustor stf));
  in_field "Asset" (validateAssetCode (stf_Asset stf)).

(** ** AccountMerge, Inflation and BumpSequence *)

Record AccountMerge := mkAccountMerge { am_Destination : string; am_SourceAccount : string }.

Definition AccountMerge_BuildXDR (am : AccountMerge) : res xOp :=
  xdrOp ← wrap "failed to set destination address" (Muxed.SetAddress (am_Destination am));
  build (am_SourceAccount am) (BAccountMerge xdrOp).

Definition AccountMerge_FromXDR (xdrOp : xOp) : res AccountMerge :=
  match xdrOp.2 with
  | BAccountMerge d => src ← accountFromXDR xdrOp.1; address ← Muxed.Address d; Ok (mkAccountMerge address src)
  | _ => Err "error parsing account_merge operation from xdr"
  end.

Definition AccountMerge_Validate (am : AccountMerge) : res unit :=
  _ ← in_field "Destination" (AddressToMuxedAccount (am_Destination am)); Ok tt.

Record Inflation := mkInflation { inf_SourceAccount : string }.

Definition Inflation_BuildXDR (inf : Inflation) : res xOp := build (inf_SourceAccount inf) BInflation.

Definition Inflation_FromXDR (xdrOp : xOp) : res Inflation :=
  match xdrOp.2 with
  | BInflation => src ← accountFromXDR xdrOp.1; Ok (mkInflation src)
  | _ => Err "error parsing inflation operation from xdr"
  end.

Record BumpSequence := mkBumpSequence { bs_BumpTo : Z; bs_SourceAccount : string }.

Definition BumpSequence_BuildXDR (bs : BumpSequence) : res xOp := build (bs_SourceAccount bs) (BBumpSequence (bs_BumpTo bs)).

Definition BumpSequence_FromXDR (xdrOp : xOp) : res BumpSequence :=
  match xdrOp.2 with
  | BBumpSequence n => src ← accountFromXDR xdrOp.1; Ok (mkBumpSequence n src)
  | _ => Err "error parsing bump_sequence operation from xdr"
  end.

Definition BumpSequence_Validate (bs : BumpSequence) : res unit := in_field "BumpTo" (validateAmount64 (bs_BumpTo bs)).

(** ** Claimable balances *)

Record Claimant := mkClaimant { cl_Destination : string; cl_Predicate : ClaimPredicate }.

Definition NewClaimant (destination : string) (predicate : option ClaimPredicate) : Claimant :=
  mkClaimant destination (default Unconditional predicate).
Definition AndPredicate (left right : ClaimPredicate) : ClaimPredicate := And [left; right].
Definition OrPredicate (left right : ClaimPredicate) : ClaimPredicate := Or [left; right].
Definition NotPredicate (pred : ClaimPredicate) : ClaimPredicate := Not (Some pred).
Definition BeforeAbsoluteTimePredicate (epochSeconds : Z) : ClaimPredicate := BeforeAbsoluteTime epochSeconds.
Definition BeforeRelativeTimePredicate (secondsBefore : Z) : ClaimPredicate := BeforeRelativeTime secondsBefore.

Record CreateClaimableBalance := mkCreateClaimableBalance {
  ccb_Amount : string; ccb_Asset : option Asset; ccb_Destinations : list Claimant; ccb_SourceAccount : string }.

Fixpoint claimants_BuildXDR (l : list Claimant) : res (list xClaimant) :=
  match l with
  | [] => Ok []
  | d :: l =>
      a ← wrap "failed to set destination address" (AccountId.SetAddress (cl_Destination d));
      l' ← claimants_BuildXDR l;
      Ok (mkXClaimant a (cl_Predicate d) :: l')
  end.

Definition CreateClaimableBalance_BuildXDR (cb : CreateClaimableBalance) : res xOp :=
  asset ← deref (ccb_Asset cb);
  xdrAsset ← wrap "failed to set XDR 'Asset' field" (Asset_ToXDR asset);
  xdrAmount ← wrap "failed to parse 'Amount'" (Amount.Parse (ccb_Amount cb));
  claimants ← claimants_BuildXDR (ccb_Destinations cb);
  build (ccb_SourceAccount cb) (BCreateClaimableBalance xdrAsset xdrAmount claimants).

Fixpoint claimants_FromXDR (l : list xClaimant) : res (list Claimant) :=
  match l with
  | [] => Ok []
  | c :: l =>
      address ← AccountId.Address (V0_Destination c);
      l' ← claimants_FromXDR l;
      Ok (mkClaimant address (V0_Predicate c) :: l')
  end.

Definition CreateClaimableBalance_FromXDR (xdrOp : xOp) : res CreateClaimableBalance :=
  match xdrOp.2 with
  | BCreateClaimableBalance a n claimants =>
      src ← accountFromXDR xdrOp.1;
      destinations ← claimants_FromXDR claimants;
      asset ← wrap "error parsing asset in create_claimable_balance operation" (assetFromXDR a);
      Ok (mkCreateClaimableBalance (Amount.String_ n) (Some asset) destinations src)
  | _ => Err "error parsing create_claimable_balance operation from xdr"
  end.

Fixpoint claimants_Validate (l : list Claimant) : res unit :=
  match l with
  | [] => Ok tt
  | d :: l => _ ← in_field "Destinations" (validateHcnetPublicKey (cl_Destination d)); claimants_Validate l
  end.

Definition CreateClaimableBalance_Validate (cb : CreateClaimableBalance) : res unit :=
  _ ← claimants_Validate (ccb_Destinations cb);
  _ ← in_field "Amount" (validateAmount (ccb_Amount cb));
  in_field "Asset" (validateHcnetAsset (ccb_Asset cb)).

Record ClaimClaimableBalance := mkClaimClaimableBalance { clb_BalanceID : string; clb_SourceAccount : string }.

Definition ClaimClaimableBalance_BuildXDR (cb : ClaimClaimableBalance) : res xOp :=
  id ← wrap "failed to set XDR 'ClaimableBalanceId' field" (SafeUnmarshalHex (clb_BalanceID cb));
  build (clb_SourceAccount cb) (BClaimClaimableBalance id).

Definition ClaimClaimableBalance_FromXDR (xdrOp : xOp) : res ClaimClaimableBalance :=
  match xdrOp.2 with
  | BClaimClaimableBalance id =>
      src ← accountFromXDR xdrOp.1; Ok (mkClaimClaimableBalance (ClaimableBalanceId_MarshalHex id) src)
  | _ => Err "error parsing claim_claimable_balance operation from xdr"
  end.

Definition ClaimClaimableBalance_Validate (cb : ClaimClaimableBalance) : res unit :=
  _ ← in_field "BalanceID" (SafeUnmarshalHex (clb_BalanceID cb)); Ok tt.

Record ClawbackClaimableBalance := mkClawbackClaimableBalance { cwb_BalanceID : string; cwb_SourceAccount : string }.

Definition ClawbackClaimableBalance_BuildXDR (cb : ClawbackClaimableBalance) : res xOp :=
  id ← wrap "failed to set XDR 'ClaimableBalanceId' field" (SafeUnmarshalHex (cwb_BalanceID cb));
  build (cwb_SourceAccount cb) (BClawbackClaimableBalance id).

Definition ClawbackClaimableBalance_FromXDR (xdrOp : xOp) : res ClawbackClaimableBalance :=
  match xdrOp.2 with
  | BClawbackClaimableBalance id =>
      src ← accountFromXDR xdrOp.1; Ok (mkClawbackClaimableBalance (ClaimableBalanceId_MarshalHex id) src)
  | _ => Err "error parsing clawback_claimable_balance operation from xdr"
  end.

Definition ClawbackClaimableBalance_Validate (cb : ClawbackClaimableBalance) : res unit :=
  _ ← in_field "BalanceID" (SafeUnmarshalHex (cwb_BalanceID cb)); Ok tt.

Record Clawback := mkClawback { cw_From : string; cw_Amount : string; cw_Asset : option Asset; cw_SourceAccount : string }.

Definition Clawback_BuildXDR (cb : Clawback) : res xOp :=
  from ← wrap "failed to set from address" (Muxed.SetAddress (cw_From cb));
  match cw_Asset cb with
  | None => Err "you must specify an asset for the clawback"
  | Some asset =>
      native ← IsNative asset;
      if (native : bool) then Err "clawbacks don't support the native (XLM) asset" else
      xdrAmount ← wrap "failed to parse amount" (Amount.Parse (cw_Amount cb));
      xdrAsset ← wrap "can't convert asset to XDR" (Asset_ToXDR asset);
      build (cw_SourceAccount cb) (BClawback xdrAsset from xdrAmount)
  end.

Definition Clawback_FromXDR (xdrOp : xOp) : res Clawback :=
  match xdrOp.2 with
  | BClawback a f n =>
      src ← accountFromXDR xdrOp.1;
      from ← accountFromXDR (Some f);
      asset ← wrap "error parsing clawback operation from XDR" (assetFromXDR a);
      Ok (mkClawback from (Amount.String_ n) (Some asset) src)
  | _ => Err "error parsing clawback operation from xdr"
  end.

Definition Clawback_Validate (cb : Clawback) : res unit :=
  _ ← in_field "From" (AddressToMuxedAccount (cw_From cb));
  _ ← in_field "Amount" (validateAmount (cw_Amount cb));
  in_field "Asset" (validateAssetCode (cw_Asset cb)).

(** ** Sponsorship *)

Record BeginSponsoringFutureReserves := mkBeginSponsoring { bsf_SponsoredID : string; bsf_SourceAccount : string }.

Definition BeginSponsoringFutureReserves_BuildXDR (bs : BeginSponsoringFutureReserves) : res xOp :=
  id ← wrap "failed to set sponsored id address" (AccountId.SetAddress (bsf_SponsoredID bs));
  build (bsf_SourceAccount bs) (BBeginSponsoringFutureReserves id).

Definition BeginSponsoringFutureReserves_FromXDR (xdrOp : xOp) : res BeginSponsoringFutureReserves :=
  match xdrOp.2 with
  | BBeginSponsoringFutureReserves id =>
      src ← accountFromXDR xdrOp.1; address ← AccountId.Address id; Ok (mkBeginSponsoring address src)
  | _ => Err "error parsing begin_sponsoring_future_reserves operation from xdr"
  end.

Definition BeginSponsoringFutureReserves_Validate (bs : BeginSponsoringFutureReserves) : res unit :=
  in_field "SponsoredID" (validateHcnetPublicKey (bsf_SponsoredID bs)).

Record EndSponsoringFutureReserves := mkEndSponsoring { esf_SourceAccount : string }.

Definition EndSponsoringFutureReserves_BuildXDR (es : EndSponsoringFutureReserves) : res xOp :=
  build (esf_SourceAccount es) BEndSponsoringFutureReserves.

Definition EndSponsoringFutureReserves_FromXDR (xdrOp : xOp) : res EndSponsoringFutureReserves :=
  match xdrOp.2 with
  | BEndSponsoringFutureReserves => src ← accountFromXDR xdrOp.1; Ok (mkEndSponsoring src)
  | _ => Err "error parsing end_sponsoring_future_reserves operation from xdr"
  end.

Definition RevokeSponsorshipTypeAccount : Z := 1.
Definition RevokeSponsorshipTypeTrustLine : Z := 2.
Definition RevokeSponsorshipTypeOffer : Z := 3.
Definition RevokeSponsorshipTypeData : Z := 4.
Definition RevokeSponsorshipTypeClaimableBalance : Z := 5.
Definition RevokeSponsorshipTypeSigner : Z := 6.

Record TrustLineID := mkTrustLineID { tl_Account : string; tl_Asset : option TxAssets.TrustLineAsset }.
Record OfferID := mkOfferID { SellerAccountAddress : string; of_OfferID : Z }.
Record DataID := mkDataID { da_Account : string; da_DataName : string }.
Record SignerID := mkSignerID { si_AccountID : string; si_SignerAddress : string }.

Record RevokeSponsorship := mkRevokeSponsorship {
  rs_SourceAccount : string;
  rs_SponsorshipType : Z;
  rs_Account : option string;
  rs_TrustLine : option TrustLineID;
  rs_Offer : option OfferID;
  rs_Data : option DataID;
  rs_ClaimableBalance : option string;
  rs_Signer : option SignerID
}.

(** A pointer that must not be nil. *)
Definition require {A} (msg : string) (x : option A) : res A := match x with Some a => Ok a | None => Err msg end.

Definition RevokeSponsorship_BuildXDR (r : RevokeSponsorship) : res xOp :=
  let t := rs_SponsorshipType r in
  xdrOp ←
    (if t =? RevokeSponsorshipTypeAccount then
       a ← require "Account can't be nil" (rs_Account r);
       id ← wrap "incorrect Account address" (AccountId.SetAddress a);
       Ok (RevokeLedgerEntry (KAccount id))
     else if t =? RevokeSponsorshipTypeTrustLine then
       l ← require "TrustLine can't be nil" (rs_TrustLine r);
       id ← wrap "incorrect Account address" (AccountId.SetAddress (tl_Account l));
       asset ← deref (tl_Asset l);
       x ← wrap "incorrect TrustLine asset" (TrustLineAsset_ToXDR asset);
       Ok (RevokeLedgerEntry (KTrustLine id x))
     else if t =? RevokeSponsorshipTypeOffer then
       o ← require "Offer can't be nil" (rs_Offer r);
       id ← wrap "incorrect Seller account address" (AccountId.SetAddress (SellerAccountAddress o));
       Ok (RevokeLedgerEntry (KOffer id (of_OfferID o)))
     else if t =? RevokeSponsorshipTypeData then
       d ← require "Data can't be nil" (rs_Data r);
       id ← wrap "incorrect Account address" (AccountId.SetAddress (da_Account d));
       Ok (RevokeLedgerEntry (KData id (bytes_of (da_DataName d))))
     else if t =? RevokeSponsorshipTypeClaimableBalance then
       b ← require "ClaimableBalance can't be nil" (rs_ClaimableBalance r);
       id ← wrap "cannot parse ClaimableBalance" (SafeUnmarshalHex b);
       Ok (RevokeLedgerEntry (KClaimableBalance id))
     else if t =? RevokeSponsorshipTypeSigner then
       s ← require "Signer can't be nil" (rs_Signer r);
       id ← wrap "incorrect Account address" (AccountId.SetAddress (si_AccountID s));
       key ← wrap "incorrect Signer account address" (SignerKey_SetAddress (si_SignerAddress s));
       Ok (RevokeSigner id key)
     else Err "unknown SponsorshipType");
  build (rs_SourceAccount r) (BRevokeSponsorship xdrOp).

Definition RevokeSponsorship_FromXDR (xdrOp : xOp) : res RevokeSponsorship :=
  src ← accountFromXDR xdrOp.1;
  match xdrOp.2 with
  | BRevokeSponsorship (RevokeLedgerEntry (KAccount id)) =>
      a ← AccountId.Address id;
      Ok (mkRevokeSponsorship src RevokeSponsorshipTypeAccount (Some a) None None None None None)
  | BRevokeSponsorship (RevokeLedgerEntry (KTrustLine id x)) =>
      a ← AccountId.Address id;
      asset ← wrap "error parsing Trustline Asset" (assetFromTrustLineAssetXDR x);
      Ok (mkRevokeSponsorship src RevokeSponsorshipTypeTrustLine None (Some (mkTrustLineID a (Some asset))) None None None None)
  | BRevokeSponsorship (RevokeLedgerEntry (KOffer id n)) =>
      a ← AccountId.Address id;
      Ok (mkRevokeSponsorship src RevokeSponsorshipTypeOffer None None (Some (mkOfferID a n)) None None None)
  | BRevokeSponsorship (RevokeLedgerEntry (KData id n)) =>
      a ← AccountId.Address id;
      Ok (mkRevokeSponsorship src RevokeSponsorshipTypeData None None None (Some (mkDataID a (string_of n))) None None)
  | BRevokeSponsorship (RevokeLedgerEntry (KClaimableBalance id)) =>
      Ok (mkRevokeSponsorship src RevokeSponsorshipTypeClaimableBalance None None None None
            (Some (ClaimableBalanceId_MarshalHex id)) None)
  | BRevokeSponsorship (RevokeLedgerEntry _) => Err "unexpected LedgerEntryType"
  | BRevokeSponsorship (RevokeSigner id key) =>
      a ← AccountId.Address id;
      s ← SignerKey_Address key;
      Ok (mkRevokeSponsorship src RevokeSponsorshipTypeSigner None None None None None (Some (mkSignerID a s)))
  | _ => Err "error parsing revoke_sponsorship operation from xdr"
  end.

Definition RevokeSponsorship_Validate (r : RevokeSponsorship) : res unit :=
  let t := rs_SponsorshipType r in
  if t =? RevokeSponsorshipTypeAccount then
    a ← require "Account can't be nil" (rs_Account r); validateHcnetPublicKey a
  else if t =? RevokeSponsorshipTypeTrustLine then
    l ← require "Trustline can't be nil" (rs_TrustLine r);
    _ ← wrap "invalid Account address" (validateHcnetPublicKey (tl_Account l));
    wrap "invalid TrustLine asset" (validateHcnetAsset (tl_Asset l))
  else if t =? RevokeSponsorshipTypeOffer then
    o ← require "Offer can't be nil" (rs_Offer r);
    _ ← wrap "invalid Seller account address" (validateHcnetPublicKey (SellerAccountAddress o));
    validateHcnetPublicKey (SellerAccountAddress o)
  else if t =? RevokeSponsorshipTypeData then
    d ← require "Data can't be nil" (rs_Data r);
    wrap "invalid Account address" (validateHcnetPublicKey (da_Account d))
  else if t =? RevokeSponsorshipTypeClaimableBalance then
    b ← require "ClaimableBalance can't be nil" (rs_ClaimableBalance r);
    _ ← wrap "cannot parse ClaimableBalance" (SafeUnmarshalHex b); Ok tt
  else if t =? RevokeSponsorshipTypeSigner then
    s ← require "Signer can't be nil" (rs_Signer r);
    _ ← wrap "invalid Account address" (validateHcnetPublicKey (si_AccountID s));
    wrap "invalid Signer account address" (validateHcnetSignerKey (si_SignerAddress s))
  else Err "unknown SponsorshipType".

(** ** Liquidity pools *)

Record AssetAmount := mkAssetAmount { aa_Asset : option Asset; aa_Amount : string }.

Record LiquidityPoolDeposit := mkLiquidityPoolDeposit {
  lpd_SourceAccount : string; lpd_LiquidityPoolID : list Z; lpd_MaxAmountA : string; lpd_MaxAmountB : string;
  lpd_MinPrice : Price.t; lpd_MaxPrice : Price.t }.

(** The pool of two assets given in order. *)
Definition ordered_pool_id `{XE : XdrEncoder} (sha256 : list Z -> list Z) (a b : AssetAmount) : res (list Z) :=
  b' ← deref (aa_Asset b);
  lt ← Asset_LessThan b' (aa_Asset a);
  if (lt : bool) then Err "AssetA must be <= AssetB" else NewLiquidityPoolId sha256 (aa_Asset a) (aa_Asset b).

Definition NewLiquidityPoolDeposit `{XE : XdrEncoder} (sha256 : list Z -> list Z) (sourceAccount : string)
    (a b : AssetAmount) (minPrice maxPrice : Price.t) : res LiquidityPoolDeposit :=
  poolId ← ordered_pool_id sha256 a b;
  Ok (mkLiquidityPoolDeposit sourceAccount poolId (aa_Amount a) (aa_Amount b) minPrice maxPrice).

Definition LiquidityPoolDeposit_BuildXDR (lpd : LiquidityPoolDeposit) : res xOp :=
  xdrMaxAmountA ← wrap "failed to parse 'MaxAmountA'" (Amount.Parse (lpd_MaxAmountA lpd));
  xdrMaxAmountB ← wrap "failed to parse 'MaxAmountB'" (Amount.Parse (lpd_MaxAmountB lpd));
  build (lpd_SourceAccount lpd)
    (BLiquidityPoolDeposit (lpd_LiquidityPoolID lpd) xdrMaxAmountA xdrMaxAmountB (lpd_MinPrice lpd) (lpd_MaxPrice lpd)).

(** A zero price is the zero value of the receiver already. *)
Definition LiquidityPoolDeposit_FromXDR (xdrOp : xOp) : res LiquidityPoolDeposit :=
  match xdrOp.2 with
  | BLiquidityPoolDeposit id a b lo hi =>
      src ← accountFromXDR xdrOp.1;
      let zero := Price.mk 0 0 in
      Ok (mkLiquidityPoolDeposit src id (Amount.String_ a) (Amount.String_ b)
            (if bool_decide (lo = zero) then zero else lo) (if bool_decide (hi = zero) then zero else hi))
  | _ => Err "error parsing liquidity_pool_deposit operation from xdr"
  end.

Definition LiquidityPoolDeposit_Validate (lpd : LiquidityPoolDeposit) : res unit :=
  _ ← in_field "MaxAmountA" (validateAmount (lpd_MaxAmountA lpd));
  _ ← in_field "MaxAmountB" (validateAmount (lpd_MaxAmountB lpd));
  _ ← in_field "MinPrice" (validatePrice (lpd_MinPrice lpd));
  in_field "MaxPrice" (validatePrice (lpd_MaxPrice lpd)).

Record LiquidityPoolWithdraw := mkLiquidityPoolWithdraw {
  lpw_SourceAccount : string; lpw_LiquidityPoolID : list Z; lpw_Amount : string; lpw_MinAmountA : string; lpw_MinAmountB : string }.

Definition NewLiquidityPoolWithdraw `{XE : XdrEncoder} (sha256 : list Z -> list Z) (sourceAccount : string)
    (a b : AssetAmount) (amount : string) : res LiquidityPoolWithdraw :=
  poolId ← ordered_pool_id sha256 a b;
  Ok (mkLiquidityPoolWithdraw sourceAccount poolId amount (aa_Amount a) (aa_Amount b)).

Definition LiquidityPoolWithdraw_BuildXDR (lpd : LiquidityPoolWithdraw) : res xOp :=
  xdrAmount ← wrap "failed to parse 'Amount'" (Amount.Parse (lpw_Amount lpd));
  xdrMinAmountA ← wrap "failed to parse 'MinAmountA'" (Amount.Parse (lpw_MinAmountA lpd));
  xdrMinAmountB ← wrap "failed to parse 'MinAmountB'" (Amount.Parse (lpw_MinAmountB lpd));
  build (lpw_SourceAccount lpd) (BLiquidityPoolWithdraw (lpw_LiquidityPoolID lpd) xdrAmount xdrMinAmountA xdrMinAmountB).

Definition LiquidityPoolWithdraw_FromXDR (xdrOp : xOp) : res LiquidityPoolWithdraw :=
  match xdrOp.2 with
  | BLiquidityPoolWithdraw id n a b =>
      src ← accountFromXDR xdrOp.1;
      Ok (mkLiquidityPoolWithdraw src id (Amount.String_ n) (Amount.String_ a) (Amount.String_ b))
  | _ => Err "error parsing liquidity_pool_withdraw operation from xdr"
  end.

Definition LiquidityPoolWithdraw_Validate (lpd : LiquidityPoolWithdraw) : res unit :=
  _ ← in_field "Amount" (validateAmount (lpw_Amount lpd));
  _ ← in_field "MinAmountA" (validateAmount (lpw_MinAmountA lpd));
  in_field "MinAmountB" (validateAmount (lpw_MinAmountB lpd)).

(** ** Smart contract operations *)

Definition validate_source (sourceAccount : string) : res unit :=
  if bool_decide (sourceAccount = EmptyString) then Ok tt
  else _ ← in_field "SourceAccount" (AddressToMuxedAccount sourceAccount); Ok tt.

Record InvokeHostFunction := mkInvokeHostFunction {
  ihf_HostFunction : HostFunction; ihf_Auth : list SorobanAuthorizationEntry; ihf_SourceAccount : string; ihf_Ext : TransactionExt }.

Definition InvokeHostFunction_BuildXDR (f : InvokeHostFunction) : res xOp :=
  build (ihf_SourceAccount f) (BInvokeHostFunction (ihf_HostFunction f) (ihf_Auth f)).

Definition InvokeHostFunction_FromXDR (xdrOp : xOp) : res InvokeHostFunction :=
  match xdrOp.2 with
  | BInvokeHostFunction fn auth => src ← accountFromXDR xdrOp.1; Ok (mkInvokeHostFunction fn auth src ExtV0)
  | _ => Err "error parsing invoke host function operation from xdr"
  end.

Definition InvokeHostFunction_Validate (f : InvokeHostFunction) : res unit := validate_source (ihf_SourceAccount f).

Record ExtendFootprintTtl := mkExtendFootprintTtl { eft_ExtendTo : Z; eft_SourceAccount : string; eft_Ext : TransactionExt }.

Definition ExtendFootprintTtl_BuildXDR (f : ExtendFootprintTtl) : res xOp :=
  build (eft_SourceAccount f) (BExtendFootprintTtl (eft_ExtendTo f)).

Definition ExtendFootprintTtl_FromXDR (xdrOp : xOp) : res ExtendFootprintTtl :=
  match xdrOp.2 with
  | BExtendFootprintTtl n => src ← accountFromXDR xdrOp.1; Ok (mkExtendFootprintTtl n src ExtV0)
  | _ => Err "error parsing invoke host function operation from xdr"
  end.

Definition ExtendFootprintTtl_Validate (f : ExtendFootprintTtl) : res unit := validate_source (eft_SourceAccount f).

Record RestoreFootprint := mkRestoreFootprint { rf_SourceAccount : string; rf_Ext : TransactionExt }.

Definition RestoreFootprint_BuildXDR (f : RestoreFootprint) : res xOp := build (rf_SourceAccount f) BRestoreFootprint.

Definition RestoreFootprint_FromXDR (xdrOp : xOp) : res RestoreFootprint :=
  match xdrOp.2 with
  | BRestoreFootprint => src ← accountFromXDR xdrOp.1; Ok (mkRestoreFootprint src ExtV0)
  | _ => Err "error parsing invoke host function operation from xdr"
  end.

Definition RestoreFootprint_Validate (f : RestoreFootprint) : res unit := validate_source (rf_SourceAccount f).

(** ** The interface Operation *)

Inductive Op :=
| OCreateAccount (op : CreateAccount)
| OPayment (op : Payment)
| OPathPaymentStrictReceive (op : PathPaymentStrictReceive)
| OManageSellOffer (op : ManageSellOffer)
| OCreatePassiveSellOffer (op : CreatePassiveSellOffer)
| OSetOptions (op : SetOptions)
| OChangeTrust (op : ChangeTrust)
| OAllowTrust (op : AllowTrust)
| OAccountMerge (op : AccountMerge)
| OInflation (op : Inflation)
| OBumpSequence (op : BumpSequence)
| OManageBuyOffer (op : ManageBuyOffer)
| OPathPaymentStrictSend (op : PathPaymentStrictSend)
| OCreateClaimableBalance (op : CreateClaimableBalance)
| OClaimClaimableBalance (op : ClaimClaimableBalance)
| OBeginSponsoringFutureReserves (op : BeginSponsoringFutureReserves)
| OEndSponsoringFutureReserves (op : EndSponsoringFutureReserves)
| ORevokeSponsorship (op : RevokeSponsorship)
| OClawback (op : Clawback)
| OClawbackClaimableBalance (op : ClawbackClaimableBalance)
| OSetTrustLineFlags (op : SetTrustLineFlags)
| OLiquidityPoolDeposit (op : LiquidityPoolDeposit)
| OLiquidityPoolWithdraw (op : LiquidityPoolWithdraw)
| OInvokeHostFunction (op : InvokeHostFunction)
| OExtendFootprintTtl (op : ExtendFootprintTtl)
| ORestoreFootprint (op : RestoreFootprint).

Definition Op_Validate `{XE : XdrEncoder} (o : Op) : res unit :=
  match o with
  | OCreateAccount op => CreateAccount_Validate op
  | OPayment op => Payment_Validate op
  | OPathPaymentStrictReceive op => PathPaymentStrictReceive_Validate op
  | OManageSellOffer op => ManageSellOffer_Validate op
  | OCreatePassiveSellOffer op => CreatePassiveSellOffer_Validate op
  | OSetOptions op => SetOptions_Validate op
  | OChangeTrust op => ChangeTrust_Validate op
  | OAllowTrust op => AllowTrust_Validate op
  | OAccountMerge op => AccountMerge_Validate op
  | OInflation _ => Ok tt
  | OBumpSequence op => BumpSequence_Validate op
  | OManageBuyOffer op => ManageBuyOffer_Validate op
  | OPathPaymentStrictSend op => PathPaymentStrictSend_Validate op
  | OCreateClaimableBalance op => CreateClaimableBalance_Validate op
  | OClaimClaimableBalance op => ClaimClaimableBalance_Validate op
  | OBeginSponsoringFutureReserves op => BeginSponsoringFutureReserves_Validate op
  | OEndSponsoringFutureReserves _ => Ok tt
  | ORevokeSponsorship op => RevokeSponsorship_Validate op
  | OClawback op => Clawback_Validate op
  | OClawbackClaimableBalance op => ClawbackClaimableBalance_Validate op
  | OSetTrustLineFlags op => SetTrustLineFlags_Validate op
  | OLiquidityPoolDeposit op => LiquidityPoolDeposit_Validate op
  | OLiquidityPoolWithdraw op => LiquidityPoolWithdraw_Validate op
  | OInvokeHostFunction op => InvokeHostFunction_Validate op
  | OExtendFootprintTtl op => ExtendFootprintTtl_Validate op
  | ORestoreFootprint op => RestoreFootprint_Validate op
  end.

Definition Op_BuildXDR `{XE : XdrEncoder} (o : Op) : res (Op * xOp) :=
  match o with
  | OCreateAccount op => x ← CreateAccount_BuildXDR op; Ok (o, x)
  | OPayment op => x ← Payment_BuildXDR op; Ok (o, x)
  | OPathPaymentStrictReceive op => x ← PathPaymentStrictReceive_BuildXDR op; Ok (o, x)
  | OManageSellOffer op => x ← ManageSellOffer_BuildXDR op; Ok (o, x)
  | OCreatePassiveSellOffer op => x ← CreatePassiveSellOffer_BuildXDR op; Ok (o, x)
  | OSetOptions op => '(op, x) ← SetOptions_BuildXDR op; Ok (OSetOptions op, x)
  | OChangeTrust op => '(op, x) ← ChangeTrust_BuildXDR op; Ok (OChangeTrust op, x)
  | OAllowTrust op => x ← AllowTrust_BuildXDR op; Ok (o, x)
  | OAccountMerge op => x ← AccountMerge_BuildXDR op; Ok (o, x)
  | OInflation op => x ← Inflation_BuildXDR op; Ok (o, x)
  | OBumpSequence op => x ← BumpSequence_BuildXDR op; Ok (o, x)
  | OManageBuyOffer op => x ← ManageBuyOffer_BuildXDR op; Ok (o, x)
  | OPathPaymentStrictSend op => x ← PathPaymentStrictSend_BuildXDR op; Ok (o, x)
  | OCreateClaimableBalance op => x ← CreateClaimableBalance_BuildXDR op; Ok (o, x)
  | OClaimClaimableBalance op => x ← ClaimClaimableBalance_BuildXDR op; Ok (o, x)
  | OBeginSponsoringFutureReserves op => x ← BeginSponsoringFutureReserves_BuildXDR op; Ok (o, x)
  | OEndSponsoringFutureReserves op => x ← EndSponsoringFutureReserves_BuildXDR op; Ok (o, x)
  | ORevokeSponsorship op => x ← RevokeSponsorship_BuildXDR op; Ok (o, x)
  | OClawback op => x ← Clawback_BuildXDR op; Ok (o, x)
  | OClawbackClaimableBalance op => x ← ClawbackClaimableBalance_BuildXDR op; Ok (o, x)
  | OSetTrustLineFlags op => x ← SetTrustLineFlags_BuildXDR op; Ok (o, x)
  | OLiquidityPoolDeposit op => x ← LiquidityPoolDeposit_BuildXDR op; Ok (o, x)
  | OLiquidityPoolWithdraw op => x ← LiquidityPoolWithdraw_BuildXDR op; Ok (o, x)
  | OInvokeHostFunction op => x ← InvokeHostFunction_BuildXDR op; Ok (o, x)
  | OExtendFootprintTtl op => x ← ExtendFootprintTtl_BuildXDR op; Ok (o, x)
  | ORestoreFootprint op => x ← RestoreFootprint_BuildXDR op; Ok (o, x)
  end.

(** [operationFromXDR] picks the struct by the type of the body. *)
Definition Op_FromXDR (xdrOp : xOp) : res Op :=
  match xdrOp.2 with
  | BCreateAccount _ _ => op ← CreateAccount_FromXDR xdrOp; Ok (OCreateAccount op)
  | BPayment _ _ _ => op ← Payment_FromXDR xdrOp; Ok (OPayment op)
  | BPathPaymentStrictReceive _ _ _ _ _ _ => op ← PathPaymentStrictReceive_FromXDR xdrOp; Ok (OPathPaymentStrictReceive op)
  | BManageSellOffer _ _ _ _ _ => op ← ManageSellOffer_FromXDR xdrOp; Ok (OManageSellOffer op)
  | BCreatePassiveSellOffer _ _ _ _ => op ← CreatePassiveSellOffer_FromXDR xdrOp; Ok (OCreatePassiveSellOffer op)
  | BSetOptions _ => op ← SetOptions_FromXDR xdrOp; Ok (OSetOptions op)
  | BChangeTrust _ _ => op ← ChangeTrust_FromXDR xdrOp; Ok (OChangeTrust op)
  | BAllowTrust _ _ _ => op ← AllowTrust_FromXDR xdrOp; Ok (OAllowTrust op)
  | BAccountMerge _ => op ← AccountMerge_FromXDR xdrOp; Ok (OAccountMerge op)
  | BInflation => op ← Inflation_FromXDR xdrOp; Ok (OInflation op)
  | BBumpSequence _ => op ← BumpSequence_FromXDR xdrOp; Ok (OBumpSequence op)
  | BManageBuyOffer _ _ _ _ _ => op ← ManageBuyOffer_FromXDR xdrOp; Ok (OManageBuyOffer op)
  | BPathPaymentStrictSend _ _ _ _ _ _ => op ← PathPaymentStrictSend_FromXDR xdrOp; Ok (OPathPaymentStrictSend op)
  | BCreateClaimableBalance _ _ _ => op ← CreateClaimableBalance_FromXDR xdrOp; Ok (OCreateClaimableBalance op)
  | BClaimClaimableBalance _ => op ← ClaimClaimableBalance_FromXDR xdrOp; Ok (OClaimClaimableBalance op)
  | BBeginSponsoringFutureReserves _ => op ← BeginSponsoringFutureReserves_FromXDR xdrOp; Ok (OBeginSponsoringFutureReserves op)
  | BEndSponsoringFutureReserves => op ← EndSponsoringFutureReserves_FromXDR xdrOp; Ok (OEndSponsoringFutureReserves op)
  | BRevokeSponsorship _ => op ← RevokeSponsorship_FromXDR xdrOp; Ok (ORevokeSponsorship op)
  | BClawback _ _ _ => op ← Clawback_FromXDR xdrOp; Ok (OClawback op)
  | BClawbackClaimableBalance _ => op ← ClawbackClaimableBalance_FromXDR xdrOp; Ok (OClawbackClaimableBalance op)
  | BSetTrustLineFlags _ _ _ _ => op ← SetTrustLineFlags_FromXDR xdrOp; Ok (OSetTrustLineFlags op)
  | BLiquidityPoolDeposit _ _ _ _ _ => op ← LiquidityPoolDeposit_FromXDR xdrOp; Ok (OLiquidityPoolDeposit op)
  | BLiquidityPoolWithdraw _ _ _ _ => op ← LiquidityPoolWithdraw_FromXDR xdrOp; Ok (OLiquidityPoolWithdraw op)
  | BInvokeHostFunction _ _ => op ← InvokeHostFunction_FromXDR xdrOp; Ok (OInvokeHostFunction op)
  | BExtendFootprintTtl _ => op ← ExtendFootprintTtl_FromXDR xdrOp; Ok (OExtendFootprintTtl op)
  | BRestoreFootprint => op ← RestoreFootprint_FromXDR xdrOp; Ok (ORestoreFootprint op)
  end.

Definition Op_BuildTransactionExt (o : Op) : option (res TransactionExt) :=
  match o with
  | OInvokeHostFunction f => Some (Ok (ihf_Ext f))
  | OExtendFootprintTtl f => Some (Ok (eft_Ext f))
  | ORestoreFootprint f => Some (Ok (rf_Ext f))
  | _ => None
  end.

(** Parsing a transaction with an extension stores it in an InvokeHostFunction. *)
Definition Op_SetExt (ext : TransactionExt) (o : Op) : Op :=
  match o with
  | OInvokeHostFunction f => OInvokeHostFunction (mkInvokeHostFunction (ihf_HostFunction f) (ihf_Auth f) (ihf_SourceAccount f) ext)
  | _ => o
  end.

(** The exported fields: without the XDR operation that SetOptions keeps. *)
Definition Op_public (o : Op) : Op :=
  match o with OSetOptions so => OSetOptions (with_xdrOp so zero_xSetOptions) | _ => o end.

Definition TransactionExt_V (ext : TransactionExt) : Z := match ext with ExtV0 => 0 | ExtV1 _ => 1 end.

End Operations.

(** The operations of txnbuild implement the interface that transactions use. *)
#[export] Instance txn_operations `{XC : XdrCodec} `{XE : XdrEncoder} `{ST : SorobanTypes} : Transactions.Operations := {
  Transactions.Other := Op;
  Transactions.OtherBody := Body;
  Transactions.Ext := TransactionExt;
  Transactions.Ext0 := ExtV0;
  Transactions.Ext_V := TransactionExt_V;
  Transactions.Other_Validate := Op_Validate;
  Transactions.Other_BuildXDR := Op_BuildXDR;
  Transactions.Other_FromXDR src b := Op_FromXDR (src, b);
  Transactions.Other_BuildTransactionExt := Op_BuildTransactionExt;
  Transactions.Other_SetExt := Op_SetExt;
  Transactions.Other_public := Op_public
}.

End TxOperations.
