(* ===== verification/TxOpProofs.v ===== *)
(** * Properties of the operations (package txnbuild)

    Which XDR operations [FromXDR] and [BuildXDR] reproduce, and that they do;
    the order of the assets of a pool; examples of what is lost. *)
From S2P Require Import Prelude HexText Amount Price Strkey Xdr LedgerKeys XdrCodec Muxed Transactions TxProofs TxAssets TxOperations.
Import LedgerKeys XdrCodec Muxed TxAssets TxOperations.
Local Open Scope Z_scope.

Module TxOpProofs.

(** ** Assets *)

(** A code that is read back: its first byte is set, and a code of an
    [AlphaNum12] does not fit into four bytes. *)
Definition code_ok (n least : nat) (c : list Z) : Prop :=
  length c = n /\ Forall is_byte c /\ head c <> Some 0 /\ (least <= length (Asset.trimRightZeros c))%nat.

Definition asset_ok (a : Asset.t) : Prop :=
  match a with
  | Asset.Native => True
  | Asset.AlphaNum4 c i => code_ok 4 1 c /\ AccountId.wf i
  | Asset.AlphaNum12 c i => code_ok 12 5 c /\ AccountId.wf i
  end.

Definition is_credit (a : Asset.t) : Prop := a <> Asset.Native.

(** What [assetFromXDR] makes of an asset. *)
Definition asset_of (a : Asset.t) : Asset :=
  match a with
  | Asset.Native => NativeAsset
  | Asset.AlphaNum4 c i | Asset.AlphaNum12 c i => CreditAsset (string_of (trimZeros c)) (AccountId.address i)
  end.

Lemma trimZeros_head c : head c <> Some 0 -> trimZeros c = Asset.trimRightZeros c.
Proof.
  intros Hh. unfold trimZeros. destruct (Asset.trimRightZeros_spec c) as [k E].
  destruct (Asset.trimRightZeros c) as [|x t]; [done|]. rewrite E in Hh. cbn in Hh |- *.
  destruct (Z.eqb_spec x 0) as [->|]; [done|done].
Qed.

Lemma code_ok_text n least c : code_ok n least c ->
  bytes_of (string_of (trimZeros c)) = Asset.trimRightZeros c /\
  (least <= length (Asset.trimRightZeros c) <= n)%nat /\ resize n 0 (Asset.trimRightZeros c) = c.
Proof.
  intros (Hl & Hb & Hh & Hm). rewrite trimZeros_head by done.
  rewrite bytes_of_string_of by by apply Asset.trimRightZeros_bytes. split; [done|]. split; [|by apply Asset.trimRightZeros_resize].
  destruct (Asset.trimRightZeros_spec c) as [k E]. apply (f_equal length) in E. rewrite length_app, Hl in E. lia.
Qed.

Lemma Address_print a : AccountId.wf a -> AccountId.Address a = Ok (AccountId.address a).
Proof. intros [Hl _]. unfold AccountId.Address. by rewrite AccountId.GetAddress_total by lia. Qed.

Lemma assetFromXDR_ok a : asset_ok a -> assetFromXDR a = Ok (asset_of a).
Proof. destruct a as [|c i|c i]; [done| |]; intros [_ Hi]; cbn [assetFromXDR]; by rewrite Address_print, bind_Ok_l. Qed.

Lemma Asset_ToXDR_ok a : asset_ok a -> Asset_ToXDR (asset_of a) = Ok a.
Proof.
  destruct a as [|c i|c i]; [done| |]; intros [Hc Hi]; cbn [asset_of Asset_ToXDR]; unfold CreditAsset_ToXDR;
    rewrite AccountId.SetAddress_address, bind_Ok_l by done; unfold Asset.SetCredit;
    destruct (code_ok_text _ _ _ Hc) as (-> & Hl & Hr).
  - rewrite !(proj2 (Nat.leb_le _ _)) by lia. cbn [andb wrap]. unfold Asset.copy_code. by rewrite Hr.
  - rewrite (proj2 (Nat.leb_gt (length _) 4)), andb_false_r by lia. rewrite !(proj2 (Nat.leb_le _ _)) by lia.
    cbn [andb wrap]. unfold Asset.copy_code. by rewrite Hr.
Qed.

Lemma IsNative_ok a : is_credit a -> IsNative (asset_of a) = Ok false.
Proof. by destruct a. Qed.

Lemma ToAssetCode_ok n c : code_ok n (if Nat.eqb n 4 then 1 else 5) c -> n = 4%nat \/ n = 12%nat ->
  ToAssetCode (string_of (trimZeros c)) = Ok (if Nat.eqb n 4 then AssetCode4 c else AssetCode12 c).
Proof.
  intros Hc Hn. destruct (code_ok_text _ _ _ Hc) as (H1 & H2 & H3). unfold ToAssetCode. rewrite H1.
  destruct Hn as [-> | ->]; cbn [Nat.eqb] in *; unfold Asset.copy_code.
  - rewrite !(proj2 (Nat.leb_le _ _)) by lia. cbn [andb]. by rewrite H3.
  - rewrite (proj2 (Nat.leb_gt (length _) 4)), andb_false_r by lia. rewrite !(proj2 (Nat.leb_le _ _)) by lia.
    cbn [andb]. by rewrite H3.
Qed.

Lemma assets_ok msg l : Forall asset_ok l -> exists l', assets_FromXDR msg l = Ok l' /\ assets_ToXDR l' = Ok l.
Proof.
  induction 1 as [|a l Ha _ (l' & H1 & H2)]; [by exists []|]. exists (Some (asset_of a) :: l').
  cbn [assets_FromXDR assets_ToXDR]. rewrite assetFromXDR_ok, H1 by done. split; [done|].
  unfold deref. cbn [from_opt]. rewrite bind_Ok_l, Asset_ToXDR_ok, H2 by done. done.
Qed.

Section Proofs.
Context {XC : XdrCodec} {CL : CodecLaws} {XE : XdrEncoder} {ST : SorobanTypes}.

Definition hash_ok (h : list Z) : Prop := length h = 32%nat /\ Forall is_byte h.

Lemma balance_id_roundtrip id : hash_ok id -> SafeUnmarshalHex (ClaimableBalanceId_MarshalHex id) = Ok id.
Proof.
  intros [Hl Hb]. unfold SafeUnmarshalHex, ClaimableBalanceId_MarshalHex.
  destruct (EncodeUint_length 0) as [L4 B4]. rewrite EncodeFixed_aligned by by rewrite Hl.
  assert (Forall is_byte (EncodeUint 0 ++ id)) as Hall by by apply Forall_app.
  destruct (Hex.hex_roundtrip _ Hall) as (H1 & H2 & H3). rewrite length_app, L4, Hl in H3.
  rewrite bytes_of_string_of, take_ge by (done || by rewrite H3). rewrite H1, bind_Ok_l.
  unfold ClaimableBalanceId_DecodeFrom. pose proof MaxDepth_min as Hd. rewrite (proj2 (Nat.ltb_ge MaxDepth 2)) by exact Hd.
  rewrite DecodeUint_Encode, bind_Ok_l by (unfold in_uint; lia). cbn [Z.eqb negb to_int32 swrap].
  change (negb (to_int32 0 =? 0)) with false. cbn match.
  pose proof (DecodeFixed_Encode id [] Hb) as Hf. rewrite EncodeFixed_aligned, app_nil_r, Hl in Hf by by rewrite Hl.
  rewrite Hf, bind_Ok_l, H3. done.
Qed.

(** ** Sources, flags and weights *)

Definition source_wf (src : option MuxedAccount) : Prop := match src with Some m => wf m | None => True end.
Definition src_text (src : option MuxedAccount) : string :=
  match src with Some m => Muxed.address m | None => EmptyString end.

Lemma source_print src : source_wf src -> Transactions.accountFromXDR src = Ok (src_text src).
Proof. destruct src as [m|]; [|done]. intros Hm. by apply Address_wf. Qed.

Lemma source_build src : source_wf src -> Transactions.SetOpSourceAccount (src_text src) = src.
Proof.
  destruct src as [m|]; [|done]. intros Hm. cbn [src_text]. unfold Transactions.SetOpSourceAccount.
  rewrite bool_decide_false by by apply TxProofs.address_nonempty. by rewrite SetAddress_wf.
Qed.

Definition range_ok (lo hi : Z) (w : option Z) : Prop := match w with Some w => lo <= w < hi | None => True end.

Lemma small_check (f : Z -> bool) n z : forallb (fun k => f (Z.of_nat k)) (seq 0 n) = true -> 0 <= z < Z.of_nat n -> f z = true.
Proof.
  intros H Hz. rewrite forallb_forall in H. specialize (H (Z.to_nat z) ltac:(apply in_seq; lia)). by rewrite Z2Nat.id in H by lia.
Qed.

Lemma account_flags_roundtrip f : range_ok 1 16 f ->
  (if Nat.ltb 0 (length (handleSetFlagsXDR f)) then Some (or_flags (handleSetFlagsXDR f)) else None) = f.
Proof.
  destruct f as [f|]; [|done]. intros Hf. cbn in Hf.
  pose proof (small_check (fun f => (f =? 0) || Nat.ltb 0 (length (handleSetFlagsXDR (Some f))) &&
    (or_flags (handleSetFlagsXDR (Some f)) =? f)) 16 f ltac:(vm_compute; reflexivity) ltac:(lia)) as H.
  cbv beta in H. rewrite (proj2 (Z.eqb_neq f 0)) in H by lia. apply andb_prop in H as [-> H]. apply Z.eqb_eq in H. by rewrite H.
Qed.

Lemma trustline_flags_roundtrip f : 0 <= f < 8 -> trustLineFlagsToXDR (fromXDRTrustlineFlag f) = f.
Proof.
  intros Hf. apply Z.eqb_eq. apply (small_check (fun f => trustLineFlagsToXDR (fromXDRTrustlineFlag f) =? f) 8);
    [vm_compute; reflexivity|lia].
Qed.

Lemma threshold_roundtrip w old : range_ok 0 256 w -> old = None ->
  match handleThresholdXDR w with Some w => Some w | None => old end = w.
Proof. destruct w as [w|]; [|done]. cbn. intros Hw _. by rewrite uwrap_small by lia. Qed.

(** ** Well-formed operations

    The XDR operations that txnbuild reproduces.  Beyond the ranges of the XDR
    types: assets can be read back, ChangeTrust, Clawback and SetTrustLineFlags
    name an issued asset, flags are those the package knows, weights fit into a
    byte, and a revoked sponsorship is of an entry the package supports. *)

Definition signer_ok (s : option xSigner) : Prop :=
  match s with Some s => SignerKey_wf (xKey s) /\ 0 <= xWeight s < 256 | None => True end.

Definition options_wf (x : xSetOptionsOp) : Prop :=
  (match x_InflationDest x with Some a => AccountId.wf a | None => True end) /\
  range_ok 1 16 (x_ClearFlags x) /\ range_ok 1 16 (x_SetFlags x) /\
  range_ok 0 256 (x_MasterWeight x) /\ range_ok 0 256 (x_LowThreshold x) /\ range_ok 0 256 (x_MedThreshold x) /\
  range_ok 0 256 (x_HighThreshold x) /\
  (match x_HomeDomain x with Some d => (length (bytes_of d) <= 32)%nat | None => True end) /\ signer_ok (x_Signer x).

Definition pool_ok (p : xLiquidityPoolParameters) : Prop :=
  match p with ConstantProduct a b _ => asset_ok a /\ asset_ok b | UnknownPoolType _ => False end.

Definition revoke_wf (x : xRevokeSponsorshipOp) : Prop :=
  match x with
  | RevokeLedgerEntry (KAccount a) => AccountId.wf a
  | RevokeLedgerEntry (KTrustLine a (TLAsset x)) => AccountId.wf a /\ asset_ok x
  | RevokeLedgerEntry (KOffer a _) => AccountId.wf a
  | RevokeLedgerEntry (KData a n) => AccountId.wf a /\ Forall is_byte n
  | RevokeLedgerEntry (KClaimableBalance h) => hash_ok h
  | RevokeLedgerEntry _ => False
  | RevokeSigner a k => AccountId.wf a /\ SignerKey_wf k
  end.

Definition body_wf (b : Body) : Prop :=
  match b with
  | BCreateAccount d n => AccountId.wf d /\ in_int 64 n
  | BPayment d a n => wf d /\ asset_ok a /\ in_int 64 n
  | BPathPaymentStrictReceive sa sm d da dn path =>
      asset_ok sa /\ in_int 64 sm /\ wf d /\ asset_ok da /\ in_int 64 dn /\ Forall asset_ok path
  | BManageSellOffer s b n _ _ | BManageBuyOffer s b n _ _ | BCreatePassiveSellOffer s b n _ =>
      asset_ok s /\ asset_ok b /\ in_int 64 n
  | BSetOptions x => options_wf x
  | BChangeTrust (CTAsset a) n => asset_ok a /\ is_credit a /\ in_int 64 n
  | BChangeTrust (CTPoolShare p) n => pool_ok p /\ in_int 64 n
  | BAllowTrust t (AssetCode4 c) n => AccountId.wf t /\ code_ok 4 1 c /\ 0 <= n < 3
  | BAllowTrust t (AssetCode12 c) n => AccountId.wf t /\ code_ok 12 5 c /\ 0 <= n < 3
  | BAllowTrust _ (UnknownAssetCode _) _ => False
  | BAccountMerge d => wf d
  | BInflation | BBumpSequence _ | BEndSponsoringFutureReserves => True
  | BPathPaymentStrictSend sa sn d da dm path =>
      asset_ok sa /\ in_int 64 sn /\ wf d /\ asset_ok da /\ in_int 64 dm /\ Forall asset_ok path
  | BCreateClaimableBalance a n cs => asset_ok a /\ in_int 64 n /\ Forall (fun c => AccountId.wf (V0_Destination c)) cs
  | BClaimClaimableBalance h | BClawbackClaimableBalance h => hash_ok h
  | BBeginSponsoringFutureReserves a => AccountId.wf a
  | BRevokeSponsorship x => revoke_wf x
  | BClawback a f n => asset_ok a /\ is_credit a /\ wf f /\ in_int 64 n
  | BSetTrustLineFlags t a clear set => AccountId.wf t /\ asset_ok a /\ is_credit a /\ 0 <= clear < 8 /\ 0 <= set < 8
  | BLiquidityPoolDeposit _ a b _ _ => in_int 64 a /\ in_int 64 b
  | BLiquidityPoolWithdraw _ n a b => in_int 64 n /\ in_int 64 a /\ in_int 64 b
  | BInvokeHostFunction _ _ | BExtendFootprintTtl _ | BRestoreFootprint => True
  end.

Abbreviation xOp := (option MuxedAccount * Body)%type.

Definition xop_wf (x : xOp) : Prop := source_wf x.1 /\ body_wf x.2.

(** ** Round trips *)

(** Parsing gives [o], building that gives back the XDR operation and leaves [o]
    as it was, apart from the XDR operation that SetOptions keeps. *)
Definition reproduced (x : xOp) : Prop := exists o o', Op_FromXDR x = Ok o /\ Op_BuildXDR o = Ok (o', x) /\ Op_public o' = o.

Lemma reproduced_intro x o : Op_FromXDR x = Ok o -> Op_BuildXDR o = Ok (o, x) -> Op_public o = o -> reproduced x.
Proof. intros H1 H2 H3. by exists o, o. Qed.

(** Rewriting with the round trips of the fields. *)
Ltac fields :=
  unfold build, in_field, deref;
  repeat (cbn [fst snd from_opt wrap]; first
    [ rewrite bind_Ok_l | rewrite source_print by done | rewrite source_build by done
    | rewrite Address_print by done | rewrite AccountId.SetAddress_address by done
    | rewrite Address_wf by done | rewrite SetAddress_wf by done
    | rewrite Amount.Parse_String by done
    | rewrite assetFromXDR_ok by done | rewrite Asset_ToXDR_ok by done | rewrite IsNative_ok by done ]).


Lemma SetOptions_reproduced src x : source_wf src -> options_wf x -> reproduced (src, BSetOptions x).
Proof.
  intros Hs (H1 & H2 & H3 & H4 & H5 & H6 & H7 & H8 & H9). destruct x as [infl clear set mw lt mt ht dom sg]. cbn in *.
  unfold reproduced. cbn [Op_FromXDR snd]. unfold SetOptions_FromXDR. fields.
  cbn [x_InflationDest x_ClearFlags x_SetFlags x_MasterWeight x_LowThreshold x_MedThreshold x_HighThreshold x_HomeDomain x_Signer].
  assert (exists i, handleInflationXDR infl = Ok i /\ forall so, so_InflationDestination so = i -> so_xdrOp so = zero_xSetOptions ->
    handleInflation so = Ok infl) as (i & -> & Hi).
  { destruct infl as [a|]; unfold handleInflationXDR, handleInflation.
    - rewrite Address_print, bind_Ok_l by done. eexists. split; [done|]. intros so -> _. by rewrite AccountId.SetAddress_address.
    - exists None. split; [done|]. by intros so -> ->. }
  assert (exists g, handleSignerXDR sg = Ok g /\ forall so, so_Signer so = g -> so_xdrOp so = zero_xSetOptions ->
    handleSigner so = Ok sg) as (g & -> & Hg).
  { destruct sg as [[k w]|]; unfold handleSignerXDR, handleSigner; cbn [xKey xWeight].
    - destruct H9 as [Hk Hw]. cbn in Hk, Hw. unfold SignerKey_Address. rewrite signer_GetAddress, bind_Ok_l by done. eexists. split; [done|].
      intros so -> _. cbn [sg_Address sg_Weight]. rewrite signer_SetAddress, bind_Ok_l by done. by rewrite uwrap_small by lia.
    - exists None. split; [done|]. by intros so -> ->. }
  fields. eexists _, _. split; [done|]. cbn [Op_BuildXDR]. unfold SetOptions_BuildXDR.
  rewrite Hi by done. fields. unfold handleHomeDomain. cbn [so_HomeDomain so_xdrOp zero_xSetOptions x_HomeDomain].
  assert (Hd : match dom with Some d => if Nat.ltb 32 (length (bytes_of d)) then Err "homeDomain must be 32 characters or less"
    else Ok (Some d) | None => Ok None end = Ok dom).
  { destruct dom as [d|]; [|done]. by rewrite (proj2 (Nat.ltb_ge _ _)). }
  rewrite Hd. fields. rewrite Hg by done. fields. cbn [so_SourceAccount]. fields.
  unfold handleClearFlags, handleSetFlags, handleMasterWeight, handleLowThreshold, handleMediumThreshold, handleHighThreshold, handleClearFlagsXDR.
  cbn [so_ClearFlags so_SetFlags so_MasterWeight so_LowThreshold so_MediumThreshold so_HighThreshold so_xdrOp zero_xSetOptions
    x_ClearFlags x_SetFlags x_MasterWeight x_LowThreshold x_MedThreshold x_HighThreshold].
  by rewrite !account_flags_roundtrip, !threshold_roundtrip by done.
Qed.

Lemma ChangeTrust_reproduced src line n : source_wf src -> body_wf (BChangeTrust line n) -> reproduced (src, BChangeTrust line n).
Proof.
  intros Hs Hb.
  assert (exists l, assetFromChangeTrustAssetXDR line = Ok l /\ IsNative l = Ok false /\ ChangeTrustAsset_ToXDR l = Ok line)
    as (l & H1 & H2 & H3).
  { destruct line as [a|[a b fee|]]; cbn in Hb; [destruct Hb as (Ha & Hc & _)|destruct Hb as ([Ha Hc] & _)|by destruct Hb].
    - exists (ChangeTrustAssetWrapper (Some (asset_of a))). cbn [assetFromChangeTrustAssetXDR CT_ToAsset ChangeTrustAsset_ToXDR].
      cbn [IsNative ChangeTrustAsset_Basic]. by fields.
    - eexists. cbn [assetFromChangeTrustAssetXDR]. unfold liquidityPoolParametersFromXDR. fields. split; [done|].
      split; [done|]. cbn [ChangeTrustAsset_ToXDR]. unfold LiquidityPoolParameters_ToXDR. cbn [AssetA AssetB Fee]. by fields. }
  assert (in_int 64 n) as Hn by (destruct line; cbn in Hb; tauto).
  eapply reproduced_intro; [cbn [Op_FromXDR snd]; unfold ChangeTrust_FromXDR; fields; rewrite H1; by fields| |done].
  cbn [Op_BuildXDR]. unfold ChangeTrust_BuildXDR. cbn [ct_Line]. fields. rewrite H2, bind_Ok_l, H3. fields.
  unfold default_limit. cbn [ct_Limit]. rewrite bool_decide_false.
  - cbn [ct_Limit ct_SourceAccount]. by fields.
  - intros Heq. pose proof (Amount.Parse_String n Hn) as Hp. rewrite Heq in Hp. vm_compute in Hp. done.
Qed.

Lemma RevokeSponsorship_reproduced src x : source_wf src -> revoke_wf x -> reproduced (src, BRevokeSponsorship x).
Proof.
  intros Hs Hx. destruct x as [k|a k].
  - destruct k as [a|a [x|p]|a i|a n|h|p|c v d|h|i|h]; try done; cbn in Hx.
    + eapply reproduced_intro; [cbn [Op_FromXDR snd]; unfold RevokeSponsorship_FromXDR; by fields| |done].
      cbn [Op_BuildXDR]. unfold RevokeSponsorship_BuildXDR, require. cbn [rs_SponsorshipType rs_Account rs_SourceAccount Z.eqb Pos.eqb RevokeSponsorshipTypeAccount]. by fields.
    + destruct Hx as [Ha Hx].
      eapply reproduced_intro; [cbn [Op_FromXDR snd]; unfold RevokeSponsorship_FromXDR; fields;
        cbn [assetFromTrustLineAssetXDR TL_ToAsset]; by fields| |done].
      cbn [Op_BuildXDR]. unfold RevokeSponsorship_BuildXDR, require. cbn. fields. cbn [tl_Account tl_Asset]. fields.
      cbn [TrustLineAsset_ToXDR]. by fields.
    + eapply reproduced_intro; [cbn [Op_FromXDR snd]; unfold RevokeSponsorship_FromXDR; by fields| |done].
      cbn [Op_BuildXDR]. unfold RevokeSponsorship_BuildXDR, require. cbn. fields. cbn [SellerAccountAddress of_OfferID]. by fields.
    + destruct Hx as [Ha Hn].
      eapply reproduced_intro; [cbn [Op_FromXDR snd]; unfold RevokeSponsorship_FromXDR; by fields| |done].
      cbn [Op_BuildXDR]. unfold RevokeSponsorship_BuildXDR, require. cbn. fields. cbn [da_Account da_DataName]. fields.
      pose proof (bytes_of_string_of n Hn) as E. unfold bytes_of in E. by rewrite E.
    + eapply reproduced_intro; [cbn [Op_FromXDR snd]; unfold RevokeSponsorship_FromXDR; by fields| |done].
      cbn [Op_BuildXDR]. unfold RevokeSponsorship_BuildXDR, require. cbn. fields. rewrite balance_id_roundtrip by done. by fields.
  - destruct Hx as [Ha Hk].
    eapply reproduced_intro; [cbn [Op_FromXDR snd]; unfold RevokeSponsorship_FromXDR; fields; unfold SignerKey_Address;
      rewrite signer_GetAddress by done; by fields| |done].
    cbn [Op_BuildXDR]. unfold RevokeSponsorship_BuildXDR, require. cbn. fields. cbn [si_AccountID si_SignerAddress]. fields.
    rewrite signer_SetAddress by done. by fields.
Qed.

Lemma AllowTrust_reproduced src t code n : source_wf src -> body_wf (BAllowTrust t code n) -> reproduced (src, BAllowTrust t code n).
Proof.
  intros Hs Hb.
  assert (AccountId.wf t /\ 0 <= n < 3 /\ exists c, assetCodeToCreditAsset code = Ok (CreditAsset c EmptyString) /\ ToAssetCode c = Ok code)
    as (Ht & Hn & c & H1 & H2).
  { destruct code as [c|c|]; cbn in Hb; [| |by destruct Hb]; destruct Hb as (H1 & H2 & H3); (split; [done|]); (split; [done|]);
      eexists; (split; [done|]); [by apply (ToAssetCode_ok 4); [|left]|by apply (ToAssetCode_ok 12); [|right]]. }
  eapply reproduced_intro; [cbn [Op_FromXDR snd]; unfold AllowTrust_FromXDR; fields; rewrite H1; by fields| |done].
  cbn [Op_BuildXDR]. unfold AllowTrust_BuildXDR.
  cbn [at_Trustor at_Type at_Authorize at_AuthorizeToMaintainLiabilities at_SourceAccount]. fields.
  cbn [IsNative GetCode Asset_Basic]. fields. rewrite H2. fields.
  assert (n = 0 \/ n = 1 \/ n = 2) as [->|[->| ->]] by lia; done.
Qed.

Lemma CreateClaimableBalance_reproduced src a n cs : source_wf src -> body_wf (BCreateClaimableBalance a n cs) ->
  reproduced (src, BCreateClaimableBalance a n cs).
Proof.
  intros Hs (Ha & Hn & Hc).
  assert (exists l, claimants_FromXDR cs = Ok l /\ claimants_BuildXDR l = Ok cs) as (l & H1 & H2).
  { induction Hc as [|[d p] cs Hd _ (l & H1 & H2)]; [by exists []|]. cbn in Hd. exists (mkClaimant (AccountId.address d) p :: l).
    cbn [claimants_FromXDR claimants_BuildXDR V0_Destination V0_Predicate cl_Destination cl_Predicate]. fields. rewrite H1, H2. by fields. }
  eapply reproduced_intro; [cbn [Op_FromXDR snd]; unfold CreateClaimableBalance_FromXDR; fields; rewrite H1; by fields| |done].
  cbn [Op_BuildXDR]. unfold CreateClaimableBalance_BuildXDR. cbn [ccb_Asset ccb_Amount ccb_Destinations ccb_SourceAccount].
  fields. rewrite H2. by fields.
Qed.

(** A path payment in either form. *)
Lemma path_payment_reproduced src sa m d da n path : source_wf src ->
  asset_ok sa -> in_int 64 m -> wf d -> asset_ok da -> in_int 64 n -> Forall asset_ok path ->
  reproduced (src, BPathPaymentStrictReceive sa m d da n path) /\ reproduced (src, BPathPaymentStrictSend sa m d da n path).
Proof.
  intros Hs H1 H2 H3 H4 H5 H6.
  destruct (assets_ok "error parsing paths in path_payment operation" path H6) as (l & E1 & E2). split.
  - eapply reproduced_intro; [cbn [Op_FromXDR snd]; unfold PathPaymentStrictReceive_FromXDR; fields; rewrite E1; by fields| |done].
    cbn [Op_BuildXDR]. unfold PathPaymentStrictReceive_BuildXDR.
    cbn [ppr_SendAsset ppr_SendMax ppr_Destination ppr_DestAsset ppr_DestAmount ppr_Path ppr_SourceAccount]. fields. rewrite E2. by fields.
  - eapply reproduced_intro; [cbn [Op_FromXDR snd]; unfold PathPaymentStrictSend_FromXDR; fields; rewrite E1; by fields| |done].
    cbn [Op_BuildXDR]. unfold PathPaymentStrictSend_BuildXDR.
    cbn [pps_SendAsset pps_SendAmount pps_Destination pps_DestAsset pps_DestMin pps_Path pps_SourceAccount]. fields. rewrite E2. by fields.
Qed.

(** An operation whose fields are all covered by [fields]. *)
Tactic Notation "simple_op" reference(from) reference(build) tactic(fields_of) :=
  eapply reproduced_intro; [cbn [Op_FromXDR snd]; unfold from; by fields| |done];
  cbn [Op_BuildXDR]; unfold build; fields_of; by fields.

Lemma body_reproduced src b : source_wf src -> body_wf b -> reproduced (src, b).
Proof.
  intros Hs Hb. destruct b; cbn [body_wf] in Hb.
  - destruct Hb as [? ?]. simple_op CreateAccount_FromXDR CreateAccount_BuildXDR ltac:(cbn [ca_Destination ca_Amount ca_SourceAccount]).
  - destruct Hb as (? & ? & ?). simple_op Payment_FromXDR Payment_BuildXDR ltac:(cbn [pay_Destination pay_Amount pay_Asset pay_SourceAccount]).
  - destruct Hb as (? & ? & ? & ? & ? & ?). by apply path_payment_reproduced.
  - destruct Hb as (? & ? & ?). simple_op ManageSellOffer_FromXDR ManageSellOffer_BuildXDR
      ltac:(cbn [mso_Selling mso_Buying mso_Amount mso_Price mso_OfferID mso_SourceAccount]).
  - destruct Hb as (? & ? & ?). simple_op CreatePassiveSellOffer_FromXDR CreatePassiveSellOffer_BuildXDR
      ltac:(cbn [cpo_Selling cpo_Buying cpo_Amount cpo_Price cpo_SourceAccount]).
  - by apply SetOptions_reproduced.
  - by apply ChangeTrust_reproduced.
  - by apply AllowTrust_reproduced.
  - simple_op AccountMerge_FromXDR AccountMerge_BuildXDR ltac:(cbn [am_Destination am_SourceAccount]).
  - simple_op Inflation_FromXDR Inflation_BuildXDR ltac:(cbn [inf_SourceAccount]).
  - simple_op BumpSequence_FromXDR BumpSequence_BuildXDR ltac:(cbn [bs_BumpTo bs_SourceAccount]).
  - destruct Hb as (? & ? & ?). simple_op ManageBuyOffer_FromXDR ManageBuyOffer_BuildXDR
      ltac:(cbn [mbo_Selling mbo_Buying mbo_Amount mbo_Price mbo_OfferID mbo_SourceAccount]).
  - destruct Hb as (? & ? & ? & ? & ? & ?). by apply path_payment_reproduced.
  - by apply CreateClaimableBalance_reproduced.
  - eapply reproduced_intro; [cbn [Op_FromXDR snd]; unfold ClaimClaimableBalance_FromXDR; by fields| |done].
    cbn [Op_BuildXDR]. unfold ClaimClaimableBalance_BuildXDR. cbn [clb_BalanceID clb_SourceAccount]. rewrite balance_id_roundtrip by done. by fields.
  - simple_op BeginSponsoringFutureReserves_FromXDR BeginSponsoringFutureReserves_BuildXDR ltac:(cbn [bsf_SponsoredID bsf_SourceAccount]).
  - simple_op EndSponsoringFutureReserves_FromXDR EndSponsoringFutureReserves_BuildXDR ltac:(cbn [esf_SourceAccount]).
  - by apply RevokeSponsorship_reproduced.
  - destruct Hb as (? & ? & ? & ?).
    eapply reproduced_intro; [cbn [Op_FromXDR snd]; unfold Clawback_FromXDR; fields; cbn [Transactions.accountFromXDR]; by fields| |done].
    cbn [Op_BuildXDR]. unfold Clawback_BuildXDR. cbn [cw_From cw_Amount cw_Asset cw_SourceAccount]. change (src_text (Some From)) with (Muxed.address From). by fields.
  - eapply reproduced_intro; [cbn [Op_FromXDR snd]; unfold ClawbackClaimableBalance_FromXDR; by fields| |done].
    cbn [Op_BuildXDR]. unfold ClawbackClaimableBalance_BuildXDR. cbn [cwb_BalanceID cwb_SourceAccount]. rewrite balance_id_roundtrip by done. by fields.
  - destruct Hb as (? & ? & ? & ? & ?). eapply reproduced_intro; [cbn [Op_FromXDR snd]; unfold SetTrustLineFlags_FromXDR; by fields| |done].
    cbn [Op_BuildXDR]. unfold SetTrustLineFlags_BuildXDR. cbn [stf_Trustor stf_Asset stf_SetFlags stf_ClearFlags stf_SourceAccount].
    fields. by rewrite !trustline_flags_roundtrip.
  - destruct Hb as (? & ?). eapply reproduced_intro; [cbn [Op_FromXDR snd]; unfold LiquidityPoolDeposit_FromXDR; by fields| |done].
    cbn [Op_BuildXDR]. unfold LiquidityPoolDeposit_BuildXDR.
    cbn [lpd_SourceAccount lpd_LiquidityPoolID lpd_MaxAmountA lpd_MaxAmountB lpd_MinPrice lpd_MaxPrice]. fields.
    by repeat case_bool_decide; subst.
  - destruct Hb as (? & ? & ?). simple_op LiquidityPoolWithdraw_FromXDR LiquidityPoolWithdraw_BuildXDR
      ltac:(cbn [lpw_SourceAccount lpw_LiquidityPoolID lpw_Amount lpw_MinAmountA lpw_MinAmountB]).
  - simple_op InvokeHostFunction_FromXDR InvokeHostFunction_BuildXDR ltac:(cbn [ihf_HostFunction ihf_Auth ihf_SourceAccount]).
  - simple_op ExtendFootprintTtl_FromXDR ExtendFootprintTtl_BuildXDR ltac:(cbn [eft_ExtendTo eft_SourceAccount]).
  - simple_op RestoreFootprint_FromXDR RestoreFootprint_BuildXDR ltac:(cbn [rf_SourceAccount]).
Qed.

(** ** Transactions of these operations *)

(** An operation as parsing gives it, with the extension of its transaction. *)
Definition parsed (ext : TransactionExt) (o : Op) : Prop := exists x o0, xop_wf x /\ Op_FromXDR x = Ok o0 /\
  o = (if negb (TransactionExt_V ext =? 0) then Op_SetExt ext o0 else o0).

Lemma Op_SetExt_build ext o o' x : Op_BuildXDR o = Ok (o', x) -> Op_BuildXDR (Op_SetExt ext o) = Ok (Op_SetExt ext o', x).
Proof.
  destruct o; cbn [Op_SetExt Op_BuildXDR]; intros H;
    try (apply bind_Ok in H as (? & E & [= <- <-]); first [rewrite E; done|unfold InvokeHostFunction_BuildXDR, build in *; by injection E as <-]);
    apply bind_Ok in H as ([? ?] & E & [= <- <-]); by rewrite E.
Qed.

Lemma Op_SetExt_public ext o : Op_public (Op_SetExt ext o) = Op_SetExt ext (Op_public o).
Proof. by destruct o. Qed.

Lemma parsed_builds ext o : parsed ext o -> exists o1 x o2, Op_BuildXDR o = Ok (o1, x) /\ Op_FromXDR x = Ok o2 /\
  (if negb (TransactionExt_V ext =? 0) then Op_SetExt ext o2 else o2) = Op_public o1.
Proof.
  intros ([src b] & o0 & [Hs Hb] & Hp & ->). destruct (body_reproduced src b Hs Hb) as (o & o' & H1 & H2 & H3).
  rewrite Hp in H1. injection H1 as <-. destruct (negb _).
  - eexists _, _, _. split; [by apply Op_SetExt_build|]. split; [done|]. by rewrite Op_SetExt_public, H3.
  - by eexists _, _, _.
Qed.

Abbreviation Operation := Transactions.Operation.

(** The operations of a transaction: ManageData from a well-formed source, and
    the others as parsing gives them. *)
Definition op_parsed (ext : TransactionExt) (o : Operation) : Prop :=
  match o with
  | Transactions.OManageData md => TxProofs.source_ok (Transactions.md_SourceAccount md)
  | Transactions.OOther o => parsed ext o
  end.

Lemma op_parsed_stable ext o : op_parsed ext o -> TxProofs.op_stable ext o.
Proof.
  destruct o as [md|o]; [done|]. intros Hp o1 src b Hb. destruct (parsed_builds _ _ Hp) as (o1' & x & o2 & H1 & H2 & H3).
  cbn [Transactions.Other_BuildXDR txn_operations] in Hb. rewrite H1 in Hb. injection Hb as -> ->. by exists o2.
Qed.

(** ** Pool ids *)

Lemma asset_ok_wf a : asset_ok a -> Asset.wf a.
Proof. destruct a as [|c i|c i]; [done| |]; intros ((H1 & H2 & _) & Hi); by split_and!. Qed.

Lemma Asset_LessThan_ok a b : asset_ok a -> asset_ok b -> a <> b \/ is_credit a ->
  Asset_LessThan (asset_of a) (Some (asset_of b)) = Ok (Asset.LessThan a b).
Proof.
  intros Ha Hb Hne. destruct a as [|c i|c i].
  - destruct b as [|c' i'|c' i']; [by destruct Hne|done|done].
  - cbn [asset_of Asset_LessThan]. unfold CreditAsset_LessThan. pose proof (Asset_ToXDR_ok _ Ha) as E. cbn [asset_of Asset_ToXDR] in E.
    rewrite E. unfold deref. cbn [from_opt]. by rewrite bind_Ok_l, (Asset_ToXDR_ok _ Hb).
  - cbn [asset_of Asset_LessThan]. unfold CreditAsset_LessThan. pose proof (Asset_ToXDR_ok _ Ha) as E. cbn [asset_of Asset_ToXDR] in E.
    rewrite E. unfold deref. cbn [from_opt]. by rewrite bind_Ok_l, (Asset_ToXDR_ok _ Hb).
Qed.

(** The id of the pool of two different assets, given in order. *)
Lemma NewLiquidityPoolId_ok sha256 a b : asset_ok a -> asset_ok b -> a <> b ->
  NewLiquidityPoolId sha256 (Some (asset_of a)) (Some (asset_of b)) =
    if Asset.LessThan b a then Err "AssetA must be <= AssetB" else Ok (sha256 (pool_params_EncodeTo a b LiquidityPoolFeeV18)).
Proof.
  intros Ha Hb Hne. unfold NewLiquidityPoolId. fields. rewrite Asset_LessThan_ok by (done || (left; congruence)). fields.
  destruct (Asset.LessThan b a) eqn:E; [done|]. fields. unfold NewPoolId. by rewrite E.
Qed.

End Proofs.

(** ** Properties *)

Section Properties.
Context {XC : XdrCodec} {CL : CodecLaws} {XE : XdrEncoder} {ST : SorobanTypes}.

(** C32: operations lose nothing.  For every well-formed XDR operation of the 26
    types other than ManageData, [operationFromXDR] succeeds, and [BuildXDR] of
    the operation it returns gives the same XDR operation back: source account,
    amounts, assets, prices, flags, thresholds, claimants, ids and keys.  The
    exported fields of the operation are not changed by building it. *)
Theorem operation_roundtrip (x : option MuxedAccount * Body) (Hx : xop_wf x) :
  exists o o', Op_FromXDR x = Ok o /\ Op_BuildXDR o = Ok (o', x) /\ Op_public o' = o.
Proof. destruct x as [src b], Hx as [Hs Hb]. by apply body_reproduced. Qed.

(** C33: a built transaction is what its envelope says.  Whenever
    [NewTransaction] succeeds on ManageData operations and on other operations in the
    form that parsing gives them ([op_parsed]), the maximum fee is
    exactly the base fee times the number of operations and fits the 32-bit
    field, and parsing the envelope gives back the same transaction - source
    account, sequence number, fees, memo, the exported fields of the operations,
    preconditions - where ledger bounds that always hold are dropped.  The
    account keeps the sequence number that was used.  For operations in another form
    the envelope is parsed to the canonical one instead: an amount 10 comes back as
    10.0000000, AllowTrust loses its issuer, and the Ext of ExtendFootprintTtl and
    RestoreFootprint is not restored. *)
Theorem transaction_roundtrip (params : Transactions.TransactionParams) (sa : Transactions.SimpleAccount)
    (tx : Transactions.Transaction)
    (Hbuild : Transactions.NewTransaction params = (Some sa, Ok tx))
    (Hfee : in_int 64 (Transactions.p_BaseFee params))
    (Hcount : Z.of_nat (length (Transactions.p_Operations params)) < 2 ^ 64)
    (Hops : Forall (op_parsed (TxProofs.tx_ext tx)) (Transactions.p_Operations params))
    (Hcond : TxProofs.cond_typed (Transactions.p_Preconditions params)) :
  Transactions.transactionFromParsedXDR (Transactions.envelope tx) = Ok (Transactions.GSimple (TxProofs.normal_tx tx)) /\
  Transactions.maxFee tx = Transactions.p_BaseFee params * Z.of_nat (length (Transactions.p_Operations params)) /\
  0 <= Transactions.maxFee tx <= MaxUint32 /\
  Transactions.baseFee tx = Transactions.p_BaseFee params /\ Transactions.sourceAccount tx = sa /\
  Forall2 TxProofs.built (Transactions.p_Operations params) (Transactions.operations tx) /\
  Transactions.memo tx = Transactions.p_Memo params /\ Transactions.Signatures tx = Ok [].
Proof.
  apply TxProofs.NewTransaction_roundtrip; try done. eapply Forall_impl; [exact Hops|]. intros o. apply op_parsed_stable.
Qed.

(** the id of a pool is determined by its two assets.  For two different
    assets that txnbuild can express exactly one of the two orders is accepted,
    the one in which the first asset sorts before the second, and the id is the
    hash of the parameters in that order. *)
Theorem pool_id_order (sha256 : list Z -> list Z) (a b : Asset.t) (Ha : asset_ok a) (Hb : asset_ok b) (Hne : a <> b) :
  let id x y := NewLiquidityPoolId sha256 (Some (asset_of x)) (Some (asset_of y)) in
  let hash x y := sha256 (pool_params_EncodeTo x y LiquidityPoolFeeV18) in
  Asset.LessThan a b = true /\ id a b = Ok (hash a b) /\ id b a = Err "AssetA must be <= AssetB" \/
  Asset.LessThan b a = true /\ id b a = Ok (hash b a) /\ id a b = Err "AssetA must be <= AssetB".
Proof.
  cbv beta zeta. rewrite !NewLiquidityPoolId_ok by (done || congruence).
  destruct (Asset.asset_LessThan_strict_total a b a (asset_ok_wf _ Ha) (asset_ok_wf _ Hb) (asset_ok_wf _ Ha)) as (_ & Hasym & _ & Htot).
  destruct (Asset.LessThan a b) eqn:E1.
  - left. by rewrite Hasym.
  - right. destruct Htot as [|[|H]]; [done|done|]. by rewrite H.
Qed.

End Properties.

(** ** Concrete operations *)

#[export] Instance unit_soroban : SorobanTypes :=
  { ScVal := unit; HostFunction := unit; SorobanAuthorizationEntry := unit; SorobanTransactionData := unit }.

Definition account7 : AccountId.t := AccountId.mk key7.
Definition usd : Asset.t := Asset.AlphaNum4 [85; 83; 68; 0] account7.

Lemma account7_wf : AccountId.wf account7.
Proof. apply key7_ok. Qed.

Lemma usd_ok : asset_ok usd.
Proof.
  split; [|apply account7_wf]. unfold code_ok. split; [done|].
  split; [by repeat (apply Forall_cons_2; [unfold is_byte; lia|])|]. split; [done|]. vm_compute. lia.
Qed.

Definition payment7 : option MuxedAccount * Body := (Some (MMed25519 9 key7), BPayment (MEd25519 key7) usd 25000000).

Lemma payment7_wf : xop_wf payment7.
Proof. split; [split; [unfold in_uint; lia|apply key7_ok]|]. split; [apply key7_ok|]. split; [apply usd_ok|unfold in_int; lia]. Qed.

Definition payment7_op : Op :=
  OPayment (mkPayment (Muxed.address (MEd25519 key7)) "2.5000000" (Some (CreditAsset "USD" (AccountId.address account7)))
    (Muxed.address (MMed25519 9 key7))).

Lemma public_payment o p : Op_public o = OPayment p -> o = OPayment p.
Proof. by destruct o. Qed.

Lemma operation_roundtrip_witness :
  Op_FromXDR payment7 = Ok payment7_op /\ Op_BuildXDR payment7_op = Ok (payment7_op, payment7).
Proof.
  assert (E : Op_FromXDR payment7 = Ok payment7_op) by (vm_compute; reflexivity).
  destruct (operation_roundtrip payment7 payment7_wf) as (o & o' & H1 & H2 & H3).
  rewrite E in H1. apply Ok_inj in H1. rewrite <- H1 in H2, H3. apply public_payment in H3. rewrite H3 in H2. split; [exact E|exact H2].
Defined.

(** A transaction with a payment, a host function call and data. *)
Definition call7 : Op := OInvokeHostFunction (mkInvokeHostFunction tt [tt] EmptyString (ExtV1 tt)).

Definition op_params : Transactions.TransactionParams :=
  Transactions.mkTransactionParams (Some (Transactions.mkSimpleAccount TxProofs.addr7 5)) true
    [Transactions.OOther payment7_op; Transactions.OOther call7;
     Transactions.OManageData (Transactions.mkManageData "name" (Some [1; 2]) EmptyString)] 150 None
    (Transactions.time_Preconditions (Transactions.NewTimebounds 0 1000)).

Definition op_tx : Transactions.Transaction :=
  value_or (Transactions.mkTransaction (Transactions.EnvFeeBump MNil 0 None []) 0 0
    (Transactions.mkSimpleAccount EmptyString 0) [] None Transactions.zero_Preconditions) (Transactions.NewTransaction op_params).2.

Lemma op_tx_built : Transactions.NewTransaction op_params = (Some (Transactions.mkSimpleAccount TxProofs.addr7 6), Ok op_tx).
Proof.
  rewrite (surjective_pairing (Transactions.NewTransaction op_params)). apply (f_equal2 pair); [reflexivity|].
  unfold op_tx. apply is_ok_value_or. vm_compute. reflexivity.
Qed.

Lemma op_tx_parsed : Forall (op_parsed (TxProofs.tx_ext op_tx)) (Transactions.p_Operations op_params).
Proof.
  assert (E : TxProofs.tx_ext op_tx = ExtV1 tt) by (vm_compute; reflexivity). rewrite E.
  apply Forall_cons_2; [|apply Forall_cons_2; [|apply Forall_cons_2; [by left|apply Forall_nil_2]]].
  - exists payment7, payment7_op. split; [apply payment7_wf|]. split; [vm_compute; reflexivity|reflexivity].
  - exists (None, @BInvokeHostFunction unit_soroban tt [tt]), (OInvokeHostFunction (@mkInvokeHostFunction unit_soroban tt [tt] EmptyString ExtV0)).
    split; [split; exact I|]. split; [reflexivity|reflexivity].
Qed.

Lemma transaction_roundtrip_witness :
  Transactions.transactionFromParsedXDR (Transactions.envelope op_tx) = Ok (Transactions.GSimple (TxProofs.normal_tx op_tx)) /\
  Transactions.maxFee op_tx = 450.
Proof.
  destruct (transaction_roundtrip op_params (Transactions.mkSimpleAccount TxProofs.addr7 6) op_tx op_tx_built) as (H1 & H2 & _).
  - unfold in_int. cbn. lia.
  - cbn. lia.
  - apply op_tx_parsed.
  - unfold TxProofs.cond_typed, in_int. cbn. split_and!; (lia || done || apply Forall_nil_2).
  - split; [exact H1|]. rewrite H2. reflexivity.
Defined.

Lemma pool_id_order_witness :
  NewLiquidityPoolId (fun l => l) (Some NativeAsset) (Some (asset_of usd)) = Ok (pool_params_EncodeTo Asset.Native usd 30) /\
  NewLiquidityPoolId (fun l => l) (Some (asset_of usd)) (Some NativeAsset) = Err "AssetA must be <= AssetB".
Proof.
  destruct (pool_id_order (fun l => l) Asset.Native usd I usd_ok ltac:(discriminate)) as [(_ & H1 & H2)|(H & _)].
  - split; [exact H1|exact H2].
  - vm_compute in H. discriminate.
Defined.

(** ** What is lost *)

Definition address7 : string := AccountId.address account7.
Definition revoke_pool_share : RevokeSponsorship :=
  mkRevokeSponsorship EmptyString RevokeSponsorshipTypeTrustLine None
    (Some (mkTrustLineID address7 (Some (LiquidityPoolShareTrustLineAsset key7)))) None None None None.

(** The sponsorship of a pool share trust line is written as that of a trust line
    to the native asset, and [Validate] rejects it for its missing issuer. *)
Example pool_share_becomes_native :
  RevokeSponsorship_BuildXDR revoke_pool_share =
    Ok (None, BRevokeSponsorship (RevokeLedgerEntry (KTrustLine account7 (TLAsset Asset.Native)))) /\
  RevokeSponsorship_Validate revoke_pool_share = Err "invalid TrustLine asset".
Proof. split; vm_compute; reflexivity. Qed.

(** Text after a claimable balance id is accepted. *)
Example trailing_text_accepted :
  SafeUnmarshalHex (String.append (ClaimableBalanceId_MarshalHex key7) "not hexadecimal") = Ok key7.
Proof. vm_compute. reflexivity. Qed.

(** The options of the first build are kept: building again after the home
    domain was cleared writes it again. *)
Definition domain_option (d : option string) (x : xSetOptionsOp) : SetOptions :=
  mkSetOptions None [] [] None None None None d None x EmptyString.

Example options_are_kept :
  exists so x, SetOptions_BuildXDR (domain_option (Some "example.com"%string) zero_xSetOptions) = Ok (so, x) /\
    exists so', SetOptions_BuildXDR (domain_option None (so_xdrOp so)) = Ok (so', x).
Proof. eexists _, _. split; [vm_compute; reflexivity|]. eexists. vm_compute. reflexivity. Qed.

End TxOpProofs.
