(* ===== verification/Challenge.v ===== *)
(** * Web authentication challenges (txnbuild/transaction.go, SEP-10)

    A server proves that a client controls an account by having it sign a
    challenge transaction: [BuildChallengeTx] makes one, [ReadChallengeTx]
    checks its structure and the signature of the server, and
    [VerifyChallengeTxSigners] and [VerifyChallengeTxThreshold] check the
    signatures of the client. *)
From S2P Require Import Prelude Strkey Xdr XdrCodec Muxed Keypair Transactions.
Import XdrCodec Muxed Keypair Transactions.
Local Open Scope Z_scope.

Module Challenge.

Section Challenge.
Context {XC : XdrCodec} {OPS : Operations} {TH : TxHashing} {ED : Ed25519}.

(** Nanoseconds per second. *)
Definition Second : Z := 1000000000.

(** ** Building *)

(** [now] is the time in nanoseconds, [nonce] what the random generator returns. *)
Definition BuildChallengeTx (serverSignerSecret clientAccountID webAuthDomain homeDomain network : string)
    (timebound : Z) (memo : option Z) (now : Z) (nonce : res (list Z)) : res Transaction :=
  if timebound <? Second then Err "provided timebound must be at least 1s (300s is recommended)" else
  serverKP ← Parse serverSignerSecret;
  randomNonce ← nonce;
  let randomNonceToString := Base64.EncodeToString randomNonce in
  if negb (Nat.eqb (length randomNonceToString) 64) then Err "64 byte long random nonce required" else
  _ ← (match AccountId.AddressToAccountId clientAccountID with
       | Ok _ => Ok tt
       | Panic m => Panic m
       | Err _ =>
           match AddressToMuxedAccount clientAccountID with
           | Err _ => Err "not a valid account id or muxed account"
           | Panic m => Panic m
           | Ok _ => if bool_decide (is_Some memo)
                     then Err "memos are not valid for challenge transactions with a muxed client account" else Ok tt
           end
       end);
  let sa := mkSimpleAccount (KP_Address serverKP) 0 in
  let txParams := mkTransactionParams (Some sa) false
    [OManageData (mkManageData (String.append homeDomain " auth") (Some randomNonceToString) clientAccountID);
     OManageData (mkManageData "web_auth_domain" (Some (bytes_of webAuthDomain)) (KP_Address serverKP))]
    MinBaseFee (match memo with Some id => Some (MemoID id) | None => None end)
    (time_Preconditions (NewTimebounds (now / Second) ((now + timebound) / Second))) in
  tx ← (NewTransaction txParams).2;
  match serverKP with
  | KFull kp => Sign tx network [kp]
  | KFromAddress _ => Panic "interface conversion: keypair.KP is *keypair.FromAddress, not *keypair.Full"
  end.

(** ** Matching signatures to signers *)

(** The first unused signature, from position [i] on, that the key made. *)
Fixpoint match_signature (txHash : list Z) (kp : FromAddress) (used : list nat) (i : nat)
    (sigs : list DecoratedSignature) : res (option nat) :=
  match sigs with
  | [] => Ok None
  | decSig :: sigs =>
      if bool_decide (i ∈ used) then match_signature txHash kp used (S i) sigs else
      hint ← FromAddress_Hint kp;
      if negb (bool_decide (Hint decSig = hint)) then match_signature txHash kp used (S i) sigs else
      match FromAddress_Verify kp txHash (Signature decSig) with
      | Ok _ => Ok (Some i)
      | Err _ => match_signature txHash kp used (S i) sigs
      | Panic m => Panic m
      end
  end.

(** The positions used and the signers found, for all signers in order. *)
Fixpoint match_signers (txHash : list Z) (sigs : list DecoratedSignature) (signers : list string)
    (used : list nat) (found : list string) : res (list string) :=
  match signers with
  | [] => Ok found
  | signer :: signers =>
      kp ← (match ParseAddress signer with Err _ => Err "signer not address" | r => r end);
      m ← match_signature txHash kp used 0 sigs;
      match m with
      | Some i => match_signers txHash sigs signers (i :: used) (signer :: found)
      | None => match_signers txHash sigs signers used found
      end
  end.

(** The signers found, in the order given and without repetition. *)
Fixpoint found_list (signers found : list string) : list string :=
  match signers with
  | [] => []
  | signer :: signers =>
      if bool_decide (signer ∈ found)
      then signer :: found_list signers (List.filter (fun s => negb (bool_decide (s = signer))) found)
      else found_list signers found
  end.

Definition verifyTxSignatures (tx : Transaction) (network : string) (signers : list string) : res (list string) :=
  txHash ← Hash tx network;
  sigs ← Signatures tx;
  found ← match_signers txHash sigs signers [] [];
  Ok (found_list signers found).

Definition verifyTxSignature (tx : Transaction) (network signer : string) : res unit :=
  match verifyTxSignatures tx network [signer] with
  | Ok (_ :: _) => Ok tt
  | Ok [] | Err _ => Err "transaction not signed by the server"
  | Panic m => Panic m
  end.

(** ** Reading *)

Context (SafeUnmarshalBase64 : string -> res TransactionEnvelope).

Definition TransactionFromXDR (txeB64 : string) : res GenericTransaction :=
  xdrEnv ← (match SafeUnmarshalBase64 txeB64 with Err _ => Err "unable to unmarshal transaction envelope" | r => r end);
  transactionFromParsedXDR xdrEnv.

Definition is_muxed (m : MuxedAccount) : bool := match m with MMed25519 _ _ => true | _ => false end.

Definition gracePeriod : Z := 5 * 60.

(** The first home domain whose key the operation has; the empty string counts as none. *)
Definition match_home (name : string) (homeDomains : list string) : string :=
  default EmptyString (List.find (fun d => bool_decide (name = String.append d " auth")) homeDomains).

Definition read_memo (tx : Transaction) (muxed : bool) : res (option Z) :=
  match memo tx with
  | None => Ok None
  | Some m =>
      if muxed then Err "memos are not valid for challenge transactions with a muxed client account" else
      match m with MemoID id => Ok (Some id) | _ => Err "invalid memo, only ID memos are permitted" end
  end.

Definition check_nonce (value : option (list Z)) : res unit :=
  let nonceB64 := default [] value in
  if negb (Nat.eqb (length nonceB64) 64) then Err "random nonce encoded as base64 should be 64 bytes long" else
  nonceBytes ← (match Base64.DecodeString nonceB64 with
                | Err _ => Err "failed to decode random nonce provided in manage_data operation" | r => r end);
  if negb (Nat.eqb (length nonceBytes) 48) then Err "random nonce before encoding as base64 should be 48 bytes long" else
  Ok tt.

Fixpoint check_operations (serverAccountID webAuthDomain : string) (ops : list Operation) : res unit :=
  match ops with
  | [] => Ok tt
  | OManageData op :: ops =>
      if bool_decide (md_SourceAccount op = EmptyString) then Err "operation should have a source account" else
      _ ← (if bool_decide (Name op = "web_auth_domain"%string) then
             if negb (bool_decide (md_SourceAccount op = serverAccountID))
             then Err "web auth domain operation must have server source account" else
             if negb (bool_decide (default [] (Value op) = bytes_of webAuthDomain))
             then Err "web auth domain operation value does not match" else Ok tt
           else
             if negb (bool_decide (md_SourceAccount op = serverAccountID))
             then Err "subsequent operations are unrecognized" else Ok tt);
      check_operations serverAccountID webAuthDomain ops
  | OOther _ :: _ => Err "operation type should be manage_data"
  end.

(** [now] is the time in seconds. *)
Definition ReadChallengeTx (now : Z) (challengeTx serverAccountID network webAuthDomain : string)
    (homeDomains : list string) : res (Transaction * string * string * option Z) :=
  parsed ← (match TransactionFromXDR challengeTx with Err _ => Err "could not parse challenge" | r => r end);
  match parsed with
  | GFeeBump _ => Err "challenge cannot be a fee bump transaction"
  | GSimple tx =>
      source ← env_SourceAccount (envelope tx);
      if is_muxed source
      then Err "invalid source account: only valid Ed25519 accounts are allowed in challenge transactions" else
      if negb (bool_decide (AccountID (sourceAccount tx) = serverAccountID))
      then Err "transaction source account is not equal to server's account" else
      if negb (Sequence (sourceAccount tx) =? 0) then Err "transaction sequence number must be 0" else
      if MaxTime (Timebounds tx) =? TimeoutInfinite then Err "transaction requires non-infinite timebounds" else
      if (to_int64 (now + gracePeriod) <? MinTime (Timebounds tx)) || (now >? MaxTime (Timebounds tx))
      then Err "transaction is not within range of the specified timebounds" else
      match operations tx with
      | [] => Err "transaction requires at least one manage_data operation"
      | OOther _ :: _ => Err "operation type should be manage_data"
      | OManageData op :: rest =>
          if bool_decide (md_SourceAccount op = EmptyString) then Err "operation should have a source account" else
          let matchedHomeDomain := match_home (Name op) homeDomains in
          if bool_decide (matchedHomeDomain = EmptyString) then Err "operation key does not match any homeDomains passed" else
          let clientAccountID := md_SourceAccount op in
          xops ← env_Operations (envelope tx);
          first ← from_opt "index out of range" (head xops);
          firstSource ← from_opt nil_pointer (xop_SourceAccount first);
          memo ← read_memo tx (is_muxed firstSource);
          _ ← check_nonce (Value op);
          _ ← check_operations serverAccountID webAuthDomain rest;
          _ ← verifyTxSignature tx network serverAccountID;
          Ok (tx, clientAccountID, matchedHomeDomain, memo)
      end
  end.

(** ** Verifying *)

(** The signers to look for: addresses other than the server's, once each. *)
Fixpoint client_signers (server : string) (signers seen : list string) : list string :=
  match signers with
  | [] => []
  | signer :: signers =>
      if bool_decide (signer = server) then client_signers server signers seen
      else if bool_decide (signer ∈ seen) then client_signers server signers seen
      else match Strkey.Version signer with
           | Ok v => if negb (v =? Strkey.VersionByteAccountID) then client_signers server signers seen
                     else signer :: client_signers server signers (signer :: seen)
           | _ => client_signers server signers seen
           end
  end.

(** [strkey.Version] panics on a text that decodes to no bytes. *)
Definition version_panics (server : string) (signers : list string) : bool :=
  existsb (fun s => match Strkey.Version s with Panic _ => negb (bool_decide (s = server)) | _ => false end) signers.

Definition VerifyChallengeTxSigners (now : Z) (challengeTx serverAccountID network webAuthDomain : string)
    (homeDomains signers : list string) : res (list string) :=
  '(tx, _, _, _) ← ReadChallengeTx now challengeTx serverAccountID network webAuthDomain homeDomains;
  serverKP ← ParseAddress serverAccountID;
  let server := fa_address serverKP in
  if version_panics server signers then Panic "index out of range" else
  let clientSigners := client_signers server signers [] in
  if Nat.eqb (length clientSigners) 0
  then Err "no verifiable signers provided, at least one G... address must be provided" else
  allSignersFound ← verifyTxSignatures tx network (server :: clientSigners);
  let signersFound := List.filter (fun s => negb (bool_decide (s = server))) allSignersFound in
  if negb (bool_decide (server ∈ allSignersFound)) then Err "transaction not signed by server" else
  if Nat.eqb (length signersFound) 0 then Err "transaction not signed by any client signer" else
  sigs ← Signatures tx;
  if negb (Nat.eqb (length allSignersFound) (length sigs)) then Err "transaction has unrecognized signatures" else
  Ok signersFound.

Fixpoint weight_of (summary : list (string * Z)) (s : string) : Z :=
  match summary with
  | [] => 0
  | (s', w) :: summary => if bool_decide (s = s') then w else weight_of summary s
  end.

(** The summary is a map from signers to their weights, in the order in which it
    is iterated. *)
Definition VerifyChallengeTxThreshold (now : Z) (challengeTx serverAccountID network webAuthDomain : string)
    (homeDomains : list string) (threshold : Z) (signerSummary : list (string * Z)) : res (list string) :=
  signersFound ← VerifyChallengeTxSigners now challengeTx serverAccountID network webAuthDomain homeDomains signerSummary.*1;
  let weight := fold_left (fun w s => to_int32 (w + weight_of signerSummary s)) signersFound 0 in
  if weight <? to_int32 threshold then Err "signers do not meet threshold" else
  Ok signersFound.

End Challenge.

End Challenge.
