(* ===== verification/ChallengeProofs.v ===== *)
(** * Soundness of web authentication (txnbuild/transaction.go, SEP-10)

    What an accepted challenge guarantees: its structure, and that every
    signature on it belongs to exactly one of the server and the signers
    reported. *)
From S2P Require Import Prelude Strkey Xdr XdrCodec Muxed Keypair Transactions TxProofs Challenge.
Import XdrCodec Muxed Keypair Transactions TxProofs Challenge.
Local Open Scope Z_scope.

Module ChallengeProofs.

Section Proofs.
Context {XC : XdrCodec} {OPS : Operations} {TH : TxHashing} {ED : Ed25519}.

(** The signature was made for the hash with the key of the address. *)
Definition signs (h : list Z) (s : string) (sig : DecoratedSignature) : Prop :=
  exists pub, Strkey.Decode Strkey.VersionByteAccountID s = Ok pub /\ length pub = 32%nat /\
    Hint sig = drop 28 pub /\ length (Signature sig) = 64%nat /\ ed25519_Verify pub h (Signature sig) = true.

(** ** Matching signatures *)

Lemma key_Verify_ok pub h sig : key_Verify pub h sig = Ok tt ->
  length sig = 64%nat /\ length pub = 32%nat /\ ed25519_Verify pub h sig = true.
Proof.
  unfold key_Verify. destruct (Nat.eqb_spec (length sig) 64) as [H1|]; [|done].
  destruct (Nat.eqb_spec (length pub) 32) as [H2|]; [|done]. by destruct (ed25519_Verify pub h sig).
Qed.

Lemma match_signature_sound h s kp used sigs : ParseAddress s = Ok kp -> forall i j,
  match_signature h kp used i sigs = Ok (Some j) ->
  (i <= j)%nat /\ (j ∉ used) /\ exists sig, sigs !! (j - i)%nat = Some sig /\ signs h s sig.
Proof.
  intros Hp. apply bind_Ok in Hp as (pub & Hd & [= <-]).
  induction sigs as [|sig sigs IH]; intros i j; cbn [match_signature]; [done|].
  assert (Hnext : match_signature h (mkFromAddress s pub) used (S i) sigs = Ok (Some j) ->
    (i <= j)%nat /\ (j ∉ used) /\ exists sig', (sig :: sigs) !! (j - i)%nat = Some sig' /\ signs h s sig').
  { intros H. destruct (IH _ _ H) as (H1 & H2 & sig' & H3 & H4). split; [lia|]. split; [done|]. exists sig'.
    by replace (j - i)%nat with (S (j - S i)) by lia. }
  case_bool_decide as Hu; [done|]. unfold FromAddress_Hint, FromAddress_Verify, key_hint. cbn [fa_publicKey].
  destruct (Nat.ltb_spec (length pub) 28) as [|H28]; [done|]. rewrite bind_Ok_l.
  case_bool_decide as Hh; cbn [negb]; [|done].
  destruct (key_Verify pub h (Signature sig)) as [[]|e|m] eqn:Hv; [|done|done].
  intros [= <-]. split; [done|]. split; [done|]. exists sig. rewrite Nat.sub_diag. split; [done|].
  apply key_Verify_ok in Hv as (H1 & H2 & H3). exists pub. split_and!; try done. rewrite Hh.
  apply resize_all_alt. rewrite length_drop. lia.
Qed.

(** The position [i] of the signatures was taken by the signer. *)
Definition takes (h : list Z) (sigs : list DecoratedSignature) (i : nat) (s : string) : Prop :=
  exists sig, sigs !! i = Some sig /\ signs h s sig.

Lemma match_signers_sound h sigs signers : forall used found found',
  match_signers h sigs signers used found = Ok found' -> NoDup used -> Forall2 (takes h sigs) used found ->
  exists used', NoDup used' /\ Forall2 (takes h sigs) used' found' /\
    exists new, found' = new ++ found /\ Forall (fun s => s ∈ signers) new /\ (NoDup signers -> NoDup new).
Proof.
  induction signers as [|s signers IH]; intros used found found'; cbn [match_signers].
  - intros [= <-] H1 H2. exists used. split_and!; try done. exists []. split_and!; [done|constructor|intros; apply NoDup_nil_2].
  - intros H Hn Hf. apply bind_Ok in H as (kp & Hkp & H).
    assert (Hp : ParseAddress s = Ok kp) by by destruct (ParseAddress s).
    apply bind_Ok in H as (m & Hm & H). destruct m as [i|].
    + destruct (match_signature_sound _ _ _ _ _ Hp _ _ Hm) as (_ & Hi & sig & Hsig & Hsigns). rewrite Nat.sub_0_r in Hsig.
      destruct (IH _ _ _ H) as (used' & H1 & H2 & new & -> & H4 & H5).
      * by apply NoDup_cons_2.
      * constructor; [by exists sig|done].
      * exists used'. split_and!; try done. exists (new ++ [s]). split_and!.
        -- by rewrite <- app_assoc.
        -- apply Forall_app. split; [eapply Forall_impl; [done|]; intros x Hx; by right|]. apply Forall_singleton. left.
        -- intros Hns. apply NoDup_cons in Hns as [Hs Hns]. apply NoDup_app. split; [by apply H5|].
           split; [|apply NoDup_singleton]. intros x Hx Hx'. apply list_elem_of_singleton in Hx' as ->.
           rewrite Forall_forall in H4. by apply Hs, H4.
    + destruct (IH _ _ _ H Hn Hf) as (used' & H1 & H2 & new & -> & H4 & H5).
      exists used'. split_and!; try done. exists new. split_and!; [done| |].
      * eapply Forall_impl; [done|]. intros x Hx. by right.
      * intros Hns. apply NoDup_cons in Hns as [_ Hns]. by apply H5.
Qed.

Lemma filter_elem (s x : string) l : x ∈ List.filter (fun s' => negb (bool_decide (s' = s))) l <-> x ∈ l /\ x <> s.
Proof.
  rewrite !list_elem_of_In, List.filter_In. split; intros [H1 H2]; split; try done.
  - by destruct (bool_decide_reflect (x = s)).
  - by rewrite bool_decide_false.
Qed.

(** The list of signers found is the set found, when no signer is given twice. *)
Lemma found_list_spec signers : NoDup signers -> forall found,
  NoDup (found_list signers found) /\ forall s, s ∈ found_list signers found <-> s ∈ signers /\ s ∈ found.
Proof.
  induction signers as [|s signers IH]; intros Hn found; cbn [found_list].
  - split; [apply NoDup_nil_2|]. intros s. rewrite !elem_of_nil. naive_solver.
  - apply NoDup_cons in Hn as [Hs Hn]. case_bool_decide as Hin.
    + destruct (IH Hn (List.filter (fun s' => negb (bool_decide (s' = s))) found)) as [H1 H2]. split.
      * apply NoDup_cons_2; [|done]. rewrite H2. naive_solver.
      * intros x. rewrite !elem_of_cons, H2, filter_elem. split; [naive_solver|].
        intros [[->|Hx] Hf]; [by left|]. right. split_and!; try done. intros ->. done.
    + destruct (IH Hn found) as [H1 H2]. split; [done|]. intros x. rewrite elem_of_cons, H2. naive_solver.
Qed.

Lemma verifyTxSignatures_sound tx network signers found : verifyTxSignatures tx network signers = Ok found ->
  NoDup signers -> exists h sigs used, Hash tx network = Ok h /\ Signatures tx = Ok sigs /\
    NoDup found /\ (forall s, s ∈ found -> s ∈ signers) /\ NoDup used /\ Forall2 (takes h sigs) used found.
Proof.
  unfold verifyTxSignatures. intros H Hn. apply bind_Ok in H as (h & Hh & H). apply bind_Ok in H as (sigs & Hs & H).
  apply bind_Ok in H as (all & Hall & [= <-]).
  destruct (match_signers_sound _ _ _ _ _ _ Hall (NoDup_nil_2) ltac:(constructor)) as (used & H1 & H2 & new & Hnew & H3 & H4).
  rewrite app_nil_r in Hnew. subst new. rewrite Forall_forall in H3.
  destruct (found_list_spec signers Hn all) as [Hf1 Hf2].
  assert (Hperm : Permutation all (found_list signers all)).
  { apply NoDup_Permutation; [by apply H4|done|]. intros x. rewrite Hf2. split; [|by intros []]. intros Hx. split; [by apply H3|done]. }
  apply Forall2_flip in H2. destruct (Permutation_Forall2 Hperm H2) as (used' & Hp' & H2').
  exists h, sigs, used'. split_and!; try done.
  - intros s Hs'. apply Hf2 in Hs'. by destruct Hs'.
  - by rewrite <- Hp'.
  - by apply Forall2_flip.
Qed.

(** When all signatures are taken, every one has its owner. *)
Lemma owners_of h sigs used found : NoDup used -> Forall2 (takes h sigs) used found -> length found = length sigs ->
  exists owners, Permutation owners found /\ Forall2 (signs h) owners sigs.
Proof.
  intros Hn Hf Hl.
  assert (Hlt : forall i, i ∈ used -> (i < length sigs)%nat).
  { intros i Hi. apply list_elem_of_lookup in Hi as [k Hk]. destruct (Forall2_lookup_l _ _ _ _ _ Hf Hk) as (s & _ & sig & Hs & _).
    by apply lookup_lt_Some in Hs. }
  assert (Hp : Permutation used (seq 0 (length sigs))).
  { apply NoDup_Permutation_bis.
    - by apply NoDup_ListNoDup.
    - rewrite length_seq. pose proof (Forall2_length _ _ _ Hf). lia.
    - intros i Hi. apply in_seq. apply list_elem_of_In in Hi. apply Hlt in Hi. lia. }
  destruct (Permutation_Forall2 Hp Hf) as (owners & Hperm & Ho). exists owners. split; [done|].
  clear -Ho. assert (Hgen : forall pre, Forall2 (takes h (pre ++ sigs)) (seq (length pre) (length sigs)) owners -> Forall2 (signs h) owners sigs).
  { clear Ho. revert owners. induction sigs as [|sig sigs IH]; intros owners pre H; cbn [length seq] in H.
    - inversion H. constructor.
    - inversion H as [|? ? ? ? Ht Hrest]; subst. constructor.
      + destruct Ht as (sig' & Hs & Hsig). rewrite lookup_app_r, Nat.sub_diag in Hs by lia. by injection Hs as <-.
      + apply (IH _ (pre ++ [sig])). rewrite <- app_assoc, length_app, Nat.add_comm. done. }
  by apply (Hgen []).
Qed.

(** ** The structure of an accepted challenge *)

(** An operation that the server added to the challenge. *)
Definition server_operation (server web : string) (o : Operation) : Prop :=
  exists md, o = OManageData md /\ md_SourceAccount md = server /\
    (Name md = "web_auth_domain"%string -> default [] (Value md) = bytes_of web).

Record challenge (now : Z) (server network web : string) (homes : list string) (tx : Transaction)
    (client home : string) (m : option Z) : Prop := {
  ch_source : AccountID (sourceAccount tx) = server;
  ch_sequence : Sequence (sourceAccount tx) = 0;
  ch_time : MaxTime (Timebounds tx) <> 0 /\ now <= MaxTime (Timebounds tx) /\
    MinTime (Timebounds tx) <= to_int64 (now + 300);
  ch_operations : exists first rest nonce, operations tx = OManageData first :: rest /\
    md_SourceAccount first = client /\ client <> EmptyString /\
    home ∈ homes /\ home <> EmptyString /\ Name first = String.append home " auth" /\
    Base64.DecodeString (default [] (Value first)) = Ok nonce /\ length nonce = 48%nat /\
    Forall (server_operation server web) rest;
  ch_memo : memo tx = MemoID <$> m;
  ch_server_signed : exists h sigs sig, Hash tx network = Ok h /\ Signatures tx = Ok sigs /\ sig ∈ sigs /\ signs h server sig
}.

Lemma check_operations_sound server web ops : check_operations server web ops = Ok tt ->
  Forall (server_operation server web) ops.
Proof.
  induction ops as [|[md|o] ops IH]; cbn [check_operations]; [constructor| |done].
  case_bool_decide as Hs; [done|]. intros H. apply bind_Ok in H as ([] & Hc & H). constructor; [|by apply IH].
  exists md. split; [done|]. case_bool_decide as Hn; case_bool_decide as Hsrc; cbn [negb] in Hc; try done.
  split; [done|]. intros _. by case_bool_decide.
Qed.

Lemma match_home_sound name homes home : match_home name homes = home -> home <> EmptyString ->
  home ∈ homes /\ name = String.append home " auth".
Proof.
  unfold match_home. destruct (List.find _ homes) as [d|] eqn:E; cbn; intros <- Hne; [|done].
  apply List.find_some in E as [Hin Hd]. split; [by apply list_elem_of_In|]. by apply bool_decide_eq_true in Hd.
Qed.

Lemma verifyTxSignature_sound tx network server : verifyTxSignature tx network server = Ok tt ->
  exists h sigs sig, Hash tx network = Ok h /\ Signatures tx = Ok sigs /\ sig ∈ sigs /\ signs h server sig.
Proof.
  unfold verifyTxSignature. destruct (verifyTxSignatures tx network [server]) as [[|s found]| |] eqn:E; try done. intros _.
  destruct (verifyTxSignatures_sound _ _ _ _ E (NoDup_singleton server)) as (h & sigs & used & H1 & H2 & _ & H3 & _ & H4).
  inversion H4 as [|i s' used' found' (sig & Hs & Hsig) _]; subst. exists h, sigs, sig. split_and!; try done.
  - by eapply list_elem_of_lookup_2.
  - assert (s = server) as -> by (apply list_elem_of_singleton, H3; left). done.
Qed.

Context (SafeUnmarshalBase64 : string -> res TransactionEnvelope).

Lemma ReadChallengeTx_challenge now text server network web homes tx client home m :
  ReadChallengeTx SafeUnmarshalBase64 now text server network web homes = Ok (tx, client, home, m) ->
  (exists env, SafeUnmarshalBase64 text = Ok env /\ transactionFromParsedXDR env = Ok (GSimple tx)) /\
  challenge now server network web homes tx client home m.
Proof.
  unfold ReadChallengeTx, TransactionFromXDR. intros H. apply bind_Ok in H as (parsed & Hp & H).
  destruct parsed as [tx'|]; [|done]. apply bind_Ok in H as (source & Hsrc & H).
  destruct (is_muxed source); [done|]. case_bool_decide as Hacc; cbn [negb] in H; [|done].
  destruct (Z.eqb_spec (Sequence (sourceAccount tx')) 0) as [Hseq|]; [|done]. cbn [negb] in H.
  destruct (Z.eqb_spec (MaxTime (Timebounds tx')) TimeoutInfinite) as [|Hmax]; [done|].
  destruct ((_ <? _) || _) eqn:Htime in H; [done|]. destruct (operations tx') as [|[op|o] rest] eqn:Hops; [done| |done].
  case_bool_decide as Hsa; [done|]. case_bool_decide as Hhome; [done|].
  apply bind_Ok in H as (xops & _ & H). apply bind_Ok in H as (first & _ & H). apply bind_Ok in H as (fs & _ & H).
  apply bind_Ok in H as (m' & Hm & H). apply bind_Ok in H as ([] & Hnonce & H). apply bind_Ok in H as ([] & Hrest & H).
  apply bind_Ok in H as ([] & Hsig & [= <- <- <- <-]). split.
  - destruct (SafeUnmarshalBase64 text) as [env|?|?]; [|done|done]. exists env. split; [done|]. rewrite bind_Ok_l in Hp.
    by destruct (transactionFromParsedXDR env).
  - apply orb_false_iff in Htime as [Ht1 Ht2]. apply Z.ltb_ge in Ht1. rewrite Z.gtb_ltb in Ht2. apply Z.ltb_ge in Ht2.
    destruct (match_home_sound _ _ _ eq_refl Hhome) as [Hin Hname].
    unfold check_nonce in Hnonce. destruct (Nat.eqb (length (default [] (Value op))) 64); [|done]. cbn [negb] in Hnonce.
    apply bind_Ok in Hnonce as (nonce & Hdec & Hnonce). destruct (Nat.eqb_spec (length nonce) 48); [|done].
    split; try done.
    + exists op, rest, nonce. split_and!; try done; [|by apply check_operations_sound].
      by destruct (Base64.DecodeString (default [] (Value op))).
    + unfold read_memo in Hm. destruct (memo tx') as [mm|]; [|by injection Hm as <-].
      destruct (is_muxed fs); [done|]. destruct mm; try done. by injection Hm as <-.
    + by apply verifyTxSignature_sound.
Qed.

(** ** Verifying signers *)

Lemma client_signers_spec server signers : forall seen,
  NoDup (client_signers server signers seen) /\
  forall s, s ∈ client_signers server signers seen -> s ∈ signers /\ s <> server /\ (s ∉ seen) /\
    Strkey.Version s = Ok Strkey.VersionByteAccountID.
Proof.
  induction signers as [|s signers IH]; intros seen; cbn [client_signers].
  - split; [apply NoDup_nil_2|]. by intros s ?%elem_of_nil.
  - assert (Hskip : NoDup (client_signers server signers seen) /\
      forall s', s' ∈ client_signers server signers seen -> s' ∈ s :: signers /\ s' <> server /\ (s' ∉ seen) /\
        Strkey.Version s' = Ok Strkey.VersionByteAccountID).
    { destruct (IH seen) as [H1 H2]. split; [done|]. intros s' Hs'. apply H2 in Hs' as (? & ? & ? & ?). split_and!; try done. by right. }
    case_bool_decide as Hs; [done|]. case_bool_decide as Hseen; [done|].
    destruct (Strkey.Version s) as [v|?|?] eqn:Hv; [|done|done].
    destruct (Z.eqb_spec v Strkey.VersionByteAccountID) as [->|]; cbn [negb]; [|done].
    destruct (IH (s :: seen)) as [H1 H2]. split.
    + apply NoDup_cons_2; [|done]. intros Hin. apply H2 in Hin as (_ & _ & Hns & _). apply Hns. left.
    + intros s' Hs'. apply elem_of_cons in Hs' as [->|Hs'].
      * split_and!; try done. left.
      * apply H2 in Hs' as (? & ? & Hns & ?). split_and!; try done; [by right|]. intros ?. apply Hns. by right.
Qed.

Lemma filter_perm (server : string) l : NoDup l -> server ∈ l ->
  Permutation l (server :: List.filter (fun s => negb (bool_decide (s = server))) l).
Proof.
  intros Hn Hin. apply NoDup_Permutation; [done| |].
  - apply NoDup_cons_2; [rewrite filter_elem; naive_solver|]. apply NoDup_ListNoDup, List.NoDup_filter, NoDup_ListNoDup, Hn.
  - intros x. rewrite elem_of_cons, filter_elem. destruct (decide (x = server)) as [->|]; naive_solver.
Qed.

(** What a list of accepted signers means. *)
Definition accepted (now : Z) (text server network web : string) (homes signers found : list string) : Prop :=
  exists tx client home m h sigs owners,
    ReadChallengeTx SafeUnmarshalBase64 now text server network web homes = Ok (tx, client, home, m) /\
    challenge now server network web homes tx client home m /\
    Hash tx network = Ok h /\ Signatures tx = Ok sigs /\
    found <> [] /\ NoDup found /\
    (forall s, s ∈ found -> s ∈ signers /\ s <> server /\ Strkey.Version s = Ok Strkey.VersionByteAccountID) /\
    Permutation owners (server :: found) /\ Forall2 (signs h) owners sigs.

Lemma VerifyChallengeTxSigners_accepted now text server network web homes signers found :
  VerifyChallengeTxSigners SafeUnmarshalBase64 now text server network web homes signers = Ok found ->
  accepted now text server network web homes signers found.
Proof.
  unfold VerifyChallengeTxSigners. intros H. apply bind_Ok in H as ([[[tx client] home] m] & Hread & H).
  apply bind_Ok in H as (kp & Hkp & H). apply bind_Ok in Hkp as (pub & _ & [= <-]). cbn [fa_address] in H.
  destruct (version_panics server signers); [done|].
  destruct (client_signers_spec server signers []) as [Hc1 Hc2]. set (clients := client_signers server signers []) in *.
  destruct (Nat.eqb (length clients) 0); [done|]. apply bind_Ok in H as (all & Hall & H).
  assert (Hns : NoDup (server :: clients)).
  { apply NoDup_cons_2; [|done]. intros Hin. apply Hc2 in Hin. naive_solver. }
  destruct (verifyTxSignatures_sound _ _ _ _ Hall Hns) as (h & sigs & used & Hh & Hsigs & Hnd & Hsub & Hu & Ht).
  case_bool_decide as Hserver; cbn [negb] in H; [|done].
  set (f := List.filter _ all) in H. destruct (Nat.eqb_spec (length f) 0) as [|Hne]; [done|].
  apply bind_Ok in H as (sigs' & Hsigs' & H). assert (sigs' = sigs) as -> by congruence.
  destruct (Nat.eqb_spec (length all) (length sigs)) as [Hlen|]; [|done]. injection H as <-.
  destruct (owners_of h sigs used all Hu Ht Hlen) as (owners & Hperm & Hown).
  destruct (ReadChallengeTx_challenge _ _ _ _ _ _ _ _ _ _ Hread) as [_ Hch].
  exists tx, client, home, m, h, sigs, owners. split_and!; try done.
  - intros Heq. by rewrite Heq in Hne.
  - apply NoDup_ListNoDup, List.NoDup_filter, NoDup_ListNoDup, Hnd.
  - intros s Hs. apply filter_elem in Hs as [Hs Hss]. apply Hsub in Hs. apply elem_of_cons in Hs as [|Hs]; [done|].
    apply Hc2 in Hs as (? & ? & _ & ?). done.
  - etrans; [done|]. by apply filter_perm.
Qed.

End Proofs.

End ChallengeProofs.
