(* ===== verification/ChallengeComplete.v ===== *)
(** * Completeness of web authentication (txnbuild/transaction.go, SEP-10)

    A challenge that the server built and the client signed is accepted: the
    path from [BuildChallengeTx] through [Sign] and the wire format to
    [VerifyChallengeTxSigners].  The theorems on accepted challenges are here
    too, with their witnesses. *)
From S2P Require Import Prelude Strkey Xdr XdrCodec Muxed Keypair Transactions TxProofs Challenge ChallengeProofs.
Import XdrCodec Muxed Keypair Transactions TxProofs Challenge ChallengeProofs.
Local Open Scope Z_scope.

Module ChallengeComplete.

Section Complete.
Context {XC : XdrCodec} {CL : CodecLaws} {OPS : Operations} {TH : TxHashing} {ED : Ed25519} {EL : Ed25519Laws}.

(** ** Keypairs and their signatures *)

(** A keypair made from a seed. *)
Definition good (k : Full) : Prop := exists raw, length raw = 32%nat /\ Forall is_byte raw /\ FromRawSeed raw = Ok k.

Definition signed (h : list Z) (k : Full) : DecoratedSignature :=
  mkDecorated (drop 28 (publicKey k)) (ed25519_Sign (privateKey k) h).

Record good_facts (k : Full) : Prop := {
  gf_parse : Parse (seed k) = Ok (KFull k);
  gf_address : ParseAddress (address k) = Ok (mkFromAddress (address k) (publicKey k));
  gf_text : address k = Muxed.address (MEd25519 (publicKey k));
  gf_wf : Muxed.wf (MEd25519 (publicKey k));
  gf_version : Strkey.Version (address k) = Ok Strkey.VersionByteAccountID;
  gf_hint : key_hint (publicKey k) = Ok (drop 28 (publicKey k));
  gf_verify h : key_Verify (publicKey k) h (ed25519_Sign (privateKey k) h) = Ok tt
}.

Lemma good_ok k : good k -> good_facts k.
Proof.
  intros (raw & Hl & Hb & Hk). destruct (FromRawSeed_ok raw Hl Hb) as (k' & Hk' & Hpub & Hpriv & Haddr & Hparse & Hpa).
  assert (k' = k) as -> by congruence. destruct (public_of_ok raw Hl Hb) as [Hpl Hpb].
  assert (Htext : address k = Strkey.text Strkey.VersionByteAccountID (public_of raw)).
  { rewrite Haddr. unfold AccountId.address, AccountId.GetAddress. cbn [AccountId.Ed25519].
    by rewrite Strkey.Encode_text by (done || unfold Strkey.maxPayloadSize; lia). }
  split.
  - done.
  - by rewrite Hpub.
  - by rewrite Hpub, Htext.
  - by rewrite Hpub.
  - rewrite Htext. by apply Strkey.Decode_text.
  - rewrite Hpub. unfold key_hint. rewrite Hpl. cbn [Nat.ltb Nat.leb]. f_equal. apply resize_all_alt. rewrite length_drop. lia.
  - intros h. unfold key_Verify. rewrite Hpub, Hpriv, Sign_length, Hpl, Verify_Sign by done. done.
Qed.

Lemma good_sign k h : good k -> Full_SignDecorated k h = Ok (signed h k).
Proof.
  intros Hk. apply good_ok in Hk. unfold Full_SignDecorated, Full_Sign, Full_Hint. by rewrite bind_Ok_l, (gf_hint _ Hk).
Qed.

Lemma sign_all_good h ks : Forall good ks -> sign_all h ks = Ok (map (signed h) ks).
Proof. induction 1 as [|k ks Hk _ IH]; [done|]. cbn [sign_all map]. by rewrite good_sign, bind_Ok_l, IH. Qed.

(** ** Matching in order *)

Lemma match_signature_at h k used sigs : good k -> forall n i, (forall j, (j < n)%nat -> (i + j)%nat ∈ used) ->
  (i + n)%nat ∉ used -> sigs !! n = Some (signed h k) ->
  match_signature h (mkFromAddress (address k) (publicKey k)) used i sigs = Ok (Some (i + n)%nat).
Proof.
  intros Hk. apply good_ok in Hk. induction sigs as [|sig sigs IH]; intros n i Hused Hn Hs; [done|]. cbn [match_signature].
  destruct n as [|n].
  - rewrite Nat.add_0_r in *. rewrite bool_decide_false by done. unfold FromAddress_Hint, FromAddress_Verify.
    cbn [fa_publicKey]. injection Hs as ->. rewrite (gf_hint _ Hk), bind_Ok_l. cbn [signed Hint Signature].
    rewrite bool_decide_true by done. cbn [negb]. by rewrite (gf_verify _ Hk).
  - rewrite bool_decide_true; cycle 1. { specialize (Hused 0%nat ltac:(lia)). by rewrite Nat.add_0_r in Hused. }
    replace (i + S n)%nat with (S i + n)%nat in * by lia. apply IH; [|done|done].
    intros j Hj. replace (S i + j)%nat with (i + S j)%nat by lia. apply Hused. lia.
Qed.

Lemma match_signers_all h ks : Forall good ks -> forall pre used found,
  (forall i, i ∈ used <-> (i < length pre)%nat) ->
  match_signers h (pre ++ map (signed h) ks) (map address ks) used found = Ok (rev (map address ks) ++ found).
Proof.
  induction 1 as [|k ks Hk _ IH]; intros pre used found Hused; [done|]. cbn [map match_signers].
  rewrite (gf_address _ (good_ok _ Hk)), bind_Ok_l.
  rewrite (match_signature_at h k used _ Hk (length pre) 0); cycle 1.
  - intros j Hj. by apply Hused.
  - rewrite Hused. cbn. lia.
  - rewrite lookup_app_r, Nat.sub_diag by lia. done.
  - rewrite bind_Ok_l. cbn [Nat.add]. replace (pre ++ signed h k :: map (signed h) ks) with ((pre ++ [signed h k]) ++ map (signed h) ks)
      by by rewrite <- app_assoc.
    rewrite IH.
    + cbn [rev]. by rewrite <- app_assoc.
    + intros i. rewrite elem_of_cons, Hused, length_app. cbn [length]. lia.
Qed.

Lemma found_list_all signers : NoDup signers -> forall found, (forall s, s ∈ signers -> s ∈ found) ->
  found_list signers found = signers.
Proof.
  induction signers as [|s signers IH]; intros Hn found Hf; [done|]. cbn [found_list]. apply NoDup_cons in Hn as [Hs Hn].
  rewrite bool_decide_true by (apply Hf; left). f_equal. apply IH; [done|]. intros x Hx. apply filter_elem.
  split; [apply Hf; by right|]. intros ->. done.
Qed.

Lemma verify_all tx network h ks sigs : Hash tx network = Ok h -> Signatures tx = Ok (map (signed h) ks ++ sigs) ->
  sigs = [] \/ (length ks <= 1)%nat ->
  Forall good ks -> NoDup (map address ks) -> verifyTxSignatures tx network (map address ks) = Ok (map address ks).
Proof.
  intros Hh Hs Hor Hk Hn. unfold verifyTxSignatures. rewrite Hh, bind_Ok_l, Hs, bind_Ok_l.
  assert (Hm : match_signers h (map (signed h) ks ++ sigs) (map address ks) [] [] = Ok (rev (map address ks) ++ [])).
  { destruct Hor as [->|Hone].
    - rewrite app_nil_r. apply (match_signers_all h ks Hk []). intros i. rewrite elem_of_nil. cbn. lia.
    - destruct ks as [|k [|? ?]]; [done| |simpl in Hone; lia]. apply Forall_cons in Hk as [Hk _]. cbn [map match_signers app].
      rewrite (gf_address _ (good_ok _ Hk)), bind_Ok_l.
      rewrite (match_signature_at h k [] _ Hk 0 0); [done|intros; lia|apply not_elem_of_nil|done]. }
  rewrite Hm, bind_Ok_l, app_nil_r, found_list_all; [done|done|]. intros s Hs'. by rewrite list_elem_of_In, <- in_rev, <- list_elem_of_In.
Qed.

Lemma client_signers_all server ks : Forall good ks -> forall seen, (server ∉ map address ks) ->
  NoDup (map address ks) -> (forall s, s ∈ map address ks -> s ∉ seen) ->
  client_signers server (map address ks) seen = map address ks.
Proof.
  induction 1 as [|k ks Hk _ IH]; intros seen Hs Hn Hseen; [done|]. cbn [map client_signers] in *.
  apply NoDup_cons in Hn as [Hni Hn].
  rewrite bool_decide_false by (intros Heq; apply Hs; rewrite Heq; left). rewrite bool_decide_false by (apply Hseen; left).
  rewrite (gf_version _ (good_ok _ Hk)), Z.eqb_refl. cbn [negb]. f_equal. apply IH.
  - intros Hin. apply Hs. by right.
  - done.
  - intros s Hin. apply not_elem_of_cons. split; [by intros ->|]. apply Hseen. by right.
Qed.

Lemma good_no_panic server ks : Forall good ks -> version_panics server (map address ks) = false.
Proof.
  induction 1 as [|k ks Hk _ IH]; [done|]. unfold version_panics in *. cbn [map existsb].
  by rewrite (gf_version _ (good_ok _ Hk)).
Qed.

(** ** The transaction of a challenge *)

(** Signatures do not take part in hashing and parsing. *)
Lemma parse_signatures t sigs sigs' T : simpleFromParsedXDR (EnvTx (mkV1Envelope t sigs)) = Ok T ->
  simpleFromParsedXDR (EnvTx (mkV1Envelope t sigs')) = Ok (with_envelope T (EnvTx (mkV1Envelope t sigs'))).
Proof.
  unfold simpleFromParsedXDR, env_SourceAccount, env_Fee, env_Operations, env_SeqNum, env_Preconditions, env_Memo.
  cbn [env_access V1_Tx]. intros H. rewrite bind_Ok_l in H |- *. apply bind_Ok in H as (a & Ha & H). rewrite Ha, !bind_Ok_l in *.
  apply bind_Ok in H as (mm & Hm & H). rewrite Hm, bind_Ok_l in *. apply bind_Ok in H as (ops & Ho & [= <-]).
  by rewrite Ho, bind_Ok_l.
Qed.

Lemma Sign_good tx t sigs network h ks : envelope tx = EnvTx (mkV1Envelope t sigs) -> HashTransaction t network = Ok h ->
  Forall good ks -> Sign tx network ks = Ok (with_envelope tx (EnvTx (mkV1Envelope t (sigs ++ map (signed h) ks)))).
Proof.
  intros He Hh Hk. unfold Sign, Signatures, env_Signatures, concatSignatures, clone. rewrite He. cbn [env_access V1_Signatures].
  rewrite bind_Ok_l. cbn [HashTransactionInEnvelope V1_Tx]. rewrite Hh, bind_Ok_l, sign_all_good, bind_Ok_l by done.
  rewrite bind_Ok_l. cbn [set_signatures V1_Tx]. by rewrite bind_Ok_l.
Qed.

(** The parameters of the transaction that [BuildChallengeTx] builds. *)
Definition challenge_params (server client web home : string) (timebound : Z) (m : option Z) (now : Z) (nonce : list Z) :
    TransactionParams :=
  mkTransactionParams (Some (mkSimpleAccount server 0)) false
    [OManageData (mkManageData (String.append home " auth") (Some (Base64.EncodeToString nonce)) client);
     OManageData (mkManageData "web_auth_domain" (Some (bytes_of web)) server)]
    MinBaseFee (MemoID <$> m)
    (time_Preconditions (NewTimebounds (now / Second) ((now + timebound) / Second))).

Lemma Build_inv server client web home network timebound m now nonce tx : good server ->
  BuildChallengeTx (seed server) client web home network timebound m now (Ok nonce) = Ok tx ->
  Second <= timebound /\ length (Base64.EncodeToString nonce) = 64%nat /\
  (is_ok (AccountId.AddressToAccountId client) = true \/ is_ok (AddressToMuxedAccount client) = true /\ m = None) /\
  exists tx0 t h, build_transaction (challenge_params (address server) client web home timebound m now nonce)
      (mkSimpleAccount (address server) 0) = Ok tx0 /\
    envelope tx0 = EnvTx (mkV1Envelope t []) /\ HashTransaction t network = Ok h /\
    tx = with_envelope tx0 (EnvTx (mkV1Envelope t [signed h server])).
Proof.
  intros Hs. unfold BuildChallengeTx. destruct (Z.ltb_spec timebound Second) as [|Htb]; [done|].
  rewrite (gf_parse _ (good_ok _ Hs)), !bind_Ok_l. destruct (Nat.eqb_spec (length (Base64.EncodeToString nonce)) 64) as [Hl|]; [|done].
  cbn [negb KP_Address]. intros H. apply bind_Ok in H as ([] & Hc & H). split; [done|]. split; [done|]. split.
  { destruct (AccountId.AddressToAccountId client); [by left| |done]. right. destruct (AddressToMuxedAccount client); [|done|done].
    split; [done|]. destruct m; [|done]. by rewrite bool_decide_true in Hc by done. }
  replace (match m with Some id => Some (MemoID id) | None => None end) with (MemoID <$> m) in H by by destruct m.
  fold (challenge_params (address server) client web home timebound m now nonce) in H. cbn [NewTransaction] in H.
  unfold NewTransaction in H. cbn [challenge_params p_SourceAccount IncrementSequenceNum snd] in H.
  apply bind_Ok in H as (tx0 & H0 & H). fold (challenge_params (address server) client web home timebound m now nonce) in H0.
  destruct (build_transaction_inv _ _ _ H0) as (mm & cond & xm & ops & xops & sor & ext & _ & _ & _ & _ & _ & _ & _ & _ & _ & Htx).
  cbv zeta in Htx. match type of Htx with _ = mkTransaction (EnvTx (mkV1Envelope ?t [])) _ _ _ _ _ _ => set (t0 := t) in Htx end.
  assert (He : envelope tx0 = EnvTx (mkV1Envelope t0 [])) by by rewrite Htx.
  destruct (HashTransaction t0 network) as [h|e|p] eqn:Hh.
  - exists tx0, t0, h. split; [done|]. split; [done|]. split; [done|].
    rewrite (Sign_good tx0 t0 [] network h [server] He Hh) in H by by apply Forall_singleton. by injection H as <-.
  - exfalso. unfold Sign, Signatures, env_Signatures, concatSignatures in H. rewrite He in H.
    cbn [env_access V1_Signatures] in H. rewrite bind_Ok_l in H. cbn [HashTransactionInEnvelope V1_Tx] in H. by rewrite Hh in H.
  - exfalso. unfold Sign, Signatures, env_Signatures, concatSignatures in H. rewrite He in H.
    cbn [env_access V1_Signatures] in H. rewrite bind_Ok_l in H. cbn [HashTransactionInEnvelope V1_Tx] in H. by rewrite Hh in H.
Qed.

Lemma build_operations_head md ops acc os xs e : build_operations (OManageData md :: ops) acc = Ok (os, xs, e) ->
  exists x xs', xs = x :: xs' /\ xop_SourceAccount x = SetOpSourceAccount (md_SourceAccount md).
Proof.
  cbn [build_operations op_BuildXDR]. intros H. apply bind_Ok in H as ([] & _ & H).
  apply bind_Ok in H as ([o x] & Hx & H). unfold ManageData_BuildXDR in Hx. rewrite bind_Ok_l in Hx. injection Hx as <- <-.
  apply bind_Ok in H as ([[os' xs'] e'] & _ & [= <- <- <-]). by eexists _, xs'.
Qed.

(** Building leaves ManageData operations as they are. *)
Lemma built_data ops os : Forall2 built ops os ->
  Forall (fun o => match o with OManageData _ => True | OOther _ => False end) ops -> os = ops.
Proof.
  induction 1 as [|o o1 ops os [x Hx] _ IH]; intros Hd; [done|]. inversion_clear Hd as [|? ? Ho Hops].
  rewrite IH by done. destruct o as [md|]; [|done]. cbn [op_BuildXDR] in Hx. unfold ManageData_BuildXDR in Hx.
  rewrite bind_Ok_l in Hx. by injection Hx as <- _.
Qed.

Lemma append_auth_inj a b : String.append a " auth" = String.append b " auth" -> a = b.
Proof.
  intros H. apply (f_equal bytes_of) in H. rewrite !GoString.bytes_of_app in H. apply app_inj_2 in H as [H _]; [|done].
  by apply GoString.bytes_of_inj.
Qed.

Lemma match_home_in home homes : home ∈ homes -> match_home (String.append home " auth") homes = home.
Proof.
  intros Hin. unfold match_home. destruct (List.find _ homes) as [d|] eqn:E.
  - apply List.find_some in E as [_ E]. apply bool_decide_eq_true in E. apply append_auth_inj in E. by subst.
  - apply list_elem_of_In in Hin. apply (List.find_none _ _ E) in Hin. by rewrite bool_decide_true in Hin.
Qed.

(** A muxed address is not the address of a plain account. *)
Lemma muxed_not_account mx : Muxed.wf mx -> is_muxed mx = true -> is_ok (AccountId.AddressToAccountId (Muxed.address mx)) = false.
Proof.
  destruct mx as [|id key|]; cbn [Muxed.wf is_muxed]; try done. intros (Hi & Hl & Hb) _. cbn [Muxed.address].
  destruct (muxed_raw id key Hl Hb) as [_ H2].
  destruct (Strkey.Decode_text Strkey.VersionByteMuxedAccount _ eq_refl H2) as (_ & _ & Hv & Hn).
  unfold AccountId.AddressToAccountId, AccountId.SetAddress, muxed_text.
  destruct (Strkey.Decode Strkey.VersionByteAccountID _) as [raw|e|p] eqn:Hd; [|done|done]. exfalso.
  destruct (Strkey.Decode_canonical _ _ _ Hn Hd) as (_ & Htext & Hraw). rewrite Htext in Hv.
  destruct (Strkey.Decode_text Strkey.VersionByteAccountID raw eq_refl Hraw) as (_ & _ & Hv' & _). rewrite Hv' in Hv. discriminate.
Qed.

Context (SafeUnmarshalBase64 : string -> res TransactionEnvelope).

(** A challenge signed by the server, and perhaps by others, is read. *)
Lemma Read_complete server client mx web home homes network timebound m now nonce tx0 t h sigs text later :
  good server -> Muxed.wf mx -> client = Muxed.address mx -> (is_muxed mx = true -> m = None) ->
  home <> EmptyString -> home ∈ homes -> Forall is_byte nonce -> length nonce = 48%nat ->
  0 <= now -> Second <= timebound -> now + timebound < 2 ^ 63 ->
  now / Second - 300 <= later <= (now + timebound) / Second ->
  build_transaction (challenge_params (address server) client web home timebound m now nonce)
    (mkSimpleAccount (address server) 0) = Ok tx0 ->
  envelope tx0 = EnvTx (mkV1Envelope t []) -> HashTransaction t network = Ok h ->
  SafeUnmarshalBase64 text = Ok (EnvTx (mkV1Envelope t (signed h server :: sigs))) ->
  ReadChallengeTx SafeUnmarshalBase64 later text (address server) network web homes =
    Ok (with_envelope tx0 (EnvTx (mkV1Envelope t (signed h server :: sigs))), client, home, m).
Proof.
  intros Hs Hmx Hclient Hmuxed Hhome Hin Hnb Hnl Hnow Htb Hmax Hlater Hbuild He Hh Htext.
  pose proof (good_ok _ Hs) as Gs. set (params := challenge_params _ _ _ _ _ _ _ _) in Hbuild.
  assert (Hq1 : 0 <= now / Second) by (apply Z.div_pos; unfold Second in *; lia).
  assert (Hq2 : now / Second < 2 ^ 62) by (apply Z.div_lt_upper_bound; unfold Second in *; lia).
  assert (Hq3 : 1 <= (now + timebound) / Second) by (apply Z.div_le_lower_bound; unfold Second in *; lia).
  assert (Hq4 : (now + timebound) / Second < 2 ^ 62) by (apply Z.div_lt_upper_bound; unfold Second in *; lia).
  assert (Hcond : cond_typed (p_Preconditions params)).
  { unfold cond_typed, in_int. cbn. split_and!; (lia || done || apply Forall_nil_2). }
  assert (Hops : Forall (op_stable (tx_ext tx0)) (p_Operations params)).
  { apply Forall_cons_2; [right; by exists mx|]. apply Forall_cons_2; [|apply Forall_nil_2]. right.
    exists (MEd25519 (publicKey server)). split; [apply Gs|apply (gf_text _ Gs)]. }
  destruct (build_transaction_parse _ _ _ Hbuild) as (Hparse & _ & _ & _ & Hbuilt); [unfold in_int; cbn; unfold MinBaseFee; lia|cbn; lia|done|done|].
  destruct (build_transaction_inv _ _ _ Hbuild) as (mm & cond & xm & ops & xops & sor & ext & Hsrc & _ & _ & _ & _ & _ & _ & Hxops & _ & Htx).
  cbv zeta in Htx. rewrite (gf_text _ Gs) in Hsrc at 1. cbn [AccountID] in Hsrc. rewrite SetAddress_wf in Hsrc by apply Gs. injection Hsrc as <-.
  destruct (build_operations_head _ _ _ _ _ _ Hxops) as (x & xs & Hx & Hxsrc). cbn [md_SourceAccount] in Hxsrc.
  rewrite He in Hparse. apply (parse_signatures _ _ (signed h server :: sigs)) in Hparse.
  set (env := EnvTx (mkV1Envelope t (signed h server :: sigs))) in *.
  assert (Hop0 : operations tx0 = p_Operations params) by
    (apply (built_data _ _ Hbuilt); unfold params; cbn [challenge_params p_Operations]; by repeat constructor).
  assert (Hnorm : with_envelope (normal_tx tx0) env = with_envelope tx0 env).
  { unfold with_envelope, normal_tx. cbn [baseFee maxFee sourceAccount operations memo preconditions].
    f_equal; [by rewrite Hop0|by rewrite Htx]. }
  rewrite Hnorm in Hparse. set (T := with_envelope tx0 env) in *.
  assert (Ht : x_SourceAccount t = MEd25519 (publicKey server) /\ x_Operations t = xops).
  { rewrite Htx in He. cbn [envelope] in He. by injection He as <-. }
  assert (HenvS : env_SourceAccount (envelope T) = Ok (MEd25519 (publicKey server))) by (rewrite <- (proj1 Ht); done).
  assert (HenvO : env_Operations (envelope T) = Ok xops) by (rewrite <- (proj2 Ht); done).
  unfold ReadChallengeTx, TransactionFromXDR. rewrite Htext, bind_Ok_l. unfold env at 1. cbn [transactionFromParsedXDR]. fold env.
  rewrite Hparse, !bind_Ok_l, HenvS, bind_Ok_l. cbn [is_muxed].
  assert (Hsa : sourceAccount T = mkSimpleAccount (address server) 0) by (unfold T; rewrite Htx; done).
  assert (HT : Timebounds T = NewTimebounds (now / Second) ((now + timebound) / Second)) by (unfold T; rewrite Htx; done).
  assert (Hop : operations T = p_Operations params) by exact Hop0.
  assert (Hmm : memo T = MemoID <$> m) by (unfold T; rewrite Htx; done).
  rewrite Hsa, HT, Hop. cbn [AccountID Sequence MaxTime MinTime NewTimebounds Z.eqb negb].
  rewrite bool_decide_true by done. cbn [negb].
  rewrite (proj2 (Z.eqb_neq ((now + timebound) / Second) TimeoutInfinite)) by (unfold TimeoutInfinite; lia).
  unfold gracePeriod. change (5 * 60) with 300. rewrite (swrap_small 64 (later + 300)) by (unfold in_int; lia).
  rewrite (proj2 (Z.ltb_ge _ _)), Z.gtb_ltb, (proj2 (Z.ltb_ge _ _)) by lia. cbn [orb].
  unfold params at 1. cbn [challenge_params p_Operations md_SourceAccount Name Value].
  assert (Hcne : client <> EmptyString) by (rewrite Hclient; by apply address_nonempty).
  rewrite bool_decide_false by done. rewrite match_home_in by done. rewrite bool_decide_false by done.
  rewrite HenvO, bind_Ok_l, Hx. cbn [head from_opt]. rewrite bind_Ok_l, Hxsrc. unfold SetOpSourceAccount. rewrite bool_decide_false by done.
  rewrite Hclient at 1. rewrite SetAddress_wf by done. cbn [from_opt]. rewrite bind_Ok_l.
  assert (Hread : read_memo T (is_muxed mx) = Ok m).
  { unfold read_memo. rewrite Hmm. destruct m as [i|]; [|done]. cbn [fmap option_fmap option_map].
    destruct (is_muxed mx); [by specialize (Hmuxed eq_refl)|done]. }
  rewrite Hread, bind_Ok_l. unfold check_nonce. cbn [default from_option id]. rewrite Base64.EncodeToString_length by by rewrite Hnl.
  rewrite Hnl. change (negb (Nat.eqb (48 / 3 * 4) 64)) with false. cbn match.
  rewrite Base64.DecodeString_EncodeToString by (done || by rewrite Hnl). rewrite !bind_Ok_l, Hnl. cbn [Nat.eqb negb]. rewrite bind_Ok_l.
  cbn [check_operations md_SourceAccount Name Value]. rewrite (bool_decide_false (address server = EmptyString)) by
    (rewrite (gf_text _ Gs); apply address_nonempty, Gs).
  rewrite !bool_decide_true by done. cbn [negb]. rewrite !bind_Ok_l. unfold verifyTxSignature.
  change [address server] with (map address [server]). rewrite (verify_all T network h [server] sigs); [|unfold Hash; change (envelope T) with env; done|done|by right|by apply Forall_singleton|apply NoDup_singleton].
  done.
Qed.

Lemma list_filter_all {A} (f : A -> bool) l : (forall x, x ∈ l -> f x = true) -> List.filter f l = l.
Proof.
  induction l as [|x l IH]; intros H; [done|]. cbn [List.filter]. rewrite (H x) by left. f_equal. apply IH. intros y Hy. apply H. by right.
Qed.

(** ** Weights *)

Definition total_weight (summary : list (string * Z)) (found : list string) : Z :=
  fold_right Z.add 0 (map (weight_of summary) found).

Lemma weight_of_range summary s : Forall (fun e => 0 <= e.2 <= 255) summary -> 0 <= weight_of summary s <= 255.
Proof. induction 1 as [|[s' w] summary Hw _ IH]; cbn [weight_of]; [lia|]. by case_bool_decide. Qed.

Lemma weight_exact summary found : Forall (fun e => 0 <= e.2 <= 255) summary -> forall acc,
  0 <= acc -> acc + 255 * Z.of_nat (length found) < 2 ^ 31 ->
  fold_left (fun w s => to_int32 (w + weight_of summary s)) found acc = acc + total_weight summary found.
Proof.
  intros Hs. induction found as [|s found IH]; intros acc Ha Hb; unfold total_weight in *; cbn [fold_left fold_right map length] in *; [lia|].
  pose proof (weight_of_range summary s Hs). rewrite swrap_small by (unfold in_int; lia). rewrite IH by lia. lia.
Qed.

(** ** Properties *)

(** a challenge that is read is well formed: the text decodes to the
    transaction, its source is the server with sequence number 0, it is bounded in
    time and the present lies within the bounds (with five minutes of grace at the
    start), the first operation carries the client account, one of the home
    domains and a nonce of 48 bytes, all others are the server's and name its web
    authentication domain, the memo is an id or absent, and one of the signatures
    is the server's. *)
Theorem ReadChallengeTx_sound (now : Z) (text server network web : string) (homes : list string)
    (tx : Transaction) (client home : string) (m : option Z)
    (Hread : ReadChallengeTx SafeUnmarshalBase64 now text server network web homes = Ok (tx, client, home, m)) :
  (exists env, SafeUnmarshalBase64 text = Ok env /\ transactionFromParsedXDR env = Ok (GSimple tx)) /\
  challenge now server network web homes tx client home m.
Proof. by apply ReadChallengeTx_challenge. Qed.

(** C4: authentication is sound.  When [VerifyChallengeTxSigners] returns, the
    challenge is well formed, the signers returned are distinct signers that were
    asked for, account addresses other than the server's, and the signatures on
    the transaction correspond one to one to the server and the signers returned:
    every signature is a valid signature of its owner over the hash of the
    transaction for this network, and no signature is left over. *)
Theorem challenge_signers_sound (now : Z) (text server network web : string) (homes signers found : list string)
    (Hver : VerifyChallengeTxSigners SafeUnmarshalBase64 now text server network web homes signers = Ok found) :
  accepted SafeUnmarshalBase64 now text server network web homes signers found.
Proof. by apply VerifyChallengeTxSigners_accepted. Qed.

(** C15: the threshold check: for a threshold and weights that are bytes, as on the
    ledger, and fewer than 2^23 signers, the function returns signers exactly when
    the check of signers accepts and returns them and their weights add up to the
    threshold; the 32-bit sum of the code cannot overflow. *)
Theorem challenge_threshold_spec (now : Z) (text server network web : string) (homes found : list string)
    (threshold : Z) (summary : list (string * Z)) (Ht : 0 <= threshold < 256)
    (Hw : Forall (fun e => 0 <= e.2 <= 255) summary) (Hn : Z.of_nat (length summary) < 2 ^ 23) :
  VerifyChallengeTxThreshold SafeUnmarshalBase64 now text server network web homes threshold summary = Ok found <->
  VerifyChallengeTxSigners SafeUnmarshalBase64 now text server network web homes summary.*1 = Ok found /\
  threshold <= total_weight summary found.
Proof.
  unfold VerifyChallengeTxThreshold.
  destruct (VerifyChallengeTxSigners SafeUnmarshalBase64 now text server network web homes summary.*1) as [f|e|p] eqn:Hv;
    [|split; [done|by intros []]..].
  rewrite bind_Ok_l. destruct (VerifyChallengeTxSigners_accepted _ _ _ _ _ _ _ _ _ Hv)
    as (_ & _ & _ & _ & _ & _ & _ & _ & _ & _ & _ & _ & Hnd & Hsub & _).
  assert (Hlen : (length f <= length summary)%nat).
  { rewrite <- (length_fmap fst summary). apply NoDup_incl_length; [by apply NoDup_ListNoDup|]. intros s Hs.
    apply list_elem_of_In in Hs. apply list_elem_of_In. by apply Hsub. }
  rewrite weight_exact by (done || lia). rewrite Z.add_0_l, swrap_small by (unfold in_int; lia).
  destruct (Z.ltb_spec (total_weight summary f) threshold) as [Hlt|Hge].
  - split; [done|]. intros [[= <-] Hle]. lia.
  - split; [by intros [= <-]|]. by intros [[= <-] _].
Qed.

(** C5: authentication is complete.  A challenge that the server builds for a
    client account and that any keypairs other than the server's sign is accepted
    with exactly those signers, by a server that asks for them, from five minutes
    before the challenge was made until it expires; and it is read as a challenge
    for the client account, home domain and memo it was made for. *)
Theorem challenge_complete (server : Full) (clients : list Full) (client : MuxedAccount) (web home : string)
    (homes : list string) (network : string) (timebound now later : Z) (m : option Z) (nonce : list Z)
    (tx : Transaction) (text : string)
    (Hserver : good server) (Hclients : Forall good clients) (Hne : clients <> [])
    (Hnd : NoDup (address server :: map address clients))
    (Hclient : Muxed.wf client) (Hhome : home <> EmptyString) (Hin : home ∈ homes)
    (Hnonce : Forall is_byte nonce /\ length nonce = 48%nat)
    (Htime : 0 <= now /\ now + timebound < 2 ^ 63 /\ now / Second - 300 <= later <= (now + timebound) / Second)
    (Hbuild : BuildChallengeTx (seed server) (Muxed.address client) web home network timebound m now (Ok nonce) = Ok tx) :
  exists tx', Sign tx network clients = Ok tx' /\
    (SafeUnmarshalBase64 text = Ok (envelope tx') ->
     ReadChallengeTx SafeUnmarshalBase64 later text (address server) network web homes =
       Ok (tx', Muxed.address client, home, m) /\
     VerifyChallengeTxSigners SafeUnmarshalBase64 later text (address server) network web homes (map address clients) =
       Ok (map address clients)).
Proof.
  destruct Hnonce as [Hnb Hnl]. destruct Htime as (Hnow & Hmax & Hlater).
  destruct (Build_inv _ _ _ _ _ _ _ _ _ _ Hserver Hbuild) as (Htb & _ & Hor & tx0 & t & h & H0 & He & Hh & ->).
  assert (Hmuxed : is_muxed client = true -> m = None).
  { intros Hm. destruct Hor as [Hok|[_ ->]]; [|done]. by rewrite muxed_not_account in Hok. }
  rewrite (Sign_good (with_envelope tx0 _) t [signed h server] network h clients eq_refl Hh Hclients).
  eexists. split; [done|]. unfold with_envelope at 1. cbn [envelope app]. intros Htext.
  pose proof (Read_complete server _ client web home homes network timebound m now nonce tx0 t h (map (signed h) clients) text later
    Hserver Hclient eq_refl Hmuxed Hhome Hin Hnb Hnl Hnow Htb Hmax Hlater H0 He Hh Htext) as Hread.
  split; [exact Hread|]. unfold VerifyChallengeTxSigners. rewrite Hread, bind_Ok_l.
  set (T := with_envelope tx0 _). pose proof (good_ok _ Hserver) as Gs. rewrite (gf_address _ Gs), bind_Ok_l. cbn [fa_address].
  apply NoDup_cons in Hnd as [Hni Hnd].
  assert (Hpanic : version_panics (address server) (map address clients) = false).
  { by apply good_no_panic. }
  rewrite Hpanic, client_signers_all by (done || by intros ? _; apply not_elem_of_nil).
  destruct (Nat.eqb_spec (length (map address clients)) 0) as [Hz|Hnz]; [destruct clients; [done|discriminate]|].
  pose proof (verify_all T network h (server :: clients) [] Hh) as Hv. cbn [map] in Hv. rewrite Hv; cycle 1.
  - by rewrite app_nil_r.
  - by left.
  - by apply Forall_cons_2.
  - by apply NoDup_cons_2.
  - rewrite bind_Ok_l. rewrite bool_decide_true by left. cbn [negb List.filter]. rewrite bool_decide_true by done. cbn [negb].
    assert (Hfilter : List.filter (fun s => negb (bool_decide (s = address server))) (map address clients) = map address clients).
    { apply list_filter_all. intros s Hs. rewrite bool_decide_false; [done|]. intros ->. done. }
    rewrite Hfilter. rewrite (proj2 (Nat.eqb_neq _ _)) by done. change (Signatures T) with (@Ok (list DecoratedSignature) (signed h server :: map (signed h) clients)).
    rewrite bind_Ok_l. cbn [length]. rewrite !length_map, Nat.eqb_refl. done.
Qed.

End Complete.

(** ** A concrete exchange *)

Definition kp (b : Z) : Full :=
  match FromRawSeed (replicate 32 b) with Ok k => k | _ => mkFull EmptyString EmptyString [] [] end.

Lemma kp_good b : is_byte b -> good (kp b).
Proof.
  intros Hb. assert (Hf : Forall is_byte (replicate 32 b)) by by apply Forall_replicate.
  destruct (FromRawSeed_ok (replicate 32 b) (length_replicate _ _) Hf) as (k & Hk & _).
  exists (replicate 32 b). split; [apply length_replicate|]. split; [done|]. unfold kp. by rewrite Hk.
Qed.

Definition alice : MuxedAccount := MEd25519 (replicate 32 8).

Definition sample_build : res Transaction :=
  BuildChallengeTx (seed (kp 7)) (Muxed.address alice) "auth.example" "example" "net" (300 * Second) (Some 5)
    (1000 * Second) (Ok (replicate 48 1)).

Definition sample_challenge : Transaction := match sample_build with Ok tx => tx | _ => sample_tx end.
Definition sample_signed : Transaction :=
  match Sign sample_challenge "net" [kp 8] with Ok tx => tx | _ => sample_tx end.

(** A wire format on which every text is this challenge. *)
Definition wire (text : string) : res TransactionEnvelope := Ok (envelope sample_signed).

Lemma sample_build_ok : sample_build = Ok sample_challenge.
Proof. vm_compute. reflexivity. Qed.

Lemma sample_signed_ok : Sign sample_challenge "net" [kp 8] = Ok sample_signed.
Proof. vm_compute. reflexivity. Qed.

Lemma challenge_complete_witness :
  VerifyChallengeTxSigners wire 1100 "challenge" (address (kp 7)) "net" "auth.example" ["example"%string] [address (kp 8)] =
    Ok [address (kp 8)].
Proof.
  destruct (challenge_complete wire (kp 7) [kp 8] alice "auth.example" "example" ["example"%string] "net" (300 * Second)
    (1000 * Second) 1100 (Some 5) (replicate 48 1) sample_challenge "challenge") as (tx' & Hs & Hv).
  - apply kp_good. unfold is_byte. lia.
  - apply Forall_singleton, kp_good. unfold is_byte. lia.
  - discriminate.
  - apply NoDup_cons_2; [|apply NoDup_singleton]. intros Hin. apply list_elem_of_singleton in Hin. vm_compute in Hin. discriminate.
  - split; [reflexivity|]. apply Forall_replicate. unfold is_byte. lia.
  - discriminate.
  - left.
  - split; [apply Forall_replicate; unfold is_byte; lia|reflexivity].
  - split_and!; vm_compute; congruence || reflexivity.
  - exact sample_build_ok.
  - rewrite sample_signed_ok in Hs. apply Ok_inj in Hs. rewrite <- Hs in Hv. exact (proj2 (Hv eq_refl)).
Defined.

Lemma sample_verifies :
  VerifyChallengeTxSigners wire 1100 "challenge" (address (kp 7)) "net" "auth.example" ["example"%string] [address (kp 8)] =
    Ok [address (kp 8)].
Proof. vm_compute. reflexivity. Qed.

Lemma sample_reads :
  ReadChallengeTx wire 1100 "challenge" (address (kp 7)) "net" "auth.example" ["example"%string] =
    Ok (sample_signed, Muxed.address alice, "example"%string, Some 5).
Proof. vm_compute. reflexivity. Qed.

Lemma ReadChallengeTx_sound_witness :
  challenge 1100 (address (kp 7)) "net" "auth.example" ["example"%string] sample_signed (Muxed.address alice) "example" (Some 5).
Proof. exact (proj2 (ReadChallengeTx_sound wire _ _ _ _ _ _ _ _ _ _ sample_reads)). Defined.

Lemma challenge_signers_sound_witness :
  accepted wire 1100 "challenge" (address (kp 7)) "net" "auth.example" ["example"%string] [address (kp 8)] [address (kp 8)].
Proof. exact (challenge_signers_sound wire _ _ _ _ _ _ _ _ sample_verifies). Defined.

Lemma challenge_threshold_spec_witness :
  VerifyChallengeTxThreshold wire 1100 "challenge" (address (kp 7)) "net" "auth.example" ["example"%string] 10
    [(address (kp 8), 10)] = Ok [address (kp 8)].
Proof.
  apply (challenge_threshold_spec wire 1100 "challenge" (address (kp 7)) "net" "auth.example" ["example"%string] [address (kp 8)]
    10 [(address (kp 8), 10)]).
  - lia.
  - apply Forall_singleton. cbn. lia.
  - cbn. lia.
  - split; [exact sample_verifies|]. vm_compute. discriminate.
Defined.

End ChallengeComplete.
