(* ===== verification/Compactor.v ===== *)
(** * Ledger entry changes and their compaction (ingest/change.go,
      ingest/change_compactor.go, ingest/ledger_change_reader.go)

    A [Change] is an entry before and after.  [GetChangesFromLedgerEntryChanges]
    pairs the raw changes of a transaction; a [ChangeCompactor] squashes all the
    changes of a ledger to at most one per entry, and the compacting reader
    streams the result.  The main theorem: for a stream of changes that leads
    from one ledger state to another, the reader emits a stream that leads from
    the first state to the second, with at most one change per entry. *)
From S2P Require Import Prelude Xdr LedgerKeys.
Local Open Scope Z_scope.
Import LedgerKeys.

Module Compactor.

Definition LedgerEntryCreated : Z := 0.
Definition LedgerEntryUpdated : Z := 1.
Definition LedgerEntryRemoved : Z := 2.

Section Changes.
Context {XE : XdrEncoder} {ScVal : Type} {Body : LedgerEntryType -> Type} {SO : ScValOps ScVal}.

Abbreviation LedgerKey := (LedgerKey ScVal).
Abbreviation LedgerEntry := (LedgerEntry ScVal Body).

Record Change := mkChange {
  ChangeType : Z;
  Pre : option LedgerEntry;
  Post : option LedgerEntry
}.

Definition ledgerKey (c : Change) : res LedgerKey :=
  match Pre c with
  | Some e => Entry_LedgerKey e
  | None => match Post c with
            | Some e => Entry_LedgerKey e
            | None => Panic "invalid memory address or nil pointer dereference"
            end
  end.

Definition LedgerEntryChangeType (c : Change) : res Z :=
  match Pre c, Post c with
  | None, Some _ => Ok LedgerEntryCreated
  | Some _, None => Ok LedgerEntryRemoved
  | Some _, Some _ => Ok LedgerEntryUpdated
  | None, None => Panic "Invalid state of Change (Pre == nil && Post == nil)"
  end.

(** ** From raw changes *)

Inductive LedgerEntryChange :=
| Created (e : LedgerEntry)
| Updated (e : LedgerEntry)
| Removed (k : LedgerKey)
| State (e : LedgerEntry)
| UnknownChange (typ : Z).

Definition MustState (c : LedgerEntryChange) : res LedgerEntry :=
  match c with State e => Ok e | _ => Panic "arm State is not set" end.

(** One turn of the loop; [prev] is [ledgerEntryChanges[i-1]]. *)
Definition pair_change (prev : option LedgerEntryChange) (entryChange : LedgerEntryChange) :
    res (list Change) :=
  match entryChange with
  | Created created => Ok [mkChange (DataType (EntryData created)) None (Some created)]
  | Updated updated =>
      p ← from_opt "index out of range" prev;
      state ← MustState p;
      Ok [mkChange (DataType (EntryData state)) (Some state) (Some updated)]
  | Removed _ =>
      p ← from_opt "index out of range" prev;
      state ← MustState p;
      Ok [mkChange (DataType (EntryData state)) (Some state) None]
  | State _ => Ok []
  | UnknownChange _ => Panic "Invalid LedgerEntryChangeType"
  end.

Fixpoint pair_changes (prev : option LedgerEntryChange) (l : list LedgerEntryChange) :
    res (list Change) :=
  match l with
  | [] => Ok []
  | c :: l => cs ← pair_change prev c; rest ← pair_changes (Some c) l; Ok (cs ++ rest)
  end.

(** The ledger key bytes next to each change. *)
Fixpoint newSortableChanges (changes : list Change) : res (list (list Z * Change)) :=
  match changes with
  | [] => Ok []
  | c :: changes =>
      lk ← (match ledgerKey c with Err e => Panic e | r => r end);
      rest ← newSortableChanges changes;
      Ok ((EncodeTo lk, c) :: rest)
  end.

Definition Less (a b : list Z * Change) : bool := GoString.bytes_lt a.1 b.1.

(** [sort.Stable]: a stable sort has one result; insertion computes it. *)
Fixpoint insert_change (x : list Z * Change) (l : list (list Z * Change)) : list (list Z * Change) :=
  match l with
  | [] => [x]
  | y :: l' => if Less y x then y :: insert_change x l' else x :: l
  end.
Definition sortStable (l : list (list Z * Change)) : list (list Z * Change) :=
  foldr insert_change [] l.

Definition sortChanges (changes : list Change) : res (list Change) :=
  s ← newSortableChanges changes; Ok ((sortStable s).*2).

Definition GetChangesFromLedgerEntryChanges (ledgerEntryChanges : list LedgerEntryChange) :
    res (list Change) :=
  changes ← pair_changes None ledgerEntryChanges; sortChanges changes.

(** ** The compactor *)

Abbreviation Cache := (gmap (list Z) Change).

Definition NewChangeCompactor : Cache := ∅.

Definition addCreatedChange (cache : Cache) (change : Change) : res Cache :=
  post ← from_opt "invalid memory address or nil pointer dereference" (Post change);
  key ← Wrap (Entry_LedgerKey post) "error getting ledger key for new entry";
  let ledgerKeyString := EncodeTo key in
  match cache !! ledgerKeyString with
  | None => Ok (<[ledgerKeyString := change]> cache)
  | Some existingChange =>
      t ← LedgerEntryChangeType existingChange;
      if t =? LedgerEntryCreated then Err "can't create an entry that already exists"
      else if t =? LedgerEntryUpdated then Err "can't create an entry that already exists"
      else if t =? LedgerEntryRemoved then
        Ok (<[ledgerKeyString := mkChange (KeyType key) (Pre existingChange) (Post change)]> cache)
      else Err "Unknown LedgerEntryChangeType"
  end.

Definition addUpdatedChange (cache : Cache) (change : Change) : res Cache :=
  post ← from_opt "invalid memory address or nil pointer dereference" (Post change);
  key ← Wrap (Entry_LedgerKey post) "error getting ledger key for updated entry";
  let ledgerKeyString := EncodeTo key in
  match cache !! ledgerKeyString with
  | None => Ok (<[ledgerKeyString := change]> cache)
  | Some existingChange =>
      t ← LedgerEntryChangeType existingChange;
      if t =? LedgerEntryCreated then
        Ok (<[ledgerKeyString := mkChange (KeyType key) (Pre existingChange) (Post change)]> cache)
      else if t =? LedgerEntryUpdated then
        Ok (<[ledgerKeyString := mkChange (KeyType key) (Pre existingChange) (Post change)]> cache)
      else if t =? LedgerEntryRemoved then Err "can't update an entry that was previously removed"
      else Err "Unknown LedgerEntryChangeType"
  end.

Definition addRemovedChange (cache : Cache) (change : Change) : res Cache :=
  pre ← from_opt "invalid memory address or nil pointer dereference" (Pre change);
  key ← Wrap (Entry_LedgerKey pre) "error getting ledger key for removed entry";
  let ledgerKeyString := EncodeTo key in
  match cache !! ledgerKeyString with
  | None => Ok (<[ledgerKeyString := change]> cache)
  | Some existingChange =>
      t ← LedgerEntryChangeType existingChange;
      if t =? LedgerEntryCreated then Ok (delete ledgerKeyString cache)
      else if t =? LedgerEntryUpdated then
        Ok (<[ledgerKeyString := mkChange (KeyType key) (Pre existingChange) None]> cache)
      else if t =? LedgerEntryRemoved then Err "can't remove an entry that was previously removed"
      else Err "Unknown LedgerEntryChangeType"
  end.

Definition AddChange (cache : Cache) (change : Change) : res Cache :=
  match Pre change, Post change with
  | None, Some _ => addCreatedChange cache change
  | Some _, Some _ => addUpdatedChange cache change
  | Some _, None => addRemovedChange cache change
  | None, None => Err "Unknown entry change state"
  end.

Definition Size (cache : Cache) : Z := Z.of_nat (size cache).

(** Go iterates over a map in an unspecified order. *)
Definition GetChanges (order : list Change -> list Change) (cache : Cache) : list Change :=
  order (map_to_list cache).*2.

(** ** The compacting reader *)

(** The input: the changes it will return and the error that ends it. *)
Record ChangeReader := mkChangeReader { stream : list Change; final : error }.

Record compactingChangeReader := mkCompactingChangeReader {
  input : ChangeReader;
  changes : list Change;
  compacted : bool
}.

Definition NewCompactingChangeReader (input : ChangeReader) : compactingChangeReader :=
  mkCompactingChangeReader input [] false.

(** The loop of [compact] over the input. *)
Fixpoint compact_loop (compactor : Cache) (l : list Change) : res Cache :=
  match l with
  | [] => Ok compactor
  | change :: l => compactor ← AddChange compactor change; compact_loop compactor l
  end.

Definition compact (order : list Change -> list Change) (c : compactingChangeReader) :
    res compactingChangeReader :=
  compactor ← compact_loop NewChangeCompactor (stream (input c));
  if bool_decide (final (input c) = EOF)
  then Ok (mkCompactingChangeReader (mkChangeReader [] (final (input c))) (GetChanges order compactor) true)
  else Err (final (input c)).

(** The next change and the reader after it. *)
Definition Read (order : list Change -> list Change) (c : compactingChangeReader) :
    res (Change * compactingChangeReader) :=
  c ← (if negb (compacted c) then compact order c else Ok c);
  match changes c with
  | [] => Err EOF
  | change :: rest => Ok (change, mkCompactingChangeReader (input c) rest (compacted c))
  end.

(** Reading until [io.EOF], as the clients of a reader do. *)
Fixpoint drain (fuel : nat) (order : list Change -> list Change) (c : compactingChangeReader) :
    res (list Change) :=
  match fuel with
  | O => Panic "out of fuel"
  | S fuel =>
      match Read order c with
      | Ok (change, c) => rest ← drain fuel order c; Ok (change :: rest)
      | Err e => if bool_decide (e = EOF) then Ok [] else Err e
      | Panic m => Panic m
      end
  end.

(** ** Streams of changes between ledger states *)

Context {XL : XdrLaws}.

Definition ledger : Type := LedgerKey -> option LedgerEntry.

(** [c] is a change of the entry [k]. *)
Definition change_key (c : Change) (k : LedgerKey) : Prop :=
  (forall e, Pre c = Some e -> Entry_LedgerKey e = Ok k) /\
  (forall e, Post c = Some e -> Entry_LedgerKey e = Ok k) /\
  (Pre c <> None \/ Post c <> None).

(** The state after entry [k] is changed as [c] says. *)
Definition updated (db : ledger) (k : LedgerKey) (c : Change) (db' : ledger) : Prop :=
  db' k = Post c /\ forall k', k' <> k -> db' k' = db k'.

(** The changes lead from one state to another: each starts from the entry that
    the state holds at that moment. *)
Inductive steps : ledger -> list Change -> ledger -> Prop :=
| steps_nil db db' : (forall k, db k = db' k) -> steps db [] db'
| steps_cons db k c db1 l db' :
    key_wf k -> change_key c k -> db k = Pre c -> updated db k c db1 ->
    steps db1 l db' -> steps db (c :: l) db'.

Lemma change_key_ledgerKey c k : change_key c k -> ledgerKey c = Ok k.
Proof.
  intros (Hpre & Hpost & Hne). unfold ledgerKey.
  destruct (Pre c) as [e|]; [by apply Hpre|]. destruct (Post c) as [e|]; [by apply Hpost|].
  by destruct Hne.
Qed.

Lemma change_key_det c k k' : change_key c k -> change_key c k' -> k = k'.
Proof. intros H H'. apply change_key_ledgerKey in H, H'. congruence. Qed.

Lemma steps_ext db1 db2 l db' : (forall k, db1 k = db2 k) -> steps db1 l db' -> steps db2 l db'.
Proof.
  intros He H. destruct H as [db db' H|db k c db1' l db' Hk Hc Hp [Hu Hu'] H].
  - constructor. intros k. by rewrite <- He.
  - econstructor; [done|done|by rewrite <- He| |done]. split; [done|].
    intros k' Hk'. rewrite <- He. by apply Hu'.
Qed.

(** ** Sorting *)

(** Neighbouring changes of different entries commute. *)
Lemma steps_swap `{SL : !ScValLaws ScVal} db x y l db' k k' : change_key x k -> change_key y k' -> k <> k' ->
  steps db (x :: y :: l) db' -> steps db (y :: x :: l) db'.
Proof.
  intros Hx Hy Hne H. inversion H as [|db_ kx x_ db1 l_ db'_ Wx Cx Px [Ux Ux'] H1]; subst.
  inversion H1 as [|db_ ky y_ db2 l_ db'_ Wy Cy Py [Uy Uy'] H2]; subst.
  assert (kx = k) as -> by by eapply change_key_det. assert (ky = k') as -> by by eapply change_key_det.
  apply (steps_cons db k' y (fun q => if LedgerKey_Equals q k' then Post y else db q)); [done|done| | |].
  - rewrite <- Py. symmetry. by apply Ux'.
  - split; [by rewrite (proj2 (LedgerKey_Equals_eq k' k'))|]. intros q Hq.
    destruct (LedgerKey_Equals q k') eqn:E; [by apply LedgerKey_Equals_eq in E|done].
  - apply (steps_cons _ k x db2); [done|done| | |done].
    + destruct (LedgerKey_Equals k k') eqn:E; [by apply LedgerKey_Equals_eq in E|done].
    + split; [rewrite Uy' by done; done|]. intros q Hq.
      destruct (LedgerKey_Equals q k') eqn:E; [apply LedgerKey_Equals_eq in E as ->; done|].
      rewrite Uy'; [by apply Ux'|]. intros ->. by rewrite (proj2 (LedgerKey_Equals_eq k' k')) in E.
Qed.

(** The bytes next to a change are those of its key. *)
Definition keyed (x : list Z * Change) : Prop :=
  exists k, key_wf k /\ change_key x.2 k /\ x.1 = EncodeTo k.

Lemma insert_change_steps `{SL : !ScValLaws ScVal} x l : keyed x -> Forall keyed l -> forall db db',
  steps db (x.2 :: l.*2) db' -> steps db ((insert_change x l).*2) db'.
Proof.
  intros Hx Hl. induction Hl as [|y l Hy Hl IH]; intros db db' H; cbn [insert_change]; [done|].
  destruct (Less y x) eqn:E; [|done].
  destruct Hx as (k & Wx & Cx & Ex), Hy as (k' & Wy & Cy & Ey).
  assert (Hne : k <> k').
  { intros ->. unfold Less in E. rewrite Ex, Ey in E. by rewrite GoString.bytes_lt_irrefl in E. }
  apply (steps_swap _ _ _ _ _ k k') in H; [|done..].
  inversion H as [|db_ ky y_ db1 l_ db'_ Wy' Cy' Py Uy H1]; subst.
  rewrite fmap_cons. econstructor; [done|done|done|done|]. by apply IH.
Qed.

Lemma insert_change_perm x l : insert_change x l ≡ₚ x :: l.
Proof.
  induction l as [|y l IH]; cbn [insert_change]; [done|]. destruct (Less y x); [|done].
  rewrite IH. constructor.
Qed.

Lemma sortStable_perm l : sortStable l ≡ₚ l.
Proof. unfold sortStable. induction l as [|x l IH]; simpl; [done|]. by rewrite insert_change_perm, IH. Qed.

Lemma sortStable_steps `{SL : !ScValLaws ScVal} l : Forall keyed l -> forall db db',
  steps db (l.*2) db' -> steps db ((sortStable l).*2) db'.
Proof.
  induction 1 as [|x l Hx Hl IH]; intros db db' H; [done|].
  apply (insert_change_steps x (sortStable l)); [done|by rewrite sortStable_perm|].
  rewrite fmap_cons in H. inversion H as [|db_ k c db1 l_ db'_ Wk Ck Pk Uk H1]; subst.
  econstructor; [done|done|done|done|]. by apply IH.
Qed.

Lemma newSortableChanges_steps db l db' : steps db l db' ->
  exists s, newSortableChanges l = Ok s /\ s.*2 = l /\ Forall keyed s.
Proof.
  induction 1 as [db db' H|db k c db1 l db' Wk Ck Pk Uk H IH]; [by exists []|].
  destruct IH as (s & Hs & Hl & Hk). cbn [newSortableChanges].
  rewrite (change_key_ledgerKey c k Ck), bind_Ok_l, Hs, bind_Ok_l.
  exists ((EncodeTo k, c) :: s). split; [done|]. split; [by rewrite fmap_cons, Hl|].
  constructor; [by exists k|done].
Qed.

(** No later change has a smaller key. *)
Definition sorted_by_key (l : list (list Z * Change)) : Prop :=
  forall i j x y, (i < j)%nat -> l !! i = Some x -> l !! j = Some y -> Less y x = false.

Lemma sorted_by_key_cons x l :
  sorted_by_key (x :: l) <-> (forall y, y ∈ l -> Less y x = false) /\ sorted_by_key l.
Proof.
  split.
  - intros H. split; [|intros i j a b Hij Ha Hb; by apply (H (S i) (S j) a b); [lia|..]].
    intros y [j Hj]%list_elem_of_lookup. by apply (H 0%nat (S j)); [lia|..].
  - intros [Hx H] [|i] [|j] a b Hij Ha Hb; simpl in *; [lia| |lia|by apply (H i j); [lia|..]].
    injection Ha as <-. apply Hx. by eapply list_elem_of_lookup_2.
Qed.

Lemma Less_trans a b c : Less a b = true -> Less b c = true -> Less a c = true.
Proof. apply GoString.bytes_lt_trans. Qed.

Lemma insert_change_sorted x l : sorted_by_key l -> sorted_by_key (insert_change x l).
Proof.
  induction l as [|y l IH]; intros H; cbn [insert_change]; [by apply sorted_by_key_cons; split; [set_solver|]|].
  pose proof H as [Hy Hl]%sorted_by_key_cons. destruct (Less y x) eqn:E.
  - apply sorted_by_key_cons. split; [|by apply IH]. intros z Hz.
    rewrite insert_change_perm in Hz. apply elem_of_cons in Hz as [->|Hz]; [|by apply Hy].
    apply not_true_is_false. intros E'. pose proof (Less_trans _ _ _ E E') as Hi.
    unfold Less in Hi. by rewrite GoString.bytes_lt_irrefl in Hi.
  - apply sorted_by_key_cons. split; [|done]. intros z [->|Hz]%elem_of_cons; [done|].
    apply not_true_is_false. intros E'. specialize (Hy z Hz).
    destruct (Less x y) eqn:E1; [by rewrite (Less_trans z x y) in Hy|].
    unfold Less in *. by rewrite (GoString.bytes_lt_total y.1 x.1 E E1) in Hy; rewrite E' in Hy.
Qed.

Lemma sortStable_sorted l : sorted_by_key (sortStable l).
Proof.
  unfold sortStable. induction l as [|x l IH]; simpl; [by intros [] []|]. by apply insert_change_sorted.
Qed.

(** [GetChangesFromLedgerEntryChanges] reorders the changes of a transaction
    by ledger key without changing what they do: whenever the raw changes pair
    up ([state]/[updated], [state]/[removed], [created]) to changes that lead
    from one ledger state to another, it returns the same changes, sorted by
    key, and they still lead from the first state to the second. *)
Theorem changes_sorted_equivalent {SL : ScValLaws ScVal} (raw : list LedgerEntryChange) (l : list Change)
    (db db' : ledger) (Hraw : pair_changes None raw = Ok l) (Hsteps : steps db l db') :
  exists s, newSortableChanges l = Ok s /\
    GetChangesFromLedgerEntryChanges raw = Ok (sortStable s).*2 /\
    (sortStable s).*2 ≡ₚ l /\ sorted_by_key (sortStable s) /\ steps db ((sortStable s).*2) db'.
Proof.
  destruct (newSortableChanges_steps db l db' Hsteps) as (s & Hs & Hl & Hk).
  exists s. split; [done|]. unfold GetChangesFromLedgerEntryChanges, sortChanges.
  rewrite Hraw, bind_Ok_l, Hs, bind_Ok_l. split; [done|].
  split; [by rewrite sortStable_perm, Hl|]. split; [apply sortStable_sorted|].
  apply sortStable_steps; [done|]. by rewrite Hl.
Qed.

(** ** Compaction *)

(** The error for a change that contradicts the cached one. *)
Definition state_error (c : Change) : error :=
  match Pre c, Post c with
  | None, _ => "can't create an entry that already exists"
  | Some _, Some _ => "can't update an entry that was previously removed"
  | Some _, None => "can't remove an entry that was previously removed"
  end.

(** [e] followed by [c]: nothing when the entry exists neither before nor after. *)
Definition squash (k : LedgerKey) (e c : Change) : option Change :=
  match Pre e, Post c with
  | None, None => None
  | pre, post => Some (mkChange (KeyType k) pre post)
  end.

Definition exists_after (c : Change) : bool := match Post c with Some _ => true | None => false end.
Definition exists_before (c : Change) : bool := match Pre c with Some _ => true | None => false end.

Lemma AddChange_value cache c k : change_key c k ->
  (forall e, cache !! EncodeTo k = Some e -> change_key e k) ->
  AddChange cache c =
    match cache !! EncodeTo k with
    | None => Ok (<[EncodeTo k := c]> cache)
    | Some e =>
        if Bool.eqb (exists_after e) (exists_before c)
        then Ok (partial_alter (fun _ => squash k e c) (EncodeTo k) cache)
        else Err (state_error c)
    end.
Proof.
  intros (Hpre & Hpost & Hne) He. unfold AddChange, addCreatedChange, addUpdatedChange, addRemovedChange.
  unfold exists_before, state_error, squash.
  destruct (Pre c) as [pre|] eqn:Ep, (Post c) as [post|] eqn:Eq; [| | |by destruct Hne];
    simpl from_opt; rewrite bind_Ok_l; rewrite ?(Hpre _ eq_refl), ?(Hpost _ eq_refl); simpl Wrap; rewrite bind_Ok_l;
    (destruct (cache !! EncodeTo k) as [e|] eqn:El; [|done]);
    specialize (He e eq_refl) as (_ & _ & Hn); unfold exists_after, LedgerEntryChangeType;
    destruct (Pre e) as [pe|], (Post e) as [qe|]; try done; by destruct Hn.
Qed.

(** The cache holds, for each entry, the change from [db0] to [db], and nothing
    for the entries that are in the same state in both. *)
Record compacts (cache : Cache) (db0 db : ledger) : Prop := {
  compacts_entry k : key_wf k ->
    match cache !! EncodeTo k with
    | None => db k = db0 k
    | Some c => change_key c k /\ Pre c = db0 k /\ Post c = db k
    end;
  compacts_other k : ~ key_wf k -> db k = db0 k;
  compacts_keys b c : cache !! b = Some c -> exists k, key_wf k /\ b = EncodeTo k
}.

Lemma compacts_start db0 db : (forall k, db0 k = db k) -> compacts ∅ db0 db.
Proof. intros H. split; intros; [by rewrite lookup_empty|done|by rewrite lookup_empty in *]. Qed.

Lemma squash_key k e c : change_key e k -> change_key c k ->
  forall r, squash k e c = Some r -> change_key r k /\ Pre r = Pre e /\ Post r = Post c.
Proof.
  intros (He & _ & _) (_ & Hc & _) r H. unfold squash in H.
  destruct (Pre e) as [pre|] eqn:Ep, (Post c) as [post|] eqn:Eq; simplify_eq; simpl;
    (split; [|done]); split; simpl; naive_solver.
Qed.

(** The part of the invariant that the entries other than [k] keep. *)
Lemma compacts_alter `{SL : !ScValLaws ScVal} cache db0 db k c db1 f :
  compacts cache db0 db -> key_wf k -> updated db k c db1 ->
  match f (cache !! EncodeTo k) with
  | None => Post c = db0 k
  | Some r => change_key r k /\ Pre r = db0 k /\ Post r = Post c
  end ->
  compacts (partial_alter f (EncodeTo k) cache) db0 db1.
Proof.
  intros [He Ho Hk] Wk [Uk Uk'] Hf. split.
  - intros q Wq. destruct (LedgerKey_Equals q k) eqn:E.
    + apply LedgerKey_Equals_eq in E as ->. rewrite lookup_partial_alter_eq.
      destruct (f _); rewrite Uk; naive_solver.
    + assert (Hne : q <> k) by (intros ->; by rewrite (proj2 (LedgerKey_Equals_eq k k)) in E).
      rewrite lookup_partial_alter_ne by (intros H; by apply EncodeTo_inj in H).
      rewrite Uk' by done. by apply He.
  - intros q Wq. rewrite Uk' by (intros ->; done). by apply Ho.
  - intros b r Hb. destruct (decide (b = EncodeTo k)) as [->|Hne]; [by exists k|].
    rewrite lookup_partial_alter_ne in Hb by done. by eapply Hk.
Qed.

Lemma AddChange_compacts `{SL : !ScValLaws ScVal} cache db0 db k c db1 :
  compacts cache db0 db -> key_wf k -> change_key c k -> db k = Pre c -> updated db k c db1 ->
  exists cache', AddChange cache c = Ok cache' /\ compacts cache' db0 db1 /\ (size cache' <= S (size cache))%nat.
Proof.
  intros Hcomp Wk Ck Pk Uk. pose proof (compacts_entry _ _ _ Hcomp k Wk) as He.
  rewrite (AddChange_value _ _ k Ck).
  2: { intros e E. rewrite E in He. apply He. }
  destruct (cache !! EncodeTo k) as [e|] eqn:E.
  - destruct He as (Ce & Pe & Qe).
    replace (Bool.eqb (exists_after e) (exists_before c)) with true.
    2: { unfold exists_after, exists_before. rewrite Qe, Pk. by destruct (Pre c). }
    eexists. split; [done|]. split.
    + eapply compacts_alter; [done|done|done|]. simpl.
      destruct (squash k e c) as [r|] eqn:Er.
      * apply squash_key in Er as (Cr & -> & ->); [done|done|done].
      * unfold squash in Er. rewrite <- Pe. by destruct (Pre e), (Post c).
    + destruct (squash k e c) as [r|].
      * change (partial_alter _ _ _) with (<[EncodeTo k := r]> cache). rewrite map_size_insert, E. simpl. lia.
      * change (partial_alter _ _ _) with (delete (EncodeTo k) cache). rewrite map_size_delete, E. simpl. lia.
  - eexists. split; [done|]. split; [|rewrite map_size_insert, E; lia].
    eapply (compacts_alter _ _ _ _ _ _ (fun _ => Some c)); [done|done|done|]. simpl.
    split; [done|]. by rewrite <- He, Pk.
Qed.

Lemma compact_loop_compacts `{SL : !ScValLaws ScVal} db l db' : steps db l db' -> forall cache db0,
  compacts cache db0 db ->
  exists cache', compact_loop cache l = Ok cache' /\ compacts cache' db0 db' /\
    (size cache' <= size cache + length l)%nat.
Proof.
  induction 1 as [db db' H|db k c db1 l db' Wk Ck Pk Uk H IH]; intros cache db0 Hc; cbn [compact_loop].
  - exists cache. split; [done|]. split; [|simpl; lia]. destruct Hc as [He Ho Hk].
    split; [|intros k Wk; rewrite <- H; by apply Ho|done]. intros k Wk. rewrite <- H. by apply He.
  - destruct (AddChange_compacts _ _ _ _ _ _ Hc Wk Ck Pk Uk) as (cache1 & -> & Hc1 & Hs1).
    rewrite bind_Ok_l. destruct (IH _ _ Hc1) as (cache' & Hl & Hc' & Hs').
    exists cache'. split; [done|]. split; [done|]. simpl length. lia.
Qed.

(** Changes of different entries, each from [db0] to [db], lead from [db0] to [db]. *)
Lemma steps_distinct `{SL : !ScValLaws ScVal} l : forall db0 db,
  NoDup (ledgerKey <$> l) ->
  (forall c, c ∈ l -> exists k, key_wf k /\ change_key c k /\ Pre c = db0 k /\ Post c = db k) ->
  (forall k, (forall c, c ∈ l -> ~ change_key c k) -> db k = db0 k) ->
  steps db0 l db.
Proof.
  induction l as [|c l IH]; intros db0 db Hnd Hin Hout.
  - constructor. intros k. symmetry. apply Hout. set_solver.
  - rewrite fmap_cons in Hnd. apply NoDup_cons in Hnd as [Hc Hnd].
    destruct (Hin c) as (k & Wk & Ck & Pk & Qk); [set_solver|].
    assert (Hother : forall c' q, c' ∈ l -> change_key c' q -> q <> k).
    { intros c' q Hc' Cq ->. apply Hc. apply change_key_ledgerKey in Ck, Cq.
      rewrite Ck, <- Cq. by apply list_elem_of_fmap_2. }
    set (db1 := fun q => if LedgerKey_Equals q k then Post c else db0 q).
    assert (Hk1 : db1 k = Post c) by (unfold db1; by rewrite (proj2 (LedgerKey_Equals_eq k k))).
    assert (Hq1 : forall q, q <> k -> db1 q = db0 q).
    { intros q Hq. unfold db1. destruct (LedgerKey_Equals q k) eqn:E; [by apply LedgerKey_Equals_eq in E|done]. }
    econstructor; [done|done|by rewrite <- Pk|by split|]. apply IH; [done| |].
    + intros c' Hc'. destruct (Hin c') as (q & Wq & Cq & Pq & Qq); [set_solver|].
      exists q. rewrite Hq1 by by eapply Hother. done.
    + intros q Hq. destruct (LedgerKey_Equals q k) eqn:E.
      * apply LedgerKey_Equals_eq in E as ->. by rewrite Hk1, Qk.
      * assert (q <> k) by (intros ->; by rewrite (proj2 (LedgerKey_Equals_eq k k)) in E).
        rewrite Hq1 by done. apply Hout. intros c' [->|Hc']%elem_of_cons; [|by apply Hq].
        intros Cq. by apply (change_key_det c k q) in Cq.
Qed.

Lemma compacts_steps `{SL : !ScValLaws ScVal} cache db0 db l : compacts cache db0 db ->
  l ≡ₚ (map_to_list cache).*2 -> steps db0 l db /\ NoDup (ledgerKey <$> l).
Proof.
  intros [He Ho Hk] Hl.
  assert (Hval : forall b c, cache !! b = Some c -> exists k, b = EncodeTo k /\ key_wf k /\ change_key c k /\ Pre c = db0 k /\ Post c = db k).
  { intros b c Hb. destruct (Hk b c Hb) as (k & Wk & ->). exists k. pose proof (He k Wk) as H. by rewrite Hb in H. }
  assert (Hnd : NoDup (ledgerKey <$> l)).
  { rewrite Hl. rewrite <- list_fmap_compose. apply NoDup_fmap_2_strong; [|apply NoDup_map_to_list].
    intros [b c] [b' c'] Hb%elem_of_map_to_list Hb'%elem_of_map_to_list Hkey. simpl in Hkey.
    destruct (Hval b c Hb) as (k & -> & _ & Ck & _), (Hval b' c' Hb') as (k' & -> & _ & Ck' & _).
    apply change_key_ledgerKey in Ck, Ck'. assert (k = k') as -> by congruence. congruence. }
  split; [|done]. apply steps_distinct; [done| |].
  - intros c Hc. rewrite Hl in Hc. apply list_elem_of_fmap in Hc as ([b c'] & -> & Hb%elem_of_map_to_list).
    destruct (Hval b c' Hb) as (k & _ & H). by exists k.
  - intros k Hno. destruct (decide (key_wf k)) as [Wk|Wk]; [|by apply Ho].
    pose proof (He k Wk) as H. destruct (cache !! EncodeTo k) as [c|] eqn:E; [|done].
    exfalso. apply (Hno c); [|apply H]. rewrite Hl. apply list_elem_of_fmap.
    exists (EncodeTo k, c). split; [done|]. by apply elem_of_map_to_list.
Qed.

Lemma drain_compacted order inp out : forall fuel, (length out < fuel)%nat ->
  drain fuel order (mkCompactingChangeReader inp out true) = Ok out.
Proof.
  induction out as [|c out IH]; intros [|fuel] Hf; simpl in Hf; try lia; cbn [drain].
  - unfold Read. simpl negb. cbv iota. rewrite bind_Ok_l. simpl changes. cbv iota.
    by rewrite bool_decide_true.
  - unfold Read. simpl negb. cbv iota. rewrite bind_Ok_l. simpl changes. cbv iota.
    simpl compacted. rewrite IH by lia. by rewrite bind_Ok_l.
Qed.

(** The first read compacts the input; a reader that has compacted behaves the same. *)
Lemma Read_compact order c c' : compacted c = false -> compact order c = Ok c' -> compacted c' = true ->
  Read order c = Read order c'.
Proof. intros H H' H''. unfold Read. by rewrite H, H'', H'. Qed.

(** What a compacting reader returns once its input is compacted. *)
Lemma compacted_changes {SL : ScValLaws ScVal} (order : list Change -> list Change) (Horder : forall l, order l ≡ₚ l) db0 l db :
  steps db0 l db -> exists cache, compact_loop NewChangeCompactor l = Ok cache /\
    steps db0 (GetChanges order cache) db /\ NoDup (ledgerKey <$> GetChanges order cache) /\ (length (GetChanges order cache) <= length l)%nat.
Proof.
  intros Hsteps. destruct (compact_loop_compacts db0 l db Hsteps ∅ db0) as (cache & Hloop & Hc & Hsize); [by apply compacts_start|].
  assert (Hperm : GetChanges order cache ≡ₚ (map_to_list cache).*2) by apply Horder.
  destruct (compacts_steps cache db0 db _ Hc Hperm) as [Hs Hnd]. exists cache. split_and!; [done..|].
  rewrite Hperm, length_fmap, length_map_to_list. rewrite map_size_empty in Hsize. lia.
Qed.

Lemma drain_compact order l cache : compact_loop NewChangeCompactor l = Ok cache -> (length (GetChanges order cache) <= length l)%nat ->
  drain (S (length l)) order (NewCompactingChangeReader (mkChangeReader l EOF)) = Ok (GetChanges order cache).
Proof.
  intros Hloop Hlen. set (out := GetChanges order cache) in *.
  rewrite <- (drain_compacted order (mkChangeReader [] EOF) out (S (length l))) by lia.
  cbn [drain]. rewrite (Read_compact order _ (mkCompactingChangeReader (mkChangeReader [] EOF) out true)); [done|done| |done].
  unfold compact, NewCompactingChangeReader. simpl stream. rewrite Hloop, bind_Ok_l. simpl final. by rewrite bool_decide_true.
Qed.

(** Compaction preserves the meaning of a stream of changes: if the changes
    of the input lead from the ledger state [db0] to [db], then reading the
    compacting reader until [io.EOF] succeeds, returns at most one change per
    ledger entry and no more changes than the input had, and these changes lead
    from [db0] to [db] as well, in whatever order the map of the compactor is
    iterated. *)
Theorem compacting_reader_sound {SL : ScValLaws ScVal} (order : list Change -> list Change)
    (Horder : forall l, order l ≡ₚ l) (db0 db : ledger) (l : list Change) (Hsteps : steps db0 l db) :
  exists out, drain (S (length l)) order (NewCompactingChangeReader (mkChangeReader l EOF)) = Ok out /\
    steps db0 out db /\ NoDup (ledgerKey <$> out) /\ (length out <= length l)%nat.
Proof.
  destruct (compacted_changes order Horder db0 l db Hsteps) as (cache & Hloop & Hs & Hnd & Hlen).
  exists (GetChanges order cache). split; [by apply drain_compact|done].
Qed.

(** [AddChange] squashes a change with the cached change of the same entry:
    a new entry is cached as it is; otherwise the result goes from the state
    before the cached change to the state after the new one, and is dropped when
    the entry was created and is removed again; and an error is returned exactly
    when the new change contradicts the cached one (creating an entry that
    exists, updating or removing one that does not). *)
Theorem AddChange_composes (cache : Cache) (c : Change) (k : LedgerKey) (Hc : change_key c k)
    (Hcache : forall e, cache !! EncodeTo k = Some e -> change_key e k) :
  AddChange cache c =
    match cache !! EncodeTo k with
    | None => Ok (<[EncodeTo k := c]> cache)
    | Some e =>
        if Bool.eqb (exists_after e) (exists_before c)
        then Ok (partial_alter (fun _ => squash k e c) (EncodeTo k) cache)
        else Err (state_error c)
    end.
Proof. by apply AddChange_value. Qed.

End Changes.
Arguments Change ScVal Body : clear implicits.
Arguments LedgerEntryChange ScVal Body : clear implicits.

(** ** An example: one offer is updated, removed and created again *)

Definition offer_key : LedgerKey bool := KOffer account0 5.
Definition offer (amount : Z) : LedgerEntry bool (fun _ => Z) := mkLedgerEntry 1 (Offer account0 5 amount) LedgerEntryExtV0.
Definition holds (e : option (LedgerEntry bool (fun _ => Z))) : ledger :=
  fun k => if LedgerKey_Equals k offer_key then e else None.
Definition example_changes : list (Change bool (fun _ => Z)) :=
  [mkChange 2 (Some (offer 10)) (Some (offer 7)); mkChange 2 (Some (offer 7)) None;
   mkChange 2 None (Some (offer 30))].

Lemma offer_key_wf : key_wf offer_key.
Proof. split; [apply account0_wf|unfold in_int; lia]. Qed.

Lemma holds_step e e' l db' : match e with Some v => exists n, v = offer n | None => True end ->
  match e' with Some v => exists n, v = offer n | None => True end -> e <> None \/ e' <> None ->
  steps (holds e') l db' -> steps (holds e) (mkChange 2 e e' :: l) db'.
Proof.
  intros He He' Hne H. apply (steps_cons _ offer_key _ (holds e')); [apply offer_key_wf| | | |done].
  - split; [|split]; simpl; [intros v ->..|done]; [destruct He as [n ->]|destruct He' as [n ->]]; done.
  - unfold holds. by rewrite (proj2 (LedgerKey_Equals_eq offer_key offer_key)).
  - split; unfold holds; [by rewrite (proj2 (LedgerKey_Equals_eq offer_key offer_key))|].
    intros k Hk. destruct (LedgerKey_Equals k offer_key) eqn:E; [by apply LedgerKey_Equals_eq in E|done].
Qed.

Lemma example_steps : steps (holds (Some (offer 10))) example_changes (holds (Some (offer 30))).
Proof.
  apply holds_step; [by eexists|by eexists|by left|].
  apply holds_step; [by eexists|done|by left|].
  apply holds_step; [done|by eexists|by right|]. by constructor.
Qed.

Lemma compacting_reader_sound_witness :
  exists out, drain 4 id (NewCompactingChangeReader (mkChangeReader example_changes EOF)) = Ok out /\
    out = [mkChange 2 (Some (offer 10)) (Some (offer 30))] /\
    steps (holds (Some (offer 10))) out (holds (Some (offer 30))).
Proof.
  destruct (compacting_reader_sound id (fun l => Permutation_refl l) _ _ _ example_steps)
    as (out & Hd & Hs & _ & _).
  exists out. split; [done|]. split; [|done]. vm_compute in Hd. by injection Hd as <-.
Defined.

Lemma AddChange_composes_witness :
  let created : Change bool (fun _ => Z) := mkChange 2 None (Some (offer 7)) in
  AddChange {[EncodeTo offer_key := created]} created = Err "can't create an entry that already exists".
Proof.
  assert (Hk : change_key (mkChange 2 None (Some (offer 7))) offer_key).
  { split; [done|]. split; [by intros e [= <-]|by right]. }
  intros created. unfold created. rewrite (AddChange_composes _ _ offer_key Hk).
  - by rewrite lookup_singleton_eq.
  - intros e. rewrite lookup_singleton_eq. by intros [= <-].
Defined.

Definition example_raw : list (LedgerEntryChange bool (fun _ => Z)) :=
  [State (offer 10); Updated (offer 7); State (offer 7); Removed offer_key; Created (offer 30)].

Lemma changes_sorted_equivalent_witness :
  pair_changes None example_raw = Ok example_changes /\
  exists out, GetChangesFromLedgerEntryChanges example_raw = Ok out /\ out ≡ₚ example_changes /\
    steps (holds (Some (offer 10))) out (holds (Some (offer 30))).
Proof.
  split; [reflexivity|].
  destruct (changes_sorted_equivalent example_raw example_changes _ _ eq_refl example_steps)
    as (s & _ & Hg & Hp & _ & Hs).
  by exists (sortStable s).*2.
Defined.

End Compactor.
