(* ===== verification/StateVerifier.v ===== *)
(** * The state verifier (ingest/verify/main.go)

    [StateVerifier] compares what an application stored with the entries of a
    checkpoint: batches of entries are fetched from the reader, the application
    writes its own version of each, and a final call compares the numbers.  The
    main theorem is about any sequence of calls: when all of them succeed, the
    storage is the state of the checkpoint. *)
From S2P Require Import Prelude Strkey Xdr LedgerKeys XdrCodec Muxed Normalize Compactor.
Import LedgerKeys Normalize.
Local Open Scope Z_scope.

Module StateVerifier.

Section Verifier.
Context {XE : XdrEncoder} {XC : XdrCodec.XdrCodec} {ScVal Predicate : Type} {Rest : LedgerEntryType -> Type} {SO : ScValOps ScVal}.

Abbreviation LedgerEntry := (LedgerEntry ScVal (Body Predicate Rest)).
Abbreviation Change := (Compactor.Change ScVal (Body Predicate Rest)).

(** The generated encoder of ledger entries, which returns an error for values of
    no type. *)
Class EntryEncoder := { MarshalBinary : LedgerEntry -> res (list Z) }.
Context {EE : EntryEncoder}.

(** An error is a [StateError] or another one. *)
Inductive verror :=
| StateError (e : error)
| PlainError (e : error).

(** A transformation ignores an entry or gives the form to compare with. *)
Definition TransformLedgerEntryFunction : Type := LedgerEntry -> bool * LedgerEntry.

Record StateVerifier := mkStateVerifier {
  stateReader : Compactor.ChangeReader (ScVal := ScVal) (Body := Body Predicate Rest);
  transformFunction : option TransformLedgerEntryFunction;
  readEntries : Z;
  readingDone : bool;
  currentEntries : gmap (list Z) LedgerEntry
}.

Definition NewStateVerifier (stateReader : Compactor.ChangeReader) (tf : option TransformLedgerEntryFunction) : StateVerifier :=
  mkStateVerifier stateReader tf 0 false ∅.

Definition checkUnreadEntries (v : StateVerifier) : option verror :=
  if negb (Nat.eqb (size (currentEntries v)) 0) then Some (StateError "Entries not found locally") else None.

(** The entry is ignored in [GetLedgerEntries]. *)
Definition ignored (v : StateVerifier) (entry : LedgerEntry) : bool :=
  match transformFunction v with Some f => (f entry).1 | None => false end.

Definition nil_pointer : string := "invalid memory address or nil pointer dereference".

(** The loop of [GetLedgerEntries] over the changes that the reader will return:
    every turn takes one of them, and ends when [count] entries were kept. *)
Fixpoint get_loop (changes : list Change) (count : Z) (entries : list LedgerEntry) (v : StateVerifier) :
    res (list LedgerEntry * option verror * StateVerifier) :=
  if negb (count >? 0) then Ok (entries, None, v) else
  let final := Compactor.final (stateReader v) in
  match changes with
  | [] =>
      if bool_decide (final = EOF)
      then Ok (entries, None, mkStateVerifier (stateReader v) (transformFunction v) (readEntries v) true (currentEntries v))
      else Ok (entries, Some (PlainError final), v)
  | entryChange :: changes =>
      let v := mkStateVerifier (Compactor.mkChangeReader changes final) (transformFunction v) (readEntries v) (readingDone v) (currentEntries v) in
      match Compactor.Post entryChange with
      | None => Panic nil_pointer
      | Some entry =>
          if ignored v entry then get_loop changes count entries v else
          match Entry_LedgerKey entry with
          | Err e => Ok (entries, Some (PlainError (wrap_error "Error marshaling ledgerKey" e)), v)
          | Panic m => Panic m
          | Ok ledgerKey =>
              entry ← Normalize entry;
              get_loop changes (count - 1) (entries ++ [entry])
                (mkStateVerifier (stateReader v) (transformFunction v) (readEntries v + 1) (readingDone v)
                   (<[EncodeTo ledgerKey := entry]> (currentEntries v)))
          end
      end
  end.

Definition GetLedgerEntries (v : StateVerifier) (count : Z) : res (list LedgerEntry * option verror * StateVerifier) :=
  match checkUnreadEntries v with
  | Some e => Ok ([], Some e, v)
  | None =>
      if count <? 0 then Panic "makeslice: cap out of range" else
      get_loop (Compactor.stream (stateReader v)) count []
        (mkStateVerifier (stateReader v) (transformFunction v) (readEntries v) (readingDone v) ∅)
  end.

(** [errors.Wrap] of an encoding error. *)
Definition marshal (r : res (list Z)) (msg : string) (v : StateVerifier) (k : list Z -> res (option verror * StateVerifier)) :
    res (option verror * StateVerifier) :=
  match r with
  | Ok b => k b
  | Err e => Ok (Some (PlainError (wrap_error msg e)), v)
  | Panic m => Panic m
  end.

Definition Write (v : StateVerifier) (entry : LedgerEntry) : res (option verror * StateVerifier) :=
  actualEntry ← Normalize entry;
  marshal (MarshalBinary actualEntry) "Error marshaling actualEntry" v (fun actualEntryMarshaled =>
  match Entry_LedgerKey actualEntry with
  | Err e => Ok (Some (PlainError (wrap_error "Error marshaling ledgerKey" e)), v)
  | Panic m => Panic m
  | Ok key =>
      let keyString := EncodeTo key in
      match currentEntries v !! keyString with
      | None => Ok (Some (StateError "Cannot find entry in currentEntries map"), v)
      | Some expectedEntry =>
          let v := mkStateVerifier (stateReader v) (transformFunction v) (readEntries v) (readingDone v)
                     (delete keyString (currentEntries v)) in
          marshal (MarshalBinary expectedEntry) "Error marshaling preTransformExpectedEntry" v (fun _ =>
          let '(ignore, expectedEntry) :=
            match transformFunction v with Some f => f expectedEntry | None => (false, expectedEntry) end in
          if ignore then Ok (Some (PlainError "Entry ignored in GetEntries but not ignored in Write"), v) else
          marshal (MarshalBinary expectedEntry) "Error marshaling expectedEntry" v (fun expectedEntryMarshaled =>
          if negb (bool_decide (actualEntryMarshaled = expectedEntryMarshaled))
          then Ok (Some (StateError "Entry does not match the fetched entry"), v)
          else Ok (None, v)))
      end
  end).

Definition Verify (v : StateVerifier) (countAll : Z) : option verror :=
  match checkUnreadEntries v with
  | Some e => Some e
  | None =>
      if negb (readingDone v) then Some (PlainError "There are unread entries in state reader. Process all entries before calling Verify.")
      else if negb (readEntries v =? countAll)
      then Some (StateError "Number of entries read using GetEntries does not match number of entries in your storage.")
      else None
  end.

(** ** Sequences of calls *)

Inductive call :=
| Get (count : Z)
| Put (entry : LedgerEntry).

(** The calls made before the first that fails; [Some] error is what it returned. *)
Fixpoint run (calls : list call) (v : StateVerifier) : res (option verror * StateVerifier) :=
  match calls with
  | [] => Ok (None, v)
  | Get count :: calls =>
      '(_, e, v) ← GetLedgerEntries v count;
      match e with Some e => Ok (Some e, v) | None => run calls v end
  | Put entry :: calls =>
      '(e, v) ← Write v entry;
      match e with Some e => Ok (Some e, v) | None => run calls v end
  end.

Definition written (calls : list call) : list LedgerEntry :=
  omap (fun c => match c with Put e => Some e | Get _ => None end) calls.

(** ** What the calls establish *)

Definition key_string (e : LedgerEntry) : list Z :=
  match Entry_LedgerKey e with Ok k => EncodeTo k | _ => [] end.

Context (tf : option TransformLedgerEntryFunction).

(** The entries of changes that are not ignored. *)
Definition kept (changes : list Change) : list LedgerEntry :=
  List.filter (fun e => negb (match tf with Some f => (f e).1 | None => false end)) (omap Compactor.Post changes).

Definition transformed (n : LedgerEntry) : LedgerEntry := match tf with Some f => (f n).2 | None => n end.

(** A written entry matches the normal form of an entry of the checkpoint: the same
    key, and the same encoding up to normalization and transformation. *)
Definition matches (w n : LedgerEntry) : Prop :=
  key_string w = key_string n /\
  exists w' b, Normalize w = Ok w' /\ MarshalBinary w' = Ok b /\ MarshalBinary (transformed n) = Ok b.

Lemma Normalize_key (e n : LedgerEntry) : Normalize e = Ok n -> Entry_LedgerKey n = Entry_LedgerKey e.
Proof.
  unfold Normalize, Entry_LedgerKey. intros H. apply bind_Ok in H as (d & Hd & [= <-]). cbn [EntryData].
  destruct (EntryData e); try (by injection Hd as <-); apply bind_Ok in Hd as (body' & _ & [= <-]); done.
Qed.

Lemma Normalize_key_string (e n : LedgerEntry) : Normalize e = Ok n -> key_string n = key_string e.
Proof. intros H. unfold key_string. by rewrite (Normalize_key _ _ H). Qed.

Definition insert_entry (m : gmap (list Z) LedgerEntry) (n : LedgerEntry) : gmap (list Z) LedgerEntry := <[key_string n := n]> m.

(** The normal forms of entries. *)
Definition normals (es ns : list LedgerEntry) : Prop := Forall2 (fun e n => Normalize e = Ok n) es ns.

Lemma normals_keys es ns : normals es ns -> key_string <$> ns = key_string <$> es.
Proof. induction 1 as [|e n es ns He _ IH]; cbn; [done|]. by rewrite IH, (Normalize_key_string _ _ He). Qed.

Record fetched (v v' : StateVerifier) (taken : list Change) (ns : list LedgerEntry) : Prop := {
  f_stream : Compactor.stream (stateReader v) = taken ++ Compactor.stream (stateReader v');
  f_final : Compactor.final (stateReader v') = Compactor.final (stateReader v);
  f_tf : transformFunction v' = transformFunction v;
  f_posts : Forall (fun c => Compactor.Post c <> None) taken;
  f_normals : normals (kept taken) ns;
  f_read : readEntries v' = readEntries v + Z.of_nat (length ns);
  f_current : currentEntries v' = fold_left insert_entry ns (currentEntries v);
  f_done : readingDone v' = true -> readingDone v = true \/
    Compactor.stream (stateReader v') = [] /\ Compactor.final (stateReader v) = EOF
}.

Lemma fetched_nil v : fetched v v [] [].
Proof. split; [done|done|done|apply Forall_nil_2|exact (List.Forall2_nil _)|cbn; lia|done|by left]. Qed.

Lemma kept_cons c changes e : Compactor.Post c = Some e -> kept (c :: changes) =
  if match tf with Some f => (f e).1 | None => false end then kept changes else e :: kept changes.
Proof.
  intros Hc. unfold kept. cbn. rewrite Hc. cbn. by destruct (match tf with Some f => (f e).1 | None => false end).
Qed.

Ltac fields :=
  cbn [stateReader Compactor.stream Compactor.final transformFunction readEntries readingDone currentEntries] in *.

Lemma get_loop_spec changes : forall count entries v es v', Compactor.stream (stateReader v) = changes -> transformFunction v = tf ->
  get_loop changes count entries v = Ok (es, None, v') ->
  exists taken ns, es = entries ++ ns /\ fetched v v' taken ns.
Proof.
  induction changes as [|c changes IH]; intros count entries v es v' Hs Htf H; cbn [get_loop] in H.
  { destruct (negb (count >? 0)); [injection H as <- <-; by exists [], []; rewrite app_nil_r; split; [|apply fetched_nil]|].
    destruct (bool_decide (Compactor.final (stateReader v) = EOF)) eqn:He; [|done]. apply bool_decide_eq_true in He.
    injection H as <- <-. exists [], []. rewrite app_nil_r. split; [done|]. destruct (fetched_nil v) as [? ? ? ? ? ? ? ?].
    split; try done. intros _. by right. }
  destruct (negb (count >? 0)); [injection H as <- <-; by exists [], []; rewrite app_nil_r; split; [|apply fetched_nil]|].
  destruct (Compactor.Post c) as [e|] eqn:Hc; [|done].
  unfold ignored in H. cbn [transformFunction] in H. rewrite Htf in H.
  destruct (match tf with Some f => (f e).1 | None => false end) eqn:Hi.
  - apply IH in H as (taken & ns & -> & [F1 F2 F3 F4 F5 F6 F7 F8]); [|done|done]. exists (c :: taken), ns. split; [done|].
    fields. split; [by rewrite Hs, F1|done|congruence|by constructor; [rewrite Hc|]|by rewrite (kept_cons c _ e), Hi|done..].
  - destruct (Entry_LedgerKey e) as [k|er|m] eqn:Hkey; [|done..]. apply bind_Ok in H as (n & Hn & H).
    apply IH in H as (taken & ns & -> & [F1 F2 F3 F4 F5 F6 F7 F8]); [|done|done].
    exists (c :: taken), (n :: ns). rewrite <- app_assoc. split; [done|].
    assert (Hks : EncodeTo k = key_string n) by (unfold key_string; by rewrite (Normalize_key _ _ Hn), Hkey).
    fields. split; [by rewrite Hs, F1|done|congruence|by constructor; [rewrite Hc|]| | | |done].
    + rewrite (kept_cons c _ e), Hi by done. by constructor.
    + rewrite F6. cbn [length]. lia.
    + rewrite F7, Hks. done.
Qed.

(** The entries of a batch, as the values of the map. *)
Lemma insert_entries ns : forall m, NoDup (key_string <$> ns) -> (forall k, k ∈ key_string <$> ns -> m !! k = None) ->
  (map_to_list (fold_left insert_entry ns m)).*2 ≡ₚ ns ++ (map_to_list m).*2.
Proof.
  induction ns as [|n ns IH]; intros m Hn Hm; [done|]. cbn in Hn. apply NoDup_cons in Hn as [Hni Hn]. cbn [fold_left app].
  rewrite IH; [|done|].
  - unfold insert_entry. rewrite map_to_list_insert by (apply Hm; left). cbn. by rewrite Permutation_middle.
  - intros k Hk. unfold insert_entry. rewrite lookup_insert_ne by (intros <-; done). apply Hm. by right.
Qed.

Lemma insert_entries_keys ns : forall m, (forall k n, m !! k = Some n -> key_string n = k) ->
  forall k n, fold_left insert_entry ns m !! k = Some n -> key_string n = k.
Proof.
  induction ns as [|x ns IH]; intros m Hm; [done|]. cbn [fold_left]. apply IH. intros k n. unfold insert_entry.
  destruct (decide (key_string x = k)) as [<-|Hne]; [rewrite lookup_insert_eq; by intros [= ->]|].
  rewrite lookup_insert_ne by done. apply Hm.
Qed.

(** Where a sequence of successful calls is: of the changes of the reader, [taken]
    have been read, [matched] are the entries compared so far. *)
Record progress (rdr : Compactor.ChangeReader (ScVal := ScVal) (Body := Body Predicate Rest)) (ws : list LedgerEntry)
    (v : StateVerifier) (taken : list Change) (ns matched : list LedgerEntry) : Prop := {
  p_stream : Compactor.stream rdr = taken ++ Compactor.stream (stateReader v);
  p_final : Compactor.final (stateReader v) = Compactor.final rdr;
  p_tf : transformFunction v = tf;
  p_posts : Forall (fun c => Compactor.Post c <> None) taken;
  p_normals : normals (kept taken) ns;
  p_read : readEntries v = Z.of_nat (length ns);
  p_done : readingDone v = true -> Compactor.stream (stateReader v) = [] /\ Compactor.final rdr = EOF;
  p_matched : Forall2 matches ws matched;
  p_split : matched ++ (map_to_list (currentEntries v)).*2 ≡ₚ ns;
  p_keys : forall k n, currentEntries v !! k = Some n -> key_string n = k
}.

Lemma progress_start rdr : progress rdr [] (NewStateVerifier rdr tf) [] [] [].
Proof. split; cbn; try done; exact (List.Forall2_nil _). Qed.

Lemma kept_app l l' : kept (l ++ l') = kept l ++ kept l'.
Proof. unfold kept. rewrite omap_app. apply List.filter_app. Qed.

Lemma checkUnread_empty v : checkUnreadEntries v = None -> currentEntries v = ∅.
Proof.
  unfold checkUnreadEntries. destruct (Nat.eqb_spec (size (currentEntries v)) 0) as [Hs|]; [|done]. intros _. by apply map_size_empty_inv.
Qed.

Lemma Get_progress rdr ws v taken ns matched count es v' : progress rdr ws v taken ns matched -> NoDup (key_string <$> kept (Compactor.stream rdr)) ->
  GetLedgerEntries v count = Ok (es, None, v') -> exists taken' ns', progress rdr ws v' taken' ns' matched.
Proof.
  intros [P1 P2 P3 P4 P5 P6 P7 P8 P9 P10] Hn H. unfold GetLedgerEntries in H.
  destruct (checkUnreadEntries v) eqn:Hc; [done|]. apply checkUnread_empty in Hc. destruct (count <? 0); [done|].
  apply get_loop_spec in H as (t & new & -> & [F1 F2 F3 F4 F5 F6 F7 F8]); [|done|done]. fields.
  exists (taken ++ t), (ns ++ new). rewrite Hc, map_to_list_empty, app_nil_r in P9.
  split; [by rewrite P1, F1, app_assoc|congruence|congruence|by apply Forall_app|rewrite kept_app; by apply Forall2_app| |
    |done| |].
  - rewrite length_app. lia.
  - intros Hd. destruct (F8 Hd) as [Hv|[? ?]]; [|by rewrite <- P2]. destruct (P7 Hv) as [Hs ?]. rewrite Hs in F1. symmetry in F1.
    by apply app_eq_nil in F1 as [_ ->].
  - assert (Hnew : NoDup (key_string <$> new)).
    { rewrite P1, F1, !kept_app, !fmap_app in Hn. rewrite (normals_keys _ _ F5). apply NoDup_app in Hn as (_ & _ & Hn).
      by apply NoDup_app in Hn as (? & _ & _). }
    rewrite F7. rewrite insert_entries by (done || set_solver). by rewrite map_to_list_empty, app_nil_r, P9.
  - intros k n. rewrite F7. by apply insert_entries_keys.
Qed.

Lemma Write_progress rdr ws v taken ns matched w v' : progress rdr ws v taken ns matched ->
  Write v w = Ok (None, v') -> exists n, progress rdr (ws ++ [w]) v' taken ns (matched ++ [n]).
Proof.
  intros [P1 P2 P3 P4 P5 P6 P7 P8 P9 P10] H. unfold Write in H. apply bind_Ok in H as (w' & Hw & H). unfold marshal in H.
  destruct (MarshalBinary w') as [b| |] eqn:Hb; [|done..]. destruct (Entry_LedgerKey w') as [k| |] eqn:Hk; [|done..].
  destruct (currentEntries v !! EncodeTo k) as [n|] eqn:Hl; [|done]. destruct (MarshalBinary n); [|done..].
  assert (Hkey : key_string w = EncodeTo k) by (rewrite <- (Normalize_key_string _ _ Hw); unfold key_string; by rewrite Hk).
  fields. rewrite P3 in H. pose proof (P10 _ _ Hl) as Hkn.
  assert (Hm : matches w n /\ v' = mkStateVerifier (stateReader v) (transformFunction v) (readEntries v) (readingDone v) (delete (EncodeTo k) (currentEntries v))).
  { unfold matches, transformed. destruct tf as [f|].
    - destruct (f n) as [[|] n'] eqn:Hf; [done|]. destruct (MarshalBinary n') as [b'| |] eqn:Hb'; [|done..].
      destruct (bool_decide (b = b')) eqn:Hbb; [|done]. apply bool_decide_eq_true in Hbb as <-. injection H as <-.
      split; [|by rewrite P3]. split; [congruence|]. exists w', b. by split_and!.
    - destruct (MarshalBinary n) as [b'| |] eqn:Hb'; [|done..].
      destruct (bool_decide (b = b')) eqn:Hbb; [|done]. apply bool_decide_eq_true in Hbb as <-. injection H as <-.
      split; [|by rewrite P3]. split; [congruence|]. exists w', b. by split_and!. }
  destruct Hm as [Hm ->]. exists n. fields. split; fields; try done.
  - apply Forall2_app; [done|]. exact (List.Forall2_cons _ _ Hm (List.Forall2_nil _)).
  - rewrite <- app_assoc. cbn [app]. rewrite <- P9. f_equiv.
    rewrite <- (map_to_list_delete _ _ _ Hl). done.
  - intros k' n'. intros [_ Hl']%lookup_delete_Some. by apply P10.
Qed.

Lemma run_progress rdr calls : NoDup (key_string <$> kept (Compactor.stream rdr)) -> forall ws v taken ns matched v',
  progress rdr ws v taken ns matched -> run calls v = Ok (None, v') ->
  exists taken' ns' matched', progress rdr (ws ++ written calls) v' taken' ns' matched'.
Proof.
  intros Hn. induction calls as [|[count|w] calls IH]; intros ws v taken ns matched v' Hp H; cbn [run] in H.
  - injection H as <-. rewrite app_nil_r. eauto.
  - apply bind_Ok in H as ([[es e] v1] & H1 & H). destruct e; [done|].
    destruct (Get_progress _ _ _ _ _ _ _ _ _ Hp Hn H1) as (taken' & ns' & Hp'). by apply (IH _ _ _ _ _ _ Hp').
  - apply bind_Ok in H as ([e v1] & H1 & H). destruct e; [done|].
    destruct (Write_progress _ _ _ _ _ _ _ _ Hp H1) as (n & Hp'). apply (IH _ _ _ _ _ _ Hp') in H as (t & ns' & m & Hq).
    rewrite <- app_assoc in Hq. eauto.
Qed.

Lemma Verify_Ok v countAll : Verify v countAll = None -> currentEntries v = ∅ /\ readingDone v = true /\ readEntries v = countAll.
Proof.
  unfold Verify. destruct (checkUnreadEntries v) eqn:Hc; [done|]. apply checkUnread_empty in Hc.
  destruct (readingDone v); [|done]. cbn. destruct (Z.eqb_spec (readEntries v) countAll); done.
Qed.

Lemma matches_keys ws ms : Forall2 matches ws ms -> key_string <$> ws = key_string <$> ms.
Proof. induction 1 as [|w m ws ms [Hk _] _ IH]; cbn; [done|]. by rewrite IH, Hk. Qed.

(** The reading is done only when the reader returned [io.EOF]. *)
Lemma run_reading_done calls : forall v v', transformFunction v = tf -> run calls v = Ok (None, v') ->
  Compactor.final (stateReader v') = Compactor.final (stateReader v) /\
  (readingDone v' = true -> readingDone v = true \/ Compactor.final (stateReader v) = EOF).
Proof.
  induction calls as [|[count|w] calls IH]; intros v v' Htf H; cbn [run] in H.
  - injection H as <-. split; [done|by left].
  - apply bind_Ok in H as ([[es e] v1] & H1 & H). destruct e; [done|]. unfold GetLedgerEntries in H1.
    destruct (checkUnreadEntries v); [done|]. destruct (count <? 0); [done|].
    apply get_loop_spec in H1 as (t & new & -> & [F1 F2 F3 F4 F5 F6 F7 F8]); [|done|done]. fields.
    apply IH in H as [E1 E2]; [|congruence]. rewrite E1, F2. split; [done|]. intros Hd. rewrite F2 in E2.
    destruct (E2 Hd) as [Hd1|]; [|by right]. destruct (F8 Hd1) as [|[_ ?]]; [by left|by right].
  - apply bind_Ok in H as ([e v1] & H1 & H). destruct e; [done|].
    assert (Hv : stateReader v1 = stateReader v /\ transformFunction v1 = transformFunction v /\ readingDone v1 = readingDone v).
    { unfold Write, marshal in H1. apply bind_Ok in H1 as (w' & _ & H1). repeat case_match; by simplify_eq. }
    destruct Hv as (E1 & E2 & E3). apply IH in H; [|congruence]. by rewrite E1, E3 in H.
Qed.

(** What the calls and [Verify] have compared when there was no error. *)
Lemma verified (rdr : Compactor.ChangeReader) (calls : list call) (storage : list LedgerEntry) (v : StateVerifier)
    (Hkeys : NoDup (key_string <$> kept (Compactor.stream rdr)))
    (Hrun : run calls (NewStateVerifier rdr tf) = Ok (None, v))
    (Hstored : forall w, w ∈ written calls -> w ∈ storage)
    (Hverify : Verify v (Z.of_nat (length storage)) = None) :
  Compactor.final rdr = EOF /\
  exists ns ms, normals (kept (Compactor.stream rdr)) ns /\ ms ≡ₚ ns /\ Forall2 matches storage ms.
Proof.
  destruct (run_progress rdr calls Hkeys _ _ _ _ _ _ (progress_start rdr) Hrun) as (taken & ns & matched & [P1 P2 P3 P4 P5 P6 P7 P8 P9 P10]).
  apply Verify_Ok in Hverify as (Hc & Hd & Hr). destruct (P7 Hd) as [Hs He]. split; [done|].
  rewrite Hs, app_nil_r in P1. rewrite <- P1 in P5. rewrite Hc, map_to_list_empty, app_nil_r in P9. cbn [app] in P8.
  pose proof (Permutation_length P9) as Hl1. pose proof (Forall2_length _ _ _ P8) as Hl2.
  assert (Hnd : NoDup (written calls)).
  { apply (NoDup_fmap_1 key_string). rewrite (matches_keys _ _ P8), P9. by rewrite (normals_keys _ _ P5). }
  assert (Hperm : written calls ≡ₚ storage).
  { apply submseteq_length_Permutation; [by apply NoDup_submseteq|]. lia. }
  destruct (Permutation_Forall2 Hperm P8) as (ms & Hms & Hall). exists ns, ms. split; [done|]. split; [by rewrite <- Hms|done].
Qed.

(** C12: When an application makes any sequence of calls to the verifier, writing
    only entries of its storage, and all calls succeed, then [Verify] with the
    size of the storage succeeds only if the reader was read to its end and the
    storage is the checkpoint: its entries correspond one to one to the entries
    of the reader that are not ignored, with equal keys and with equal encodings
    after normalization and transformation. *)
Theorem verifier_sound (rdr : Compactor.ChangeReader) (calls : list call) (storage : list LedgerEntry) (v : StateVerifier)
    (Hkeys : NoDup (key_string <$> kept (Compactor.stream rdr)))
    (Hrun : run calls (NewStateVerifier rdr tf) = Ok (None, v))
    (Hstored : forall w, w ∈ written calls -> w ∈ storage)
    (Hverify : Verify v (Z.of_nat (length storage)) = None) :
  Compactor.final rdr = EOF /\
  exists ns ms, normals (kept (Compactor.stream rdr)) ns /\ ms ≡ₚ ns /\ Forall2 matches storage ms.
Proof. by apply (verified rdr calls storage v). Qed.

(** ** No false alarms *)

(** An application that fetches its own version of every batch, as long as there
    are entries. *)
Fixpoint verify_all (fuel : nat) (count : Z) (fetch : list LedgerEntry -> list LedgerEntry) (v : StateVerifier) :
    res (option verror * StateVerifier) :=
  match fuel with
  | O => Err "out of fuel"
  | S fuel =>
      '(entries, e, v) ← GetLedgerEntries v count;
      match e, entries with
      | Some e, _ => Ok (Some e, v)
      | None, [] => Ok (None, v)
      | None, _ =>
          '(e, v) ← run (Put <$> fetch entries) v;
          match e with Some e => Ok (Some e, v) | None => verify_all fuel count fetch v end
      end
  end.

(** A reader without faults: every change has an entry that has a key and a normal
    form, which the transformation keeps and which can be encoded. *)
Definition good_change (c : Change) : Prop := exists e n, Compactor.Post c = Some e /\ is_ok (Entry_LedgerKey e) = true /\
  Normalize e = Ok n /\ is_ok (MarshalBinary n) = true /\ (match tf with Some f => (f n).1 = (f e).1 | None => True end).

Lemma get_loop_good changes : Forall good_change changes -> forall count entries v, 0 <= count ->
  Compactor.stream (stateReader v) = changes -> Compactor.final (stateReader v) = EOF -> transformFunction v = tf ->
  exists ns v', get_loop changes count entries v = Ok (entries ++ ns, None, v') /\
    (Z.of_nat (length ns) = count \/ readingDone v' = true) /\
    Forall (fun n => is_ok (MarshalBinary n) = true /\ match tf with Some f => (f n).1 = false | None => True end) ns.
Proof.
  induction 1 as [|c changes Hc Hg IH]; intros count entries v Hcount Hs Hf Htf; cbn [get_loop].
  { destruct (Z.gtb_spec count 0); cbn [negb].
    - rewrite bool_decide_true by done. eexists [], _. rewrite app_nil_r. split; [done|]. split; [by right|done].
    - exists [], v. rewrite app_nil_r. split; [done|]. split; [left; cbn; lia|done]. }
  destruct (Z.gtb_spec count 0); cbn [negb]; cycle 1.
  { exists [], v. rewrite app_nil_r. split; [done|]. split; [left; cbn; lia|done]. }
  destruct Hc as (e & n & -> & Hk & Hn & Hm & Ht). unfold ignored. cbn [transformFunction]. rewrite Htf.
  destruct (match tf with Some f => (f e).1 | None => false end) eqn:Hi; [by apply IH|].
  destruct (Entry_LedgerKey e) as [k| |] eqn:Hke; [|done..]. rewrite Hn, bind_Ok_l.
  destruct (IH (count - 1) (entries ++ [n]) (mkStateVerifier (Compactor.mkChangeReader changes (Compactor.final (stateReader v))) tf
    (readEntries v + 1) (readingDone v) (<[EncodeTo k := n]> (currentEntries v)))) as (ns & v' & Hg' & Hl & Hall); [lia|done..|].
  exists (n :: ns), v'. cbn [stateReader]. rewrite <- app_assoc in Hg'. split; [done|]. split; [destruct Hl; [left; cbn; lia|by right]|].
  constructor; [|done]. split; [done|]. destruct tf as [f|]; [|done]. congruence.
Qed.

(** Writing the local versions of the entries that are waiting. *)
Lemma run_puts ws ms : Forall2 matches ws ms -> NoDup (key_string <$> ms) ->
  Forall (fun n => is_ok (MarshalBinary n) = true /\ match tf with Some f => (f n).1 = false | None => True end) ms ->
  forall v, transformFunction v = tf -> currentEntries v = list_to_map ((fun n => (key_string n, n)) <$> ms) ->
  Forall (fun w => is_ok (Entry_LedgerKey w) = true) ws ->
  run (Put <$> ws) v = Ok (None, mkStateVerifier (stateReader v) tf (readEntries v) (readingDone v) ∅).
Proof.
  induction 1 as [|w n ws ms [Hk (w' & b & Hw & Hb & Hbt)] _ IH]; intros Hn Hall v Htf Hc Hok.
  { cbn. destruct v. cbn in *. by subst. }
  cbn in Hn. apply NoDup_cons in Hn as [Hni Hn]. apply Forall_cons in Hall as [[Hm Hi] Hall]. apply Forall_cons in Hok as [Hwk Hok].
  cbn [fmap list_fmap run]. unfold Write. rewrite Hw, bind_Ok_l, Hb. cbn [marshal]. rewrite (Normalize_key _ _ Hw).
  destruct (Entry_LedgerKey w) as [k| |] eqn:Hwk'; [|done..].
  assert (Hkk : EncodeTo k = key_string n) by (rewrite <- Hk; unfold key_string; by rewrite Hwk').
  rewrite Hc, Hkk. cbn [fmap list_fmap list_to_map foldr uncurry fst snd]. rewrite lookup_insert_eq.
  destruct (MarshalBinary n) as [bn| |] eqn:Hbn; [|done..]. cbn [marshal transformFunction]. rewrite Htf.
  set (v1 := mkStateVerifier _ _ _ _ _).
  assert (Hdel : currentEntries v1 = list_to_map ((fun n => (key_string n, n)) <$> ms)).
  { cbn. rewrite delete_insert_id; [done|]. apply not_elem_of_list_to_map_1. by rewrite <- list_fmap_compose. }
  unfold transformed in Hbt. destruct tf as [f|] eqn:Hf.
  - destruct (f n) as [i n'] eqn:Hfn. cbn in Hi, Hbt. subst i. rewrite Hbt. cbn [marshal]. rewrite bool_decide_true by done. cbn [negb].
    rewrite bind_Ok_l. rewrite IH; done.
  - rewrite Hbt. cbn [marshal]. rewrite bool_decide_true by done. cbn [negb]. rewrite bind_Ok_l. rewrite IH; done.
Qed.

Lemma fold_insert_entry ns : NoDup (key_string <$> ns) -> forall m,
  fold_left insert_entry ns m = list_to_map ((fun n => (key_string n, n)) <$> ns) ∪ m.
Proof.
  induction ns as [|n ns IH]; cbn; intros Hn m; [by rewrite map_empty_union|]. apply NoDup_cons in Hn as [Hk Hn].
  rewrite IH by done. unfold insert_entry. rewrite <- insert_union_r by (apply not_elem_of_list_to_map_1; by rewrite <- list_fmap_compose).
  by rewrite insert_union_l.
Qed.

(** The local versions of a batch: a matching entry for each, in any order. *)
Definition fetches (fetch : list LedgerEntry -> list LedgerEntry) (es : list LedgerEntry) : Prop := forall ns,
  (forall n, n ∈ ns -> exists e, e ∈ es /\ Normalize e = Ok n) ->
  Forall (fun w => is_ok (Entry_LedgerKey w) = true) (fetch ns) /\
  exists ms, ms ≡ₚ ns /\ Forall2 matches (fetch ns) ms.

Lemma normals_elem es ns n : normals es ns -> n ∈ ns -> exists e, e ∈ es /\ Normalize e = Ok n.
Proof.
  induction 1 as [|e n' es ns He _ IH]; intros Hin; [by apply elem_of_nil in Hin|]. apply elem_of_cons in Hin as [->|Hin].
  - exists e. split; [left|done].
  - destruct (IH Hin) as (e' & ? & ?). exists e'. split; [by right|done].
Qed.

Lemma fetches_mono fetch es es' : (forall e, e ∈ es -> e ∈ es') -> fetches fetch es' -> fetches fetch es.
Proof. intros Hsub Hf ns Hns. apply Hf. intros n Hn. destruct (Hns n Hn) as (e & ? & ?). eauto. Qed.

Lemma verify_all_Ok fetch count : 0 < count -> forall fuel v,
  Forall good_change (Compactor.stream (stateReader v)) -> Compactor.final (stateReader v) = EOF -> transformFunction v = tf ->
  NoDup (key_string <$> kept (Compactor.stream (stateReader v))) -> currentEntries v = ∅ ->
  (readingDone v = true -> Compactor.stream (stateReader v) = []) -> fetches fetch (kept (Compactor.stream (stateReader v))) ->
  (length (kept (Compactor.stream (stateReader v))) < fuel)%nat ->
  exists v', verify_all fuel count fetch v = Ok (None, v') /\ currentEntries v' = ∅ /\ readingDone v' = true /\
    readEntries v' = readEntries v + Z.of_nat (length (kept (Compactor.stream (stateReader v)))).
Proof.
  intros Hcount. induction fuel as [|fuel IH]; intros v Hg Hf Htf Hn Hc Hd Hfetch Hfuel; [lia|]. cbn [verify_all].
  unfold GetLedgerEntries, checkUnreadEntries. rewrite Hc, map_size_empty. cbn [Nat.eqb negb].
  rewrite (proj2 (Z.ltb_ge count 0)) by lia.
  set (v0 := mkStateVerifier (stateReader v) (transformFunction v) (readEntries v) (readingDone v) ∅).
  destruct (get_loop_good _ Hg count [] v0 ltac:(lia) eq_refl Hf Htf) as (ns & v1 & Hget & Hlen & Hall). cbn [app] in Hget.
  rewrite Hget, bind_Ok_l. apply get_loop_spec in Hget as (taken & ns' & Heq & [F1 F2 F3 F4 F5 F6 F7 F8]); [|done|done].
  cbn [app] in Heq. subst ns'. cbn [v0 stateReader transformFunction readEntries currentEntries readingDone] in *.
  assert (Hd1 : readingDone v1 = true -> Compactor.stream (stateReader v1) = []).
  { intros Hd1. destruct (F8 Hd1) as [Hv|[? _]]; [|done]. rewrite (Hd Hv) in F1. symmetry in F1. by apply app_eq_nil in F1 as [_ ->]. }
  rewrite F1, kept_app, fmap_app in Hn. apply NoDup_app in Hn as (Hn1 & _ & Hn2). rewrite <- (normals_keys _ _ F5) in Hn1.
  pose proof (Forall2_length _ _ _ F5) as Hl.
  assert (Hlk : length (kept (Compactor.stream (stateReader v))) = (length ns + length (kept (Compactor.stream (stateReader v1))))%nat)
    by (rewrite F1, kept_app, length_app; lia).
  destruct ns as [|n ns].
  - exists v1. destruct Hlen as [Hlen|Hlen]; [cbn in Hlen; lia|]. split; [done|]. split; [by rewrite F7|]. split; [done|].
    rewrite Hlk, (Hd1 Hlen), F6. cbn. lia.
  - destruct (Hfetch (n :: ns)) as (Hk & ms & Hms & Hmatch).
    { intros m Hm. destruct (normals_elem _ _ _ F5 Hm) as (e & He & ?). exists e. split; [|done]. rewrite F1, kept_app. apply elem_of_app. by left. }
    rewrite (run_puts _ ms Hmatch); [|by rewrite Hms|by rewrite Hms|congruence| |done].
    + rewrite bind_Ok_l. destruct (IH (mkStateVerifier (stateReader v1) tf (readEntries v1) (readingDone v1) ∅)) as (v' & H1 & H2 & H3 & H4);
        cbn [stateReader transformFunction readEntries readingDone currentEntries]; try done.
      * rewrite F1 in Hg. by apply Forall_app in Hg as [_ ?].
      * congruence.
      * apply (fetches_mono _ _ (kept (Compactor.stream (stateReader v)))); [|done]. intros e He. rewrite F1, kept_app. apply elem_of_app. by right.
      * cbn in Hlk. lia.
      * exists v'. split; [done|]. split; [done|]. split; [done|]. rewrite H4, F6, Hlk. cbn [readEntries stateReader]. cbn [length]. lia.
    + rewrite F7, fold_insert_entry, map_union_empty by done.
      apply list_to_map_proper; [by rewrite <- list_fmap_compose|]. symmetry. by apply fmap_Permutation.
Qed.

(** C18: And no false alarms: if the application fetches, for every batch, entries
    that match those of the batch in some order, then all calls succeed in batches
    of any size, and so does [Verify] with the number of entries. *)
Theorem verifier_complete (rdr : Compactor.ChangeReader) (fetch : list LedgerEntry -> list LedgerEntry) (count : Z) (fuel : nat)
    (Hcount : 0 < count) (Hgood : Forall good_change (Compactor.stream rdr)) (Hfinal : Compactor.final rdr = EOF)
    (Hkeys : NoDup (key_string <$> kept (Compactor.stream rdr))) (Hfetch : fetches fetch (kept (Compactor.stream rdr)))
    (Hfuel : (length (kept (Compactor.stream rdr)) < fuel)%nat) :
  exists v, verify_all fuel count fetch (NewStateVerifier rdr tf) = Ok (None, v) /\
    Verify v (Z.of_nat (length (kept (Compactor.stream rdr)))) = None.
Proof.
  destruct (verify_all_Ok fetch count Hcount fuel (NewStateVerifier rdr tf)) as (v & H1 & H2 & H3 & H4); try done.
  exists v. split; [done|]. unfold Verify, checkUnreadEntries. rewrite H2, map_size_empty. cbn [Nat.eqb negb]. rewrite H3, H4. cbn.
  by rewrite Z.eqb_refl.
Qed.

End Verifier.

(** ** An example: two offers *)

Definition VBody : LedgerEntryType -> Type := Body unit (fun _ => Z).
Definition VEntry : Type := LedgerKeys.LedgerEntry bool VBody.

(** An encoding of offers; other entries are not values of it. *)
#[global] Instance offer_encoder : EntryEncoder (ScVal := bool) (Predicate := unit) (Rest := fun _ => Z) := {
  MarshalBinary e :=
    match EntryData e with
    | Offer _ id amount => Ok [LastModifiedLedgerSeq e; id; amount : Z; match EntryExt e with LedgerEntryExtV0 => 0 | LedgerEntryExtV1 _ => 1 end]
    | _ => Err "not an offer"
    end
}.

Definition voffer (id amount : Z) : VEntry := mkLedgerEntry 1 (Offer account0 id (amount : VBody LedgerEntryTypeOffer)) LedgerEntryExtV0.
Definition vnormal (id amount : Z) : VEntry :=
  mkLedgerEntry 1 (Offer account0 id (amount : VBody LedgerEntryTypeOffer)) (LedgerEntryExtV1 None).

Definition vreader : Compactor.ChangeReader (ScVal := bool) (Body := VBody) :=
  Compactor.mkChangeReader [Compactor.mkChange 2 None (Some (voffer 1 10)); Compactor.mkChange 2 None (Some (voffer 2 20))] EOF.

(** The storage has the entries in another order and in normal form. *)
Definition vstorage : list VEntry := [vnormal 2 20; voffer 1 10].
Definition vcalls : list (call (ScVal := bool) (Predicate := unit) (Rest := fun _ => Z)) := [Get 1; Put (voffer 1 10); Get 5; Put (vnormal 2 20); Get 5].
Definition vafter : StateVerifier (ScVal := bool) (Predicate := unit) (Rest := fun _ => Z) := mkStateVerifier (Compactor.mkChangeReader [] EOF) None 2 true ∅.

Lemma vkeys : NoDup (key_string <$> kept None (Compactor.stream vreader)).
Proof. apply (bool_decide_unpack _). vm_compute. exact I. Qed.

Lemma vrun : run vcalls (NewStateVerifier vreader None) = Ok (None, vafter).
Proof. vm_compute. reflexivity. Qed.

Lemma verifier_sound_witness : exists ns ms,
  normals (kept None (Compactor.stream vreader)) ns /\ ms ≡ₚ ns /\ Forall2 (matches None) vstorage ms.
Proof.
  destruct (verifier_sound None vreader vcalls vstorage vafter) as [_ H].
  - apply vkeys.
  - apply vrun.
  - intros w Hw. cbn in Hw. apply elem_of_cons in Hw as [->|Hw]; [right; left|].
    apply elem_of_cons in Hw as [->|Hw]; [left|]. by apply elem_of_nil in Hw.
  - reflexivity.
  - exact H.
Defined.

Lemma vmatches (l : list VEntry) : Forall (fun n => exists id amount, n = vnormal id amount) l -> Forall2 (matches None) l l.
Proof.
  induction 1 as [|n l (id & amount & ->) _ IH]; [exact (List.Forall2_nil _)|]. apply List.Forall2_cons; [|done].
  split; [done|]. by eexists _, _.
Qed.

(** An application that stored exactly the normal forms, and returns a batch in
    the reverse order. *)
Lemma vfetches : fetches None (@reverse VEntry) (kept None (Compactor.stream vreader)).
Proof.
  intros ns Hns.
  assert (Hn : Forall (fun n : VEntry => exists id amount, n = vnormal id amount) ns).
  { apply Forall_forall. intros n Hn. destruct (Hns n Hn) as (e & He & H). cbn in He.
    apply elem_of_cons in He as [->|He]; [injection H as <-; by eexists _, _|].
    apply elem_of_cons in He as [->|He]; [injection H as <-; by eexists _, _|]. by apply elem_of_nil in He. }
  assert (Hr : Forall (fun n : VEntry => exists id amount, n = vnormal id amount) (reverse ns)) by by apply Forall_reverse.
  split.
  - eapply Forall_impl; [exact Hr|]. by intros n (id & amount & ->).
  - exists (reverse ns). split; [apply reverse_Permutation|by apply vmatches].
Qed.

Lemma vgood : Forall (good_change None) (Compactor.stream vreader).
Proof.
  repeat constructor; [exists (voffer 1 10), (vnormal 1 10)|exists (voffer 2 20), (vnormal 2 20)]; by split_and!.
Qed.

Lemma verifier_complete_witness : exists v,
  verify_all 10 1 (@reverse VEntry) (NewStateVerifier vreader None) = Ok (None, v) /\ Verify v 2 = None.
Proof.
  destruct (verifier_complete None vreader (@reverse VEntry) 1 10) as (v & H1 & H2).
  - lia.
  - apply vgood.
  - reflexivity.
  - apply vkeys.
  - apply vfetches.
  - cbn. lia.
  - exists v. split; [exact H1|exact H2].
Defined.

End StateVerifier.
