(* ===== verification/CheckpointReader.v ===== *)
(** * Reading the state of a checkpoint (ingest/checkpoint_change_reader.go,
      ingest/memory_temp_set.go)

    The state of the network at a checkpoint is a list of buckets.  The reader
    streams the entries that are alive from the newest bucket to the oldest with
    a set of the keys it has seen, and retries when a file fails in the middle.
    The goroutine that streams and the consumer share the channel of results:
    the model runs the goroutine against an environment (the archive, the
    context, calls to [Close] by others) and [Read] takes what it has sent.
    A [Panic] is a crash; running out of fuel is an [Err] of the model. *)
From S2P Require Import Prelude Xdr LedgerKeys XdrCodec XdrStreams TrieXdr Checkpoints Compactor.
Import LedgerKeys XdrCodec XdrStreams.
Local Open Scope Z_scope.

Module CheckpointReader.

Definition maxStreamRetries : nat := 3.
Definition preloadedEntries : nat := Z.to_nat 20000.
Definition out_of_fuel : error := "out of fuel".

(** ** The temporary set of keys *)
(** The map is nil before [Open] and after [Close]. *)
Definition memoryTempSet : Type := option (gset (list Z)).

Definition memoryTempSet_Open (s : memoryTempSet) : res memoryTempSet := Ok (Some ∅).
Definition memoryTempSet_Add (s : memoryTempSet) (key : list Z) : res memoryTempSet :=
  match s with
  | Some m => Ok (Some ({[key]} ∪ m))
  | None => Panic "assignment to entry in nil map"
  end.
Definition memoryTempSet_Preload (s : memoryTempSet) (keys : list (list Z)) : res memoryTempSet := Ok s.
Definition memoryTempSet_Exist (s : memoryTempSet) (key : list Z) : res bool :=
  Ok (match s with Some m => bool_decide (key ∈ m) | None => false end).
Definition memoryTempSet_Close (s : memoryTempSet) : res memoryTempSet := Ok None.

(** ** Buckets of a history archive state *)

(** The hashes of one level of the bucket list. *)
Record Level := mkLevel { Curr : string; Snap : string }.
Record HistoryArchiveState := mkHAS { CurrentLedger : Z; CurrentBuckets : list Level }.

(** What a loop does next: go on with a value, or return. *)
Inductive flow (A : Type) : Type :=
| Continue (a : A)
| Return (shouldContinue : bool).
Arguments Continue {A} a.
Arguments Return {A} shouldContinue.

Section Reader.
Context {XE : XdrEncoder} {XC : XdrCodec} {ScVal : Type} {Body : LedgerEntryType -> Type} {SO : ScValOps ScVal}.

Abbreviation LedgerKey := (LedgerKey ScVal).
Abbreviation LedgerEntry := (LedgerEntry ScVal Body).

Inductive BucketEntry :=
| LiveEntry (e : LedgerEntry)
| InitEntry (e : LedgerEntry)
| DeadEntry (k : LedgerKey)
| MetaEntry (LedgerVersion : Z)
| UnknownBucketEntry (typ : Z).

(** The generated decoders of entries and keys, whose contract values and bodies
    are parameters of the model. *)
Class EntryDecoders := {
  LedgerEntry_DecodeFrom : nat -> reader LedgerEntry;
  LedgerKey_DecodeFrom : nat -> reader LedgerKey
}.

Context {DE : EntryDecoders} (sha256 : list Z -> list Z).

(** Two's complement. *)
Definition DecodeInt (d : list Z) : res (Z * list Z) := '(v, d) ← DecodeUint d; Ok (to_int32 v, d).

Definition BucketEntryType_DecodeFrom (maxDepth : nat) (d : list Z) : res (Z * list Z) :=
  match maxDepth with
  | O => Err (wrap_error "decoding BucketEntryType" TrieXdr.ErrMaxDecodingDepthReached)
  | S _ =>
      '(v, d) ← Wrap (DecodeInt d) "decoding BucketEntryType";
      if (v =? -1) || (v =? 0) || (v =? 1) || (v =? 2) then Ok (v, d)
      else Err "is not a valid BucketEntryType enum value"
  end.

Definition BucketMetadataExt_DecodeFrom (maxDepth : nat) (d : list Z) : res (unit * list Z) :=
  match maxDepth with
  | O => Err (wrap_error "decoding BucketMetadataExt" TrieXdr.ErrMaxDecodingDepthReached)
  | S _ =>
      '(v, d) ← Wrap (DecodeInt d) "decoding Int";
      if v =? 0 then Ok (tt, d) else Err "union BucketMetadataExt has invalid V (int32) switch value"
  end.

Definition BucketMetadata_DecodeFrom (maxDepth : nat) (d : list Z) : res (Z * list Z) :=
  match maxDepth with
  | O => Err (wrap_error "decoding BucketMetadata" TrieXdr.ErrMaxDecodingDepthReached)
  | S maxDepth =>
      '(version, d) ← Wrap (TrieXdr.Uint32_DecodeFrom maxDepth d) "decoding Uint32";
      '(_, d) ← Wrap (BucketMetadataExt_DecodeFrom maxDepth d) "decoding BucketMetadataExt";
      Ok (version, d)
  end.

Definition BucketEntry_DecodeFrom (maxDepth : nat) (d : list Z) : res (BucketEntry * list Z) :=
  match maxDepth with
  | O => Err (wrap_error "decoding BucketEntry" TrieXdr.ErrMaxDecodingDepthReached)
  | S maxDepth =>
      '(t, d) ← Wrap (BucketEntryType_DecodeFrom maxDepth d) "decoding BucketEntryType";
      if t =? 0 then '(e, d) ← Wrap (LedgerEntry_DecodeFrom maxDepth d) "decoding LedgerEntry"; Ok (LiveEntry e, d)
      else if t =? 2 then '(e, d) ← Wrap (LedgerEntry_DecodeFrom maxDepth d) "decoding LedgerEntry"; Ok (InitEntry e, d)
      else if t =? 1 then '(k, d) ← Wrap (LedgerKey_DecodeFrom maxDepth d) "decoding LedgerKey"; Ok (DeadEntry k, d)
      else if t =? -1 then '(v, d) ← Wrap (BucketMetadata_DecodeFrom maxDepth d) "decoding BucketMetadata"; Ok (MetaEntry v, d)
      else Err "union BucketEntry has invalid Type (BucketEntryType) switch value"
  end.

(** [DecodeBytes] passes the default depth of the library. *)
Definition decode_entry : reader BucketEntry := BucketEntry_DecodeFrom MaxDepth.

(** ** The environment *)

(** What the reader asks of others: whether the context is done, whether the
    channel [done] was closed by a call of [Close], and the archive, each with the
    state of the world after it. *)
Class Env (W : Type) := {
  ctx_done : W -> bool * W;
  close_called : W -> bool * W;
  BucketExists : list Z -> W -> res bool * W;
  BucketSize : list Z -> W -> res Z * W;
  GetXdrStreamForHash : list Z -> W -> res source * W;
  GetCheckpointManager : W -> Checkpoints.CheckpointManager;
  GetCheckpointHAS : Z -> W -> res HistoryArchiveState * W
}.

Context {W : Type} {EN : Env W}.

(** What is sent through the channel: the entry of a [LedgerEntryState] change,
    or an error. *)
Inductive readResult :=
| Entry (e : LedgerEntry)
| Failure (e : error).

Record Reader := mkReader {
  world : W;
  has : HistoryArchiveState;
  sequence : Z;
  tempStore : memoryTempSet;
  readChan : list readResult;
  closed : bool;              (** [close(r.readChan)] was called *)
  done : bool;                (** [close(r.done)] was called by the reader itself *)
  totalSize : Z
}.

(** The goroutine's steps. *)
Definition M (A : Type) : Type := Reader -> res (A * Reader).
#[global] Instance M_ret : MRet M := fun A a r => Ok (a, r).
#[global] Instance M_bind : MBind M := fun A B f c r => '(a, r) ← c r; f a r.

Definition get_tempStore : M memoryTempSet := fun r => Ok (tempStore r, r).
Definition set_tempStore (t : memoryTempSet) : M unit := fun r => Ok (tt,
  mkReader (world r) (has r) (sequence r) t (readChan r) (closed r) (done r) (totalSize r)).
Definition set_world (w : W) (r : Reader) : Reader :=
  mkReader w (has r) (sequence r) (tempStore r) (readChan r) (closed r) (done r) (totalSize r).
(** A call of the environment. *)
Definition ask {A} (f : W -> A * W) : M A := fun r => let '(a, w) := f (world r) in Ok (a, set_world w r).
(** A call whose outcome is an error or a value, but never a crash. *)
Definition lift {A} (c : res A) : M (error + A) := fun r =>
  match c with Ok a => Ok (inr a, r) | Err e => Ok (inl e, r) | Panic m => Panic m end.
Definition fail_fuel {A} : M A := fun _ => Err out_of_fuel.

(** [r.readChan <- x] *)
Definition send (x : readResult) : M unit := fun r => Ok (tt,
  mkReader (world r) (has r) (sequence r) (tempStore r) (readChan r ++ [x]) (closed r) (done r) (totalSize r)).
Definition close_readChan : M unit := fun r => Ok (tt,
  mkReader (world r) (has r) (sequence r) (tempStore r) (readChan r) true (done r) (totalSize r)).
Definition add_size (size : Z) : M unit := fun r => Ok (tt,
  mkReader (world r) (has r) (sequence r) (tempStore r) (readChan r) (closed r) (done r) (to_int64 (totalSize r + size))).

(** [Close]: the channel is closed once. *)
Definition Reader_Close : M unit := fun r => Ok (tt,
  mkReader (world r) (has r) (sequence r) (tempStore r) (readChan r) (closed r) true (totalSize r)).

(** [select { case <-r.done: ... default: }] *)
Definition poll_done : M bool := fun r =>
  let '(c, w) := close_called (world r) in Ok (c || done r, set_world w r).

(** Sending an error and returning. *)
Definition failure {A} (msg : error) (a : A) : M A := send (Failure msg);; mret a.

(** ** Streaming *)

Definition newXDRStream (hash : list Z) : M (error + XdrStream) :=
  rdr ← ask (GetXdrStreamForHash hash);
  match rdr with
  | Ok s => mret (inr (SetExpectedHash (NewXdrStream s) hash))
  | Err e | Panic e => mret (inl e)
  end.

(** A new stream in place of the old one, at the same position; or the error that
    opening it or going to the position gave.  The error of closing the old
    stream is dropped. *)
Definition reopen (currentPosition : nat) (stream : XdrStream) (hash : list Z) : M (option error * XdrStream) :=
  let _ := Close sha256 stream in
  retryStream ← newXDRStream hash;
  match retryStream with
  | inl e => mret (Some (wrap_error "Error creating new xdr stream" e), stream)
  | inr stream =>
      let '(d, stream) := Discard stream currentPosition in
      match d with
      | Ok _ => mret (None, stream)
      | Err e | Panic e => mret (Some (wrap_error "Error discarding from xdr stream" e), stream)
      end
  end.

(** The loop of [readBucketEntry]: [retries] are left, [err] is the error of the
    last attempt. *)
Fixpoint read_attempts (retries : nat) (currentPosition : nat) (err : option error)
    (stream : XdrStream) (hash : list Z) : M (res BucketEntry * XdrStream) :=
  cancelled ← ask ctx_done;
  if (cancelled : bool) then mret (Err "context canceled", stream) else
  let retry (e : error) (stream : XdrStream) :=
    match retries with
    | O => mret (Err e, stream)
    | S retries =>
        '(err, stream) ← reopen currentPosition stream hash;
        read_attempts retries currentPosition err stream hash
    end in
  match err with
  | Some e => retry e stream
  | None =>
      let '(result, stream) := ReadOne decode_entry stream in
      match result with
      | Err e => if bool_decide (e = EOF) then mret (Err EOF, stream) else retry e stream
      | _ => mret (result, stream)
      end
  end.

Definition readBucketEntry (stream : XdrStream) (hash : list Z) : M (res BucketEntry * XdrStream) :=
  read_attempts maxStreamRetries (BytesRead stream) None stream hash.

(** The ledger key of an entry, for those that have one. *)
Definition entry_key (entry : BucketEntry) : res (option LedgerKey) :=
  match entry with
  | LiveEntry e | InitEntry e => k ← Entry_LedgerKey e; Ok (Some k)
  | DeadEntry k => Ok (Some k)
  | MetaEntry _ | UnknownBucketEntry _ => Ok None
  end.

(** Reading the entries of a batch, [count] at most.  Returning from the loop
    means returning from [streamBucketContents]. *)
Fixpoint preload (count : nat) (rdr : XdrStream) (hash : list Z) (n : Z) (batch : list BucketEntry)
    (preloadKeys : list (list Z)) : M (flow (list BucketEntry * list (list Z) * bool) * XdrStream) :=
  match count with
  | O => mret (Continue (batch, preloadKeys, false), rdr)
  | S count =>
      '(entry, rdr) ← readBucketEntry rdr hash;
      match entry with
      | Err e =>
          if bool_decide (e = EOF) then
            match batch with
            | [] => mret (Return true, rdr)
            | _ => mret (Continue (batch, preloadKeys, true), rdr)
            end
          else failure (wrap_error "Error on XDR record" e) (Return false, rdr)
      | Panic m => fun _ => Panic m
      | Ok entry =>
          let batch := batch ++ [entry] in
          match entry_key entry with
          | Ok (Some key) => preload count rdr hash n batch (preloadKeys ++ [ledgerKeyCompressEncodeTo key])
          | Ok None => preload count rdr hash n batch preloadKeys
          | Err e => failure (wrap_error "Error generating ledger key for XDR record" e) (Return false, rdr)
          | Panic m => fun _ => Panic m
          end
      end
  end.

(** A new entry into the set of seen keys. *)
Definition add_key (h : list Z) (msg : string) (next : M (flow Z)) : M (flow Z) :=
  t ← get_tempStore;
  added ← lift (memoryTempSet_Add t h);
  match added with
  | inl e => failure (wrap_error msg e) (Return false)
  | inr t => set_tempStore t;; next
  end.

(** [select] at the end of a turn. *)
Definition check_done (bucketProtocolVersion : Z) : M (flow Z) :=
  c ← poll_done;
  mret (if (c : bool) then Return false else Continue bucketProtocolVersion).

(** One turn of the loop on an entry of the batch: the protocol version of the
    bucket after it. *)
Definition process_entry (oldestBucket : bool) (bucketProtocolVersion n : Z) (entry : BucketEntry) : M (flow Z) :=
  match entry with
  | MetaEntry version =>
      if negb (n =? 0) then failure "METAENTRY not the first entry in the bucket" (Return false)
      else mret (Continue (to_uint32 version))
  | UnknownBucketEntry _ => failure "Unknown BucketEntryType" (Return false)
  | LiveEntry liveEntry | InitEntry liveEntry =>
      key ← lift (Entry_LedgerKey liveEntry);
      match key with
      | inl e => failure (wrap_error "Error generating ledger key for XDR record" e) (Return false)
      | inr key =>
          let h := ledgerKeyCompressEncodeTo key in
          let isInit := match entry with InitEntry _ => true | _ => false end in
          if isInit && (bucketProtocolVersion <? 11)
          then failure "Read INITENTRY from version <11 bucket" (Return false) else
          t ← get_tempStore;
          seen ← lift (memoryTempSet_Exist t h);
          match seen with
          | inl e => failure (wrap_error "Error reading from tempStore" e) (Return false)
          | inr true => check_done bucketProtocolVersion
          | inr false =>
              send (Entry liveEntry);;
              if isInit then check_done bucketProtocolVersion
              else if oldestBucket then mret (Continue bucketProtocolVersion)
              else add_key h "Error updating to tempStore" (check_done bucketProtocolVersion)
          end
      end
  | DeadEntry key =>
      add_key (ledgerKeyCompressEncodeTo key) "Error writing to tempStore" (check_done bucketProtocolVersion)
  end.

(** The loop over the entries of a bucket.  [fuel] bounds its turns. *)
Fixpoint bucket_loop (fuel : nat) (hash : list Z) (oldestBucket : bool) (rdr : XdrStream)
    (bucketProtocolVersion n : Z) (batch : list BucketEntry) (lastBatch : bool) : M (bool * XdrStream) :=
  match fuel with
  | O => fail_fuel
  | S fuel =>
      let turn (batch : list BucketEntry) (lastBatch : bool) (rdr : XdrStream) :=
        match batch with
        | [] => fun _ => Panic "index out of range"
        | entry :: batch =>
            next ← process_entry oldestBucket bucketProtocolVersion (n + 1) entry;
            match next with
            | Return b => mret (b, rdr)
            | Continue version => bucket_loop fuel hash oldestBucket rdr version (n + 1) batch lastBatch
            end
        end in
      match batch with
      | [] =>
          if lastBatch then mret (true, rdr) else
          '(filled, rdr) ← preload preloadedEntries rdr hash n [] [];
          match filled with
          | Return b => mret (b, rdr)
          | Continue (batch, preloadKeys, lastBatch) =>
              t ← get_tempStore;
              loaded ← lift (memoryTempSet_Preload t preloadKeys);
              match loaded with
              | inl e => failure (wrap_error "Error preloading keys" e) (false, rdr)
              | inr t => set_tempStore t;; turn batch lastBatch rdr
              end
          end
      | _ => turn batch lastBatch rdr
      end
  end.

Definition streamBucketContents (fuel : nat) (hash : list Z) (oldestBucket : bool) : M bool :=
  rdr ← newXDRStream hash;
  match rdr with
  | inl e => failure (wrap_error "cannot get xdr stream for hash" e) false
  | inr rdr =>
      '(shouldContinue, rdr) ← bucket_loop fuel hash oldestBucket rdr 0 (-1) [] false;
      (* deferred *)
      closed ← lift (Close sha256 rdr);
      match closed with
      | inl e => send (Failure (wrap_error "Error closing xdr stream" e));; Reader_Close;; mret shouldContinue
      | inr _ => mret shouldContinue
      end
  end.

(** The hashes of the buckets, newest first, without those that are zero. *)
Fixpoint bucket_hashes (l : list string) : res (list (list Z)) :=
  match l with
  | [] => Ok []
  | hashString :: l =>
      hash ← Wrap (DecodeHash hashString) "Error decoding bucket hash";
      rest ← bucket_hashes l;
      Ok (if IsZero hash then rest else hash :: rest)
  end.

Definition HAS_hash_strings (h : HistoryArchiveState) : list string :=
  concat (map (fun b => [Curr b; Snap b]) (CurrentBuckets h)).

(** The loop that checks that the buckets exist and sums up their sizes: whether
    to go on. *)
Fixpoint check_buckets (buckets : list (list Z)) : M bool :=
  match buckets with
  | [] => mret true
  | hash :: buckets =>
      exists_ ← ask (BucketExists hash);
      match exists_ with
      | Err e | Panic e => failure (wrap_error "error checking if bucket exists" e) false
      | Ok false => failure "bucket hash does not exist" false
      | Ok true =>
          size ← ask (BucketSize hash);
          match size with
          | Err e | Panic e => failure (wrap_error "error checking bucket size" e) false
          | Ok size => add_size size;; check_buckets buckets
          end
      end
  end.

(** The loop over the buckets; [oldestBucket] is the last one. *)
Fixpoint stream_all (fuel : nat) (buckets : list (list Z)) : M unit :=
  match buckets with
  | [] => mret tt
  | hash :: rest =>
      shouldContinue ← streamBucketContents fuel hash (bool_decide (rest = []));
      if (shouldContinue : bool) then stream_all fuel rest else mret tt
  end.

(** [streamBuckets] without its deferred function. *)
Definition stream_body (fuel : nat) : M unit := fun r =>
  match bucket_hashes (HAS_hash_strings (has r)) with
  | Err e | Panic e => failure e tt r
  | Ok buckets =>
      (ok ← check_buckets buckets;
       if (ok : bool) then stream_all fuel buckets else mret tt) r
  end.

Definition streamBuckets (fuel : nat) : M unit :=
  stream_body fuel;;
  (* deferred *)
  t ← get_tempStore;
  t' ← lift (memoryTempSet_Close t);
  match t' with
  | inl _ => send (Failure "Error closing tempStore")
  | inr t => set_tempStore t
  end;;
  Reader_Close;; close_readChan.

Definition NewCheckpointChangeReader (w : W) (sequence : Z) : res Reader * W :=
  let manager := GetCheckpointManager w in
  match Checkpoints.IsCheckpoint manager sequence with
  | Ok true =>
      let '(has, w) := GetCheckpointHAS sequence w in
      match has with
      | Ok has =>
          match memoryTempSet_Open None with
          | Ok t => (Ok (mkReader w has sequence t [] false false 0), w)
          | Err e => (Err (wrap_error "unable to get open temp store" e), w)
          | Panic m => (Panic m, w)
          end
      | Err e => (Err (wrap_error "unable to get checkpoint HAS at ledger sequence" e), w)
      | Panic m => (Panic m, w)
      end
  | Ok false => (Err "is not a checkpoint ledger", w)
  | Err e => (Err e, w)
  | Panic m => (Panic m, w)
  end.

(** [Read] takes the next result of the goroutine, or [io.EOF] when there is none
    and the channel is closed; an open channel without results blocks. *)
Definition Read (r : Reader) : res (Compactor.Change ScVal Body) * Reader :=
  match readChan r with
  | [] => (if closed r then Err EOF else Panic "all goroutines are asleep - deadlock!", r)
  | result :: rest =>
      let r := mkReader (world r) (has r) (sequence r) (tempStore r) rest (closed r) (done r) (totalSize r) in
      match result with
      | Failure e => (Err (wrap_error "Error while reading from buckets" e), r)
      | Entry state =>
          (match Entry_LedgerKey state with
           | Ok k => Ok (Compactor.mkChange (KeyType k) None (Some state))
           | Err e => Err (wrap_error "Error getting entry type" e)
           | Panic m => Panic m
           end, r)
      end
  end.

(** Reading until the first error, as consumers do. *)
Fixpoint read_all (fuel : nat) (r : Reader) : list (Compactor.Change ScVal Body) * error :=
  match fuel with
  | O => ([], out_of_fuel)
  | S fuel =>
      match Read r with
      | (Ok c, r) => let '(l, e) := read_all fuel r in (c :: l, e)
      | (Err e, _) | (Panic e, _) => ([], e)
      end
  end.

End Reader.
Arguments BucketEntry ScVal Body : clear implicits.
Arguments EntryDecoders ScVal Body : clear implicits.
Arguments readResult ScVal Body : clear implicits.
Arguments Reader ScVal Body W : clear implicits.

End CheckpointReader.
