(* ===== verification/CheckpointSpec.v ===== *)
(** * The state that a list of buckets stands for

    The definition is the one the comment of [streamBuckets] starts from: go
    through the buckets from the oldest to the newest, and let every entry replace
    or delete what was known of its key.  The algorithm of the code goes the other
    way with a set of seen keys; [newest_first] shows that the two agree on bucket
    lists that follow CAP-20.  Keys are compared by their compressed encoding. *)
From S2P Require Import Prelude Xdr LedgerKeys XdrCodec XdrStreams CheckpointReader.
Import LedgerKeys CheckpointReader.
Local Open Scope Z_scope.

Module CheckpointSpec.

Section Spec.
Context {XE : XdrEncoder} {ScVal : Type} {Body : LedgerEntryType -> Type} {SO : ScValOps ScVal}.
Abbreviation LedgerEntry := (LedgerEntry ScVal Body).
Abbreviation BucketEntry := (BucketEntry ScVal Body).

Definition key_of (e : LedgerEntry) : list Z :=
  match Entry_LedgerKey e with Ok k => ledgerKeyCompressEncodeTo k | _ => [] end.

Definition bucket_key (b : BucketEntry) : option (list Z) :=
  match b with
  | LiveEntry e | InitEntry e => Some (key_of e)
  | DeadEntry k => Some (ledgerKeyCompressEncodeTo k)
  | MetaEntry _ | UnknownBucketEntry _ => None
  end.

Abbreviation state := (gmap (list Z) LedgerEntry).

Definition apply_entry (m : state) (b : BucketEntry) : state :=
  match b with
  | LiveEntry e | InitEntry e => <[key_of e := e]> m
  | DeadEntry k => delete (ledgerKeyCompressEncodeTo k) m
  | MetaEntry _ | UnknownBucketEntry _ => m
  end.

(** The buckets are listed from the newest to the oldest. *)
Fixpoint state_of (buckets : list (list BucketEntry)) : state :=
  match buckets with
  | [] => ∅
  | b :: older => fold_left apply_entry b (state_of older)
  end.

(** The most recent entry with a key. *)
Definition lookup_bucket (k : list Z) (b : list BucketEntry) : option BucketEntry :=
  List.find (fun e => bool_decide (bucket_key e = Some k)) b.

Fixpoint latest (k : list Z) (buckets : list (list BucketEntry)) : option BucketEntry :=
  match buckets with
  | [] => None
  | b :: older => match lookup_bucket k b with Some e => Some e | None => latest k older end
  end.

(** Keys are unique within a bucket, and an INITENTRY implies that there is no
    entry with its key in an older bucket or that the preceding one is a
    DEADENTRY (CAP-20). *)
Definition unique_keys (b : list BucketEntry) : Prop := NoDup (omap bucket_key b).

Fixpoint cap20 (buckets : list (list BucketEntry)) : Prop :=
  match buckets with
  | [] => True
  | b :: older =>
      unique_keys b /\
      (forall e, InitEntry e ∈ b ->
        match latest (key_of e) older with None | Some (DeadEntry _) => True | _ => False end) /\
      cap20 older
  end.

(** ** The state by the most recent entry *)

Definition value_of (b : option BucketEntry) : option LedgerEntry :=
  match b with Some (LiveEntry e) | Some (InitEntry e) => Some e | _ => None end.

Lemma lookup_bucket_Some k b e : lookup_bucket k b = Some e -> e ∈ b /\ bucket_key e = Some k.
Proof.
  unfold lookup_bucket. intros H. apply find_some in H as [Hin Hk]. apply bool_decide_eq_true in Hk.
  split; [by apply list_elem_of_In|done].
Qed.

Lemma lookup_bucket_None k b : lookup_bucket k b = None -> k ∉ omap bucket_key b.
Proof.
  unfold lookup_bucket. intros H Hin. apply list_elem_of_omap in Hin as (e & Hin & Hk).
  apply list_elem_of_In in Hin. apply (find_none _ _ H) in Hin. by rewrite Hk, bool_decide_eq_false in Hin.
Qed.

Lemma apply_entry_lookup m e k : apply_entry m e !! k =
  if bool_decide (bucket_key e = Some k) then value_of (Some e) else m !! k.
Proof.
  destruct e as [e|e|d|v|t]; cbn [apply_entry bucket_key value_of];
    try (by rewrite bool_decide_false).
  - destruct (decide (key_of e = k)) as [<-|Hn]; [by rewrite lookup_insert_eq, bool_decide_true|].
    rewrite lookup_insert_ne, bool_decide_false; congruence.
  - destruct (decide (key_of e = k)) as [<-|Hn]; [by rewrite lookup_insert_eq, bool_decide_true|].
    rewrite lookup_insert_ne, bool_decide_false; congruence.
  - destruct (decide (ledgerKeyCompressEncodeTo d = k)) as [<-|Hn]; [by rewrite lookup_delete_eq, bool_decide_true|].
    rewrite lookup_delete_ne, bool_decide_false; congruence.
Qed.

Lemma apply_other b : forall m k, k ∉ omap bucket_key b -> fold_left apply_entry b m !! k = m !! k.
Proof.
  induction b as [|e b IH]; intros m k Hk; [done|]. cbn [fold_left]. rewrite IH.
  - rewrite apply_entry_lookup. rewrite bool_decide_false; [done|]. intros He. apply Hk. cbn. rewrite He. by left.
  - intros Hin. apply Hk. cbn. destruct (bucket_key e); [by right|done].
Qed.

Lemma unique_keys_tail e b : unique_keys (e :: b) -> unique_keys b.
Proof. unfold unique_keys. cbn. destruct (bucket_key e); [|done]. by intros [_ ?]%NoDup_cons. Qed.

Lemma apply_bucket_lookup b m k : unique_keys b ->
  fold_left apply_entry b m !! k = match lookup_bucket k b with Some e => value_of (Some e) | None => m !! k end.
Proof.
  revert m. unfold unique_keys. induction b as [|e b IH]; intros m Hn; [done|]. cbn [fold_left lookup_bucket List.find].
  unfold lookup_bucket. cbn [List.find]. cbn in Hn. destruct (bool_decide (bucket_key e = Some k)) eqn:Hk.
  - apply bool_decide_eq_true in Hk. rewrite Hk in Hn. apply NoDup_cons in Hn as [Hn _].
    rewrite apply_other by done. by rewrite apply_entry_lookup, bool_decide_true.
  - rewrite IH by by apply (unique_keys_tail e). unfold lookup_bucket.
    destruct (List.find _ b); [done|]. by rewrite apply_entry_lookup, Hk.
Qed.

Lemma state_of_latest buckets k : cap20 buckets -> state_of buckets !! k = value_of (latest k buckets).
Proof.
  induction buckets as [|b older IH]; cbn [cap20 state_of latest]; [done|]. intros (Hu & _ & Hc).
  rewrite apply_bucket_lookup by done. destruct (lookup_bucket k b); [done|by apply IH].
Qed.

(** ** From the newest to the oldest *)

(** What the loop of [streamBucketContents] does with an entry: the protocol
    version, the seen keys and the entries sent after it; [None] is an error. *)
Definition entry_step (oldest : bool) (version n : Z) (seen : gset (list Z)) (b : BucketEntry) :
    option (Z * gset (list Z) * list LedgerEntry) :=
  let live (init : bool) (e : LedgerEntry) :=
    match Entry_LedgerKey e with
    | Ok k =>
        let h := ledgerKeyCompressEncodeTo k in
        if init && (version <? 11) then None
        else if bool_decide (h ∈ seen) then Some (version, seen, [])
        else Some (version, if init || oldest then seen else {[h]} ∪ seen, [e])
    | _ => None
    end in
  match b with
  | LiveEntry e => live false e
  | InitEntry e => live true e
  | DeadEntry k => Some (version, {[ledgerKeyCompressEncodeTo k]} ∪ seen, [])
  | MetaEntry v => if n =? 0 then Some (to_uint32 v, seen, []) else None
  | UnknownBucketEntry _ => None
  end.

Fixpoint bucket_run (oldest : bool) (version n : Z) (seen : gset (list Z)) (b : list BucketEntry) :
    option (Z * gset (list Z) * list LedgerEntry) :=
  match b with
  | [] => Some (version, seen, [])
  | e :: b =>
      '(version, seen, out) ← entry_step oldest version n seen e;
      '(version, seen, out') ← bucket_run oldest version (n + 1) seen b;
      Some (version, seen, out ++ out')
  end.

Fixpoint buckets_run (seen : gset (list Z)) (buckets : list (list BucketEntry)) : option (list LedgerEntry) :=
  match buckets with
  | [] => Some []
  | b :: older =>
      '(_, seen, out) ← bucket_run (bool_decide (older = [])) 0 0 seen b;
      out' ← buckets_run seen older;
      Some (out ++ out')
  end.

(** The rules for the entries of one bucket: a METAENTRY comes first, an INITENTRY
    needs version 11, and entries have a known type. *)
Definition entry_ok (version : Z) (b : BucketEntry) : bool :=
  match b with
  | LiveEntry e => is_ok (Entry_LedgerKey e)
  | InitEntry e => is_ok (Entry_LedgerKey e) && (11 <=? version)
  | DeadEntry _ => true
  | MetaEntry _ | UnknownBucketEntry _ => false
  end.

Definition bucket_rules (b : list BucketEntry) : bool :=
  match b with
  | MetaEntry v :: b => forallb (entry_ok (to_uint32 v)) b
  | b => forallb (entry_ok 0) b
  end.

Lemma entry_step_ok oldest version n seen b : 1 <= n \/ (forall v, b <> MetaEntry v) ->
  if entry_ok version b then exists s o, entry_step oldest version n seen b = Some (version, s, o)
  else entry_step oldest version n seen b = None.
Proof.
  intros Hn. destruct b as [e|e|k|v|t]; cbn; try (by eauto).
  - destruct (Entry_LedgerKey e); cbn; [|done..]. destruct (bool_decide _); eauto.
  - destruct (Entry_LedgerKey e); cbn; [|done..]. rewrite Z.leb_antisym. destruct (version <? 11); cbn; [done|].
    destruct (bool_decide _); eauto.
  - destruct Hn as [Hn|Hn]; [|by destruct (Hn v)]. by rewrite (proj2 (Z.eqb_neq n 0)) by lia.
Qed.

Lemma is_Some_run (x : option (Z * gset (list Z) * list LedgerEntry)) o :
  is_Some ('(v, s, o') ← x; Some (v, s, o ++ o')) <-> is_Some x.
Proof. destruct x as [[[v s] o']|]; cbn; [|done]. split; intros _; by eexists. Qed.

Lemma bucket_run_ok oldest b : forall version n seen, 1 <= n ->
  is_Some (bucket_run oldest version n seen b) <-> forallb (entry_ok version) b = true.
Proof.
  induction b as [|e b IH]; intros version n seen Hn; cbn [bucket_run forallb]; [split; [done|by eexists]|].
  pose proof (entry_step_ok oldest version n seen e (or_introl Hn)) as He. destruct (entry_ok version e); cbn [andb].
  - destruct He as (s & o & ->). cbn [mbind option_bind]. rewrite is_Some_run. apply IH. lia.
  - rewrite He. cbn. split; [by intros [? ?]|done].
Qed.

Lemma bucket_run_rules oldest seen b : is_Some (bucket_run oldest 0 0 seen b) <-> bucket_rules b = true.
Proof.
  destruct b as [|e b]; [split; [done|by eexists]|].
  assert (Hgen : (forall v, e <> MetaEntry v) ->
    is_Some (bucket_run oldest 0 0 seen (e :: b)) <-> forallb (entry_ok 0) (e :: b) = true).
  { intros Hm. cbn [bucket_run forallb]. pose proof (entry_step_ok oldest 0 0 seen e (or_intror Hm)) as He.
    destruct (entry_ok 0 e); cbn [andb].
    - destruct He as (s & o & ->). cbn [mbind option_bind]. rewrite is_Some_run. by apply bucket_run_ok.
    - rewrite He. cbn. split; [by intros [? ?]|done]. }
  destruct e as [e|e|k|v|t]; try (by apply Hgen). cbn [bucket_rules bucket_run entry_step]. rewrite Z.eqb_refl.
  cbn [mbind option_bind]. rewrite is_Some_run. by apply bucket_run_ok.
Qed.

Lemma buckets_run_rules bs : forall seen, is_Some (buckets_run seen bs) <-> Forall (fun b => bucket_rules b = true) bs.
Proof.
  induction bs as [|b bs IH]; intros seen; cbn [buckets_run]; [split; [constructor|by eexists]|].
  rewrite Forall_cons, <- (bucket_run_rules (bool_decide (bs = [])) seen b).
  destruct (bucket_run _ 0 0 seen b) as [[[v s] o]|]; cbn.
  - rewrite <- (IH s). destruct (buckets_run s bs); cbn; [split; intros _; [split|]; by eexists|]. split; [by intros [? ?]|by intros [_ [? ?]]].
  - split; [by intros [? ?]|by intros [[? ?] _]].
Qed.

Lemma bucket_run_app oldest b1 : forall version n seen b2,
  bucket_run oldest version n seen (b1 ++ b2) =
    '(version, seen, out) ← bucket_run oldest version n seen b1;
    '(version, seen, out') ← bucket_run oldest version (n + Z.of_nat (length b1)) seen b2;
    Some (version, seen, out ++ out').
Proof.
  induction b1 as [|e b1 IH]; intros version n seen b2; cbn [app bucket_run length].
  - cbn. rewrite Z.add_0_r. by destruct (bucket_run _ _ _ _ b2) as [[[v s] o]|].
  - destruct (entry_step oldest version n seen e) as [[[v s] o]|]; [|done]. cbn. rewrite IH.
    destruct (bucket_run oldest v (n + 1) s b1) as [[[v1 s1] o1]|]; [|done]. cbn.
    replace (n + 1 + Z.of_nat (length b1)) with (n + Z.of_nat (S (length b1))) by lia.
    destruct (bucket_run _ _ _ _ b2) as [[[v2 s2] o2]|]; [|done]. cbn. by rewrite app_assoc.
Qed.

(** The entries sent, as a function of the keys seen before the bucket, when keys
    are unique: those alive whose key was not seen. *)
Definition sent (seen : gset (list Z)) (b : BucketEntry) : option LedgerEntry :=
  match b with
  | LiveEntry e | InitEntry e => if bool_decide (key_of e ∈ seen) then None else Some e
  | _ => None
  end.

(** The keys that are marked by the bucket. *)
Definition marks (oldest : bool) (b : BucketEntry) : option (list Z) :=
  match b with
  | LiveEntry e => if oldest then None else Some (key_of e)
  | DeadEntry k => Some (ledgerKeyCompressEncodeTo k)
  | _ => None
  end.

Lemma entry_step_spec oldest version n seen b v s o : entry_step oldest version n seen b = Some (v, s, o) ->
  o = option_list (sent seen b) /\
  (forall k, k ∈ s <-> k ∈ seen \/ marks oldest b = Some k).
Proof.
  unfold entry_step, sent, marks, key_of. destruct b as [e|e|d|m|t]; try done.
  - destruct (Entry_LedgerKey e) as [k| |]; [|done..]. cbn [andb orb]. set (h := ledgerKeyCompressEncodeTo k).
    destruct (bool_decide (h ∈ seen)) eqn:Hh; intros [= <- <- <-]; (split; [done|]).
    + apply bool_decide_eq_true in Hh. destruct oldest; [naive_solver|]. intros k'. split; [by left|].
      intros [?|[= <-]]; done.
    + destruct oldest; [naive_solver|]. intros k'. rewrite elem_of_union, elem_of_singleton. naive_solver.
  - destruct (Entry_LedgerKey e) as [k| |]; [|done..]. cbn [andb orb].
    destruct (version <? 11); [done|].
    destruct (bool_decide _) eqn:Hh; intros [= <- <- <-]; split; naive_solver.
  - intros [= <- <- <-]. split; [done|]. intros k. rewrite elem_of_union, elem_of_singleton. naive_solver.
  - destruct (n =? 0); [|done]. intros [= <- <- <-]. split; naive_solver.
Qed.

(** A mark of another key does not change what is sent. *)
Lemma sent_ext seen seen' b : (forall k, bucket_key b = Some k -> k ∈ seen <-> k ∈ seen') -> sent seen b = sent seen' b.
Proof. destruct b as [e|e|d|m|t]; cbn; intros H; try done; by rewrite (bool_decide_ext _ _ (H _ eq_refl)). Qed.

Lemma marks_key oldest b k : marks oldest b = Some k -> bucket_key b = Some k.
Proof. destruct b as [e|e|d|m|t]; cbn; try done. by destruct oldest. Qed.

Lemma bucket_run_spec oldest b : unique_keys b -> forall version n seen v s o,
  bucket_run oldest version n seen b = Some (v, s, o) ->
  o = omap (sent seen) b /\ (forall k, k ∈ s <-> k ∈ seen \/ k ∈ omap (marks oldest) b).
Proof.
  unfold unique_keys. induction b as [|e b IH]; intros Hu version n seen v s o; cbn [bucket_run].
  { intros [= <- <- <-]. split; [done|]. set_solver. }
  intros H. apply bind_Some in H as ([[v1 s1] o1] & H1 & H). apply bind_Some in H as ([[v2 s2] o2] & H2 & [= <- <- <-]).
  apply entry_step_spec in H1 as [-> Hs1].
  assert (Hub : NoDup (omap bucket_key b)) by by apply (unique_keys_tail e).
  apply IH in H2 as [-> Hs2]; [|done]. split.
  - cbn. assert (omap (sent s1) b = omap (sent seen) b) as ->.
    { clear -Hu Hs1. assert (Hk : forall x, x ∈ b -> sent s1 x = sent seen x).
      { intros x Hx. apply sent_ext. intros k Hk. rewrite Hs1. split; [|by left]. intros [?|Hm]; [done|].
        apply marks_key in Hm. cbn in Hu. rewrite Hm in Hu. apply NoDup_cons in Hu as [Hu _]. destruct Hu.
        apply list_elem_of_omap. by exists x. }
      clear -Hk. induction b as [|x b IH]; [done|]. cbn. rewrite (Hk x) by left. rewrite IH; [done|].
      intros y Hy. apply Hk. by right. }
    by destruct (sent seen e).
  - intros k. rewrite Hs2, Hs1. cbn. destruct (marks oldest e); set_solver.
Qed.

Lemma lookup_bucket_unique b x k : unique_keys b -> x ∈ b -> bucket_key x = Some k -> lookup_bucket k b = Some x.
Proof.
  intros Hu Hx Hk. destruct (lookup_bucket k b) as [y|] eqn:Hy.
  - apply lookup_bucket_Some in Hy as [Hy Hyk]. f_equal. revert Hu Hx Hy. unfold unique_keys. clear -Hk Hyk.
    induction b as [|z b IH]; [by intros _ ?%elem_of_nil|]. intros Hu Hx Hy.
    pose proof (unique_keys_tail z b Hu) as Hu'. cbn in Hu.
    assert (Hhead : forall w, w ∈ b -> bucket_key w = Some k -> bucket_key z <> Some k).
    { intros w Hw Hwk Hz. rewrite Hz in Hu. apply NoDup_cons in Hu as [Hu _]. apply Hu, list_elem_of_omap. by exists w. }
    apply elem_of_cons in Hx as [->|Hx], Hy as [->|Hy]; [done| | |by apply IH].
    + by destruct (Hhead y).
    + by destruct (Hhead x).
  - apply lookup_bucket_None in Hy. destruct Hy. apply list_elem_of_omap. by exists x.
Qed.

(** What a bucket sends. *)
Lemma elem_of_sent seen b e : unique_keys b ->
  e ∈ omap (sent seen) b <-> (key_of e ∉ seen) /\ value_of (lookup_bucket (key_of e) b) = Some e.
Proof.
  intros Hu. rewrite list_elem_of_omap. split.
  - intros (x & Hx & Hs). unfold sent in Hs. destruct x as [y|y|d|m|t]; try done;
      destruct (bool_decide _) eqn:Hd; try done; injection Hs as ->; apply bool_decide_eq_false in Hd.
    + by rewrite (lookup_bucket_unique b (LiveEntry e) (key_of e)).
    + by rewrite (lookup_bucket_unique b (InitEntry e) (key_of e)).
  - intros [Hn Hv]. destruct (lookup_bucket (key_of e) b) as [x|] eqn:Hx; [|done].
    apply lookup_bucket_Some in Hx as [Hx _]. exists x. split; [done|].
    destruct x as [y|y|d|m|t]; try done; injection Hv as ->; cbn; by rewrite bool_decide_false.
Qed.

(** Only keys of the bucket are marked, each by its one entry. *)
Lemma elem_of_marks oldest b k : unique_keys b ->
  k ∈ omap (marks oldest) b <-> (lookup_bucket k b ≫= marks oldest) = Some k.
Proof.
  intros Hu. rewrite list_elem_of_omap. split.
  - intros (x & Hx & Hm). by rewrite (lookup_bucket_unique b x k Hu Hx (marks_key _ _ _ Hm)).
  - intros H. apply bind_Some in H as (x & Hx & Hm). apply lookup_bucket_Some in Hx as [Hx _]. by exists x.
Qed.

Lemma NoDup_sent seen b : unique_keys b -> NoDup (key_of <$> omap (sent seen) b).
Proof.
  unfold unique_keys. induction b as [|x b IH]; intros Hu; [constructor|]. pose proof (unique_keys_tail x b Hu) as Hu'.
  assert (Hs : forall e, sent seen x = Some e -> bucket_key x = Some (key_of e)).
  { destruct x as [y|y|d|m|t]; cbn; try done; intros e; destruct (bool_decide _); try done; by intros [= ->]. }
  cbn. destruct (sent seen x) as [e|] eqn:He; [|by apply IH]. cbn. apply NoDup_cons. split; [|by apply IH].
  specialize (Hs e eq_refl). cbn in Hu. rewrite Hs in Hu. apply NoDup_cons in Hu as [Hu _].
  intros Hin. apply list_elem_of_fmap in Hin as (e' & Hk & Hin). apply Hu.
  apply elem_of_sent in Hin as [_ Hv]; [|done]. rewrite Hk.
  destruct (lookup_bucket (key_of e') b) as [y|] eqn:Hy; [|done]. apply lookup_bucket_Some in Hy as [Hy Hyk].
  apply list_elem_of_omap. by exists y.
Qed.

(** Going from the newest bucket to the oldest sends the entries of the state
    whose keys were not seen, each once. *)
Lemma newest_first buckets : cap20 buckets -> forall seen out, buckets_run seen buckets = Some out ->
  NoDup (key_of <$> out) /\
  (forall e, e ∈ out <-> (key_of e ∉ seen) /\ state_of buckets !! key_of e = Some e).
Proof.
  induction buckets as [|b older IH]; intros Hc seen out Hr.
  { injection Hr as <-. split; [constructor|]. intros e. rewrite elem_of_nil. cbn [state_of]. rewrite lookup_empty. naive_solver. }
  pose proof Hc as (Hu & Hinit & Hc'). cbn [buckets_run] in Hr.
  apply bind_Some in Hr as ([[v s] o1] & H1 & Hr). apply bind_Some in Hr as (o2 & H2 & [= <-]).
  apply bucket_run_spec in H1 as [-> Hs]; [|done]. destruct (IH Hc' _ _ H2) as [Hn2 Hm2].
  assert (Hlast : forall k, state_of (b :: older) !! k =
    match lookup_bucket k b with Some x => value_of (Some x) | None => state_of older !! k end)
    by (intros k; by apply apply_bucket_lookup).
  assert (Hold : forall e, e ∈ o2 -> (key_of e ∉ seen) /\ lookup_bucket (key_of e) b = None).
  { intros e He. apply Hm2 in He as [Hk Hst]. rewrite Hs in Hk. split; [naive_solver|].
    destruct (lookup_bucket (key_of e) b) as [x|] eqn:Hx; [exfalso|done].
    assert (Hmk : marks (bool_decide (older = [])) x <> Some (key_of e)).
    { intros Hmk. apply Hk. right. apply elem_of_marks; [done|]. by rewrite Hx. }
    apply lookup_bucket_Some in Hx as [Hx Hxk]. destruct x as [y|y|d|m|t]; cbn in Hxk, Hmk; try done.
    - destruct older; [cbn [state_of] in Hst; by rewrite lookup_empty in Hst|]. rewrite bool_decide_false in Hmk; done.
    - injection Hxk as Hxk. specialize (Hinit y Hx). rewrite Hxk in Hinit. rewrite state_of_latest in Hst by done.
      by destruct (latest (key_of e) older) as [[]|]. }
  split.
  - rewrite fmap_app. apply NoDup_app. split; [by apply NoDup_sent|]. split; [|done].
    intros k Hk1 Hk2. apply list_elem_of_fmap in Hk1 as (e1 & -> & He1), Hk2 as (e2 & Hk & He2).
    apply elem_of_sent in He1 as [_ Hv]; [|done]. apply Hold in He2 as [_ Hl]. by rewrite Hk, Hl in Hv.
  - intros e. rewrite elem_of_app, elem_of_sent, Hlast by done. split.
    + intros [[Hk Hv]|He].
      * split; [done|]. by destruct (lookup_bucket (key_of e) b).
      * pose proof (Hold e He) as [Hk ->]. split; [done|]. by apply Hm2.
    + intros [Hk Hv]. destruct (lookup_bucket (key_of e) b) as [x|] eqn:Hx; [by left|].
      right. apply Hm2. split; [|done]. rewrite Hs, elem_of_marks, Hx by done. naive_solver.
Qed.

(** Entries are stored under their keys. *)
Lemma state_of_key buckets k e : cap20 buckets -> state_of buckets !! k = Some e -> key_of e = k.
Proof.
  intros Hc. rewrite state_of_latest by done. clear Hc. induction buckets as [|b older IH]; cbn [latest]; [done|].
  destruct (lookup_bucket k b) as [x|] eqn:Hx; [|done]. apply lookup_bucket_Some in Hx as [_ Hk].
  destruct x as [y|y|d|m|t]; cbn in *; try done; intros [= ->]; by injection Hk.
Qed.

(** The entries, as the map from their keys. *)
Definition keyed_map (out : list LedgerEntry) : state := list_to_map ((fun e => (key_of e, e)) <$> out).

Lemma newest_first_state buckets out : cap20 buckets -> buckets_run ∅ buckets = Some out ->
  NoDup (key_of <$> out) /\ keyed_map out = state_of buckets.
Proof.
  intros Hc Hr. destruct (newest_first buckets Hc ∅ out Hr) as [Hn Hm]. split; [done|]. apply map_eq. intros k.
  assert (Hn' : NoDup ((fun e => (key_of e, e)) <$> out).*1) by by rewrite <- list_fmap_compose.
  apply option_eq. intros e. unfold keyed_map. rewrite <- elem_of_list_to_map, list_elem_of_fmap by done. split.
  - intros (e' & [= -> ->] & He). by apply Hm.
  - intros Hst. pose proof (state_of_key _ _ _ Hc Hst) as <-. exists e. split; [done|]. apply Hm. split; [set_solver|done].
Qed.

End Spec.
End CheckpointSpec.
