(* ===== verification/CheckpointProofs.v ===== *)
(** * The checkpoint reader streams the state of the checkpoint

    For an archive that may fail at any call, but gives no two different beginnings
    of one bucket, the goroutine ends, and if it reports no error then the buckets
    have the hashes of the archive state and what it sent is their state.  For an
    archive that does not fail there is no error. *)
From S2P Require Import Prelude Xdr LedgerKeys XdrCodec XdrStreams TrieXdr Checkpoints Compactor CheckpointReader CheckpointSpec.
Import LedgerKeys XdrCodec XdrStreams CheckpointReader CheckpointSpec.
Local Open Scope Z_scope.

Module CheckpointProofs.

(** ** Reading records *)

Lemma left_of_advance n x : left_of (advance n x) = drop n (left_of x).
Proof.
  unfold left_of at 1, advance. cbn [src BytesRead]. unfold left_of. rewrite drop_drop.
  destruct (Nat.le_ge_cases n (length (drop (BytesRead x) (content (src x))))) as [H|H].
  - by rewrite Nat.min_l by done.
  - rewrite Nat.min_r by done. rewrite length_drop in *. rewrite !drop_ge; [done|lia..].
Qed.

Lemma BytesRead_advance n x : BytesRead (advance n x) = (BytesRead x + Nat.min n (length (left_of x)))%nat.
Proof. done. Qed.

(** The stream of given bytes at a position. *)
Definition pure (data : list Z) (p : nat) : XdrStream := mkXdrStream (mkSource data None None) p false [].

Section Records.
Context {A : Type} (decode : reader A).

(** [ReadOne] on bytes: the record and the position after it, the end, or an error. *)
Inductive record := Record (a : A) (p : nat) | End | Broken (e : error).

Definition record_at (data : list Z) (p : nat) : record :=
  match ReadOne decode (pure data p) with
  | (Ok a, x) => Record a (BytesRead x)
  | (Err e, _) => if bool_decide (e = EOF) then End else Broken e
  | (Panic e, _) => Broken e
  end.

Lemma read_error_not_EOF s e : read_error s = Some e -> e <> EOF.
Proof. unfold read_error. destruct (fails s); [|done]. destruct (bool_decide _) eqn:H; [done|]. apply bool_decide_eq_false in H. by intros [= ->]. Qed.

(** The result does not depend on the expected hash. *)
Lemma ReadOne_fst s p v e : (ReadOne decode (mkXdrStream s p v e)).1 = (ReadOne decode (mkXdrStream s p false [])).1.
Proof.
  unfold ReadOne. rewrite !left_of_advance. unfold left_of. cbn [src content BytesRead advance].
  by repeat case_match.
Qed.

(** Whatever ends the source, a record that is read is in its bytes. *)
Lemma ReadOne_record x : (BytesRead x <= length (content (src x)))%nat ->
  match ReadOne decode x with
  | (Ok a, x') => record_at (content (src x)) (BytesRead x) = Record a (BytesRead x') /\
      x' = mkXdrStream (src x) (BytesRead x') (validateHash x) (expectedHash x) /\
      (BytesRead x < BytesRead x' <= length (content (src x)))%nat
  | (Err e, x') => (e = EOF -> record_at (content (src x)) (BytesRead x) = End) /\
      src x' = src x /\ validateHash x' = validateHash x /\ expectedHash x' = expectedHash x
  | (Panic _, _) => False
  end.
Proof.
  intros Hp. unfold record_at, ReadOne. cbn [left_of pure src content BytesRead]. rewrite !left_of_advance.
  change (left_of (pure (content (src x)) (BytesRead x))) with (left_of x). set (r := left_of x).
  assert (Hr : length r = (length (content (src x)) - BytesRead x)%nat) by apply length_drop.
  destruct (Nat.ltb_spec (length r) 4) as [H4|H4].
  { cbn [read_error fails src advance pure]. destruct (read_error (src x)) as [e|] eqn:He.
    - split; [|done]. intros Hw. by vm_compute in Hw.
    - destruct r; (split; [|done]); [done|intros Hw; by vm_compute in Hw]. }
  destruct (_ =? 0) eqn:Hz.
  { split; [done|]. by unfold advance. }
  set (n := Z.to_nat _). rewrite length_take, length_drop.
  destruct (Nat.eqb_spec (n `min` (length r - 4)) n) as [Hn|Hn]; cbn [negb]; cycle 1.
  { cbn [read_error fails src advance pure]. destruct (read_error (src x)) as [e|] eqn:He.
    - split; [|done]. intros ->. by apply read_error_not_EOF in He.
    - split; [|done]. intros Hw. by vm_compute in Hw. }
  destruct (DecodeBytes decode _) as [e|[a readi]].
  { split; [|done]. intros ->. done. }
  destruct (Nat.eqb_spec readi n) as [Hq|Hq]; cbn [negb]; [|by (split; [|done]); intros Hw; vm_compute in Hw].
  assert (n <> 0%nat).
  { apply Z.eqb_neq in Hz. assert (0 <= Z.land (be_value (take 4 r)) 2147483647) by (apply Z.land_nonneg; right; lia).
    unfold n. lia. }
  refine (conj _ (conj eq_refl _)); rewrite !BytesRead_advance, !left_of_advance, !length_drop;
    change (left_of (pure (content (src x)) (BytesRead x))) with r; cbn [BytesRead pure]; [done|unfold r in *; lia].
Qed.

Lemma record_at_Record data p a p' : (p <= length data)%nat -> record_at data p = Record a p' <->
  exists n, p' = (p + 4 + n)%nat /\ n <> 0%nat /\ (p' <= length data)%nat /\
    n = Z.to_nat (Z.land (be_value (take 4 (drop p data))) 0x7fffffff) /\
    DecodeBytes decode (take n (drop (p + 4) data)) = inr (a, n).
Proof.
  intros Hp. unfold record_at, ReadOne. rewrite !left_of_advance.
  change (left_of (pure data p)) with (drop p data). rewrite drop_drop, !length_drop.
  destruct (Nat.ltb_spec (length data - p) 4) as [H4|H4].
  { cbn [read_error fails src advance pure]. split; [|intros (n & ? & ? & ? & _); lia].
    by destruct (drop p data). }
  set (z := Z.land _ _). destruct (z =? 0) eqn:Hz.
  { split; [done|]. intros (n & _ & ? & _ & -> & _). zbool. lia. }
  set (n := Z.to_nat z). rewrite length_take, length_drop.
  destruct (Nat.eqb_spec (n `min` (length data - (p + 4))) n) as [Hn|Hn]; cbn [negb]; cycle 1.
  { cbn [read_error fails src advance pure]. split; [done|]. intros (m & ? & ? & ? & -> & _). lia. }
  assert (Hb : BytesRead (advance n (advance 4 (pure data p))) = (p + 4 + n)%nat).
  { rewrite !BytesRead_advance, left_of_advance. cbn [left_of pure src content BytesRead].
    change (left_of (pure data p)) with (drop p data). rewrite !length_drop. lia. }
  destruct (DecodeBytes decode _) as [e|[b readi]] eqn:Hd.
  - split; [destruct (bool_decide _); done|]. intros (m & -> & _ & _ & -> & Hd'). fold n in Hd'. congruence.
  - destruct (Nat.eqb_spec readi n) as [->|Hq]; cbn [negb]; rewrite ?Hb; split.
    + intros [= -> <-]. exists n. apply Z.eqb_neq in Hz. split_and!; [done| |lia|done|done].
      assert (0 <= z) by (apply Z.land_nonneg; right; lia). unfold n. lia.
    + intros (m & -> & _ & _ & -> & Hd'). fold n in Hd'. rewrite Hd in Hd'. by injection Hd' as ->.
    + done.
    + intros (m & -> & _ & _ & -> & Hd'). fold n in Hd'. rewrite Hd in Hd'. by injection Hd' as _ ->.
Qed.

Lemma take_agree {B} (d1 d2 : list B) p q : take q d1 = take q d2 -> (p <= q)%nat -> take p d1 = take p d2.
Proof. intros H Hq. apply (f_equal (take p)) in H. by rewrite !take_take, Nat.min_l in H by done. Qed.

Lemma take_drop_agree {B} (d1 d2 : list B) a b q : take q d1 = take q d2 -> (a + b <= q)%nat ->
  take b (drop a d1) = take b (drop a d2).
Proof.
  intros H Hq. rewrite !take_drop_commute. f_equal. by apply (take_agree _ _ _ q).
Qed.

(** A record depends on the bytes up to its end. *)
Lemma record_at_agree d1 d2 p a p' : record_at d1 p = Record a p' -> (p <= length d1)%nat ->
  take p' d1 = take p' d2 -> (p' <= length d2)%nat -> record_at d2 p = Record a p'.
Proof.
  intros H Hp1 Ht Hp'. apply record_at_Record in H as (n & -> & Hn & Hl & Hz & Hd); [|done].
  apply record_at_Record; [lia|]. exists n. split_and!; [done..| |].
  - by rewrite <- (take_drop_agree d1 d2 p 4 (p + 4 + n)) by (done || lia).
  - by rewrite <- (take_drop_agree d1 d2 (p + 4) n (p + 4 + n)) by (done || lia).
Qed.

(** ** The records of a file *)

Inductive reads (data : list Z) : nat -> list A -> nat -> Prop :=
| reads_nil p : reads data p [] p
| reads_cons p a p1 l p2 : record_at data p = Record a p1 -> reads data p1 l p2 -> reads data p (a :: l) p2.

Fixpoint records_from (fuel : nat) (data : list Z) (p : nat) : option (list A) :=
  match fuel with
  | O => None
  | S fuel =>
      match record_at data p with
      | Record a p => l ← records_from fuel data p; Some (a :: l)
      | End => Some []
      | Broken _ => None
      end
  end.

(** The records of the bytes of a file, when all are well-formed. *)
Definition records (data : list Z) : option (list A) := records_from (S (length data)) data 0.

Lemma record_at_progress data p a p' : record_at data p = Record a p' -> (p <= length data)%nat ->
  (p < p' <= length data)%nat.
Proof. intros H Hp. apply record_at_Record in H as (n & -> & Hn & Hl & _); [lia|done]. Qed.

Lemma reads_bound data p l p' : reads data p l p' -> (p <= length data)%nat -> (p + length l <= p' <= length data)%nat.
Proof.
  induction 1 as [|p a p1 l p2 H _ IH]; intros Hp; cbn; [lia|]. apply record_at_progress in H; [|done]. lia.
Qed.

Lemma reads_app data p l p' l' p'' : reads data p l p' -> reads data p' l' p'' -> reads data p (l ++ l') p''.
Proof. induction 1; cbn; [done|]. intros H'. econstructor; eauto. Qed.

Lemma reads_agree d1 d2 p l p' : reads d1 p l p' -> (p <= length d1)%nat -> take p' d1 = take p' d2 ->
  (p' <= length d2)%nat -> reads d2 p l p'.
Proof.
  induction 1 as [|p a p1 l p2 H Hr IH]; intros Hp Ht Hp'; [constructor|].
  pose proof (record_at_progress _ _ _ _ H Hp) as [? Hl]. pose proof (reads_bound _ _ _ _ Hr Hl).
  econstructor; [|by apply IH]. apply (record_at_agree d1); [done|done| |lia].
  apply (take_agree _ _ _ p2); [done|lia].
Qed.

Lemma reads_records data l p : reads data 0 l p -> record_at data p = End -> records data = Some l.
Proof.
  intros Hr He. unfold records. assert (Hp : (0 <= length data)%nat) by lia. revert Hp.
  assert (Hf : (length data < S (length data) + 0)%nat) by lia. revert Hf. generalize (S (length data)).
  induction Hr as [p|p a p1 l p2 H Hr IH]; intros fuel Hf Hp.
  - destruct fuel; [lia|]. cbn. by rewrite He.
  - pose proof (record_at_progress _ _ _ _ H Hp). destruct fuel; [lia|]. cbn. rewrite H, IH; [done|done|lia|lia].
Qed.

Lemma records_reads data l : records data = Some l -> exists p, reads data 0 l p /\ record_at data p = End.
Proof.
  unfold records. generalize (S (length data)), 0%nat. intros fuel. revert l.
  induction fuel as [|fuel IH]; intros l p H; [done|]. cbn in H.
  destruct (record_at data p) as [a p'| |] eqn:Hr; [|injection H as <-; exists p; by split; [constructor|]|done].
  apply bind_Some in H as (l' & H & [= <-]). destruct (IH _ _ H) as (p'' & ? & ?). exists p''. split; [|done].
  by econstructor.
Qed.

(** Reading is deterministic, so that everything read is among the records. *)
Lemma records_prefix data l es p : records data = Some l -> reads data 0 es p ->
  es `prefix_of` l /\ (forall e, record_at data p <> Broken e).
Proof.
  intros Hl Hr. apply records_reads in Hl as (q & Hq & He). revert l Hq. induction Hr as [p|p a p1 es p2 H Hr IH]; intros l Hq.
  - split; [apply prefix_nil|]. intros e He'. inversion Hq; congruence.
  - inversion Hq as [|? a' p1' l' ? H' Hq']; subst; [congruence|]. rewrite H in H'. injection H' as <- <-.
    destruct (IH _ Hq') as [Hp Hb]. split; [by apply prefix_cons|done].
Qed.

Lemma reads_unique data l es p : records data = Some l -> reads data 0 es p -> record_at data p = End -> es = l.
Proof. intros Hl Hr He. rewrite (reads_records _ _ _ Hr He) in Hl. by injection Hl. Qed.

Lemma records_length data l : records data = Some l -> (length l <= length data)%nat.
Proof. intros Hl. apply records_reads in Hl as (p & Hr & _). apply reads_bound in Hr; lia. Qed.

End Records.
Arguments reads {A} decode data p l p'.
Arguments records {A} decode data.
Arguments record_at {A} decode data p.

Section Reader.
Context {XE : XdrEncoder} {XC : XdrCodec} {ScVal : Type} {Body : LedgerEntryType -> Type} {SO : ScValOps ScVal}.
Context {DE : EntryDecoders ScVal Body} (sha256 : list Z -> list Z) {W : Type} {EN : Env W}.
Abbreviation Reader := (Reader ScVal Body W).
Abbreviation BucketEntry := (BucketEntry ScVal Body).

Lemma Mbind {A B} (c : M A) (f : A -> M B) (r : Reader) a r' : c r = Ok (a, r') -> (c ≫= f) r = f a r'.
Proof. intros H. unfold mbind, M_bind. by rewrite H. Qed.

Lemma ask_eq {A} (f : W -> A * W) (r : Reader) : ask f r = Ok ((f (world r)).1, set_world (f (world r)).2 r).
Proof. unfold ask. by destruct (f (world r)). Qed.

(** The bytes of the buckets: the archive may cut a file short or fail, but what it
    delivers of a bucket is a beginning of the same bytes. *)
Context (archive : list Z -> list Z).
Definition consistent : Prop := forall h w s w',
  GetXdrStreamForHash h w = (Ok s, w') -> content s `prefix_of` archive h.
(** Nobody else calls [Close]. *)
Definition not_closed : Prop := forall w, (close_called w).1 = false.

(** A bucket that the archive delivers in full whenever it is asked for it. *)
Definition reliable (h : list Z) : Prop :=
  (forall w, (ctx_done w).1 = false) /\
  (forall w, (GetXdrStreamForHash h w).1 = Ok (mkSource (archive h) None None)).

Context (Hcons : consistent) (Hopen : not_closed).

Record stream_ok (h : list Z) (x : XdrStream) : Prop := {
  so_prefix : content (src x) `prefix_of` archive h;
  so_validate : validateHash x = true;
  so_expected : expectedHash x = h;
  so_full : reliable h -> src x = mkSource (archive h) None None
}.

(** The reader after steps that only talk to the world. *)
Definition world_only (r r' : Reader) : Prop := r' = set_world (world r') r.

Lemma world_only_refl r : world_only r r.
Proof. by destruct r. Qed.
Lemma world_only_set w r : world_only r (set_world w r).
Proof. done. Qed.
Lemma world_only_trans r r1 r2 : world_only r r1 -> world_only r1 r2 -> world_only r r2.
Proof. unfold world_only. intros -> ->. done. Qed.

Lemma newXDRStream_spec h r : exists o r', newXDRStream h r = Ok (o, r') /\ world_only r r' /\
  match o with inr x => stream_ok h x /\ BytesRead x = 0%nat | inl _ => ~ reliable h end.
Proof.
  unfold newXDRStream. erewrite Mbind by apply ask_eq.
  destruct (GetXdrStreamForHash h (world r)) as [[s|e|e] w] eqn:Hs; cbn [fst snd]; eexists _, _;
    (split; [reflexivity|]); (split; [apply world_only_set|]);
    [|by intros [_ Hr]; specialize (Hr (world r)); rewrite Hs in Hr..].
  split; [|done]. split; [by apply Hcons in Hs|done..|]. intros [_ Hr]. specialize (Hr (world r)). rewrite Hs in Hr. by injection Hr.
Qed.

(** What was read at a position. *)
Definition read_at (h : list Z) (pos : nat) (result : res BucketEntry) (x : XdrStream) : Prop :=
  stream_ok h x /\
  match result with
  | Ok e => record_at decode_entry (content (src x)) pos = Record e (BytesRead x) /\ (pos <= length (content (src x)))%nat
  | Err e => if bool_decide (e = EOF)
             then record_at decode_entry (content (src x)) pos = End /\ (pos <= length (content (src x)))%nat
             else reliable h -> exists e, record_at decode_entry (archive h) pos = Broken e
  | Panic _ => False
  end.

Lemma ReadOne_read_at h x : stream_ok h x -> (BytesRead x <= length (content (src x)))%nat ->
  read_at h (BytesRead x) (ReadOne decode_entry x).1 (ReadOne decode_entry x).2.
Proof.
  intros [H1 H2 H3 H4] Hp. pose proof (ReadOne_record decode_entry x Hp) as H.
  destruct (ReadOne decode_entry x) as [[e|e|e] x'] eqn:HR; cbn [fst snd]; [| |done].
  - destruct H as (Hr & Hx & Hb). rewrite Hx. split; [by split|]. cbn [src BytesRead]. by split.
  - destruct H as (He & Hs & Hv & Hh). split; [split; rewrite ?Hs; (congruence || done)|]. rewrite Hs.
    destruct (bool_decide (e = EOF)) eqn:Hee; [apply bool_decide_eq_true in Hee; naive_solver|].
    intros Hrel. exists e. unfold record_at. destruct x as [src0 p v ex]. cbn [src content BytesRead validateHash expectedHash] in *.
    rewrite (H4 Hrel) in HR. pose proof (ReadOne_fst decode_entry (mkSource (archive h) None None) p v ex) as Hf.
    rewrite HR in Hf. unfold pure. destruct (ReadOne decode_entry (mkXdrStream (mkSource (archive h) None None) p false [])) as [[] ?]; cbn [fst] in Hf; try done.
    injection Hf as Hf. rewrite <- Hf. by rewrite Hee.
Qed.

Lemma reopen_spec h pos x r : stream_ok h x -> (pos <= length (archive h))%nat -> exists err x' r',
  reopen sha256 pos x h r = Ok ((err, x'), r') /\ world_only r r' /\ stream_ok h x' /\ err <> Some EOF /\
  match err with
  | None => BytesRead x' = pos /\ (pos <= length (content (src x')))%nat
  | Some _ => ~ reliable h
  end.
Proof.
  intros Hx Hpos. unfold reopen. destruct (newXDRStream_spec h r) as (o & r' & Hn & Hw & Ho).
  rewrite (Mbind _ _ _ _ _ Hn). destruct o as [e|y].
  - eexists _, _, _. split; [reflexivity|]. split; [done|]. split; [done|]. split; [by intros [=]|done].
  - destruct Ho as [[H1 H2 H3 H4] H0]. unfold Discard. destruct (Nat.ltb_spec (length (left_of y)) pos) as [Hl|Hl];
      cbn [fst snd]; eexists _, _, _; (split; [reflexivity|]); (split; [done|]); (split; [by split|]).
    + split; [by intros [=]|]. intros Hrel. unfold left_of in Hl. rewrite H0, (H4 Hrel) in Hl. cbn [content] in Hl. rewrite drop_0 in Hl. lia.
    + split; [done|]. rewrite BytesRead_advance, H0. unfold left_of in *. rewrite H0, length_drop in *. cbn. lia.
Qed.

Lemma read_attempts_spec h pos : (pos <= length (archive h))%nat -> forall retries err x r,
  stream_ok h x -> err <> Some EOF ->
  match err with
  | None => BytesRead x = pos /\ (pos <= length (content (src x)))%nat
  | Some _ => ~ reliable h
  end ->
  exists result x' r', read_attempts sha256 retries pos err x h r = Ok ((result, x'), r') /\
    world_only r r' /\ read_at h pos result x'.
Proof.
  intros Hpos. induction retries as [|retries IH]; intros err x r Hx He Hp; cbn [read_attempts]; erewrite Mbind by apply ask_eq;
    (destruct (ctx_done (world r)) as [[|] w] eqn:Hc; cbn [fst snd];
      [eexists _, x, _; split; [reflexivity|]; split; [apply world_only_set|]; split; [done|];
       intros [Hctx _]; specialize (Hctx (world r)); by rewrite Hc in Hctx|]).
  - destruct err as [e|].
    + eexists _, x, _. split; [reflexivity|]. split; [apply world_only_set|]. split; [done|]. by rewrite bool_decide_false by congruence.
    + destruct Hp as [Hb Hl]. rewrite <- Hb in Hl. pose proof (ReadOne_read_at h x Hx Hl) as Hr. rewrite Hb in Hr.
      destruct (ReadOne decode_entry x) as [[a|e|e] x']; cbn [fst snd] in Hr.
      * eexists _, _, _. split; [reflexivity|]. by split; [apply world_only_set|].
      * destruct (bool_decide (e = EOF)) eqn:Hee; [apply bool_decide_eq_true in Hee as ->|];
          eexists _, _, _; (split; [reflexivity|]); by (split; [apply world_only_set|]).
      * by destruct Hr.
  - assert (Hretry : forall x', stream_ok h x' -> exists result x'' r',
      ('(err, stream) ← reopen sha256 pos x' h; read_attempts sha256 retries pos err stream h) (set_world w r) =
        Ok ((result, x''), r') /\ world_only r r' /\ read_at h pos result x'').
    { intros x' Hx'. destruct (reopen_spec h pos x' (set_world w r) Hx' Hpos) as (err' & x1 & r1 & H1 & Hw1 & Hx1 & He1 & Hp1).
      rewrite (Mbind _ _ _ _ _ H1). destruct (IH err' x1 r1 Hx1 He1 Hp1) as (result & x2 & r2 & H2 & Hw2 & Hr2).
      exists result, x2, r2. split; [done|]. split; [|done]. by apply (world_only_trans _ r1). }
    destruct err as [e|]; [by apply Hretry|].
    destruct Hp as [Hb Hl]. rewrite <- Hb in Hl. pose proof (ReadOne_read_at h x Hx Hl) as Hr. rewrite Hb in Hr.
    destruct (ReadOne decode_entry x) as [[a|e|e] x']; cbn [fst snd] in Hr.
    + eexists _, _, _. split; [reflexivity|]. by split; [apply world_only_set|].
    + destruct (bool_decide (e = EOF)) eqn:Hee; [apply bool_decide_eq_true in Hee as ->|].
      * eexists _, _, _. split; [reflexivity|]. by split; [apply world_only_set|].
      * apply Hretry. apply Hr.
    + by destruct Hr.
Qed.

Lemma readBucketEntry_spec h x r : stream_ok h x -> (BytesRead x <= length (content (src x)))%nat ->
  exists result x' r', readBucketEntry sha256 x h r = Ok ((result, x'), r') /\
    world_only r r' /\ read_at h (BytesRead x) result x'.
Proof.
  intros Hx Hp. apply read_attempts_spec; [|done..]. apply so_prefix in Hx. apply prefix_length in Hx. lia.
Qed.

(** ** Entries read so far *)

Definition has_read (h : list Z) (es : list BucketEntry) (x : XdrStream) : Prop :=
  stream_ok h x /\ reads decode_entry (content (src x)) 0 es (BytesRead x).

Lemma has_read_bound h es x : has_read h es x -> (BytesRead x <= length (content (src x)))%nat.
Proof. intros [_ Hr]. apply reads_bound in Hr; lia. Qed.

(** What has been read is also in a stream that replaced the one it was read from. *)
Lemma has_read_moved h es x x' : has_read h es x -> stream_ok h x' -> (BytesRead x <= length (content (src x')))%nat ->
  reads decode_entry (content (src x')) 0 es (BytesRead x).
Proof.
  intros Hr Hx' Hp. pose proof (has_read_bound _ _ _ Hr) as Hb. destruct Hr as [Hx Hr].
  apply (reads_agree decode_entry (content (src x))); [done|lia| |done].
  apply so_prefix in Hx as [k1 Hk1], Hx' as [k2 Hk2].
  rewrite <- (take_app_le (content (src x)) k1), <- (take_app_le (content (src x')) k2) by lia. congruence.
Qed.

Lemma has_read_step h es x e x' : has_read h es x -> read_at h (BytesRead x) (Ok e) x' -> has_read h (es ++ [e]) x'.
Proof.
  intros Hr (Hx' & Hrec & Hp). split; [done|]. apply (reads_app _ _ _ _ (BytesRead x)); [by apply (has_read_moved h)|].
  econstructor; [done|constructor].
Qed.

Lemma has_read_end h es x x' : has_read h es x -> read_at h (BytesRead x) (Err EOF) x' ->
  stream_ok h x' /\ records decode_entry (content (src x')) = Some es.
Proof.
  intros Hr (Hx' & Hrec). rewrite bool_decide_true in Hrec by done. destruct Hrec as [Hrec Hp]. split; [done|].
  apply (reads_records _ _ _ (BytesRead x)); [by apply (has_read_moved h)|done].
Qed.

(** Reading fails only when the archive does or the file is damaged. *)
Lemma has_read_fails h es x e x' : has_read h es x -> read_at h (BytesRead x) (Err e) x' -> e <> EOF ->
  reliable h -> records decode_entry (archive h) = None.
Proof.
  intros [Hx Hr] (_ & Hrec) He Hrel. rewrite bool_decide_false in Hrec by done. destruct (Hrec Hrel) as [e' Hb].
  destruct (records decode_entry (archive h)) as [l|] eqn:Hl; [|done].
  destruct (so_full _ _ Hx Hrel). rewrite (so_full _ _ Hx Hrel) in Hr. cbn [content] in Hr.
  destruct (records_prefix _ _ _ _ _ Hl Hr) as [_ Hn]. by destruct (Hn e').
Qed.

(** ** How the reader grows *)

Record grows (r r' : Reader) (out : list (readResult ScVal Body)) (seen' : gset (list Z)) : Prop := {
  g_chan : readChan r' = readChan r ++ out;
  g_store : tempStore r' = Some seen';
  g_done : done r' = done r;
  g_closed : closed r' = closed r;
  g_has : has r' = has r
}.

Lemma grows_trans r r1 r2 o1 o2 s1 s2 : grows r r1 o1 s1 -> grows r1 r2 o2 s2 -> grows r r2 (o1 ++ o2) s2.
Proof. intros [H1 H2 H3 H4 H5] [H1' H2' H3' H4' H5']. split; [|congruence..]. by rewrite H1', H1, app_assoc. Qed.

Lemma grows_world r r' seen : world_only r r' -> tempStore r = Some seen -> grows r r' [] seen.
Proof. unfold world_only. intros -> Hs. split; cbn; [by rewrite app_nil_r|done..]. Qed.

Lemma failure_spec {A} msg (a : A) r seen : tempStore r = Some seen ->
  exists r', failure msg a r = Ok (a, r') /\ grows r r' [Failure msg] seen.
Proof. intros Hs. unfold failure. erewrite Mbind by reflexivity. eexists. by split. Qed.

Definition reports (out : list (readResult ScVal Body)) : Prop := exists e, Failure e ∈ out.

Lemma entry_key_total (e : BucketEntry) : (exists o, entry_key e = Ok o) \/ exists err, entry_key e = Err err.
Proof.
  assert (H : forall x : LedgerEntry ScVal Body, (exists k, Entry_LedgerKey x = Ok k) \/ exists err, Entry_LedgerKey x = Err err).
  { intros [? [] ?]; cbn; eauto. }
  destruct e as [x|x|k|v|t]; cbn; eauto; (destruct (H x) as [[k ->]|[err ->]]; cbn; eauto).
Qed.

(** A file that can be read, of entries that have a key. *)
Definition readable (h : list Z) : Prop :=
  reliable h /\ exists es, records decode_entry (archive h) = Some es /\ Forall (fun e : BucketEntry => is_ok (entry_key e) = true) es.

(** The batch that [preload] reads after the entries [pre] of the bucket. *)
Definition preload_post (h : list Z) (pre : list BucketEntry) (r : Reader) (seen : gset (list Z))
    (o : flow (list BucketEntry * list (list Z) * bool)) (x : XdrStream) (r' : Reader) : Prop :=
  stream_ok h x /\
  match o with
  | Continue (batch, _, last) => world_only r r' /\
      (if last then records decode_entry (content (src x)) = Some (pre ++ batch) else has_read h (pre ++ batch) x)
  | Return true => world_only r r' /\ records decode_entry (content (src x)) = Some pre
  | Return false => exists out, grows r r' out seen /\ reports out /\ ~ readable h
  end.

Definition nonempty (o : flow (list BucketEntry * list (list Z) * bool)) : Prop :=
  match o with Continue (batch, _, _) => batch <> [] | Return _ => True end.

Lemma preload_spec h pre n : forall count x batch keys r seen,
  has_read h (pre ++ batch) x -> tempStore r = Some seen ->
  exists o x' r', preload sha256 count x h n batch keys r = Ok ((o, x'), r') /\
    preload_post h pre r seen o x' r' /\ (batch <> [] \/ count <> 0%nat -> nonempty o).
Proof.
  induction count as [|count IH]; intros x batch keys r seen Hr Hs; cbn [preload].
  { eexists _, _, _. split; [reflexivity|]. split; [|naive_solver]. split; [apply Hr|]. by split; [apply world_only_refl|]. }
  destruct (readBucketEntry_spec h x r (proj1 Hr) (has_read_bound _ _ _ Hr)) as (result & x' & r1 & H1 & Hw & Hat).
  rewrite (Mbind _ _ _ _ _ H1). pose proof (proj1 Hat) as Hx'. pose proof (grows_world _ _ _ Hw Hs) as Hg.
  destruct result as [e|e|e]; [| |by destruct Hat].
  - pose proof (has_read_step _ _ _ _ _ Hr Hat) as Hr'. rewrite <- app_assoc in Hr'.
    destruct (entry_key_total e) as [[ko Hk]|[err Hk]]; rewrite Hk.
    + assert (Hgo : forall keys, exists o x'' r', preload sha256 count x' h n (batch ++ [e]) keys r1 = Ok ((o, x''), r') /\
        preload_post h pre r seen o x'' r' /\ (batch <> [] \/ S count <> 0%nat -> nonempty o)).
      { intros ks. destruct (IH x' (batch ++ [e]) ks r1 seen Hr' (g_store _ _ _ _ Hg)) as (o & x'' & r' & H2 & [Hx'' Ho] & Hne).
        exists o, x'', r'. split; [done|]. split; [|intros _; apply Hne; left; by destruct batch]. split; [done|].
        destruct o as [[[batch' ks'] last]|[|]].
        - destruct Ho as (Hw' & Ho). split; [by apply (world_only_trans _ r1)|done].
        - destruct Ho as [Hw' Ho]. split; [by apply (world_only_trans _ r1)|done].
        - destruct Ho as (out & Hg' & Ho). exists out. split; [|done]. by apply (grows_trans _ _ _ _ _ _ _ Hg Hg'). }
      destruct ko as [key|]; apply Hgo.
    + destruct (failure_spec (wrap_error "Error generating ledger key for XDR record" err)
        (Return (A := list BucketEntry * list (list Z) * bool) false, x') r1 seen (g_store _ _ _ _ Hg)) as (r2 & Hf & Hg2).
      eexists _, _, _. split; [exact Hf|]. split; [|done]. split; [done|]. eexists. split; [apply (grows_trans _ _ _ _ _ _ _ Hg Hg2)|].
      split; [eexists; by left|]. intros (Hrel & es & Hes & Hall). destruct Hr' as [_ Hr'].
      rewrite (so_full _ _ Hx' Hrel) in Hr'. destruct (records_prefix _ _ _ _ _ Hes Hr') as [[k ->] _].
      rewrite !Forall_app, Forall_singleton, Hk in Hall. by destruct Hall as [(_ & _ & ?) _].
  - destruct (bool_decide (e = EOF)) eqn:He.
    + apply bool_decide_eq_true in He as ->. destruct (has_read_end _ _ _ _ Hr Hat) as [_ Hrec].
      destruct batch as [|b batch].
      * eexists _, _, _. split; [reflexivity|]. split; [|done]. rewrite app_nil_r in Hrec. by split.
      * eexists _, _, _. split; [reflexivity|]. split; [|done]. by split.
    + apply bool_decide_eq_false in He.
      destruct (failure_spec (wrap_error "Error on XDR record" e)
        (Return (A := list BucketEntry * list (list Z) * bool) false, x') r1 seen (g_store _ _ _ _ Hg)) as (r2 & Hf & Hg2).
      eexists _, _, _. split; [exact Hf|]. split; [|done]. split; [done|]. eexists. split; [apply (grows_trans _ _ _ _ _ _ _ Hg Hg2)|].
      split; [eexists; by left|]. intros (Hrel & es & Hes & _). by rewrite (has_read_fails _ _ _ _ _ Hr Hat He Hrel) in Hes.
Qed.

(** ** One entry *)

(** Streaming stops: because [done] was closed, or after an error was reported
    that [P] excludes. *)
Definition stops (r : Reader) (out : list (readResult ScVal Body)) (P : Prop) : Prop :=
  done r = true \/ reports out /\ ~ P.

Definition step_post (oldest : bool) (version n : Z) (seen : gset (list Z)) (e : BucketEntry) (r : Reader)
    (o : flow Z) (r' : Reader) : Prop :=
  exists out seen', grows r r' out seen' /\
  match o with
  | Continue version' => exists es, entry_step oldest version n seen e = Some (version', seen', es) /\ out = Entry <$> es
  | Return b => b = false /\ stops r out (is_Some (entry_step oldest version n seen e))
  end.

Lemma check_done_spec version r : (exists r', check_done version r = Ok (Continue version, r') /\ world_only r r' /\ done r = false) \/
  (exists r', check_done version r = Ok (Return false, r') /\ world_only r r' /\ done r = true).
Proof.
  unfold check_done, poll_done. unfold mbind, M_bind. pose proof (Hopen (world r)) as Hc.
  destruct (close_called (world r)) as [c w]. cbn [fst] in Hc. subst c. rewrite bind_Ok_l. cbn [orb].
  destruct (done r); [right|left]; eexists; (split; [reflexivity|]); by split.
Qed.

(** A turn that ends with the [select]. *)
Lemma step_check_done oldest version n seen e r r1 es seen' : grows r r1 (Entry <$> es) seen' ->
  entry_step oldest version n seen e = Some (version, seen', es) ->
  exists o r', check_done version r1 = Ok (o, r') /\ step_post oldest version n seen e r o r'.
Proof.
  intros Hg He. destruct (check_done_spec version r1) as [(r' & Hr & Hw & Hd)|(r' & Hr & Hw & Hd)];
    pose proof (grows_trans _ _ _ _ _ _ _ Hg (grows_world _ _ _ Hw (g_store _ _ _ _ Hg))) as Hg'; rewrite app_nil_r in Hg';
    eexists _, r'; (split; [exact Hr|]); exists (Entry <$> es), seen'; (split; [done|]).
  - by exists es.
  - split; [done|]. left. rewrite <- Hd. symmetry. apply (g_done _ _ _ _ Hg).
Qed.

Lemma step_failure oldest version n seen e r msg : tempStore r = Some seen -> entry_step oldest version n seen e = None ->
  exists o r', failure msg (Return (A := Z) false) r = Ok (o, r') /\ step_post oldest version n seen e r o r'.
Proof.
  intros Hs He. destruct (failure_spec msg (Return (A := Z) false) r seen Hs) as (r' & Hf & Hg). eexists _, r'. split; [done|].
  eexists _, _. split; [done|]. split; [done|]. right. split; [eexists; by left|]. rewrite He. by intros [? ?].
Qed.

Lemma add_key_spec h msg (k : M (flow Z)) r seen : tempStore r = Some seen ->
  exists r1, grows r r1 [] ({[h]} ∪ seen) /\ add_key h msg k r = k r1.
Proof.
  intros Hs. unfold add_key. erewrite Mbind by reflexivity. rewrite Hs. cbn [memoryTempSet_Add].
  erewrite Mbind by reflexivity. cbn [lift]. erewrite Mbind by reflexivity. eexists. split; [|reflexivity].
  split; cbn; [by rewrite app_nil_r|done..].
Qed.

Lemma send_spec x r seen : tempStore r = Some seen -> exists r1, send x r = Ok (tt, r1) /\ grows r r1 [x] seen.
Proof. intros Hs. eexists. split; [reflexivity|]. by split. Qed.

Lemma process_live_spec oldest version n seen x r (init : bool) : tempStore r = Some seen ->
  let e : BucketEntry := if init then InitEntry x else LiveEntry x in
  exists o r', process_entry oldest version n e r = Ok (o, r') /\ step_post oldest version n seen e r o r'.
Proof.
  intros Hs e.
  assert (Hkey : (exists k, Entry_LedgerKey x = Ok k) \/ exists err, Entry_LedgerKey x = Err err) by (destruct x as [? [] ?]; cbn; eauto).
  assert (Hunfold : process_entry oldest version n e r = (
      key ← lift (Entry_LedgerKey x);
      match key with
      | inl er => failure (wrap_error "Error generating ledger key for XDR record" er) (Return false)
      | inr key =>
          if init && (version <? 11) then failure "Read INITENTRY from version <11 bucket" (Return false) else
          t ← get_tempStore; seen ← lift (memoryTempSet_Exist t (ledgerKeyCompressEncodeTo key));
          match seen with
          | inl er => failure (wrap_error "Error reading from tempStore" er) (Return false)
          | inr true => check_done version
          | inr false => send (Entry x);;
              if init then check_done version else if oldest then mret (Continue version)
              else add_key (ledgerKeyCompressEncodeTo key) "Error updating to tempStore" (check_done version)
          end
      end) r) by (by destruct init). rewrite Hunfold. clear Hunfold.
  assert (He : entry_step oldest version n seen e = match Entry_LedgerKey x with
    | Ok k => if init && (version <? 11) then None else if bool_decide (ledgerKeyCompressEncodeTo k ∈ seen) then Some (version, seen, [])
              else Some (version, if init || oldest then seen else {[ledgerKeyCompressEncodeTo k]} ∪ seen, [x])
    | _ => None end) by (by destruct init).
  destruct Hkey as [[k Hk]|[err Hk]]; rewrite Hk in *; (erewrite Mbind by reflexivity); cbv beta iota; [|by apply step_failure].
  destruct (init && (version <? 11)); [by apply step_failure|].
  erewrite Mbind by reflexivity. rewrite Hs. erewrite Mbind by reflexivity. cbv beta iota.
  destruct (bool_decide (ledgerKeyCompressEncodeTo k ∈ seen)) eqn:Hin.
  { apply (step_check_done _ _ _ _ _ _ _ [] seen); [|done]. split; [by rewrite app_nil_r|done..]. }
  destruct (send_spec (Entry x) r seen Hs) as (r1 & Hsend & Hg). rewrite (Mbind _ _ _ _ _ Hsend).
  destruct init; cbn [orb] in He; [by apply (step_check_done _ _ _ _ _ _ _ [x] seen)|].
  destruct oldest.
  - eexists _, r1. split; [reflexivity|]. eexists _, seen. split; [exact Hg|]. exists [x]. by split.
  - destruct (add_key_spec (ledgerKeyCompressEncodeTo k) "Error updating to tempStore" (check_done version) r1 seen (g_store _ _ _ _ Hg))
      as (r2 & Hg2 & ->).
    apply (step_check_done _ _ _ _ _ _ _ [x] ({[ledgerKeyCompressEncodeTo k]} ∪ seen)); [|done].
    apply (grows_trans _ _ _ _ _ _ _ Hg Hg2).
Qed.

Lemma process_entry_spec oldest version n seen e r : tempStore r = Some seen ->
  exists o r', process_entry oldest version n e r = Ok (o, r') /\ step_post oldest version n seen e r o r'.
Proof.
  intros Hs. destruct e as [x|x|k|v|t].
  - by apply (process_live_spec _ _ _ _ _ _ false).
  - by apply (process_live_spec _ _ _ _ _ _ true).
  - cbn [process_entry]. destruct (add_key_spec (ledgerKeyCompressEncodeTo k) "Error writing to tempStore" (check_done version) r seen Hs)
      as (r2 & Hg2 & ->). by apply (step_check_done _ _ _ _ _ _ _ [] ({[ledgerKeyCompressEncodeTo k]} ∪ seen)).
  - cbn [process_entry]. destruct (n =? 0) eqn:Hn; cbn [negb].
    + eexists _, r. split; [reflexivity|]. exists [], seen. split; [split; [by rewrite app_nil_r|done..]|]. exists [].
      split; [|done]. cbn. by rewrite Hn.
    + apply step_failure; [done|]. cbn. by rewrite Hn.
  - by apply step_failure.
Qed.

(** ** One bucket *)

(** A bucket without faults: delivered in full, with the right hash, and of
    entries that obey the rules when [seen0] are the keys of newer buckets. *)
Definition fine (h : list Z) (oldest : bool) (seen0 : gset (list Z)) : Prop :=
  reliable h /\ sha256 (archive h) = h /\
  exists es, records decode_entry (archive h) = Some es /\ is_Some (bucket_run oldest 0 0 seen0 es).

Lemma entry_step_keyed oldest version n seen (e : BucketEntry) : is_Some (entry_step oldest version n seen e) ->
  is_ok (entry_key e) = true.
Proof. destruct e as [x|x|k|v|t]; try done; cbn; by destruct (Entry_LedgerKey x); [done| |]; intros [? ?]. Qed.

Lemma bucket_run_keyed oldest (es : list BucketEntry) : forall version n seen, is_Some (bucket_run oldest version n seen es) ->
  Forall (fun e => is_ok (entry_key e) = true) es.
Proof.
  induction es as [|e es IH]; intros version n seen [v Hv]; [constructor|]. cbn [bucket_run] in Hv.
  apply bind_Some in Hv as ([[v1 s1] o1] & H1 & Hv). apply bind_Some in Hv as ([[v2 s2] o2] & H2 & _).
  constructor; [by apply (entry_step_keyed oldest version n seen)|by eapply IH].
Qed.

Lemma bucket_run_prefix oldest (pre es : list BucketEntry) version n seen : pre `prefix_of` es ->
  is_Some (bucket_run oldest version n seen es) -> is_Some (bucket_run oldest version n seen pre).
Proof. intros [k ->]. rewrite bucket_run_app. by destruct (bucket_run oldest version n seen pre); [|intros [? ?]]. Qed.

Lemma fine_readable h oldest seen0 : fine h oldest seen0 -> readable h.
Proof. intros (Hr & _ & es & Hes & Hrun). split; [done|]. exists es. split; [done|]. by eapply bucket_run_keyed. Qed.

(** The entries [pre] have been processed, [batch] has been read. *)
Definition loop_state (h : list Z) (pre batch : list BucketEntry) (last : bool) (x : XdrStream) : Prop :=
  stream_ok h x /\
  if last then records decode_entry (content (src x)) = Some (pre ++ batch) else has_read h (pre ++ batch) x.

Lemma loop_state_length h pre batch last x : loop_state h pre batch last x -> (length (pre ++ batch) <= length (archive h))%nat.
Proof.
  intros [Hx H]. pose proof (prefix_length _ _ (so_prefix _ _ Hx)). destruct last.
  - apply records_length in H. lia.
  - destruct H as [_ H]. apply reads_bound in H; lia.
Qed.

(** Without faults, what was read is a part of the bucket. *)
Lemma loop_state_prefix h pre batch last x es : loop_state h pre batch last x -> reliable h ->
  records decode_entry (archive h) = Some es -> pre ++ batch `prefix_of` es.
Proof.
  intros [Hx H] Hrel Hes. destruct last.
  - rewrite (so_full _ _ Hx Hrel) in H. cbn [content] in H. rewrite Hes in H. by injection H as ->.
  - destruct H as [_ H]. rewrite (so_full _ _ Hx Hrel) in H. by destruct (records_prefix _ _ _ _ _ Hes H).
Qed.

Definition bucket_post (h : list Z) (oldest : bool) (seen0 : gset (list Z)) (sent0 : list (LedgerEntry ScVal Body)) (r : Reader)
    (b : bool) (x : XdrStream) (r' : Reader) : Prop :=
  stream_ok h x /\ exists out seen', grows r r' out seen' /\
  if b then exists es v new, records decode_entry (content (src x)) = Some es /\
    bucket_run oldest 0 0 seen0 es = Some (v, seen', sent0 ++ new) /\ out = Entry <$> new
  else stops r out (fine h oldest seen0).

Lemma stops_weaken r out (P Q : Prop) : (Q -> P) -> stops r out P -> stops r out Q.
Proof. unfold stops. naive_solver. Qed.

Lemma bucket_post_grows h oldest seen0 sent0 new1 seen1 r r1 b x r' : grows r r1 (Entry <$> new1) seen1 ->
  bucket_post h oldest seen0 (sent0 ++ new1) r1 b x r' -> bucket_post h oldest seen0 sent0 r b x r'.
Proof.
  intros Hg [Hx (out & seen' & Hg' & Ho)]. split; [done|].
  exists ((Entry <$> new1) ++ out), seen'. split; [by apply (grows_trans _ _ _ _ _ _ _ Hg Hg')|]. destruct b.
  - destruct Ho as (es & v & new & H1 & H2 & ->). exists es, v, (new1 ++ new). rewrite <- app_assoc in H2.
    split; [done|]. split; [done|]. by rewrite fmap_app.
  - destruct Ho as [Hd|[[e He] Hn]]; [left; by rewrite <- (g_done _ _ _ _ Hg)|]. right. split; [|done]. exists e.
    apply elem_of_app. by right.
Qed.

Lemma bucket_loop_spec h oldest seen0 : forall fuel x version n pre batch last r seen sent0,
  loop_state h pre batch last x -> tempStore r = Some seen -> n = Z.of_nat (length pre) - 1 ->
  bucket_run oldest 0 0 seen0 pre = Some (version, seen, sent0) ->
  (S (length (archive h)) < fuel + length pre)%nat ->
  exists b x' r', bucket_loop sha256 fuel h oldest x version n batch last r = Ok ((b, x'), r') /\
    bucket_post h oldest seen0 sent0 r b x' r'.
Proof.
  induction fuel as [|fuel IH]; intros x version n pre batch last r seen sent0 Hl Hs Hn Hrun Hf.
  { pose proof (loop_state_length _ _ _ _ _ Hl). rewrite length_app in *. lia. }
  cbn [bucket_loop].
  assert (Hturn : forall e batch last x r, loop_state h pre (e :: batch) last x -> tempStore r = Some seen ->
    exists b x' r', (next ← process_entry oldest version (n + 1) e;
      match next with
      | Return b => mret (b, x)
      | Continue version => bucket_loop sha256 fuel h oldest x version (n + 1) batch last
      end) r = Ok ((b, x'), r') /\ bucket_post h oldest seen0 sent0 r b x' r').
  { clear Hl Hs r last batch x. intros e batch last x r Hl Hs.
    destruct (process_entry_spec oldest version (n + 1) seen e r Hs) as (o & r1 & Hp & out & seen1 & Hg & Ho).
    rewrite (Mbind _ _ _ _ _ Hp).
    assert (Hpre : bucket_run oldest 0 0 seen0 (pre ++ [e]) =
      '(v, s, o) ← entry_step oldest version (n + 1) seen e; Some (v, s, sent0 ++ o)).
    { rewrite bucket_run_app, Hrun. cbn. replace (0 + Z.of_nat (length pre)) with (n + 1) by lia.
      destruct (entry_step oldest version (n + 1) seen e) as [[[? ?] ?]|]; [|done]. cbn. by rewrite app_nil_r. }
    destruct o as [version'|b].
    - destruct Ho as (es & He & ->). rewrite He in Hpre. cbn in Hpre.
      destruct (IH x version' (n + 1) (pre ++ [e]) batch last r1 seen1 (sent0 ++ es)) as (b & x' & r' & H1 & H2).
      + unfold loop_state in *. by rewrite <- app_assoc.
      + apply (g_store _ _ _ _ Hg).
      + rewrite length_app. cbn. lia.
      + done.
      + rewrite length_app. cbn. lia.
      + exists b, x', r'. split; [done|]. by apply (bucket_post_grows _ _ _ _ es seen1 r r1).
    - destruct Ho as [-> Hst]. eexists _, _, _. split; [reflexivity|]. split; [apply Hl|]. exists out, seen1. split; [done|].
      refine (stops_weaken _ _ _ _ _ Hst). intros (Hrel & _ & es & Hes & Hsome).
      pose proof (loop_state_prefix _ _ _ _ _ _ Hl Hrel Hes) as Hpf.
      assert (Hpf' : pre ++ [e] `prefix_of` es).
      { etrans; [|exact Hpf]. apply prefix_app. by exists batch. }
      pose proof (bucket_run_prefix _ _ _ _ _ _ Hpf' Hsome) as Hsome'. rewrite Hpre in Hsome'.
      by destruct (entry_step oldest version (n + 1) seen e); [|destruct Hsome']. }
  destruct batch as [|e batch]; [|by apply Hturn]. destruct last.
  - eexists _, _, _. split; [reflexivity|]. destruct Hl as [Hx Hrec]. rewrite app_nil_r in Hrec. split; [done|].
    exists [], seen. split; [apply grows_world; [apply world_only_refl|done]|]. exists pre, version, []. by rewrite app_nil_r.
  - destruct (preload_spec h pre n preloadedEntries x [] [] r seen (proj2 Hl) Hs) as (o & x' & r1 & Hp & [Hx' Ho] & Hne).
    rewrite (Mbind _ _ _ _ _ Hp). destruct o as [[[batch ks] last]|[|]].
    + destruct Ho as [Hw Ho]. pose proof (grows_world _ _ _ Hw Hs) as Hg.
      erewrite Mbind by reflexivity. erewrite Mbind by reflexivity. cbv beta iota. erewrite Mbind by reflexivity.
      destruct batch as [|e batch]; [exfalso; by apply Hne; [right|]|].
      destruct (Hturn e batch last x' (set_world (world r1) r)) as (b & x'' & r' & H1 & H2); [by split|done|].
      assert (Hr1 : mkReader (world r1) (has r1) (sequence r1) (tempStore r1) (readChan r1) (closed r1) (done r1) (totalSize r1) = set_world (world r1) r)
        by (rewrite Hw; by destruct r).
      exists b, x'', r'. rewrite Hr1. split; [done|].
      assert (Hg0 : grows r (set_world (world r1) r) (Entry <$> []) seen) by (split; cbn; [by rewrite app_nil_r|done..]).
      apply (bucket_post_grows _ _ _ _ [] seen _ _ _ _ _ Hg0). by rewrite app_nil_r.
    + destruct Ho as [Hw Ho]. eexists _, _, _. split; [reflexivity|]. split; [done|].
      exists [], seen. split; [by apply grows_world|]. exists pre, version, []. by rewrite app_nil_r.
    + destruct Ho as (out & Hg & Hrep & Hnr). eexists _, _, _. split; [reflexivity|]. split; [done|].
      exists out, seen. split; [done|]. right. split; [done|]. intros Hfine. by apply fine_readable in Hfine.
Qed.

(** The channel grew by [out], whatever became of [done]. *)
Record extends (r r' : Reader) (out : list (readResult ScVal Body)) (seen' : gset (list Z)) : Prop := {
  x_chan : readChan r' = readChan r ++ out;
  x_store : tempStore r' = Some seen';
  x_closed : closed r' = closed r;
  x_has : has r' = has r
}.

Lemma grows_extends r r' out seen' : grows r r' out seen' -> extends r r' out seen'.
Proof. intros []. by split. Qed.

Lemma extends_trans r r1 r2 o1 o2 s1 s2 : extends r r1 o1 s1 -> extends r1 r2 o2 s2 -> extends r r2 (o1 ++ o2) s2.
Proof. intros [H1 H2 H3 H4] [H1' H2' H3' H4']. split; [|congruence..]. by rewrite H1', H1, app_assoc. Qed.

Lemma reports_app_l o1 o2 : reports o1 -> reports (o1 ++ o2).
Proof. intros [e He]. exists e. apply elem_of_app. by left. Qed.
Lemma reports_app_r o1 o2 : reports o2 -> reports (o1 ++ o2).
Proof. intros [e He]. exists e. apply elem_of_app. by right. Qed.

(** The file of a bucket that was streamed without an error. *)
Record streamed (h : list Z) (oldest : bool) (seen : gset (list Z)) (file : list Z) (es : list BucketEntry)
    (seen' : gset (list Z)) (new : list (LedgerEntry ScVal Body)) : Prop := {
  st_hash : sha256 file = h;
  st_full : reliable h -> file = archive h;
  st_records : records decode_entry file = Some es;
  st_run : exists v, bucket_run oldest 0 0 seen es = Some (v, seen', new)
}.

Lemma streamBucketContents_spec fuel h oldest r seen : tempStore r = Some seen -> (S (length (archive h)) < fuel)%nat ->
  exists b r' out seen', streamBucketContents sha256 fuel h oldest r = Ok (b, r') /\ extends r r' out seen' /\
  ((b = true /\ done r' = done r /\ exists file es new, streamed h oldest seen file es seen' new /\ out = Entry <$> new) \/
   stops r out (fine h oldest seen)).
Proof.
  intros Hs Hf. unfold streamBucketContents. destruct (newXDRStream_spec h r) as (o & r1 & Hn & Hw & Ho).
  rewrite (Mbind _ _ _ _ _ Hn). pose proof (grows_world _ _ _ Hw Hs) as Hg1. destruct o as [e|x].
  { destruct (failure_spec (wrap_error "cannot get xdr stream for hash" e) false r1 seen (g_store _ _ _ _ Hg1)) as (r2 & H2 & Hg2).
    eexists _, r2, _, _. split; [exact H2|]. split; [apply grows_extends, (grows_trans _ _ _ _ _ _ _ Hg1 Hg2)|].
    right. right. split; [eexists; by left|]. by intros (Hrel & _). }
  destruct Ho as [Hx H0].
  destruct (bucket_loop_spec h oldest seen fuel x 0 (-1) [] [] false r1 seen []) as (b & x' & r2 & H2 & Hx' & out & seen' & Hg2 & Ho).
  { split; [done|]. split; [done|]. rewrite H0. constructor. }
  { apply (g_store _ _ _ _ Hg1). }
  { done. }
  { done. }
  { cbn. lia. }
  rewrite (Mbind _ _ _ _ _ H2). pose proof (grows_trans _ _ _ _ _ _ _ Hg1 Hg2) as Hg. cbn [app] in Hg.
  assert (Hdone : done r1 = done r) by apply (g_done _ _ _ _ Hg1).
  assert (Hclose : (exists e, Close sha256 x' = Err e /\ ~ fine h oldest seen) \/
                   (Close sha256 x' = Ok tt /\ sha256 (content (src x')) = h)).
  { destruct Hx' as [_ Hv He Hfull]. unfold Close. rewrite Hv, He.
    destruct (read_error (src x')) as [e|] eqn:Hre.
    { left. eexists. split; [done|]. intros (Hrel & _). by rewrite (Hfull Hrel) in Hre. }
    destruct (bool_decide (h = sha256 (content (src x')))) eqn:Hh; cbn [negb].
    - apply bool_decide_eq_true in Hh. unfold closeReaders. destruct (close_error (src x')) as [e|] eqn:Hce; [left|by right].
      eexists. split; [done|]. intros (Hrel & _). by rewrite (Hfull Hrel) in Hce.
    - apply bool_decide_eq_false in Hh. left. eexists. split; [done|]. intros (Hrel & Hsha & _).
      rewrite (Hfull Hrel) in Hh. cbn in Hh. congruence. }
  destruct Hclose as [(e & Hc & Hnf)|(Hc & Hh)]; rewrite Hc; (erewrite Mbind by reflexivity); cbv beta iota.
  - erewrite Mbind by reflexivity. erewrite Mbind by reflexivity.
    eexists b, _, (out ++ [Failure _]), seen'. split; [reflexivity|]. split.
    { destruct Hg as [G1 G2 G3 G4 G5]. split; cbn; [by rewrite G1, app_assoc|done..]. }
    right. right. split; [|done]. apply reports_app_r. eexists. by left.
  - eexists b, r2, out, seen'. split; [reflexivity|]. split; [by apply grows_extends|]. destruct b.
    + left. split; [done|]. split; [apply (g_done _ _ _ _ Hg)|]. destruct Ho as (es & v & new & Hr & Hrun & Hout).
      exists (content (src x')), es, new. split; [|done]. split; [done| |done|by exists v].
      intros Hrel. by rewrite (so_full _ _ Hx' Hrel).
    + right. unfold stops in *. by rewrite Hdone in Ho.
Qed.

(** ** All buckets *)

Inductive all_streamed : list (list Z) -> gset (list Z) -> list (list Z) -> list (list BucketEntry) ->
    list (LedgerEntry ScVal Body) -> Prop :=
| all_nil seen : all_streamed [] seen [] [] []
| all_cons h hs seen file files es ess seen' new rest :
    streamed h (bool_decide (hs = [])) seen file es seen' new -> all_streamed hs seen' files ess rest ->
    all_streamed (h :: hs) seen (file :: files) (es :: ess) (new ++ rest).

Lemma all_streamed_run hs seen files ess new : all_streamed hs seen files ess new ->
  Forall2 (fun h f => sha256 f = h) hs files /\ Forall2 (fun f es => records decode_entry f = Some es) files ess /\
  buckets_run seen ess = Some new.
Proof.
  induction 1 as [|h hs seen file files es ess seen' new rest [H1 _ H2 [v H3]] Hall (IH1 & IH2 & IH3)]; [by split_and!|].
  split; [by constructor|]. split; [by constructor|]. cbn [buckets_run].
  rewrite <- (bool_decide_ext (hs = []) (ess = [])); cycle 1.
  { apply Forall2_length in IH1. apply Forall2_length in IH2. rewrite <- !length_zero_iff_nil. lia. }
  rewrite H3. cbn. by rewrite IH3.
Qed.

(** Buckets without faults. *)
Definition all_fine (hs : list (list Z)) (seen : gset (list Z)) : Prop :=
  exists ess, Forall2 (fun h es => reliable h /\ sha256 (archive h) = h /\ records decode_entry (archive h) = Some es) hs ess /\
    is_Some (buckets_run seen ess).

Lemma all_fine_cons h hs seen : all_fine (h :: hs) seen ->
  fine h (bool_decide (hs = [])) seen /\
  forall file es seen' new, streamed h (bool_decide (hs = [])) seen file es seen' new -> all_fine hs seen'.
Proof.
  intros (ess & Hall & Hrun). inversion Hall as [|? es ? ess' (Hrel & Hsha & Hrec) Hall']; subst. cbn [buckets_run] in Hrun.
  rewrite <- (bool_decide_ext (hs = []) (ess' = [])) in Hrun; cycle 1.
  { apply Forall2_length in Hall'. rewrite <- !length_zero_iff_nil. lia. }
  destruct (bucket_run _ 0 0 seen es) as [[[v s] o]|] eqn:Hb; [|by destruct Hrun]. split.
  - split; [done|]. split; [done|]. exists es. split; [done|]. by rewrite Hb.
  - intros file es1 seen' new [_ Hfull Hrec' [v' Hb']]. rewrite (Hfull Hrel), Hrec in Hrec'. injection Hrec' as <-.
    rewrite Hb in Hb'. injection Hb' as <- <- <-. exists ess'. split; [done|]. cbn in Hrun.
    by destruct (buckets_run s ess'); [|destruct Hrun].
Qed.

Lemma stream_all_spec fuel hs : Forall (fun h => (S (length (archive h)) < fuel)%nat) hs -> forall r seen, tempStore r = Some seen ->
  exists r' out seen', stream_all sha256 fuel hs r = Ok (tt, r') /\ extends r r' out seen' /\
  ((exists files ess new, all_streamed hs seen files ess new /\ out = Entry <$> new) \/ stops r out (all_fine hs seen)).
Proof.
  induction 1 as [|h hs Hf Hall IH]; intros r seen Hs; cbn [stream_all].
  { eexists r, [], seen. split; [reflexivity|]. split; [split; [by rewrite app_nil_r|done..]|]. left. exists [], [], [].
    by split; [constructor|]. }
  destruct (streamBucketContents_spec fuel h (bool_decide (hs = [])) r seen Hs Hf) as (b & r1 & out1 & seen1 & H1 & Hx1 & Ho1).
  rewrite (Mbind _ _ _ _ _ H1).
  assert (Hstop : forall out2, stops r out1 (fine h (bool_decide (hs = [])) seen) -> stops r (out1 ++ out2) (all_fine (h :: hs) seen)).
  { intros out2 [Hd|[Hr Hn]]; [by left|]. right. split; [by apply reports_app_l|]. intros Ha. by apply all_fine_cons in Ha as [? _]. }
  destruct b.
  - destruct (IH r1 seen1 (x_store _ _ _ _ Hx1)) as (r2 & out2 & seen2 & H2 & Hx2 & Ho2).
    exists r2, (out1 ++ out2), seen2. split; [done|]. split; [by apply (extends_trans _ r1 _ _ _ seen1)|].
    destruct Ho1 as [(_ & Hd & file & es & new & Hst & ->)|Ho1]; [|right; by apply Hstop].
    destruct Ho2 as [(files & ess & rest & Hall2 & ->)|[Hd2|[Hr Hn]]].
    + left. exists (file :: files), (es :: ess), (new ++ rest). split; [by econstructor|]. by rewrite fmap_app.
    + right. left. congruence.
    + right. right. split; [by apply reports_app_r|]. intros Ha. apply all_fine_cons in Ha as [_ Ha]. by apply Ha in Hst.
  - exists r1, out1, seen1. split; [done|]. split; [done|]. right. rewrite <- (app_nil_r out1). apply Hstop.
    by destruct Ho1 as [[[=] _]|].
Qed.

(** The archive says that the buckets exist. *)
Definition listed (hs : list (list Z)) : Prop := forall h, h ∈ hs -> forall w,
  (BucketExists h w).1 = Ok true /\ exists size, (BucketSize h w).1 = Ok size.

Lemma check_buckets_spec hs : forall r seen, tempStore r = Some seen ->
  exists b r' out, check_buckets hs r = Ok (b, r') /\ grows r r' out seen /\
  if b then out = [] else reports out /\ ~ listed hs.
Proof.
  induction hs as [|h hs IH]; intros r seen Hs; cbn [check_buckets].
  { eexists _, r, []. split; [reflexivity|]. split; [|done]. split; [by rewrite app_nil_r|done..]. }
  erewrite Mbind by apply ask_eq.
  assert (Hfail : forall w msg, ~ listed (h :: hs) -> exists b r' out, failure msg false (set_world w r) = Ok (b, r') /\
    grows r r' out seen /\ if b : bool then out = [] else reports out /\ ~ listed (h :: hs)).
  { intros w msg Hn. destruct (failure_spec msg false (set_world w r) seen Hs) as (r' & Hf & Hg). exists false, r', [Failure msg].
    split; [done|]. split; [by destruct Hg|]. split; [eexists; by left|done]. }
  destruct (BucketExists h (world r)) as [[[|]|e|e] w] eqn:He; cbn [fst snd];
    try (apply Hfail; intros Hl; destruct (Hl h ltac:(by left) (world r)) as [Hl' _]; by rewrite He in Hl').
  erewrite Mbind by apply ask_eq. cbn [world set_world].
  destruct (BucketSize h w) as [[size|e|e] w'] eqn:Hz; cbn [fst snd];
    try (apply Hfail; intros Hl; destruct (Hl h ltac:(by left) w) as [_ [? Hl']]; by rewrite Hz in Hl').
  erewrite Mbind by reflexivity.
  match goal with |- context [check_buckets hs ?r1] => destruct (IH r1 seen Hs) as (b & r' & out & H1 & Hg & Ho) end.
  exists b, r', out. split; [done|]. split; [by destruct Hg|]. destruct b; [done|]. destruct Ho as [Hr Hn]. split; [done|].
  intros Hl. apply Hn. intros h' Hin. apply Hl. by right.
Qed.

(** A reader that has not streamed yet. *)
Definition fresh (r : Reader) : Prop :=
  tempStore r = Some ∅ /\ readChan r = [] /\ closed r = false /\ done r = false.

Definition has_hashes (r : Reader) : res (list (list Z)) := bucket_hashes (HAS_hash_strings (has r)).

Lemma streamBuckets_spec fuel r : fresh r ->
  (forall hs, has_hashes r = Ok hs -> Forall (fun h => (S (length (archive h)) < fuel)%nat) hs) ->
  exists r', streamBuckets sha256 fuel r = Ok (tt, r') /\ closed r' = true /\
  ((exists hs files ess new, has_hashes r = Ok hs /\ all_streamed hs ∅ files ess new /\ readChan r' = Entry <$> new) \/
   reports (readChan r') /\ ~ (exists hs, has_hashes r = Ok hs /\ listed hs /\ all_fine hs ∅)).
Proof.
  intros (Hs & Hc & Hcl & Hd) Hf. unfold streamBuckets.
  assert (Hbody : exists r1 out seen', stream_body sha256 fuel r = Ok (tt, r1) /\ extends r r1 out seen' /\
    ((exists hs files ess new, has_hashes r = Ok hs /\ all_streamed hs ∅ files ess new /\ out = Entry <$> new) \/
     reports out /\ ~ (exists hs, has_hashes r = Ok hs /\ listed hs /\ all_fine hs ∅))).
  { unfold stream_body. unfold has_hashes in *.
    assert (Hfail : forall e, (forall hs, bucket_hashes (HAS_hash_strings (has r)) <> Ok hs) ->
      exists r1 out seen', failure e tt r = Ok (tt, r1) /\ extends r r1 out seen' /\
      ((exists hs files ess new, bucket_hashes (HAS_hash_strings (has r)) = Ok hs /\ all_streamed hs ∅ files ess new /\ out = Entry <$> new) \/
       reports out /\ ~ (exists hs, bucket_hashes (HAS_hash_strings (has r)) = Ok hs /\ listed hs /\ all_fine hs ∅))).
    { intros e Hn. destruct (failure_spec e tt r ∅ Hs) as (r1 & H1 & Hg). exists r1, [Failure e], ∅. split; [done|].
      split; [by apply grows_extends|]. right. split; [eexists; by left|]. intros (hs & Hh & _). by apply (Hn hs). }
    destruct (bucket_hashes (HAS_hash_strings (has r))) as [hs|e|e]; [|by apply Hfail..]. clear Hfail.
    destruct (check_buckets_spec hs r ∅ Hs) as (b & r1 & out1 & H1 & Hg1 & Ho1). rewrite (Mbind _ _ _ _ _ H1). destruct b.
    - destruct (stream_all_spec fuel hs (Hf hs eq_refl) r1 ∅ (g_store _ _ _ _ Hg1)) as (r2 & out2 & seen2 & H2 & Hx2 & Ho2). subst out1.
      exists r2, out2, seen2. split; [done|]. split; [apply (extends_trans _ r1 _ [] out2 ∅); [by apply grows_extends|done]|].
      destruct Ho2 as [(files & ess & new & Ha & Ho)|[Hd2|[Hr Hn]]].
      + left. by exists hs, files, ess, new.
      + by rewrite (g_done _ _ _ _ Hg1), Hd in Hd2.
      + right. split; [done|]. intros (hs' & [= <-] & _ & ?). done.
    - exists r1, out1, ∅. split; [done|]. split; [by apply grows_extends|]. right. destruct Ho1 as [Hr Hn]. split; [done|].
      intros (hs' & [= <-] & ? & _). done. }
  destruct Hbody as (r1 & out & seen' & H1 & Hx & Ho). rewrite (Mbind _ _ _ _ _ H1).
  do 4 (erewrite Mbind by reflexivity). eexists. split; [reflexivity|]. cbn [closed readChan]. split; [done|].
  rewrite (x_chan _ _ _ _ Hx), Hc. cbn [app]. done.
Qed.

(** ** What the consumer reads *)

Lemma read_all_EOF : forall fuel (r : Reader) l, read_all fuel r = (l, EOF) -> exists es, readChan r = Entry <$> es /\ omap Compactor.Post l = es.
Proof.
  induction fuel as [|fuel IH]; intros r l H; [done|]. cbn [read_all] in H. unfold Read in H.
  destruct (readChan r) as [|[e|e] rest] eqn:Hr.
  - destruct (closed r); [|done]. injection H as <-. by exists [].
  - destruct (Entry_LedgerKey e) as [k|err|err] eqn:Hk; [| |by destruct e as [? [] ?]].
    + destruct (read_all fuel _) as [l' er] eqn:Hl. injection H as <- ->. apply IH in Hl as (es & Hes & <-). cbn [readChan] in Hes.
      exists (e :: omap Compactor.Post l'). cbn. by rewrite Hes.
    + injection H as _ H. by vm_compute in H.
  - injection H as _ H. by vm_compute in H.
Qed.

Lemma read_all_entries : forall fuel (r : Reader) es, (length es < fuel)%nat -> closed r = true -> readChan r = Entry <$> es ->
  Forall (fun e => is_ok (Entry_LedgerKey e) = true) es -> exists l, read_all fuel r = (l, EOF) /\ omap Compactor.Post l = es.
Proof.
  induction fuel as [|fuel IH]; intros r es Hf Hc Hr Hk; [lia|]. cbn [read_all]. unfold Read. rewrite Hr.
  destruct Hk as [|e es He Hk]; cbn [fmap list_fmap].
  - rewrite Hc. by exists [].
  - destruct (Entry_LedgerKey e) as [k| |]; [|done..].
    match goal with |- context [read_all fuel ?r1] => destruct (IH r1 es) as (l & Hl & Hp) end; [cbn in Hf; lia|done|done|done|].
    rewrite Hl. eexists. split; [reflexivity|]. cbn. by rewrite Hp.
Qed.

Lemma buckets_run_keyed ess : forall seen (new : list (LedgerEntry ScVal Body)), buckets_run seen ess = Some new ->
  Forall (fun e => is_ok (Entry_LedgerKey e) = true) new.
Proof.
  assert (Hstep : forall oldest version n seen b v s (o : list (LedgerEntry ScVal Body)), entry_step oldest version n seen b = Some (v, s, o) ->
    Forall (fun e => is_ok (Entry_LedgerKey e) = true) o).
  { intros oldest version n seen [x|x|k|m|t] v s o; cbn; try done; [| |by intros [= _ _ <-]; constructor|by destruct (n =? 0); [|done]; intros [= _ _ <-]; constructor];
      (destruct (Entry_LedgerKey x) as [k| |] eqn:Hk; [|done..]); repeat case_match; try done; intros [= _ _ <-];
      repeat constructor; by rewrite Hk. }
  assert (Hbucket : forall oldest b version n seen v s (o : list (LedgerEntry ScVal Body)), bucket_run oldest version n seen b = Some (v, s, o) ->
    Forall (fun e => is_ok (Entry_LedgerKey e) = true) o).
  { intros oldest b. induction b as [|e b IH]; intros version n seen v s o H; cbn [bucket_run] in H; [injection H as _ _ <-; constructor|].
    apply bind_Some in H as ([[v1 s1] o1] & H1 & H). apply bind_Some in H as ([[v2 s2] o2] & H2 & [= _ _ <-]).
    apply Forall_app. split; [by eapply Hstep|by eapply IH]. }
  induction ess as [|es ess IH]; intros seen new H; cbn [buckets_run] in H; [injection H as <-; constructor|].
  apply bind_Some in H as ([[v1 s1] o1] & H1 & H). apply bind_Some in H as (o2 & H2 & [= <-]).
  apply Forall_app. split; [by eapply Hbucket|by eapply IH].
Qed.

(** What a consumer that reads to [io.EOF] has read. *)
Lemma stream_read (fuel : nat) (r : Reader) (Hfresh : fresh r)
    (Hfuel : forall hs, has_hashes r = Ok hs -> Forall (fun h => (S (length (archive h)) < fuel)%nat) hs) :
  exists r', streamBuckets sha256 fuel r = Ok (tt, r') /\ closed r' = true /\
    forall l, read_all (S (length (readChan r'))) r' = (l, EOF) ->
      exists hs files ess, has_hashes r = Ok hs /\
        Forall2 (fun h f => sha256 f = h) hs files /\
        Forall2 (fun f es => records decode_entry f = Some es /\ bucket_rules es = true) files ess /\
        (cap20 ess -> NoDup (key_of <$> omap Compactor.Post l) /\ keyed_map (omap Compactor.Post l) = state_of ess).
Proof.
  destruct (streamBuckets_spec fuel r Hfresh Hfuel) as (r' & H1 & H2 & Ho). exists r'. split; [done|]. split; [done|].
  intros l Hl. apply read_all_EOF in Hl as (es & Hes & Hp). rewrite Hp.
  destruct Ho as [(hs & files & ess & new & Hh & Ha & Hn)|[[e He] _]]; cycle 1.
  { rewrite Hes in He. apply list_elem_of_fmap in He as (? & [=] & _). }
  apply all_streamed_run in Ha as (Hf & Hr & Hrun). exists hs, files, ess. split; [done|]. split; [done|].
  assert (Heq : es = new).
  { rewrite Hes in Hn. clear -Hn. revert new Hn. induction es as [|x es IH]; intros [|y new] H; try done. injection H as -> H. f_equal. by apply IH. }
  split; [|intros Hc; rewrite Heq; by apply newest_first_state].
  assert (Hrules : Forall (fun b => bucket_rules b = true) ess) by (apply (buckets_run_rules ess ∅); by rewrite Hrun).
  clear -Hr Hrules. induction Hr; [constructor|]. apply Forall_cons in Hrules as [? ?]. constructor; [done|by apply IHHr].
Qed.

(** C10: The reader of a checkpoint, for an archive whose calls may fail at any
    point and whose files may be cut short: the goroutine ends and closes its
    channel, and if the consumer reads to [io.EOF] without an error, then the
    files it was given have the hashes of the archive state, their entries obey
    the rules of buckets, and, when the bucket list follows CAP-20, it has read
    the state of the checkpoint, every entry once. *)
Theorem checkpoint_reader_sound (fuel : nat) (r : Reader) (Hfresh : fresh r)
    (Hfuel : forall hs, has_hashes r = Ok hs -> Forall (fun h => (S (length (archive h)) < fuel)%nat) hs) :
  exists r', streamBuckets sha256 fuel r = Ok (tt, r') /\ closed r' = true /\
    forall l, read_all (S (length (readChan r'))) r' = (l, EOF) ->
      exists hs files ess, has_hashes r = Ok hs /\
        Forall2 (fun h f => sha256 f = h) hs files /\
        Forall2 (fun f es => records decode_entry f = Some es /\ bucket_rules es = true) files ess /\
        (cap20 ess -> NoDup (key_of <$> omap Compactor.Post l) /\ keyed_map (omap Compactor.Post l) = state_of ess).
Proof. by apply stream_read. Qed.

(** C14: And for an archive that does not fail, with files that have the hashes of
    the archive state and entries that obey the rules, the consumer does read the
    state of the checkpoint to the end. *)
Theorem checkpoint_reader_complete (fuel : nat) (r : Reader) (hs : list (list Z)) (ess : list (list BucketEntry))
    (Hfresh : fresh r) (Hhs : has_hashes r = Ok hs) (Hfuel : Forall (fun h => (S (length (archive h)) < fuel)%nat) hs)
    (Hlisted : listed hs)
    (Hfiles : Forall2 (fun h es => reliable h /\ sha256 (archive h) = h /\
                 records decode_entry (archive h) = Some es /\ bucket_rules es = true) hs ess)
    (Hcap : cap20 ess) :
  exists r' l, streamBuckets sha256 fuel r = Ok (tt, r') /\ read_all (S (length (readChan r'))) r' = (l, EOF) /\
    NoDup (key_of <$> omap Compactor.Post l) /\ keyed_map (omap Compactor.Post l) = state_of ess.
Proof.
  assert (Hrun : is_Some (buckets_run ∅ ess)).
  { apply buckets_run_rules. clear -Hfiles. induction Hfiles as [|? ? ? ? (_ & _ & _ & ?)]; by constructor. }
  assert (Hfiles' : Forall2 (fun h es => reliable h /\ sha256 (archive h) = h /\ records decode_entry (archive h) = Some es) hs ess).
  { eapply Forall2_impl; [exact Hfiles|]. naive_solver. }
  destruct (streamBuckets_spec fuel r Hfresh) as (r' & H1 & H2 & Ho).
  { intros hs' Hh. rewrite Hhs in Hh. by injection Hh as <-. }
  destruct Ho as [(hs' & files & ess' & new & Hh & Ha & Hn)|[_ []]]; cycle 1.
  { exists hs. split; [done|]. split; [done|]. by exists ess. }
  rewrite Hhs in Hh. injection Hh as <-.
  assert (Hess : ess' = ess).
  { clear -Ha Hfiles'. induction Ha as [|h hs seen file files es ess0 seen' new rest [_ Hfull Hrec _] Ha IH] in ess, Hfiles' |- *.
    - by inversion Hfiles'.
    - inversion Hfiles' as [|? es1 ? ess1 (Hrel & _ & Hrec1) Hrest]; subst. rewrite (Hfull Hrel) in Hrec. f_equal; [congruence|].
      by apply IH. }
  subst ess'. apply all_streamed_run in Ha as (_ & _ & Hr).
  destruct (read_all_entries (S (length (readChan r'))) r' new) as (l & Hl & Hp); [rewrite Hn, length_fmap; lia|done|done|by eapply buckets_run_keyed|].
  exists r', l. split; [done|]. split; [done|]. rewrite Hp. by apply newest_first_state.
Qed.

End Reader.

(** ** Examples *)

(** Entries that are offers, written as two numbers, and a function in the role of
    the hash. *)
#[local] Instance toy_decoders : EntryDecoders bool (fun _ => Z) := {
  LedgerEntry_DecodeFrom _ d := '(id, d) ← DecodeUint d; '(amount, d) ← DecodeUint d;
    Ok (mkLedgerEntry 1 (Offer account0 id amount) LedgerEntryExtV0, d);
  LedgerKey_DecodeFrom _ d := '(id, d) ← DecodeUint d; Ok (KOffer account0 id, d)
}.

Definition toy_sha256 (l : list Z) : list Z := take 32 (l ++ replicate 32 1).

Definition toy_record (l : list Z) : list Z := EncodeUint (Z.of_nat (length l)) ++ l.
Definition toy_live (id amount : Z) : list Z := toy_record (EncodeUint 0 ++ EncodeUint id ++ EncodeUint amount).
Definition toy_dead (id : Z) : list Z := toy_record (EncodeUint 1 ++ EncodeUint id).

(** A newer bucket that changes offer 1 and deletes offer 2, and an older one. *)
Definition newer : list Z := toy_live 1 10 ++ toy_dead 2.
Definition older : list Z := toy_live 1 5 ++ toy_live 2 6 ++ toy_live 3 7.

Definition toy_archive (h : list Z) : list Z := if bool_decide (h = toy_sha256 newer) then newer else older.

Definition toy_has : HistoryArchiveState :=
  mkHAS 63 [mkLevel (Hash_String (toy_sha256 newer)) (Hash_String (toy_sha256 older))].

Definition toy_env (open : list Z -> nat -> res source * nat) : Env nat := {|
  ctx_done w := (false, w);
  close_called w := (false, w);
  BucketExists _ w := (Ok true, w);
  BucketSize _ w := (Ok 100, w);
  GetXdrStreamForHash := open;
  GetCheckpointManager _ := Checkpoints.mkCheckpointManager 64;
  GetCheckpointHAS _ w := (Ok toy_has, w)
|}.

(** An archive that does not fail. *)
Definition good_env : Env nat := toy_env (fun h w => (Ok (mkSource (toy_archive h) None None), w)).

Definition toy_reader : Reader bool (fun _ => Z) nat := mkReader 0%nat toy_has 63 (Some ∅) [] false false 0.

Definition toy_entries (file : list Z) : list (BucketEntry bool (fun _ => Z)) := default [] (records decode_entry file).

Lemma toy_hashes : has_hashes toy_reader = Ok [toy_sha256 newer; toy_sha256 older].
Proof. vm_compute. reflexivity. Qed.

Lemma toy_fuel hs : has_hashes toy_reader = Ok hs -> Forall (fun h => (S (length (toy_archive h)) < 100)%nat) hs.
Proof. rewrite toy_hashes. intros [= <-]. repeat constructor; apply Nat.ltb_lt; vm_compute; reflexivity. Qed.

Lemma toy_cap20 : cap20 [toy_entries newer; toy_entries older].
Proof.
  assert (Hu : forall b : list (BucketEntry bool (fun _ => Z)), bool_decide (NoDup (omap bucket_key b)) = true -> unique_keys b)
    by (intros b H; by apply bool_decide_eq_true in H).
  assert (Hi : forall (b : list (BucketEntry bool (fun _ => Z))) x, forallb (fun e => match e with InitEntry _ => false | _ => true end) b = true ->
    InitEntry x ∈ b -> False).
  { intros b x H Hin. rewrite forallb_forall in H. apply list_elem_of_In in Hin. by specialize (H _ Hin). }
  split; [apply Hu; vm_compute; reflexivity|]. split; [intros x Hx; exfalso; apply (Hi _ x) in Hx; [done|vm_compute; reflexivity]|].
  split; [apply Hu; vm_compute; reflexivity|]. split; [intros x Hx; exfalso; apply (Hi _ x) in Hx; [done|vm_compute; reflexivity]|done].
Qed.

Lemma good_consistent : @consistent nat good_env toy_archive.
Proof. intros h w s w' [= <- <-]. done. Qed.

Lemma checkpoint_reader_sound_witness : exists r', streamBuckets (EN := good_env) toy_sha256 100 toy_reader = Ok (tt, r') /\ closed r' = true.
Proof.
  destruct (checkpoint_reader_sound (EN := good_env) toy_sha256 toy_archive good_consistent (fun _ => eq_refl) 100 toy_reader
    (conj eq_refl (conj eq_refl (conj eq_refl eq_refl))) toy_fuel) as (r' & H1 & H2 & _).
  exists r'. split; [exact H1|exact H2].
Defined.

Lemma checkpoint_reader_complete_witness : exists r' l,
  streamBuckets (EN := good_env) toy_sha256 100 toy_reader = Ok (tt, r') /\
  read_all (S (length (readChan r'))) r' = (l, EOF) /\
  keyed_map (omap Compactor.Post l) = state_of [toy_entries newer; toy_entries older].
Proof.
  destruct (checkpoint_reader_complete (EN := good_env) toy_sha256 toy_archive good_consistent (fun _ => eq_refl) 100 toy_reader
    [toy_sha256 newer; toy_sha256 older] [toy_entries newer; toy_entries older]) as (r' & l & H1 & H2 & _ & H3).
  - repeat split.
  - apply toy_hashes.
  - apply toy_fuel, toy_hashes.
  - intros h _ w. split; [done|]. by exists 100.
  - repeat constructor; vm_compute; reflexivity.
  - apply toy_cap20.
  - exists r', l. split; [exact H1|]. split; [exact H2|exact H3].
Defined.

(** An archive that first delivers a different first record and then fails, and
    delivers the right file when it is asked again. *)
Definition forged : list Z := toy_live 1 999.
Definition flaky_env : Env nat := toy_env (fun h w =>
  (Ok (if bool_decide (w = 0%nat) then mkSource forged (Some "connection reset") None else mkSource (toy_archive h) None None), S w)).

Definition forged_entry : LedgerEntry bool (fun _ => Z) := mkLedgerEntry 1 (Offer account0 1 999) LedgerEntryExtV0.
Definition entries_read (l : list (Compactor.Change bool (fun _ => Z))) : list (LedgerEntry bool (fun _ => Z)) := omap Compactor.Post l.

(** The hash of a bucket does not protect what was read before a retry.  Here
    the first stream of the newer bucket begins with a forged record and then
    fails; the stream that replaces it is the right file, whose hash is the
    expected one.  The consumer reads the forged entry, and no error. *)
Example retry_bypasses_hash :
  toy_sha256 newer <> toy_sha256 (forged ++ toy_dead 2) /\
  exists r' l, streamBuckets (EN := flaky_env) toy_sha256 100 toy_reader = Ok (tt, r') /\
    read_all (S (length (readChan r'))) r' = (l, EOF) /\
    forged_entry ∈ entries_read l /\
    keyed_map (entries_read l) <> state_of [toy_entries newer; toy_entries older].
Proof.
  split; [vm_compute; discriminate|].
  eexists _, _. split; [vm_compute; reflexivity|]. split; [vm_compute; reflexivity|]. split; [left|].
  intros H. apply (f_equal (fun m => (fun e => EntryData e) <$> m !! ledgerKeyCompressEncodeTo (KOffer account0 1 : LedgerKey bool))) in H.
  vm_compute in H. discriminate H.
Qed.

End CheckpointProofs.
