(* ===== verification/CheckpointVerify.v ===== *)
(** * Verifying a storage against a checkpoint

    The reader of checkpoints and the state verifier together, as aurora runs them:
    what the goroutine sent is the input of the verifier.  When the streaming and
    all calls of the verifier succeed, the storage of the application is the state
    of the checkpoint. *)
From S2P Require Import Prelude Strkey Xdr LedgerKeys XdrCodec Muxed Normalize XdrStreams Compactor StateVerifier CheckpointReader CheckpointSpec CheckpointProofs.
Import LedgerKeys XdrCodec XdrStreams CheckpointReader CheckpointSpec CheckpointProofs.
Local Open Scope Z_scope.

Module CheckpointVerify.

Section Together.
Context {XE : XdrEncoder} {XL : XdrLaws} {XC : XdrCodec} {ScVal Predicate : Type} {Rest : LedgerEntryType -> Type}.
Context {SO : ScValOps ScVal} {SL : ScValLaws ScVal}.
Abbreviation Body := (Normalize.Body Predicate Rest).
Context {DE : EntryDecoders ScVal Body} {EE : StateVerifier.EntryEncoder (ScVal := ScVal) (Predicate := Predicate) (Rest := Rest)}.
Context (sha256 : list Z -> list Z) {W : Type} {EN : Env W}.
Abbreviation LedgerEntry := (LedgerEntry ScVal Body).

(** Decoded entries have keys whose arrays and numbers are in the ranges of their types. *)
Definition decoders_wf : Prop := forall maxDepth d (e : LedgerEntry) rest, LedgerEntry_DecodeFrom maxDepth d = Ok (e, rest) ->
  exists k, Entry_LedgerKey e = Ok k /\ key_wf k.

Context (Hdec : decoders_wf).

Lemma records_decoded {A} (decode : reader A) file l a : records decode file = Some l -> a ∈ l -> exists b rest, decode b = Ok (a, rest).
Proof.
  intros Hr Hin. apply records_reads in Hr as (p & Hr & _). assert (Hp : (0 <= length file)%nat) by lia. revert Hp.
  induction Hr as [|p0 x p1 l p2 H Hr IH]; intros Hp; [by apply elem_of_nil in Hin|].
  pose proof (record_at_progress _ _ _ _ _ H Hp). apply elem_of_cons in Hin as [->|Hin]; [|apply IH; [done|lia]].
  apply record_at_Record in H as (n & _ & _ & _ & _ & Hd); [|done]. unfold DecodeBytes in Hd.
  destruct (decode _) as [[a' rest]| |] eqn:Hdec'; [|done..]. injection Hd as ->. eauto.
Qed.

Lemma decode_entry_wf b (e : LedgerEntry) rest be : decode_entry b = Ok (be, rest) -> be = LiveEntry e \/ be = InitEntry e ->
  exists k, Entry_LedgerKey e = Ok k /\ key_wf k.
Proof.
  unfold decode_entry, BucketEntry_DecodeFrom. destruct MaxDepth as [|depth]; [done|]. intros H Hbe.
  apply bind_Ok in H as ([t d] & _ & H).
  assert (Hl : forall c : LedgerEntry -> BucketEntry ScVal Body, (forall x y, c x = LiveEntry y \/ c x = InitEntry y -> x = y) ->
    ('(e, d) ← Wrap (LedgerEntry_DecodeFrom depth d) "decoding LedgerEntry"; Ok (c e, d)) = Ok (be, rest) ->
    exists k, Entry_LedgerKey e = Ok k /\ key_wf k).
  { intros c Hc Hw. apply bind_Ok in Hw as ([x d'] & Hx & [= <- <-]). apply Hc in Hbe as ->.
    destruct (LedgerEntry_DecodeFrom depth d) as [[y d'']| |] eqn:Hy; [|done..]. injection Hx as -> ->. by apply Hdec in Hy. }
  repeat case_match; try done.
  - apply (Hl LiveEntry); [by intros x y [[= ->]|]|done].
  - apply (Hl InitEntry); [by intros x y [|[= ->]]|done].
  - apply bind_Ok in H as ([? ?] & _ & [= <- <-]). by destruct Hbe.
  - apply bind_Ok in H as ([? ?] & _ & [= <- <-]). by destruct Hbe.
Qed.

(** Entries of the state come from a bucket. *)
Lemma latest_elem k buckets (x : BucketEntry ScVal Body) : latest k buckets = Some x -> exists b, b ∈ buckets /\ x ∈ b.
Proof.
  induction buckets as [|b older IH]; cbn [latest]; [done|]. destruct (lookup_bucket k b) as [y|] eqn:Hy.
  - intros [= <-]. apply lookup_bucket_Some in Hy as [Hy _]. exists b. split; [left|done].
  - intros H. destruct (IH H) as (b' & ? & ?). exists b'. split; [by right|done].
Qed.

Lemma state_keys_wf files ess k (e : LedgerEntry) : Forall2 (fun f es => records decode_entry f = Some es /\ bucket_rules es = true) files ess ->
  cap20 ess -> state_of ess !! k = Some e -> exists key, Entry_LedgerKey e = Ok key /\ key_wf key.
Proof.
  intros Hf Hc Hs. rewrite state_of_latest in Hs by done. destruct (latest k ess) as [x|] eqn:Hl; [|done].
  apply latest_elem in Hl as (b & Hb & Hx).
  assert (Hrec : exists f, records decode_entry f = Some b).
  { clear -Hf Hb. induction Hf as [|f es files ess [Hr _] _ IH]; [by apply elem_of_nil in Hb|].
    apply elem_of_cons in Hb as [->|Hb]; [eauto|by apply IH]. }
  destruct Hrec as [f Hrec]. destruct (records_decoded _ _ _ _ Hrec Hx) as (bytes & rest & Hd).
  eapply decode_entry_wf; [exact Hd|]. destruct x as [y|y|d|m|t]; try done; injection Hs as ->; [by left|by right].
Qed.

(** Entries with different compressed keys have different keys. *)
Lemma full_keys_distinct (es : list LedgerEntry) : (forall e, e ∈ es -> exists k, Entry_LedgerKey e = Ok k /\ key_wf k) ->
  NoDup (key_of <$> es) -> NoDup (StateVerifier.key_string <$> es).
Proof.
  induction es as [|e es IH]; intros Hw Hn; cbn; [constructor|]. cbn in Hn. apply NoDup_cons in Hn as [Hni Hn]. constructor.
  - intros Hin. apply list_elem_of_fmap in Hin as (e' & Hk & He'). apply Hni. apply list_elem_of_fmap. exists e'. split; [|done].
    destruct (Hw e) as (k & H1 & H2); [left|]. destruct (Hw e') as (k' & H1' & H2'); [by right|].
    unfold StateVerifier.key_string, key_of in *. rewrite H1, H1' in *. by apply EncodeTo_inj in Hk as ->.
  - apply IH; [|done]. intros x Hx. apply Hw. by right.
Qed.

Lemma NoDup_filter_map {A B} (f : A -> B) (p : A -> bool) l : NoDup (f <$> l) -> NoDup (f <$> List.filter p l).
Proof.
  induction l as [|a l IH]; cbn; [done|]. intros [Hni Hn]%NoDup_cons. destruct (p a); cbn; [|by apply IH].
  constructor; [|by apply IH]. intros Hin. apply Hni. apply list_elem_of_fmap in Hin as (x & Hx & Hin).
  apply list_elem_of_fmap. exists x. split; [done|]. apply list_elem_of_In in Hin. apply filter_In in Hin as [Hin _]. by apply list_elem_of_In.
Qed.

(** What the verifier is given: the changes read, and what ended the reading. *)
Definition reader_of (r : Reader ScVal Body W) : Compactor.ChangeReader :=
  let '(l, e) := read_all (S (length (readChan r))) r in Compactor.mkChangeReader l e.

(** The entries of a map of entries by their keys are in the map. *)
Lemma keyed_map_elem (es : list LedgerEntry) e : NoDup (key_of <$> es) -> e ∈ es -> keyed_map es !! key_of e = Some e.
Proof.
  intros Hn He. unfold keyed_map. apply elem_of_list_to_map; [by rewrite <- list_fmap_compose|].
  apply list_elem_of_fmap. by exists e.
Qed.

(** What was read of a checkpoint has distinct keys for the verifier. *)
Lemma read_keys_distinct tf files ess (l : list (Compactor.Change ScVal Body)) :
  Forall2 (fun f es => records decode_entry f = Some es /\ bucket_rules es = true) files ess -> cap20 ess ->
  NoDup (key_of <$> omap Compactor.Post l) -> keyed_map (omap Compactor.Post l) = state_of ess ->
  NoDup (StateVerifier.key_string <$> StateVerifier.kept tf l).
Proof.
  intros Hf Hc Hn Hm. unfold StateVerifier.kept. apply NoDup_filter_map, full_keys_distinct; [|done].
  intros e He. apply (state_keys_wf files ess (key_of e)); [done|done|]. rewrite <- Hm. by apply keyed_map_elem.
Qed.

(** C9: For an archive that may fail at any call but does not contradict itself:
    the streaming ends; and if the verifier is run on what was streamed, with any
    sequence of calls that writes only entries of the storage, and reports no
    error, then the files that were read have the hashes of the archive state, and
    the storage is the state of those buckets: its entries correspond one to one
    to the entries of the state that are not ignored, with the same keys and the
    same encodings up to normalization and transformation. *)
Theorem verified_storage_is_checkpoint (archive : list Z -> list Z) (tf : option StateVerifier.TransformLedgerEntryFunction)
    (fuel : nat) (r : Reader ScVal Body W) (calls : list StateVerifier.call) (storage : list LedgerEntry)
    (Hcons : consistent archive) (Hopen : not_closed (W := W)) (Hfresh : fresh r)
    (Hfuel : forall hs, has_hashes r = Ok hs -> Forall (fun h => (S (length (archive h)) < fuel)%nat) hs)
    (Hstored : forall w, w ∈ StateVerifier.written calls -> w ∈ storage) :
  exists r', streamBuckets sha256 fuel r = Ok (tt, r') /\
    forall v, StateVerifier.run calls (StateVerifier.NewStateVerifier (reader_of r') tf) = Ok (None, v) ->
      StateVerifier.Verify v (Z.of_nat (length storage)) = None ->
      exists hs files ess, has_hashes r = Ok hs /\ Forall2 (fun h f => sha256 f = h) hs files /\
        Forall2 (fun f es => records decode_entry f = Some es /\ bucket_rules es = true) files ess /\
        (cap20 ess -> exists entries ns ms, keyed_map entries = state_of ess /\ NoDup (key_of <$> entries) /\
          StateVerifier.normals (List.filter (fun e => negb (match tf with Some f => (f e).1 | None => false end)) entries) ns /\
          ms ≡ₚ ns /\ Forall2 (StateVerifier.matches tf) storage ms).
Proof.
  destruct (stream_read sha256 archive Hcons Hopen fuel r Hfresh Hfuel) as (r' & H1 & _ & Hread).
  exists r'. split; [done|]. intros v Hrun Hverify. unfold reader_of in Hrun.
  destruct (read_all (S (length (readChan r'))) r') as [l e] eqn:Hl.
  pose proof (StateVerifier.Verify_Ok _ _ Hverify) as (_ & Hd & _).
  destruct (StateVerifier.run_reading_done tf calls (StateVerifier.NewStateVerifier (Compactor.mkChangeReader l e) tf) v eq_refl Hrun) as [_ He].
  destruct (He Hd) as [|He']; [done|]. cbn in He'. subst e.
  destruct (Hread l eq_refl) as (hs & files & ess & Hh & Hs & Hr & Hstate). exists hs, files, ess. do 3 (split; [done|]).
  intros Hc. destruct (Hstate Hc) as [Hn Hm].
  destruct (StateVerifier.verified tf (Compactor.mkChangeReader l EOF) calls storage v) as (_ & ns & ms & Hns & Hms & Hall); [|done..|].
  - by apply (read_keys_distinct tf files ess).
  - by exists (omap Compactor.Post l), ns, ms.
Qed.

End Together.

(** ** An example: the buckets of two offers, and the storage that holds them *)

Abbreviation VBody := StateVerifier.VBody.

#[local] Instance offer_decoders : EntryDecoders bool VBody := {
  LedgerEntry_DecodeFrom _ d := '(id, d) ← DecodeUint d; '(amount, d) ← DecodeUint d;
    Ok (mkLedgerEntry 1 (Offer account0 id (amount : VBody LedgerEntryTypeOffer)) LedgerEntryExtV0, d);
  LedgerKey_DecodeFrom _ d := '(id, d) ← DecodeUint d; Ok (KOffer account0 id, d)
}.

Lemma offer_decoders_wf : decoders_wf (ScVal := bool) (Predicate := unit) (Rest := fun _ => Z).
Proof.
  intros depth d e rest H. cbn [LedgerEntry_DecodeFrom offer_decoders] in H. apply bind_Ok in H as ([id d1] & _ & H).
  apply bind_Ok in H as ([amount d2] & _ & [= <- _]). eexists. split; [reflexivity|]. split; [apply account0_wf|].
  apply swrap_range. lia.
Qed.

Definition offers_reader : Reader bool VBody nat := mkReader 0%nat toy_has 63 (Some ∅) [] false false 0.
Definition offers_storage : list (LedgerEntry bool VBody) := [StateVerifier.voffer 3 7; StateVerifier.voffer 1 10].
Definition offers_calls : list (StateVerifier.call (ScVal := bool) (Predicate := unit) (Rest := fun _ => Z)) :=
  [StateVerifier.Get 5; StateVerifier.Put (StateVerifier.voffer 3 7); StateVerifier.Put (StateVerifier.voffer 1 10)].

(** The calls and [Verify] report no error on what is streamed. *)
Lemma offers_verified : exists r' v, streamBuckets (EN := good_env) toy_sha256 100 offers_reader = Ok (tt, r') /\
  StateVerifier.run offers_calls (StateVerifier.NewStateVerifier (reader_of r') None) = Ok (None, v) /\ StateVerifier.Verify v 2 = None.
Proof. eexists _, _. split; [vm_compute; reflexivity|]. split; [vm_compute; reflexivity|vm_compute; reflexivity]. Qed.

Lemma verified_storage_is_checkpoint_witness : exists r' v,
  streamBuckets (EN := good_env) toy_sha256 100 offers_reader = Ok (tt, r') /\
  StateVerifier.run offers_calls (StateVerifier.NewStateVerifier (reader_of r') None) = Ok (None, v) /\
  exists hs files, has_hashes offers_reader = Ok hs /\ Forall2 (fun h f => toy_sha256 f = h) hs files.
Proof.
  destruct offers_verified as (r' & v & H1 & H2 & H3).
  destruct (verified_storage_is_checkpoint (EN := good_env) toy_sha256 offer_decoders_wf toy_archive None 100 offers_reader offers_calls offers_storage)
    as (r1 & H1' & H).
  - exact good_consistent.
  - exact (fun _ => eq_refl).
  - exact (conj eq_refl (conj eq_refl (conj eq_refl eq_refl))).
  - intros hs Hhs. apply toy_fuel. exact Hhs.
  - intros w Hw. exact Hw.
  - pose proof (eq_trans (eq_sym H1') H1) as Heq. injection Heq as ->. destruct (H v H2 H3) as (hs & files & _ & Hh & Hf & _).
    exists r', v. split; [exact H1|]. split; [exact H2|]. exists hs, files. split; [exact Hh|exact Hf].
Defined.

End CheckpointVerify.
