(* ===== verification/HistoryDb.v ===== *)
(** * The history database of aurora

    [support/db/session.go]: a session and its transaction;
    [services/aurora/internal/db2/history]: the key-value store
    ([key_value.go]), the ledger bounds, the deletion of a range of history
    ([main.go]) and the truncation of the state tables ([ingestion.go]).

    A database call may fail.  What a failure does to an open transaction is
    PostgreSQL's behaviour: a statement that the server refuses aborts the
    transaction, every later statement of it fails and its commit rolls it
    back; a call that never reached the server leaves it as it was; a commit
    whose reply is lost may have been applied.  A [verdict] chooses, per call,
    between these; the state machine that uses the database quantifies over all
    sequences of verdicts. *)
From S2P Require Import Prelude BigRat Toid.
From Stdlib Require Import Ascii.

Local Open Scope Z_scope.

Module HistoryDb.
Import BigRat.

(** [errors.Wrap]: the text of the wrapped error follows the message. *)
Definition WrapErr (e : error) (msg : string) : error := (msg +:+ ": " +:+ e)%string.

Inductive verdict :=
| Works            (** the call is answered *)
| Fails            (** the call does not reach the server *)
| Aborts           (** the server refuses the statement *)
| Applied.         (** the reply of a commit is lost after it took effect *)

(** ** Sessions *)

Section Session.
Context {D : Type}.

Record transaction := Transaction { tx_view : D; tx_aborted : bool }.
Record session := Session { db : D; tx : option transaction }.

Definition GetTx (s : session) : option transaction := tx s.

Definition Begin (v : verdict) (s : session) : res unit * session :=
  match tx s with
  | Some _ => (Err "already in transaction", s)
  | None =>
      match v with
      | Works => (Ok tt, Session (db s) (Some (Transaction (db s) false)))
      | _ => (Err "beginx failed", s)
      end
  end.

Definition Commit (v : verdict) (s : session) : res unit * session :=
  match tx s with
  | None => (Err "not in transaction", s)
  | Some t =>
      if tx_aborted t then (Err "current transaction is aborted", Session (db s) None) else
      match v with
      | Works => (Ok tt, Session (tx_view t) None)
      | Applied => (Err "connection lost", Session (tx_view t) None)
      | _ => (Err "commit failed", Session (db s) None)
      end
  end.

Definition Rollback (s : session) : res unit * session :=
  match tx s with
  | None => (Err "not in transaction", s)
  | Some _ => (Ok tt, Session (db s) None)
  end.

(** What the statements of the session read: the transaction's own view, the
    committed data outside of a transaction. *)
Definition view (s : session) : D :=
  match tx s with Some t => tx_view t | None => db s end.

Definition in_aborted (s : session) : bool :=
  match tx s with Some t => tx_aborted t | None => false end.

Definition set_view (s : session) (d : D) : session :=
  match tx s with
  | Some t => Session (db s) (Some (Transaction d (tx_aborted t)))
  | None => Session d None
  end.

Definition abort (s : session) : session :=
  match tx s with
  | Some t => Session (db s) (Some (Transaction (tx_view t) true))
  | None => s
  end.

(** A query; [f] converts the rows, its error is not an error of the server. *)
Definition query {A} (f : D -> res A) (v : verdict) (s : session) : res A * session :=
  if in_aborted s then (Err "current transaction is aborted", s) else
  match v with
  | Works => (f (view s), s)
  | Aborts => (Err "query failed", abort s)
  | _ => (Err "query failed", s)
  end.

(** A statement that changes the data. *)
Definition exec (f : D -> D) (v : verdict) (s : session) : res unit * session :=
  if in_aborted s then (Err "current transaction is aborted", s) else
  match v with
  | Works => (Ok tt, set_view s (f (view s)))
  | Aborts => (Err "exec failed", abort s)
  | _ => (Err "exec failed", s)
  end.

End Session.
Arguments transaction : clear implicits.
Arguments session : clear implicits.

(** ** Conversions of strconv *)

(** [strconv.ParseUint(s, 10, bitSize)]. *)
Definition ParseUint (bitSize : Z) (s : string) : res Z :=
  let cs := String.list_ascii_of_string s in
  match cs with
  | [] => Err "invalid syntax"
  | _ =>
      if negb (forallb is_digit cs) then Err "invalid syntax"
      else if digits_val cs <? 2 ^ bitSize then Ok (digits_val cs)
      else Err "value out of range"
  end.

(** [strconv.ParseInt(s, 10, bitSize)]. *)
Definition ParseInt (bitSize : Z) (s : string) : res Z :=
  let signed (neg : bool) (body : string) :=
    match ParseUint 64 body with
    | Ok un =>
        let cutoff := 2 ^ (bitSize - 1) in
        if neg then (if cutoff <? un then Err "value out of range" else Ok (- un))
        else (if cutoff <=? un then Err "value out of range" else Ok un)
    | r => r
    end in
  match s with
  | String c body =>
      if ascii_dec c "-" then signed true body
      else if ascii_dec c "+" then signed false body
      else signed false s
  | EmptyString => Err "invalid syntax"
  end.

Definition FormatUint (n : Z) : string := String.string_of_list_ascii (utoa n).

Definition ParseBool (s : string) : res bool :=
  if bool_decide (s ∈ ["1"; "t"; "T"; "true"; "TRUE"; "True"]%string) then Ok true
  else if bool_decide (s ∈ ["0"; "f"; "F"; "false"; "FALSE"; "False"]%string) then Ok false
  else Err "invalid syntax".

Definition FormatBool (b : bool) : string := if b then "true" else "false".

(** ** The tables

    [St] is the content of the state tables (accounts, offers, trust lines and
    so on, with the offers and pools that are only marked as deleted), [Rows] the
    rows of the history tables that belong to one ledger. *)

Section Tables.
Context {St Rows : Type}.

Record DB := mkDB {
  key_value_store : gmap string string;
  stateTables : St;
  historyTables : gmap Z Rows
}.

Definition set_kv (m : gmap string string) (d : DB) : DB :=
  mkDB m (stateTables d) (historyTables d).
Definition set_state (s : St) (d : DB) : DB :=
  mkDB (key_value_store d) s (historyTables d).
Definition set_history (h : gmap Z Rows) (d : DB) : DB :=
  mkDB (key_value_store d) (stateTables d) h.

(** ** The key-value store *)

Definition ingestVersion : string := "exp_ingest_version".
Definition lastLedgerKey : string := "exp_ingest_last_ledger".
Definition stateInvalid : string := "exp_state_invalid".
Definition offerCompactionSequence : string := "offer_compaction_sequence".
Definition liquidityPoolCompactionSequence : string := "liquidity_pool_compaction_sequence".

(** The empty string when the key is absent. *)
Definition getValueFromStore (key : string) (d : DB) : string :=
  default "" (key_value_store d !! key).

Definition updateValueInStore (key value : string) (d : DB) : DB :=
  set_kv (<[key := value]> (key_value_store d)) d.

Definition wrap_res {A} (r : res A) (msg : string) : res A :=
  match r with Err e => Err (WrapErr e msg) | _ => r end.

Definition getIntValueFromStore (key : string) (bitSize : Z) (d : DB) : res Z :=
  let sequence := getValueFromStore key d in
  if bool_decide (sequence = "") then Ok 0
  else wrap_res (ParseInt bitSize sequence) "Error converting value".

Definition GetLastLedgerIngestNonBlocking (d : DB) : res Z :=
  let lastIngestedLedger := getValueFromStore lastLedgerKey d in
  if bool_decide (lastIngestedLedger = "") then Ok 0
  else wrap_res (ParseUint 32 lastIngestedLedger) "Error converting lastIngestedLedger value".

Definition GetLastLedgerIngest (d : DB) : res Z :=
  let lastIngestedLedger := getValueFromStore lastLedgerKey d in
  if bool_decide (lastIngestedLedger = "") then
    Err ("`" +:+ ingestVersion +:+ "` key cannot be found in the key value store")%string
  else wrap_res (ParseUint 32 lastIngestedLedger) "Error converting lastIngestedLedger value".

Definition UpdateLastLedgerIngest (ledgerSequence : Z) : DB -> DB :=
  updateValueInStore lastLedgerKey (FormatUint ledgerSequence).

Definition GetIngestVersion (d : DB) : res Z :=
  wrap_res (getIntValueFromStore ingestVersion 32 d) "Error converting sequence value".

Definition UpdateIngestVersion (version : Z) : DB -> DB :=
  updateValueInStore ingestVersion (FormatUint (to_uint64 version)).

Definition GetExpStateInvalid (d : DB) : res bool :=
  let invalid := getValueFromStore stateInvalid d in
  if bool_decide (invalid = "") then Ok false
  else wrap_res (ParseBool invalid) "Error converting invalid value".

Definition UpdateExpStateInvalid (val : bool) : DB -> DB :=
  updateValueInStore stateInvalid (FormatBool val).

Definition GetOfferCompactionSequence (d : DB) : res Z :=
  match wrap_res (getIntValueFromStore offerCompactionSequence 32 d) "Error converting sequence value" with
  | Ok parsed => Ok (to_uint32 parsed)
  | r => r
  end.

Definition GetLiquidityPoolCompactionSequence (d : DB) : res Z :=
  match wrap_res (getIntValueFromStore liquidityPoolCompactionSequence 32 d) "Error converting sequence value" with
  | Ok parsed => Ok (to_uint32 parsed)
  | r => r
  end.

Definition UpdateOfferCompactionSequence (sequence : Z) : DB -> DB :=
  updateValueInStore offerCompactionSequence (FormatUint sequence).

Definition UpdateLiquidityPoolCompactionSequence (sequence : Z) : DB -> DB :=
  updateValueInStore liquidityPoolCompactionSequence (FormatUint sequence).

(** [CompactOffers] and [CompactLiquidityPools] record here how far the rows that
    are marked as deleted were removed; the other keys belong to the ingestion. *)
Definition compaction_keys : list string := [offerCompactionSequence; liquidityPoolCompactionSequence].

Definition same_ingestion_keys (d d' : DB) : Prop :=
  forall key, key ∉ compaction_keys -> key_value_store d' !! key = key_value_store d !! key.

(** ** History tables *)

(** [SELECT COALESCE(MAX(sequence), 0) FROM history_ledgers]. *)
Definition LatestLedger (d : DB) : Z :=
  map_fold (fun seq _ acc => Z.max seq acc) 0 (historyTables d).

(** [SELECT COALESCE(MIN(sequence), 0) FROM history_ledgers]. *)
Definition ElderLedger (d : DB) : Z :=
  default 0 (map_fold (fun seq _ acc =>
    Some (match acc with Some m => Z.min seq m | None => seq end)) None (historyTables d)).

Definition GetLatestHistoryLedger (d : DB) : res Z := Ok (LatestLedger d).

(** The rows of ledger [seq] have ids from [toid.New(seq, 0, 0)], the id of the
    ledger itself, up to the id of the next ledger. *)
Definition ledger_id (seq : Z) : Z := Toid.value (Toid.New seq 0 0).

(** [DELETE ... WHERE id >= start AND id < end] on every history table. *)
Definition DeleteRangeAll (start end_ : Z) (d : DB) : DB :=
  set_history (filter (fun p => ~ (start <= ledger_id p.1 < end_)) (historyTables d)) d.

End Tables.
Arguments DB : clear implicits.

(** ** Conversions round trip *)

Lemma list_ascii_of_string_of l :
  String.list_ascii_of_string (String.string_of_list_ascii l) = l.
Proof. induction l; simpl; congruence. Qed.

Lemma FormatUint_cons n : exists c body, FormatUint n = String c body /\ is_digit c = true.
Proof.
  unfold FormatUint. pose proof (utoa_digits n) as Hd. pose proof (utoa_nonempty n) as Hne.
  destruct (utoa n) as [|c l]; [done|]. simpl in Hd; zbool. by eexists _, _.
Qed.

Lemma FormatUint_not_empty n : FormatUint n <> "".
Proof. destruct (FormatUint_cons n) as (c & b & -> & _). done. Qed.

Lemma ParseUint_FormatUint w n : 0 <= n < 2 ^ w -> ParseUint w (FormatUint n) = Ok n.
Proof.
  intros Hn. unfold ParseUint, FormatUint. rewrite list_ascii_of_string_of, utoa_digits, utoa_val by lia.
  destruct (utoa n) eqn:E; [by apply utoa_nonempty in E|]. simpl.
  by rewrite (proj2 (Z.ltb_lt _ _)) by lia.
Qed.

Lemma ParseInt_FormatUint n : 0 <= n < 2 ^ 31 -> ParseInt 32 (FormatUint n) = Ok n.
Proof.
  intros Hn. destruct (FormatUint_cons n) as (c & b & E & Hc). unfold ParseInt. rewrite E.
  destruct (ascii_dec c "-") as [->|]; [done|]. destruct (ascii_dec c "+") as [->|]; [done|].
  rewrite <- E, ParseUint_FormatUint by lia. simpl. by rewrite (proj2 (Z.leb_gt _ _)) by lia.
Qed.

Section TableLemmas.
Context {St Rows : Type}.
Implicit Types d : DB St Rows.

Lemma getValue_update key value d :
  getValueFromStore key (updateValueInStore key value d) = value.
Proof. unfold getValueFromStore, updateValueInStore; simpl. by rewrite lookup_insert_eq. Qed.

Lemma getValue_update_ne key key' value d : key <> key' ->
  getValueFromStore key (updateValueInStore key' value d) = getValueFromStore key d.
Proof. intros. unfold getValueFromStore, updateValueInStore; simpl. by rewrite lookup_insert_ne by done. Qed.

Lemma GetLastLedgerIngest_update n d : in_uint 32 n ->
  GetLastLedgerIngest (UpdateLastLedgerIngest n d) = Ok n.
Proof.
  intros Hn. unfold GetLastLedgerIngest, UpdateLastLedgerIngest. rewrite getValue_update.
  rewrite bool_decide_eq_false_2 by apply FormatUint_not_empty. by rewrite ParseUint_FormatUint.
Qed.

Lemma GetIngestVersion_update n d : 0 <= n < 2 ^ 31 ->
  GetIngestVersion (UpdateIngestVersion n d) = Ok n.
Proof.
  intros Hn. unfold GetIngestVersion, UpdateIngestVersion, getIntValueFromStore.
  rewrite getValue_update, uwrap_small by lia.
  rewrite bool_decide_eq_false_2 by apply FormatUint_not_empty. by rewrite ParseInt_FormatUint.
Qed.

Lemma GetExpStateInvalid_update b d : GetExpStateInvalid (UpdateExpStateInvalid b d) = Ok b.
Proof.
  unfold GetExpStateInvalid, UpdateExpStateInvalid. rewrite getValue_update. by destruct b.
Qed.

Lemma GetLastLedgerIngest_other key value d : key <> lastLedgerKey ->
  GetLastLedgerIngest (updateValueInStore key value d) = GetLastLedgerIngest d.
Proof. intros. unfold GetLastLedgerIngest. by rewrite getValue_update_ne. Qed.

Lemma GetIngestVersion_other key value d : key <> ingestVersion ->
  GetIngestVersion (updateValueInStore key value d) = GetIngestVersion d.
Proof. intros. unfold GetIngestVersion, getIntValueFromStore. by rewrite getValue_update_ne. Qed.

Lemma same_keys_refl d d' : key_value_store d' = key_value_store d -> same_ingestion_keys d d'.
Proof. by intros E key _; rewrite E. Qed.

Lemma same_keys_trans d1 d2 d3 :
  same_ingestion_keys d1 d2 -> same_ingestion_keys d2 d3 -> same_ingestion_keys d1 d3.
Proof. intros H1 H2 key Hk. by rewrite H2, H1. Qed.

Lemma same_keys_value key d d' : same_ingestion_keys d d' -> key ∉ compaction_keys ->
  getValueFromStore key d' = getValueFromStore key d.
Proof. intros H Hk. unfold getValueFromStore. by rewrite H. Qed.

Lemma same_keys_last d d' : same_ingestion_keys d d' -> GetLastLedgerIngest d' = GetLastLedgerIngest d.
Proof. intros H. unfold GetLastLedgerIngest. rewrite (same_keys_value _ d d' H) by (unfold compaction_keys; set_solver). done. Qed.

Lemma same_keys_version d d' : same_ingestion_keys d d' -> GetIngestVersion d' = GetIngestVersion d.
Proof.
  intros H. unfold GetIngestVersion, getIntValueFromStore.
  by rewrite (same_keys_value _ d d' H) by (unfold compaction_keys; set_solver).
Qed.

(** What a processor records of the compaction is not a key of the ingestion. *)
Lemma same_keys_update key value d : key ∈ compaction_keys -> same_ingestion_keys d (updateValueInStore key value d).
Proof.
  intros Hk key' Hk'. unfold updateValueInStore; simpl. rewrite lookup_insert_ne; [done|]. by intros ->.
Qed.

(** [LatestLedger] is the greatest sequence of the history, 0 when it is empty. *)
Lemma LatestLedger_spec d :
  (forall n r, historyTables d !! n = Some r -> n <= LatestLedger d) /\ 0 <= LatestLedger d /\
  (LatestLedger d = 0 \/ is_Some (historyTables d !! LatestLedger d)).
Proof.
  unfold LatestLedger.
  apply (map_fold_weak_ind (fun acc m => (forall n r, m !! n = Some r -> n <= acc) /\ 0 <= acc /\
    (acc = 0 \/ is_Some (m !! acc)))).
  - split; [|split; [lia|by left]]. intros n r. by rewrite lookup_empty.
  - intros i x m acc Hi (Hle & Hpos & Hmax). split; [|split; [lia|]].
    + intros n r. rewrite lookup_insert_Some. intros [[-> _]|[_ H]]; [lia|].
      specialize (Hle n r H). lia.
    + destruct (Z.max_spec i acc) as [[? ->]|[? ->]].
      * destruct Hmax as [->|[y Hy]]; [by left|right].
        destruct (decide (i = acc)) as [->|]; [lia|]. exists y. by rewrite lookup_insert_ne.
      * right. exists x. by rewrite lookup_insert_eq.
Qed.

Lemma LatestLedger_unique d m :
  (forall n r, historyTables d !! n = Some r -> n <= m) -> 0 <= m ->
  m = 0 \/ is_Some (historyTables d !! m) -> LatestLedger d = m.
Proof.
  intros Hle Hpos Hm. destruct (LatestLedger_spec d) as (Hle' & Hpos' & Hm').
  destruct Hm as [->|[r Hr]], Hm' as [E|[r' Hr']]; try lia.
  - specialize (Hle _ _ Hr'). lia.
  - specialize (Hle' _ _ Hr). lia.
  - specialize (Hle _ _ Hr'). specialize (Hle' _ _ Hr). lia.
Qed.

(** Deleting the id range of the ledgers [from..to] deletes exactly their rows. *)
Lemma DeleteRangeAll_ledgers from to start end_ d n :
  2 <= from <= to -> to < 2 ^ 31 - 1 ->
  Toid.LedgerRangeInclusive from to = Ok (start, end_) ->
  historyTables (DeleteRangeAll start end_ d) !! n =
    if decide (from <= n <= to) then None else historyTables d !! n.
Proof.
  intros Hf Ht HR.
  assert (start = from * 2 ^ 32 /\ end_ = (to + 1) * 2 ^ 32) as [-> ->].
  { unfold Toid.LedgerRangeInclusive in HR.
    rewrite Z.gtb_ltb, (proj2 (Z.ltb_ge _ _)) in HR by lia.
    rewrite (proj2 (Z.leb_gt from 0)), (proj2 (Z.leb_gt to 0)) in HR by lia. cbn [orb] in HR.
    rewrite (proj2 (Z.eqb_neq from 1)) in HR by lia.
    rewrite swrap_small in HR by (unfold in_int; lia).
    rewrite !Toid.ToInt64_value in HR by (unfold Toid.valid; simpl; lia).
    rewrite !bind_Ok_l in HR. unfold Toid.value in HR; simpl in HR. injection HR; lia. }
  unfold DeleteRangeAll; simpl. rewrite map_lookup_filter.
  unfold ledger_id, Toid.value; simpl.
  destruct (historyTables d !! n); simpl; [|by case_decide].
  case_guard; case_decide; try done; lia.
Qed.

End TableLemmas.

(** ** Sessions keep committed data apart *)

Section SessionLemmas.
Context {D : Type}.
Implicit Types s : session D.

Lemma Rollback_tx s : tx (Rollback s).2 = None.
Proof. unfold Rollback. by destruct s as [? [?|]]. Qed.

Lemma Rollback_db s : db (Rollback s).2 = db s.
Proof. unfold Rollback. by destruct s as [? [?|]]. Qed.

Lemma Commit_tx v s : tx (Commit v s).2 = None.
Proof. unfold Commit. destruct s as [? [[? []]|]], v; done. Qed.

(** A commit either keeps the committed data or installs the view of the
    transaction; when it reports success it installed it. *)
Lemma Commit_db v s : db (Commit v s).2 = db s \/
  exists t, tx s = Some t /\ tx_aborted t = false /\ db (Commit v s).2 = tx_view t.
Proof. unfold Commit. destruct s as [? [[? []]|]], v; simpl; naive_solver. Qed.

End SessionLemmas.

End HistoryDb.
