(* ===== verification/IngestFsm.v ===== *)
(** * The ingestion state machine of aurora

    [services/aurora/internal/ingest]: [fsm.go], [fsm_history_range_state.go],
    [fsm_reingest_history_range_state.go] and the drivers of [main.go].

    A node of the machine is a value of [node]; [run] executes it on a [world]:
    the session on the shared database, the ledger backend of the process and
    the number of external calls made so far, from which the environment
    decides the verdict of the next call.  The ledger backend and the processor
    runner are interfaces of the source ([LedgerBackend],
    [ProcessorRunnerInterface]) and are classes here.  Logging, metrics and
    sleeping have no effect on the modelled state. *)
From S2P Require Import Prelude Toid Checkpoints HistoryDb.

Local Open Scope Z_scope.

Module IngestFsm.
Import HistoryDb.

(** ** Interfaces *)

Inductive ledgerRange :=
| UnboundedRange (from : Z)
| BoundedRange (from to : Z).

Class LedgerCloseMeta (Meta : Type) := {
  LedgerSequence : Meta -> Z;
  ProtocolVersion : Meta -> Z;
  BucketListHash : Meta -> string
}.

Class LedgerBackend (Meta BS : Type) := {
  IsPrepared : ledgerRange -> BS -> res bool;
  PrepareRange : ledgerRange -> BS -> res unit * BS;
  GetLedger : Z -> BS -> res Meta * BS;
  GetLatestLedgerSequence : BS -> res Z
}.

(** The outcome of a processor run inside the transaction: the new tables, or
    an error with what was written until then and whether the transaction is
    aborted. *)
Inductive run_outcome (D : Type) :=
| Done (d : D)
| Failed (e : error) (d : D) (aborted : bool).
Arguments Done {D} d.
Arguments Failed {D} e d aborted.

Class ProcessorRunner (St Rows Meta : Type) := {
  empty_tables : St;
  RunGenesisStateIngestion : DB St Rows -> run_outcome (DB St Rows);
  RunHistoryArchiveIngestion : Z -> bool -> Z -> string -> DB St Rows -> run_outcome (DB St Rows);
  RunTransactionProcessorsOnLedgers : list Meta -> DB St Rows -> run_outcome (DB St Rows);
  RunAllProcessorsOnLedger : Meta -> DB St Rows -> run_outcome (DB St Rows)
}.

(** ** Constants and configuration *)

Definition CurrentVersion : Z := 18.
Definition MaxLedgersPerFlush : Z := 100.
Definition defaultSleep : Z := 1.

Definition getLastIngestedErrMsg : string := "Error getting last ingested ledger".
Definition getIngestVersionErrMsg : string := "Error getting ingestion version".
Definition updateLastLedgerIngestErrMsg : string := "Error updating last ingested ledger".
Definition commitErrMsg : string := "Error committing db transaction".
Definition updateExpStateInvalidErrMsg : string := "Error updating state invalid value".

(** The fields of [Config] and [system] that the machine reads. *)
Record system := mkSystem {
  maxLedgerPerFlush : Z;
  maxReingestRetries : Z;
  disableStateVerification : bool;
  EnableReapLookupTables : bool;
  CheckpointFrequency : Z;
  StateVerificationCheckpointFrequency : Z
}.

(** ** Nodes and transitions *)

Inductive State :=
| None_ | Start | Stop | Build | Resume | WaitForCheckpoint | StressTest | VerifyRange
| HistoryRange | ReingestHistoryRange.

Inductive node :=
| startState (suggestedCheckpoint : Z)
| stopState
| buildState (checkpointLedger : Z) (skipChecks stop : bool)
| resumeState (latestSuccessfullyProcessedLedger : Z)
| waitForCheckpointState
| verifyRangeState (fromLedger toLedger : Z) (verifyState : bool)
| stressTestState
| historyRangeState (fromLedger toLedger : Z)
| reingestHistoryRangeState (fromLedger toLedger : Z) (force : bool).

#[global] Instance node_eq_dec : EqDecision node.
Proof. solve_decision. Defined.

Definition GetState (n : node) : State :=
  match n with
  | startState _ => Start
  | stopState => Stop
  | buildState _ _ _ => Build
  | resumeState _ => Resume
  | waitForCheckpointState => WaitForCheckpoint
  | verifyRangeState _ _ _ => VerifyRange
  | stressTestState => StressTest
  | historyRangeState _ _ => HistoryRange
  | reingestHistoryRangeState _ _ _ => ReingestHistoryRange
  end.

Record transition := Transition { next_node : node; sleepDuration : Z }.

Definition stop : transition := Transition stopState 0.
Definition start : transition := Transition (startState 0) defaultSleep.
Definition rebuild (checkpointLedger : Z) : transition :=
  Transition (buildState checkpointLedger false false) defaultSleep.
Definition resume (latest : Z) : transition := Transition (resumeState latest) defaultSleep.
Definition resumeImmediately (latest : Z) : transition := Transition (resumeState latest) 0.
Definition retryResume (latest : Z) : transition := Transition (resumeState latest) defaultSleep.
Definition historyRange (fromLedger toLedger : Z) : transition :=
  Transition (historyRangeState fromLedger toLedger) defaultSleep.
Definition waitForCheckPoint : transition := Transition waitForCheckpointState 0.

(** What [run] returns; a panic crashes the process after its deferred calls. *)
Inductive result :=
| Return (t : transition) (err : option error)
| Crash (msg : string).

Class Panics (R : Type) := crash : string -> R.
#[global] Instance result_panics : Panics result := Crash.
#[global] Instance res_panics A : Panics (res A) := Panic.
#[global] Instance loop_panics A : Panics (result + A) := fun p => inl (Crash p).

Definition ok (t : transition) : result := Return t None.
Definition fail (t : transition) (e : error) : result := Return t (Some e).

(** ** Worlds and calls *)

Section Machine.
Context {St Rows Meta BS : Type}.
Context {LCM : LedgerCloseMeta Meta} {LB : LedgerBackend Meta BS} {PR : ProcessorRunner St Rows Meta}.

(** The environment decides by the number of the call: its verdict, the
    current ledger of the archive's root file and whether the process is being
    shut down; [verifyState] compares the state tables with the archive. *)
Record environment := mkEnvironment {
  faults : nat -> verdict;
  rootHAS : nat -> Z;
  shutdown : nat -> bool;
  verifyState : DB St Rows -> res unit
}.

Record world := World {
  historyQ : session (DB St Rows);
  ledgerBackend : BS;
  calls : nat;
  currentState : State;
  verifications : list Z       (** ledgers on which a state verification was started *)
}.

Definition M (A : Type) : Type := world -> A * world.

Definition ret {A} (a : A) : M A := fun w => (a, w).
Definition bind {A B} (m : M A) (k : A -> M B) : M B := fun w => let '(a, w') := m w in k a w'.

(** A call whose error is handled by [onerr], and [if err != nil { return ... }]. *)
Definition tryM {A R} `{Panics R} (m : M (res A)) (onerr : error -> M R) (k : A -> M R) : M R :=
  fun w => match m w with
           | (Ok a, w') => k a w'
           | (Err e, w') => onerr e w'
           | (Panic p, w') => (crash p, w')
           end.

Definition try {A R} `{Panics R} (m : M (res A)) (onerr : error -> R) (k : A -> M R) : M R :=
  tryM m (fun e => ret (onerr e)) k.

Definition set_session (s : session (DB St Rows)) (w : world) : world :=
  World s (ledgerBackend w) (S (calls w)) (currentState w) (verifications w).
Definition set_backend (b : BS) (w : world) : world :=
  World (historyQ w) b (S (calls w)) (currentState w) (verifications w).
Definition set_currentState (st : State) (w : world) : world :=
  World (historyQ w) (ledgerBackend w) (calls w) st (verifications w).
Definition add_verification (ledger : Z) (w : world) : world :=
  World (historyQ w) (ledgerBackend w) (calls w) (currentState w) (ledger :: verifications w).

Context (env : environment) (s : system).

(** A call on the session. *)
Definition on_db {A} (f : verdict -> session (DB St Rows) -> res A * session (DB St Rows)) : M (res A) :=
  fun w => let '(r, s') := f (faults env (calls w)) (historyQ w) in (r, set_session s' w).

Definition q_Begin : M (res unit) := on_db Begin.
Definition q_GetTx : M (option (transaction (DB St Rows))) := fun w => (GetTx (historyQ w), w).
Definition q_Commit : M (res unit) := on_db Commit.
Definition q_get {A} (f : DB St Rows -> res A) : M (res A) := on_db (query f).
Definition q_exec (f : DB St Rows -> DB St Rows) : M (res unit) := on_db (exec f).

(** [defer s.historyQ.Rollback()]: its error is dropped. *)
Definition defer_Rollback {R} (m : M R) : M R :=
  fun w => let '(r, w') := m w in (r, set_session (Rollback (historyQ w')).2 w').

(** A run of processors in the session's transaction. *)
Definition run_processors (f : DB St Rows -> run_outcome (DB St Rows)) : M (res unit) :=
  on_db (fun v q =>
    if in_aborted q then (Err "current transaction is aborted", q) else
    match v with
    | Works =>
        match f (view q) with
        | Done d => (Ok tt, set_view q d)
        | Failed e d aborted => (Err e, if aborted then abort (set_view q d) else set_view q d)
        end
    | Aborts => (Err "exec failed", abort q)
    | _ => (Err "exec failed", q)
    end).

(** A call on the ledger backend. *)
Definition on_backend {A} (f : BS -> res A * BS) : M (res A) :=
  fun w => match faults env (calls w) with
           | Works => let '(r, b) := f (ledgerBackend w) in (r, set_backend b w)
           | _ => (Err "ledger backend failed", set_backend (ledgerBackend w) w)
           end.

Definition b_IsPrepared (r : ledgerRange) : M (res bool) := on_backend (fun b => (IsPrepared r b, b)).
Definition b_PrepareRange (r : ledgerRange) : M (res unit) := on_backend (PrepareRange r).
Definition b_GetLedger (sequence : Z) : M (res Meta) := on_backend (GetLedger sequence).
Definition b_GetLatestLedgerSequence : M (res Z) :=
  on_backend (fun b => (GetLatestLedgerSequence b, b)).

(** [historyAdapter.GetLatestLedgerSequence]: the current ledger of the root HAS. *)
Definition a_GetLatestLedgerSequence : M (res Z) :=
  fun w => (match faults env (calls w) with
            | Works => Ok (rootHAS env (calls w))
            | _ => Err "could not get root HAS"
            end, set_backend (ledgerBackend w) w).

(** The trade aggregation buckets are derived tables outside of the model. *)
Definition RebuildTradeAggregationBuckets (fromLedger toLedger : Z) : M (res unit) :=
  q_exec (fun d => d).

(** ** Helpers of the states *)

Definition completeIngestion (ledger : Z) : M (res unit) :=
  if ledger =? 0 then ret (Err "ledger must be positive") else
  try (q_exec (UpdateLastLedgerIngest ledger))
    (fun e => Err (WrapErr e updateLastLedgerIngestErrMsg)) (fun _ =>
  try q_Commit (fun e => Err (WrapErr e commitErrMsg)) (fun _ =>
  ret (Ok tt))).

Definition maybePrepareRange (from : Z) : M (res unit) :=
  let r := UnboundedRange from in
  try (b_IsPrepared r) (fun e => Err (WrapErr e "error checking prepared range")) (fun prepared =>
  if negb prepared then
    try (b_PrepareRange r) (fun e => Err (WrapErr e "error preparing range")) (fun _ => ret (Ok tt))
  else ret (Ok tt)).

Definition ledgerEligibleForStateVerification (ledger : Z) : res bool :=
  Checkpoints.IsCheckpoint (Checkpoints.NewCheckpointManager
    (to_uint32 (CheckpointFrequency s * StateVerificationCheckpointFrequency s))) ledger.

(** The synchronous part: it starts the verification in a goroutine. *)
Definition maybeVerifyState (lastIngestedLedger : Z) : M (res unit) :=
  try (q_get GetExpStateInvalid) (fun _ => Ok tt) (fun invalid =>
  if negb invalid && negb (disableStateVerification s) then
    try (ret (ledgerEligibleForStateVerification lastIngestedLedger)) (fun _ => Ok tt) (fun eligible =>
    if (eligible : bool) then fun w => (Ok tt, add_verification lastIngestedLedger w)
    else ret (Ok tt))
  else ret (Ok tt)).

(** Reaping deletes unused rows of lookup tables that are outside of the model.
    Errors are logged only. *)
Definition maybeReapLookupTables (lastIngestedLedger : Z) : M (res unit) :=
  if negb (EnableReapLookupTables s) then ret (Ok tt) else
  try b_GetLatestLedgerSequence (fun _ => Ok tt) (fun sequence =>
  if negb (sequence =? lastIngestedLedger) then ret (Ok tt) else
  try q_Begin (fun _ => Ok tt) (fun _ =>
  defer_Rollback (
  try (q_get GetLastLedgerIngest) (fun _ => Ok tt) (fun _ =>
  try (q_exec (fun d => d)) (fun _ => Ok tt) (fun _ =>
  try q_Commit (fun _ => Ok tt) (fun _ =>
  ret (Ok tt))))))).

(** ** The states *)

Definition run_start (suggestedCheckpoint : Z) : M result :=
  try q_Begin (fun e => fail start (WrapErr e "Error starting a transaction")) (fun _ =>
  defer_Rollback (
  try (q_get GetLastLedgerIngest) (fun e => fail start (WrapErr e getLastIngestedErrMsg))
    (fun lastIngestedLedger =>
  try (q_get GetIngestVersion) (fun e => fail start (WrapErr e getIngestVersionErrMsg))
    (fun ingestVersion =>
  if ingestVersion >? CurrentVersion then ret (ok stop) else
  try (q_get GetLatestHistoryLedger)
    (fun e => fail start (WrapErr e "Error getting last history ledger sequence"))
    (fun lastHistoryLedger =>
  if negb (ingestVersion =? CurrentVersion) || (lastIngestedLedger =? 0) then
    try (if negb (suggestedCheckpoint =? 0) then ret (Ok suggestedCheckpoint)
         else a_GetLatestLedgerSequence)
      (fun e => fail start (WrapErr e "Error getting last checkpoint")) (fun lastCheckpoint =>
    if negb (lastHistoryLedger =? 0) then
      if lastHistoryLedger >? lastCheckpoint then ret (ok waitForCheckPoint)
      else if lastHistoryLedger <? lastCheckpoint then
        ret (ok (historyRange (to_uint32 (lastHistoryLedger + 1)) lastCheckpoint))
      else ret (ok (rebuild lastCheckpoint))
    else ret (ok (rebuild lastCheckpoint)))
  else if lastHistoryLedger >? lastIngestedLedger then
    try (q_exec (UpdateLastLedgerIngest 0))
      (fun e => fail start (WrapErr e updateLastLedgerIngestErrMsg)) (fun _ =>
    try q_Commit (fun e => fail start (WrapErr e commitErrMsg)) (fun _ =>
    ret (ok start)))
  else if negb (lastHistoryLedger =? 0) && (lastHistoryLedger <? lastIngestedLedger) then
    ret (ok (historyRange (to_uint32 (lastHistoryLedger + 1)) lastIngestedLedger))
  else ret (ok (resume lastIngestedLedger))))))).

(** The part of [buildState.run] from [Begin] on; [protocolVersion] and
    [bucketListHash] are those of the checkpoint ledger. *)
Definition build_in_tx (checkpointLedger : Z) (skipChecks stop_ : bool) (protocolVersion : Z)
    (bucketListHash : string) : M result :=
  let nextFailState := if stop_ then stop else start in
  try q_Begin (fun e => fail nextFailState (WrapErr e "Error starting a transaction")) (fun _ =>
  defer_Rollback (
  try (q_get GetLastLedgerIngest) (fun e => fail nextFailState (WrapErr e getLastIngestedErrMsg))
    (fun lastIngestedLedger =>
  try (q_get GetIngestVersion) (fun e => fail nextFailState (WrapErr e getIngestVersionErrMsg))
    (fun ingestVersion =>
  if (ingestVersion =? CurrentVersion) && (lastIngestedLedger >? 0) then ret (ok nextFailState) else
  try (q_exec (UpdateLastLedgerIngest 0))
    (fun e => fail nextFailState (WrapErr e updateLastLedgerIngestErrMsg)) (fun _ =>
  try (q_exec (UpdateExpStateInvalid false))
    (fun e => fail nextFailState (WrapErr e updateExpStateInvalidErrMsg)) (fun _ =>
  try (q_exec (set_state empty_tables))
    (fun e => fail nextFailState (WrapErr e "Error clearing ingest tables")) (fun _ =>
  try (run_processors (if checkpointLedger =? 1 then RunGenesisStateIngestion else
         RunHistoryArchiveIngestion checkpointLedger skipChecks protocolVersion bucketListHash))
    (fun e => fail nextFailState (WrapErr e "Error ingesting history archive")) (fun _ =>
  try (q_exec (UpdateIngestVersion CurrentVersion))
    (fun e => fail nextFailState (WrapErr e "Error updating ingestion version")) (fun _ =>
  try (completeIngestion checkpointLedger) (fun e => fail nextFailState e) (fun _ =>
  ret (ok (if stop_ then stop else resume checkpointLedger)))))))))))).

Definition run_build (checkpointLedger : Z) (skipChecks stop_ : bool) : M result :=
  let nextFailState := if stop_ then stop else start in
  if checkpointLedger =? 0 then ret (fail nextFailState "unexpected checkpointLedger value") else
  if negb (checkpointLedger =? 1) && negb skipChecks then
    try (maybePrepareRange checkpointLedger) (fun e => fail nextFailState e) (fun _ =>
    try (b_GetLedger checkpointLedger)
      (fun e => fail nextFailState (WrapErr e "error getting ledger blocking"))
      (fun ledgerCloseMeta =>
    build_in_tx checkpointLedger skipChecks stop_
      (ProtocolVersion ledgerCloseMeta) (BucketListHash ledgerCloseMeta)))
  else build_in_tx checkpointLedger skipChecks stop_ 0 "".

Definition run_resume (latest : Z) : M result :=
  if latest =? 0 then ret (fail start "unexpected latestSuccessfullyProcessedLedger value") else
  let ingestLedger := to_uint32 (latest + 1) in
  try (maybePrepareRange ingestLedger) (fun e => fail start e) (fun _ =>
  try (b_GetLedger ingestLedger) (fun e => fail start (WrapErr e "error getting ledger blocking"))
    (fun ledgerCloseMeta =>
  try q_Begin (fun e => fail (retryResume latest) (WrapErr e "Error starting a transaction")) (fun _ =>
  defer_Rollback (
  try (q_get GetLastLedgerIngest)
    (fun e => fail (retryResume latest) (WrapErr e getLastIngestedErrMsg)) (fun lastIngestedLedger =>
  if ingestLedger >? to_uint32 (lastIngestedLedger + 1) then
    ret (fail start "expected ingest ledger to be at most one greater than last ingested ledger in db")
  else if ingestLedger <=? lastIngestedLedger then ret (ok (resumeImmediately lastIngestedLedger)) else
  try (q_get GetIngestVersion)
    (fun e => fail (retryResume latest) (WrapErr e getIngestVersionErrMsg)) (fun ingestVersion =>
  if negb (ingestVersion =? CurrentVersion) then ret (ok start) else
  try (q_get GetLatestHistoryLedger)
    (fun e => fail (retryResume latest) (WrapErr e "could not get latest history ledger"))
    (fun lastHistoryLedger =>
  if negb (lastHistoryLedger =? 0) && negb (lastHistoryLedger =? lastIngestedLedger) then
    ret (ok start) else
  try (run_processors (RunAllProcessorsOnLedger ledgerCloseMeta))
    (fun e => fail (retryResume latest) (WrapErr e "Error running processors on ledger")) (fun _ =>
  try (RebuildTradeAggregationBuckets ingestLedger ingestLedger)
    (fun e => fail (retryResume latest) (WrapErr e "error rebuilding trade aggregations")) (fun _ =>
  try (completeIngestion ingestLedger) (fun e => fail (retryResume latest) e) (fun _ =>
  try (maybeVerifyState ingestLedger) (fun _ => ok (resumeImmediately ingestLedger)) (fun _ =>
  try (maybeReapLookupTables ingestLedger) (fun _ => ok (resumeImmediately ingestLedger)) (fun _ =>
  ret (ok (resumeImmediately ingestLedger)))))))))))))).

(** The loop of [historyRangeState.run]: an early return, or the ledgers that
    are left to flush.  The counter is a uint32: with [to] the greatest uint32
    the loop never ends, which the model shows as a panic. *)
Fixpoint history_loop (fuel : nat) (cur to : Z) (ledgers : list Meta) : M (result + list Meta) :=
  if cur <=? to then
    match fuel with
    | O => ret (inl (Crash "the loop does not end"))
    | S fuel =>
        tryM (b_GetLedger cur)
          (fun e =>     (* commit prior batches that have been flushed *)
           tryM q_Commit (fun _ => ret (inl (fail start (WrapErr e "error getting ledger"))))
             (fun _ => ret (inl (fail start (WrapErr e "error getting ledger")))))
          (fun ledgerCloseMeta =>
        let ledgers := ledgers ++ [ledgerCloseMeta] in
        if Z.of_nat (length ledgers) =? maxLedgerPerFlush s then
          try (run_processors (RunTransactionProcessorsOnLedgers ledgers))
            (fun e => inl (fail start (WrapErr e "error processing ledger range"))) (fun _ =>
          history_loop fuel (to_uint32 (cur + 1)) to [])
        else history_loop fuel (to_uint32 (cur + 1)) to ledgers)
    end
  else ret (inr ledgers).

Definition flush (ledgers : list Meta) (k : M result) : M result :=
  match ledgers with
  | [] => k
  | _ => try (run_processors (RunTransactionProcessorsOnLedgers ledgers))
           (fun e => fail start (WrapErr e "error processing ledger range")) (fun _ => k)
  end.

Definition run_historyRange (fromLedger toLedger : Z) : M result :=
  if (fromLedger =? 0) || (toLedger =? 0) || (fromLedger >? toLedger) then
    ret (fail start "invalid range") else
  if maxLedgerPerFlush s <? 1 then
    ret (fail start "invalid maxLedgerPerFlush, must be greater than 0") else
  try (maybePrepareRange fromLedger) (fun e => fail start e) (fun _ =>
  try q_Begin (fun e => fail start (WrapErr e "Error starting a transaction")) (fun _ =>
  defer_Rollback (
  try (q_get GetLastLedgerIngest) (fun e => fail start (WrapErr e getLastIngestedErrMsg)) (fun _ =>
  try (q_get GetLatestHistoryLedger)
    (fun e => fail start (WrapErr e "could not get latest history ledger")) (fun lastHistoryLedger =>
  if negb (lastHistoryLedger =? to_uint32 (fromLedger - 1)) then ret (ok start) else
  bind (history_loop (Z.to_nat (toLedger - fromLedger + 1)) fromLedger toLedger []) (fun out =>
  match out with
  | inl r => ret r
  | inr ledgers =>
      flush ledgers (
      try q_Commit (fun e => fail start (WrapErr e commitErrMsg)) (fun _ => ret (ok start)))
  end)))))).

(** ** Reingestion *)

Fixpoint reingest_loop (fuel : nat) (cur to : Z) (ledgers : list Meta) : M (res (list Meta)) :=
  if cur <=? to then
    match fuel with
    | O => ret (Panic "the loop does not end")
    | S fuel =>
        try (b_GetLedger cur) (fun e => Err (WrapErr e "error getting ledger")) (fun ledgerCloseMeta =>
        let ledgers := ledgers ++ [ledgerCloseMeta] in
        if Z.of_nat (length ledgers) mod maxLedgerPerFlush s =? 0 then
          try (run_processors (RunTransactionProcessorsOnLedgers ledgers))
            (fun e => Err (WrapErr e "error processing ledger range")) (fun _ =>
          reingest_loop fuel (to_uint32 (cur + 1)) to [])
        else reingest_loop fuel (to_uint32 (cur + 1)) to ledgers)
    end
  else ret (Ok ledgers).

Definition ingestRange (fromLedger toLedger : Z) : M (res unit) :=
  bind q_GetTx (fun t =>
  if bool_decide (is_Some t) then
    if maxLedgerPerFlush s <? 1 then
      ret (Err "invalid maxLedgerPerFlush, must be greater than 0") else
    try (ret (Toid.LedgerRangeInclusive (to_int32 fromLedger) (to_int32 toLedger)))
      (fun e => Err (WrapErr e "Invalid range")) (fun range =>
    try (q_exec (DeleteRangeAll range.1 range.2))
      (fun e => Err (WrapErr e "error in DeleteRangeAll")) (fun _ =>
    try (reingest_loop (Z.to_nat (toLedger - fromLedger + 1)) fromLedger toLedger [])
      (fun e => Err e) (fun ledgers =>
    match ledgers with
    | [] => ret (Ok tt)
    | _ => try (run_processors (RunTransactionProcessorsOnLedgers ledgers))
             (fun e => Err (WrapErr e "error processing ledger range")) (fun _ => ret (Ok tt))
    end)))
  else ret (Err "expected transaction to be present")).

Definition ErrReingestRangeConflict (maximumLedgerSequence : Z) : error :=
  ("reingest range overlaps with aurora ingestion, supplied range shouldn't contain ledger " +:+
   FormatUint maximumLedgerSequence)%string.

Definition prepareRange (fromLedger toLedger : Z) (k : M result) : M result :=
  try (b_PrepareRange (BoundedRange fromLedger toLedger))
    (fun e => fail stop (WrapErr e "error preparing range")) (fun _ => k).

Definition run_reingest (fromLedger toLedger : Z) (force : bool) : M result :=
  if (fromLedger =? 0) || (toLedger =? 0) || (fromLedger >? toLedger) then
    ret (fail stop "invalid range") else
  let fromLedger := if fromLedger =? 1 then 2 else fromLedger in
  if force then
    prepareRange fromLedger toLedger (
    try q_Begin (fun e => fail stop (WrapErr e "Error starting a transaction")) (fun _ =>
    defer_Rollback (
    try (q_get GetLastLedgerIngest) (fun e => fail stop (WrapErr e getLastIngestedErrMsg)) (fun _ =>
    tryM (ingestRange fromLedger toLedger)
      (fun ingestErr =>
       try q_Commit (fun _ => fail stop (WrapErr ingestErr commitErrMsg))
         (fun _ => ret (fail stop ingestErr)))
      (fun _ =>
    try q_Commit (fun e => fail stop (WrapErr e commitErrMsg)) (fun _ => ret (ok stop)))))))
  else
    try (q_get GetLastLedgerIngestNonBlocking) (fun e => fail stop (WrapErr e getLastIngestedErrMsg))
      (fun lastIngestedLedger =>
    if (lastIngestedLedger >? 0) && (toLedger >=? lastIngestedLedger) then
      ret (fail stop (ErrReingestRangeConflict lastIngestedLedger)) else
    prepareRange fromLedger toLedger (
    try q_Begin (fun e => fail stop (WrapErr e "Error starting a transaction")) (fun _ =>
    defer_Rollback (
    try (ingestRange fromLedger toLedger) (fun e => fail stop e) (fun _ =>
    try q_Commit (fun e => fail stop (WrapErr e commitErrMsg)) (fun _ => ret (ok stop))))))).

(** ** Commands for tests of the ingestion *)

Fixpoint verify_loop (fuel : nat) (sequence to : Z) (k : M result) : M result :=
  if sequence <=? to then
    match fuel with
    | O => ret (Crash "the loop does not end")
    | S fuel =>
        try q_Begin (fun e => fail stop (WrapErr e "Error starting a transaction")) (fun _ =>
        try (b_GetLedger sequence) (fun e => fail stop (WrapErr e "error getting ledger"))
          (fun ledgerCloseMeta =>
        try (run_processors (RunAllProcessorsOnLedger ledgerCloseMeta))
          (fun e => fail stop (WrapErr e "Error running processors on ledger")) (fun _ =>
        try (completeIngestion sequence) (fun e => fail stop e) (fun _ =>
        verify_loop fuel (to_uint32 (sequence + 1)) to k))))
    end
  else k.

Definition run_verifyRange (fromLedger toLedger : Z) (verify : bool) : M result :=
  if (fromLedger =? 0) || (toLedger =? 0) || (fromLedger >? toLedger) then
    ret (fail stop "invalid range") else
  try q_Begin (fun e => fail stop (WrapErr e "Error starting a transaction")) (fun _ =>
  defer_Rollback (
  try (q_get GetLastLedgerIngest) (fun e => fail stop (WrapErr e getLastIngestedErrMsg))
    (fun lastIngestedLedger =>
  if negb (lastIngestedLedger =? 0) then ret (fail stop "Database not empty") else
  try (b_PrepareRange (BoundedRange fromLedger toLedger))
    (fun e => fail stop (WrapErr e "Error preparing range")) (fun _ =>
  try (b_GetLedger fromLedger) (fun e => fail stop (WrapErr e "error getting ledger"))
    (fun ledgerCloseMeta =>
  try (run_processors (RunHistoryArchiveIngestion (LedgerSequence ledgerCloseMeta) false
         (ProtocolVersion ledgerCloseMeta) (BucketListHash ledgerCloseMeta)))
    (fun e => fail stop (WrapErr e "Error ingesting history archive")) (fun _ =>
  try (completeIngestion fromLedger) (fun e => fail stop e) (fun _ =>
  verify_loop (Z.to_nat (toLedger - fromLedger)) (to_uint32 (fromLedger + 1)) toLedger (
  try (RebuildTradeAggregationBuckets fromLedger toLedger)
    (fun e => fail stop (WrapErr e "error rebuilding trade aggregations")) (fun _ =>
  if verify then
    try (q_get (verifyState env)) (fun e => fail stop e) (fun _ => ret (ok stop))
  else ret (ok stop)))))))))).

Definition run_stressTest : M result :=
  try q_Begin (fun e => fail stop (WrapErr e "Error starting a transaction")) (fun _ =>
  defer_Rollback (
  try (q_get GetLastLedgerIngest) (fun e => fail stop (WrapErr e getLastIngestedErrMsg))
    (fun lastIngestedLedger =>
  if negb (lastIngestedLedger =? 0) then ret (fail stop "Database not empty") else
  let sequence := to_uint32 (lastIngestedLedger + 1) in
  try (b_GetLedger sequence) (fun e => fail stop (WrapErr e "error getting ledger"))
    (fun ledgerCloseMeta =>
  try (run_processors (RunAllProcessorsOnLedger ledgerCloseMeta))
    (fun e => fail stop (WrapErr e "Error running processors on ledger")) (fun _ =>
  try (completeIngestion sequence) (fun e => fail stop e) (fun _ =>
  ret (ok stop))))))).

(** ** The machine *)

Definition run (n : node) : M result :=
  match n with
  | startState suggestedCheckpoint => run_start suggestedCheckpoint
  | stopState => ret (fail stop "Cannot run terminal state")
  | buildState checkpointLedger skipChecks stop_ => run_build checkpointLedger skipChecks stop_
  | resumeState latest => run_resume latest
  | waitForCheckpointState => ret (ok start)
  | verifyRangeState fromLedger toLedger verify => run_verifyRange fromLedger toLedger verify
  | stressTestState => run_stressTest
  | historyRangeState fromLedger toLedger => run_historyRange fromLedger toLedger
  | reingestHistoryRangeState fromLedger toLedger force => run_reingest fromLedger toLedger force
  end.

Inductive machine_result :=
| Exited (err : option error)
| Panicked (msg : string)
| Running (n : node).       (** still running after the given number of states *)

Fixpoint runStateMachine (fuel : nat) (cur : node) : M machine_result :=
  match fuel with
  | O => ret (Running cur)
  | S fuel => fun w =>
      match GetTx (historyQ w) with
      | Some _ => (Panicked "unexpected transaction", w)
      | None =>
          match run cur (set_currentState (GetState cur) w) with
          | (Return next err, w') =>
              if bool_decide (next_node next = stopState) then (Exited err, w')
              else if shutdown env (calls w') then (Exited None, w')
              else runStateMachine fuel (next_node next) w'
          | (Crash p, w') => (Panicked p, w')
          end
      end
  end.

(** ** Reingestion of several ranges *)

Record LedgerRange := mkLedgerRange { StartSequence : Z; EndSequence : Z }.

Fixpoint validate_from (prev : option LedgerRange) (ledgerRanges : list LedgerRange) : res unit :=
  match ledgerRanges with
  | [] => Ok tt
  | cur :: rest =>
      if StartSequence cur >? EndSequence cur then Err "Invalid range: from > to" else
      if StartSequence cur =? 0 then Err "Invalid range: genesis ledger starts at 1" else
      match prev with
      | Some p =>
          if EndSequence p >=? StartSequence cur then Err "ranges are not sorted"
          else validate_from (Some cur) rest
      | None => validate_from (Some cur) rest
      end
  end.

Definition validateRanges (ledgerRanges : list LedgerRange) : res unit := validate_from None ledgerRanges.

(** One run of the machine on a range: it stops after one state. *)
Definition reingest_once (force : bool) (cur : LedgerRange) : M (res unit) := fun w =>
  match runStateMachine 1 (reingestHistoryRangeState (StartSequence cur) (EndSequence cur) force) w with
  | (Exited None, w') => (Ok tt, w')
  | (Exited (Some e), w') => (Err e, w')
  | (Panicked p, w') => (Panic p, w')
  | (Running _, w') => (Panic "the state machine did not stop", w')
  end.

Fixpoint reingest_retry (retries : nat) (force : bool) (cur : LedgerRange) : M (res unit) := fun w =>
  match reingest_once force cur w with
  | (Err e, w') =>
      match retries with
      | O => (Err e, w')
      | S retries => reingest_retry retries force cur w'
      end
  | r => r
  end.

Fixpoint reingest_ranges (ledgerRanges : list LedgerRange) (force rebuildTradeAgg : bool) : M (res unit) :=
  match ledgerRanges with
  | [] => ret (Ok tt)
  | cur :: rest =>
      try (reingest_retry (Z.to_nat (maxReingestRetries s)) force cur) (fun e => Err e) (fun _ =>
      if rebuildTradeAgg then
        try (RebuildTradeAggregationBuckets (StartSequence cur) (EndSequence cur))
          (fun e => Err (WrapErr e "Error rebuilding trade aggregations")) (fun _ =>
        reingest_ranges rest force rebuildTradeAgg)
      else reingest_ranges rest force rebuildTradeAgg)
  end.

Definition ReingestRange (ledgerRanges : list LedgerRange) (force rebuildTradeAgg : bool) : M (res unit) :=
  try (ret (validateRanges ledgerRanges)) (fun e => Err e) (fun _ =>
  reingest_ranges ledgerRanges force rebuildTradeAgg).

(** ** Entry points of [main.go] *)

Definition Run (fuel : nat) : M machine_result := runStateMachine fuel (startState 0).
Definition VerifyRange_ (fuel : nat) (fromLedger toLedger : Z) (verify : bool) : M machine_result :=
  runStateMachine fuel (verifyRangeState fromLedger toLedger verify).
Definition BuildState_ (fuel : nat) (sequence : Z) (skipChecks : bool) : M machine_result :=
  runStateMachine fuel (buildState sequence skipChecks true).
Definition BuildGenesisState (fuel : nat) : M machine_result :=
  runStateMachine fuel (buildState 1 false true).

End Machine.
End IngestFsm.
