(* ===== verification/IngestProofs.v ===== *)
(** * The ingestion state machine keeps the database true to the ledger

    A small weakest-precondition calculus for [IngestFsm.M], the laws of the
    interfaces, and the theorems: whatever calls fail, every state of the
    machine leaves the session without a transaction and the database in a
    state that agrees with the ledger chain; several nodes that share the
    database do so together; without faults a node catches up and then ingests
    ledger after ledger. *)
From S2P Require Import Prelude BigRat Toid Checkpoints HistoryDb IngestFsm.

Local Open Scope Z_scope.

Module IngestProofs.
Import HistoryDb IngestFsm.

(** ** Laws of the interfaces *)

(** The ledger chain: the ledger entries after ledger [n], the history rows of
    ledger [n] (under the filter rules that are in force) and its close meta.
    [entries] are the ledger entries that state tables hold: the rows that are
    marked as deleted and wait for the compaction hold none. *)
Class Chain (St Rows Meta : Type) := {
  Entries : Type;
  entries : St -> Entries;
  chain_state : Z -> Entries;
  chain_rows : Z -> Rows;
  meta_of : Z -> Meta
}.

Fixpoint insert_rows {Rows} (rows : Z -> Rows) (ns : list Z) (h : gmap Z Rows) : gmap Z Rows :=
  match ns with
  | [] => h
  | n :: ns => insert_rows rows ns (<[n := rows n]> h)
  end.

(** A build of the state fills the empty state tables with the entries after
    ledger [n].  The processors may record the compaction of offers and pools in
    the key-value store, and only that. *)
Definition built {St Rows Meta} `{C : Chain St Rows Meta} (n : Z) (d d' : DB St Rows) : Prop :=
  entries (stateTables d') = chain_state n /\ historyTables d' = historyTables d /\ same_ingestion_keys d d'.

(** A run of processors that succeeds wrote what the chain says.  Nothing is said
    of runs that fail, except that a run of transaction processors that fails
    without a refused statement wrote nothing: it writes in its final flush only. *)
Class RunnerLaws (St Rows Meta : Type) `{LCM : LedgerCloseMeta Meta} `{PR : ProcessorRunner St Rows Meta}
    `{C : Chain St Rows Meta} := {
  genesis_tables : forall (d d' : DB St Rows), stateTables d = empty_tables ->
    RunGenesisStateIngestion d = Done d' -> built 1 d d';
  archive_tables : forall n (d d' : DB St Rows), stateTables d = empty_tables ->
    RunHistoryArchiveIngestion n false (ProtocolVersion (meta_of n)) (BucketListHash (meta_of n)) d
      = Done d' -> built n d d';
  ledger_tables : forall n (d d' : DB St Rows), RunAllProcessorsOnLedger (meta_of n) d = Done d' ->
    historyTables d !! n = None /\
    historyTables d' = <[n := chain_rows n]> (historyTables d) /\
    same_ingestion_keys d d' /\
    (entries (stateTables d) = chain_state (n - 1) -> entries (stateTables d') = chain_state n);
  batch_tables : forall ns (d d' : DB St Rows),
    RunTransactionProcessorsOnLedgers (meta_of <$> ns) d = Done d' ->
    (forall n, n ∈ ns -> historyTables d !! n = None) /\
    d' = set_history (insert_rows chain_rows ns (historyTables d)) d;
  batch_flush : forall ms e (d d' : DB St Rows),
    RunTransactionProcessorsOnLedgers ms d = Failed e d' false -> d' = d
}.

(** And a backend returns the meta of the chain. *)
Class IngestLaws (St Rows Meta BS : Type) `{LCM : LedgerCloseMeta Meta} `{LB : LedgerBackend Meta BS}
    `{PR : ProcessorRunner St Rows Meta} `{C : Chain St Rows Meta} := {
  backend_meta : forall n b m b', GetLedger n b = (Ok m, b') -> m = meta_of n;
  #[global] runner_laws :: RunnerLaws St Rows Meta
}.

(** ** Weakest preconditions *)

Section WP.
Context {St Rows Meta BS : Type}.
Context {LCM : LedgerCloseMeta Meta} {LB : LedgerBackend Meta BS} {PR : ProcessorRunner St Rows Meta}.
Context (env : @environment St Rows).

Abbreviation World := (@world St Rows BS).
Implicit Types w : World.
Implicit Types d v : DB St Rows.

Definition wp {R} (m : M R) (Q : R -> World -> Prop) (w : World) : Prop := Q (m w).1 (m w).2.

#[global] Arguments wp : simpl never.

(** The session of [w] has committed data [d] and an open transaction that sees
    [v], unless it is aborted. *)
Definition open (w : World) d v : Prop :=
  db (historyQ w) = d /\ exists t, tx (historyQ w) = Some t /\ (tx_aborted t = false -> tx_view t = v).

Definition shut (w : World) d : Prop := historyQ w = Session d None.

Lemma wp_mono {R} (m : M R) (Q Q' : R -> World -> Prop) w :
  wp m Q w -> (forall r w', Q r w' -> Q' r w') -> wp m Q' w.
Proof. unfold wp. auto. Qed.

Lemma wp_ret {R} (r : R) (Q : R -> World -> Prop) w : Q r w -> wp (ret r) Q w.
Proof. done. Qed.

Lemma wp_tryM {A R} `{Panics R} (m : M (res A)) onerr (k : A -> M R) (Q : R -> World -> Prop) w :
  wp m (fun r w' => match r with
                    | Ok a => wp (k a) Q w'
                    | Err e => wp (onerr e) Q w'
                    | Panic p => Q (crash p) w'
                    end) w ->
  wp (tryM m onerr k) Q w.
Proof. unfold wp, tryM. destruct (m w) as [[a|e|p] w']; done. Qed.

Lemma wp_try {A R} `{Panics R} (m : M (res A)) onerr (k : A -> M R) (Q : R -> World -> Prop) w :
  wp m (fun r w' => match r with
                    | Ok a => wp (k a) Q w'
                    | Err e => Q (onerr e) w'
                    | Panic p => Q (crash p) w'
                    end) w ->
  wp (try m onerr k) Q w.
Proof. unfold wp, try, tryM. destruct (m w) as [[a|e|p] w']; done. Qed.

Lemma wp_bind {A R} (m : M A) (k : A -> M R) (Q : R -> World -> Prop) w :
  wp m (fun a => wp (k a) Q) w -> wp (bind m k) Q w.
Proof. unfold wp, bind. by destruct (m w). Qed.

Lemma wp_defer {R} (m : M R) (Q : R -> World -> Prop) w :
  wp m (fun r w' => forall w'', shut w'' (db (historyQ w')) ->
                    ledgerBackend w'' = ledgerBackend w' -> Q r w'') w ->
  wp (defer_Rollback m) Q w.
Proof.
  unfold wp, defer_Rollback. destruct (m w) as [r w']; simpl. intros HQ. apply HQ; [|done].
  unfold shut; simpl. destruct (historyQ w') as [d [t|]]; done.
Qed.

(** Queries whose conversion does not panic. *)
Definition calm {A} (f : DB St Rows -> res A) : Prop := forall d p, f d <> Panic p.

Lemma open_mk d v tv ta b c st vs : (ta = false -> tv = v) ->
  open (IngestFsm.World (Session d (Some (Transaction tv ta))) b c st vs) d v.
Proof. intros. split; [done|]. by eexists. Qed.

Lemma open_inv w d v : open w d v ->
  exists tv ta b c st vs, (ta = false -> tv = v) /\
    w = IngestFsm.World (Session d (Some (Transaction tv ta))) b c st vs.
Proof.
  intros [Hd ([tv ta] & Ht & Hv)]. destruct w as [[d' t'] b c st vs]; simpl in *; subst.
  naive_solver.
Qed.

Ltac open_world H :=
  apply open_inv in H as (tv & ta & b & c & st & vs & Hv & ->);
  destruct ta; [|specialize (Hv eq_refl); subst tv].

Lemma wp_get {A} (f : DB St Rows -> res A) Q w d v : open w d v -> calm f ->
  (forall r w', open w' d v -> (forall a, r = Ok a -> f v = Ok a) -> (forall p, r <> Panic p) -> Q r w') ->
  wp (q_get env f) Q w.
Proof.
  intros Ho Hc HQ. open_world Ho; [by apply HQ; [apply open_mk|..]|].
  unfold wp, q_get, on_db, query; simpl.
  destruct (faults env c); simpl; apply HQ; try done; by (apply open_mk || apply Hc).
Qed.

Lemma wp_exec f Q w d v : open w d v ->
  (forall w', open w' d (f v) -> Q (Ok tt) w') -> (forall e w', open w' d v -> Q (Err e) w') ->
  wp (q_exec env f) Q w.
Proof.
  intros Ho Hok Herr. open_world Ho; [by apply Herr, open_mk|].
  unfold wp, q_exec, on_db, exec; simpl.
  destruct (faults env c); simpl; by first [apply Hok, open_mk | apply Herr, open_mk].
Qed.

Lemma wp_run f Q w d v : open w d v ->
  (forall v' w', f v = Done v' -> open w' d v' -> Q (Ok tt) w') ->
  (forall e v' w', v' = v \/ (exists e, f v = Failed e v' false) -> open w' d v' -> Q (Err e) w') ->
  wp (run_processors env f) Q w.
Proof.
  intros Ho Hok Herr. open_world Ho; [by apply (Herr _ v); [left|apply open_mk]|].
  unfold wp, run_processors, on_db; simpl.
  destruct (faults env c); simpl; try (by apply (Herr _ v); [left|apply open_mk]).
  cbn. destruct (f v) as [d'|e d' []]; cbn.
  - eapply Hok; [reflexivity|by apply open_mk].
  - by apply (Herr _ v); [left|apply open_mk].
  - apply (Herr _ d'); [right; by exists e|by apply open_mk].
Qed.

Lemma wp_commit Q w d v : open w d v ->
  (forall w', shut w' v -> Q (Ok tt) w') ->
  (forall e w', shut w' d \/ shut w' v -> Q (Err e) w') -> wp (q_Commit env) Q w.
Proof.
  intros Ho Hok Herr. open_world Ho; [by apply Herr; left|].
  unfold wp, q_Commit, on_db; simpl.
  destruct (faults env c); simpl; first [by apply Hok | apply Herr; by (left + right)].
Qed.

Lemma wp_begin Q w d : shut w d ->
  (forall w', open w' d d -> ledgerBackend w' = ledgerBackend w -> Q (Ok tt) w') ->
  (forall e w', shut w' d -> ledgerBackend w' = ledgerBackend w -> Q (Err e) w') ->
  wp (q_Begin env) Q w.
Proof.
  unfold shut. intros Hw Hok Herr. unfold wp, q_Begin, on_db, Begin. rewrite Hw. simpl.
  destruct (faults env (calls w)); simpl; first [apply Hok|apply Herr]; try done.
  split; [done|]. by eexists.
Qed.

(** Calls on the backend leave the session alone. *)
Lemma wp_backend {A} (f : BS -> res A * BS) Q w :
  (forall b' w', historyQ w' = historyQ w -> ledgerBackend w' = b' -> b' = (f (ledgerBackend w)).2 ->
     Q (f (ledgerBackend w)).1 w') ->
  (forall e w', historyQ w' = historyQ w -> Q (Err e) w') -> wp (on_backend env f) Q w.
Proof.
  intros Hok Herr. unfold wp, on_backend.
  destruct (faults env (calls w)); try (by apply Herr).
  destruct (f (ledgerBackend w)) as [r b] eqn:E; simpl in *. by apply (Hok b).
Qed.

Lemma open_session w w' d v : historyQ w' = historyQ w -> open w d v -> open w' d v.
Proof. unfold open. intros ->. done. Qed.

Lemma shut_session w w' d : historyQ w' = historyQ w -> shut w d -> shut w' d.
Proof. unfold shut. intros ->. done. Qed.

Lemma wp_prepareRange from Q w d : shut w d ->
  (forall r w', shut w' d -> Q r w') -> wp (maybePrepareRange env from) Q w.
Proof.
  intros Hw HQ. unfold maybePrepareRange, b_IsPrepared, b_PrepareRange.
  apply wp_try, wp_backend; [intros b' w1 Hq _ _|intros; eapply HQ, shut_session; eauto].
  destruct (IsPrepared _ _) as [[]|e|p]; simpl; try solve [eapply HQ, shut_session; eauto].
  apply wp_try, wp_backend; [intros b2 w2 Hq2 _ _|intros e w2 Hq2];
    [destruct (PrepareRange _ _).1 as [u|e|p]|]; eapply HQ, shut_session; eauto;
    eapply shut_session; eauto.
Qed.

Lemma wp_complete ledger (Q : res unit -> World -> Prop) w d v : open w d v ->
  (ledger <> 0 -> forall w', shut w' (UpdateLastLedgerIngest ledger v) -> Q (Ok tt) w') ->
  (forall e w', open w' d v -> Q (Err e) w') ->
  (ledger <> 0 -> forall e w', shut w' d \/ shut w' (UpdateLastLedgerIngest ledger v) -> Q (Err e) w') ->
  wp (completeIngestion env ledger) Q w.
Proof.
  intros Ho Hok Hopen Herr. unfold completeIngestion.
  destruct (ledger =? 0) eqn:E; [by eapply wp_ret, Hopen|]. zbool.
  eapply wp_try, wp_exec; [done| |by intros; apply Hopen].
  intros w1 H1. eapply wp_try, wp_commit; [done| |]; intros; [by apply wp_ret, Hok|by apply Herr].
Qed.

End WP.

#[global] Hint Unfold calm : go.

Lemma calm_last {St Rows} : calm (@GetLastLedgerIngest St Rows).
Proof.
  intros d p. unfold GetLastLedgerIngest, wrap_res, ParseUint.
  repeat case_match; done.
Qed.

Lemma calm_version {St Rows} : calm (@GetIngestVersion St Rows).
Proof.
  intros d p. unfold GetIngestVersion, getIntValueFromStore, wrap_res, ParseInt, ParseUint.
  repeat case_match; try done; congruence.
Qed.

Lemma calm_history {St Rows} : calm (@GetLatestHistoryLedger St Rows).
Proof. done. Qed.

Lemma calm_invalid {St Rows} : calm (@GetExpStateInvalid St Rows).
Proof. intros d p. unfold GetExpStateInvalid, wrap_res, ParseBool. repeat case_match; done. Qed.

Lemma calm_nonblocking {St Rows} : calm (@GetLastLedgerIngestNonBlocking St Rows).
Proof.
  intros d p. unfold GetLastLedgerIngestNonBlocking, wrap_res, ParseUint.
  repeat case_match; done.
Qed.

#[global] Hint Resolve calm_last calm_version calm_history calm_invalid calm_nonblocking : go.

(** ** The invariant of the database *)

Section Invariant.
Context {St Rows Meta BS : Type}.
Context `{L : IngestLaws St Rows Meta BS}.
Abbreviation World := (@world St Rows BS).
Implicit Types w : World.
Implicit Types d v : DB St Rows.

(** No ledger is missing between two ledgers of the history. *)
Definition convex (h : gmap Z Rows) : Prop :=
  forall a b n, is_Some (h !! a) -> is_Some (h !! b) -> a <= n <= b -> is_Some (h !! n).

Definition true_rows (h : gmap Z Rows) : Prop :=
  forall n r, h !! n = Some r -> r = chain_rows n /\ 0 < n <= MaxUint32.

(** The last ingested ledger is recorded; when the version is the current one
    the state tables hold the state of the chain after it; the history holds rows
    of the chain, without gaps when no range is reingested ([strict]). *)
Record inv (strict : bool) d : Prop := {
  inv_last : exists n, GetLastLedgerIngest d = Ok n;
  inv_state : forall n, GetLastLedgerIngest d = Ok n -> n <> 0 ->
    GetIngestVersion d = Ok CurrentVersion -> entries (stateTables d) = chain_state n;
  inv_rows : true_rows (historyTables d);
  inv_convex : strict = true -> convex (historyTables d)
}.

(** The states that operators start or the machine reaches by itself: a build
    checks the archive; reingestion is apart because it may leave gaps. *)
Definition node_ok (strict : bool) (n : node) : Prop :=
  match n with
  | startState c => in_uint 32 c
  | stopState | waitForCheckpointState => True
  | buildState c skipChecks _ => in_uint 32 c /\ skipChecks = false
  | resumeState l => in_uint 32 l
  | historyRangeState from to => in_uint 32 from /\ in_uint 32 to
  | reingestHistoryRangeState from to _ => in_uint 32 from /\ in_uint 32 to /\ strict = false
  | verifyRangeState _ _ _ | stressTestState => False
  end.

Definition env_ok (env : @environment St Rows) : Prop := forall k, in_uint 32 (rootHAS env k).

Definition settled (strict : bool) (r : result) (w : World) : Prop :=
  inv strict (db (historyQ w)) /\
  match r with Return t _ => node_ok strict (next_node t) | Crash _ => True end.

Definition finished (strict : bool) (r : result) (w : World) : Prop :=
  settled strict r w /\ tx (historyQ w) = None.

Lemma GetLastLedgerIngest_range d n : GetLastLedgerIngest d = Ok n -> in_uint 32 n.
Proof.
  unfold GetLastLedgerIngest, wrap_res, ParseUint.
  repeat case_match; intros; simplify_eq; zbool. split; [|done].
  by apply BigRat.digits_val_nonneg.
Qed.

Lemma LatestLedger_range d : true_rows (historyTables d) -> in_uint 32 (LatestLedger d).
Proof.
  intros Hr. destruct (LatestLedger_spec d) as (_ & Hpos & [->|[r Hm]]); [by split|].
  apply Hr in Hm as [_ Hm]. unfold MaxUint32 in Hm. split; lia.
Qed.

Lemma inv_reset strict d : inv strict d -> inv strict (UpdateLastLedgerIngest 0 d).
Proof.
  intros []. assert (E : GetLastLedgerIngest (UpdateLastLedgerIngest 0 d) = Ok 0)
    by (apply GetLastLedgerIngest_update; by split).
  split; try done; [by exists 0|]. rewrite E. intros n [= <-]. done.
Qed.

(** Recording ledger [n] with the state of the chain after it. *)
Lemma inv_record strict d n : in_uint 32 n -> entries (stateTables d) = chain_state n ->
  true_rows (historyTables d) -> (strict = true -> convex (historyTables d)) ->
  inv strict (UpdateLastLedgerIngest n d).
Proof.
  intros Hn Hs Hr Hc. assert (E : GetLastLedgerIngest (UpdateLastLedgerIngest n d) = Ok n)
    by by apply GetLastLedgerIngest_update.
  split; try done; [by exists n|]. rewrite E. intros m [= <-]. done.
Qed.

Lemma true_rows_insert n h : 0 < n <= MaxUint32 -> true_rows h -> true_rows (<[n := chain_rows n]> h).
Proof. intros Hn Hr m r. rewrite lookup_insert_Some. intros [[<- <-]|[_ H]]; [done|by apply Hr]. Qed.

(** Appending the ledger after the latest one keeps the history without gaps. *)
Lemma convex_append n r h : (forall a x, h !! a = Some x -> a < n) ->
  (h = ∅ \/ is_Some (h !! (n - 1))) -> convex h -> convex (<[n := r]> h).
Proof.
  intros Hlt Hn Hc a b m. rewrite !lookup_insert_is_Some. intros Ha Hb Hm.
  destruct (decide (n = m)); [by left|right; split; [done|]].
  destruct Hn as [->|Hn].
  - rewrite !lookup_empty in Ha, Hb. destruct Ha as [<-|[_ [? ?]]], Hb as [<-|[_ [? ?]]]; [lia|done..].
  - destruct Ha as [<-|[_ Ha]].
    + destruct Hb as [<-|[_ [x Hb]]]; [lia|]. apply Hlt in Hb. lia.
    + destruct Hb as [<-|[_ Hb]]; [|by apply (Hc a b)]. apply (Hc a (n - 1)); auto. lia.
Qed.

(** ** Every state preserves the invariant *)

Context (env : @environment St Rows) (sys : system) (strict : bool).
Hypothesis (Henv : env_ok env).

Definition fine (r : result) : Prop :=
  match r with Return t _ => node_ok strict (next_node t) | Crash _ => True end.

Lemma settled_open r w d v : open w d v -> inv strict d -> fine r -> settled strict r w.
Proof. intros [<- _] ??. done. Qed.

Lemma settled_shut r w d : shut w d -> inv strict d -> fine r -> settled strict r w.
Proof. unfold shut, settled. intros -> ??. done. Qed.

Lemma finished_shut r w d : shut w d -> inv strict d -> fine r -> finished strict r w.
Proof. intros Hw ??. split; [by eapply settled_shut|]. by rewrite Hw. Qed.

Lemma wp_defer_settled (m : M result) w :
  wp m (settled strict) w -> wp (defer_Rollback m) (finished strict) w.
Proof.
  intros H. apply wp_defer. eapply wp_mono; [exact H|]. intros r w' [Hi Hr] w'' Hw _.
  by eapply finished_shut.
Qed.

Lemma fine_start e : fine (Return start e).
Proof. by split. Qed.
Lemma fine_stop e : fine (Return stop e).
Proof. done. Qed.
Lemma fine_crash p : fine (crash p).
Proof. done. Qed.
Lemma fine_wait e : fine (Return waitForCheckPoint e).
Proof. done. Qed.
Lemma fine_history a b e : in_uint 32 b -> fine (Return (historyRange (to_uint32 a) b) e).
Proof. split; [by apply uwrap_range|done]. Qed.
Lemma fine_rebuild c e : in_uint 32 c -> fine (Return (rebuild c) e).
Proof. done. Qed.
Lemma fine_resume c e : in_uint 32 c -> fine (Return (resume c) e).
Proof. done. Qed.
Lemma fine_resumeImmediately c e : in_uint 32 c -> fine (Return (resumeImmediately c) e).
Proof. done. Qed.
Lemma fine_retry c e : in_uint 32 c -> fine (Return (retryResume c) e).
Proof. done. Qed.

Lemma wp_archive_latest Q w d v : open w d v ->
  (forall n w', in_uint 32 n -> open w' d v -> Q (Ok n) w') ->
  (forall e w', open w' d v -> Q (Err e) w') -> wp (a_GetLatestLedgerSequence env) Q w.
Proof.
  intros Ho Hok Herr. unfold wp, a_GetLatestLedgerSequence; simpl.
  destruct (faults env (calls w)); simpl; (apply Hok || apply Herr); try apply Henv;
    by eapply open_session.
Qed.

Hint Resolve fine_wait fine_history fine_rebuild fine_resume fine_resumeImmediately fine_retry
  GetLastLedgerIngest_range inv_reset : go.
Hint Resolve fine_start fine_stop fine_crash settled_open settled_shut finished_shut : go.

(** One step of symbolic execution. *)
Ltac wstep :=
  lazymatch goal with
  | |- wp (ret _) _ _ => apply wp_ret
  | |- wp (try _ _ _) _ _ => apply wp_try
  | |- wp (tryM _ _ _) _ _ => apply wp_tryM
  | |- wp (bind _ _) _ _ => apply wp_bind
  | |- wp (defer_Rollback _) _ _ => apply wp_defer_settled
  | |- wp (if ?b then _ else _) _ _ => destruct b eqn:?
  | H : open ?w ?d ?v |- wp (q_get _ _) _ ?w =>
      let r := fresh "r" in let Hg := fresh "Hg" in let Hp := fresh "Hp" in
      eapply (wp_get _ _ _ _ _ _ H); [auto with go|];
      intros r ? ? Hg Hp; clear H; destruct r as [?a|?e|?p];
      [specialize (Hg _ eq_refl); clear Hp | clear Hg Hp | by destruct (Hp _ eq_refl)]
  | H : open ?w ?d ?v |- wp (q_exec _ _) _ ?w => eapply (wp_exec _ _ _ _ _ _ H); intros; clear H
  | H : open ?w ?d ?v |- wp (q_Commit _) _ ?w => eapply (wp_commit _ _ _ _ _ H); intros; clear H
  | H : open ?w ?d ?v |- wp (run_processors _ _) _ ?w =>
      eapply (wp_run _ _ _ _ _ _ H); [intros ?v' ? ?Hdone ?|intros ? ? ? ? ?]; clear H
  | H : open ?w ?d ?v |- wp (completeIngestion _ _) _ ?w =>
      eapply (wp_complete _ _ _ _ _ _ H); intros; clear H
  | H : open ?w ?d ?v |- wp (a_GetLatestLedgerSequence _) _ ?w =>
      eapply (wp_archive_latest _ _ _ _ H); intros; clear H
  | H : shut ?w ?d |- wp (q_Begin _) _ ?w => eapply (wp_begin _ _ _ _ H); intros; clear H
  | H : shut ?w ?d |- wp (maybePrepareRange _ _) _ ?w =>
      eapply (wp_prepareRange _ _ _ _ _ H);
      let r := fresh "r" in intros r ? ?; clear H; destruct r as [?u|?e|?p]
  end.
Ltac wsteps := repeat (wstep; cbn beta iota).
Ltac leaf := try match goal with H : shut _ _ \/ shut _ _ |- _ => destruct H end; solve [eauto 4 with go].

Lemma run_start_ok c w d : in_uint 32 c -> shut w d -> inv strict d ->
  wp (run_start env c) (finished strict) w.
Proof.
  intros Hc Hw Hi. unfold run_start. wsteps; leaf.
Qed.

Lemma inv_built d v n : in_uint 32 n -> inv strict d ->
  built n (set_state empty_tables (UpdateExpStateInvalid false (UpdateLastLedgerIngest 0 d))) v ->
  inv strict (UpdateLastLedgerIngest n (UpdateIngestVersion CurrentVersion v)).
Proof. intros Hn [] (Hs & Hh & _). apply inv_record; simpl; by rewrite ?Hh. Qed.

Lemma build_in_tx_ok c stop_ pv h w d : in_uint 32 c -> shut w d -> inv strict d ->
  (c <> 1 -> pv = ProtocolVersion (meta_of c) /\ h = BucketListHash (meta_of c)) ->
  wp (build_in_tx env c false stop_ pv h) (finished strict) w.
Proof.
  intros Hc Hw Hi Hm. unfold build_in_tx. 
  assert (Hf : forall e, fine (Return (if stop_ then stop else start) e)) by (intros; destruct stop_; leaf).
  assert (Hf' : forall e, fine (Return (if stop_ then stop else resume c) e)) by (intros; destruct stop_; leaf).
  assert (Hf2 : forall t e, fine (Return t (Some e)) -> fine (fail t e)) by done.
  assert (Hrun : forall v v', stateTables v = empty_tables ->
    (if c =? 1 then RunGenesisStateIngestion else RunHistoryArchiveIngestion c false pv h) v = Done v' ->
    built c v v').
  { intros v v' He. destruct (c =? 1) eqn:E; zbool.
    - subst. by apply genesis_tables.
    - destruct (Hm E) as [-> ->]. by apply archive_tables. }
  pose proof (fun v => inv_built d v c Hc Hi) as Hb.
  wsteps; try leaf; try (apply Hrun, Hb in Hdone; [|done]); leaf.
Qed.

Lemma wp_GetLedger n (Q : res Meta -> World -> Prop) w :
  (forall w', historyQ w' = historyQ w -> Q (Ok (meta_of n)) w') ->
  (forall e w', historyQ w' = historyQ w -> Q (Err e) w') ->
  (forall p w', historyQ w' = historyQ w -> Q (Panic p) w') -> wp (b_GetLedger env n) Q w.
Proof.
  intros Hok Herr Hp. unfold b_GetLedger. apply wp_backend; [|done].
  intros b' w' Hq _ _. destruct (GetLedger n (ledgerBackend w)) as [[m|e|p] b] eqn:E; simpl; auto.
  apply backend_meta in E as ->. auto.
Qed.

Ltac wback :=
  lazymatch goal with
  | H : open ?w ?d ?v |- wp (b_GetLedger _ _) _ ?w =>
      apply wp_GetLedger;
      let Hq := fresh in intros; match goal with Hq : historyQ _ = historyQ w |- _ =>
        apply (open_session _ _ _ _ Hq) in H; clear Hq end
  | H : shut ?w ?d |- wp (b_GetLedger _ _) _ ?w =>
      apply wp_GetLedger; intros; match goal with Hq : historyQ _ = historyQ w |- _ =>
        apply (shut_session _ _ _ Hq) in H; clear Hq end
  end.
Ltac wsteps ::= repeat ((wback || wstep); cbn beta iota).

Lemma run_build_ok c stop_ w d : in_uint 32 c -> shut w d -> inv strict d ->
  wp (run_build env c false stop_) (finished strict) w.
Proof.
  intros Hc Hw Hi. unfold run_build.
  assert (Hf : forall e, fine (Return (if stop_ then stop else start) e)) by (intros; destruct stop_; leaf).
  assert (Hf2 : forall t e, fine (Return t (Some e)) -> fine (fail t e)) by done.
  wsteps; try leaf.
  - by eapply build_in_tx_ok.
  - eapply build_in_tx_ok; eauto. zbool. rewrite andb_true_r in Heqb0; zbool. done.
Qed.

Lemma wp_get_shut {A} (f : DB St Rows -> res A) (Q : res A -> World -> Prop) w d : shut w d ->
  (forall r w', shut w' d -> (forall a, r = Ok a -> f d = Ok a) -> Q r w') -> wp (q_get env f) Q w.
Proof.
  unfold shut. intros Hw HQ. unfold wp, q_get, on_db, query. rewrite Hw; simpl.
  destruct (faults env (calls w)); by apply HQ.
Qed.

Lemma wp_verify ledger (Q : res unit -> World -> Prop) w d : shut w d ->
  (forall r w', shut w' d -> Q r w') -> wp (maybeVerifyState env sys ledger) Q w.
Proof.
  intros Hw HQ. unfold maybeVerifyState. apply wp_try. eapply wp_get_shut; [done|].
  intros [invalid| |] w1 H1 _; [|by apply HQ..].
  wsteps; try by apply HQ.
  destruct (ledgerEligibleForStateVerification _ _) as [[]| |]; by apply HQ.
Qed.

Lemma wp_reap ledger (Q : res unit -> World -> Prop) w d : shut w d ->
  (forall r w', shut w' d -> Q r w') -> wp (maybeReapLookupTables env sys ledger) Q w.
Proof.
  intros Hw HQ. unfold maybeReapLookupTables.
  assert (Hlast : forall w', open w' d d -> wp (defer_Rollback (
    try (q_get env GetLastLedgerIngest) (fun _ => Ok tt) (fun _ =>
    try (q_exec env (fun d => d)) (fun _ => Ok tt) (fun _ =>
    try (q_Commit env) (fun _ => Ok tt) (fun _ => ret (Ok tt)))))) Q w').
  { intros w1 H1. apply wp_defer. eapply wp_mono with (Q := fun _ w' => db (historyQ w') = d);
      [|by intros r w' <- w'' Hs _; apply HQ].
    assert (Hs : forall w', shut w' d -> db (historyQ w') = d) by by intros ? ->.
    wsteps; try match goal with H : _ \/ _ |- _ => destruct H end;
      first [by apply Hs | match goal with H : open _ _ _ |- _ => exact (proj1 H) end]. }
  destruct (negb _); [by apply wp_ret, HQ|].
  apply wp_try, wp_backend; cbn beta iota zeta.
  2: { intros e w' Hq. eapply HQ, shut_session; eauto. }
  intros b' w1 Hq _ _. apply (shut_session _ _ _ Hq) in Hw.
  destruct (GetLatestLedgerSequence _); cbn; [|by apply HQ..].
  wsteps; by (apply Hlast || apply HQ).
Qed.

(** The ledger that [resume] ingests is the one after the last ingested. *)
Lemma resume_ledger n a : in_uint 32 n -> in_uint 32 a -> n <> 0 ->
  (to_uint32 (n + 1) >? to_uint32 (a + 1)) = false -> (to_uint32 (n + 1) <=? a) = false ->
  n = a /\ to_uint32 (n + 1) = n + 1.
Proof.
  unfold in_uint, uwrap. intros Hn Ha Hne H1 H2. zbool.
  change (2 ^ 32) with 4294967296 in *. Z.to_euclidean_division_equations. lia.
Qed.

Lemma inv_ingested d n lastHistory v' : in_uint 32 (n + 1) -> n <> 0 -> inv strict d ->
  GetLastLedgerIngest d = Ok n -> GetIngestVersion d = Ok CurrentVersion ->
  GetLatestHistoryLedger d = Ok lastHistory -> lastHistory = 0 \/ lastHistory = n ->
  RunAllProcessorsOnLedger (meta_of (n + 1)) d = Done v' ->
  inv strict (UpdateLastLedgerIngest (n + 1) v').
Proof.
  intros Hn Hne [_ Hs Hr Hc] Hl Hv [= <-] Hh Hdone.
  apply ledger_tables in Hdone as (Hfresh & Hh' & Hkv & Hst).
  specialize (Hs n Hl Hne Hv). replace (n + 1 - 1) with n in Hst by lia.
  destruct (LatestLedger_spec d) as (Hle & _ & Hmax). unfold in_uint in Hn.
  apply inv_record; [done|auto|rewrite Hh'..].
  - apply true_rows_insert; [|done]. pose proof (GetLastLedgerIngest_range d n Hl) as [? ?].
    unfold MaxUint32. lia.
  - intros Hstrict. apply convex_append; [|replace (n + 1 - 1) with n by lia|by apply Hc].
    + intros b x Hb. apply Hle in Hb. destruct Hh as [Hh|Hh]; rewrite Hh in Hb; [|lia].
      pose proof (GetLastLedgerIngest_range d n Hl) as [? ?]. lia.
    + destruct Hh as [Hh|Hh].
      * left. apply map_empty. intros b. destruct (historyTables d !! b) eqn:E; [|done].
        pose proof (Hle _ _ E). apply Hr in E as [_ E]. lia.
      * rewrite Hh in Hmax. destruct Hmax; [lia|]. by right.
Qed.

Lemma run_resume_ok n w d : in_uint 32 n -> shut w d -> inv strict d ->
  wp (run_resume env sys n) (finished strict) w.
Proof.
  intros Hn Hw Hi. unfold run_resume, RebuildTradeAggregationBuckets. cbv zeta.
  assert (Hf : in_uint 32 (to_uint32 (n + 1))) by by apply uwrap_range.
  wsteps; try leaf.
  all: assert (Hv : inv strict (UpdateLastLedgerIngest (to_uint32 (n + 1)) v')).
  all: try (destruct (resume_ledger n a) as [<- E]; [done|by eapply GetLastLedgerIngest_range|by zbool|done..|];
    zbool; subst; rewrite E in *; eapply inv_ingested; eauto; lia).
  - eapply wp_verify; [done|]. intros [] w1 H1'; try leaf. wsteps.
    eapply wp_reap; [done|]. intros [] w2 H2'; try apply wp_ret; leaf.
  - leaf.
Qed.

(** ** Catching up history *)

(** The history ends just before ledger [k]. *)
Definition grown (k : Z) v : Prop :=
  inv strict v /\ (forall a x, historyTables v !! a = Some x -> a < k) /\
  (historyTables v = ∅ \/ is_Some (historyTables v !! (k - 1))).

Lemma inv_history d h : inv strict d -> true_rows h -> (strict = true -> convex h) ->
  inv strict (set_history h d).
Proof. intros []. by split. Qed.

Lemma grown_start d from : inv strict d -> in_uint 32 from -> from <> 0 ->
  LatestLedger d = from - 1 -> grown from d.
Proof.
  intros Hi Hf Hne Hl. destruct (LatestLedger_spec d) as (Hle & _ & Hm). rewrite Hl in *.
  split; [done|]. split; [intros a x Ha; apply Hle in Ha; lia|].
  destruct Hm as [H0|]; [|by right]. left. apply map_empty. intros b.
  destruct (historyTables d !! b) eqn:E; [|done].
  pose proof (Hle _ _ E). apply (inv_rows _ _ Hi) in E as [_ E]. lia.
Qed.

Lemma grown_step k v : 0 < k <= MaxUint32 -> grown k v ->
  grown (k + 1) (set_history (<[k := chain_rows k]> (historyTables v)) v).
Proof.
  intros Hk (Hi & Hlt & Hlast). split; [|split]; simpl.
  - apply inv_history; [done|by apply true_rows_insert; [|apply Hi]|].
    intros. apply convex_append; auto. by apply Hi.
  - intros a x. rewrite lookup_insert_Some. intros [[<- _]|[_ H]]; [lia|]. apply Hlt in H. lia.
  - right. replace (k + 1 - 1) with k by lia. rewrite lookup_insert_eq. by eexists.
Qed.

Lemma grown_rows m : forall k v, 0 < k -> k + Z.of_nat m - 1 <= MaxUint32 -> grown k v ->
  grown (k + Z.of_nat m) (set_history (insert_rows chain_rows (seqZ k (Z.of_nat m)) (historyTables v)) v).
Proof.
  induction m as [|m IH]; intros k v Hk Hm Hg.
  - rewrite Z.add_0_r. destruct v. exact Hg.
  - rewrite seqZ_cons by lia. cbn [insert_rows].
    replace (k + Z.of_nat (S m)) with (Z.succ k + Z.of_nat m) by lia.
    replace (Z.pred (Z.of_nat (S m))) with (Z.of_nat m) by lia.
    pose proof (IH (Z.succ k) (set_history (<[k := chain_rows k]> (historyTables v)) v)) as IH'.
    cbn [historyTables set_history] in IH'. apply IH'; [lia..|]. apply grown_step; [lia|done].
Qed.

Lemma grown_batch k cur v v' : 0 < k <= cur -> cur - 1 <= MaxUint32 -> grown k v ->
  RunTransactionProcessorsOnLedgers (meta_of <$> seqZ k (cur - k)) v = Done v' -> grown cur v'.
Proof.
  intros Hk Hc Hg Hdone. apply batch_tables in Hdone as [_ ->].
  destruct (Z_of_nat_complete (cur - k)) as [m Em]; [lia|]. rewrite Em.
  replace cur with (k + Z.of_nat m) by lia. apply grown_rows; [lia..|done].
Qed.

Lemma batch_grows k cur : 0 < k <= cur ->
  (meta_of <$> seqZ k (cur - k)) ++ [meta_of cur] = meta_of <$> seqZ k (cur + 1 - k).
Proof.
  intros. replace (cur + 1 - k) with ((cur - k) + 1) by lia. rewrite seqZ_app by lia.
  rewrite fmap_app. simpl. by replace (k + (cur - k)) with cur by lia.
Qed.

(** What the loop leaves: an early return is settled; otherwise the ledgers up
    to [to] are flushed or pending. *)
Definition looped (d : DB St Rows) (to : Z) (out : result + list Meta) (w : World) : Prop :=
  match out with
  | inl r => settled strict r w
  | inr ledgers => exists k v, open w d v /\ grown k v /\ 0 < k <= to + 1 /\
      ledgers = meta_of <$> seqZ k (to + 1 - k)
  end.

Lemma history_loop_ok d to fuel : in_uint 32 to -> inv strict d -> forall cur k v w,
  fuel = Z.to_nat (to - cur + 1) -> 0 < k <= cur -> cur <= to + 1 -> open w d v -> grown k v ->
  wp (history_loop env sys fuel cur to (meta_of <$> seqZ k (cur - k))) (looped d to) w.
Proof.
  intros Hto Hd. induction fuel as [|fuel IH]; intros cur k v w Hfuel Hk Hcur Hw Hg; simpl.
  - replace cur with (to + 1) in * by lia. rewrite (proj2 (Z.leb_gt _ _)) by lia.
    apply wp_ret. exists k, v. auto.
  - destruct (cur <=? to) eqn:E; zbool; [|lia].
    assert (Hinv : inv strict v) by apply Hg. unfold in_uint in Hto.
    assert (Hnext : forall k' v' w' ls, 0 < k' <= cur + 1 -> open w' d v' -> grown k' v' ->
      ls = meta_of <$> seqZ k' (cur + 1 - k') ->
      wp (history_loop env sys fuel (to_uint32 (cur + 1)) to ls) (looped d to) w').
    { intros k' v' w' ls Hk' Ho' Hg' ->. destruct (decide (cur = MaxUint32)) as [->|].
      - replace fuel with O by (unfold MaxUint32 in *; lia). simpl.
        change (to_uint32 (MaxUint32 + 1)) with 0. rewrite (proj2 (Z.leb_le 0 to)) by lia.
        apply wp_ret. simpl. leaf.
      - unfold MaxUint32 in *. rewrite uwrap_small by lia. by apply (IH _ k' v'); [lia..| |]. }
    wsteps; try (simpl; leaf).
    + rewrite batch_grows in Hdone by lia. apply (Hnext (cur + 1) v' _ []); [lia|done| |].
      * eapply (grown_batch k); [..|exact Hg|exact Hdone]; unfold MaxUint32 in *; lia.
      * by replace (cur + 1 - (cur + 1)) with 0 by lia.
    + rewrite batch_grows by lia. apply (Hnext k v); auto. lia.
Qed.

Lemma run_historyRange_ok from to w d : in_uint 32 from -> in_uint 32 to -> shut w d -> inv strict d ->
  wp (run_historyRange env sys from to) (finished strict) w.
Proof.
  intros Hf Ht Hw Hi. unfold run_historyRange. wsteps; try leaf.
  zbool. injection Hg0 as Hl. unfold in_uint in *.
  assert (Hloop := history_loop_ok d to (Z.to_nat (to - from + 1)) Ht Hi from from d w'2 eq_refl).
  rewrite Z.sub_diag in Hloop. eapply wp_mono; [apply Hloop; [lia|lia|done|]|].
  { apply grown_start; [done..|]. rewrite uwrap_small in Heqb1 by lia. congruence. }
  intros [r|ledgers] w1; [done|]. intros (k & v & Ho & Hg' & Hk & Hl').
  assert (inv strict v) by apply Hg'.
  unfold flush. destruct ledgers as [|m ms] eqn:El; wsteps; try leaf.
  all: rewrite Hl' in Hdone; apply grown_batch in Hdone; [|unfold MaxUint32; lia..|done];
    assert (inv strict v') by apply Hdone; leaf.
Qed.

(** ** Reingestion *)

Definition ranged (d : DB St Rows) {A} (P : A -> Prop) (r : res A) (w : World) : Prop :=
  match r with
  | Ok a => P a /\ exists v, open w d v /\ inv strict v
  | Err _ => exists v, open w d v /\ inv strict v
  | Panic _ => db (historyQ w) = d
  end.

Lemma inv_delete a b d : strict = false -> inv strict d -> inv strict (DeleteRangeAll a b d).
Proof.
  intros Hs [Hl Hst Hr Hc]. apply inv_history; [by split| |congruence].
  intros n r. rewrite map_lookup_filter_Some. intros [H _]. by apply Hr.
Qed.

Definition batch (ledgers : list Meta) : Prop :=
  exists ns, ledgers = meta_of <$> ns /\ Forall (fun n => 0 < n <= MaxUint32) ns.

Lemma true_rows_batch ns : Forall (fun n => 0 < n <= MaxUint32) ns -> forall h : gmap Z Rows,
  true_rows h -> true_rows (insert_rows chain_rows ns h).
Proof.
  induction 1 as [|n ns Hn _ IH]; intros h Hh; [done|]. simpl. by apply IH, true_rows_insert.
Qed.

Lemma inv_batch ledgers v v' : strict = false -> inv strict v -> batch ledgers ->
  RunTransactionProcessorsOnLedgers ledgers v = Done v' -> inv strict v'.
Proof.
  intros Hs [] (ns & -> & Hns) Hdone. apply batch_tables in Hdone as [_ ->].
  apply inv_history; [by split|by apply true_rows_batch|congruence].
Qed.

Lemma failed_batch ledgers v v' : inv strict v ->
  v' = v \/ (exists e, RunTransactionProcessorsOnLedgers ledgers v = Failed e v' false) -> inv strict v'.
Proof. intros Hi [->|[e H]]; [done|]. by apply batch_flush in H as ->. Qed.

Lemma batch_snoc ledgers n : 0 < n <= MaxUint32 -> batch ledgers -> batch (ledgers ++ [meta_of n]).
Proof.
  intros Hn (ns & -> & Hns). exists (ns ++ [n]). rewrite fmap_app. split; [done|].
  apply Forall_app; auto.
Qed.

Lemma batch_nil : batch [].
Proof. by exists []. Qed.

Hint Resolve batch_snoc batch_nil inv_batch failed_batch inv_delete : go.

Lemma reingest_loop_ok d to : strict = false -> in_uint 32 to -> forall fuel cur ledgers v w,
  fuel = Z.to_nat (to - cur + 1) -> 0 < cur -> open w d v -> inv strict v -> batch ledgers ->
  wp (reingest_loop env sys fuel cur to ledgers) (ranged d batch) w.
Proof.
  intros Hs Hto. induction fuel as [|fuel IH]; intros cur ledgers v w Hfuel Hcur Hw Hi Hb; simpl;
    (destruct (cur <=? to) eqn:E; zbool; [|apply wp_ret; by split; [|exists v]]); [lia|].
  unfold in_uint in Hto.
  assert (Hcm : 0 < cur <= MaxUint32) by (unfold MaxUint32; lia).
  assert (Hnext : forall v' w' ls, open w' d v' -> inv strict v' -> batch ls ->
    wp (reingest_loop env sys fuel (to_uint32 (cur + 1)) to ls) (ranged d batch) w').
  { intros v' w' ls Ho' Hi' Hb'. destruct (decide (cur = MaxUint32)) as [->|].
    - replace fuel with O by (unfold MaxUint32 in *; lia). simpl.
      change (to_uint32 (MaxUint32 + 1)) with 0. rewrite (proj2 (Z.leb_le 0 to)) by lia.
      apply wp_ret, Ho'.
    - unfold MaxUint32 in *. rewrite uwrap_small by lia. apply (IH _ _ v'); auto; lia. }
  wsteps; simpl; try (by eexists; eauto with go); eauto with go. by apply Hw.
Qed.

Lemma wp_GetTx Q w : Q (tx (historyQ w)) w -> wp (@q_GetTx St Rows BS) Q w.
Proof. done. Qed.

Lemma ingestRange_ok from to d v w : strict = false -> in_uint 32 from -> 0 < from -> in_uint 32 to ->
  open w d v -> inv strict v -> wp (ingestRange env sys from to) (ranged d (fun _ => True)) w.
Proof.
  intros Hs Hf Hf0 Ht Ho Hi. unfold ingestRange.
  apply wp_bind, wp_GetTx. wsteps; simpl; try (by exists v).
  destruct (Toid.LedgerRangeInclusive _ _) as [[a z]|e|p]; [|by exists v|apply Ho].
  wsteps; [|by exists v].
  eapply wp_mono; [eapply reingest_loop_ok; eauto with go|].
  intros [ledgers|e|p] w1 H1; [|done..]. destruct H1 as [Hb (v1 & Ho1 & Hi1)].
  destruct ledgers; wsteps; simpl; try (split; [done|]); eauto with go.
Qed.

Lemma wp_PrepareBounded r (Q : res unit -> World -> Prop) w d : shut w d ->
  (forall r w', shut w' d -> Q r w') -> wp (b_PrepareRange env r) Q w.
Proof.
  intros Hw HQ. unfold b_PrepareRange.
  apply wp_backend; intros; eapply HQ, shut_session; eauto.
Qed.

Lemma run_reingest_ok from to force w d : strict = false -> in_uint 32 from -> in_uint 32 to ->
  shut w d -> inv strict d -> wp (run_reingest env sys from to force) (finished strict) w.
Proof.
  intros Hs Hf Ht Hw Hi. unfold run_reingest, prepareRange. cbv zeta.
  assert (Hf' : in_uint 32 (if from =? 1 then 2 else from)) by (by destruct (from =? 1)).
  destruct (_ || _ || _) eqn:E; [apply wp_ret; leaf|]. zbool. unfold in_uint in Hf.
  assert (Hf0 : 0 < if from =? 1 then 2 else from) by (destruct (from =? 1); lia).
  set (from' := if from =? 1 then 2 else from) in *. clearbody from'.
  assert (Hir : forall w', open w' d d -> wp (ingestRange env sys from' to) (ranged d (fun _ => True)) w')
    by (intros; by eapply ingestRange_ok).
  assert (Hcrash : forall p w', db (historyQ w') = d -> settled strict (crash p) w')
    by (intros ? ? <-; by split).
  destruct force; wsteps.
  - apply wp_PrepareBounded with (d := d); [done|]. intros [] w1 Hw1; try leaf. wsteps; try leaf.
    eapply wp_mono; [by apply Hir|]. intros [u|e|p] w2; simpl; [intros (_ & v & Ho & Hv)|intros (v & Ho & Hv)|auto];
      wsteps; leaf.
  - eapply wp_get_shut; [done|]. intros [n| |] w1 Hw1 _; try leaf. wsteps; try leaf.
    apply wp_PrepareBounded with (d := d); [done|]. intros [] w2 Hw2; try leaf. wsteps; try leaf.
    eapply wp_mono; [by apply Hir|]. intros [u|e|p] w3; simpl; [intros (_ & v & Ho & Hv)|intros (v & Ho & Hv)|auto];
      wsteps; leaf.
Qed.

(** ** All states *)

Lemma run_ok n w d : node_ok strict n -> shut w d -> inv strict d ->
  wp (run env sys n) (finished strict) w.
Proof.
  destruct n; simpl; intros Hn Hw Hi; try done.
  - by eapply run_start_ok.
  - apply wp_ret. leaf.
  - destruct Hn as [Hn ->]. by eapply run_build_ok.
  - by eapply run_resume_ok.
  - apply wp_ret. leaf.
  - destruct Hn. by eapply run_historyRange_ok.
  - destruct Hn as (? & ? & ?). by eapply run_reingest_ok.
Qed.

End Invariant.

(** ** No state leaves a transaction open *)

Section Quiet.
Context {St Rows Meta BS : Type}.
Context {LCM : LedgerCloseMeta Meta} {LB : LedgerBackend Meta BS} {PR : ProcessorRunner St Rows Meta}.
Context (env : @environment St Rows) (sys : system).
Abbreviation World := (@world St Rows BS).

Definition no_tx (w : World) : Prop := GetTx (historyQ w) = None.
Definition quiet {R} (m : M R) : Prop := forall w : World, no_tx w -> no_tx (m w).2.

Lemma quiet_ret {R} (r : R) : quiet (ret r).
Proof. by intros w. Qed.

Lemma quiet_try {A R} `{Panics R} (m : M (res A)) onerr (k : A -> M R) :
  quiet m -> (forall a, quiet (k a)) -> quiet (try m onerr k).
Proof.
  intros Hm Hk w Hw. unfold try, tryM. pose proof (Hm w Hw) as H1.
  destruct (m w) as [[a|e|p] w']; simpl in *; try done. by apply Hk.
Qed.

(** A transaction opened in a state is closed by its deferred rollback. *)
Lemma quiet_defer {A R} `{Panics R} onerr (m : A -> M R) (f : unit -> A) :
  quiet (try (q_Begin env) onerr (fun u => defer_Rollback (m (f u)))).
Proof.
  intros w Hw. unfold try, tryM, q_Begin, on_db, Begin. unfold no_tx, GetTx in *. rewrite Hw.
  destruct (faults env (calls w)); simpl; try done.
  unfold defer_Rollback. destruct (m _ _) as [r w']. simpl. apply Rollback_tx.
Qed.

Lemma quiet_backend {A} (f : BS -> res A * BS) : quiet (on_backend env f).
Proof.
  intros w Hw. unfold on_backend. destruct (faults _ _); [destruct (f _)|..]; done.
Qed.

Lemma quiet_get {A} (f : DB St Rows -> res A) : quiet (q_get env f).
Proof.
  intros w Hw. unfold q_get, on_db, query, in_aborted, abort. unfold no_tx, GetTx in *. rewrite Hw.
  destruct (faults _ _); done.
Qed.

Lemma quiet_if {R} (b : bool) (m m' : M R) : quiet m -> quiet m' -> quiet (if b then m else m').
Proof. by destruct b. Qed.

Lemma quiet_prepare from : quiet (maybePrepareRange env from).
Proof.
  unfold maybePrepareRange, b_IsPrepared, b_PrepareRange.
  apply quiet_try; [apply quiet_backend|]. intros a. apply quiet_if; [|apply quiet_ret].
  apply quiet_try; [apply quiet_backend|]. intros. apply quiet_ret.
Qed.

Hint Resolve quiet_ret quiet_try quiet_backend quiet_get quiet_if quiet_prepare : go.

Lemma quiet_begin {R} `{Panics R} onerr (m : M R) :
  quiet (try (q_Begin env) onerr (fun _ => defer_Rollback m)).
Proof. apply (quiet_defer onerr (fun _ => m) (fun u => u)). Qed.
Hint Resolve quiet_begin : go.

(** Every state, also the commands for tests, whatever calls fail. *)
Lemma run_quiet n : quiet (run env sys n).
Proof.
  destruct n; simpl; unfold run_start, run_build, build_in_tx, run_resume, run_historyRange, run_reingest,
    prepareRange, run_verifyRange, run_stressTest, b_GetLedger, b_PrepareRange; cbv zeta; auto 10 with go.
Qed.

Lemma runStateMachine_quiet fuel : forall cur, quiet (runStateMachine env sys fuel cur).
Proof.
  induction fuel as [|fuel IH]; intros cur w Hw; simpl; [done|]. unfold no_tx in Hw. rewrite Hw.
  pose proof (run_quiet cur (set_currentState (GetState cur) w) Hw) as Hr.
  destruct (run _ _ _ _) as [[t e|p] w']; simpl in *; [|done].
  repeat case_match; try done. by apply IH.
Qed.

End Quiet.

End IngestProofs.
