(* ===== verification/IngestCluster.v ===== *)
(** * Clusters of ingesting nodes

    Several aurora processes share one database; each runs the ingestion state
    machine.  A run of a state holds the row lock on the last ingested ledger
    from its first read to its commit, so the runs of different nodes take
    effect one after the other, in any order, with any calls failing.  This is
    so for the service, for builds of the state and for reingestion with
    [force]; reingestion without [force] takes no lock
    ([GetLastLedgerIngestNonBlocking]) and is not a step of the cluster
    ([IngestReingest] has what a run of it does on its own).  The theorems: every
    reachable database agrees with the ledger chain; the machine never meets a
    transaction left open by an earlier state. *)
From S2P Require Import Prelude HistoryDb IngestFsm IngestProofs.

Local Open Scope Z_scope.

Module IngestCluster.
Import HistoryDb IngestFsm IngestProofs.

Section Cluster.
Context {St Rows Meta BS : Type}.
Context `{L : IngestLaws St Rows Meta BS}.

(** A process: its configuration, the state it is in and its ledger backend. *)
Record process := mkProcess { p_system : system; p_node : node; p_backend : BS }.

Record cluster := mkCluster { c_db : DB St Rows; c_nodes : gmap nat process }.

(** What an operator starts: the service, a build of the state from a
    checkpoint, a reingestion under the row lock (when gaps are accepted). *)
Definition command (strict : bool) (n : node) : Prop :=
  n = startState 0 \/ (exists c, in_uint 32 c /\ n = buildState c false true) \/
  (strict = false /\ exists from to,
     in_uint 32 from /\ in_uint 32 to /\ n = reingestHistoryRangeState from to true).

Inductive cluster_step (strict : bool) : cluster -> cluster -> Prop :=
| step_run i p env calls st vs t err w' d nodes :
    nodes !! i = Some p -> env_ok env ->
    run env (p_system p) (p_node p) (World (Session d None) (p_backend p) calls st vs)
      = (Return t err, w') ->
    cluster_step strict (mkCluster d nodes)
      (mkCluster (db (historyQ w'))
         (<[i := mkProcess (p_system p) (next_node t) (ledgerBackend w')]> nodes))
| step_panic i p env calls st vs msg w' d nodes :
    nodes !! i = Some p -> env_ok env ->
    run env (p_system p) (p_node p) (World (Session d None) (p_backend p) calls st vs)
      = (Crash msg, w') ->
    cluster_step strict (mkCluster d nodes) (mkCluster (db (historyQ w')) (delete i nodes))
| step_die i d nodes :           (** the server rolls back what was not committed *)
    cluster_step strict (mkCluster d nodes) (mkCluster d (delete i nodes))
| step_join i p d nodes :
    nodes !! i = None -> command strict (p_node p) ->
    cluster_step strict (mkCluster d nodes) (mkCluster d (<[i := p]> nodes))
| step_invalid d nodes :         (** a state verification found a difference *)
    cluster_step strict (mkCluster d nodes) (mkCluster (UpdateExpStateInvalid true d) nodes).

Definition cluster_ok (strict : bool) (c : cluster) : Prop :=
  inv strict (c_db c) /\ map_Forall (fun _ p => node_ok strict (p_node p)) (c_nodes c).

Lemma command_ok strict n : command strict n -> node_ok strict n.
Proof.
  intros [->|[(c & Hc & ->)|(Hs & from & to & Hf & Ht & ->)]]; done.
Qed.

Lemma inv_mark_invalid strict d : inv strict d -> inv strict (UpdateExpStateInvalid true d).
Proof.
  intros [Hl Hs Hr Hc].
  assert (E1 : GetLastLedgerIngest (UpdateExpStateInvalid true d) = GetLastLedgerIngest d)
    by by apply GetLastLedgerIngest_other.
  assert (E2 : GetIngestVersion (UpdateExpStateInvalid true d) = GetIngestVersion d)
    by by apply GetIngestVersion_other.
  split; rewrite ?E1, ?E2; done.
Qed.

Lemma run_from strict env sys n d b c st vs r w' : env_ok env -> node_ok strict n -> inv strict d ->
  run env sys n (World (Session d None) b c st vs) = (r, w') -> settled strict r w'.
Proof.
  intros He Hn Hd Hr.
  destruct (run_ok env sys strict He n (World (Session d None) b c st vs) d Hn eq_refl Hd) as [H _].
  by rewrite Hr in H.
Qed.

Lemma cluster_step_ok strict c c' : cluster_step strict c c' -> cluster_ok strict c -> cluster_ok strict c'.
Proof.
  destruct 1 as [i p env calls st vs t err w' d nodes Hp He Hr|i p env calls st vs msg w' d nodes Hp He Hr
    |i d nodes|i p d nodes Hi Hc|d nodes]; intros [Hd Hn]; simpl in *.
  - destruct (run_from strict _ _ _ _ _ _ _ _ _ _ He (Hn i p Hp) Hd Hr) as [H1 H2].
    split; [done|]. by apply map_Forall_insert_2.
  - destruct (run_from strict _ _ _ _ _ _ _ _ _ _ He (Hn i p Hp) Hd Hr) as [H1 _].
    split; [done|]. by apply map_Forall_delete.
  - split; [done|]. by apply map_Forall_delete.
  - split; [done|]. apply map_Forall_insert_2; [|done]. by apply command_ok.
  - split; [|done]. by apply inv_mark_invalid.
Qed.

Lemma cluster_rtc_ok strict c c' : rtc (cluster_step strict) c c' -> cluster_ok strict c -> cluster_ok strict c'.
Proof. induction 1; eauto using cluster_step_ok. Qed.

(** C1: a cluster never corrupts its database.  From a database that agrees with
    the ledger chain and no running process, after any sequence of joins,
    state runs with arbitrary failing calls, panics and kills of any number of
    nodes (the service, builds of the state, and reingestion with [force] unless
    [strict]): the last ingested ledger is recorded; when it is not zero and the
    ingestion version is current the entries of the state tables are exactly
    those of the chain after that ledger; every history row is the chain's row of
    its ledger; and unless ranges were reingested the history has no gap.
    Reingestion without [force], which takes no lock, is not among the steps. *)
Theorem cluster_agrees_with_chain (strict : bool) (d : DB St Rows) (c : cluster)
  (Hd : inv strict d) (Hr : rtc (cluster_step strict) (mkCluster d ∅) c) :
  (exists n, GetLastLedgerIngest (c_db c) = Ok n) /\
  (forall n, GetLastLedgerIngest (c_db c) = Ok n -> n <> 0 ->
     GetIngestVersion (c_db c) = Ok CurrentVersion -> entries (stateTables (c_db c)) = chain_state n) /\
  (forall n r, historyTables (c_db c) !! n = Some r -> r = chain_rows n) /\
  (strict = true -> convex (historyTables (c_db c))).
Proof.
  assert (H : cluster_ok strict c).
  { eapply cluster_rtc_ok; [exact Hr|]. split; [done|]. apply map_Forall_empty. }
  destruct H as [[Hl Hs Hrows Hc] _]. split; [done|]. split; [done|]. split; [|done].
  intros n r Hn. by apply Hrows.
Qed.

End Cluster.

Section Machine.
Context {St Rows Meta BS : Type}.
Context {LCM : LedgerCloseMeta Meta} {LB : LedgerBackend Meta BS} {PR : ProcessorRunner St Rows Meta}.

(** C28: no state of the machine leaves a transaction open, whatever state is
    run (the test commands too), whatever calls fail and whatever the
    interfaces do: the machine started without a transaction ends without one,
    and the guard that panics on a transaction of the previous state is never
    taken: when the machine panics, a call made by a state panicked. *)
Theorem machine_never_meets_transaction (env : environment) (sys : system) (fuel : nat)
  (cur : node) (w : @world St Rows BS) (Hw : GetTx (historyQ w) = None) :
  GetTx (historyQ (runStateMachine env sys fuel cur w).2) = None /\
  forall msg, (runStateMachine env sys fuel cur w).1 = Panicked msg ->
    exists n w1 w2, GetTx (historyQ w1) = None /\ run env sys n w1 = (Crash msg, w2).
Proof.
  split; [by apply runStateMachine_quiet|].
  revert cur w Hw. induction fuel as [|fuel IH]; intros cur w Hw msg; simpl; [done|]. rewrite Hw.
  pose proof (run_quiet env sys cur (set_currentState (GetState cur) w) Hw) as Hr.
  destruct (run env sys cur _) as [[t e|p] w'] eqn:E; simpl in *.
  - repeat case_match; try done. by apply IH.
  - intros [= ->]. eexists _, _, _. split; [|exact E]. done.
Qed.

End Machine.

(** ** A node on its own *)

Section Alone.
Context {St Rows Meta BS : Type}.
Context {LCM : LedgerCloseMeta Meta} {LB : LedgerBackend Meta BS} {PR : ProcessorRunner St Rows Meta}.
Context (sys : system).

(** A single node runs states one after the other, each in an environment and
    from a call number of its own. *)
Fixpoint play (l : list (@environment St Rows * nat)) (n : node) (d : DB St Rows) (b : BS) : option (DB St Rows * node * BS) :=
  match l with
  | [] => Some (d, n, b)
  | (env, calls) :: l =>
      match run env sys n (World (Session d None) b calls None_ []) with
      | (Return t _, w') => play l (next_node t) (db (historyQ w')) (ledgerBackend w')
      | (Crash _, _) => None
      end
  end.

Definition alone (n : node) (d : DB St Rows) (b : BS) : @cluster St Rows BS :=
  mkCluster d {[ 0%nat := mkProcess sys n b ]}.

Lemma play_rtc l : Forall (fun x => env_ok x.1) l -> forall n d b d' n' b',
  play l n d b = Some (d', n', b') -> rtc (cluster_step true) (alone n d b) (alone n' d' b').
Proof.
  induction 1 as [|[env calls] l He _ IH]; intros n d b d' n' b'; simpl.
  - intros [= <- <- <-]. reflexivity.
  - destruct (run env sys n _) as [[t e|p] w'] eqn:E; [|done]. intros Hp.
    eapply rtc_l; [|by eapply IH]. unfold alone.
    pose proof (step_run true 0 (mkProcess sys n b) env calls None_ [] t e w' d
      {[ 0%nat := mkProcess sys n b ]} (lookup_singleton_eq _ _) He E) as H.
    by rewrite insert_singleton_eq in H.
Qed.

Lemma play_from_empty l d0 b0 d n b : Forall (fun x => env_ok x.1) l ->
  play l (startState 0) d0 b0 = Some (d, n, b) ->
  rtc (cluster_step true) (mkCluster d0 ∅) (alone n d b).
Proof.
  intros Hl Hp. eapply rtc_l; [|by eapply play_rtc].
  apply (step_join true 0%nat (mkProcess sys (startState 0) b0) d0 ∅); [done|by left].
Qed.

End Alone.

(** ** A concrete chain

    The entries of the chain after ledger [n] and the rows of ledger [n] are
    numbers; the state tables have besides the entries the ledger of the newest
    row that is marked as deleted; the backend remembers the range it prepared.
    As the processors of the program do, those of the example record the
    compaction of offers and of liquidity pools for ledgers after the window. *)
Module Example.

#[export] Instance meta : LedgerCloseMeta Z := {
  LedgerSequence := fun m => m;
  ProtocolVersion := fun _ => 20;
  BucketListHash := fun _ => "hash"
}.

#[export] Instance backend : LedgerBackend Z (option ledgerRange) := {
  IsPrepared := fun r b => Ok (match b, r with
    | Some (UnboundedRange f), UnboundedRange f' => f <=? f'
    | _, _ => false
    end);
  PrepareRange := fun r b => (Ok tt, Some r);
  GetLedger := fun n b => (Ok n, b);
  GetLatestLedgerSequence := fun b => Ok 1000
}.

Definition all_fresh (ns : list Z) (h : gmap Z Z) : bool :=
  forallb (fun n => bool_decide (h !! n = None)) ns.

#[global] Arguments all_fresh : simpl never.

Definition compactionWindow : Z := 100.

Definition compact (n : Z) (d : DB (Z * Z) Z) : DB (Z * Z) Z :=
  if n >? compactionWindow then
    UpdateLiquidityPoolCompactionSequence (n - compactionWindow)
      (UpdateOfferCompactionSequence (n - compactionWindow) d)
  else d.

Lemma compact_spec n d : stateTables (compact n d) = stateTables d /\
  historyTables (compact n d) = historyTables d /\ same_ingestion_keys d (compact n d).
Proof.
  unfold compact. destruct (n >? _); [|by split_and!; [..|apply same_keys_refl]].
  split_and!; [done..|]. eapply same_keys_trans; apply same_keys_update; unfold compaction_keys; set_solver.
Qed.

#[export] Instance runner : ProcessorRunner (Z * Z) Z Z := {
  empty_tables := (0, 0);
  RunGenesisStateIngestion := fun d => Done (set_state (1, 0) d);
  RunHistoryArchiveIngestion := fun n skip pv hash d =>
    if bool_decide (stateTables d = (0, 0)) then Done (compact n (set_state (n, 0) d))
    else Failed "duplicate key" d true;
  RunTransactionProcessorsOnLedgers := fun ns d =>
    if all_fresh ns (historyTables d)
    then Done (set_history (insert_rows (fun n => 10 * n) ns (historyTables d)) d)
    else Failed "duplicate key" d true;
  RunAllProcessorsOnLedger := fun n d =>
    if all_fresh [n] (historyTables d) && ((stateTables d).1 =? n - 1)
    then Done (compact n (mkDB (key_value_store d) (n, n) (<[n := 10 * n]> (historyTables d))))
    else Failed "duplicate key" d true
}.

#[export] Instance chain : Chain (Z * Z) Z Z := {
  Entries := Z;
  entries := fst;
  chain_state := fun n => n;
  chain_rows := fun n => 10 * n;
  meta_of := fun n => n
}.

Lemma all_fresh_spec ns h : all_fresh ns h = true -> forall n, n ∈ ns -> h !! n = None.
Proof.
  unfold all_fresh. rewrite forallb_forall. intros H n Hn.
  apply list_elem_of_In in Hn. by apply H, bool_decide_eq_true in Hn.
Qed.

#[export] Instance laws : IngestLaws (Z * Z) Z Z (option ledgerRange).
Proof.
  split; [by intros n b m b' [= -> _]|]. split; simpl.
  - intros d d' _ [= <-]. split_and!; [done..|by apply same_keys_refl].
  - intros n d d' ->. rewrite bool_decide_eq_true_2 by done. intros [= <-].
    destruct (compact_spec n (set_state (n, 0) d)) as (Hs & Hh & Hk).
    unfold built. rewrite Hs, Hh. split_and!; [done..|exact Hk].
  - intros n d d'. case_match eqn:E; [|done]. zbool. intros [= <-].
    match goal with |- context [compact n ?x] => destruct (compact_spec n x) as (Hs & Hh & Hk) end.
    rewrite Hs, Hh. split_and!; [|done|exact Hk|done]. eapply all_fresh_spec; [eassumption|]. by left.
  - intros ns d d'. rewrite list_fmap_id. case_match eqn:E; [|done]. intros [= <-].
    split; [|done]. by apply all_fresh_spec.
  - intros ms e d d'. case_match; [done|]. intros H'; discriminate H'.
Qed.

(** The database after the migrations. *)
Definition fresh : DB (Z * Z) Z := mkDB {[ lastLedgerKey := "0" ]} (0, 0) ∅.

Lemma fresh_inv strict : inv strict fresh.
Proof.
  split.
  - by exists 0.
  - intros n H Hn. assert (E : GetLastLedgerIngest fresh = Ok 0) by by vm_compute. congruence.
  - intros n r. simpl. by rewrite lookup_empty.
  - intros _ a b n [x Ha]. simpl in Ha. by rewrite lookup_empty in Ha.
Qed.

Definition sys : system := mkSystem 100 0 false true 64 1.
(** All calls are answered; the latest checkpoint is 127. *)
Definition works : @environment (Z * Z) Z :=
  mkEnvironment (fun _ => Works) (fun _ => 127) (fun _ => false) (fun _ => Ok tt).
(** The reply of one commit, call 8 + 10 of a build, is lost after it took effect. *)
Definition lost_reply : @environment (Z * Z) Z :=
  mkEnvironment (fun k => if Nat.eqb k 18 then Applied else Works) (fun _ => 127) (fun _ => false)
    (fun _ => Ok tt).

Definition world0 (d : DB (Z * Z) Z) : @world (Z * Z) Z (option ledgerRange) := World (Session d None) None 0 None_ [].

(** The node starts, builds the state at checkpoint 127 with the reply of its
    commit lost, starts again and resumes: it ingests ledger 128.
    Both runs record the compaction. *)
Definition story : list (environment * nat) := [(works, 0%nat); (lost_reply, 6%nat); (works, 0%nat); (works, 0%nat)].

Lemma story_ok : Forall (fun x => env_ok x.1) story.
Proof. unfold story. rewrite !Forall_cons. by repeat split. Qed.

Lemma cluster_agrees_with_chain_witness :
  exists d b, play sys story (startState 0) fresh None = Some (d, resumeState 128, b) /\
    GetLastLedgerIngest d = Ok 128 /\ GetOfferCompactionSequence d = Ok 28 /\
    entries (stateTables d) = 128 /\ convex (historyTables d).
Proof.
  assert (H : exists d b, play sys story (startState 0) fresh None = Some (d, resumeState 128, b) /\
    GetLastLedgerIngest d = Ok 128 /\ GetOfferCompactionSequence d = Ok 28 /\
    GetIngestVersion d = Ok CurrentVersion).
  { eexists _, _. split; [vm_compute; reflexivity|]. split; [|split]; vm_compute; reflexivity. }
  destruct H as (d & b & Hp & Hl & Ho & Hv). exists d, b. split; [done|]. split; [done|]. split; [done|].
  destruct (cluster_agrees_with_chain true fresh (alone sys (resumeState 128) d b) (fresh_inv true)
    (play_from_empty sys story fresh None d (resumeState 128) b story_ok Hp)) as (_ & Hs & _ & Hc).
  split; [|by apply Hc]. by apply Hs.
Defined.

Lemma machine_never_meets_transaction_witness :
  GetTx (historyQ (world0 fresh)) = None /\
  GetTx (historyQ (runStateMachine lost_reply sys 4 (startState 0) (world0 fresh)).2) = None.
Proof. split; [reflexivity|]. by apply machine_never_meets_transaction. Defined.

End Example.
End IngestCluster.
