(* ===== verification/IngestLive.v ===== *)
(** * The ingestion state machine makes progress

    When calls are answered, a node started on a database that agrees with
    the chain and whose history is not past the latest checkpoint reaches the
    resume state after at most five states and from then on ingests one ledger
    per state.  The laws of the interfaces say when their
    calls succeed. *)
From S2P Require Import Prelude Checkpoints HistoryDb IngestFsm IngestProofs IngestCluster.

Local Open Scope Z_scope.

Module IngestLive.
Import HistoryDb IngestFsm IngestProofs.

Class LiveLaws (St Rows Meta BS : Type) `{L : IngestLaws St Rows Meta BS} := {
  (** a backend that can return ledger [n] and the following ones *)
  serves : BS -> Z -> Prop;
  (** ledgers at which the archive has a checkpoint *)
  archived : Z -> Prop;
  live_IsPrepared : forall n b, exists p, IsPrepared (UnboundedRange n) b = Ok p /\ (p = true -> serves b n);
  live_PrepareRange : forall n b, exists b', PrepareRange (UnboundedRange n) b = (Ok tt, b') /\ serves b' n;
  live_GetLedger : forall n b, serves b n -> exists b', GetLedger n b = (Ok (meta_of n), b') /\ serves b' (n + 1);
  live_GetLatest : forall b, exists n, GetLatestLedgerSequence b = Ok n;
  live_genesis : forall (d : DB St Rows), stateTables d = empty_tables -> exists d', RunGenesisStateIngestion d = Done d';
  live_archive : forall n (d : DB St Rows), archived n -> stateTables d = empty_tables -> exists d',
    RunHistoryArchiveIngestion n false (ProtocolVersion (meta_of n)) (BucketListHash (meta_of n)) d = Done d';
  live_ledger : forall n (d : DB St Rows), entries (stateTables d) = chain_state (n - 1) -> historyTables d !! n = None ->
    exists d', RunAllProcessorsOnLedger (meta_of n) d = Done d';
  live_batch : forall ns (d : DB St Rows), NoDup ns -> (forall n, n ∈ ns -> historyTables d !! n = None) ->
    exists d', RunTransactionProcessorsOnLedgers (meta_of <$> ns) d = Done d'
}.

Section Live.
Context {St Rows Meta BS : Type}.
Context `{LL : LiveLaws St Rows Meta BS}.
Context (env : @environment St Rows) (sys : system).
Hypothesis Hworks : forall k, faults env k = Works.
Hypothesis Hnostop : forall k, shutdown env k = false.
Hypothesis Hflush : 1 <= maxLedgerPerFlush sys.

Abbreviation World := (@world St Rows BS).
Implicit Types w : World.
Implicit Types d v : DB St Rows.

(** In a transaction that sees [v]; without a transaction. *)
Definition in_tx w d v b : Prop :=
  historyQ w = Session d (Some (Transaction v false)) /\ ledgerBackend w = b.
Definition at_rest w d b : Prop := historyQ w = Session d None /\ ledgerBackend w = b.

Ltac by_works := unfold wp, on_db, on_backend; rewrite ?Hworks.

Lemma live_begin Q w d b : at_rest w d b -> (forall w', in_tx w' d d b -> Q (Ok tt) w') -> wp (q_Begin env) Q w.
Proof. intros [Hq Hb] HQ. unfold q_Begin. by_works. unfold Begin. rewrite Hq. by apply HQ. Qed.

Lemma live_get {A} (f : DB St Rows -> res A) a Q w d v b : in_tx w d v b -> f v = Ok a ->
  (forall w', in_tx w' d v b -> Q (Ok a) w') -> wp (q_get env f) Q w.
Proof.
  intros [Hq Hb] Hf HQ. unfold q_get. by_works. unfold query. rewrite Hq. cbn. rewrite ?Hf. by apply HQ.
Qed.

Lemma live_exec f Q w d v b : in_tx w d v b -> (forall w', in_tx w' d (f v) b -> Q (Ok tt) w') ->
  wp (q_exec env f) Q w.
Proof. intros [Hq Hb] HQ. unfold q_exec. by_works. unfold exec. rewrite Hq. by apply HQ. Qed.

Lemma live_run f v' Q w d v b : in_tx w d v b -> f v = Done v' ->
  (forall w', in_tx w' d v' b -> Q (Ok tt) w') -> wp (run_processors env f) Q w.
Proof.
  intros [Hq Hb] Hf HQ. unfold run_processors. by_works. rewrite Hq. cbn. rewrite ?Hf. by apply HQ.
Qed.

Lemma live_commit Q w d v b : in_tx w d v b -> (forall w', at_rest w' v b -> Q (Ok tt) w') ->
  wp (q_Commit env) Q w.
Proof. intros [Hq Hb] HQ. unfold q_Commit. by_works. unfold Commit. rewrite Hq. by apply HQ. Qed.

Lemma live_ledger_tx n Q w d v b : in_tx w d v b -> serves b n ->
  (forall b' w', in_tx w' d v b' -> serves b' (n + 1) -> Q (Ok (meta_of n)) w') -> wp (b_GetLedger env n) Q w.
Proof.
  intros [Hq Hb] Hs HQ. unfold b_GetLedger. by_works. rewrite Hb.
  destruct (live_GetLedger n b Hs) as (b' & -> & Hs'). by eapply (HQ b').
Qed.

Lemma live_ledger_rest n Q w d b : at_rest w d b -> serves b n ->
  (forall b' w', at_rest w' d b' -> serves b' (n + 1) -> Q (Ok (meta_of n)) w') -> wp (b_GetLedger env n) Q w.
Proof.
  intros [Hq Hb] Hs HQ. unfold b_GetLedger. by_works. rewrite Hb.
  destruct (live_GetLedger n b Hs) as (b' & -> & Hs'). by eapply (HQ b').
Qed.

Lemma live_prepare n (Q : res unit -> World -> Prop) w d b : at_rest w d b ->
  (forall b' w', at_rest w' d b' -> serves b' n -> Q (Ok tt) w') -> wp (maybePrepareRange env n) Q w.
Proof.
  intros [Hq Hb] HQ. unfold maybePrepareRange, b_IsPrepared, b_PrepareRange. apply wp_try. by_works. simpl.
  rewrite Hb. destruct (live_IsPrepared n b) as (p & -> & Hp). destruct p; cbn -[wp]; [by eapply (HQ b); auto|].
  apply wp_try. by_works. simpl. rewrite ?Hb.
  destruct (live_PrepareRange n b) as (b' & -> & Hs). by eapply (HQ b').
Qed.

Lemma live_complete n (Q : res unit -> World -> Prop) w d v b : in_tx w d v b -> n <> 0 ->
  (forall w', at_rest w' (UpdateLastLedgerIngest n v) b -> Q (Ok tt) w') -> wp (completeIngestion env n) Q w.
Proof.
  intros Hw Hn HQ. unfold completeIngestion. rewrite (proj2 (Z.eqb_neq _ _)) by done.
  apply wp_try. eapply live_exec; [done|]. intros. apply wp_try. eapply live_commit; [done|]. intros.
  by apply wp_ret, HQ.
Qed.

Lemma live_checkpoint Q w d v b c : in_tx w d v b -> (forall k, rootHAS env k = c) ->
  (forall w', in_tx w' d v b -> Q (Ok c) w') -> wp (a_GetLatestLedgerSequence env) Q w.
Proof.
  intros [Hq Hb] Hc HQ. unfold wp, a_GetLatestLedgerSequence. rewrite Hworks, Hc. by apply HQ.
Qed.

(** The outcome of a state: the next state, no error, and the committed data. *)
Definition goes (t : transition) (P : DB St Rows -> Prop) (r : result) (w : World) : Prop :=
  r = ok t /\ exists d b, at_rest w d b /\ P d.

Lemma live_defer (m : M result) t P w :
  wp m (fun r w' => r = ok t /\ P (db (historyQ w'))) w -> wp (defer_Rollback m) (goes t P) w.
Proof.
  intros H. apply wp_defer. eapply wp_mono; [exact H|]. intros r w' [-> HP] w'' Hs Hb.
  split; [done|]. by eexists _, _.
Qed.

Ltac lstep :=
  lazymatch goal with
  | |- wp (ret _) _ _ => apply wp_ret
  | |- wp (try _ _ _) _ _ => apply wp_try
  | |- wp (tryM _ _ _) _ _ => apply wp_tryM
  | |- wp (bind _ _) _ _ => apply wp_bind
  | H : in_tx ?w _ _ _ |- wp (q_get _ _) _ ?w =>
      eapply (live_get _ _ _ _ _ _ _ H); [eassumption|]; clear H; intros ? H
  | H : in_tx ?w _ _ _ |- wp (q_exec _ _) _ ?w => eapply (live_exec _ _ _ _ _ _ H); clear H; intros ? H
  | H : in_tx ?w _ _ _ |- wp (q_Commit _) _ ?w => eapply (live_commit _ _ _ _ _ H); clear H; intros ? H
  | H : in_tx ?w _ _ _ |- wp (a_GetLatestLedgerSequence _) _ ?w =>
      eapply (live_checkpoint _ _ _ _ _ _ H); [eassumption|]; clear H; intros ? H
  | H : at_rest ?w _ _ |- wp (q_Begin _) _ ?w => eapply (live_begin _ _ _ _ H); clear H; intros ? H
  | H : at_rest ?w _ _ |- wp (maybePrepareRange _ _) _ ?w =>
      eapply (live_prepare _ _ _ _ _ H); clear H; intros ? ? H ?
  | H : at_rest ?w _ _ |- wp (b_GetLedger _ _) _ ?w =>
      eapply (live_ledger_rest _ _ _ _ _ H); [eassumption|]; clear H; intros ? ? H ?
  | H : in_tx ?w _ _ _ |- wp (completeIngestion _ _) _ ?w =>
      eapply (live_complete _ _ _ _ _ _ H); [lia|]; clear H; intros ? H
  | |- wp (defer_Rollback _) (goes _ _) _ => apply live_defer
  end.
Ltac lsteps := repeat (lstep; cbn beta iota).

(** What the states decide on: the ingestion version, the last ingested ledger
    and the last ledger of the history. *)
Definition status d (V last lh : Z) : Prop :=
  GetIngestVersion d = Ok V /\ GetLastLedgerIngest d = Ok last /\ LatestLedger d = lh.

Definition start_next (V last lh c : Z) : transition :=
  if negb (V =? CurrentVersion) || (last =? 0) then
    if negb (lh =? 0) then
      if lh >? c then waitForCheckPoint
      else if lh <? c then historyRange (to_uint32 (lh + 1)) c else rebuild c
    else rebuild c
  else if lh >? last then start
  else if negb (lh =? 0) && (lh <? last) then historyRange (to_uint32 (lh + 1)) last
  else resume last.

Definition start_db (V last lh : Z) d : DB St Rows :=
  if negb (negb (V =? CurrentVersion) || (last =? 0)) && (lh >? last) then UpdateLastLedgerIngest 0 d else d.

Lemma live_start V last lh c w d b : status d V last lh -> V <= CurrentVersion ->
  (forall k, rootHAS env k = c) -> at_rest w d b ->
  wp (run_start env 0) (goes (start_next V last lh c) (fun d' => d' = start_db V last lh d)) w.
Proof.
  intros (HV & Hlast & Hlh) HV' Hc Hw.
  assert (Hh : GetLatestHistoryLedger d = Ok lh) by (unfold GetLatestHistoryLedger; congruence).
  unfold run_start. lsteps. rewrite Z.gtb_ltb, (proj2 (Z.ltb_ge _ _)) by done. lsteps.
  unfold start_next, start_db.
  assert (Hd : forall w', in_tx w' d d b -> db (historyQ w') = d) by by intros ? [-> _].
  assert (Hd' : forall w', at_rest w' (UpdateLastLedgerIngest 0 d) b ->
    db (historyQ w') = UpdateLastLedgerIngest 0 d) by by intros ? [-> _].
  destruct (negb (V =? _) || _); cbn [negb andb Z.eqb].
  - lsteps. destruct (negb (lh =? 0)); [destruct (lh >? c); [|destruct (lh <? c)]|]; lsteps; auto.
  - destruct (lh >? last); [lsteps; auto|]. destruct (negb (lh =? 0) && _); lsteps; auto.
Qed.

Lemma live_build c w d b V last lh : status d V last lh -> V <> CurrentVersion \/ last = 0 ->
  in_uint 32 c -> c <> 0 -> c = 1 \/ archived c -> at_rest w d b ->
  wp (run_build env c false false) (goes (resume c) (fun d' => status d' CurrentVersion c lh)) w.
Proof.
  intros (HV & Hlast & Hlh) Hneed Hc Hc0 Ha Hw.
  pose proof (GetLastLedgerIngest_range d last Hlast) as Hr.
  set (v := set_state empty_tables (UpdateExpStateInvalid false (UpdateLastLedgerIngest 0 d))).
  assert (Hin : forall pv h w b, at_rest w d b ->
    (c <> 1 -> pv = ProtocolVersion (meta_of c) /\ h = BucketListHash (meta_of c)) ->
    wp (build_in_tx env c false false pv h) (goes (resume c) (fun d' => status d' CurrentVersion c lh)) w).
  { clear dependent w. clear b. intros pv h w b Hw Hm. unfold build_in_tx. lsteps.
    replace ((V =? CurrentVersion) && (last >? 0)) with false.
    2: { symmetry. apply andb_false_iff. destruct Hneed as [H1|H1]; [left; lia|right; subst; done]. }
    lsteps. fold v in Hw.
    assert (Hrun : exists v', (if c =? 1 then RunGenesisStateIngestion else RunHistoryArchiveIngestion c false pv h) v
      = Done v' /\ built c v v').
    { destruct (c =? 1) eqn:E; zbool.
      - subst c. destruct (live_genesis v eq_refl) as [v' Hv]. exists v'. split; [done|]. by apply genesis_tables.
      - destruct Ha; [done|]. destruct (Hm E) as [-> ->].
        destruct (live_archive c v ltac:(done) eq_refl) as [v' Hv]. exists v'. split; [done|].
        by apply archive_tables. }
    destruct Hrun as (v' & Hrun & _ & Hht & _). eapply (live_run _ _ _ _ _ _ _ Hw Hrun). clear Hw. intros w1 Hw.
    lsteps. split; [done|]. destruct Hw as [-> _]. simpl.
    split; [|split; [by apply GetLastLedgerIngest_update|]].
    - unfold UpdateLastLedgerIngest. rewrite GetIngestVersion_other by done.
      by apply GetIngestVersion_update.
    - rewrite <- Hlh. unfold LatestLedger, UpdateLastLedgerIngest, UpdateIngestVersion, updateValueInStore, set_kv.
      simpl. by rewrite Hht. }
  unfold run_build. rewrite (proj2 (Z.eqb_neq _ _)) by done. rewrite andb_true_r.
  destruct (c =? 1) eqn:E; cbn [negb]; zbool; [by eapply Hin|].
  lsteps. by eapply Hin.
Qed.

(** ** Catching up *)

Lemma insert_rows_is_Some (rows : Z -> Rows) ns x : forall h : gmap Z Rows,
  is_Some (h !! x) -> is_Some (insert_rows rows ns h !! x).
Proof.
  induction ns as [|n ns IH]; intros h Hx; simpl; [done|]. apply IH.
  rewrite lookup_insert_is_Some. destruct (decide (n = x)); auto.
Qed.

(** The history from ledger [lh] on reaches up to [k - 1], the rest is as in [d]. *)
Definition caught strict d (lh k : Z) v : Prop :=
  grown strict k v /\ key_value_store v = key_value_store d /\ is_Some (historyTables v !! lh).

Lemma live_flush strict d lh k cur v w b (Q : res unit -> World -> Prop) : in_tx w d v b ->
  0 < k <= cur -> cur - 1 <= MaxUint32 -> caught strict d lh k v ->
  (forall v' w', in_tx w' d v' b -> caught strict d lh cur v' -> Q (Ok tt) w') ->
  wp (run_processors env (RunTransactionProcessorsOnLedgers (meta_of <$> seqZ k (cur - k)))) Q w.
Proof.
  intros Hw Hk Hc (Hg & Hkv & Hlh) HQ.
  destruct (live_batch (seqZ k (cur - k)) v) as [v' Hv'].
  - apply NoDup_seqZ.
  - intros n Hn%elem_of_seqZ. destruct (historyTables v !! n) eqn:E; [|done].
    apply Hg in E. lia.
  - eapply live_run; [done..|]. intros w' Hw'. eapply HQ; [done|].
    split; [by eapply grown_batch|]. apply batch_tables in Hv' as [_ ->]; simpl. split; [done|].
    by apply insert_rows_is_Some.
Qed.

Lemma live_history_loop strict d lh to fuel : to < MaxUint32 -> forall cur k v w b,
  fuel = Z.to_nat (to - cur + 1) -> 0 < k <= cur -> cur <= to + 1 -> in_tx w d v b -> serves b cur ->
  caught strict d lh k v ->
  wp (history_loop env sys fuel cur to (meta_of <$> seqZ k (cur - k)))
    (fun out w' => exists k v b, in_tx w' d v b /\ caught strict d lh k v /\ 0 < k <= to + 1 /\
       out = inr (meta_of <$> seqZ k (to + 1 - k))) w.
Proof.
  intros Hto. induction fuel as [|fuel IH]; intros cur k v w b Hfuel Hk Hcur Hw Hs Hg; simpl.
  - replace cur with (to + 1) in * by lia. rewrite (proj2 (Z.leb_gt _ _)) by lia.
    apply wp_ret. exists k, v, b. auto.
  - rewrite (proj2 (Z.leb_le _ _)) by lia. unfold MaxUint32 in *.
    apply wp_tryM. eapply live_ledger_tx; [done..|]. intros b' w' Hw' Hs'. cbn beta iota zeta.
    rewrite batch_grows by lia. rewrite uwrap_small by lia.
    destruct (_ =? maxLedgerPerFlush sys).
    + apply wp_try. eapply live_flush; [exact Hw'| | |exact Hg|]; [lia|unfold MaxUint32; lia|].
      intros v2 w2 Hw2 Hg2.
      change (@nil Meta) with (meta_of <$> (@nil Z)). replace (@nil Z) with (seqZ (cur + 1) (cur + 1 - (cur + 1))).
      2: by rewrite Z.sub_diag.
      eapply IH; eauto; lia.
    + eapply IH; eauto; lia.
Qed.

Lemma status_kv d d' V last lh lh' : key_value_store d' = key_value_store d -> status d V last lh ->
  LatestLedger d' = lh' -> status d' V last lh'.
Proof.
  intros Hkv (HV & Hlast & _) Hlh. split; [|split; [|done]].
  - rewrite <- HV. unfold GetIngestVersion, getIntValueFromStore, getValueFromStore. by rewrite Hkv.
  - rewrite <- Hlast. unfold GetLastLedgerIngest, getValueFromStore. by rewrite Hkv.
Qed.

Lemma caught_status strict d lh0 lh to v V last : 0 < to -> status d V last lh0 ->
  caught strict d lh (to + 1) v -> status v V last to.
Proof.
  intros Hto Hs ((_ & Hlt & Hl) & Hkv & Hlh). eapply status_kv; [done..|].
  apply LatestLedger_unique; [|lia|right].
  - intros n r Hn. apply Hlt in Hn. lia.
  - replace (to + 1 - 1) with to in Hl by lia. destruct Hl as [Hl|]; [|done].
    destruct Hlh as [x Hx]. by rewrite Hl, lookup_empty in Hx.
Qed.

Lemma live_historyRange strict V last lh to w d b : inv strict d -> status d V last lh ->
  0 < lh < to -> to < MaxUint32 -> at_rest w d b ->
  wp (run_historyRange env sys (lh + 1) to) (goes start (fun d' => status d' V last to)) w.
Proof.
  intros Hi (HV & Hlast & Hlh) Hr Hto Hw. unfold run_historyRange, MaxUint32 in *.
  rewrite (proj2 (Z.eqb_neq (lh + 1) 0)), (proj2 (Z.eqb_neq to 0)), Z.gtb_ltb,
    (proj2 (Z.ltb_ge to (lh + 1))), (proj2 (Z.ltb_ge (maxLedgerPerFlush sys) 1)) by lia. cbn [orb].
  assert (Hh : GetLatestHistoryLedger d = Ok lh) by (unfold GetLatestHistoryLedger; congruence).
  lsteps. replace (lh + 1 - 1) with lh by lia. rewrite uwrap_small, Z.eqb_refl by lia. cbn [negb].
  apply wp_bind.
  assert (Hg : caught strict d lh (lh + 1) d).
  { split; [apply grown_start; auto; [split; lia|lia|lia]|]. split; [done|].
    destruct (LatestLedger_spec d) as (_ & _ & [H0|H0]); rewrite Hlh in H0; [lia|done]. }
  assert (Hloop := fun H1 H2 H3 H4 => live_history_loop strict d lh to (Z.to_nat (to - (lh + 1) + 1)) H1
    (lh + 1) (lh + 1) d w'2 b' eq_refl H2 H3 H4 ltac:(done) Hg).
  rewrite Z.sub_diag in Hloop. eapply wp_mono; [apply Hloop; [done|lia|lia|done]|].
  intros out w3 (k & v & b3 & Hw3 & Hg3 & Hk & ->). cbn beta iota.
  assert (Hdone : forall v' w', in_tx w' d v' b3 -> caught strict d lh (to + 1) v' ->
    wp (try (q_Commit env) (fun e => fail start (WrapErr e commitErrMsg)) (fun _ => ret (ok start)))
      (fun r w'3 => r = ok start /\ status (db (historyQ w'3)) V last to) w').
  { intros v' w4 Hw4 Hg4. lsteps. split; [done|]. destruct Hw4 as [-> _]. simpl.
    by eapply (caught_status strict d lh lh to v'); [lia|split|]. }
  destruct (meta_of <$> seqZ k (to + 1 - k)) as [|m ms] eqn:E; unfold flush.
  - eapply Hdone; [done|]. apply fmap_nil_inv in E. destruct (decide (k = to + 1)) as [->|]; [done|].
    by rewrite seqZ_cons in E by lia.
  - rewrite <- E. apply wp_try. eapply live_flush; [done|lia|unfold MaxUint32; lia|done|]. intros. by eapply Hdone.
Qed.

(** ** Resuming *)

Lemma live_verify n (Q : res unit -> World -> Prop) w d b : at_rest w d b ->
  (forall w', at_rest w' d b -> Q (Ok tt) w') -> wp (maybeVerifyState env sys n) Q w.
Proof.
  intros [Hq Hb] HQ. unfold maybeVerifyState, q_get. apply wp_try. by_works. unfold query. rewrite Hq. cbn -[wp].
  pose proof (calm_invalid d) as Hcalm.
  destruct (GetExpStateInvalid d) as [invalid|e|p]; [|by apply HQ|by destruct (Hcalm p)].
  destruct (negb invalid && _); [|by apply wp_ret, HQ]. apply wp_try, wp_ret.
  unfold ledgerEligibleForStateVerification, Checkpoints.IsCheckpoint, Checkpoints.modulo.
  replace (Checkpoints.checkpointFreq _ =? 0) with false.
  2: { simpl. case_match eqn:E; [done|]. by rewrite E. }
  rewrite bind_Ok_l. destruct (_ =? 0); by apply HQ.
Qed.

Lemma live_reap n (Q : res unit -> World -> Prop) w d b last : GetLastLedgerIngest d = Ok last -> at_rest w d b ->
  (forall w', at_rest w' d b -> Q (Ok tt) w') -> wp (maybeReapLookupTables env sys n) Q w.
Proof.
  intros Hl Hw HQ. unfold maybeReapLookupTables. destruct (negb _); [by apply wp_ret, HQ|].
  apply wp_try. unfold b_GetLatestLedgerSequence. by_works. destruct Hw as [Hq Hb]. rewrite Hb.
  destruct (live_GetLatest b) as [m ->]. cbn -[wp]. destruct (negb (m =? n)); [by apply wp_ret, HQ|].
  apply wp_try. eapply live_begin; [by split|]. intros w1 Hw1. cbn beta iota.
  apply wp_defer. lsteps. intros w2 H2 Hb2. destruct Hw1 as [Hq1 Hb1]. apply HQ. split; [|congruence].
  unfold shut in H2. by rewrite H2, Hq1.
Qed.

Lemma live_resume strict n lh w d b : inv strict d -> status d CurrentVersion n lh -> lh = 0 \/ lh = n ->
  0 < n < MaxUint32 -> at_rest w d b ->
  wp (run_resume env sys n)
    (goes (resumeImmediately (n + 1)) (fun d' => status d' CurrentVersion (n + 1) (n + 1))) w.
Proof.
  intros Hi (HV & Hlast & Hlh) Hh Hn Hw. unfold MaxUint32 in *. unfold run_resume, RebuildTradeAggregationBuckets.
  rewrite (proj2 (Z.eqb_neq _ _)), !uwrap_small by lia. cbv zeta.
  assert (Hh' : GetLatestHistoryLedger d = Ok lh) by (unfold GetLatestHistoryLedger; congruence).
  lsteps. rewrite !uwrap_small by lia. rewrite Z.gtb_ltb, Z.ltb_irrefl, (proj2 (Z.leb_gt _ _)) by lia.
  lsteps. rewrite Z.eqb_refl. cbn [negb]. lsteps.
  replace (negb (lh =? 0) && negb (lh =? n)) with false.
  2: { symmetry. apply andb_false_iff. rewrite !negb_false_iff, !Z.eqb_eq. done. }
  destruct (LatestLedger_spec d) as (Hle & _ & _).
  assert (Hfresh : historyTables d !! (n + 1) = None).
  { destruct (historyTables d !! (n + 1)) eqn:E; [|done]. apply Hle in E. lia. }
  destruct (live_ledger (n + 1) d) as [v' Hv']; [|done|].
  { replace (n + 1 - 1) with n by lia. apply (inv_state strict d Hi n); [done|lia|done]. }
  pose proof (ledger_tables _ _ _ Hv') as (_ & Hht & Hkv & _).
  lsteps. eapply (live_run _ v'); [exact Hw|done|]. clear Hw. intros w1 Hw. lsteps.
  eapply live_verify; [exact Hw|]. clear Hw. intros w2 Hw. lsteps.
  eapply live_reap; [|exact Hw|]; [apply GetLastLedgerIngest_update; split; lia|]. clear Hw. intros w3 Hw. lsteps.
  split; [done|]. destruct Hw as [-> _]. cbn [db]. split; [|split].
  - unfold UpdateLastLedgerIngest. rewrite GetIngestVersion_other by done.
    by rewrite (same_keys_version _ _ Hkv).
  - apply GetLastLedgerIngest_update. split; lia.
  - apply LatestLedger_unique; [|lia|right]; unfold UpdateLastLedgerIngest, updateValueInStore, set_kv; simpl;
      rewrite Hht.
    + intros m r. rewrite lookup_insert_Some. intros [[<- _]|[_ Hm]]; [lia|]. apply Hle in Hm. lia.
    + rewrite lookup_insert_eq. by eexists.
Qed.

(** ** Runs of the machine *)

Context (strict : bool) (c : Z).
Hypothesis Hroot : forall k, rootHAS env k = c.
Hypothesis Hc : 0 < c < MaxUint32.
Hypothesis Harch : c = 1 \/ archived c.

Lemma root_ok : env_ok env.
Proof. intros k. rewrite Hroot. unfold MaxUint32, in_uint in *. lia. Qed.

(** [k] states lead from [n] on [d] to [n'] on a database with [P]. *)
Definition reaches (k : nat) (n : node) d (n' : node) (P : DB St Rows -> Prop) : Prop :=
  inv strict d -> forall w b, at_rest w d b -> exists w' d' b', at_rest w' d' b' /\ inv strict d' /\ P d' /\
    forall fuel, runStateMachine env sys (k + fuel) n w = runStateMachine env sys fuel n' w'.

Lemma reaches_step n d t P : node_ok strict n -> next_node t <> stopState ->
  (inv strict d -> forall w b, at_rest w d b -> wp (run env sys n) (goes t P) w) ->
  reaches 1 n d (next_node t) P.
Proof.
  intros Hn Hstop Hrun Hi w b [Hq Hb].
  assert (Hw : at_rest (set_currentState (GetState n) w) d b) by done.
  pose proof (run_ok env sys strict root_ok n _ d Hn (proj1 Hw) Hi) as [[Hi' _] _].
  destruct (Hrun Hi _ _ Hw) as [Hr (d' & b' & Hw' & HP)].
  eexists _, d', b'. split; [exact Hw'|]. split; [by rewrite (proj1 Hw') in Hi'|]. split; [done|].
  intros fuel. cbn [Nat.add runStateMachine]. rewrite Hq. cbn [GetTx tx].
  destruct (run env sys n _) as [r w'] eqn:E. simpl in *. subst r. cbn [ok].
  rewrite bool_decide_eq_false_2 by done. by rewrite Hnostop.
Qed.

Lemma reaches_trans k1 k2 n1 n2 n3 d P Q : reaches k1 n1 d n2 P ->
  (forall d', P d' -> reaches k2 n2 d' n3 Q) -> reaches (k1 + k2) n1 d n3 Q.
Proof.
  intros H1 H2 Hi w b Hw. destruct (H1 Hi w b Hw) as (w1 & d1 & b1 & Hw1 & Hi1 & HP & E1).
  destruct (H2 d1 HP Hi1 w1 b1 Hw1) as (w2 & d2 & b2 & Hw2 & Hi2 & HQ & E2).
  exists w2, d2, b2. split; [done|]. split; [done|]. split; [done|]. intros fuel.
  by rewrite <- Nat.add_assoc, E1.
Qed.

(** Ready to resume after ledger [n]. *)
Definition ready (n : Z) d : Prop := exists lh, status d CurrentVersion n lh /\ (lh = 0 \/ lh = n).

Lemma reaches_start V last lh d : status d V last lh -> V <= CurrentVersion ->
  next_node (start_next V last lh c) <> stopState ->
  reaches 1 (startState 0) d (next_node (start_next V last lh c)) (fun d' => d' = start_db V last lh d).
Proof.
  intros Hs HV Hn. apply reaches_step; [by split|done|]. intros _ w b Hw. by eapply live_start.
Qed.

Lemma reaches_build V last lh d : status d V last lh -> V <> CurrentVersion \/ last = 0 -> lh = 0 \/ lh = c ->
  reaches 1 (buildState c false false) d (resumeState c) (ready c).
Proof.
  intros Hs Hneed Hlh. unfold MaxUint32 in *. apply (reaches_step _ _ (resume c)); [by split; [split; lia|]|done|].
  intros _ w b Hw. eapply wp_mono; [eapply live_build; eauto; [split|]; lia|].
  intros r w' [-> (d' & b' & Hw' & Hs')]. split; [done|]. exists d', b'. split; [done|]. by exists lh.
Qed.

Lemma reaches_history V last lh to d : status d V last lh -> 0 < lh < to -> to < MaxUint32 ->
  reaches 1 (historyRangeState (to_uint32 (lh + 1)) to) d (startState 0) (fun d' => status d' V last to).
Proof.
  intros Hs Hlh Hto. unfold MaxUint32 in *. rewrite uwrap_small by lia.
  apply (reaches_step _ _ start); [by split; split; lia|done|].
  intros Hi w b Hw. by eapply live_historyRange.
Qed.

Lemma reaches_from d d' k n n' P : d = d' -> reaches k n d n' P -> reaches k n d' n' P.
Proof. by intros <-. Qed.

(** A database without usable state: catch up history, then build. *)
Lemma reaches_need V last lh d : status d V last lh -> V <= CurrentVersion ->
  V <> CurrentVersion \/ last = 0 -> 0 <= lh <= c ->
  exists k, (k <= 4)%nat /\ reaches k (startState 0) d (resumeState c) (ready c).
Proof.
  intros Hs HV Hneed Hlh.
  assert (E : negb (V =? CurrentVersion) || (last =? 0) = true).
  { apply orb_true_iff. destruct Hneed; [left|right]; [rewrite (proj2 (Z.eqb_neq _ _)) by done|]; lia || done. }
  assert (Ed : forall lh, start_db V last lh d = d) by (intros; unfold start_db; by rewrite E).
  assert (Hbuild : forall d lh, status d V last lh -> lh = 0 \/ lh = c ->
    reaches 2 (startState 0) d (resumeState c) (ready c)).
  { clear dependent d lh. intros d lh Hs Hlh.
    assert (En : start_next V last lh c = rebuild c).
    { unfold start_next. rewrite E. destruct Hlh as [->| ->]; [done|].
      rewrite Z.gtb_ltb, Z.ltb_irrefl. by destruct (c =? 0). }
    apply (reaches_trans 1 1 _ (buildState c false false) _ _ (fun d' => d' = d)).
    - pose proof (reaches_start V last lh d Hs HV) as H. rewrite En in H.
      unfold start_db in H. rewrite E in H. by apply H.
    - intros d' ->. by eapply reaches_build. }
  destruct (decide (lh = 0 \/ lh = c)) as [Hd|Hd]; [exists 2%nat; split; [lia|by eapply Hbuild]|].
  exists 4%nat. split; [lia|].
  assert (En : start_next V last lh c = historyRange (to_uint32 (lh + 1)) c).
  { unfold start_next. rewrite E, (proj2 (Z.eqb_neq lh 0)) by lia. cbn [negb].
    by rewrite Z.gtb_ltb, (proj2 (Z.ltb_ge _ _)), (proj2 (Z.ltb_lt _ _)) by lia. }
  apply (reaches_trans 1 3 _ (historyRangeState (to_uint32 (lh + 1)) c) _ _ (fun d' => d' = d)).
  { pose proof (reaches_start V last lh d Hs HV) as H. rewrite En, Ed in H. by apply H. }
  intros d' ->. apply (reaches_trans 1 2 _ (startState 0) _ _ (fun d' => status d' V last c)).
  - eapply reaches_history; [done|lia|lia].
  - intros d' Hd'. eapply Hbuild; [done|by right].
Qed.

(** A database that is up to date resumes. *)
Lemma reaches_resume V last lh d : status d V last lh -> V <= CurrentVersion ->
  negb (V =? CurrentVersion) || (last =? 0) = false -> lh = 0 \/ lh = last -> 0 <= last ->
  reaches 1 (startState 0) d (resumeState last) (ready last).
Proof.
  intros Hs HV E Hlh Hpos. pose proof (reaches_start V last lh d Hs HV) as H.
  unfold start_next, start_db in H. rewrite E in H. cbn [negb andb] in H.
  rewrite Z.gtb_ltb, (proj2 (Z.ltb_ge _ _)) in H by lia.
  assert (E2 : negb (lh =? 0) && (lh <? last) = false).
  { destruct Hlh as [->| ->]; [done|]. by rewrite Z.ltb_irrefl, andb_false_r. }
  rewrite E2 in H. intros Hi w b Hw. destruct (H ltac:(done) Hi w b Hw) as (w' & d' & b' & H1 & H2 & -> & H3).
  exists w', d, b'. split; [done|]. split; [done|]. split; [|done]. exists lh. zbool. by subst V.
Qed.

Lemma reaches_ready V last lh d : status d V last lh -> V <= CurrentVersion -> lh <= c -> last < MaxUint32 ->
  exists k n, (k <= 5)%nat /\ (n = c \/ n = last) /\ 0 < n < MaxUint32 /\
    reaches k (startState 0) d (resumeState n) (ready n).
Proof.
  intros Hs HV Hlh Hlast.
  assert (Hpos : 0 <= lh) by (destruct Hs as (_ & _ & <-); apply LatestLedger_spec).
  assert (0 <= last) by (destruct Hs as (_ & Hl & _); by apply GetLastLedgerIngest_range in Hl as [? ?]).
  destruct (decide (V <> CurrentVersion \/ last = 0)) as [Hneed|Hcur].
  { destruct (reaches_need V last lh d Hs HV Hneed) as (k & Hk & Hreach); [lia|]. exists k, c. split; [lia|]. eauto. }
  assert (E : negb (V =? CurrentVersion) || (last =? 0) = false).
  { apply orb_false_iff. rewrite negb_false_iff, Z.eqb_eq, Z.eqb_neq. split; [|lia].
    destruct (decide (V = CurrentVersion)); [done|]. destruct Hcur. by left. }
  pose proof (reaches_start V last lh d Hs HV) as Hst. unfold start_next, start_db in Hst. rewrite E in Hst.
  destruct (decide (last < lh)).
  { rewrite Z.gtb_ltb, (proj2 (Z.ltb_lt _ _)) in Hst by done.
    destruct (reaches_need V 0 lh (UpdateLastLedgerIngest 0 d)) as (k & Hk & Hreach); [|done|by right|lia|].
    { destruct Hs as (H1 & H2 & H3). split; [|split; [by apply GetLastLedgerIngest_update|done]].
      unfold UpdateLastLedgerIngest. by rewrite GetIngestVersion_other. }
    exists (1 + k)%nat, c. split; [lia|]. split; [by left|]. split; [done|].
    eapply reaches_trans; [by apply Hst|]. by intros d' ->. }
  rewrite Z.gtb_ltb, (proj2 (Z.ltb_ge _ _)) in Hst by lia. cbn [negb andb] in Hst.
  destruct (decide (lh <> 0 /\ lh < last)) as [[Hl1 Hl2]|Hl].
  - rewrite (proj2 (Z.eqb_neq _ _)), (proj2 (Z.ltb_lt _ _)) in Hst by done. cbn [negb andb] in Hst.
    exists 3%nat, last. split; [lia|]. split; [by right|]. split; [lia|].
    apply (reaches_trans 1 2 _ (historyRangeState (to_uint32 (lh + 1)) last) _ _ (fun d' => d' = d));
      [by apply Hst|]. intros d' ->.
    apply (reaches_trans 1 1 _ (startState 0) _ _ (fun d' => status d' V last last));
      [by eapply reaches_history; [done|lia|]|].
    intros d' Hd'. apply (reaches_resume V last last d'); auto.
  - exists 1%nat, last. split; [lia|]. split; [by right|]. split; [lia|].
    apply (reaches_resume V last lh d); auto; lia.
Qed.

(** From the resume state on, every state ingests one ledger. *)
Lemma reaches_follow k : forall n d, ready n d -> 0 < n -> n + Z.of_nat k <= MaxUint32 ->
  reaches k (resumeState n) d (resumeState (n + Z.of_nat k))
    (fun d' => ready (n + Z.of_nat k) d' /\ ((0 < k)%nat -> LatestLedger d' = n + Z.of_nat k)).
Proof.
  induction k as [|k IH]; intros n d Hr Hn Hk.
  - rewrite Z.add_0_r. intros Hi w b Hw. exists w, d, b. split; [done|]. split; [done|]. split; [|done].
    split; [done|lia].
  - destruct Hr as (lh & Hs & Hlh).
    apply (reaches_trans 1 k _ (resumeState (n + 1)) _ _
      (fun d' => status d' CurrentVersion (n + 1) (n + 1))).
    + apply (reaches_step _ _ (resumeImmediately (n + 1))); [unfold MaxUint32 in *; split; lia|done|].
      intros Hi w b Hw. eapply live_resume; eauto. lia.
    + intros d' Hs'. replace (n + Z.of_nat (S k)) with (n + 1 + Z.of_nat k) in * by lia.
      intros Hi w b Hw. destruct (IH (n + 1) d') with (w := w) (b := b)
        as (w2 & d2 & b2 & H1 & H2 & [H3 H4] & H5); auto; [by exists (n + 1); auto|lia|].
      exists w2, d2, b2. split; [done|]. split; [done|]. split; [|done]. split; [done|]. intros _.
      destruct k; [|by apply H4; lia]. destruct (H1) as [Hq _].
      specialize (H5 O). simpl in H5. injection H5 as H5 H6.
      destruct Hw as [Hq' _], H1 as [Hq2 _]. rewrite <- H6, Hq' in Hq2. injection Hq2 as <-.
      destruct Hs' as (_ & _ & ->). lia.
Qed.

End Live.

(** C13: a node makes progress.  Let all calls be answered, the process not be
    shut down, and the archive's latest checkpoint be [c].  On a database that
    agrees with the chain, is not of a newer version and has no history after
    the checkpoint, the machine started by [Run] is after at most five states
    in the resume state at the checkpoint or at the last ingested ledger, and
    after [k] more states it has ingested [k] more ledgers: the last ingested
    ledger, the state tables and the history are those of ledger [n + k]. *)
Theorem ingestion_makes_progress {St Rows Meta BS : Type} `{LL : LiveLaws St Rows Meta BS}
  (env : @environment St Rows) (sys : system) (c : Z) (strict : bool) (d : DB St Rows) (V last : Z)
  (w : @world St Rows BS)
  (Hworks : forall k, faults env k = Works) (Hnostop : forall k, shutdown env k = false)
  (Hflush : 1 <= maxLedgerPerFlush sys)
  (Hroot : forall k, rootHAS env k = c) (Hc : 0 < c < MaxUint32) (Harch : c = 1 \/ archived c)
  (Hd : inv strict d) (HV : GetIngestVersion d = Ok V) (HV' : V <= CurrentVersion)
  (Hlast : GetLastLedgerIngest d = Ok last) (Hlast' : last < MaxUint32) (Hh : LatestLedger d <= c)
  (Hw : historyQ w = Session d None) :
  exists k0 n, (k0 <= 5)%nat /\ (n = c \/ n = last) /\
    forall k, n + Z.of_nat k <= MaxUint32 -> exists d' w',
      runStateMachine env sys (k0 + k) (startState 0) w = (Running (resumeState (n + Z.of_nat k)), w') /\
      historyQ w' = Session d' None /\
      GetLastLedgerIngest d' = Ok (n + Z.of_nat k) /\ GetIngestVersion d' = Ok CurrentVersion /\
      entries (stateTables d') = chain_state (n + Z.of_nat k) /\
      ((0 < k)%nat -> LatestLedger d' = n + Z.of_nat k).
Proof.
  destruct (reaches_ready env sys Hworks Hnostop Hflush strict c Hroot Hc Harch V last (LatestLedger d) d)
    as (k0 & n & Hk0 & Hn & Hnr & Hreach); auto; [by split|].
  exists k0, n. split; [done|]. split; [done|]. intros k Hk.
  assert (Hall := reaches_trans env sys strict k0 k _ _ (resumeState (n + Z.of_nat k)) d _
    (fun d' => ready (n + Z.of_nat k) d' /\ ((0 < k)%nat -> LatestLedger d' = n + Z.of_nat k)) Hreach).
  destruct (Hall (fun d' Hd' => reaches_follow env sys Hworks Hnostop strict c Hroot Hc k n d' Hd' (proj1 Hnr) Hk)
    Hd w (ledgerBackend w) ltac:(by split)) as (w' & d' & b' & Hw' & Hi' & [(lh & Hs & _) Hl] & E).
  exists d', w'. specialize (E O). rewrite Nat.add_0_r in E. split; [exact E|].
  destruct Hs as (H1 & H2 & _). split; [by destruct Hw'|]. split; [done|]. split; [done|]. split; [|done].
  apply (inv_state strict d' Hi'); [done|lia|done].
Qed.

Module Example.
Import IngestCluster.IngestCluster.Example.

#[export] Instance live : LiveLaws (Z * Z) Z Z (option ledgerRange).
Proof.
  refine {| serves := fun _ _ => True; archived := fun _ => True |}; simpl.
  - intros n b. eexists. split; [done|done].
  - intros n b. eexists. split; [done|done].
  - intros n b _. eexists. split; [done|done].
  - intros b. by eexists.
  - intros d _. by eexists.
  - intros n d _ ->. rewrite bool_decide_eq_true_2 by done. by eexists.
  - intros n d Hs Hf. unfold all_fresh. simpl. rewrite bool_decide_eq_true_2 by done.
    rewrite Hs, Z.eqb_refl. by eexists.
  - intros ns d _ Hf. rewrite list_fmap_id.
    replace (all_fresh ns (historyTables d)) with true; [by eexists|].
    symmetry. unfold all_fresh. apply forallb_forall. intros n Hn%list_elem_of_In.
    apply bool_decide_eq_true_2. auto.
Defined.

Lemma ingestion_makes_progress_witness :
  exists k0 n d w, (k0 <= 5)%nat /\
    runStateMachine works sys (k0 + 100) (startState 0) (world0 fresh) = (Running (resumeState (n + 100)), w) /\
    historyQ w = Session d None /\ entries (stateTables d) = n + 100 /\ LatestLedger d = n + 100.
Proof.
  destruct (ingestion_makes_progress works sys 127 true fresh 0 0 (world0 fresh)
    (fun _ => eq_refl) (fun _ => eq_refl) ltac:(simpl; lia) (fun _ => eq_refl) ltac:(unfold MaxUint32; lia)
    ltac:(right; vm_compute; exact I) (fresh_inv true) ltac:(vm_compute; reflexivity) ltac:(unfold CurrentVersion; lia)
    ltac:(vm_compute; reflexivity) ltac:(unfold MaxUint32; lia) ltac:(vm_compute; discriminate) eq_refl)
    as (k0 & n & Hk0 & Hn & Hk).
  destruct (Hk 100%nat) as (d & w & H1 & H2 & _ & _ & H3 & H4); [unfold MaxUint32; lia|].
  exists k0, n, d, w. split; [exact Hk0|]. split; [exact H1|]. split; [exact H2|]. split; [exact H3|].
  apply H4. lia.
Defined.

End Example.
End IngestLive.
