(* ===== verification/IngestReingest.v ===== *)
(** * Reingestion of ranges

    [ReingestRange] of [main.go] and [reingestHistoryRangeState]: what a run
    changes when calls fail, that success means that the ranges hold the rows
    of the chain, and the ranges that are refused. *)
From S2P Require Import Prelude Toid HistoryDb IngestFsm IngestProofs IngestCluster.

Local Open Scope Z_scope.

Module IngestReingest.
Import HistoryDb IngestFsm IngestProofs.

Section Reingest.
Context {St Rows Meta BS : Type}.
Context `{L : IngestLaws St Rows Meta BS}.
Context (env : @environment St Rows) (sys : system).
Abbreviation World := (@world St Rows BS).
Implicit Types w : World.
Implicit Types d v : DB St Rows.

(** Only history rows of the ledgers [from..to] differ. *)
Definition touched (from to : Z) d d' : Prop :=
  key_value_store d' = key_value_store d /\ stateTables d' = stateTables d /\
  forall n, ~ (from <= n <= to) -> historyTables d' !! n = historyTables d !! n.

(** The ledgers [from..k-1] hold the rows of the chain, [k..to] hold none. *)
Definition rewritten (from to k : Z) d d' : Prop :=
  touched from to d d' /\
  forall n, from <= n <= to -> historyTables d' !! n = if decide (n < k) then Some (chain_rows n) else None.

Lemma touched_refl from to d : touched from to d d.
Proof. done. Qed.

Lemma touched_trans from to d1 d2 d3 : touched from to d1 d2 -> touched from to d2 d3 -> touched from to d1 d3.
Proof.
  intros (H1 & H2 & H3) (H4 & H5 & H6). split; [congruence|]. split; [congruence|].
  intros n Hn. rewrite H6, H3; done.
Qed.

Lemma rewritten_delete from to start end_ d : 2 <= from <= to -> to < 2 ^ 31 - 1 ->
  Toid.LedgerRangeInclusive from to = Ok (start, end_) -> rewritten from to from d (DeleteRangeAll start end_ d).
Proof.
  intros Hf Ht HR.
  assert (E := fun n => DeleteRangeAll_ledgers from to start end_ d n Hf Ht HR).
  split; [split; [done|split; [done|]]|]; intros n Hn; rewrite E.
  - by rewrite decide_False.
  - rewrite decide_True by done. by rewrite decide_False by lia.
Qed.

Lemma insert_rows_lookup (rows : Z -> Rows) m : forall k h n,
  insert_rows rows (seqZ k (Z.of_nat m)) h !! n =
    if decide (k <= n < k + Z.of_nat m) then Some (rows n) else h !! n.
Proof.
  induction m as [|m IH]; intros k h n.
  - rewrite decide_False by lia. done.
  - rewrite seqZ_cons by lia. cbn [insert_rows].
    replace (Z.pred (Z.of_nat (S m))) with (Z.of_nat m) by lia. rewrite IH.
    destruct (decide (k = n)) as [->|].
    + rewrite decide_False by lia. rewrite decide_True by lia. by rewrite lookup_insert_eq.
    + rewrite lookup_insert_ne by done. repeat case_decide; try done; lia.
Qed.

Lemma rewritten_batch from to k cur d v v' : from <= k <= cur -> cur <= to + 1 ->
  rewritten from to k d v ->
  RunTransactionProcessorsOnLedgers (meta_of <$> seqZ k (cur - k)) v = Done v' ->
  rewritten from to cur d v'.
Proof.
  intros Hk Hc [(H1 & H2 & H3) H4] Hdone. apply batch_tables in Hdone as [_ ->].
  destruct (Z_of_nat_complete (cur - k)) as [m Em]; [lia|]. rewrite Em.
  split; [split; [done|split; [done|]]|]; intros n Hn; cbn [set_history historyTables]; rewrite insert_rows_lookup.
  - rewrite decide_False by lia. auto.
  - repeat case_decide; try lia; try done; rewrite H4 by done; by rewrite ?decide_True, ?decide_False by lia.
Qed.

(** Every change of the committed data is within the range. *)
Definition within (from to : Z) d {A} (P : A -> DB St Rows -> Prop) (r : res A) w : Prop :=
  match r with
  | Ok a => exists v, open w d v /\ P a v
  | Err _ => exists v, open w d v /\ touched from to d v
  | Panic _ => db (historyQ w) = d
  end.

Lemma failed_touched from to ledgers d v v' : touched from to d v ->
  v' = v \/ (exists e, RunTransactionProcessorsOnLedgers ledgers v = Failed e v' false) -> touched from to d v'.
Proof. intros Hi [->|[e H]]; [done|]. by apply batch_flush in H as ->. Qed.

Lemma reingest_loop_within from to d fuel : 0 < from -> to < 2 ^ 31 - 1 -> forall cur k v w,
  fuel = Z.to_nat (to - cur + 1) -> from <= k <= cur -> cur <= to + 1 -> open w d v -> rewritten from to k d v ->
  wp (reingest_loop env sys fuel cur to (meta_of <$> seqZ k (cur - k)))
    (within from to d (fun ledgers v => exists k, from <= k <= to + 1 /\ rewritten from to k d v /\
       ledgers = meta_of <$> seqZ k (to + 1 - k))) w.
Proof.
  intros Hf Hto. induction fuel as [|fuel IH]; intros cur k v w Hfuel Hk Hcur Hw Hr; simpl.
  - replace cur with (to + 1) in * by lia. rewrite (proj2 (Z.leb_gt _ _)) by lia.
    apply wp_ret. exists v. split; [done|]. by exists k.
  - rewrite (proj2 (Z.leb_le _ _)) by lia.
    apply wp_try, wp_GetLedger; cbn beta iota zeta; intros; 
      match goal with Hq : historyQ _ = historyQ w |- _ => apply (open_session _ _ _ _ Hq) in Hw; clear Hq end.
    + rewrite uwrap_small by lia. rewrite batch_grows by lia. destruct (_ mod _ =? 0).
      * apply wp_try. eapply wp_run; [exact Hw|..].
        -- intros v' w2 Hdone Hw2. cbn beta iota. assert (Hr' : rewritten from to (cur + 1) d v') by (eapply (rewritten_batch from to k); eauto; lia).
           change (@nil Meta) with (meta_of <$> (@nil Z)).
           replace (@nil Z) with (seqZ (cur + 1) (cur + 1 - (cur + 1))) by (by rewrite Z.sub_diag).
           eapply IH; eauto; lia.
        -- intros e v' w2 Hv' Hw2. exists v'. split; [done|]. eapply failed_touched; [apply Hr|done].
      * eapply IH; eauto; lia.
    + exists v. split; [done|]. apply Hr.
    + apply Hw.
Qed.

Lemma ingestRange_within from to d w : 2 <= from <= Z.max 2 to -> to < 2 ^ 31 - 1 -> open w d d -> 0 <= to ->
  wp (ingestRange env sys from to)
    (within from to d (fun _ v => from <= to /\ rewritten from to (to + 1) d v)) w.
Proof.
  intros Hf Ht Ho Hto. unfold ingestRange. apply wp_bind, wp_GetTx.
  assert (Hd : forall w', open w' d d -> exists v, open w' d v /\ touched from to d v) by by exists d.
  destruct (bool_decide _); [|apply wp_ret; by apply Hd].
  destruct (_ <? 1); [apply wp_ret; by apply Hd|].
  apply wp_try, wp_ret. destruct (decide (from <= to)) as [Hle|Hgt].
  2: { unfold Toid.LedgerRangeInclusive.
       rewrite !swrap_small by (unfold in_int; lia). rewrite Z.gtb_ltb, (proj2 (Z.ltb_lt _ _)) by lia. by apply Hd. }
  rewrite !swrap_small by (unfold in_int; lia).
  destruct (Toid.LedgerRangeInclusive from to) as [[a z]|e|p] eqn:ER; [|by apply Hd|apply Ho].
  apply wp_try. eapply wp_exec; [exact Ho| |intros; by apply Hd]. intros w1 Ho1. cbn beta iota.
  assert (Hdel := rewritten_delete from to a z d ltac:(lia) Ht ER).
  apply wp_try. eapply wp_mono.
  { assert (Hl := reingest_loop_within from to d (Z.to_nat (to - from + 1)) ltac:(lia) Ht from from _ w1
      eq_refl ltac:(lia) ltac:(lia) Ho1 Hdel). rewrite Z.sub_diag in Hl. exact Hl. }
  intros [ledgers|e|p] w2 H2; [|done..]. destruct H2 as (v & Ho2 & k & Hk & Hr & Hl). cbn beta iota.
  destruct ledgers as [|m ms].
  - apply wp_ret. exists v. split; [done|]. split; [done|]. destruct (decide (k = to + 1)) as [->|]; [done|].
    symmetry in Hl. apply fmap_nil_inv in Hl. by rewrite seqZ_cons in Hl by lia.
  - rewrite Hl. apply wp_try. eapply wp_run; [exact Ho2|..].
    + intros v' w3 Hdone Ho3. apply wp_ret. exists v'. split; [done|]. split; [done|].
      eapply (rewritten_batch from to k); eauto; lia.
    + intros e v' w3 Hv' Ho3. exists v'. split; [done|]. eapply failed_touched; [apply Hr|done].
Qed.

(** A run on a range: it stops; what it commits is within the range; when it
    reports no error the range holds exactly the rows of the chain. *)
Definition reingested (from to : Z) d (r : result) w : Prop :=
  exists d', shut w d' /\ touched from to d d' /\
  match r with
  | Return t err => t = stop /\ (err = None -> from <= to /\ rewritten from to (to + 1) d d')
  | Crash _ => True
  end.

Lemma reingested_error from to d e w d' : shut w d' -> touched from to d d' ->
  reingested from to d (fail stop e) w.
Proof. intros. exists d'. done. Qed.

Lemma reingested_crash from to d p w d' : shut w d' -> touched from to d d' ->
  reingested from to d (Crash p) w.
Proof. intros. exists d'. done. Qed.

Definition first_ledger (from : Z) : Z := if from =? 1 then 2 else from.

(** Before the deferred rollback: the committed data counts. *)
Definition committed (from to : Z) d (r : result) w : Prop :=
  touched from to d (db (historyQ w)) /\
  match r with
  | Return t err => t = stop /\ (err = None -> from <= to /\ rewritten from to (to + 1) d (db (historyQ w)))
  | Crash _ => True
  end.

Lemma wp_defer_reingested (m : M result) from to d w :
  wp m (committed from to d) w -> wp (defer_Rollback m) (reingested from to d) w.
Proof.
  intros H. apply wp_defer. eapply wp_mono; [exact H|]. intros r w' [H1 H2] w'' Hs _.
  exists (db (historyQ w')). done.
Qed.

Lemma committed_open from to d v e w : open w d v -> committed from to d (fail stop e) w.
Proof. intros [Hd _]. split; [by rewrite Hd|done]. Qed.

Lemma committed_shut from to d v e w : touched from to d v -> shut w d \/ shut w v ->
  committed from to d (fail stop e) w.
Proof. intros Ht [H|H]; split; rewrite ?H; done. Qed.

Lemma commit_reingested from to d v w : open w d v -> from <= to -> rewritten from to (to + 1) d v ->
  wp (try (q_Commit env) (fun e => fail stop (WrapErr e commitErrMsg)) (fun _ => ret (ok stop)))
    (committed from to d) w.
Proof.
  intros Ho Hle Hr. apply wp_try. eapply wp_commit; [exact Ho| |].
  - intros w' Hs. apply wp_ret. split; rewrite Hs; [apply Hr|done].
  - intros e w' Hs. eapply committed_shut; [apply Hr|done].
Qed.

Lemma wp_prepared from to d w r (m : M result) : shut w d ->
  (forall w', shut w' d -> wp m (reingested from to d) w') ->
  wp (try (b_PrepareRange env r) (fun e => fail stop (WrapErr e "error preparing range")) (fun _ => m))
    (reingested from to d) w.
Proof.
  intros Hw Hm. apply wp_try. eapply wp_PrepareBounded; [exact Hw|].
  intros [u|e|p] w' Hw'; [by apply Hm|by eapply reingested_error|by eapply reingested_crash].
Qed.

Lemma run_reingest_within from to force d w : 0 <= from -> 0 <= to < 2 ^ 31 - 1 -> shut w d ->
  wp (run_reingest env sys from to force) (reingested (first_ledger from) to d) w.
Proof.
  intros Hf Ht Hw. unfold run_reingest, prepareRange. cbv zeta. fold (first_ledger from).
  destruct (_ || _ || _) eqn:E; [by apply wp_ret; eapply reingested_error|]. zbool.
  assert (Hf' : 2 <= first_ledger from <= Z.max 2 to) by (unfold first_ledger; destruct (from =? 1) eqn:?; zbool; lia).
  set (from' := first_ledger from) in *. clearbody from'.
  destruct force.
  - eapply wp_prepared; [exact Hw|]. intros w1 Hw1. apply wp_try. eapply wp_begin; [exact Hw1| |].
    2: by intros; eapply reingested_error.
    intros w2 Hw2 _. apply wp_defer_reingested, wp_try.
    eapply wp_get; [exact Hw2|apply calm_last|]. intros [n|e|p] w3 Hw3 _ Hp.
    + apply wp_tryM. eapply wp_mono; [apply ingestRange_within; [done|lia|done|lia]|].
      intros [u|e|p] w4; simpl.
      * intros (v & Ho & Hle & Hr). by eapply commit_reingested.
      * intros (v & Ho & Ht'). apply wp_try. eapply wp_commit; [exact Ho| |]; intros.
        -- apply wp_ret. eapply committed_shut; [done|by right].
        -- by eapply committed_shut.
      * intros Hd. split; [by rewrite Hd|done].
    + by eapply committed_open.
    + by destruct (Hp p).
  - apply wp_try. eapply wp_get_shut; [exact Hw|].
    intros [n|e|p] w1 Hw1 _; [|by eapply reingested_error|by eapply reingested_crash].
    destruct (_ && _); [by apply wp_ret; eapply reingested_error|].
    eapply wp_prepared; [exact Hw1|]. intros w2 Hw2. apply wp_try. eapply wp_begin; [exact Hw2| |].
    2: by intros; eapply reingested_error.
    intros w3 Hw3 _. apply wp_defer_reingested, wp_try.
    eapply wp_mono; [apply ingestRange_within; [done|lia|done|lia]|].
    intros [u|e|p] w4; simpl.
    + intros (v & Ho & Hle & Hr). by eapply commit_reingested.
    + intros (v & Ho & _). by eapply committed_open.
    + intros Hd. split; [by rewrite Hd|done].
Qed.

(** ** Several ranges *)

Definition sequence_ok (r : LedgerRange) : Prop := 0 <= StartSequence r /\ 0 <= EndSequence r < 2 ^ 31 - 1.

Definition in_range (r : LedgerRange) (n : Z) : Prop := first_ledger (StartSequence r) <= n <= EndSequence r.

(** The ranges start at 1 or later, are not empty, and each starts after the
    one before it. *)
Fixpoint sorted_after (low : Z) (l : list LedgerRange) : Prop :=
  match l with
  | [] => True
  | r :: l => low < StartSequence r <= EndSequence r /\ sorted_after (EndSequence r) l
  end.

Lemma validate_from_sorted l : Forall sequence_ok l -> forall prev,
  (match prev with Some p => 0 <= EndSequence p | None => True end) ->
  validate_from prev l = Ok tt <-> sorted_after (match prev with Some p => EndSequence p | None => 0 end) l.
Proof.
  induction 1 as [|r l [Hr1 Hr2] Hl IH]; intros prev Hp; simpl; [done|].
  destruct (Z.gtb_spec (StartSequence r) (EndSequence r)); [split; [done|]; destruct prev; lia|].
  destruct (Z.eqb_spec (StartSequence r) 0); [split; [done|]; destruct prev; lia|].
  destruct prev as [p|].
  - destruct (Z.geb_spec (EndSequence p) (StartSequence r)); [split; [done|lia]|].
    rewrite (IH (Some r)) by (simpl; lia). split; [intros; split; [lia|done]|by intros [_ ?]].
  - rewrite (IH (Some r)) by (simpl; lia). split; [intros; split; [lia|done]|by intros [_ ?]].
Qed.

Definition complete (r : LedgerRange) d d' : Prop :=
  touched (first_ledger (StartSequence r)) (EndSequence r) d d' /\
  forall n, in_range r n -> historyTables d' !! n = Some (chain_rows n).

Definition once (r : LedgerRange) d (out : res unit) w : Prop :=
  exists d', shut w d' /\ touched (first_ledger (StartSequence r)) (EndSequence r) d d' /\
    (out = Ok tt -> complete r d d').

Lemma reingest_once_spec force r d w : sequence_ok r -> shut w d ->
  wp (reingest_once env sys force r) (once r d) w.
Proof.
  intros [Hs He] Hw. unfold wp, reingest_once. cbn [runStateMachine]. unfold shut in Hw. rewrite Hw. cbn [GetTx tx].
  assert (Hq : shut (set_currentState ReingestHistoryRange w) d) by done.
  pose proof (run_reingest_within (StartSequence r) (EndSequence r) force d _ Hs He Hq) as (d' & Hd' & Ht & Hr).
  cbn [run GetState]. destruct (run_reingest _ _ _ _ _ _) as [[t err|p] w']; simpl in *.
  - destruct Hr as [-> Hr]. simpl. destruct err; exists d'; split; [done| |done|]; (split; [done|]); [done|].
    intros _. destruct (Hr eq_refl) as [Hle [_ Hin]]. split; [done|]. intros n Hn. unfold in_range in Hn.
    rewrite Hin by done. by rewrite decide_True by lia.
  - exists d'. done.
Qed.

Lemma once_trans r d d1 out w : touched (first_ledger (StartSequence r)) (EndSequence r) d d1 ->
  once r d1 out w -> once r d out w.
Proof.
  intros H1 (d' & Hs & H2 & Hc). exists d'. split; [done|]. split; [by eapply touched_trans|].
  intros Ho. destruct (Hc Ho) as [_ Hin]. split; [by eapply touched_trans|done].
Qed.

Lemma reingest_retry_spec force r retries : sequence_ok r -> forall d w, shut w d ->
  wp (reingest_retry env sys retries force r) (once r d) w.
Proof.
  intros Hr. induction retries as [|retries IH]; intros d w Hw; unfold wp; simpl;
    pose proof (reingest_once_spec force r d w Hr Hw) as H; unfold wp in H;
    destruct (reingest_once env sys force r w) as [[u|e|p] w']; try done.
  destruct H as (d1 & Hs & Ht & _). eapply once_trans; [done|]. by apply IH.
Qed.

Lemma wp_exec_shut f (Q : res unit -> World -> Prop) w d : shut w d ->
  (forall w', shut w' (f d) -> Q (Ok tt) w') -> (forall e w', shut w' d -> Q (Err e) w') ->
  wp (q_exec env f) Q w.
Proof.
  unfold shut. intros Hw Hok Herr. unfold wp, q_exec, on_db, exec. rewrite Hw. cbn -[wp].
  destruct (faults env (calls w)); by (apply Hok || apply Herr).
Qed.

(** Nothing outside of the ranges changed; on success they hold the chain's rows. *)
Definition all_complete (l : list LedgerRange) d (out : res unit) w : Prop :=
  exists d', shut w d' /\ key_value_store d' = key_value_store d /\ stateTables d' = stateTables d /\
    (forall n, Forall (fun r => ~ in_range r n) l -> historyTables d' !! n = historyTables d !! n) /\
    (out = Ok tt -> forall n, Exists (fun r => in_range r n) l -> historyTables d' !! n = Some (chain_rows n)).

Lemma sorted_after_outside l : forall low n, sorted_after low l -> n <= low ->
  Forall (fun r => ~ in_range r n) l.
Proof.
  induction l as [|r l IH]; intros low n Hs Hn; [constructor|]. destruct Hs as [Hr Hs]. constructor.
  - unfold in_range, first_ledger. destruct (StartSequence r =? 1) eqn:?; zbool; lia.
  - eapply IH; [exact Hs|lia].
Qed.

Lemma all_complete_cons r l d d1 out w : sorted_after (EndSequence r) l -> complete r d d1 ->
  all_complete l d1 out w -> all_complete (r :: l) d out w.
Proof.
  intros Hs [(H1 & H2 & H3) H4] (d' & Hw & H5 & H6 & H7 & H8).
  exists d'. split; [done|]. split; [congruence|]. split; [congruence|]. split.
  - intros n Hn. rewrite Forall_cons in Hn. destruct Hn. rewrite H7 by done. by apply H3.
  - intros Ho n Hn. apply Exists_cons in Hn as [Hn|Hn]; [|by apply H8].
    rewrite H7; [by apply H4|]. eapply sorted_after_outside; [done|]. apply Hn.
Qed.

Lemma all_complete_failed r l d out w : out <> Ok tt -> once r d out w -> all_complete (r :: l) d out w.
Proof.
  intros Ho (d' & Hw & (H1 & H2 & H3) & _). exists d'. split; [done|]. split; [done|]. split; [done|].
  split; [|done]. intros n Hn. rewrite Forall_cons in Hn. destruct Hn. by apply H3.
Qed.

Lemma reingest_ranges_spec l force agg : Forall sequence_ok l -> forall low d w, sorted_after low l -> shut w d ->
  wp (reingest_ranges env sys l force agg) (all_complete l d) w.
Proof.
  induction 1 as [|r l Hr _ IH]; intros low d w Hs Hw; simpl.
  - apply wp_ret. exists d. split; [done|]. split; [done|]. split; [done|]. split; [done|].
    intros _ n Hn. by inversion Hn.
  - destruct Hs as [_ Hs]. apply wp_try. eapply wp_mono; [by apply reingest_retry_spec|].
    intros [[]|e|p] w1 H1; [|by apply all_complete_failed..].
    destruct H1 as (d1 & Hw1 & _ & Hc). specialize (Hc eq_refl).
    assert (Hnext : forall w', shut w' d1 -> wp (reingest_ranges env sys l force agg) (all_complete (r :: l) d) w').
    { intros w' Hw'. eapply wp_mono; [by eapply IH|]. intros. by eapply all_complete_cons. }
    destruct agg; [|by apply Hnext].
    apply wp_try. unfold RebuildTradeAggregationBuckets. eapply wp_exec_shut; [exact Hw1|exact Hnext|].
    intros e w' Hw'. apply all_complete_failed; [done|]. exists d1. split; [done|]. split; [apply Hc|done].
Qed.

End Reingest.

(** C29: reingestion.  [ReingestRange] accepts exactly the lists of non-empty
    ranges that start at ledger 1 or later and follow each other; whatever calls
    fail, with any number of retries and with or without [force], nothing
    outside of the given ranges changes (neither the state tables nor the
    key-value store); and when it reports success every ledger of every range
    holds the rows of the chain (ledger 1 excepted, which is pregenerated).  The
    sequences are uint32 in the code; the property is for ranges that end before
    [2 ^ 31 - 1] ([sequence_ok]): beyond, the conversion to the int32 of [toid]
    wraps. *)
Theorem ReingestRange_spec {St Rows Meta BS : Type} `{L : IngestLaws St Rows Meta BS}
  (env : @environment St Rows) (sys : system) (ranges : list LedgerRange) (force agg : bool)
  (d : DB St Rows) (w w' : @world St Rows BS) (out : res unit)
  (Hr : Forall sequence_ok ranges) (Hw : historyQ w = Session d None)
  (Hrun : ReingestRange env sys ranges force agg w = (out, w')) :
  (validateRanges ranges = Ok tt <-> sorted_after 0 ranges) /\
  (~ sorted_after 0 ranges -> is_ok out = false /\ historyQ w' = Session d None) /\
  exists d', historyQ w' = Session d' None /\
    key_value_store d' = key_value_store d /\ stateTables d' = stateTables d /\
    (forall n, Forall (fun r => ~ in_range r n) ranges -> historyTables d' !! n = historyTables d !! n) /\
    (out = Ok tt ->
       forall n, Exists (fun r => in_range r n) ranges -> historyTables d' !! n = Some (chain_rows n)).
Proof.
  pose proof (validate_from_sorted ranges Hr None I) as Hv. fold (validateRanges ranges) in Hv.
  split; [done|]. unfold ReingestRange, try, tryM, ret in Hrun.
  destruct (validateRanges ranges) as [[]|e|p] eqn:E.
  - pose proof (proj1 Hv eq_refl) as Hs. split; [done|].
    pose proof (reingest_ranges_spec env sys ranges force agg Hr 0 d w Hs Hw) as H. unfold wp in H.
    rewrite Hrun in H. exact H.
  - injection Hrun as <- <-. split; [done|]. by exists d.
  - injection Hrun as <- <-. split; [done|]. by exists d.
Qed.

Module Example.
Import IngestCluster.IngestCluster.Example.

(** Ledgers 2 to 6, of which ledger 3 has wrong rows. *)
Definition stale : DB (Z * Z) Z :=
  mkDB {[ lastLedgerKey := "0" ]} (0, 0)
    (<[2 := 20]> (<[3 := 0]> (<[4 := 40]> (<[5 := 50]> (<[6 := 60]> ∅))))).

(** The first attempt loses its connection at call 5; one retry, one ledger per
    flush. *)
Definition retrying : system := mkSystem 1 1 false true 64 1.
Definition flaky : @environment (Z * Z) Z :=
  mkEnvironment (fun k => if Nat.eqb k 5 then Fails else Works) (fun _ => 63) (fun _ => false) (fun _ => Ok tt).

Lemma ReingestRange_spec_witness :
  let ranges := [mkLedgerRange 1 3; mkLedgerRange 5 5] in
  let r := ReingestRange flaky retrying ranges true true (world0 stale) in
  r.1 = Ok tt /\ exists d', historyQ r.2 = Session d' None /\
    historyTables d' !! 3 = Some 30 /\ historyTables d' !! 4 = Some 40.
Proof.
  intros ranges r. split; [vm_compute; reflexivity|].
  destruct (ReingestRange_spec flaky retrying ranges true true stale (world0 stale) r.2 r.1
    ltac:(repeat constructor; vm_compute; congruence) eq_refl (surjective_pairing _))
    as (_ & _ & d' & Hd & _ & _ & Hout & Hin).
  exists d'. split; [exact Hd|]. split.
  - apply Hin; [vm_compute; reflexivity|]. left. vm_compute. split; congruence.
  - rewrite Hout; [vm_compute; reflexivity|]. repeat constructor; vm_compute; intros [? ?]; congruence.
Defined.

(** A forced reingestion that fails half way commits what it did: the rows it
    deleted and did not write again are missing, although it reports an error. *)
Definition offline : @environment (Z * Z) Z :=
  mkEnvironment (fun k => if Nat.eqb k 6 then Fails else Works) (fun _ => 63) (fun _ => false) (fun _ => Ok tt).

Lemma forced_failure_leaves_gap :
  let r := run offline retrying (reingestHistoryRangeState 3 5 true) (world0 stale) in
  (match r.1 with Return _ (Some _) => true | _ => false end = true) /\
  historyTables (db (historyQ r.2)) !! 3 = Some 30 /\
  historyTables (db (historyQ r.2)) !! 4 = None /\
  historyTables (db (historyQ r.2)) !! 6 = Some 60.
Proof. vm_compute. done. Qed.

End Example.
End IngestReingest.
