(* ===== verification/TxSub.v ===== *)
(** * Submitting transactions (services/aurora/internal/txsub)

    A request submits a transaction to hcnet-core and waits on a channel for its
    result; a periodic tick looks for the results of open submissions in the
    history database and lets them time out.  Requests and ticks run in their own
    goroutines: their code is a program over calls ([prog]), and the calls act on
    the state they share one at a time, in any order.  The list of open
    submissions is protected by a lock that each of its methods holds to its end,
    so that a method is one call. *)
From S2P Require Import Prelude Strkey Xdr XdrCodec Muxed Transactions.
Import XdrCodec Transactions.
Local Open Scope Z_scope.

Module TxSub.

(** ** Programs *)

Section Programs.
Context {call : Type -> Type}.

Inductive program : Type -> Type :=
| Ret {A} (a : A) : program A
| Crash {A} (m : string) : program A
| Call {A R} (c : call R) (k : R -> program A) : program A
(** [for { ... }]: the body runs until it gives a value *)
| Loop {A B} (body : program (option A)) (k : A -> program B) : program B.

Fixpoint prog_bind {A B} (p : program A) : (A -> program B) -> program B :=
  match p with
  | Ret a => fun f => f a
  | Crash m => fun _ => Crash m
  | Call c k => fun f => Call c (fun x => prog_bind (k x) f)
  | Loop body k => fun f => Loop body (fun a => prog_bind (k a) f)
  end.

Definition perform {R} (c : call R) : program R := Call c (fun x => Ret x).
(** A value that panics instead of giving an error. *)
Definition must {A} (r : res A) : program A := match r with Ok a => Ret a | Err m | Panic m => Crash m end.
End Programs.
Arguments program call A : clear implicits.

Declare Scope prog_scope.
Delimit Scope prog_scope with prog.
Notation "x <~ c ; k" := (prog_bind c (fun x => k)) (at level 20, c at level 100, k at level 200, right associativity) : prog_scope.
Notation "' x <~ c ; k" := (prog_bind c (fun v => let x := v in k))
  (at level 20, x pattern, c at level 100, k at level 200, right associativity) : prog_scope.
Notation "c ;~ k" := (prog_bind c (fun _ => k)) (at level 100, k at level 200, right associativity) : prog_scope.
Local Open Scope prog_scope.

(** ** Data *)

(** The columns of a transaction that the package uses. *)
Record Transaction := mkTransaction {
  TransactionHash : string;
  InnerTransactionHash : option string;
  LedgerSequence : Z;
  TxResult : string
}.

#[global] Instance Transaction_eq_dec : EqDecision Transaction.
Proof. solve_decision. Defined.

(** The zero value of the struct. *)
Definition Transaction_zero : Transaction := mkTransaction "" None 0 "".

Inductive txerr :=
| ErrNoResults
| ErrCanceled
| ErrTimeout
| FailedTransactionError (ResultXDR DiagnosticEventsXDR : string)
| OtherError (e : error).

#[global] Instance txerr_eq_dec : EqDecision txerr.
Proof. solve_decision. Defined.

Definition ErrBadSequence : txerr := FailedTransactionError "AAAAAAAAAAD////7AAAAAA==" "".

Record Result := mkResult { Err_ : option txerr; Transaction_ : Transaction }.

(** An error of the database. *)
Inductive dberror :=
| NoRows
| DbError (e : error).

(** The answer of hcnet-core. *)
Record TXResponse := mkTXResponse { Exception : string; Error : string; Status : string; DiagnosticEvents : string }.

(** The context of a request. *)
Inductive ctx_error := Canceled | DeadlineExceeded.
(** What a [select] on the context and the timer took. *)
Inductive selected := CtxDone (e : ctx_error) | TimerFired.

(** A channel, by its address. *)
Definition Listener : Type := nat.

(** The calls that requests and ticks make. *)
Inductive call : Type -> Type :=
| PreFilteredTransactionByHash (hash : string) : call (Transaction + dberror)
| TransactionByHash (hash : string) : call (Transaction + dberror)
| GetSequenceNumbers (addresses : list string) : call (res (gmap string Z))
| CurrentStatus : call (Z * Z)
| SubmitTransaction (env : string) : call (res TXResponse)
| Select : call selected
| SendClose (l : Listener) (r : Result) : call unit
| List_Add (hash : string) (l : Listener) : call unit
| List_Finish (hash : string) (r : Result) : call unit
| List_Clean (maxAge : Z) : call Z
| List_Pending : call (list string)
| SetTickInProgress : call bool
| UnsetTickInProgress : call unit
| BeginTx : call (option error)
| Rollback : call unit
| GetLatestHistoryLedger : call (res Z)
| AllTransactionsByHashesSinceLedger (hashes : list string) (sinceLedgerSeq : Z) : call (list Transaction + dberror).

Abbreviation prog := (program call).

(** A channel: how much it holds, what was sent to it so far, how much of that its
    reader has taken, and whether it is closed. *)
Record chan := mkChan { capacity : nat; sent : list Result; taken : nat; closed : bool }.

Record openSubmission := mkOpenSubmission { Hash : string; SubmittedAt : Z; Listeners : list Listener }.

Abbreviation channels := (gmap Listener chan).
Abbreviation submissionList := (gmap string openSubmission).

(** The decoder of transaction results, whose type has a case for the result of
    every operation: the code of a result in base64. *)
Class ResultDecoder := { result_code : string -> res Z }.

Section System.
Context {XC : XdrCodec} {OPS : Operations} {RD : ResultDecoder}.

(** ** Results *)

Definition TxSuccess : Z := 0.
Definition TxFeeBumpInnerSuccess : Z := 1.
Definition TxBadSeq : Z := -5.
Definition Successful (code : Z) : bool := (code =? TxSuccess) || (code =? TxFeeBumpInnerSuccess).

Definition txResultFromHistory (tx : Transaction) : Transaction * option txerr :=
  (tx,
   match result_code (TxResult tx) with
   | Ok code => if negb (Successful code) then Some (FailedTransactionError (TxResult tx) "") else None
   | Err e | Panic e => Some (OtherError (wrap_error "could not unmarshall transaction result" e))
   end).

Definition txResultByHash (hash : string) : prog (Transaction * option txerr) :=
  r <~ perform (PreFilteredTransactionByHash hash);
  match r with
  | inl hr => Ret (txResultFromHistory hr)
  | inr (DbError e) => Ret (Transaction_zero, Some (OtherError (wrap_error "server error, could not query prefiltered transaction by hash" e)))
  | inr NoRows =>
      r <~ perform (TransactionByHash hash);
      match r with
      | inl hr => Ret (txResultFromHistory hr)
      | inr (DbError e) => Ret (Transaction_zero, Some (OtherError (wrap_error "server error, could not query history transaction by hash" e)))
      | inr NoRows => Ret (Transaction_zero, Some ErrNoResults)
      end
  end.

(** ** The submitter *)

Definition TXStatusError : string := "ERROR".
Definition TXStatusPending : string := "PENDING".
Definition TXStatusDuplicate : string := "DUPLICATE".
Definition TXStatusTryAgainLater : string := "TRY_AGAIN_LATER".

Definition IsException (resp : TXResponse) : bool := negb (bool_decide (Exception resp = "")).

(** What the submitter makes of a response. *)
Definition interpret (cresp : res TXResponse) : option txerr :=
  match cresp with
  | Err e | Panic e => Some (OtherError (wrap_error "failed to submit" e))
  | Ok cresp =>
      if IsException cresp then Some (OtherError (wrap_error "hcnet-core exception" (Exception cresp)))
      else if bool_decide (Status cresp = TXStatusError) then Some (FailedTransactionError (Error cresp) (DiagnosticEvents cresp))
      else if bool_decide (Status cresp = TXStatusPending) || bool_decide (Status cresp = TXStatusDuplicate)
              || bool_decide (Status cresp = TXStatusTryAgainLater) then None
      else Some (OtherError (wrap_error "Unrecognized hcnet-core status response" (Status cresp)))
  end.

Definition submitter_Submit (env : string) : prog (option txerr) :=
  cresp <~ perform (SubmitTransaction env);
  Ret (interpret cresp).

(** The metrics are left out. *)
Definition submitOnce (env : string) : prog (option txerr) := submitter_Submit env.

Definition IsBadSeq (err : option txerr) : txerr + bool :=
  match err with
  | Some (FailedTransactionError resultXDR _) =>
      match result_code resultXDR with
      | Ok code => inr (code =? TxBadSeq)
      | Err e | Panic e => inl (OtherError e)
      end
  | _ => inr false
  end.

(** ** Requests *)

Definition finish (response : Listener) (r : Result) : prog unit := perform (SendClose response r).

Definition isSyncedUp : prog bool :=
  '(coreLatest, historyLatest) <~ perform CurrentStatus;
  Ret (coreLatest <=? historyLatest).

Definition deriveTxSubError (e : ctx_error) : txerr :=
  match e with Canceled => ErrCanceled | DeadlineExceeded => ErrTimeout end.

(** One turn of the loop of [waitUntilAccountSequence]: its result when it returns. *)
Definition wait_turn (sourceAddress : string) (seq : Z) : prog (option (option txerr)) :=
  let select : prog (option (option txerr)) :=
    s <~ perform Select;
    match s with
    | CtxDone e => Ret (Some (Some (deriveTxSubError e)))
    | TimerFired => Ret None
    end in
  sequenceNumbers <~ perform (GetSequenceNumbers [sourceAddress]);
  match sequenceNumbers with
  | Err _ | Panic _ => select
  | Ok sequenceNumbers =>
      let num := default 0 (sequenceNumbers !! sourceAddress) in
      if seq <=? num then Ret (Some None) else
      synced <~ isSyncedUp;
      if (synced : bool) then Ret (Some None) else select
  end.

Definition waitUntilAccountSequence (sourceAddress : string) (seq : Z) : prog (option txerr) :=
  Loop (wait_turn sourceAddress seq) (fun err => Ret err).

Definition MinSeqNum (e : TransactionEnvelope) : res (option Z) :=
  match e with
  | EnvTxV0 _ _ => Ok None
  | _ =>
      p ← env_Preconditions e;
      match p with
      | PrecondV2 v2 => Ok (v2_MinSeqNum v2)
      | _ => Ok None
      end
  end.

(** Numbers that make no sense. *)
Definition bad_numbers (seqNum : Z) (minSeqNum : option Z) : bool :=
  (seqNum <? 0) || match minSeqNum with Some m => (m <? 0) || (seqNum <=? m) | None => false end.

(** [resultCh] is the channel that the call has created and returns. *)
Definition Submit (resultCh : Listener) (rawTx : string) (envelope : TransactionEnvelope) (hash : string) : prog unit :=
  sourceAccount <~ must (m ← env_SourceAccount envelope; Muxed.ToAccountId m);
  sourceAddress <~ must (AccountId.Address sourceAccount);
  seqNum <~ must (env_SeqNum envelope);
  minSeqNum <~ must (MinSeqNum envelope);
  if bad_numbers seqNum minSeqNum then finish resultCh (mkResult (Some ErrBadSequence) Transaction_zero) else
  '(tx, err) <~ txResultByHash hash;
  match err with
  | None => finish resultCh (mkResult None tx)
  | Some ErrNoResults =>
      srErr <~ submitOnce rawTx;
      match srErr with
      | None => perform (List_Add hash resultCh)
      | Some e =>
          match IsBadSeq srErr with
          | inl err => finish resultCh (mkResult (Some err) Transaction_zero)
          | inr false => finish resultCh (mkResult (Some e) Transaction_zero)
          | inr true =>
              err <~ waitUntilAccountSequence sourceAddress (to_uint64 seqNum);
              match err with
              | Some err => finish resultCh (mkResult (Some err) Transaction_zero)
              | None =>
                  '(tx, err) <~ txResultByHash hash;
                  match err with
                  | Some _ => finish resultCh (mkResult (Some e) Transaction_zero)
                  | None => finish resultCh (mkResult None tx)
                  end
              end
          end
      end
  | Some err => finish resultCh (mkResult (Some err) tx)
  end.

(** ** The tick *)

Definition sinceLedger (latestLedger : Z) : Z :=
  let sinceLedgerSeq := to_int32 (to_int32 latestLedger - 60) in
  to_uint32 (if sinceLedgerSeq <? 0 then 0 else sinceLedgerSeq).

Definition add_tx (txMap : gmap string Transaction) (tx : Transaction) : gmap string Transaction :=
  let txMap := <[TransactionHash tx := tx]> txMap in
  match InnerTransactionHash tx with Some h => <[h := tx]> txMap | None => txMap end.

(** The loop over the hashes that were pending. *)
Fixpoint finish_found (txMap : gmap string Transaction) (pending : list string) : prog unit :=
  match pending with
  | [] => Ret tt
  | hash :: pending =>
      match txMap !! hash with
      | None => finish_found txMap pending
      | Some tx =>
          match (txResultFromHistory tx).2 with
          | None => perform (List_Finish hash (mkResult None tx)) ;~ finish_found txMap pending
          | Some (FailedTransactionError x d) =>
              perform (List_Finish hash (mkResult (Some (FailedTransactionError x d)) tx)) ;~ finish_found txMap pending
          | Some _ => finish_found txMap pending
          end
      end
  end.

(** The part under the database transaction: whether it goes on to clean. *)
Definition tick_results : prog bool :=
  pending <~ perform List_Pending;
  match pending with
  | [] => Ret true
  | _ =>
      latestLedger <~ perform GetLatestHistoryLedger;
      match latestLedger with
      | Err _ | Panic _ => Ret false
      | Ok latestLedger =>
          txs <~ perform (AllTransactionsByHashesSinceLedger pending (sinceLedger latestLedger));
          match txs with
          | inr (DbError _) => Ret false
          | inr NoRows => finish_found ∅ pending ;~ Ret true
          | inl txs => finish_found (fold_left add_tx txs ∅) pending ;~ Ret true
          end
      end
  end.

(** [Init] sets the timeout of submissions to 30 seconds if it was not set; the
    metrics that it creates are left out. *)
Definition Init (submissionTimeout : Z) : Z := if submissionTimeout =? 0 then 30 * 10 ^ 9 else submissionTimeout.

Definition Tick (submissionTimeout : Z) : prog unit :=
  started <~ perform SetTickInProgress;
  if negb started then Ret tt else
  err <~ perform BeginTx;
  match err with
  | Some _ => perform UnsetTickInProgress
  | None =>
      go_on <~ tick_results;
      (if (go_on : bool) then perform (List_Clean (Init submissionTimeout)) ;~ Ret tt else Ret tt) ;~
      (* deferred *)
      perform Rollback ;~
      perform UnsetTickInProgress
  end.

(** ** Channels and the list of open submissions *)

Definition send (cs : channels) (l : Listener) (r : Result) : res channels :=
  match cs !! l with
  | None => Err "blocked: send on nil channel"
  | Some c =>
      if closed c then Panic "send on closed channel"
      else if Nat.leb (capacity c) (length (sent c) - taken c) then Err "blocked: the buffer is full"
      else Ok (<[l := mkChan (capacity c) (sent c ++ [r]) (taken c) (closed c)]> cs)
  end.

Definition close_ (cs : channels) (l : Listener) : res channels :=
  match cs !! l with
  | None => Panic "close of nil channel"
  | Some c => if closed c then Panic "close of closed channel" else Ok (<[l := mkChan (capacity c) (sent c) (taken c) true]> cs)
  end.

(** [for _, l := range listeners { l <- r; close(l) }] *)
Fixpoint notify (cs : channels) (listeners : list Listener) (r : Result) : res channels :=
  match listeners with
  | [] => Ok cs
  | l :: listeners => cs ← send cs l r; cs ← close_ cs l; notify cs listeners r
  end.

Definition submissionList_Add (s : submissionList) (cs : channels) (now : Z) (hash : string) (l : Listener) : res submissionList :=
  match cs !! l with
  | Some c =>
      if Nat.eqb (capacity c) 0 then Panic "Unbuffered listener cannot be added to OpenSubmissionList" else
      let os := match s !! hash with Some os => os | None => mkOpenSubmission hash now [] end in
      Ok (<[hash := mkOpenSubmission (Hash os) (SubmittedAt os) (Listeners os ++ [l])]> s)
  | None => Panic "Unbuffered listener cannot be added to OpenSubmissionList"
  end.

Definition submissionList_Finish (s : submissionList) (cs : channels) (hash : string) (r : Result) : res (submissionList * channels) :=
  match s !! hash with
  | None => Ok (s, cs)
  | Some os => cs ← notify cs (Listeners os) r; Ok (delete hash s, cs)
  end.

(** The loop of [Clean] over the submissions, in the order in which the range
    gives them. *)
Fixpoint clean_loop (now maxAge : Z) (l : list openSubmission) (s : submissionList) (cs : channels) : res (submissionList * channels) :=
  match l with
  | [] => Ok (s, cs)
  | os :: l =>
      if now - SubmittedAt os >? maxAge then
        cs ← notify cs (Listeners os) (mkResult (Some ErrTimeout) Transaction_zero);
        clean_loop now maxAge l (delete (Hash os) s) cs
      else clean_loop now maxAge l s cs
  end.

Definition submissionList_Clean (s : submissionList) (cs : channels) (now maxAge : Z) : res (submissionList * channels) :=
  clean_loop now maxAge (map_to_list s).*2 s cs.

End System.
End TxSub.
