(* ===== verification/TxSubProofs.v ===== *)
(** * Every submission gets one right answer

    Requests and ticks over the shared state, in every interleaving of their calls
    and with a database that may fail and change between them: nothing panics or
    blocks, each request gets at most one result, and the result is the one that
    the history or hcnet-core gave for its transaction.  Programs are verified
    with weakest preconditions over the facts learned so far, which only grow. *)
From S2P Require Import Prelude Strkey Xdr XdrCodec Muxed Transactions TxProofs TxSub.
Import XdrCodec Transactions TxProofs TxSub.
Local Open Scope Z_scope.
Local Open Scope prog_scope.

Module TxSubProofs.

Section System.
Context {XC : XdrCodec} {OPS : Operations} {RD : ResultDecoder}.

(** ** The state that goroutines share *)

Record request := mkRequest { rq_raw : string; rq_envelope : TransactionEnvelope; rq_hash : string }.

(** The last three fields are history variables: the requests made, the rows that
    have ever been in the tables, and what hcnet-core has answered. *)
Record shared := mkShared {
  clock : Z;
  filtered_rows : list Transaction;
  history_rows : list Transaction;
  history_latest : Z;      (** the greatest sequence in [history_ledgers], 0 without ledgers *)
  snapshot : option (list Transaction * Z);
  tickInProgress : bool;
  submissions : submissionList;
  chans : channels;
  requests : gmap Listener request;
  rows_seen : list Transaction;
  core_said : list (string * res TXResponse)
}.

Definition set_lists (s : shared) (subs : submissionList) (cs : channels) : shared :=
  mkShared (clock s) (filtered_rows s) (history_rows s) (history_latest s) (snapshot s) (tickInProgress s) subs cs (requests s) (rows_seen s) (core_said s).
Definition set_tick (s : shared) (b : bool) : shared :=
  mkShared (clock s) (filtered_rows s) (history_rows s) (history_latest s) (snapshot s) b (submissions s) (chans s) (requests s) (rows_seen s) (core_said s).
Definition set_snapshot (s : shared) (o : option (list Transaction * Z)) : shared :=
  mkShared (clock s) (filtered_rows s) (history_rows s) (history_latest s) o (tickInProgress s) (submissions s) (chans s) (requests s) (rows_seen s) (core_said s).
Definition add_core (s : shared) (x : string * res TXResponse) : shared :=
  mkShared (clock s) (filtered_rows s) (history_rows s) (history_latest s) (snapshot s) (tickInProgress s) (submissions s) (chans s) (requests s) (rows_seen s)
    (x :: core_said s).
Definition add_request (s : shared) (l : Listener) (q : request) : shared :=
  mkShared (clock s) (filtered_rows s) (history_rows s) (history_latest s) (snapshot s) (tickInProgress s) (submissions s)
    (<[l := mkChan 1 [] 0 false]> (chans s)) (<[l := q]> (requests s)) (rows_seen s) (core_said s).
Definition set_clock (s : shared) (t : Z) : shared :=
  mkShared t (filtered_rows s) (history_rows s) (history_latest s) (snapshot s) (tickInProgress s) (submissions s) (chans s) (requests s) (rows_seen s) (core_said s).
Definition set_tables (s : shared) (f h : list Transaction) (latest : Z) : shared :=
  mkShared (clock s) f h latest (snapshot s) (tickInProgress s) (submissions s) (chans s) (requests s) (rows_seen s ++ f ++ h) (core_said s).

Definition has_hash (h : string) (tx : Transaction) : Prop := TransactionHash tx = h \/ InnerTransactionHash tx = Some h.

(** A query for one row by hash. *)
Definition by_hash (h : string) (rows : list Transaction) (r : Transaction + dberror) : Prop :=
  match r with
  | inl tx => tx ∈ rows /\ has_hash h tx
  | inr NoRows => forall tx, tx ∈ rows -> ~ has_hash h tx
  | inr (DbError _) => True
  end.

Definition selects (hashes : list string) (since : Z) (rows : list Transaction) (tx : Transaction) : Prop :=
  tx ∈ rows /\ since <= LedgerSequence tx /\ exists h, h ∈ hashes /\ has_hash h tx.

(** What the statements of the open database transaction read: it is a repeatable
    read, so they see the tables of its start. *)
Definition seen_rows (s : shared) : list Transaction := default [] (fst <$> snapshot s).
Definition seen_latest (s : shared) : Z := default (history_latest s) (snd <$> snapshot s).

(** What a call may return, and the state after it. *)
Definition exec {R} (c : call R) (s : shared) : R -> shared -> Prop :=
  match c in call R return R -> shared -> Prop with
  | PreFilteredTransactionByHash h => fun r s' => s' = s /\ by_hash h (filtered_rows s) r
  | TransactionByHash h => fun r s' => s' = s /\ by_hash h (history_rows s) r
  | GetSequenceNumbers _ => fun _ s' => s' = s
  | CurrentStatus => fun _ s' => s' = s
  | SubmitTransaction env => fun r s' => s' = add_core s (env, r)
  | Select => fun _ s' => s' = s
  | SendClose l r => fun _ s' => exists cs, notify (chans s) [l] r = Ok cs /\ s' = set_lists s (submissions s) cs
  | List_Add h l => fun _ s' => exists subs, submissionList_Add (submissions s) (chans s) (clock s) h l = Ok subs /\ s' = set_lists s subs (chans s)
  | List_Finish h r => fun _ s' => exists subs cs, submissionList_Finish (submissions s) (chans s) h r = Ok (subs, cs) /\ s' = set_lists s subs cs
  | List_Clean maxAge => fun n s' => exists l subs cs, l ≡ₚ (map_to_list (submissions s)).*2 /\
      clean_loop (clock s) maxAge l (submissions s) (chans s) = Ok (subs, cs) /\ s' = set_lists s subs cs /\ n = Z.of_nat (size subs)
  | List_Pending => fun l s' => s' = s /\ l ≡ₚ (map_to_list (submissions s)).*1
  | SetTickInProgress => fun b s' => b = negb (tickInProgress s) /\ s' = set_tick s true
  | UnsetTickInProgress => fun _ s' => s' = set_tick s false
  | BeginTx => fun e s' => match e with None => s' = set_snapshot s (Some (history_rows s ++ filtered_rows s, history_latest s)) | Some _ => s' = s end
  | Rollback => fun _ s' => s' = set_snapshot s None
  | GetLatestHistoryLedger => fun r s' => s' = s /\ forall n, r = Ok n -> n = seen_latest s
  | AllTransactionsByHashesSinceLedger hashes since => fun r s' => s' = s /\
      match r with
      | inl txs => forall tx, tx ∈ txs <-> selects hashes since (seen_rows s) tx
      | inr NoRows => forall tx, ~ selects hashes since (seen_rows s) tx
      | inr (DbError _) => True
      end
  end.

(** A call that panics or blocks for ever. *)
Definition stuck {R} (c : call R) (s : shared) : Prop :=
  match c with
  | SendClose l r => is_ok (notify (chans s) [l] r) = false
  | List_Add h l => is_ok (submissionList_Add (submissions s) (chans s) (clock s) h l) = false
  | List_Finish h r => is_ok (submissionList_Finish (submissions s) (chans s) h r) = false
  | List_Clean maxAge => exists l, l ≡ₚ (map_to_list (submissions s)).*2 /\
      is_ok (clean_loop (clock s) maxAge l (submissions s) (chans s)) = false
  | _ => False
  end.

(** ** The machine: the shared state and the goroutines *)

Record machine := mkMachine { sh : shared; threads : list (prog unit) }.

(** The envelopes that the request handler passes on have a source account and
    numbers. *)
Definition envelope_ok (e : TransactionEnvelope) : Prop := exists acc addr n m,
  (m ← env_SourceAccount e; Muxed.ToAccountId m) = Ok acc /\ AccountId.Address acc = Ok addr /\ env_SeqNum e = Ok n /\ MinSeqNum e = Ok m.

Context (timeout : Z).

Inductive step : machine -> machine -> Prop :=
| step_call ts1 ts2 R (c : call R) k s r s' : exec c s r s' ->
    step (mkMachine s (ts1 ++ Call c k :: ts2)) (mkMachine s' (ts1 ++ k r :: ts2))
| step_loop ts1 ts2 A (body : prog (option A)) k s :
    step (mkMachine s (ts1 ++ Loop body k :: ts2))
      (mkMachine s (ts1 ++ (o <~ body; match o with Some a => k a | None => Loop body k end) :: ts2))
| step_return ts1 ts2 s : step (mkMachine s (ts1 ++ Ret tt :: ts2)) (mkMachine s (ts1 ++ ts2))
(** a request: it creates its channel *)
| step_submit ts s l raw e hash : chans s !! l = None -> envelope_ok e ->
    step (mkMachine s ts) (mkMachine (add_request s l (mkRequest raw e hash)) (ts ++ [Submit l raw e hash]))
| step_tick ts s : step (mkMachine s ts) (mkMachine s (ts ++ [Tick timeout]))
(** the handler of a request takes a result from its channel *)
| step_receive ts s l c : chans s !! l = Some c -> (taken c < length (sent c))%nat ->
    step (mkMachine s ts)
      (mkMachine (set_lists s (submissions s) (<[l := mkChan (capacity c) (sent c) (S (taken c)) (closed c)]> (chans s))) ts)
| step_time ts s t : clock s <= t -> step (mkMachine s ts) (mkMachine (set_clock s t) ts)
(** ingestion and reaping change the tables *)
| step_db ts s f h latest : step (mkMachine s ts) (mkMachine (set_tables s f h latest) ts).

Definition init (t : Z) : machine := mkMachine (mkShared t [] [] 0 None false ∅ ∅ ∅ [] []) [].

Definition reachable (m : machine) : Prop := exists t, rtc step (init t) m.

(** ** Right results *)

(** What is known for good. *)
Record facts := mkFacts { f_rows : list Transaction; f_core : list (string * res TXResponse) }.
Definition facts_of (s : shared) : facts := mkFacts (rows_seen s) (core_said s).

Definition succeeded (tx : Transaction) : Prop := exists code, result_code (TxResult tx) = Ok code /\ Successful code = true.
Definition failed (tx : Transaction) : Prop := exists code, result_code (TxResult tx) = Ok code /\ Successful code = false.

(** The results that a request may get. *)
Definition right (q : request) (g : facts) (r : Result) : Prop :=
  let recorded := Transaction_ r ∈ f_rows g /\ has_hash (rq_hash q) (Transaction_ r) in
  match Err_ r with
  | None => recorded /\ succeeded (Transaction_ r)
  | Some (FailedTransactionError x d) =>
      (recorded /\ failed (Transaction_ r) /\ x = TxResult (Transaction_ r)) \/
      (exists resp, (rq_raw q, Ok resp) ∈ f_core g /\ Status resp = TXStatusError /\ x = Error resp /\ d = DiagnosticEvents resp) \/
      (FailedTransactionError x d = ErrBadSequence /\
       exists n m, env_SeqNum (rq_envelope q) = Ok n /\ MinSeqNum (rq_envelope q) = Ok m /\ bad_numbers n m = true)
  | Some ErrNoResults => False
  | Some ErrTimeout | Some ErrCanceled | Some (OtherError _) => True
  end.

Definition more (g g' : facts) : Prop := (forall x, x ∈ f_rows g -> x ∈ f_rows g') /\ (forall x, x ∈ f_core g -> x ∈ f_core g').

#[local] Instance more_preorder : PreOrder more.
Proof. split; [by intros g|]. intros g1 g2 g3 [? ?] [? ?]. split; eauto. Qed.

Lemma right_more q g g' r : more g g' -> right q g r -> right q g' r.
Proof.
  intros [H1 H2]. unfold right. destruct (Err_ r) as [[| | |x d|]|]; try done.
  - intros [([? ?] & ? & ?)|[(resp & ? & ?)|?]]; [left; eauto|right; left; exists resp; eauto|by right; right].
  - intros [[? ?] ?]. eauto.
Qed.

(** ** Weakest preconditions *)

(** The channel that a goroutine has to answer, if it has one, and its request. *)
Definition owner : Type := option (Listener * request).

Definition pre {R} (o : owner) (g : facts) (c : call R) : Prop :=
  match c with
  | SendClose l r => exists q, o = Some (l, q) /\ right q g r
  | List_Add h l => exists q, o = Some (l, q) /\ h = rq_hash q
  | List_Finish h r => forall q, rq_hash q = h -> right q g r
  | _ => True
  end.

Definition owner_after {R} (c : call R) (o : owner) : owner :=
  match c with SendClose _ _ | List_Add _ _ => None | _ => o end.

(** What the result of a call says. *)
Definition post {R} (c : call R) (g : facts) : R -> Prop :=
  match c in call R return R -> Prop with
  | PreFilteredTransactionByHash h | TransactionByHash h => fun r =>
      match r with inl tx => tx ∈ f_rows g /\ has_hash h tx | inr _ => True end
  | SubmitTransaction env => fun r => (env, r) ∈ f_core g
  | AllTransactionsByHashesSinceLedger hashes _ => fun r =>
      match r with inl txs => forall tx, tx ∈ txs -> tx ∈ f_rows g | inr _ => True end
  | _ => fun _ => True
  end.

Fixpoint wp {A} (o : owner) (g : facts) (p : prog A) : (owner -> facts -> A -> Prop) -> Prop :=
  match p with
  | Ret a => fun Q => Q o g a
  | Crash _ => fun _ => False
  | Call c k => fun Q => pre o g c /\ forall x g', more g g' -> post c g' x -> wp (owner_after c o) g' (k x) Q
  | Loop body k => fun Q => forall g', more g g' ->
      wp o g' body (fun o' g'' r => o' = o /\ match r with Some a => wp o g'' (k a) Q | None => True end)
  end.

Lemma pre_more {R} o g g' (c : call R) : more g g' -> pre o g c -> pre o g' c.
Proof.
  intros Hm. destruct c; cbn; try done.
  - intros (q & ? & ?). exists q. split; [done|by apply (right_more q g)].
  - intros H q Hq. apply (right_more q g); [done|by apply H].
Qed.

Lemma prog_wp_mono {A} (p : prog A) : forall o g (Q Q' : owner -> facts -> A -> Prop),
  (forall o' g' a, more g g' -> Q o' g' a -> Q' o' g' a) -> wp o g p Q -> wp o g p Q'.
Proof.
  induction p as [A a|A m|A R c k IH|A B body IHb k IHk]; intros o g Q Q' HQ; cbn [wp].
  - by apply HQ.
  - done.
  - intros [Hp H]. split; [done|]. intros x g' Hg Hx. apply (IH x _ _ Q); [|by apply H].
    intros o' g'' a Hg'. apply HQ. by transitivity g'.
  - intros H g' Hg. specialize (H g' Hg). eapply IHb; [|exact H]. intros o' g'' [a|] Hg' [-> Ha]; (split; [done|]); [|done].
    apply (IHk a _ _ Q); [|done]. intros o'' g3 b Hg3. apply HQ. transitivity g'; [done|]. by transitivity g''.
Qed.

Lemma wp_more {A} (p : prog A) : forall o g g' (Q : owner -> facts -> A -> Prop),
  (forall o' h h' a, more h h' -> Q o' h a -> Q o' h' a) -> more g g' -> wp o g p Q -> wp o g' p Q.
Proof.
  destruct p as [A a|A m|A R c k|A B body k]; intros o g g' Q HQ Hg; cbn [wp].
  - by apply HQ.
  - done.
  - intros [Hp H]. split; [by apply (pre_more o g)|]. intros x h Hh. apply H. by transitivity g'.
  - intros H h Hh. apply H. by transitivity g'.
Qed.

Lemma prog_wp_bind {A B} (p : prog A) (f : A -> prog B) : forall o g (Q : owner -> facts -> B -> Prop),
  wp o g p (fun o' g' a => wp o' g' (f a) Q) -> wp o g (prog_bind p f) Q.
Proof.
  induction p as [A a|A m|A R c k IH|A C body IHb k IHk]; intros o g Q; cbn [wp prog_bind].
  - done.
  - done.
  - intros [Hp H]. split; [done|]. intros x g' Hg Hx. by apply IH, H.
  - intros H g' Hg. specialize (H g' Hg). eapply prog_wp_mono; [|exact H]. intros o' g'' [a|] _ [-> Ha]; (split; [done|]); [|done].
    by apply IHk.
Qed.

Lemma wp_unfold {A B} (body : prog (option A)) (k : A -> prog B) o g Q :
  wp o g (Loop body k) Q -> wp o g (r <~ body; match r with Some a => k a | None => Loop body k end) Q.
Proof.
  intros H. apply prog_wp_bind. pose proof (H g ltac:(reflexivity)) as Hb. eapply prog_wp_mono; [|exact Hb].
  intros o' g' [a|] Hg [-> Ha]; [done|]. cbn [wp] in *. intros g'' Hg'. apply H. by transitivity g'.
Qed.

Lemma wp_perform {R} (c : call R) o g (Q : owner -> facts -> R -> Prop) : pre o g c ->
  (forall x g', more g g' -> post c g' x -> Q (owner_after c o) g' x) -> wp o g (perform c) Q.
Proof. intros Hp H. split; [done|]. intros x g' Hg Hx. cbn [wp]. by apply H. Qed.

Lemma prog_wp_ret {A} (a : A) o g (Q : owner -> facts -> A -> Prop) : Q o g a -> wp o g (Ret a) Q.
Proof. done. Qed.

(** ** The programs of requests and ticks *)

Definition answered : owner -> facts -> unit -> Prop := fun o _ _ => o = None.

(** What a lookup of a result tells. *)
Definition looked_up (h : string) (g : facts) (x : Transaction * option txerr) : Prop :=
  match x.2 with
  | None => x.1 ∈ f_rows g /\ has_hash h x.1 /\ succeeded x.1
  | Some (FailedTransactionError r d) => x.1 ∈ f_rows g /\ has_hash h x.1 /\ failed x.1 /\ r = TxResult x.1
  | Some ErrNoResults | Some (OtherError _) => True
  | Some ErrTimeout | Some ErrCanceled => False
  end.

Lemma txResultFromHistory_right h g tx : tx ∈ f_rows g -> has_hash h tx -> looked_up h g (txResultFromHistory tx).
Proof.
  intros H1 H2. unfold txResultFromHistory, looked_up. cbn [fst snd].
  destruct (result_code (TxResult tx)) as [code| |] eqn:Hc; [|done..]. destruct (Successful code) eqn:Hs; cbn [negb].
  - split_and!; [done..|]. by exists code.
  - split_and!; [done..| |done]. by exists code.
Qed.

Lemma txResultByHash_wp h o g : wp o g (txResultByHash h) (fun o' g' x => o' = o /\ looked_up h g' x).
Proof.
  unfold txResultByHash. apply prog_wp_bind, wp_perform; [done|]. intros [tx|[|e]] g1 Hg1 Hx; cbn [owner_after].
  - destruct Hx. apply prog_wp_ret. split; [done|by apply txResultFromHistory_right].
  - apply prog_wp_bind, wp_perform; [done|]. intros [tx|[|e']] g2 Hg2 Hy; apply prog_wp_ret; (split; [done|]); [|done..]. destruct Hy.
    by apply txResultFromHistory_right.
  - by apply prog_wp_ret.
Qed.

Lemma finish_wp l q g r : right q g r -> wp (Some (l, q)) g (finish l r) answered.
Proof. intros H. apply wp_perform; [by exists q|done]. Qed.

Lemma wait_wp a n o g : wp o g (waitUntilAccountSequence a n)
  (fun o' g' r => o' = o /\ match r with Some e => e = ErrTimeout \/ e = ErrCanceled | None => True end).
Proof.
  unfold waitUntilAccountSequence. cbn [wp]. intros g0 Hg0. unfold wait_turn.
  match goal with |- wp _ _ _ ?Q0 => set (Q := Q0) end.
  assert (Hsel : forall g1, wp o g1 (s <~ perform Select;
    match s with CtxDone e => Ret (Some (Some (deriveTxSubError e))) | TimerFired => Ret None end) Q).
  { intros g1. apply prog_wp_bind, wp_perform; [done|]. intros [[]|] g2 _ _; cbn [owner_after]; apply prog_wp_ret; subst Q; (split; [done|]); cbn; [| |done].
    - split; [done|by right].
    - split; [done|by left]. }
  apply prog_wp_bind, wp_perform; [done|]. intros [m|e|e] g1 _ _; [|apply Hsel..].
  destruct (_ <=? _); [by subst Q|]. apply prog_wp_bind. unfold isSyncedUp. apply prog_wp_bind, wp_perform; [done|].
  intros [c h] g2 _ _. cbn [wp]. destruct (c <=? h); [by subst Q|apply Hsel].
Qed.

(** What the submitter makes of an answer of hcnet-core is right. *)
Lemma interpret_right q g r e : (rq_raw q, r) ∈ f_core g -> interpret r = Some e -> right q g (mkResult (Some e) Transaction_zero).
Proof.
  intros Hin. unfold interpret. destruct r as [resp|er|er]; [|by intros [= <-]..].
  destruct (IsException resp); [by intros [= <-]|]. destruct (bool_decide (Status resp = TXStatusError)) eqn:Hs.
  - apply bool_decide_eq_true in Hs. intros [= <-]. right. left. by exists resp.
  - destruct (_ || _ || _); [done|]. by intros [= <-].
Qed.

Lemma Submit_wp l q g : envelope_ok (rq_envelope q) ->
  wp (Some (l, q)) g (Submit l (rq_raw q) (rq_envelope q) (rq_hash q)) answered.
Proof.
  intros (acc & addr & n & m & H1 & H2 & H3 & H4). unfold Submit.
  rewrite H1. apply prog_wp_bind. cbn [must wp]. rewrite H2. apply prog_wp_bind. cbn [must wp]. rewrite H3. apply prog_wp_bind. cbn [must wp].
  rewrite H4. apply prog_wp_bind. cbn [must wp]. destruct (bad_numbers n m) eqn:Hb.
  { apply finish_wp. right. right. split; [done|]. by exists n, m. }
  apply prog_wp_bind. eapply prog_wp_mono; [|apply txResultByHash_wp]. intros o' g1 [tx err] Hg1 [-> Hl]. cbn [fst snd looked_up] in Hl.
  destruct err as [[| | |x d|er]|]; try done.
  - apply prog_wp_bind. unfold submitOnce, submitter_Submit. apply prog_wp_bind, wp_perform; [done|]. intros r g2 Hg2 Hr. apply prog_wp_ret.
    cbn [owner_after]. destruct (interpret r) as [e|] eqn:Hi; cycle 1.
    { apply wp_perform; [by exists q|done]. }
    pose proof (interpret_right q g2 r e Hr Hi) as He.
    destruct (IsBadSeq (Some e)) as [err|[|]] eqn:Hbad; [| |by apply finish_wp].
    + apply finish_wp. unfold IsBadSeq in Hbad. destruct e; try done. destruct (result_code _); [done|injection Hbad as <-..]; done.
    + apply prog_wp_bind. eapply prog_wp_mono; [|apply wait_wp]. intros o' g3 [err|] Hg3 [-> Hw].
      * apply finish_wp. by destruct Hw as [-> | ->].
      * apply prog_wp_bind. eapply prog_wp_mono; [|apply txResultByHash_wp]. intros o' g4 [tx' [err|]] Hg4 [-> Hl'].
        -- apply finish_wp. apply (right_more q g2); [|done]. by transitivity g3.
        -- apply finish_wp. cbn in Hl'. destruct Hl' as (? & ? & ?). by split_and!.
  - apply finish_wp. destruct Hl as (? & ? & ? & ?). left. by split_and!.
  - by apply finish_wp.
  - apply finish_wp. destruct Hl as (? & ? & ?). by split_and!.
Qed.

Lemma finish_found_wp (txMap : gmap string Transaction) pending g : (forall h tx, txMap !! h = Some tx -> tx ∈ f_rows g /\ has_hash h tx) ->
  wp None g (finish_found txMap pending) answered.
Proof.
  revert g. induction pending as [|h pending IH]; intros g Hm; [done|]. cbn [finish_found].
  destruct (txMap !! h) as [tx|] eqn:Htx; [|by apply IH]. destruct (Hm _ _ Htx) as [Hr Hh].
  pose proof (txResultFromHistory_right h g tx Hr Hh) as Hl. unfold looked_up in Hl. change (txResultFromHistory tx).1 with tx in Hl.
  assert (Hfin : forall r, (forall q, rq_hash q = h -> right q g r) ->
    wp None g (perform (List_Finish h r) ;~ finish_found txMap pending) answered).
  { intros r Hright. apply prog_wp_bind, wp_perform; [done|]. intros _ g' Hg _. apply IH. intros h' tx' H. destruct (Hm _ _ H).
    split; [by apply Hg|done]. }
  destruct (txResultFromHistory tx).2 as [[| | |x d|e]|]; try (by apply IH).
  - apply Hfin. intros q Hq. destruct Hl as (? & ? & ? & ?). left. rewrite Hq. by split_and!.
  - apply Hfin. intros q Hq. destruct Hl as (? & ? & ?). unfold right. cbn [Err_ Transaction_]. rewrite Hq. by split_and!.
Qed.

Lemma fold_add_tx txs : forall (m : gmap string Transaction) (P : Transaction -> Prop),
  (forall h tx, m !! h = Some tx -> P tx /\ has_hash h tx) -> (forall tx, tx ∈ txs -> P tx) ->
  forall h tx, fold_left add_tx txs m !! h = Some tx -> P tx /\ has_hash h tx.
Proof.
  induction txs as [|t txs IH]; intros m P Hm Hp; [done|]. cbn [fold_left]. apply IH; [|intros; apply Hp; by right].
  assert (Ht : P t) by (apply Hp; left). unfold add_tx. intros h tx.
  assert (H0 : <[TransactionHash t := t]> m !! h = Some tx -> P tx /\ has_hash h tx).
  { intros [[<- <-]|[_ ?]]%lookup_insert_Some; [by split; [|left]|by apply Hm]. }
  destruct (InnerTransactionHash t) as [h'|] eqn:Hi; [|done].
  intros [[<- <-]|[_ ?]]%lookup_insert_Some; [by split; [|right]|by apply H0].
Qed.

Lemma Tick_wp g : wp None g (Tick timeout) answered.
Proof.
  unfold Tick. apply prog_wp_bind, wp_perform; [done|]. intros [|] g1 _ _; cbn [negb owner_after]; [|by apply prog_wp_ret].
  apply prog_wp_bind, wp_perform; [done|]. intros [e|] g2 _ _; [by apply wp_perform|].
  apply prog_wp_bind, (prog_wp_mono _ _ _ (fun o _ _ => o = None)).
  - intros o g3 go_on _ ->. apply prog_wp_bind, (prog_wp_mono _ _ _ answered).
    + intros o g4 [] _ ->. apply prog_wp_bind, wp_perform; [done|]. intros _ g5 _ _. by apply wp_perform.
    + destruct go_on; [|by apply prog_wp_ret]. apply prog_wp_bind, wp_perform; [done|]. intros n g4 _ _. by apply prog_wp_ret.
  - unfold tick_results. apply prog_wp_bind, wp_perform; [done|]. intros pending g3 _ _. cbn [owner_after].
    destruct pending as [|h hs]; [by apply prog_wp_ret|]. set (pending := h :: hs).
    apply prog_wp_bind, wp_perform; [done|]. intros [latest|e|e] g4 _ _; [|by apply prog_wp_ret..].
    apply prog_wp_bind, wp_perform; [done|]. intros [txs|[|e]] g5 _ Hx; [| |by apply prog_wp_ret].
    + apply prog_wp_bind, (prog_wp_mono _ _ _ answered); [by intros o g6 [] _ ->|]. apply finish_found_wp.
      apply (fold_add_tx txs ∅ (fun tx => tx ∈ f_rows g5)); [|done]. intros h' tx. by rewrite lookup_empty.
    + apply prog_wp_bind, (prog_wp_mono _ _ _ answered); [by intros o g6 [] _ ->|]. apply finish_found_wp. intros h' tx. by rewrite lookup_empty.
Qed.

(** ** The lists of open submissions and the channels *)

Definition all_listeners (subs : submissionList) : list Listener := concat (Listeners <$> (map_to_list subs).*2).

Lemma all_listeners_delete (subs : submissionList) h os : subs !! h = Some os ->
  all_listeners subs ≡ₚ Listeners os ++ all_listeners (delete h subs).
Proof.
  intros H. unfold all_listeners. rewrite <- (map_to_list_delete subs h os H). done.
Qed.

Lemma all_listeners_insert (subs : submissionList) h os : subs !! h = None ->
  all_listeners (<[h := os]> subs) ≡ₚ Listeners os ++ all_listeners subs.
Proof. intros H. unfold all_listeners. by rewrite map_to_list_insert. Qed.

Lemma elem_of_all_listeners (subs : submissionList) h os l : subs !! h = Some os -> l ∈ Listeners os -> l ∈ all_listeners subs.
Proof. intros H Hl. rewrite (all_listeners_delete _ h os) by done. apply elem_of_app. by left. Qed.

Lemma listed_submission (subs : submissionList) l : l ∈ all_listeners subs -> exists h os, subs !! h = Some os /\ l ∈ Listeners os.
Proof.
  unfold all_listeners. rewrite list_elem_of_In, in_concat. intros (ls & Hin & Hl). apply list_elem_of_In in Hin, Hl.
  apply list_elem_of_fmap in Hin as (os & -> & Hin). apply list_elem_of_fmap in Hin as ([h os'] & -> & Hin). cbn in Hl.
  apply elem_of_map_to_list in Hin. by exists h, os'.
Qed.

Definition open_chan : chan := mkChan 1 [] 0 false.

Lemma notify_Ok r ls : NoDup ls -> forall cs : channels, (forall l, l ∈ ls -> cs !! l = Some open_chan) ->
  exists cs', notify cs ls r = Ok cs' /\ forall l, cs' !! l = if decide (l ∈ ls) then Some (mkChan 1 [r] 0 true) else cs !! l.
Proof.
  induction 1 as [|l ls Hl Hn IH]; intros cs Hopen.
  { exists cs. split; [done|]. intros l. by rewrite decide_False by (by intros ?%elem_of_nil). }
  cbn [notify]. unfold send. rewrite (Hopen l) by left. cbn [open_chan closed capacity sent taken length Nat.sub Nat.leb app].
  rewrite bind_Ok_l. unfold close_. rewrite lookup_insert_eq. cbn [closed capacity sent taken]. rewrite bind_Ok_l, insert_insert_eq.
  destruct (IH (<[l := mkChan 1 [r] 0 true]> cs)) as (cs' & -> & H).
  { intros l' Hl'. rewrite lookup_insert_ne by (intros ->; done). apply Hopen. by right. }
  exists cs'. split; [done|]. intros l'. rewrite H. destruct (decide (l' = l)) as [->|Hne].
  - rewrite decide_False by done. rewrite lookup_insert_eq. by rewrite decide_True by left.
  - rewrite lookup_insert_ne by done. apply decide_ext. rewrite elem_of_cons. naive_solver.
Qed.

(** The channels and the list of open submissions agree: channels that a goroutine
    owns or that are listed are open and empty, all others have had one result,
    which is right. *)
Record lists_ok (own : list Listener) (subs : submissionList) (cs : channels) (rqs : gmap Listener request) (g : facts) : Prop := {
  lo_nodup : NoDup (own ++ all_listeners subs);
  lo_open : forall l, l ∈ own ++ all_listeners subs -> cs !! l = Some open_chan;
  lo_done : forall l c, cs !! l = Some c -> l ∉ own ++ all_listeners subs ->
    exists r q, c = mkChan 1 [r] (taken c) true /\ (taken c <= 1)%nat /\ rqs !! l = Some q /\ right q g r;
  lo_keys : forall h os, subs !! h = Some os ->
    Hash os = h /\ forall l, l ∈ Listeners os -> exists q, rqs !! l = Some q /\ rq_hash q = h
}.

Lemma lists_ok_perm own own' subs cs rqs g : own ≡ₚ own' -> lists_ok own subs cs rqs g -> lists_ok own' subs cs rqs g.
Proof.
  intros Hp [H1 H2 H3 H4]. split.
  - by rewrite <- Hp.
  - intros l. rewrite <- Hp. apply H2.
  - intros l c Hc. rewrite <- Hp. by apply H3.
  - done.
Qed.

Lemma lists_ok_more own subs cs rqs g g' : more g g' -> lists_ok own subs cs rqs g -> lists_ok own subs cs rqs g'.
Proof.
  intros Hg [H1 H2 H3 H4]. split; [done|done| |done]. intros l c Hc Hl. destruct (H3 l c Hc Hl) as (r & q & ? & ? & ? & ?).
  exists r, q. split_and!; try done. by apply (right_more q g).
Qed.

(** Some listeners get a result and leave. *)
Lemma lists_ok_notified own own' subs subs' (cs cs' : channels) rqs g (results : Listener -> option Result) :
  lists_ok own subs cs rqs g ->
  (forall l, l ∈ own' ++ all_listeners subs' <-> l ∈ own ++ all_listeners subs /\ results l = None) ->
  NoDup (own' ++ all_listeners subs') ->
  (forall l r, results l = Some r -> l ∈ own ++ all_listeners subs /\ exists q, rqs !! l = Some q /\ right q g r) ->
  (forall l, cs' !! l = match results l with Some r => Some (mkChan 1 [r] 0 true) | None => cs !! l end) ->
  (forall h os, subs' !! h = Some os -> subs !! h = Some os) ->
  lists_ok own' subs' cs' rqs g.
Proof.
  intros [H1 H2 H3 H4] Hmem Hn Hres Hcs Hsubs. split; [done| | |by eauto].
  - intros l Hl. apply Hmem in Hl as [Hl Hr]. rewrite Hcs, Hr. by apply H2.
  - intros l c Hc Hl. rewrite Hcs in Hc. destruct (results l) as [r|] eqn:Hr.
    + injection Hc as <-. destruct (Hres l r Hr) as (_ & q & Hq & Hright). exists r, q. split_and!; [done|cbn; lia|done|done].
    + apply H3; [done|]. intros Hin. apply Hl, Hmem. by split.
Qed.

Lemma submission_nodup own subs cs rqs g h os : lists_ok own subs cs rqs g -> subs !! h = Some os ->
  NoDup (Listeners os) /\ (forall l, l ∈ Listeners os -> cs !! l = Some open_chan) /\
  (forall l, l ∈ own ++ all_listeners (delete h subs) <-> l ∈ own ++ all_listeners subs /\ l ∉ Listeners os) /\
  NoDup (own ++ all_listeners (delete h subs)).
Proof.
  intros [H1 H2 H3 H4] Hs. pose proof (all_listeners_delete subs h os Hs) as Hp.
  assert (Hperm : own ++ all_listeners subs ≡ₚ Listeners os ++ (own ++ all_listeners (delete h subs))).
  { rewrite Hp, !(assoc_L (++)). f_equiv. apply Permutation_app_comm. }
  assert (Hn : NoDup (Listeners os ++ (own ++ all_listeners (delete h subs)))) by by rewrite <- Hperm.
  apply NoDup_app in Hn as (Hn1 & Hn2 & Hn3). split_and!; [done| | |done].
  - intros l Hl. apply H2. rewrite Hperm. apply elem_of_app. by left.
  - intros l. rewrite Hperm. rewrite (elem_of_app (Listeners os)). naive_solver.
Qed.

(** One submission is answered and removed. *)
Lemma answer_submission own subs cs rqs g h os r : lists_ok own subs cs rqs g -> subs !! h = Some os ->
  (forall q, rq_hash q = h -> right q g r) ->
  exists cs', notify cs (Listeners os) r = Ok cs' /\ lists_ok own (delete h subs) cs' rqs g /\
    forall l, cs' !! l = if decide (l ∈ Listeners os) then Some (mkChan 1 [r] 0 true) else cs !! l.
Proof.
  intros Hok Hs Hr. destruct (submission_nodup own subs cs rqs g h os Hok Hs) as (Hn & Ho & Hm & Hn').
  destruct (notify_Ok r _ Hn cs Ho) as (cs' & Hc & Hcs). exists cs'. split; [done|]. split; [|done].
  apply (lists_ok_notified own own subs _ cs cs' rqs g (fun l => if decide (l ∈ Listeners os) then Some r else None)); [done| |done| | |].
  - intros l. rewrite Hm. destruct (decide _); naive_solver.
  - intros l r'. destruct (decide _) as [Hl|]; [|done]. intros [= <-]. split.
    + apply elem_of_app. right. by apply (elem_of_all_listeners _ h os).
    + destruct (lo_keys _ _ _ _ _ Hok h os Hs) as [_ Hq]. destruct (Hq l Hl) as (q & ? & ?). exists q. auto.
  - intros l. rewrite Hcs. by destruct (decide _).
  - intros h' os'. by intros [_ ?]%lookup_delete_Some.
Qed.

Definition timed_out : Result := mkResult (Some ErrTimeout) Transaction_zero.
Definition expired (now maxAge : Z) (os : openSubmission) : bool := now - SubmittedAt os >? maxAge.

Lemma clean_loop_Ok now maxAge own rqs g l : forall subs cs, NoDup (Hash <$> l) ->
  (forall os, os ∈ l -> subs !! Hash os = Some os) -> lists_ok own subs cs rqs g ->
  exists subs' cs', clean_loop now maxAge l subs cs = Ok (subs', cs') /\ lists_ok own subs' cs' rqs g /\
    (forall h, subs' !! h = match subs !! h with
                            | Some os => if bool_decide (h ∈ Hash <$> l) && expired now maxAge os then None else Some os
                            | None => None end) /\
    (forall os x, os ∈ l -> expired now maxAge os = true -> x ∈ Listeners os -> cs' !! x = Some (mkChan 1 [timed_out] 0 true)) /\
    (forall x, (forall os, os ∈ l -> expired now maxAge os = true -> x ∉ Listeners os) -> cs' !! x = cs !! x).
Proof.
  induction l as [|os l IH]; intros subs cs Hn Hl Hok.
  { exists subs, cs. split; [done|]. split; [done|]. split_and!; [|by intros ? ? ?%elem_of_nil|done].
    intros h. destruct (subs !! h); [|done]. by rewrite bool_decide_false by (by intros ?%elem_of_nil). }
  cbn [fmap list_fmap] in Hn. apply NoDup_cons in Hn as [Hni Hn]. cbn [clean_loop].
  change (now - SubmittedAt os >? maxAge) with (expired now maxAge os). destruct (expired now maxAge os) eqn:He.
  - destruct (answer_submission own subs cs rqs g (Hash os) os timed_out Hok) as (cs1 & Hc1 & Hok1 & Hcs1); [apply Hl; left|done|].
    fold timed_out. rewrite Hc1, bind_Ok_l.
    destruct (IH (delete (Hash os) subs) cs1 Hn) as (subs' & cs' & H1 & H2 & H3 & H4 & H5); [|done|].
    { intros os' Hos'. rewrite lookup_delete_ne; [apply Hl; by right|]. intros Heq. apply Hni. rewrite Heq. by apply list_elem_of_fmap_2. }
    assert (Hkeep : forall x, x ∈ Listeners os -> forall os', os' ∈ l -> x ∉ Listeners os').
    { intros x Hx os' Hos' Hx'. pose proof (submission_nodup _ _ _ _ _ _ _ Hok (Hl os (list_elem_of_here _ _))) as (_ & _ & Hm & _).
      destruct (proj1 (Hm x)) as [_ Hne]; [|done]. apply elem_of_app. right. apply (elem_of_all_listeners _ (Hash os') os'); [|done].
      rewrite lookup_delete_ne; [apply Hl; by right|]. intros Heq. apply Hni. rewrite Heq. by apply list_elem_of_fmap_2. }
    exists subs', cs'. split; [done|]. split; [done|]. split_and!.
    + intros h. rewrite H3. destruct (decide (h = Hash os)) as [->|Hne].
      * rewrite lookup_delete_eq, (Hl os) by left. rewrite bool_decide_true by left. by rewrite He.
      * rewrite lookup_delete_ne by done. destruct (subs !! h); [|done].
        rewrite (bool_decide_ext (h ∈ Hash <$> os :: l) (h ∈ Hash <$> l)); [done|]. cbn [fmap list_fmap]. rewrite elem_of_cons. naive_solver.
    + intros os' x Hos' He' Hx. apply elem_of_cons in Hos' as [->|Hos']; [|by apply (H4 os')].
      rewrite H5 by (intros; by apply Hkeep). rewrite Hcs1. by rewrite decide_True.
    + intros x Hx. rewrite H5, Hcs1; [|intros; apply Hx; [by right|done]]. rewrite decide_False; [done|]. apply Hx; [left|done].
  - destruct (IH subs cs Hn) as (subs' & cs' & H1 & H2 & H3 & H4 & H5); [intros; apply Hl; by right|done|].
    exists subs', cs'. split; [done|]. split; [done|]. split_and!.
    + intros h. rewrite H3. destruct (subs !! h) as [os'|] eqn:Hs; [|done]. destruct (decide (h = Hash os)) as [->|Hne].
      * rewrite (Hl os) in Hs by left. injection Hs as ->. by rewrite He, !andb_false_r.
      * rewrite (bool_decide_ext (h ∈ Hash <$> os :: l) (h ∈ Hash <$> l)); [done|]. cbn [fmap list_fmap]. rewrite elem_of_cons. naive_solver.
    + intros os' x Hos' He' Hx. apply elem_of_cons in Hos' as [->|Hos']; [congruence|by apply (H4 os')].
    + intros x Hx. apply H5. intros os' Hos'. apply Hx. by right.
Qed.

(** The submissions, in the order in which a range over the map gives them. *)
Lemma range_submissions own subs cs rqs g l : lists_ok own subs cs rqs g -> l ≡ₚ (map_to_list subs).*2 ->
  NoDup (Hash <$> l) /\ (forall os, os ∈ l <-> subs !! Hash os = Some os) /\ forall h, h ∈ Hash <$> l <-> is_Some (subs !! h).
Proof.
  intros Hok Hl.
  assert (Hm : Hash <$> l ≡ₚ (map_to_list subs).*1).
  { rewrite Hl, <- list_fmap_compose. assert (Heq : (Hash ∘ snd) <$> map_to_list subs = (map_to_list subs).*1); [|by rewrite Heq].
    apply list_fmap_ext. intros i [h os] Hi. apply list_elem_of_lookup_2, elem_of_map_to_list in Hi. cbn.
    by destruct (lo_keys _ _ _ _ _ Hok h os Hi). }
  split; [rewrite Hm; apply NoDup_fst_map_to_list|]. split.
  - intros os. rewrite Hl, list_elem_of_fmap. split.
    + intros ([h os'] & -> & Hin%elem_of_map_to_list). cbn. by destruct (lo_keys _ _ _ _ _ Hok h os' Hin) as [-> _].
    + intros H. exists (Hash os, os). split; [done|]. by apply elem_of_map_to_list.
  - intros h. rewrite Hm, list_elem_of_fmap. split.
    + intros ([h' os] & -> & Hin%elem_of_map_to_list). by exists os.
    + intros [os H]. exists (h, os). split; [done|]. by apply elem_of_map_to_list.
Qed.

(** ** The invariant of the machine *)

Definition rows_ok (s : shared) : Prop := forall tx, tx ∈ filtered_rows s \/ tx ∈ history_rows s \/ tx ∈ seen_rows s -> tx ∈ rows_seen s.

Definition chan_of (o : owner) : option Listener := fst <$> o.

Record shared_ok (own : list owner) (s : shared) : Prop := {
  so_rows : rows_ok s;
  so_requests : forall l q, Some (l, q) ∈ own -> requests s !! l = Some q;
  so_lists : lists_ok (omap chan_of own) (submissions s) (chans s) (requests s) (facts_of s)
}.

Definition Inv (m : machine) : Prop := exists own, Forall2 (fun o t => wp o (facts_of (sh m)) t answered) own (threads m) /\ shared_ok own (sh m).

Lemma add_listener_lists own subs cs now rqs g h l q : lists_ok (l :: own) subs cs rqs g -> rqs !! l = Some q -> rq_hash q = h ->
  exists subs', submissionList_Add subs cs now h l = Ok subs' /\ lists_ok own subs' cs rqs g.
Proof.
  intros [H1 H2 H3 H4] Hq Hh. unfold submissionList_Add. rewrite (H2 l) by left. cbn [open_chan capacity Nat.eqb].
  set (os := match subs !! h with Some os => os | None => mkOpenSubmission h now [] end).
  set (subs' := <[h := mkOpenSubmission (Hash os) (SubmittedAt os) (Listeners os ++ [l])]> subs). exists subs'. split; [done|].
  assert (Hp : all_listeners subs' ≡ₚ l :: all_listeners subs).
  { subst subs'. rewrite <- insert_delete_eq, all_listeners_insert by apply lookup_delete_eq. cbn [Listeners]. subst os. destruct (subs !! h) as [os|] eqn:Hs.
    - rewrite (all_listeners_delete subs h os) by done. rewrite <- app_assoc. cbn. by rewrite <- Permutation_middle.
    - cbn. by rewrite delete_id. }
  assert (Hall : (l :: own) ++ all_listeners subs ≡ₚ own ++ all_listeners subs') by (rewrite Hp; cbn; apply Permutation_middle).
  split.
  - by rewrite <- Hall.
  - intros x. rewrite <- Hall. apply H2.
  - intros x c Hc. rewrite <- Hall. by apply H3.
  - intros h' os'. subst subs'. intros [[<- <-]|[Hne Hs]]%lookup_insert_Some; [|by apply H4]. cbn [Hash Listeners].
    subst os. destruct (subs !! h) as [os|] eqn:Hs.
    + destruct (H4 h os Hs) as [Hos Hls]. split; [done|]. intros x. rewrite elem_of_app, list_elem_of_singleton. intros [?| ->]; [by apply Hls|by exists q].
    + cbn. split; [done|]. intros x Hx%list_elem_of_singleton. subst x. by exists q.
Qed.

Lemma send_lists own subs cs rqs g l q r : lists_ok (l :: own) subs cs rqs g -> rqs !! l = Some q -> right q g r ->
  exists cs', notify cs [l] r = Ok cs' /\ lists_ok own subs cs' rqs g.
Proof.
  intros Hok Hq Hr. pose proof (lo_nodup _ _ _ _ _ Hok) as Hn. cbn in Hn. apply NoDup_cons in Hn as [Hni Hn].
  destruct (notify_Ok r [l] (NoDup_singleton l) cs) as (cs' & Hc & Hcs).
  { intros x ->%list_elem_of_singleton. apply (lo_open _ _ _ _ _ Hok). left. }
  exists cs'. split; [done|].
  apply (lists_ok_notified (l :: own) own subs subs cs cs' rqs g (fun x => if decide (x ∈ [l]) then Some r else None)); [done| |done| | |done].
  - intros x. cbn [app]. rewrite elem_of_cons. destruct (decide (x ∈ [l])) as [Hx|Hx]; rewrite list_elem_of_singleton in Hx; naive_solver.
  - intros x r'. destruct (decide _) as [Hx|]; [|done]. apply list_elem_of_singleton in Hx as ->. intros [= <-]. split; [left|by exists q].
  - intros x. rewrite Hcs. by destruct (decide _).
Qed.

Lemma chans_perm own1 o own2 : omap chan_of (own1 ++ o :: own2) ≡ₚ option_list (chan_of o) ++ omap chan_of (own1 ++ own2).
Proof.
  rewrite !omap_app. cbn. destruct (chan_of o); cbn; [|done]. by rewrite <- Permutation_middle.
Qed.

(** A call that satisfies its precondition is not stuck, and keeps the invariant. *)
Lemma exec_ok {R} (c : call R) s own1 o own2 : shared_ok (own1 ++ o :: own2) s -> pre o (facts_of s) c ->
  ~ stuck c s /\ forall r s', exec c s r s' ->
    more (facts_of s) (facts_of s') /\ post c (facts_of s') r /\ shared_ok (own1 ++ owner_after c o :: own2) s'.
Proof.
  intros [Hrows Hrq Hl] Hp.
  assert (Hown : forall l q, o = Some (l, q) -> lists_ok (l :: omap chan_of (own1 ++ own2)) (submissions s) (chans s) (requests s) (facts_of s) /\
    requests s !! l = Some q).
  { intros l q ->. split; [|apply Hrq; apply elem_of_app; right; left]. eapply lists_ok_perm; [|exact Hl]. apply (chans_perm own1 (Some (l, q)) own2). }
  assert (Hdrop : forall s', requests s' = requests s -> rows_ok s' ->
    lists_ok (omap chan_of (own1 ++ own2)) (submissions s') (chans s') (requests s) (facts_of s') -> shared_ok (own1 ++ None :: own2) s').
  { intros s' Hr Hs Hls. split; [done| |].
    - intros l q Hin. rewrite Hr. apply Hrq. apply elem_of_app in Hin as [?|Hin]; [by apply elem_of_app; left|].
      apply elem_of_cons in Hin as [?|?]; [done|]. apply elem_of_app. right. by right.
    - rewrite Hr. eapply lists_ok_perm; [symmetry; apply (chans_perm own1 None own2)|done]. }
  assert (Hby : forall h rows r, (forall tx, tx ∈ rows -> tx ∈ rows_seen s) -> by_hash h rows r ->
    match r with inl tx => tx ∈ rows_seen s /\ has_hash h tx | inr _ => True end).
  { intros h rows [tx|] Hin; [|done]. intros [? ?]. auto. }
  destruct c; cbn [stuck exec pre owner_after post] in *; (split; [try (by intros [])|intros r0 s' Hx]).
  all: try match goal with Hx : @eq shared _ _ /\ _ |- _ => destruct Hx as [-> Hx]; split; [done|]; split; [|done] end.
  all: try match goal with Hx : @eq shared ?x ?y |- _ => is_var y; subst x; by split_and! end.
  - eapply Hby; [|exact Hx]. intros tx Htx. apply Hrows. by left.
  - eapply Hby; [|exact Hx]. intros tx Htx. apply Hrows. by right; left.
  - subst s'. assert (Hm : more (facts_of s) (facts_of (add_core s (env, r0)))) by (split; [done|]; intros x Hx; by right).
    split; [done|]. split; [left|]. split; [done|done|by apply (lists_ok_more _ _ _ _ (facts_of s))].
  - destruct Hp as (q & Ho & Hr). destruct (Hown _ _ Ho) as [Hlo Hq]. destruct (send_lists _ _ _ _ _ _ _ _ Hlo Hq Hr) as (cs & -> & _). done.
  - destruct Hp as (q & Ho & Hr). destruct (Hown _ _ Ho) as [Hlo Hq]. destruct (send_lists _ _ _ _ _ _ _ _ Hlo Hq Hr) as (cs & Hc & Hls).
    destruct Hx as (cs' & Hc' & ->). rewrite Hc in Hc'. injection Hc' as <-. split; [done|]. split; [done|]. by apply Hdrop.
  - destruct Hp as (q & Ho & Hh). destruct (Hown _ _ Ho) as [Hlo Hq].
    destruct (add_listener_lists _ _ _ (clock s) _ _ hash _ _ Hlo Hq) as (subs & -> & _); done.
  - destruct Hp as (q & Ho & Hh). destruct (Hown _ _ Ho) as [Hlo Hq].
    destruct (add_listener_lists _ _ _ (clock s) _ _ hash _ _ Hlo Hq) as (subs & Hs & Hls); [done|].
    destruct Hx as (subs' & Hs' & ->). rewrite Hs in Hs'. injection Hs' as <-. split; [done|]. split; [done|]. by apply Hdrop.
  - unfold submissionList_Finish. destruct (submissions s !! hash) as [os|] eqn:Hs; [|done].
    destruct (answer_submission _ _ _ _ _ _ _ r Hl Hs Hp) as (cs & -> & _). by rewrite bind_Ok_l.
  - destruct Hx as (subs & cs & Hx & ->). split; [done|]. split; [done|]. split; [done|done|].
    unfold submissionList_Finish in Hx. cbn [set_lists submissions chans requests]. destruct (submissions s !! hash) as [os|] eqn:Hs.
    + destruct (answer_submission _ _ _ _ _ _ _ r Hl Hs Hp) as (cs' & Hc & Hls & _). rewrite Hc, bind_Ok_l in Hx. by injection Hx as <- <-.
    + by injection Hx as <- <-.
  - intros (l & Hperm & Hx). destruct (range_submissions _ _ _ _ _ _ Hl Hperm) as (H1 & H2 & _).
    destruct (clean_loop_Ok (clock s) maxAge _ _ _ l _ _ H1 (fun os => proj1 (H2 os)) Hl) as (subs & cs & Hc & _). by rewrite Hc in Hx.
  - destruct Hx as (l & subs & cs & Hperm & Hx & -> & _). destruct (range_submissions _ _ _ _ _ _ Hl Hperm) as (H1 & H2 & _).
    destruct (clean_loop_Ok (clock s) maxAge _ _ _ l _ _ H1 (fun os => proj1 (H2 os)) Hl) as (subs' & cs' & Hc & Hls & _).
    rewrite Hc in Hx. injection Hx as <- <-. split; [done|]. split; [done|]. by split.
  - done.
  - destruct Hx as [_ ->]. split; [done|]. split; [done|]. by split.
  - subst s'. split; [done|]. split; [done|]. by split.
  - destruct r0; subst s'; [by split_and!|]. split; [done|]. split; [done|]. split; [|done|done]. intros tx [Ht|[Ht|Ht]]; apply Hrows; [by left|by right; left|].
    cbn in Ht. apply elem_of_app in Ht as [?|?]; [by right; left|by left].
  - subst s'. split; [done|]. split; [done|]. split; [|done|done]. intros tx [Ht|[Ht|Ht]]; apply Hrows; [by left|by right; left|].
    by apply elem_of_nil in Ht.
  - done.
  - destruct r0 as [txs|]; [|done]. intros tx Htx. apply Hx in Htx as [Htx _]. apply Hrows. by right; right.
Qed.

Lemma answered_more o g g' a : more g g' -> answered o g a -> answered o g' a.
Proof. done. Qed.

Lemma threads_more own ts g g' : more g g' -> Forall2 (fun o t => wp o g t answered) own ts -> Forall2 (fun o t => wp o g' t answered) own ts.
Proof. intros Hg H. eapply Forall2_impl; [exact H|]. intros o t. apply wp_more; [|done]. intros ? ? ? ?. apply answered_more. Qed.

(** The goroutines before, at and after the one that makes the step. *)
Lemma threads_split own s ts1 t ts2 : Forall2 (fun o t => wp o (facts_of s) t answered) own (ts1 ++ t :: ts2) ->
  exists own1 o own2, own = own1 ++ o :: own2 /\ Forall2 (fun o t => wp o (facts_of s) t answered) own1 ts1 /\
    wp o (facts_of s) t answered /\ Forall2 (fun o t => wp o (facts_of s) t answered) own2 ts2.
Proof.
  intros H. apply Forall2_app_inv_r in H as (own1 & own' & H1 & H2 & ->). apply Forall2_cons_inv_r in H2 as (o & own2 & Ho & H2 & ->).
  by exists own1, o, own2.
Qed.

Lemma not_listed own s l : shared_ok own s -> chans s !! l = None -> l ∉ omap chan_of own ++ all_listeners (submissions s).
Proof. intros [_ _ Hl] Hn Hin. apply (lo_open _ _ _ _ _ Hl) in Hin. congruence. Qed.

(** A new request. *)
Lemma shared_ok_request own s l q : shared_ok own s -> chans s !! l = None -> shared_ok (own ++ [Some (l, q)]) (add_request s l q).
Proof.
  intros Hok Hn. pose proof (not_listed own s l Hok Hn) as Hni. destruct Hok as [Hrows Hrq [H1 H2 H3 H4]].
  assert (Hp : omap chan_of (own ++ [Some (l, q)]) ++ all_listeners (submissions s) ≡ₚ l :: (omap chan_of own ++ all_listeners (submissions s))).
  { rewrite omap_app, <- app_assoc. cbn. by rewrite <- Permutation_middle. }
  split; [done| |split].
  - intros l' q' Hin. apply elem_of_app in Hin as [Hin|Hin].
    + cbn [add_request requests]. rewrite lookup_insert_ne; [by apply Hrq|]. intros <-. apply Hni, elem_of_app. left.
      apply list_elem_of_omap. by exists (Some (l, q')).
    + apply list_elem_of_singleton in Hin. injection Hin as -> ->. apply lookup_insert_eq.
  - cbn [add_request submissions]. rewrite Hp. by constructor.
  - intros l'. cbn [add_request submissions chans]. rewrite Hp. intros [->|Hin]%elem_of_cons; [apply lookup_insert_eq|].
    rewrite lookup_insert_ne by (intros <-; done). by apply H2.
  - intros l' c. cbn [add_request submissions chans requests]. rewrite Hp, not_elem_of_cons. intros Hc [Hne Hin].
    rewrite lookup_insert_ne in Hc by done. rewrite lookup_insert_ne by done. by apply H3.
  - intros h os Hs. destruct (H4 h os Hs) as [? Hls]. split; [done|]. intros l' Hl'. cbn [add_request requests].
    rewrite lookup_insert_ne; [by apply Hls|]. intros <-. apply Hni, elem_of_app. right. by apply (elem_of_all_listeners _ h os).
Qed.

Lemma Inv_step m m' : Inv m -> step m m' -> Inv m'.
Proof.
  intros (own & Hts & Hok) H. destruct H; cbn [sh threads] in *.
  - apply threads_split in Hts as (own1 & o & own2 & -> & Ht1 & [Hp Hk] & Ht2).
    destruct (exec_ok c s own1 o own2 Hok Hp) as [_ He]. destruct (He _ _ H) as (Hm & Hpost & Hok').
    exists (own1 ++ owner_after c o :: own2). split; [|done]. apply Forall2_app; [by apply (threads_more _ _ (facts_of s))|].
    constructor; [by apply Hk|by apply (threads_more _ _ (facts_of s))].
  - apply threads_split in Hts as (own1 & o & own2 & -> & Ht1 & Ht & Ht2). exists (own1 ++ o :: own2). split; [|done].
    apply Forall2_app; [done|]. constructor; [by apply wp_unfold|done].
  - apply threads_split in Hts as (own1 & o & own2 & -> & Ht1 & Ht & Ht2). cbn in Ht. unfold answered in Ht. subst o.
    exists (own1 ++ own2). split; [by apply Forall2_app|]. destruct Hok as [Hrows Hrq Hl]. split; [done| |].
    + intros l q Hin. apply Hrq. apply elem_of_app in Hin as [?|?]; apply elem_of_app; [by left|right; by right].
    + eapply lists_ok_perm; [|exact Hl]. apply (chans_perm own1 None own2).
  - exists (own ++ [Some (l, mkRequest raw e hash)]). split; [|by apply shared_ok_request].
    apply Forall2_app; [done|]. constructor; [|done]. by apply (Submit_wp l (mkRequest raw e hash)).
  - exists (own ++ [None]). split; [apply Forall2_app; [done|]; constructor; [apply Tick_wp|done]|].
    destruct Hok as [Hrows Hrq Hl]. split; [done| |].
    + intros l q Hin. apply Hrq. apply elem_of_app in Hin as [?|Hin]; [done|]. by apply list_elem_of_singleton in Hin.
    + rewrite omap_app. cbn. by rewrite app_nil_r.
  - exists own. split; [done|]. destruct Hok as [Hrows Hrq [H1 H2 H3 H4]]. split; [done|done|]. split; [done| | |done]; cbn [sh set_lists chans submissions requests].
    + intros l' Hl'. rewrite lookup_insert_ne; [by apply H2|]. intros <-. apply H2 in Hl'. rewrite H in Hl'. injection Hl' as ->. cbn in *. lia.
    + intros l' c' Hc Hl'. destruct (decide (l = l')) as [<-|Hne]; [|rewrite lookup_insert_ne in Hc by done; by apply H3].
      rewrite lookup_insert_eq in Hc. injection Hc as <-. destruct (H3 l c H Hl') as (r & q & Hc & ? & ? & ?).
      exists r, q. rewrite Hc in H0 |- *. cbn in *. split_and!; [done|lia|done|done].
  - exists own. split; [done|]. by destruct Hok.
  - assert (Hm : more (facts_of s) (facts_of (set_tables s f h latest))) by (split; [|done]; intros x Hx; cbn; apply elem_of_app; by left).
    exists own. split; [by apply (threads_more _ _ (facts_of s))|]. destruct Hok as [Hrows Hrq Hl].
    split; [|done|by apply (lists_ok_more _ _ _ _ (facts_of s))]. intros tx. cbn. rewrite !elem_of_app.
    intros [?|[?|?]]; [by right; left|by right; right|left]. apply Hrows. by right; right.
Qed.

Lemma reachable_Inv m : reachable m -> Inv m.
Proof.
  intros [t H]. assert (H0 : Inv (init t)).
  { exists []. split; [exact (List.Forall2_nil _)|]. split; [|by intros ? ? ?%elem_of_nil|].
    - intros tx [?|[?|?]]; by apply elem_of_nil in H0.
    - split; cbn; [constructor|by intros ? ?%elem_of_nil|by intros ? ?; rewrite lookup_empty|by intros ? ?; rewrite lookup_empty]. }
  clear -H H0. induction H as [|m1 m2 m3 Hs _ IH]; [done|]. apply IH. by apply (Inv_step m1).
Qed.

(** The next step of a goroutine neither panics nor blocks for ever. *)
Definition goes_on {A} (s : shared) (t : prog A) : Prop :=
  match t with Crash _ => False | Call c _ => ~ stuck c s | _ => True end.

Lemma wp_goes_on {A} (t : prog A) s own1 o own2 Q : shared_ok (own1 ++ o :: own2) s -> wp o (facts_of s) t Q -> goes_on s t.
Proof. intros Hok. destruct t; cbn; try done. intros [Hp _]. by apply (exec_ok c s own1 o own2). Qed.

(** C6: Requests and ticks in any number and any interleaving, over a database and
    a hcnet-core that may fail and change at any time: no goroutine panics or
    blocks on a channel; every request gets at most one result, which is right,
    and its channel is closed with it; and when all goroutines have returned,
    every request without a result is in the list of open submissions. *)
Theorem submissions_answered_once (m : machine) (Hm : reachable m) :
  (forall t, t ∈ threads m -> goes_on (sh m) t) /\
  (forall l c, chans (sh m) !! l = Some c -> exists q, requests (sh m) !! l = Some q /\
     (closed c = false /\ sent c = [] \/
      closed c = true /\ exists r, sent c = [r] /\ right q (facts_of (sh m)) r)) /\
  (threads m = [] -> forall l c, chans (sh m) !! l = Some c -> closed c = false ->
     exists q os, requests (sh m) !! l = Some q /\ submissions (sh m) !! rq_hash q = Some os /\ l ∈ Listeners os).
Proof.
  destruct (reachable_Inv m Hm) as (own & Hts & Hok). split; [|split].
  - intros t Ht. apply list_elem_of_split in Ht as (ts1 & ts2 & Heq). rewrite Heq in Hts.
    apply threads_split in Hts as (own1 & o & own2 & -> & _ & Hwp & _). by eapply wp_goes_on.
  - intros l c Hc. destruct Hok as [_ Hrq Hl]. destruct (decide (l ∈ omap chan_of own ++ all_listeners (submissions (sh m)))) as [Hin|Hni].
    + pose proof (lo_open _ _ _ _ _ Hl l Hin) as Ho. rewrite Hc in Ho. injection Ho as ->.
      assert (Hq : exists q, requests (sh m) !! l = Some q).
      { apply elem_of_app in Hin as [Hin|Hin].
        - apply list_elem_of_omap in Hin as ([[l' q]|] & Hin & [= ->]). exists q. by apply Hrq.
        - apply listed_submission in Hin as (h & os & Hs & Hin). destruct (lo_keys _ _ _ _ _ Hl h os Hs) as [_ Hq].
          destruct (Hq l Hin) as (q & ? & _). by exists q. }
      destruct Hq as [q Hq]. exists q. split; [done|]. by left.
    + destruct (lo_done _ _ _ _ _ Hl l c Hc Hni) as (r & q & -> & _ & Hq & Hr). exists q. split; [done|]. right. split; [done|]. by exists r.
  - intros Hnone l c Hc Hopen. rewrite Hnone in Hts. apply Forall2_nil_inv_r in Hts. subst own. destruct Hok as [_ _ Hl].
    destruct (decide (l ∈ all_listeners (submissions (sh m)))) as [Hin|Hni].
    + apply listed_submission in Hin as (h & os & Hs & Hin). destruct (lo_keys _ _ _ _ _ Hl h os Hs) as [_ Hq].
      destruct (Hq l Hin) as (q & Hrq & <-). by exists q, os.
    + destruct (lo_done _ _ _ _ _ Hl l c Hc Hni) as (r & q & Hr & _). by rewrite Hr in Hopen.
Qed.

(** ** A program that runs alone *)

(** The turns of a loop. *)
Inductive iterates {A} (turn : shared -> shared -> option A -> Prop) : shared -> shared -> A -> Prop :=
| iterates_done s s' a : turn s s' (Some a) -> iterates turn s s' a
| iterates_again s s1 s' a : turn s s1 None -> iterates turn s1 s' a -> iterates turn s s' a.

(** The results of a program without interference, for calls with [allowed] results. *)
Fixpoint outcome (allowed : forall R, call R -> R -> Prop) {A} (p : prog A) : shared -> shared -> A -> Prop :=
  match p with
  | Ret a => fun s s' b => s' = s /\ b = a
  | Crash _ => fun _ _ _ => False
  | @Call _ _ R c k => fun s s' b => exists x s1, exec c s x s1 /\ allowed R c x /\ outcome allowed (k x) s1 s' b
  | Loop body k => fun s s' b => exists a s1, iterates (outcome allowed body) s s1 a /\ outcome allowed (k a) s1 s' b
  end.

Lemma outcome_bind allowed {A B} (p : prog A) (f : A -> prog B) : forall s s' b,
  outcome allowed (prog_bind p f) s s' b <-> exists a s1, outcome allowed p s s1 a /\ outcome allowed (f a) s1 s' b.
Proof.
  induction p as [A a|A m|A R c k IH|A C body IHb k IHk]; intros s s' b; cbn [prog_bind outcome].
  - split; [by exists a, s|]. by intros (a' & s1 & [-> ->] & H).
  - split; [done|]. by intros (a & s1 & [] & _).
  - split.
    + intros (x & s1 & He & Ha & H). apply IH in H as (a & s2 & H1 & H2). exists a, s2. split; [|done]. by exists x, s1.
    + intros (a & s2 & (x & s1 & He & Ha & H1) & H2). exists x, s1. split_and!; [done..|]. apply IH. by exists a, s2.
  - split.
    + intros (a & s1 & Hi & H). apply IHk in H as (b' & s2 & H1 & H2). exists b', s2. split; [|done]. by exists a, s1.
    + intros (b' & s2 & (a & s1 & Hi & H1) & H2). exists a, s1. split; [done|]. apply IHk. by exists b', s2.
Qed.

Lemma outcome_perform (allowed : forall R, call R -> R -> Prop) {R} (c : call R) s s' x :
  outcome allowed (perform c) s s' x <-> exec c s x s' /\ allowed R c x.
Proof.
  cbn. split; [intros (y & s1 & He & Ha & -> & ->); by split|]. intros [He Ha]. by exists x, s'.
Qed.

(** ** What a tick does *)

(** The submissions with a result are answered with it and removed. *)
Record answers_given (D : string -> option Result) (subs : submissionList) (cs : channels) (subs' : submissionList) (cs' : channels) : Prop := {
  ag_subs : forall h, subs' !! h = match D h with Some _ => None | None => subs !! h end;
  ag_sent : forall h os l r, subs !! h = Some os -> l ∈ Listeners os -> D h = Some r -> cs' !! l = Some (mkChan 1 [r] 0 true);
  ag_same : forall l, (forall h os, subs !! h = Some os -> D h <> None -> l ∉ Listeners os) -> cs' !! l = cs !! l
}.

Lemma answers_given_trans own D D' subs cs subs1 cs1 subs2 cs2 rqs g : lists_ok own subs1 cs1 rqs g ->
  answers_given D subs cs subs1 cs1 -> answers_given D' subs1 cs1 subs2 cs2 ->
  answers_given (fun h => match D h with Some r => Some r | None => D' h end) subs cs subs2 cs2.
Proof.
  intros Hok [A1 A2 A3] [B1 B2 B3]. split.
  - intros h. rewrite B1, A1. destruct (D h); [by destruct (D' h)|done].
  - intros h os l r Hs Hl Hd. destruct (D h) as [r'|] eqn:HD.
    + injection Hd as ->. pose proof (A2 h os l r Hs Hl HD) as Hc. rewrite B3; [done|]. intros h' os' Hs' _ Hl'.
      assert (Ho : cs1 !! l = Some open_chan). { apply (lo_open _ _ _ _ _ Hok), elem_of_app. right. by apply (elem_of_all_listeners _ h' os'). }
      by rewrite Hc in Ho.
    + apply (B2 h os); [by rewrite A1, HD|done|done].
  - intros l Hl. rewrite B3, A3; [done| |].
    + intros h os Hs Hd. apply (Hl h os Hs). by destruct (D h).
    + intros h os Hs Hd. rewrite A1 in Hs. destruct (D h) eqn:HD; [done|]. apply (Hl h os Hs). by rewrite HD.
Qed.

(** The result that a tick finds for a hash in its map. *)
Definition answer_of (txMap : gmap string Transaction) (h : string) : option Result :=
  match txMap !! h with
  | Some tx =>
      match (txResultFromHistory tx).2 with
      | None => Some (mkResult None tx)
      | Some (FailedTransactionError x d) => Some (mkResult (Some (FailedTransactionError x d)) tx)
      | Some _ => None
      end
  | None => None
  end.

Lemma answer_of_right txMap g h r q : (forall h tx, txMap !! h = Some tx -> tx ∈ f_rows g /\ has_hash h tx) ->
  answer_of txMap h = Some r -> rq_hash q = h -> right q g r.
Proof.
  intros Hm Ha Hq. unfold answer_of in Ha. destruct (txMap !! h) as [tx|] eqn:Htx; [|done]. destruct (Hm _ _ Htx) as [Hr Hh].
  pose proof (txResultFromHistory_right h g tx Hr Hh) as Hl. unfold looked_up in Hl. change (txResultFromHistory tx).1 with tx in Hl.
  destruct (txResultFromHistory tx).2 as [[| | |x d|e]|]; try done; injection Ha as <-.
  - destruct Hl as (? & ? & ? & ?). left. rewrite Hq. by split_and!.
  - destruct Hl as (? & ? & ?). unfold right. cbn [Err_ Transaction_]. rewrite Hq. by split_and!.
Qed.

(** The program of the loop, by the answers. *)
Lemma finish_found_answers txMap h pending : finish_found txMap (h :: pending) =
  match answer_of txMap h with
  | Some r => perform (List_Finish h r) ;~ finish_found txMap pending
  | None => finish_found txMap pending
  end.
Proof.
  cbn [finish_found]. unfold answer_of. destruct (txMap !! h) as [tx|]; [|done].
  by destruct (txResultFromHistory tx).2 as [[| | |x d|e]|].
Qed.

Lemma Finish_answers own s h r subs cs : lists_ok own (submissions s) (chans s) (requests s) (facts_of s) ->
  (forall q, rq_hash q = h -> right q (facts_of s) r) ->
  submissionList_Finish (submissions s) (chans s) h r = Ok (subs, cs) ->
  lists_ok own subs cs (requests s) (facts_of s) /\
  answers_given (fun h' => if decide (h' = h) then Some r else None) (submissions s) (chans s) subs cs.
Proof.
  intros Hok Hr. unfold submissionList_Finish. destruct (submissions s !! h) as [os|] eqn:Hs.
  - destruct (answer_submission own _ _ _ _ h os r Hok Hs Hr) as (cs' & -> & Hok' & Hcs). rewrite bind_Ok_l. intros [= <- <-].
    split; [done|]. split.
    + intros h'. destruct (decide (h' = h)) as [->|Hne]; [apply lookup_delete_eq|by rewrite lookup_delete_ne].
    + intros h' os' l r' Hs' Hl. destruct (decide (h' = h)) as [->|]; [|done]. intros [= <-]. rewrite Hs in Hs'. injection Hs' as <-.
      rewrite Hcs. by rewrite decide_True.
    + intros l Hl. rewrite Hcs, decide_False; [done|]. apply (Hl h os Hs). by rewrite decide_True.
  - intros [= <- <-]. split; [done|]. split.
    + intros h'. destruct (decide (h' = h)) as [->|]; done.
    + intros h' os' l r' Hs'. destruct (decide (h' = h)) as [->|]; [congruence|done].
    + done.
Qed.

Lemma answers_given_ext D D' subs cs subs' cs' : (forall h, is_Some (subs !! h) -> D h = D' h) -> 
  (forall h, subs !! h = None -> subs' !! h = None) ->
  answers_given D subs cs subs' cs' -> answers_given D' subs cs subs' cs'.
Proof.
  intros He Hn [A1 A2 A3]. split.
  - intros h. destruct (subs !! h) as [os|] eqn:Hs; [|rewrite Hn by done; by destruct (D' h)]. rewrite <- He by (by rewrite Hs). by rewrite A1, Hs.
  - intros h os l r Hs Hl Hd. apply (A2 h os); [done|done|]. by rewrite He by (by rewrite Hs).
  - intros l Hl. apply A3. intros h os Hs Hd. apply (Hl h os Hs). by rewrite <- He by (by rewrite Hs).
Qed.

Lemma finish_found_spec allowed txMap pending own : forall s s',
  lists_ok own (submissions s) (chans s) (requests s) (facts_of s) ->
  (forall h tx, txMap !! h = Some tx -> tx ∈ f_rows (facts_of s) /\ has_hash h tx) ->
  outcome allowed (finish_found txMap pending) s s' tt ->
  exists subs cs, s' = set_lists s subs cs /\ lists_ok own subs cs (requests s) (facts_of s) /\
    answers_given (fun h => if bool_decide (h ∈ pending) then answer_of txMap h else None) (submissions s) (chans s) subs cs.
Proof.
  induction pending as [|h pending IH]; intros s s' Hok Hm Ho.
  { destruct Ho as [-> _]. exists (submissions s), (chans s). split; [by destruct s|]. split; [done|]. split; [|done|done]. done. }
  rewrite finish_found_answers in Ho. destruct (answer_of txMap h) as [r|] eqn:Ha.
  - apply outcome_bind in Ho as ([] & s1 & H1 & H2). apply outcome_perform in H1 as [(subs1 & cs1 & Hf & ->) _].
    destruct (Finish_answers own s h r subs1 cs1 Hok) as [Hok1 Hg1]; [intros q; by apply (answer_of_right txMap)|done|].
    apply IH in H2 as (subs & cs & -> & Hok2 & Hg2); [|done|done]. exists subs, cs. split; [done|]. split; [done|].
    cbn [set_lists submissions chans] in Hg2. pose proof (answers_given_trans _ _ _ _ _ _ _ _ _ _ _ Hok1 Hg1 Hg2) as [A1 A2 A3].
    apply (answers_given_ext (fun h' => match (if decide (h' = h) then Some r else None) with Some r => Some r | None =>
      if bool_decide (h' ∈ pending) then answer_of txMap h' else None end)); [| |done].
    + intros h' _. destruct (decide (h' = h)) as [->|Hne]; [rewrite bool_decide_true by left; by rewrite Ha|].
      rewrite (bool_decide_ext (h' ∈ h :: pending) (h' ∈ pending)); [done|]. rewrite elem_of_cons. naive_solver.
    + intros h' Hs. rewrite A1, Hs. by case_match.
  - apply IH in Ho as (subs & cs & -> & Hok2 & Hg2); [|done|done]. exists subs, cs. split; [done|]. split; [done|].
    destruct Hg2 as [A1 A2 A3]. eapply answers_given_ext; [| |split; [exact A1|exact A2|exact A3]].
    + intros h' _. cbn. destruct (decide (h' = h)) as [->|Hne].
      * rewrite Ha. by repeat case_match.
      * rewrite (bool_decide_ext (h' ∈ h :: pending) (h' ∈ pending)); [done|]. rewrite elem_of_cons. naive_solver.
    + intros h' Hs. rewrite A1, Hs. by case_match.
Qed.

(** No call of the database fails. *)
Definition healthy (R : Type) (c : call R) : R -> Prop :=
  match c in call R return R -> Prop with
  | BeginTx => fun e => e = None
  | GetLatestHistoryLedger => fun r => is_ok r = true
  | AllTransactionsByHashesSinceLedger _ _ => fun r => match r with inr (DbError _) => False | _ => True end
  | _ => fun _ => True
  end.

Lemma finish_found_total txMap pending own : forall s,
  lists_ok own (submissions s) (chans s) (requests s) (facts_of s) ->
  (forall h tx, txMap !! h = Some tx -> tx ∈ f_rows (facts_of s) /\ has_hash h tx) ->
  exists s', outcome healthy (finish_found txMap pending) s s' tt.
Proof.
  induction pending as [|h pending IH]; intros s Hok Hm; [by exists s|]. rewrite finish_found_answers.
  destruct (answer_of txMap h) as [r|] eqn:Ha; [|by apply IH].
  assert (Hf : exists subs cs, submissionList_Finish (submissions s) (chans s) h r = Ok (subs, cs)).
  { unfold submissionList_Finish. destruct (submissions s !! h) as [os|] eqn:Hs; [|by eexists _, _].
    destruct (answer_submission own _ _ _ _ h os r Hok Hs) as (cs' & -> & _); [intros q; by apply (answer_of_right txMap)|].
    rewrite bind_Ok_l. by eexists _, _. }
  destruct Hf as (subs & cs & Hf). destruct (Finish_answers own s h r subs cs Hok) as [Hok1 _]; [intros q; by apply (answer_of_right txMap)|done|].
  destruct (IH (set_lists s subs cs)) as [s' Hs']; [done|done|]. exists s'. apply outcome_bind. exists tt, (set_lists s subs cs).
  split; [|done]. apply outcome_perform. split; [|done]. by exists subs, cs.
Qed.

#[local] Instance has_hash_dec h tx : Decision (has_hash h tx).
Proof. unfold has_hash. apply _. Defined.

Lemma selects_list hashes since rows : exists txs : list Transaction, forall tx, tx ∈ txs <-> selects hashes since rows tx.
Proof.
  exists (filter (fun tx => since <= LedgerSequence tx /\ Exists (fun h => has_hash h tx) hashes) rows). intros tx.
  rewrite list_elem_of_filter, Exists_exists. unfold selects. naive_solver.
Qed.

(** The answers of a tick at a time, with the transactions it read. *)
Definition tick_answers (s : shared) (txs : list Transaction) (h : string) : option Result :=
  match answer_of (fold_left add_tx txs ∅) h with
  | Some r => Some r
  | None => os ← submissions s !! h; if expired (clock s) (Init timeout) os then Some timed_out else None
  end.

Definition tables (s : shared) : list Transaction := history_rows s ++ filtered_rows s.

(** What the part of a tick under the database transaction does. *)
Lemma tick_results_spec own s : lists_ok own (submissions s) (chans s) (requests s) (facts_of s) -> rows_ok s -> snapshot s = Some (tables s, history_latest s) ->
  (exists s', outcome healthy tick_results s s' true) /\
  forall s' b, outcome healthy tick_results s s' b -> b = true /\
    exists pending txs subs cs, pending ≡ₚ (map_to_list (submissions s)).*1 /\
      (forall tx, tx ∈ txs <-> selects pending (sinceLedger (history_latest s)) (tables s) tx) /\
      s' = set_lists s subs cs /\ lists_ok own subs cs (requests s) (facts_of s) /\
      answers_given (answer_of (fold_left add_tx txs ∅)) (submissions s) (chans s) subs cs.
Proof.
  intros Hok Hrows Hsnap.
  assert (Hsr : seen_rows s = tables s) by (unfold seen_rows; by rewrite Hsnap).
  assert (Hsl : seen_latest s = history_latest s) by (unfold seen_latest; by rewrite Hsnap).
  assert (Hmap : forall txs pending since, (forall tx, tx ∈ txs -> selects pending since (tables s) tx) ->
    forall h tx, fold_left add_tx txs ∅ !! h = Some tx -> tx ∈ f_rows (facts_of s) /\ has_hash h tx).
  { intros txs pending since Htx. apply (fold_add_tx txs ∅ (fun tx => tx ∈ f_rows (facts_of s))); [intros h tx; by rewrite lookup_empty|].
    intros tx Hin. apply Hrows. right. right. rewrite Hsr. by apply Htx in Hin as [? _]. }
  split.
  - unfold tick_results. destruct ((map_to_list (submissions s)).*1) as [|h hs] eqn:Hp.
    { exists s. apply outcome_bind. exists [], s. split; [|done]. apply outcome_perform. split; [|done]. cbn. by rewrite Hp. }
    destruct (selects_list (h :: hs) (sinceLedger (history_latest s)) (tables s)) as [txs Htxs].
    destruct (finish_found_total (fold_left add_tx txs ∅) (h :: hs) own s Hok) as [s' Hs'].
    { apply (Hmap txs (h :: hs) (sinceLedger (history_latest s))). intros tx. by rewrite Htxs. }
    exists s'. apply outcome_bind. exists (h :: hs), s. split; [apply outcome_perform; split; [by cbn; rewrite Hp|done]|].
    apply outcome_bind. exists (Ok (history_latest s)), s.
    split; [apply outcome_perform; split; [|done]; split; [done|]; intros n [= <-]; by rewrite Hsl|].
    apply outcome_bind. exists (inl txs), s. split; [apply outcome_perform; split; [|done]; cbn; by rewrite Hsr|].
    apply outcome_bind. by exists tt, s'.
  - unfold tick_results. intros s' b H. apply outcome_bind in H as (pending & s1 & H1 & H).
    apply outcome_perform in H1 as [[-> Hp] _]. destruct pending as [|h hs].
    { destruct H as [-> ->]. split; [done|]. exists [], [], (submissions s), (chans s). split; [done|]. split.
      { intros tx. split; [by intros ?%elem_of_nil|]. by intros (_ & _ & h & ?%elem_of_nil & _). }
      split; [by destruct s|]. split; [done|]. split; [done|done|done]. }
    set (pending := h :: hs) in *. apply outcome_bind in H as (latest & s1 & H1 & H). apply outcome_perform in H1 as [[-> Hn] Hl].
    destruct latest as [latest| |]; [|done..]. specialize (Hn latest eq_refl). rewrite Hsl in Hn. subst latest. apply outcome_bind in H as (txs & s1 & H1 & H). apply outcome_perform in H1 as [[-> Hx] Hh].
    rewrite Hsr in Hx. cbn in Hx.
    assert (Hgen : forall txs, (forall tx, tx ∈ txs <-> selects pending (sinceLedger (history_latest s)) (tables s) tx) ->
      outcome healthy (finish_found (fold_left add_tx txs ∅) pending ;~ Ret true) s s' b -> b = true /\
      exists pending txs subs cs, pending ≡ₚ (map_to_list (submissions s)).*1 /\
        (forall tx, tx ∈ txs <-> selects pending (sinceLedger (history_latest s)) (tables s) tx) /\
        s' = set_lists s subs cs /\ lists_ok own subs cs (requests s) (facts_of s) /\
        answers_given (answer_of (fold_left add_tx txs ∅)) (submissions s) (chans s) subs cs).
    { intros l Hin Ho. apply outcome_bind in Ho as ([] & s1 & H1 & -> & ->). split; [done|].
      destruct (finish_found_spec healthy (fold_left add_tx l ∅) pending own s s1 Hok) as (subs & cs & -> & Hok' & Hg); [|done|].
      { apply (Hmap l pending (sinceLedger (history_latest s))). intros tx. by rewrite Hin. }
      exists pending, l, subs, cs. split_and!; try done. pose proof (ag_subs _ _ _ _ _ Hg) as A1.
      eapply answers_given_ext; [| |exact Hg].
      - intros h' [os Hs]. cbn. rewrite bool_decide_true; [done|]. rewrite Hp, list_elem_of_fmap. exists (h', os). split; [done|]. by apply elem_of_map_to_list.
      - intros h' Hs. rewrite A1, Hs. by repeat case_match. }
    destruct txs as [txs|[|e]]; [|apply (Hgen []); [|done]|done].
    + by apply (Hgen txs).
    + intros tx. split; [by intros ?%elem_of_nil|]. intros Hsel. by destruct (Hx tx).
Qed.

(** Cleaning answers the submissions that are too old. *)
Lemma Clean_spec own s : lists_ok own (submissions s) (chans s) (requests s) (facts_of s) ->
  (exists n s', exec (List_Clean (Init timeout)) s n s') /\
  forall n s', exec (List_Clean (Init timeout)) s n s' -> exists subs cs, s' = set_lists s subs cs /\
    lists_ok own subs cs (requests s) (facts_of s) /\
    answers_given (fun h => os ← submissions s !! h; if expired (clock s) (Init timeout) os then Some timed_out else None)
      (submissions s) (chans s) subs cs.
Proof.
  intros Hok. split.
  - destruct (range_submissions own _ _ _ _ _ Hok (Permutation_refl _)) as (H1 & H2 & _).
    destruct (clean_loop_Ok (clock s) (Init timeout) _ _ _ _ _ _ H1 (fun os => proj1 (H2 os)) Hok) as (subs & cs & Hc & _).
    by eexists _, _, _, subs, cs.
  - intros n s' (l & subs & cs & Hp & Hc & -> & _). destruct (range_submissions own _ _ _ _ _ Hok Hp) as (H1 & H2 & H3).
    destruct (clean_loop_Ok (clock s) (Init timeout) _ _ _ _ _ _ H1 (fun os => proj1 (H2 os)) Hok) as (subs' & cs' & Hc' & Hok' & E1 & E2 & E3).
    rewrite Hc in Hc'. injection Hc' as <- <-. exists subs, cs. split; [done|]. split; [done|]. split.
    + intros h. rewrite E1. destruct (submissions s !! h) as [os|] eqn:Hs; [|done]. cbn. rewrite bool_decide_true by (apply H3; by rewrite Hs).
      by destruct (expired _ _ os).
    + intros h os x r Hs Hx. rewrite Hs. cbn. destruct (expired (clock s) (Init timeout) os) eqn:He; [|done]. intros [= <-].
      apply (E2 os); [|done|done]. apply H2. by destruct (lo_keys _ _ _ _ _ Hok h os Hs) as [-> _].
    + intros x Hx. apply E3. intros os Hos He. apply H2 in Hos. apply (Hx (Hash os) os Hos). rewrite Hos. cbn. by rewrite He.
Qed.

(** ** The window of a tick *)

(** A row of hash [h] that is recorded in the last 60 ledgers of the history. *)
Definition recent (s : shared) (h : string) (tx : Transaction) : Prop :=
  tx ∈ tables s /\ has_hash h tx /\ 0 <= LedgerSequence tx /\ history_latest s - 60 <= LedgerSequence tx.

(** The answer that a row records. *)
Definition records (tx : Transaction) (r : Result) : Prop :=
  (succeeded tx /\ r = mkResult None tx) \/
  (failed tx /\ r = mkResult (Some (FailedTransactionError (TxResult tx) "")) tx).

(** What a tick answers to the open submission [os] of hash [h]: the result of a
    recent row of the hash, when these can be decoded; without one the timeout
    if the submission is too old, else nothing. *)
Definition right_answer (s : shared) (h : string) (os : openSubmission) (answer : option Result) : Prop :=
  let too_old := clock s - SubmittedAt os > Init timeout in
  (forall r, answer = Some r -> (exists tx, recent s h tx /\ records tx r) \/ (r = timed_out /\ too_old)) /\
  ((exists tx, recent s h tx) -> (forall tx, recent s h tx -> succeeded tx \/ failed tx) ->
     exists r tx, answer = Some r /\ recent s h tx /\ records tx r) /\
  ((forall tx, ~ recent s h tx) -> too_old -> answer = Some timed_out) /\
  ((forall tx, ~ recent s h tx) -> ~ too_old -> answer = None).

Lemma sinceLedger_window latest : 0 <= latest < 2 ^ 31 -> sinceLedger latest = Z.max 0 (latest - 60).
Proof.
  intros Hl. unfold sinceLedger. rewrite (swrap_small 32 latest), swrap_small by (unfold in_int; lia).
  destruct (Z.ltb_spec (latest - 60) 0); rewrite uwrap_small by lia; lia.
Qed.

Lemma fold_add_tx_found txs h : forall m : gmap string Transaction,
  is_Some (m !! h) \/ (exists tx, tx ∈ txs /\ has_hash h tx) -> is_Some (fold_left add_tx txs m !! h).
Proof.
  induction txs as [|t txs IH]; intros m H; cbn [fold_left].
  - destruct H as [H|(tx & Htx & _)]; [done|]. by apply elem_of_nil in Htx.
  - assert (Hadd : is_Some (m !! h) \/ has_hash h t -> is_Some (add_tx m t !! h)).
    { unfold add_tx, has_hash. intros Hm. destruct (InnerTransactionHash t) as [h'|]; rewrite !lookup_insert_is_Some'; naive_solver. }
    apply IH. destruct H as [H|(tx & Htx & Hh)]; [left; by apply Hadd; left|].
    apply elem_of_cons in Htx as [->|Htx]; [left; by apply Hadd; right|]. right. by exists tx.
Qed.

Lemma answer_of_records txMap h r : answer_of txMap h = Some r -> exists tx, txMap !! h = Some tx /\ records tx r.
Proof.
  unfold answer_of, txResultFromHistory, records, succeeded, failed. destruct (txMap !! h) as [tx|]; [|done]. cbn [snd].
  destruct (result_code (TxResult tx)) as [code| |] eqn:Hr; [|done..].
  destruct (Successful code) eqn:Hc; cbn [negb]; intros [= <-]; exists tx; (split; [done|]); [left|right]; (split; [|done]).
  all: exists code; split; [done|exact Hc].
Qed.

Lemma answer_of_decoded txMap h tx : txMap !! h = Some tx -> succeeded tx \/ failed tx ->
  exists r, answer_of txMap h = Some r /\ records tx r.
Proof.
  unfold answer_of, txResultFromHistory, records. intros -> Hd. cbn [snd].
  destruct Hd as [(code & Hc & Hs)|(code & Hc & Hs)]; rewrite Hc, Hs; cbn [negb]; eexists; (split; [done|]); [left|right]; split; try done; by exists code.
Qed.

(** The rows that the tick reads are the recent ones of the open submissions. *)
Lemma tick_answers_right s pending txs h os : 0 <= history_latest s < 2 ^ 31 ->
  pending ≡ₚ (map_to_list (submissions s)).*1 ->
  (forall tx, tx ∈ txs <-> selects pending (sinceLedger (history_latest s)) (tables s) tx) ->
  submissions s !! h = Some os -> right_answer s h os (tick_answers s txs h).
Proof.
  intros Hl Hp Htx Hos. rewrite (sinceLedger_window _ Hl) in Htx.
  assert (Hin : h ∈ pending).
  { rewrite Hp, list_elem_of_fmap. exists (h, os). split; [done|]. by apply elem_of_map_to_list. }
  set (found := fold_left add_tx txs ∅).
  assert (H1 : forall tx, found !! h = Some tx -> recent s h tx).
  { intros tx Hf. destruct (fold_add_tx txs ∅ (fun tx => tx ∈ txs)) with (h := h) (tx := tx) as [Hm Hh];
      [intros ? ?; by rewrite lookup_empty|done|exact Hf|]. apply Htx in Hm as (Ht & Hs & _). split_and!; [done|done|lia|lia]. }
  assert (H2 : forall tx, recent s h tx -> is_Some (found !! h)).
  { intros tx (Ht & Hh & Hs0 & Hs). apply fold_add_tx_found. right. exists tx. split; [|done]. apply Htx.
    split; [done|]. split; [lia|]. by exists h. }
  unfold right_answer, tick_answers. fold found. cbv zeta. rewrite Hos. cbn [mbind option_bind].
  assert (Hexp : expired (clock s) (Init timeout) os = true <-> clock s - SubmittedAt os > Init timeout).
  { unfold expired. rewrite Z.gtb_lt. lia. }
  assert (Hnone : (forall tx, ~ recent s h tx) -> answer_of found h = None).
  { intros Hno. destruct (answer_of found h) as [r|] eqn:Ha; [|done]. apply answer_of_records in Ha as (tx & Hf & _).
    by apply H1, Hno in Hf. }
  split_and!.
  - intros r. destruct (answer_of found h) as [r'|] eqn:Ha.
    + intros [= <-]. apply answer_of_records in Ha as (tx & Hf & Hr). left. exists tx. auto.
    + destruct (expired (clock s) (Init timeout) os) eqn:He; [|done]. intros [= <-]. right. split; [done|]. by apply Hexp.
  - intros [tx Hr] Hd. destruct (H2 tx Hr) as [tx' Hf]. destruct (answer_of_decoded found h tx' Hf (Hd tx' (H1 tx' Hf))) as (r & Ha & Hrec).
    exists r, tx'. rewrite Ha. auto.
  - intros Hno Hold. rewrite (Hnone Hno). by rewrite (proj2 Hexp Hold).
  - intros Hno Hyoung. rewrite (Hnone Hno). destruct (expired _ _ os); [|done]. by destruct Hyoung; apply Hexp.
Qed.

(** C17: A tick that runs without interference, on a database that does not fail and
    whose latest ledger fits an int32, ends.  An open submission whose transaction
    is recorded in the last 60 ledgers of the history (under its own hash or as
    the inner transaction, in either table, with a result that can be decoded) is
    answered with the recorded success or failure; one without such a row is
    answered with the timeout if it is older than that, and is left open
    otherwise; so a transaction recorded more than 60 ledgers before the latest
    one is not answered by a tick.  The requests of an answered submission get
    exactly that result, and no other channel changes. *)
Theorem Tick_answers (m : machine) (Hm : reachable m) (Hidle : tickInProgress (sh m) = false)
    (Hlatest : 0 <= history_latest (sh m) < 2 ^ 31) :
  (exists s', outcome healthy (Tick timeout) (sh m) s' tt) /\
  forall s', outcome healthy (Tick timeout) (sh m) s' tt -> tickInProgress s' = false /\
    exists answer : string -> option Result,
      (forall h os, submissions (sh m) !! h = Some os -> right_answer (sh m) h os (answer h)) /\
      answers_given answer (submissions (sh m)) (chans (sh m)) (submissions s') (chans s').
Proof.
  destruct (reachable_Inv m Hm) as (own & _ & [Hrows _ Hok]). set (s := sh m) in *.
  set (s1 := set_snapshot (set_tick s true) (Some (tables s, history_latest s))).
  assert (Hrows1 : rows_ok s1).
  { intros tx [?|[?|Ht]]; [apply Hrows; by left|apply Hrows; by right; left|]. cbn in Ht. apply elem_of_app in Ht as [?|?]; apply Hrows; [by right; left|by left]. }
  destruct (tick_results_spec (omap chan_of own) s1 Hok Hrows1 eq_refl) as [[s2 Hs2] Hres]. unfold Tick. split.
  - destruct (Hres s2 true Hs2) as (_ & pending & txs & subs & cs & _ & _ & -> & Hok2 & _).
    destruct (proj1 (Clean_spec _ (set_lists s1 subs cs) Hok2)) as (n & s3 & Hs3).
    eexists. apply outcome_bind. exists true, (set_tick s true). split; [apply outcome_perform; split; [cbn; by rewrite Hidle|done]|].
    apply outcome_bind. exists None, s1. split; [by apply outcome_perform|].
    apply outcome_bind. exists true, (set_lists s1 subs cs). split; [done|]. apply outcome_bind. exists tt, s3.
    split; [apply outcome_bind; exists n, s3; split; [by apply outcome_perform|done]|].
    apply outcome_bind. eexists tt, _. split; [apply outcome_perform; by split|]. by apply outcome_perform.
  - intros s' H. apply outcome_bind in H as (b & s0 & H0 & H). apply outcome_perform in H0 as [[-> ->] _].
    rewrite Hidle in H. cbn [negb] in H. apply outcome_bind in H as (e & s0 & H0 & H). apply outcome_perform in H0 as [H0 Hh].
    cbn in Hh. subst e. cbn in H0. subst s0. fold s1 in H.
    apply outcome_bind in H as (go & s3 & H3 & H). destruct (Hres s3 go H3) as (-> & pending & txs & subs & cs & Hp & Htx & -> & Hok2 & Hg).
    apply outcome_bind in H as ([] & s4 & H4 & H). apply outcome_bind in H4 as (n & s5 & H5 & -> & _). apply outcome_perform in H5 as [H5 _].
    apply (proj2 (Clean_spec (omap chan_of own) (set_lists s1 subs cs) Hok2)) in H5 as (subs' & cs' & -> & _ & Hg').
    apply outcome_bind in H as ([] & s6 & H6 & H). apply outcome_perform in H6 as [H6 _]. apply outcome_perform in H as [H _].
    cbn in H6, H. subst s6 s'. split; [done|]. exists (tick_answers s txs).
    split; [intros h os; by apply (tick_answers_right s pending)|]. cbn in Hg' |- *.
    pose proof (answers_given_trans _ _ _ _ _ _ _ _ _ _ _ Hok2 Hg Hg') as Hgg. pose proof (ag_subs _ _ _ _ _ Hgg) as A1.
    eapply answers_given_ext; [| |exact Hgg].
    + intros h [os Hs]. unfold tick_answers. cbn beta. destruct (answer_of _ h) eqn:Ha; [done|]. rewrite (ag_subs _ _ _ _ _ Hg), Ha. done.
    + intros h Hs. rewrite A1. by case_match.
Qed.

(** Executions with one goroutine. *)
Lemma one_call {R} (c : call R) k s s' r m : exec c s r s' -> rtc step (mkMachine s' [k r]) m -> rtc step (mkMachine s [Call c k]) m.
Proof. intros He. apply rtc_l. exact (step_call [] [] R c k s r s' He). Qed.

Lemma one_loop {A} (body : prog (option A)) k s m :
  rtc step (mkMachine s [o <~ body; match o with Some a => k a | None => Loop body k end]) m -> rtc step (mkMachine s [Loop body k]) m.
Proof. apply rtc_l. exact (step_loop [] [] A body k s). Qed.

Lemma one_return s m : rtc step (mkMachine s []) m -> rtc step (mkMachine s [Ret tt]) m.
Proof. apply rtc_l. exact (step_return [] [] s). Qed.

Lemma one_db f h latest s t m : rtc step (mkMachine (set_tables s f h latest) [t]) m -> rtc step (mkMachine s [t]) m.
Proof. apply rtc_l. apply step_db. Qed.

End System.

(** ** Examples *)

#[local] Instance example_decoder : ResultDecoder := {
  result_code x := if bool_decide (x = "ok") then Ok 0 else if bool_decide (x = "bad seq") then Ok TxBadSeq
    else if bool_decide (x = "failed") then Ok (-1) else Err "not a result"
}.

Definition example_envelope : TransactionEnvelope :=
  EnvTxV0 (mkXTransactionV0 (replicate 32 7) 100 5 None xMemoNone []) [].
Definition example_account : AccountId.t := AccountId.mk (replicate 32 7).
Definition example_address : string := match AccountId.Address example_account with Ok a => a | _ => "" end.

Lemma example_parts : (m ← env_SourceAccount example_envelope; Muxed.ToAccountId m) = Ok example_account /\
  AccountId.Address example_account = Ok example_address /\ env_SeqNum example_envelope = Ok 5 /\ MinSeqNum example_envelope = Ok None.
Proof. split_and!; vm_compute; reflexivity. Qed.

Lemma example_envelope_ok : envelope_ok example_envelope.
Proof. exists example_account, example_address, 5, None. apply example_parts. Qed.

(** The start of a request whose transaction is not in the tables. *)
Lemma example_start m : rtc (step 30) (mkMachine (add_request (sh (init 0)) 1%nat (mkRequest "tx" example_envelope "hash"))
    [sr <~ submitOnce "tx";
     match sr with
     | None => perform (List_Add "hash" 1%nat)
     | Some e =>
         match IsBadSeq sr with
         | inl err => finish 1%nat (mkResult (Some err) Transaction_zero)
         | inr false => finish 1%nat (mkResult (Some e) Transaction_zero)
         | inr true =>
             err <~ waitUntilAccountSequence example_address (to_uint64 5);
             match err with
             | Some err => finish 1%nat (mkResult (Some err) Transaction_zero)
             | None => ' (tx, err) <~ txResultByHash "hash";
                 match err with
                 | Some _ => finish 1%nat (mkResult (Some e) Transaction_zero)
                 | None => finish 1%nat (mkResult None tx)
                 end
             end
         end
     end]) m -> reachable 30 m.
Proof.
  intros H. exists 0. eapply rtc_l; [apply (step_submit 30 [] _ 1%nat "tx" example_envelope "hash"); [done|apply example_envelope_ok]|].
  cbn [app]. unfold Submit. destruct example_parts as (-> & H2 & H3 & H4). cbn [must prog_bind]. rewrite H2. cbn [must prog_bind].
  rewrite H3. cbn [must prog_bind]. rewrite H4. cbn [must prog_bind]. change (bad_numbers 5 None) with false. cbv iota.
  unfold txResultByHash at 1. unfold perform at 1 2. cbn [prog_bind].
  match goal with |- rtc _ (mkMachine ?s _) _ => set (st := s) end.
  assert (E1 : exec (PreFilteredTransactionByHash "hash") st (inr NoRows) st) by (split; [reflexivity|]; intros tx Hin; inversion Hin).
  assert (E2 : exec (TransactionByHash "hash") st (inr NoRows) st) by (split; [reflexivity|]; intros tx Hin; inversion Hin).
  apply (one_call 30 _ _ _ _ _ _ E1). cbn [prog_bind]. apply (one_call 30 _ _ _ _ _ _ E2). cbn [prog_bind]. exact H.
Qed.

(** A row of a transaction that failed, and an answer of hcnet-core. *)
Definition failed_row : Transaction := mkTransaction "hash" None 10 "failed".
Definition bad_seq_response : res TXResponse := Ok (mkTXResponse "" "bad seq" TXStatusError "").

(** C36: The result of a failed transaction can be hidden.  Here hcnet-core answers
    that the sequence number is bad because the transaction is already applied; it
    failed, and ingestion has recorded that when the request looks for the result
    again.  The request gets the answer of hcnet-core without a transaction, and
    not the recorded failure that the first lookup would have reported. *)
Theorem failed_result_hidden : exists m c, reachable 30 m /\ threads m = [] /\
  failed_row ∈ history_rows (sh m) /\ has_hash "hash" failed_row /\ failed failed_row /\
  requests (sh m) !! 1%nat = Some (mkRequest "tx" example_envelope "hash") /\ chans (sh m) !! 1%nat = Some c /\
  closed c = true /\ sent c = [mkResult (Some (FailedTransactionError "bad seq" "")) Transaction_zero] /\
  txResultFromHistory failed_row = (failed_row, Some (FailedTransactionError "failed" "")).
Proof.
  set (s1 := add_core (add_request (sh (init 0)) 1%nat (mkRequest "tx" example_envelope "hash")) ("tx", bad_seq_response)).
  set (s2 := set_tables s1 [] [failed_row] 10).
  set (r := mkResult (Some (FailedTransactionError "bad seq" "")) Transaction_zero).
  set (s3 := set_lists s2 ∅ {[1%nat := mkChan 1 [r] 0 true]}).
  exists (mkMachine s3 []), (mkChan 1 [r] 0 true). split.
  - apply example_start. apply (one_call 30 (SubmitTransaction "tx") _ _ s1 bad_seq_response); [reflexivity|].
    cbn [prog_bind]. change (interpret bad_seq_response) with (Some (FailedTransactionError "bad seq" "")). cbv iota.
    change (IsBadSeq (Some (FailedTransactionError "bad seq" ""))) with (inr true : txerr + bool). cbv iota.
    unfold waitUntilAccountSequence. cbn [prog_bind]. apply one_loop.
    assert (E0 : exec (GetSequenceNumbers [example_address]) s1 (Ok {[example_address := 5]}) s1) by reflexivity.
    apply (one_call 30 _ _ _ _ _ _ E0). cbn [prog_bind]. rewrite lookup_singleton_eq. cbn [default from_option id].
    change (to_uint64 5 <=? 5) with true. cbv iota. cbn [prog_bind]. apply (one_db 30 [] [failed_row] 10). fold s2.
    assert (E1 : exec (PreFilteredTransactionByHash "hash") s2 (inr NoRows) s2) by (split; [reflexivity|]; intros tx Hin; inversion Hin).
    assert (E2 : exec (TransactionByHash "hash") s2 (inl failed_row) s2) by (split; [reflexivity|]; split; [left|left; reflexivity]).
    unfold txResultByHash, perform at 1. cbn [prog_bind]. apply (one_call 30 _ _ _ _ _ _ E1). unfold perform at 1. cbn [prog_bind].
    apply (one_call 30 _ _ _ _ _ _ E2). cbn [prog_bind].
    change (txResultFromHistory failed_row) with (failed_row, Some (FailedTransactionError "failed" "")). cbv iota beta.
    apply (one_call 30 (SendClose 1%nat r) _ s2 s3 tt); [|by apply one_return].
    exists {[1%nat := mkChan 1 [r] 0 true]}. split; reflexivity.
  - split_and!; [reflexivity|left|by left|by exists (-1)|reflexivity..].
Qed.

(** A reachable state in which a request has its answer. *)
Definition pending_machine : machine :=
  mkMachine (set_lists (add_core (add_request (sh (init 0)) 1%nat (mkRequest "tx" example_envelope "hash"))
      ("tx", Ok (mkTXResponse "" "" TXStatusPending ""))) {["hash" := mkOpenSubmission "hash" 0 [1%nat]]} {[1%nat := mkChan 1 [] 0 false]}) [].

Lemma pending_reachable : reachable 30 pending_machine.
Proof.
  apply example_start. set (s0 := add_request _ _ _). set (resp := mkTXResponse "" "" TXStatusPending "").
  apply (one_call 30 (SubmitTransaction "tx") _ _ (add_core s0 ("tx", Ok resp)) (Ok resp)); [reflexivity|].
  cbn [prog_bind]. change (interpret (Ok resp)) with (@None txerr). cbv iota.
  apply (one_call 30 (List_Add "hash" 1%nat) _ _ (sh pending_machine) tt); [|by apply one_return].
  exists {["hash" := mkOpenSubmission "hash" 0 [1%nat]]}. split; reflexivity.
Qed.

Lemma submissions_answered_once_witness : exists q os, requests (sh pending_machine) !! 1%nat = Some q /\
  submissions (sh pending_machine) !! rq_hash q = Some os /\ 1%nat ∈ Listeners os.
Proof.
  destruct (submissions_answered_once 30 pending_machine pending_reachable) as (_ & _ & H).
  exact (H eq_refl 1%nat (mkChan 1 [] 0 false) eq_refl eq_refl).
Defined.

(** The transaction of the open submission succeeds in ledger 8 of 10. *)
Definition ok_row : Transaction := mkTransaction "hash" None 8 "ok".
Definition recorded_machine : machine := mkMachine (set_tables (sh pending_machine) [] [ok_row] 10) [].

Lemma recorded_reachable : reachable 30 recorded_machine.
Proof.
  destruct pending_reachable as [t H]. exists t. eapply rtc_r; [exact H|].
  apply (step_db 30 [] (sh pending_machine) [] [ok_row] 10).
Qed.

Lemma ok_row_only tx : recent (sh recorded_machine) "hash" tx -> tx = ok_row.
Proof. intros [Ht _]. by apply list_elem_of_singleton in Ht. Qed.

Lemma Tick_answers_witness : exists s' r, outcome healthy (Tick 30) (sh recorded_machine) s' tt /\ tickInProgress s' = false /\
  submissions s' !! "hash" = None /\ records ok_row r /\ chans s' !! 1%nat = Some (mkChan 1 [r] 0 true).
Proof.
  destruct (Tick_answers 30 recorded_machine recorded_reachable eq_refl ltac:(vm_compute; split; [discriminate|reflexivity])) as [[s' Hs'] H].
  destruct (H s' Hs') as [Ht (answer & Hr & Hg)].
  destruct (Hr "hash" (mkOpenSubmission "hash" 0 [1%nat]) eq_refl) as (_ & Hfound & _).
  destruct Hfound as (r & tx & Ha & Hrec & Hr').
  { exists ok_row. split; [left|]. split; [by left|]. vm_compute. split; discriminate. }
  { intros tx ->%ok_row_only. left. by exists 0. }
  apply ok_row_only in Hrec as ->. exists s', r. split; [exact Hs'|]. split; [exact Ht|].
  split; [rewrite (ag_subs _ _ _ _ _ Hg), Ha; reflexivity|]. split; [exact Hr'|].
  apply (ag_sent _ _ _ _ _ Hg "hash" (mkOpenSubmission "hash" 0 [1%nat])); [reflexivity|left|exact Ha].
Defined.

End TxSubProofs.
