(* ===== verification/CaptiveCore.v ===== *)
(** * The captive core back end (ingest/ledgerbackend/captive_core_backend.go, range.go)

    [CaptiveHcnetCore] runs a hcnet-core process and hands out the ledgers that
    the process streams, one after the other.  The process, the history archive
    and the store of trusted hashes are an environment ([CoreEnv]) with a state of
    its own; the back end keeps which ledger comes next and the hash it has to
    build on.  Methods return a result and leave a state also when they fail.
    Locks are taken around whole methods. *)
From S2P Require Import Prelude Checkpoints HexText XdrStreams.
Local Open Scope Z_scope.

Module CaptiveCore.

(** ** Ranges *)

Record Range := mkRange { from : Z; to : Z; bounded : bool }.

Definition SingleLedgerRange (ledger : Z) : Range := mkRange ledger ledger true.
Definition BoundedRange (from to : Z) : Range := mkRange from to true.
Definition UnboundedRange (from : Z) : Range := mkRange from 0 false.

Definition Contains (r other : Range) : bool :=
  if bounded r && negb (bounded other) then false
  else if bounded r && bounded other then (from r <=? from other) && (to other <=? to r)
  else from r <=? from other.

(** ** Ledgers *)

(** The fields of a ledger header that the back end and its clients read. *)
Record LedgerHeader := mkLedgerHeader { LedgerVersion : Z; hdr_PreviousLedgerHash : list Z; hdr_BucketListHash : list Z; LedgerSeq : Z }.
Record LedgerHeaderHistoryEntry := mkEntry { Hash : list Z; Header : LedgerHeader }.

Section Core.
(** What the two versions have besides the header. *)
Context {BodyV0 BodyV1 : Type}.

Inductive LedgerCloseMeta :=
| MetaV0 (LedgerHeader : LedgerHeaderHistoryEntry) (body : BodyV0)
| MetaV1 (LedgerHeader : LedgerHeaderHistoryEntry) (body : BodyV1).

Definition header_of (l : LedgerCloseMeta) : LedgerHeaderHistoryEntry := match l with MetaV0 h _ | MetaV1 h _ => h end.
Definition LedgerSequence (l : LedgerCloseMeta) : Z := to_uint32 (LedgerSeq (Header (header_of l))).
Definition LedgerHash (l : LedgerCloseMeta) : list Z := Hash (header_of l).
Definition PreviousLedgerHash (l : LedgerCloseMeta) : list Z := hdr_PreviousLedgerHash (Header (header_of l)).

(** ** The environment *)

(** What the [select] of [GetLedger] took: the end of the context, or a result
    from the pipe, with whether the channel was still open. *)
Inductive received :=
| CtxDone (e : error)
| FromPipe (meta : option LedgerCloseMeta) (err : option error) (ok : bool).

Class CoreEnv (W : Type) := {
  (** the archive *)
  GetRootHAS : W -> res Z * W;
  GetLedgerHeader : Z -> W -> res (list Z) * W;
  (** the store of trusted hashes: the hash, if it has one *)
  GetLedgerHash : Z -> W -> res (option string) * W;
  store_Close : W -> W;
  (** runners: a new one, its methods, and the length of its pipe *)
  new_runner : W -> W;
  catchup : Z -> Z -> W -> option error * W;
  runFrom : Z -> string -> W -> option error * W;
  runner_context_Err : W -> option error;
  getProcessExitError : W -> bool * option error;
  receive : W -> received * W;
  pipe_length : W -> Z;
  runner_close : W -> option error * W;
  (** the context of the back end *)
  cancel : W -> W
}.

Context {W : Type} {EN : CoreEnv W}.

Record CaptiveHcnetCore := mkCaptive {
  checkpointManager : Checkpoints.CheckpointManager;
  hasHashStore : bool;
  useDB : bool;
  hasRunner : bool;
  cachedMeta : option LedgerCloseMeta;
  prepared : option Range;
  closed : bool;
  nextLedger : Z;
  lastLedger : option Z;
  previousLedgerHash : option string;
  world : W
}.

(** Methods. *)
Definition M (A : Type) : Type := CaptiveHcnetCore -> res A * CaptiveHcnetCore.
#[global] Instance M_ret : MRet M := fun A a c => (Ok a, c).
#[global] Instance M_bind : MBind M := fun A B f m c =>
  match m c with
  | (Ok a, c) => f a c
  | (Err e, c) => (Err e, c)
  | (Panic e, c) => (Panic e, c)
  end.

Definition fail {A} (e : error) : M A := fun c => (Err e, c).
Definition get : M CaptiveHcnetCore := fun c => (Ok c, c).
Definition pure {A} (r : res A) : M A := fun c => (r, c).
(** [errors.Wrap] of the error of a method. *)
Definition wrap {A} (m : M A) (msg : string) : M A := fun c => let '(r, c) := m c in (Wrap r msg, c).

Definition set_world (w : W) (c : CaptiveHcnetCore) : CaptiveHcnetCore :=
  mkCaptive (checkpointManager c) (hasHashStore c) (useDB c) (hasRunner c) (cachedMeta c) (prepared c) (closed c) (nextLedger c)
    (lastLedger c) (previousLedgerHash c) w.
(** A call of the environment that returns a result, or an error, or nothing. *)
Definition ask {A} (f : W -> res A * W) : M A := fun c => let '(r, w) := f (world c) in (r, set_world w c).
Definition ask_error (f : W -> option error * W) : M unit := fun c =>
  let '(e, w) := f (world c) in (match e with Some e => Err e | None => Ok tt end, set_world w c).
Definition change (f : W -> W) : M unit := fun c => (Ok tt, set_world (f (world c)) c).

(** [c.hcnetCoreRunner = c.hcnetCoreRunnerFactory()] *)
Definition set_runner : M unit := fun c => (Ok tt,
  mkCaptive (checkpointManager c) (hasHashStore c) (useDB c) true (cachedMeta c) (prepared c) (closed c) (nextLedger c)
    (lastLedger c) (previousLedgerHash c) (new_runner (world c))).
Definition set_session (ran : Range) (next : Z) (last : option Z) : M unit := fun c => (Ok tt,
  mkCaptive (checkpointManager c) (hasHashStore c) (useDB c) (hasRunner c) (cachedMeta c) (Some ran) (closed c) next
    last None (world c)).

(** ** Starting hcnet-core *)

Definition roundDownToFirstReplayAfterCheckpointStart (c : CaptiveHcnetCore) (ledger : Z) : res Z :=
  r ← Checkpoints.GetCheckpointRange (checkpointManager c) ledger;
  if Checkpoints.Low r <=? 1 then Ok 2 else Ok (Checkpoints.Low r).

Definition getLatestCheckpointSequence : M Z := wrap (ask GetRootHAS) "error getting root HAS".

Definition openOfflineReplaySubprocess (from to : Z) : M unit :=
  latestCheckpointSequence ← wrap getLatestCheckpointSequence "error getting latest checkpoint sequence";
  if from >? latestCheckpointSequence then fail "from sequence is greater than max available in history archives" else
  if to >? latestCheckpointSequence then fail "to sequence is greater than max available in history archives" else
  set_runner;;
  wrap (ask_error (catchup from to)) "error running hcnet-core";;
  c ← get;
  next ← pure (roundDownToFirstReplayAfterCheckpointStart c from);
  set_session (BoundedRange from to) next (Some to).

Definition ErrCannotStartFromGenesis : error := "CaptiveCore is unable to start from ledger 1, start from ledger 2".

(** The ledger and hash to run from when the hash has to come from the archive. *)
Definition run_from_archive (latestCheckpointSequence from : Z) : M (Z * string) :=
  let from := if (latestCheckpointSequence >? 0) && (from >? latestCheckpointSequence) then latestCheckpointSequence else from in
  let runFrom := to_uint32 (from - 1) in
  previousHash ← wrap (ask (GetLedgerHeader from)) "error trying to read ledger header from HAS";
  mret (runFrom, string_of (Hex.EncodeToString previousHash)).

Definition runFromParams (from : Z) : M (Z * string) :=
  if from =? 1 then fail ErrCannotStartFromGenesis else
  c ← get;
  first ← pure (Checkpoints.GetCheckpoint (checkpointManager c) 0);
  let from := if from <=? first then 3 else from in
  latestCheckpointSequence ← wrap getLatestCheckpointSequence "error getting latest checkpoint sequence";
  let twoCheckPointsLength := to_uint32 (to_uint32 (first + 1) * 2) in
  let maxLedger := to_uint32 (latestCheckpointSequence + twoCheckPointsLength) in
  if from >? maxLedger then fail "trying to start online mode too far, only two checkpoints in the future allowed" else
  let runFrom := to_uint32 (from - 1) in
  if useDB c then mret (runFrom, EmptyString) else
  if hasHashStore c then
    ledgerHash ← wrap (ask (GetLedgerHash runFrom)) "error trying to read ledger hash";
    match ledgerHash with
    | Some ledgerHash => mret (runFrom, ledgerHash)
    | None => run_from_archive latestCheckpointSequence from
    end
  else run_from_archive latestCheckpointSequence from.

Definition openOnlineReplaySubprocess (from : Z) : M unit :=
  '(runFrom_, ledgerHash) ← wrap (runFromParams from) "error calculating ledger and hash for hcnet-core run";
  set_runner;;
  wrap (ask_error (runFrom runFrom_ ledgerHash)) "error running hcnet-core";;
  set_session (UnboundedRange from) 0 None.

(** ** Preparing a range *)

Definition nextExpectedSequence (c : CaptiveHcnetCore) : Z :=
  match prepared c with
  | Some ran => if nextLedger c =? 0 then from ran else nextLedger c
  | None => nextLedger c
  end.

Definition is_some {A} (o : option A) : bool := match o with Some _ => true | None => false end.

Definition isPrepared (c : CaptiveHcnetCore) (ledgerRange : Range) : bool :=
  if closed c then false
  else if negb (hasRunner c) || is_some (runner_context_Err (world c)) then false
  else if (getProcessExitError (world c)).1 then false
  else
    let last := default 0 (lastLedger c) in
    let cachedLedger := match cachedMeta c with Some m => LedgerSequence m | None => 0 end in
    if negb (is_some (prepared c)) then false
    else if last =? 0 then (nextExpectedSequence c <=? from ledgerRange) || (cachedLedger =? from ledgerRange)
    else if bounded ledgerRange then
      ((nextExpectedSequence c <=? from ledgerRange) || (cachedLedger =? from ledgerRange)) && (to ledgerRange <=? last)
    else false.

Definition IsPrepared (ledgerRange : Range) (c : CaptiveHcnetCore) : res bool := Ok (isPrepared c ledgerRange).

(** Closing the runner of an earlier session. *)
Definition close_existing : M unit :=
  c ← get;
  if hasRunner c then
    wrap (ask_error runner_close) "error closing existing session";;
    c ← get;
    if negb (getProcessExitError (world c)).1 then fail "the previous Hcnet-Core instance is still running" else mret tt
  else mret tt.

Definition startPreparingRange (ledgerRange : Range) : M bool :=
  c ← get;
  if isPrepared c ledgerRange then mret true else
  close_existing;;
  wrap (if bounded ledgerRange then openOfflineReplaySubprocess (from ledgerRange) (to ledgerRange)
        else openOnlineReplaySubprocess (from ledgerRange)) "opening subprocess";;
  mret false.

(** ** Getting a ledger *)

Definition checkMetaPipeResult (c : CaptiveHcnetCore) (err : option error) (ok : bool) : option error :=
  match runner_context_Err (world c) with
  | Some e => Some e
  | None =>
      if negb ok || is_some err then
        let '(exited, exitErr) := getProcessExitError (world c) in
        match exited, exitErr, err with
        | true, Some e, _ => Some (wrap_error "hcnet core exited unexpectedly" e)
        | _, _, Some e => Some e
        | true, _, None => Some "hcnet core exited unexpectedly"
        | false, _, None => if negb ok then Some "meta pipe closed unexpectedly" else None
        end
      else None
  end.

(** Closing the runner, whose error is dropped, and returning an error. *)
Definition close_with {A} (e : error) : M A := fun c =>
  let '(_, w) := runner_close (world c) in (Err e, set_world w c).

Definition accept (m : LedgerCloseMeta) : M unit := fun c => (Ok tt,
  mkCaptive (checkpointManager c) (hasHashStore c) (useDB c) (hasRunner c) (Some m) (prepared c) (closed c)
    (to_uint32 (LedgerSequence m + 1)) (lastLedger c) (Some (string_of (Hex.EncodeToString (LedgerHash m)))) (world c)).

Definition nil_pointer : string := "invalid memory address or nil pointer dereference".

(** The ledger, if it is the requested one. *)
Definition handleMetaPipeResult (sequence : Z) (meta : option LedgerCloseMeta) (err : option error) (ok : bool) : M (option LedgerCloseMeta) :=
  c ← get;
  match checkMetaPipeResult c err ok with
  | Some e => close_with e
  | None =>
      match meta, prepared c with
      | None, _ | _, None => pure (Panic nil_pointer)
      | Some m, Some ran =>
          let seq := LedgerSequence m in
          if negb (nextLedger c =? 0) && negb (seq =? nextLedger c) then close_with "unexpected ledger sequence"
          else if (nextLedger c =? 0) && (seq >? from ran) then close_with "unexpected ledger sequence"
          else
            let newPreviousLedgerHash := string_of (Hex.EncodeToString (PreviousLedgerHash m)) in
            if match previousLedgerHash c with Some h => negb (bool_decide (h = newPreviousLedgerHash)) | None => false end
            then close_with "unexpected previous ledger hash for ledger"
            else
              accept m;;
              if seq =? sequence then
                (if match lastLedger c with Some l => l =? seq | None => false end
                 then wrap (ask_error runner_close) "error closing session" else mret tt);;
                mret (Some m)
              else mret None
      end
  end.

Definition out_of_fuel : error := "out of fuel".

(** The loop of [GetLedger], whose turns take one result from the pipe each. *)
Fixpoint get_loop (fuel : nat) (sequence : Z) : M LedgerCloseMeta :=
  match fuel with
  | O => fail out_of_fuel
  | S fuel =>
      r ← (fun c => let '(r, w) := receive (world c) in (Ok r, set_world w c));
      match r with
      | CtxDone e => fail e
      | FromPipe meta err ok =>
          found ← handleMetaPipeResult sequence meta err ok;
          match found with
          | Some ledger => mret ledger
          | None => get_loop fuel sequence
          end
      end
  end.

(** The ledger that was fetched last, if it is the requested one. *)
Definition cached_ledger (c : CaptiveHcnetCore) (sequence : Z) : option LedgerCloseMeta :=
  match cachedMeta c with
  | Some m => if sequence =? LedgerSequence m then Some m else None
  | None => None
  end.

Definition GetLedger (fuel : nat) (sequence : Z) : M LedgerCloseMeta :=
  c ← get;
  match cached_ledger c sequence with
  | Some m => mret m
  | None =>
      if closed c then fail "hcnet-core is no longer usable"
      else if negb (is_some (prepared c)) then fail "session is not prepared, call PrepareRange first"
      else if negb (hasRunner c) then fail "hcnet-core cannot be nil, call PrepareRange first"
      else if sequence <? nextExpectedSequence c then fail "requested ledger is behind the captive core stream"
      else if match lastLedger c with Some l => l <? sequence | None => false end then fail "reading past bounded range"
      else get_loop fuel sequence
  end.

(** The loop that seeks ahead to the first ledger of the range. *)
Fixpoint seek_loop (turns fuel : nat) (seq target : Z) : M unit :=
  match turns with
  | O => fail out_of_fuel
  | S turns =>
      if seq <=? target then
        wrap (GetLedger fuel seq) "Error fast-forwarding";;
        seek_loop turns fuel (to_uint32 (seq + 1)) target
      else mret tt
  end.

Definition PrepareRange (fuel : nat) (ledgerRange : Range) : M unit :=
  alreadyPrepared ← wrap (startPreparingRange ledgerRange) "error starting prepare range";
  if (alreadyPrepared : bool) then mret tt else
  c ← get;
  match prepared c with
  | None => pure (Panic nil_pointer)
  | Some ran => seek_loop (S fuel) fuel (from ran) (from ledgerRange)
  end.

Definition GetLatestLedgerSequence (c : CaptiveHcnetCore) : res Z :=
  if closed c then Err "hcnet-core is no longer usable"
  else if negb (is_some (prepared c)) then Err "hcnet-core must be prepared, call PrepareRange first"
  else if negb (hasRunner c) then Err "hcnet-core cannot be nil, call PrepareRange first"
  else match lastLedger c with
       | None => Ok (to_uint32 (to_uint32 (nextExpectedSequence c - 1) + to_uint32 (pipe_length (world c))))
       | Some l => Ok l
       end.

Definition Close : M unit :=
  (fun c => (Ok tt, mkCaptive (checkpointManager c) (hasHashStore c) (useDB c) (hasRunner c) (cachedMeta c) (prepared c) true (nextLedger c)
    (lastLedger c) (previousLedgerHash c) (cancel (world c))));;
  c ← get;
  (if hasHashStore c then change store_Close else mret tt);;
  if hasRunner c then ask_error runner_close else mret tt.

(** A new back end, unless there is no connection to an archive. *)
Definition NewCaptive (archivePool : option error) (checkpointFrequency : Z) (ledgerHashStore UseDB : bool) (w : W) : res CaptiveHcnetCore :=
  match archivePool with
  | Some e => Err (wrap_error "Error connecting to ALL history archives." e)
  | None => Ok (mkCaptive (Checkpoints.NewCheckpointManager checkpointFrequency) ledgerHashStore UseDB false None None false 0 None None w)
  end.

End Core.
Arguments LedgerCloseMeta BodyV0 BodyV1 : clear implicits.
Arguments received BodyV0 BodyV1 : clear implicits.
Arguments CoreEnv BodyV0 BodyV1 W : clear implicits.
Arguments CaptiveHcnetCore BodyV0 BodyV1 W : clear implicits.
End CaptiveCore.
