(* ===== verification/CaptiveProofs.v ===== *)
(** * What the captive core back end promises

    For any process and archive: the ledgers that a session hands out have the
    requested numbers and belong to one chain of ledgers that are linked by their
    hashes.  For a process that streams the ledgers of the network: every ledger
    of the prepared range is delivered.  And the back end is an implementation of
    the interface that the ingestion state machine is verified against. *)
From S2P Require Import Prelude Checkpoints HexText CaptiveCore.
Import CaptiveCore.
Local Open Scope Z_scope.

Module CaptiveProofs.

Section Proofs.
Context {BodyV0 BodyV1 W : Type} {EN : CoreEnv BodyV0 BodyV1 W}.
Abbreviation Meta := (LedgerCloseMeta BodyV0 BodyV1).
Abbreviation Captive := (CaptiveHcnetCore BodyV0 BodyV1 W).

Definition hex (l : list Z) : string := string_of (Hex.EncodeToString l).

(** The next ledger of a chain; the sequence wraps around after the last number. *)
Definition follows (m m' : Meta) : Prop :=
  (LedgerSequence m + 1 < 2 ^ 32 -> LedgerSequence m' = LedgerSequence m + 1) /\ hex (PreviousLedgerHash m') = hex (LedgerHash m).

Fixpoint linked (l : list Meta) : Prop :=
  match l with
  | m :: ((m' :: _) as l) => follows m m' /\ linked l
  | _ => True
  end.

Lemma linked_snoc l m : linked l -> match last l with Some m0 => follows m0 m | None => True end -> linked (l ++ [m]).
Proof.
  induction l as [|a l IH]; [done|]. destruct l as [|b l]; [cbn; done|]. intros [Hab Hl] Hm. split; [done|]. by apply IH.
Qed.

Lemma LedgerSequence_range (m : Meta) : 0 <= LedgerSequence m < 2 ^ 32.
Proof. unfold LedgerSequence. apply Z.mod_pos_bound. lia. Qed.

(** What the calls of [GetLedger] do not change. *)
Definition same_session (c c' : Captive) : Prop :=
  checkpointManager c' = checkpointManager c /\ hasRunner c' = hasRunner c /\ prepared c' = prepared c /\ closed c' = closed c /\
  lastLedger c' = lastLedger c.

#[local] Instance same_session_preorder : PreOrder same_session.
Proof. split; [by intros c; split_and!|]. intros c1 c2 c3 (? & ? & ? & ? & ?) (? & ? & ? & ? & ?). split_and!; congruence. Qed.

(** The ledgers that were taken from the pipe in this session. *)
Record session (c : Captive) (start : Z) (l : list Meta) : Prop := {
  s_linked : linked l;
  s_first : match l with
            | m :: _ => if start =? 0 then match prepared c with Some ran => LedgerSequence m <= from ran | None => False end
                        else LedgerSequence m = start
            | [] => True
            end;
  s_last : match last l with
           | Some m => cachedMeta c = Some m /\ nextLedger c = to_uint32 (LedgerSequence m + 1) /\ previousLedgerHash c = Some (hex (LedgerHash m))
           | None => nextLedger c = start /\ previousLedgerHash c = None
           end
}.

Lemma session_frame c c' start l : session c start l -> same_session c c' -> cachedMeta c' = cachedMeta c -> nextLedger c' = nextLedger c ->
  previousLedgerHash c' = previousLedgerHash c -> session c' start l.
Proof.
  intros [H1 H2 H3] (_ & _ & Hp & _) E1 E2 E3. split; [done|by rewrite Hp|]. by rewrite E1, E2, E3.
Qed.

(** A ledger that passes the checks continues the chain. *)
Lemma session_accept c start l m ran : session c start l -> prepared c = Some ran ->
  negb (nextLedger c =? 0) && negb (LedgerSequence m =? nextLedger c) = false ->
  (nextLedger c =? 0) && (LedgerSequence m >? from ran) = false ->
  match previousLedgerHash c with Some h => negb (bool_decide (h = hex (PreviousLedgerHash m))) | None => false end = false ->
  session (accept m c).2 start (l ++ [m]).
Proof.
  intros [H1 H2 H3] Hp Hs Hf Hh. split.
  - apply linked_snoc; [done|]. destruct (last l) as [m0|]; [|done]. destruct H3 as (Hc & Hn & Hpr). split.
    + intros Hlt. pose proof (LedgerSequence_range m0). rewrite Hn in Hs. unfold to_uint32, uwrap in Hs. rewrite Z.mod_small in Hs by lia.
      zbool. destruct (Z.eqb_spec (LedgerSequence m0 + 1) 0); [lia|]. cbn in Hs. destruct (Z.eqb_spec (LedgerSequence m) (LedgerSequence m0 + 1)); [done|].
      done.
    + rewrite Hpr in Hh. destruct (bool_decide_reflect (hex (LedgerHash m0) = hex (PreviousLedgerHash m))); [done|]. done.
  - cbn [accept snd prepared]. destruct l as [|a l]; [|done]. cbn in H3. destruct H3 as [Hn _]. cbn. rewrite Hn in *. rewrite Hp.
    destruct (Z.eqb_spec start 0); cbn in Hs, Hf; [lia|]. destruct (Z.eqb_spec (LedgerSequence m) start); done.
  - rewrite last_snoc. done.
Qed.

Lemma ask_error_frame f (c : Captive) r c' : ask_error f c = (r, c') -> c' = set_world (world c') c.
Proof. unfold ask_error. destruct (f (world c)) as [e w]. by intros [= _ <-]. Qed.

Lemma set_world_session w (c : Captive) start l : session c start l -> session (set_world w c) start l.
Proof. intros H. apply (session_frame c); try done. Qed.

(** One result of the pipe. *)
Lemma handle_spec n meta err ok c start l r c' : session c start l -> handleMetaPipeResult n meta err ok c = (r, c') ->
  exists l', session c' start (l ++ l') /\ same_session c c' /\ (l' = [] -> cachedMeta c' = cachedMeta c) /\
    (forall m, r = Ok (Some m) -> LedgerSequence m = n /\ m ∈ l').
Proof.
  intros Hs H. unfold handleMetaPipeResult in H. cbn [mbind M_bind get] in H. unfold mbind, M_bind, get in H.
  assert (Hclose : forall e, close_with (A := option Meta) e c = (r, c') ->
    exists l', session c' start (l ++ l') /\ same_session c c' /\ (l' = [] -> cachedMeta c' = cachedMeta c) /\
      (forall m, r = Ok (Some m) -> LedgerSequence m = n /\ m ∈ l')).
  { intros e He. unfold close_with in He. destruct (runner_close (world c)) as [e' w]. injection He as <- <-.
    exists []. rewrite app_nil_r. split; [by apply set_world_session|]. by split_and!. }
  destruct (checkMetaPipeResult c err ok) as [e|]; [by apply (Hclose e)|].
  assert (Hpanic : pure (A := option Meta) (Panic nil_pointer) c = (r, c') -> exists l', session c' start (l ++ l') /\ same_session c c' /\
    (l' = [] -> cachedMeta c' = cachedMeta c) /\ (forall m, r = Ok (Some m) -> LedgerSequence m = n /\ m ∈ l')).
  { intros [= <- <-]. exists []. rewrite app_nil_r. by split_and!. }
  destruct meta as [m|]; [|by apply Hpanic]. destruct (prepared c) as [ran|] eqn:Hp; [|by apply Hpanic].
  destruct (negb (nextLedger c =? 0) && negb (LedgerSequence m =? nextLedger c)) eqn:H1; [by eapply Hclose|].
  destruct ((nextLedger c =? 0) && (LedgerSequence m >? from ran)) eqn:H2; [by eapply Hclose|].
  fold (hex (PreviousLedgerHash m)) in H.
  destruct (match previousLedgerHash c with Some h => negb (bool_decide (h = hex (PreviousLedgerHash m))) | None => false end) eqn:H3; [by eapply Hclose|].
  pose proof (session_accept c start l m ran Hs Hp H1 H2 H3) as Hs'. unfold accept in H at 1. set (c1 := (accept m c).2) in *.
  change (mkCaptive _ _ _ _ _ _ _ _ _ _ _) with c1 in H.
  assert (Hsame : same_session c c1) by by split_and!. exists [m].
  destruct (LedgerSequence m =? n) eqn:Hn; [|injection H as <- <-; by split_and!].
  apply Z.eqb_eq in Hn. destruct (match lastLedger c with Some l => l =? LedgerSequence m | None => false end).
  - unfold wrap in H. destruct (ask_error runner_close c1) as [q c2] eqn:Hq. apply ask_error_frame in Hq.
    assert (Hs2 : session c2 start (l ++ [m])) by (rewrite Hq; by apply set_world_session).
    assert (Hsame2 : same_session c c2) by (transitivity c1; [done|]; rewrite Hq; by split_and!).
    destruct q; cbn in H; injection H as <- <-; split_and!; try done. intros m' [= <-]. split; [done|left].
  - injection H as <- <-. split_and!; try done. intros m' [= <-]. split; [done|left].
Qed.

Lemma captive_loop_spec n start : forall fuel c l r c', session c start l -> get_loop fuel n c = (r, c') ->
  exists l', session c' start (l ++ l') /\ same_session c c' /\ (l' = [] -> cachedMeta c' = cachedMeta c) /\
    (forall m, r = Ok m -> LedgerSequence m = n /\ m ∈ l').
Proof.
  induction fuel as [|fuel IH]; intros c l r c' Hs H; cbn [get_loop] in H.
  { injection H as <- <-. exists []. rewrite app_nil_r. by split_and!. }
  unfold mbind, M_bind in H. destruct (receive (world c)) as [x w]. destruct x as [e|meta err ok].
  { injection H as <- <-. exists []. rewrite app_nil_r. split; [by apply set_world_session|]. by split_and!. }
  assert (Hsame0 : same_session c (set_world w c)) by by split_and!.
  destruct (handleMetaPipeResult n meta err ok (set_world w c)) as [q c1] eqn:Hq.
  apply (handle_spec _ _ _ _ _ start l) in Hq as (l1 & Hs1 & Hsame1 & Hc1 & Hm1); [|by apply set_world_session].
  assert (Hsame : same_session c c1) by by transitivity (set_world w c).
  destruct q as [[m|]|e|e].
  - injection H as <- <-. exists l1. split_and!; [done..|]. intros m' [= <-]. by apply Hm1.
  - apply (IH _ (l ++ l1)) in H as (l2 & Hs2 & Hsame2 & Hc2 & Hm2); [|done]. exists (l1 ++ l2). rewrite app_assoc. split; [done|].
    split; [by transitivity c1|]. split; [intros [-> ->]%app_eq_nil; rewrite Hc2, Hc1; done|]. intros m Hm. destruct (Hm2 m Hm). split; [done|]. apply elem_of_app. by right.
  - injection H as <- <-. by exists l1.
  - injection H as <- <-. by exists l1.
Qed.

Lemma GetLedger_spec fuel n c start l r c' : session c start l -> GetLedger fuel n c = (r, c') ->
  exists l', session c' start (l ++ l') /\ same_session c c' /\
    (l' = [] -> cachedMeta c' = cachedMeta c) /\ (forall m, r = Ok m -> LedgerSequence m = n /\ (m ∈ l' \/ cachedMeta c = Some m)).
Proof.
  intros Hs H. unfold GetLedger, mbind, M_bind, get in H. unfold cached_ledger in H.
  assert (Hstop : (r, c') = (r, c) -> (forall m, r = Ok m -> LedgerSequence m = n /\ cachedMeta c = Some m) -> exists l', session c' start (l ++ l') /\
    same_session c c' /\ (l' = [] -> cachedMeta c' = cachedMeta c) /\
    (forall m, r = Ok m -> LedgerSequence m = n /\ (m ∈ l' \/ cachedMeta c = Some m))).
  { intros [= ->] Hm. exists []. rewrite app_nil_r. split_and!; [done..|]. intros m Hr. destruct (Hm m Hr). split; [done|by right]. }
  destruct (cachedMeta c) as [m|] eqn:Hc.
  - destruct (Z.eqb_spec n (LedgerSequence m)) as [->|Hne].
    { injection H as <- <-. apply Hstop; [done|]. by intros m' [= <-]. }
    repeat (match type of H with (if ?b then _ else _) _ = _ => destruct b; [injection H as <- <-; by apply Hstop|] end).
    apply (captive_loop_spec n start fuel c l) in H as (l' & ? & ? & Hc' & Hm); [|done]. rewrite Hc in Hc'. exists l'. split_and!; [done..|]. intros m' Hr. destruct (Hm m' Hr).
    split; [done|by left].
  - repeat (match type of H with (if ?b then _ else _) _ = _ => destruct b; [injection H as <- <-; by apply Hstop|] end).
    apply (captive_loop_spec n start fuel c l) in H as (l' & ? & ? & Hc' & Hm); [|done]. rewrite Hc in Hc'. exists l'. split_and!; [done..|]. intros m' Hr. destruct (Hm m' Hr).
    split; [done|by left].
Qed.

(** ** Starting a session *)

Lemma M_bind_Ok {A B} (m : M A) (f : A -> M B) (c : Captive) b c' : (m ≫= f) c = (Ok b, c') ->
  exists a c1, m c = (Ok a, c1) /\ f a c1 = (Ok b, c').
Proof. unfold mbind, M_bind. destruct (m c) as [[a|e|e] c1]; [|done..]. intros H. by exists a, c1. Qed.

Lemma captive_wrap_Ok {A} (m : M A) msg (c : Captive) a c' : wrap m msg c = (Ok a, c') -> m c = (Ok a, c').
Proof. unfold wrap. destruct (m c) as [[x|e|e] c1]; [|done..]. by intros [= -> ->]. Qed.

(** Methods that keep the ledger that was fetched last, and the checkpoints. *)
Definition frame {A} (m : M A) : Prop := forall (c : Captive) r c', m c = (r, c') ->
  cachedMeta c' = cachedMeta c /\ checkpointManager c' = checkpointManager c.

Lemma frame_bind {A B} (m : M A) (f : A -> M B) : frame m -> (forall a, frame (f a)) -> frame (m ≫= f).
Proof.
  intros Hm Hf c r c' H. unfold mbind, M_bind in H. destruct (m c) as [[a|e|e] c1] eqn:E; apply Hm in E as [E1 E2].
  - apply Hf in H as [H1 H2]. split; congruence.
  - by injection H as <- <-.
  - by injection H as <- <-.
Qed.
Lemma frame_same {A} (m : M A) : (forall c : Captive, (m c).2 = c \/ (m c).2 = set_world (world (m c).2) c) -> frame m.
Proof. intros Hm c r c' H. specialize (Hm c). rewrite H in Hm. cbn in Hm. destruct Hm as [-> | ->]; done. Qed.
Lemma frame_ret {A} (a : A) : frame (mret a).
Proof. apply frame_same. by left. Qed.
Lemma frame_fail {A} e : frame (fail (A := A) e).
Proof. apply frame_same. by left. Qed.
Lemma frame_get : frame get.
Proof. apply frame_same. by left. Qed.
Lemma frame_pure {A} (r : res A) : frame (pure r).
Proof. apply frame_same. by left. Qed.
Lemma frame_ask {A} (f : W -> res A * W) : frame (ask f).
Proof. apply frame_same. right. unfold ask. by destruct (f (world c)). Qed.
Lemma frame_ask_error f : frame (ask_error f).
Proof. apply frame_same. right. unfold ask_error. by destruct (f (world c)). Qed.
Lemma frame_wrap {A} (m : M A) msg : frame m -> frame (wrap m msg).
Proof. intros Hm c r c' H. unfold wrap in H. destruct (m c) as [q c1] eqn:E. injection H as <- <-. by apply Hm in E. Qed.
Lemma frame_set_runner : frame set_runner.
Proof. by intros c r c' [= <- <-]. Qed.
Lemma frame_set_session ran next last : frame (set_session ran next last).
Proof. by intros c r c' [= <- <-]. Qed.
Lemma frame_if {A} (b : bool) (m m' : M A) : frame m -> frame m' -> frame (if b then m else m').
Proof. by destruct b. Qed.

Create HintDb frame.
#[local] Hint Resolve frame_ret frame_fail frame_get frame_pure frame_ask frame_ask_error frame_set_runner frame_set_session : frame.
Ltac frames := repeat first [solve [eauto with frame] | apply frame_if | apply frame_wrap | apply frame_bind; intros].

Lemma frame_run_from_archive latest n : frame (run_from_archive latest n).
Proof. unfold run_from_archive. frames. Qed.
#[local] Hint Resolve frame_run_from_archive : frame.

Lemma frame_offline a b : frame (openOfflineReplaySubprocess a b).
Proof. unfold openOfflineReplaySubprocess, getLatestCheckpointSequence. frames. Qed.

Lemma frame_params n : frame (runFromParams n).
Proof.
  unfold runFromParams, getLatestCheckpointSequence. frames. repeat case_match; frames.
Qed.
#[local] Hint Resolve frame_params : frame.

Lemma frame_online n : frame (openOnlineReplaySubprocess n).
Proof. unfold openOnlineReplaySubprocess. frames. destruct a as [x y]. frames. Qed.

Lemma frame_close_existing : frame close_existing.
Proof. unfold close_existing. frames. Qed.
#[local] Hint Resolve frame_offline frame_online frame_close_existing : frame.

Lemma frame_start r : frame (startPreparingRange r).
Proof. unfold startPreparingRange. frames. Qed.

(** Where a session begins: at the first ledger of a checkpoint when the range is
    bounded, and at any ledger up to the first of the range otherwise. *)
Definition start_of (c : Captive) (r : Range) (start : Z) : Prop :=
  if bounded r then roundDownToFirstReplayAfterCheckpointStart c (from r) = Ok start else start = 0.

Lemma startPreparingRange_spec r c c1 b : isPrepared c r = false -> startPreparingRange r c = (Ok b, c1) ->
  b = false /\ exists start ran, session c1 start [] /\ start_of c1 r start /\ prepared c1 = Some ran /\ from ran = from r /\
    cachedMeta c1 = cachedMeta c /\ lastLedger c1 = (if bounded r then Some (to r) else None) /\ nextLedger c1 = start /\ hasRunner c1 = true.
Proof.
  intros Hp H. pose proof (frame_start r c _ _ H) as [Hc _]. unfold startPreparingRange in H.
  apply M_bind_Ok in H as (c0 & c0' & [= -> ->] & H). rewrite Hp in H.
  apply M_bind_Ok in H as ([] & c2 & _ & H). apply M_bind_Ok in H as ([] & c3 & H3 & [= <- ->]). split; [done|].
  apply captive_wrap_Ok in H3. unfold start_of. destruct (bounded r) eqn:Hb.
  - unfold openOfflineReplaySubprocess in H3. apply M_bind_Ok in H3 as (latest & c4 & _ & H3).
    destruct (_ >? _); [done|]. destruct (_ >? _); [done|].
    apply M_bind_Ok in H3 as ([] & c5 & H5 & H3). apply M_bind_Ok in H3 as ([] & c6 & H6 & H3). apply captive_wrap_Ok, ask_error_frame in H6.
    apply M_bind_Ok in H3 as (c7 & c7' & [= -> ->] & H3). apply M_bind_Ok in H3 as (next & c8 & [= Hn ->] & [= <-]).
    exists next, (BoundedRange (from r) (to r)). injection H5 as <-. split_and!; try done. cbn [hasRunner]. by rewrite H6.
  - unfold openOnlineReplaySubprocess in H3. apply M_bind_Ok in H3 as ([rf h] & c4 & _ & H3).
    apply M_bind_Ok in H3 as ([] & c5 & H5 & H3). apply M_bind_Ok in H3 as ([] & c6 & H6 & [= <-]). apply captive_wrap_Ok, ask_error_frame in H6.
    exists 0, (UnboundedRange (from r)). injection H5 as <-. split_and!; try done. cbn [hasRunner]. by rewrite H6.
Qed.

(** ** A session *)

(** Calls of [GetLedger], with changes of the process and the archive by themselves
    in between; the results are paired with the numbers asked for. *)
Fixpoint gets (fuel : nat) (ops : list (Z + W)) (c : Captive) : list (Z * res Meta) * Captive :=
  match ops with
  | [] => ([], c)
  | inl n :: ops => let '(r, c) := GetLedger fuel n c in let '(rs, c) := gets fuel ops c in ((n, r) :: rs, c)
  | inr w :: ops => gets fuel ops (set_world w c)
  end.

Lemma session_cached c start l m : session c start l -> cachedMeta c = Some m -> m ∈ l \/ l = [].
Proof.
  intros [_ _ H] Hc. destruct l as [|a l] using rev_ind; [by right|]. rewrite last_snoc in H. destruct H as (H & _).
  rewrite Hc in H. injection H as ->. left. apply elem_of_app. right. left.
Qed.

Lemma gets_spec fuel start ops : forall c l rs c', session c start l -> gets fuel ops c = (rs, c') ->
  exists l', session c' start (l ++ l') /\ same_session c c' /\
    forall n m, (n, Ok m) ∈ rs -> LedgerSequence m = n /\ (m ∈ l ++ l' \/ cachedMeta c = Some m /\ l = []).
Proof.
  induction ops as [|[n|w] ops IH]; intros c l rs c' Hs H; cbn [gets] in H.
  - injection H as <- <-. exists []. rewrite app_nil_r. split_and!; [done..|]. by intros n m ?%elem_of_nil.
  - destruct (GetLedger fuel n c) as [r c1] eqn:Hg. destruct (gets fuel ops c1) as [rs1 c2] eqn:Hr. injection H as <- <-.
    apply (GetLedger_spec _ _ _ start l) in Hg as (l1 & Hs1 & Hsame1 & Hc1 & Hm1); [|done].
    apply (IH _ (l ++ l1)) in Hr as (l2 & Hs2 & Hsame2 & Hm2); [|done]. exists (l1 ++ l2). rewrite app_assoc.
    split; [done|]. split; [by transitivity c1|]. intros n' m Hin. apply elem_of_cons in Hin as [[= -> <-]|Hin].
    + destruct (Hm1 m eq_refl) as [? [Hin|Hc]]; (split; [done|]).
      * left. apply elem_of_app. left. apply elem_of_app. by right.
      * destruct (session_cached _ _ _ _ Hs Hc); [|by right]. left. apply elem_of_app. left. apply elem_of_app. by left.
    + destruct (Hm2 n' m Hin) as [? [?|[Hc Hnil]]]; (split; [done|]); [by left|]. apply app_eq_nil in Hnil as [-> ->].
      right. split; [|done]. by rewrite <- Hc1.
  - apply (IH _ l) in H as (l' & Hs' & Hsame & Hm); [|by apply set_world_session]. exists l'. split; [done|]. split; [|done].
    transitivity (set_world w c); [by split_and!|done].
Qed.

Lemma seek_spec fuel start target turns : forall seq c l c', session c start l -> seek_loop turns fuel seq target c = (Ok tt, c') ->
  exists l', session c' start (l ++ l') /\ same_session c c' /\ (l' = [] -> cachedMeta c' = cachedMeta c) /\
    (seq <= target -> l ++ l' = [] -> exists m, cachedMeta c = Some m /\ LedgerSequence m = seq).
Proof.
  induction turns as [|turns IH]; intros seq c l c' Hs H; [done|]. cbn [seek_loop] in H.
  destruct (Z.leb_spec seq target); [|injection H as <-; exists []; rewrite app_nil_r; split_and!; [done..|lia]].
  apply M_bind_Ok in H as (m & c1 & H1 & H). apply captive_wrap_Ok in H1.
  apply (GetLedger_spec _ _ _ start l) in H1 as (l1 & Hs1 & Hsame1 & Hc1 & Hm1); [|done].
  apply (IH _ _ (l ++ l1)) in H as (l2 & Hs2 & Hsame2 & Hc2 & _); [|done]. exists (l1 ++ l2). rewrite app_assoc. split; [done|].
  split; [by transitivity c1|]. split; [intros [-> ->]%app_eq_nil; rewrite Hc2, Hc1; done|]. intros _ Hnil.
  apply app_eq_nil in Hnil as [Hnil ->]. apply app_eq_nil in Hnil as [-> ->].
  destruct (Hm1 m eq_refl) as [Hseq [Hin|Hc]]; [by apply elem_of_nil in Hin|]. by exists m.
Qed.

(** C7: Whatever hcnet-core and the archive do: when a range is prepared by a new
    session, the ledgers that later calls of [GetLedger] return have the requested
    numbers, and all belong to one chain, in which every ledger has the next
    number and builds on the hash of the one before; the chain begins at the first
    ledger of the checkpoint (for a bounded range) or not after the first ledger
    of the range.  The one exception is a ledger that an earlier session left in
    the cache and that has the first number of the range. *)
Theorem captive_session_chain (fuel : nat) (r : Range) (c c1 c2 : Captive) (ops : list (Z + W)) (rs : list (Z * res Meta))
    (Hnew : isPrepared c r = false) (Hprep : PrepareRange fuel r c = (Ok tt, c1)) (Hgets : gets fuel ops c1 = (rs, c2)) :
  exists start l, linked l /\ start_of c1 r start /\
    match l with m :: _ => if start =? 0 then LedgerSequence m <= from r else LedgerSequence m = start | [] => True end /\
    forall n m, (n, Ok m) ∈ rs -> LedgerSequence m = n /\ (m ∈ l \/ cachedMeta c = Some m /\ n = from r).
Proof.
  unfold PrepareRange in Hprep. apply M_bind_Ok in Hprep as (b & c0 & H0 & Hprep). apply captive_wrap_Ok in H0.
  apply startPreparingRange_spec in H0 as (-> & start & ran & Hs & Hst & Hp & Hf & Hc & _ & _); [|done].
  apply M_bind_Ok in Hprep as (c0' & c0'' & [= -> ->] & Hprep). rewrite Hp in Hprep.
  apply (seek_spec _ start _ _ _ _ []) in Hprep as (l1 & Hs1 & Hsame1 & Hc1 & Hcached); [|done].
  apply (gets_spec _ start _ _ l1) in Hgets as (l2 & Hs2 & Hsame2 & Hm); [|done]. exists start, (l1 ++ l2).
  destruct Hs2 as [L1 L2 _]. split; [done|]. destruct Hsame1 as (E1 & _ & E3 & _). destruct Hsame2 as (F1 & _ & F3 & _). split_and!.
  - unfold start_of, roundDownToFirstReplayAfterCheckpointStart in *. by rewrite E1.
  - destruct (l1 ++ l2) as [|m l]; [done|]. rewrite F3, E3, Hp in L2. by rewrite Hf in L2.
  - intros n m Hin. destruct (Hm n m Hin) as [Hseq [Hin'|[Hcm ->]]]; (split; [done|]); [by left|right].
    destruct (Hcached ltac:(lia) eq_refl) as (m' & Hm' & Hseq'). rewrite Hc1 in Hcm by done. rewrite Hc in Hcm, Hm'.
    split; [done|]. congruence.
Qed.


(** ** A process that streams the network *)

Section Healthy.
(** The ledgers of the network, the latest checkpoint of the archive, whether the
    process keeps a database, the next ledger in the pipe of a process, the last
    ledger it streams if there is one, and whether it runs. *)
Context (ledger_at : Z -> Meta) (latest : Z) (has_db : bool)
  (position : W -> Z) (limit : W -> option Z) (running : W -> Prop).

(** What is documented of hcnet-core, its runner, the archive and the hash store.
    The archive has the headers of the ledgers up to its latest checkpoint, and no
    others; the store knows hashes of ledgers of the network.  A run is given the
    hash of the ledger it starts from, which a process with a database does not
    need; with it, streaming begins not after the next ledger, and at ledger 2 in
    the first checkpoint, and goes on.  A replay of ledgers of the archive begins
    at the first ledger of the checkpoint of its range and ends with the range.
    Closing ends the process. *)
Record healthy_core (m : Checkpoints.CheckpointManager) : Prop := {
  hc_sequence : forall n, 0 <= n < 2 ^ 32 -> LedgerSequence (ledger_at n) = n;
  hc_hash : forall n, PreviousLedgerHash (ledger_at (n + 1)) = LedgerHash (ledger_at n);
  hc_root : forall w, exists w', GetRootHAS w = (Ok latest, w');
  hc_header : forall n w, 2 <= n <= latest -> exists w', GetLedgerHeader n w = (Ok (PreviousLedgerHash (ledger_at n)), w');
  hc_store : forall n w, exists o w', GetLedgerHash n w = (Ok o, w') /\ forall h, o = Some h -> h = hex (LedgerHash (ledger_at n));
  hc_runFrom : forall n h w, 1 < n -> h = hex (LedgerHash (ledger_at n)) \/ has_db = true -> exists w', runFrom n h w = (None, w') /\
    running w' /\ limit w' = None /\ 2 <= position w' <= n + 1 /\ (n + 1 < Checkpoints.checkpointFreq m -> position w' = 2);
  hc_catchup : forall a b w, 2 <= a <= b -> b <= latest -> exists w', catchup a b w = (None, w') /\ running w' /\ limit w' = Some b /\
    position w' = Z.max 2 (Checkpoints.checkpointFreq m * (a / Checkpoints.checkpointFreq m));
  hc_receive : forall w, running w -> (forall b, limit w = Some b -> position w <= b) ->
    exists w', receive w = (FromPipe (Some (ledger_at (position w))) None true, w') /\
    running w' /\ limit w' = limit w /\ position w' = position w + 1;
  hc_context : forall w, running w -> runner_context_Err w = None;
  hc_close : forall w, exists w' e, runner_close w = (None, w') /\ getProcessExitError w' = (true, e)
}.

Context (mgr : Checkpoints.CheckpointManager) (HC : healthy_core mgr).

(** The back end is in a session in which ledger [p] is the next in the pipe. *)
Record ready (c : Captive) (ran : Range) (p : Z) : Prop := {
  r_open : closed c = false;
  r_runner : hasRunner c = true;
  r_prepared : prepared c = Some ran;
  r_running : running (world c);
  r_position : position (world c) = p;
  r_limit : limit (world c) = if bounded ran then Some (to ran) else None;
  r_last : lastLedger c = if bounded ran then Some (to ran) else None;
  r_chain : forall m, cachedMeta c = Some m -> m = ledger_at (LedgerSequence m);
  r_state : (previousLedgerHash c = None /\ p <= from ran /\ (nextLedger c = 0 \/ nextLedger c = p)) \/
    (cachedMeta c = Some (ledger_at (p - 1)) /\ nextLedger c = p /\ previousLedgerHash c = Some (hex (LedgerHash (ledger_at (p - 1)))))
}.

(** Taking one ledger from the pipe. *)
Lemma take_one c ran p n : ready c ran p -> 2 <= p -> p + 1 < 2 ^ 32 -> (bounded ran = true -> p <= to ran) ->
  exists w, receive (world c) = (FromPipe (Some (ledger_at p)) None true, w) /\
    if p =? n then exists c', handleMetaPipeResult n (Some (ledger_at p)) None true (set_world w c) = (Ok (Some (ledger_at n)), c') /\
      cachedMeta c' = Some (ledger_at n) /\ lastLedger c' = lastLedger c /\
      (lastLedger c <> Some n -> ready c' ran (p + 1) /\ nextLedger c' = p + 1)
    else exists c', handleMetaPipeResult n (Some (ledger_at p)) None true (set_world w c) = (Ok None, c') /\ ready c' ran (p + 1).
Proof.
  intros [H1 H2 H3 H4 H5 Hlim H6 H7 H8] Hp Hhi Hto.
  destruct (hc_receive _ HC _ H4) as (w & Hr & Hrun & Hlim' & Hpos).
  { intros b. rewrite Hlim, H5. destruct (bounded ran); [|done]. intros [= <-]. by apply Hto. }
  rewrite H5 in Hr, Hpos. rewrite Hlim in Hlim'.
  exists w. split; [done|]. pose proof (hc_sequence _ HC p ltac:(lia)) as Hseq.
  assert (Hnext : to_uint32 (p + 1) = p + 1) by (unfold to_uint32, uwrap; apply Z.mod_small; lia).
  set (c1 := (accept (ledger_at p) (set_world w c)).2).
  assert (Hnl : nextLedger c1 = p + 1) by (cbn [c1 accept snd nextLedger]; by rewrite Hseq).
  assert (Hready : ready c1 ran (p + 1)).
  { split; try done; cbn [c1 accept snd set_world world cachedMeta nextLedger previousLedgerHash].
    - intros m [= <-]. by rewrite Hseq.
    - right. rewrite Z.add_simpl_r, Hseq. by split_and!. }
  assert (Hh : handleMetaPipeResult n (Some (ledger_at p)) None true (set_world w c) =
    (if LedgerSequence (ledger_at p) =? n then
       (if match lastLedger c with Some l => l =? LedgerSequence (ledger_at p) | None => false end
        then wrap (ask_error runner_close) "error closing session" else mret tt);; mret (Some (ledger_at p))
     else mret None) c1).
  { unfold handleMetaPipeResult, mbind, M_bind, get, checkMetaPipeResult. cbn [set_world world prepared nextLedger previousLedgerHash lastLedger].
    rewrite (hc_context _ HC w Hrun), H3. cbn [negb orb is_some]. rewrite Hseq. fold (hex (PreviousLedgerHash (ledger_at p))).
    assert (Hchk : (negb (nextLedger c =? 0) && negb (p =? nextLedger c)) = false /\ (nextLedger c =? 0) && (p >? from ran) = false /\
      match previousLedgerHash c with Some h => negb (bool_decide (h = hex (PreviousLedgerHash (ledger_at p)))) | None => false end = false).
    { destruct H8 as [(-> & Hle & [-> | ->])|(_ & -> & ->)].
      - rewrite Z.eqb_refl. cbn. split_and!; [done|by rewrite Z.gtb_ltb; apply Z.ltb_ge|done].
      - rewrite Z.eqb_refl. cbn. rewrite andb_false_r. split_and!; [done| |done]. by rewrite (proj2 (Z.eqb_neq p 0)) by lia.
      - rewrite Z.eqb_refl, andb_false_r, (proj2 (Z.eqb_neq p 0)) by lia. split_and!; [done|done|].
        pose proof (hc_hash _ HC (p - 1)) as Hl. replace (p - 1 + 1) with p in Hl by lia. rewrite Hl. by rewrite bool_decide_true. }
    destruct Hchk as (-> & -> & ->). done. }
  rewrite Hh, Hseq. destruct (Z.eqb_spec p n) as [->|Hne]; [|by exists c1].
  destruct (match lastLedger c with Some l => l =? n | None => false end) eqn:Hl.
  - destruct (hc_close _ HC (world c1)) as (w' & e & Hc & _). exists (set_world w' c1). unfold mbind, M_bind, wrap, ask_error.
    rewrite Hc. split; [done|]. split; [done|]. split; [done|]. intros Hne. destruct (lastLedger c); [|done]. zbool. by subst.
  - by exists c1.
Qed.

Lemma get_loop_delivers ran n : n + 1 < 2 ^ 32 -> (bounded ran = true -> n <= to ran) -> forall fuel c p, ready c ran p -> 2 <= p <= n -> (Z.to_nat (n - p) < fuel)%nat ->
  exists c', get_loop fuel n c = (Ok (ledger_at n), c') /\ cachedMeta c' = Some (ledger_at n) /\ lastLedger c' = lastLedger c /\
    (lastLedger c <> Some n -> ready c' ran (n + 1) /\ nextLedger c' = n + 1).
Proof.
  intros Hn Hb. induction fuel as [|fuel IH]; intros c p Hr Hp Hf; [lia|]. cbn [get_loop]. unfold mbind, M_bind.
  destruct (take_one c ran p n Hr ltac:(lia) ltac:(lia)) as (w & Hrec & Hh); [intros H; specialize (Hb H); lia|]. rewrite Hrec.
  destruct (Z.eqb_spec p n) as [->|Hne]; destruct Hh as (c1 & Hh & Hc1); rewrite Hh; [by exists c1|].
  destruct (IH c1 (p + 1) Hc1) as (c' & H1 & H2 & H3 & H4); [lia|lia|].
  assert (Hl : lastLedger c1 = lastLedger c) by (rewrite (r_last _ _ _ Hc1), (r_last _ _ _ Hr); done).
  exists c'. rewrite Hl in H3, H4. by split_and!.
Qed.

(** Ledger [n] can be had: it will come from the pipe; or it is the cached one, and
    the next can be had unless the range ends. *)
Definition coming (c : Captive) (ran : Range) (n : Z) : Prop :=
  exists p, ready c ran p /\ 2 <= p <= n /\ nextExpectedSequence c <= n.
Definition had (c : Captive) (ran : Range) (n : Z) : Prop :=
  cachedMeta c = Some (ledger_at n) /\ lastLedger c = (if bounded ran then Some (to ran) else None) /\
  (lastLedger c <> Some n -> coming c ran (n + 1)).

Lemma GetLedger_delivers fuel ran c n : coming c ran n \/ had c ran n -> 2 <= n -> n + 1 < 2 ^ 32 ->
  (bounded ran = true -> n <= to ran) -> (Z.to_nat n < fuel)%nat ->
  exists c', GetLedger fuel n c = (Ok (ledger_at n), c') /\ had c' ran n.
Proof.
  intros Hc Hn Hhi Hb Hf. pose proof (hc_sequence _ HC n ltac:(lia)) as Hseq. unfold GetLedger, mbind, M_bind, get, cached_ledger.
  destruct Hc as [(p & Hr & Hp & Hx)|Hh]; cycle 1.
  { pose proof Hh as [Hc _]. rewrite Hc, Hseq, Z.eqb_refl. by exists c. }
  assert (Hhad : cachedMeta c = Some (ledger_at n) -> had c ran n).
  { intros Hc. split; [done|]. split; [by apply (r_last _ _ _ Hr)|]. intros _. exists p. split; [done|]. lia. }
  assert (Hloop : exists c', get_loop fuel n c = (Ok (ledger_at n), c') /\ had c' ran n).
  { destruct (get_loop_delivers ran n Hhi Hb fuel c p Hr Hp ltac:(lia)) as (c' & E1 & E2 & E3 & E4). exists c'. split; [done|].
    split; [done|]. split; [rewrite E3; by apply (r_last _ _ _ Hr)|]. rewrite E3. intros Hl. destruct (E4 Hl) as [Hr' Hnl].
    exists (n + 1). split; [done|]. split; [lia|]. unfold nextExpectedSequence. rewrite (r_prepared _ _ _ Hr'), Hnl.
    by rewrite (proj2 (Z.eqb_neq (n + 1) 0)) by lia. }
  assert (Hguards : exists c', (if closed c then fail "hcnet-core is no longer usable"
      else if negb (is_some (prepared c)) then fail "session is not prepared, call PrepareRange first"
      else if negb (hasRunner c) then fail "hcnet-core cannot be nil, call PrepareRange first"
      else if n <? nextExpectedSequence c then fail "requested ledger is behind the captive core stream"
      else if match lastLedger c with Some l => l <? n | None => false end then fail "reading past bounded range"
      else get_loop fuel n) c = (Ok (ledger_at n), c') /\ had c' ran n).
  { rewrite (r_open _ _ _ Hr), (r_runner _ _ _ Hr), (r_prepared _ _ _ Hr). cbn [is_some negb]. rewrite (proj2 (Z.ltb_ge n _)) by lia.
    rewrite (r_last _ _ _ Hr). destruct (bounded ran); [|done]. by rewrite (proj2 (Z.ltb_ge _ n)) by (by apply Hb). }
  destruct (cachedMeta c) as [m|] eqn:Hcm; [|done]. destruct (Z.eqb_spec n (LedgerSequence m)) as [Heq|]; [|done].
  pose proof (r_chain _ _ _ Hr m Hcm) as Hm. rewrite <- Heq in Hm. exists c. split; [by rewrite Hm|]. apply Hhad. by rewrite Hm.
Qed.

Lemma gets_deliver fuel ran k : forall c n, coming c ran n \/ had c ran n -> 2 <= n -> n + Z.of_nat k < 2 ^ 32 ->
  (bounded ran = true -> n + Z.of_nat k - 1 <= to ran) -> (Z.to_nat (n + Z.of_nat k) <= fuel)%nat ->
  (gets fuel (inl <$> seqZ n (Z.of_nat k)) c).1 = (fun i => (i, Ok (ledger_at i))) <$> seqZ n (Z.of_nat k).
Proof.
  induction k as [|k IH]; intros c n Hc Hn Hhi Hb Hf; [done|]. rewrite seqZ_cons by lia. cbn [fmap list_fmap gets].
  destruct (GetLedger_delivers fuel ran c n Hc Hn) as (c1 & -> & Hhad); [lia|intros H; specialize (Hb H); lia|lia|].
  replace (Z.pred (Z.of_nat (S k))) with (Z.of_nat k) by lia. replace (Z.succ n) with (n + 1) by lia.
  destruct k as [|k]; [done|]. specialize (IH c1 (n + 1)).
  destruct (gets fuel (inl <$> seqZ (n + 1) (Z.of_nat (S k))) c1) as [rs c2] eqn:Hg. cbn [fst] in *. f_equal. apply IH; [|lia|lia| |].
  - left. apply Hhad. destruct Hhad as (_ & -> & _). destruct (bounded ran) eqn:Hbr; [|done]. specialize (Hb eq_refl). intros [= ?]. lia.
  - intros H. specialize (Hb H). lia.
  - lia.
Qed.

(** ** Preparing a range *)

(** The ranges that can be prepared: bounded ranges up to the latest checkpoint,
    and unbounded ones that begin at most two checkpoints after it. *)
Definition can_prepare (r : Range) : Prop :=
  2 <= from r /\ if bounded r then from r <= to r /\ to r <= latest else from r <= latest + 2 * Checkpoints.checkpointFreq mgr.

Context (Hfreq : 4 <= Checkpoints.checkpointFreq mgr < 2 ^ 30)
  (Hlatest : Checkpoints.checkpointFreq mgr - 1 <= latest < 2 ^ 32 - 4 * Checkpoints.checkpointFreq mgr).

Lemma first_checkpoint : Checkpoints.GetCheckpoint mgr 0 = Ok (Checkpoints.checkpointFreq mgr - 1).
Proof. cbn. unfold to_uint32, uwrap. by rewrite Z.mod_small by lia. Qed.

Lemma latest_Ok (c : Captive) : exists w, wrap getLatestCheckpointSequence "error getting latest checkpoint sequence" c = (Ok latest, set_world w c).
Proof.
  unfold getLatestCheckpointSequence, wrap, ask. destruct (hc_root _ HC (world c)) as (w & ->). by exists w.
Qed.

(** A run begins at a ledger from which the process streams the first ledger of the
    range, and with its hash. *)
Lemma runFromParams_Ok n (c : Captive) : checkpointManager c = mgr -> useDB c = has_db ->
  2 <= n <= latest + 2 * Checkpoints.checkpointFreq mgr ->
  exists rf h w, runFromParams n c = (Ok (rf, h), set_world w c) /\ 1 < rf /\
    (h = hex (LedgerHash (ledger_at rf)) \/ has_db = true) /\
    ((n < Checkpoints.checkpointFreq mgr /\ rf + 1 = 3) \/ (Checkpoints.checkpointFreq mgr <= n /\ rf + 1 <= n)).
Proof.
  intros Hm Hdb Hn. unfold runFromParams. rewrite (proj2 (Z.eqb_neq n 1)) by lia. unfold mbind, M_bind, get, pure. rewrite Hm, first_checkpoint.
  set (n' := if n <=? _ then 3 else n).
  assert (Hn' : 3 <= n' <= latest + 2 * Checkpoints.checkpointFreq mgr /\
    ((n < Checkpoints.checkpointFreq mgr /\ n' = 3) \/ (Checkpoints.checkpointFreq mgr <= n /\ n' = n))).
  { subst n'. destruct (Z.leb_spec n (Checkpoints.checkpointFreq mgr - 1)); lia. }
  destruct (latest_Ok c) as [w ->]. set (c1 := set_world w c).
  assert (Hmax : to_uint32 (latest + to_uint32 (to_uint32 (Checkpoints.checkpointFreq mgr - 1 + 1) * 2)) = latest + 2 * Checkpoints.checkpointFreq mgr).
  { unfold to_uint32, uwrap. rewrite (Z.mod_small (Checkpoints.checkpointFreq mgr - 1 + 1)) by lia.
    rewrite (Z.mod_small ((Checkpoints.checkpointFreq mgr - 1 + 1) * 2)) by lia. rewrite Z.mod_small by lia. lia. }
  rewrite Hmax. rewrite Z.gtb_ltb, (proj2 (Z.ltb_ge _ n')) by lia.
  assert (Hrf : to_uint32 (n' - 1) = n' - 1) by (unfold to_uint32, uwrap; apply Z.mod_small; lia).
  assert (Harch : forall w1, exists rf h w2, run_from_archive latest n' (set_world w1 c) = (Ok (rf, h), set_world w2 c) /\ 1 < rf /\
    (h = hex (LedgerHash (ledger_at rf)) \/ has_db = true) /\
    ((n < Checkpoints.checkpointFreq mgr /\ rf + 1 = 3) \/ (Checkpoints.checkpointFreq mgr <= n /\ rf + 1 <= n))).
  { intros w1. unfold run_from_archive, mbind, M_bind, wrap, ask. set (n'' := if _ : bool then latest else n').
    assert (Hn'' : 3 <= n'' <= n' /\ n'' <= latest /\ (n' = 3 -> n'' = 3)).
    { subst n''. rewrite !Z.gtb_ltb. rewrite (proj2 (Z.ltb_lt 0 latest)) by lia. cbn [andb].
      destruct (Z.ltb_spec latest n'); lia. }
    destruct (hc_header _ HC n'' (world (set_world w1 c))) as (w2 & ->); [lia|].
    exists (n'' - 1), (hex (PreviousLedgerHash (ledger_at n''))), w2.
    split; [unfold to_uint32, uwrap; by rewrite Z.mod_small by lia|]. split; [lia|]. split; [left|lia].
    pose proof (hc_hash _ HC (n'' - 1)) as Hh. replace (n'' - 1 + 1) with n'' in Hh by lia. by rewrite Hh. }
  rewrite Hdb. destruct has_db eqn:Edb; [exists (n' - 1), EmptyString, w; rewrite Hrf; split; [done|]; split; [lia|]; split; [by right|lia]|].
  destruct (hasHashStore c); [|apply Harch]. unfold wrap, ask.
  destruct (hc_store _ HC (to_uint32 (n' - 1)) (world c1)) as (o & w1 & -> & Ho). cbn [Wrap]. destruct o as [h|]; [|apply Harch].
  exists (n' - 1), h, w1. rewrite Hrf in *. split; [done|]. split; [lia|]. split; [left; by apply Ho|lia].
Qed.

(** The range that a session remembers. *)
Definition session_range (r : Range) : Range := if bounded r then BoundedRange (from r) (to r) else UnboundedRange (from r).

(** A back end that is open, is told whether the process has a database, and whose
    cache holds a ledger of the network. *)
Definition usable (c : Captive) : Prop :=
  closed c = false /\ checkpointManager c = mgr /\ useDB c = has_db /\ forall m, cachedMeta c = Some m -> m = ledger_at (LedgerSequence m).

Lemma close_existing_Ok c : exists w, close_existing c = (Ok tt, set_world w c).
Proof.
  unfold close_existing, mbind, M_bind, get. destruct (hasRunner c); [|exists (world c); by destruct c].
  unfold wrap, ask_error. destruct (hc_close _ HC (world c)) as (w & e & -> & He). exists w. cbn [Wrap set_world world]. by rewrite He.
Qed.

(** The code and the process agree on the first ledger of a replay. *)
Lemma first_replay n : 2 <= n ->
  let low := Z.max 1 (Checkpoints.next (Checkpoints.checkpointFreq mgr) n - Checkpoints.checkpointFreq mgr + 1) in
  (if low <=? 1 then Ok 2 else Ok low) = Ok (Z.max 2 (Checkpoints.checkpointFreq mgr * (n / Checkpoints.checkpointFreq mgr))).
Proof.
  intros Hn low. assert (Hlow : low = Z.max 1 (Checkpoints.checkpointFreq mgr * (n / Checkpoints.checkpointFreq mgr)))
    by (unfold low, Checkpoints.next; f_equal; lia).
  assert (Hq : 0 <= n / Checkpoints.checkpointFreq mgr) by (apply Z.div_pos; lia).
  rewrite Hlow. destruct (Z.leb_spec (Z.max 1 (Checkpoints.checkpointFreq mgr * (n / Checkpoints.checkpointFreq mgr))) 1); f_equal; nia.
Qed.

Lemma offline_ready r c : usable c -> can_prepare r -> bounded r = true ->
  exists c1 p, openOfflineReplaySubprocess (from r) (to r) c = (Ok tt, c1) /\ ready c1 (session_range r) p /\ 2 <= p <= from r /\
    nextExpectedSequence c1 <= from r.
Proof.
  intros (Ho & Hm & Hdb & Hcache) [H2 Hr] Hb. rewrite Hb in Hr. unfold openOfflineReplaySubprocess, mbind, M_bind.
  destruct (latest_Ok c) as [w ->]. rewrite !Z.gtb_ltb, !(proj2 (Z.ltb_ge latest _)) by lia. cbn [set_runner].
  unfold wrap at 1, ask_error at 1.
  set (c1 := mkCaptive _ _ _ _ _ _ _ _ _ _ _). destruct (hc_catchup _ HC (from r) (to r) (world c1)) as (w1 & -> & Hrun & Hlim & Hpos); [lia..|].
  cbn [Wrap get pure]. unfold roundDownToFirstReplayAfterCheckpointStart. cbn [set_world checkpointManager c1]. rewrite Hm.
  assert (Hv : Checkpoints.valid mgr) by (unfold Checkpoints.valid; lia).
  pose proof (Checkpoints.next_bounds (Checkpoints.checkpointFreq mgr) (from r) ltac:(lia)) as Hnb.
  assert (Hrange := Checkpoints.GetCheckpointRange_value mgr (from r) Hv ltac:(unfold in_uint; lia) ltac:(unfold MaxUint32; lia)).
  rewrite Hrange, bind_Ok_l. cbn [Checkpoints.Low] in *.
  set (p := position w1) in *. pose proof (first_replay (from r) ltac:(lia)) as Hfirst. rewrite <- Hpos in Hfirst.
  assert (Hp : 2 <= p <= from r).
  { rewrite Hpos. pose proof (Z.mul_div_le (from r) (Checkpoints.checkpointFreq mgr) ltac:(lia)). lia. }
  rewrite Hfirst.
  eexists _, p. split; [reflexivity|]. unfold session_range. rewrite Hb.
  split; [split; try done; left; split; [done|]; split; [cbn; lia|by right]|]. split; [done|].
  unfold nextExpectedSequence. cbn. rewrite (proj2 (Z.eqb_neq p 0)) by lia. lia.
Qed.

Lemma online_ready r c : usable c -> can_prepare r -> bounded r = false ->
  exists c1 p, openOnlineReplaySubprocess (from r) c = (Ok tt, c1) /\ ready c1 (session_range r) p /\ 2 <= p <= from r /\
    nextExpectedSequence c1 <= from r.
Proof.
  intros (Ho & Hm & Hdb & Hcache) [H2 Hr] Hb. rewrite Hb in Hr. unfold openOnlineReplaySubprocess, mbind, M_bind.
  destruct (runFromParams_Ok (from r) c Hm Hdb ltac:(lia)) as (rf & h & w & Hrf & Hlo & Hh & Hcase).
  unfold wrap at 1. rewrite Hrf. cbn [Wrap set_runner]. unfold wrap at 1, ask_error at 1. set (c1 := mkCaptive _ _ _ _ _ _ _ _ _ _ _).
  destruct (hc_runFrom _ HC rf h (world c1) ltac:(lia) Hh) as (w1 & -> & Hrun & Hlim & Hpos & Hfirst). cbn [Wrap set_session].
  set (p := position w1) in *. assert (Hp : 2 <= p <= from r) by (destruct Hcase as [[? ?]|[? ?]]; lia).
  eexists _, p. split; [reflexivity|]. unfold session_range. rewrite Hb.
  split; [split; try done; left; split; [done|]; split; [cbn; lia|by left]|]. split; [done|]. unfold nextExpectedSequence. cbn. lia.
Qed.

Lemma PrepareRange_Ok fuel r c : usable c -> can_prepare r -> isPrepared c r = false -> (Z.to_nat (from r) < fuel)%nat ->
  exists c1, PrepareRange fuel r c = (Ok tt, c1) /\ had c1 (session_range r) (from r).
Proof.
  intros Hu Hr Hnew Hf. unfold PrepareRange, startPreparingRange.
  assert (Hstart : exists c1 p, startPreparingRange r c = (Ok false, c1) /\ ready c1 (session_range r) p /\ 2 <= p <= from r /\
    nextExpectedSequence c1 <= from r).
  { unfold startPreparingRange, mbind, M_bind, get. rewrite Hnew. destruct (close_existing_Ok c) as [w ->].
    assert (Hu' : usable (set_world w c)) by done. unfold wrap. destruct (bounded r) eqn:Hb.
    - destruct (offline_ready r (set_world w c) Hu' Hr Hb) as (c1 & p & -> & H). by exists c1, p.
    - destruct (online_ready r (set_world w c) Hu' Hr Hb) as (c1 & p & -> & H). by exists c1, p. }
  destruct Hstart as (c1 & p & Hs & Hready & Hp & Hx). fold (startPreparingRange r).
  unfold mbind, M_bind, wrap at 1. rewrite Hs. cbn [Wrap get]. unfold get. rewrite (r_prepared _ _ _ Hready).
  assert (Hfrom : from (session_range r) = from r) by (unfold session_range; by destruct (bounded r)). rewrite Hfrom.
  destruct Hr as [H2 Hr].
  assert (Hhi : from r + 1 < 2 ^ 32) by (destruct (bounded r); lia).
  destruct (GetLedger_delivers fuel (session_range r) c1 (from r)) as (c2 & Hg & Hhad); [left; by exists p|lia|done| |lia|].
  { unfold session_range. destruct (bounded r); [cbn; lia|done]. }
  destruct fuel as [|fuel]; [lia|]. cbn [seek_loop]. rewrite Z.leb_refl. unfold mbind, M_bind, wrap. rewrite Hg. cbn [Wrap].
  assert (Hsucc : to_uint32 (from r + 1) = from r + 1) by (unfold to_uint32, uwrap; apply Z.mod_small; lia). rewrite Hsucc.
  rewrite (proj2 (Z.leb_gt (from r + 1) (from r))) by lia. by exists c2.
Qed.

(** C16: With a hcnet-core that streams the ledgers of the network ([healthy_core]:
    it has to be started with the hash of the ledger before, and the archive has no
    headers after its latest checkpoint), preparing a range that is allowed
    succeeds, also on a back end that has been used before and also when the range
    begins after the latest checkpoint, and then [GetLedger] delivers the ledgers
    of the range one after the other: all of them when it is bounded, and any number
    when it is not. *)
Theorem captive_delivers (fuel : nat) (r : Range) (c : Captive) (k : nat)
    (Hu : usable c) (Hr : can_prepare r) (Hnew : isPrepared c r = false)
    (Hk : if bounded r then from r + Z.of_nat k <= to r + 1 else from r + Z.of_nat k < 2 ^ 32)
    (Hfuel : (Z.to_nat (from r + Z.of_nat k) < fuel)%nat) :
  exists c1, PrepareRange fuel r c = (Ok tt, c1) /\
    (gets fuel (inl <$> seqZ (from r) (Z.of_nat k)) c1).1 = (fun n => (n, Ok (ledger_at n))) <$> seqZ (from r) (Z.of_nat k).
Proof.
  destruct (PrepareRange_Ok fuel r c Hu Hr Hnew ltac:(lia)) as (c1 & Hp & Hhad). exists c1. split; [done|].
  destruct Hr as [H2 Hr]. apply (gets_deliver fuel (session_range r)); [by right|done| | |lia].
  - destruct (bounded r); lia.
  - unfold session_range. destruct (bounded r); [|done]. cbn. lia.
Qed.

End Healthy.

End Proofs.

(** ** A small network *)

(** A process that streams ledgers which carry their number as their hash: the next
    ledger, the end of the stream, and whether the process runs.  It refuses a wrong
    hash, and ends a replay with the range; the archive ends at ledger 127. *)
Module Demo.
Abbreviation World := (Z * option Z * bool)%type.
Abbreviation DemoMeta := (LedgerCloseMeta unit unit).

Definition ledger_at (n : Z) : DemoMeta := MetaV1 (mkEntry [to_uint32 n] (mkLedgerHeader 20 [to_uint32 (n - 1)] [] (to_uint32 n))) tt.
Definition mgr : Checkpoints.CheckpointManager := Checkpoints.NewCheckpointManager 64.
Definition latest : Z := 127.

Definition streams (w : World) : bool := w.2 && match w.1.2 with Some b => w.1.1 <=? b | None => true end.

#[global] Instance env : CoreEnv unit unit World := {|
  GetRootHAS w := (Ok latest, w);
  GetLedgerHeader n w := (if n <=? latest then Ok [to_uint32 (n - 1)] else Err "no such ledger", w);
  GetLedgerHash n w := (Ok None, w);
  store_Close w := w;
  new_runner w := w;
  catchup a b w := if b <=? latest then (None, (Z.max 2 (64 * (a / 64)), Some b, true)) else (Some "not in the archive", w);
  runFrom n h w :=
    if bool_decide (h = hex [to_uint32 n]) then (None, (if n + 1 <? 64 then 2 else n + 1, None, true)) else (Some "wrong hash", w);
  runner_context_Err w := None;
  getProcessExitError w := (negb w.2, None);
  receive w := if streams w then (FromPipe (Some (ledger_at w.1.1)) None true, (w.1.1 + 1, w.1.2, w.2)) else (FromPipe None None false, w);
  pipe_length w := 0;
  runner_close w := (None, (w.1, false));
  cancel w := w
|}.

Lemma healthy : healthy_core ledger_at latest false (fun w => w.1.1) (fun w => w.1.2) (fun w => w.2 = true) mgr.
Proof.
  split.
  - intros n Hn. unfold LedgerSequence, ledger_at, to_uint32, uwrap. cbn [header_of Header LedgerSeq]. rewrite Z.mod_mod by lia. by apply Z.mod_small.
  - intros n. unfold PreviousLedgerHash, LedgerHash, ledger_at. cbn [header_of Header Hash hdr_PreviousLedgerHash]. by rewrite Z.add_simpl_r.
  - intros w. by exists w.
  - intros n w Hn. exists w. cbn [GetLedgerHeader env]. by rewrite (proj2 (Z.leb_le n latest)) by lia.
  - intros n w. by exists None, w.
  - intros n h w Hn [->|]; [|done]. eexists. cbn [runFrom env]. rewrite bool_decide_true by done. split; [reflexivity|].
    split; [done|]. split; [done|]. cbn [fst snd]. change (Checkpoints.checkpointFreq mgr) with 64.
    destruct (Z.ltb_spec (n + 1) 64); lia.
  - intros a b w Ha Hb. eexists. cbn [catchup env]. rewrite (proj2 (Z.leb_le b latest)) by lia. done.
  - intros w Hw Hlim. cbn [receive env]. unfold streams. rewrite Hw. cbn [andb].
    assert (E : match w.1.2 with Some b => w.1.1 <=? b | None => true end = true).
    { destruct (w.1.2) as [b|]; [|done]. apply Z.leb_le. by apply Hlim. }
    rewrite E. eexists. split; [reflexivity|]. done.
  - done.
  - intros w. eexists _, None. split; reflexivity.
Qed.

Definition new : CaptiveHcnetCore unit unit World := mkCaptive mgr false false false None None false 0 None None (0, None, false).
Definition session_of (r : Range) : CaptiveHcnetCore unit unit World := (PrepareRange 100 r new).2.
End Demo.

Lemma captive_session_chain_witness : exists start (l : list (LedgerCloseMeta unit unit)), linked l /\ start_of (Demo.session_of (BoundedRange 66 68)) (BoundedRange 66 68) start /\
  match l with m :: _ => if start =? 0 then LedgerSequence m <= from (BoundedRange 66 68) else LedgerSequence m = start | [] => True end /\
  forall n m, (n, Ok m) ∈ (gets 100 [inl 67; inl 69; inl 68] (Demo.session_of (BoundedRange 66 68))).1 ->
    LedgerSequence m = n /\ (m ∈ l \/ cachedMeta Demo.new = Some m /\ n = from (BoundedRange 66 68)).
Proof.
  assert (Hprep : PrepareRange 100 (BoundedRange 66 68) Demo.new = (Ok tt, Demo.session_of (BoundedRange 66 68))) by (vm_compute; reflexivity).
  set (c1 := Demo.session_of (BoundedRange 66 68)) in *. clearbody c1. destruct (gets 100 [inl 67; inl 69; inl 68] c1) as [rs c2] eqn:Hg.
  exact (captive_session_chain 100 (BoundedRange 66 68) Demo.new c1 c2 [inl 67; inl 69; inl 68] rs eq_refl Hprep Hg).
Defined.

(** The two ledgers of the range are returned, and the one after it is refused. *)
Example demo_results : (gets 100 [inl 67; inl 69; inl 68] (Demo.session_of (BoundedRange 66 68))).1
  = [(67, Ok (Demo.ledger_at 67)); (69, Err "reading past bounded range"); (68, Ok (Demo.ledger_at 68))].
Proof. vm_compute. reflexivity. Qed.

Lemma captive_delivers_witness : exists c1, PrepareRange 300 (UnboundedRange 200) Demo.new = (Ok tt, c1) /\
  (gets 300 (inl <$> seqZ 200 (Z.of_nat 3)) c1).1 = (fun n => (n, Ok (Demo.ledger_at n))) <$> seqZ 200 (Z.of_nat 3).
Proof.
  apply (captive_delivers Demo.ledger_at Demo.latest false (fun w => w.1.1) (fun w => w.1.2) (fun w => w.2 = true) Demo.mgr Demo.healthy).
  - change (Checkpoints.checkpointFreq Demo.mgr) with 64. lia.
  - change (Checkpoints.checkpointFreq Demo.mgr) with 64. unfold Demo.latest. lia.
  - split; [reflexivity|]. split; [reflexivity|]. split; [reflexivity|]. intros m Hm. discriminate Hm.
  - split; [discriminate|]. vm_compute. discriminate.
  - reflexivity.
  - reflexivity.
  - apply Nat.ltb_lt. reflexivity.
Defined.

(** The exception of [captive_session_chain] happens: a session of another process
    ended with ledger 68; a session that begins at 68 returns that ledger, and then
    a ledger 69 that does not build on it. *)
Definition other_68 : LedgerCloseMeta unit unit := MetaV1 (mkEntry [200] (mkLedgerHeader 20 [67] [] 68)) tt.
Definition after_other : CaptiveHcnetCore unit unit (Z * option Z * bool) :=
  mkCaptive Demo.mgr false false true (Some other_68) (Some (BoundedRange 66 68)) false 69 (Some 68) (Some (hex [200])) (69, None, false).

Example cached_ledger_unlinked :
  let '(r, c1) := PrepareRange 100 (UnboundedRange 68) after_other in
  r = Ok tt /\ (gets 100 [inl 68; inl 69] c1).1 = [(68, Ok other_68); (69, Ok (Demo.ledger_at 69))] /\
  hex (PreviousLedgerHash (Demo.ledger_at 69)) <> hex (LedgerHash other_68).
Proof. vm_compute. split; [reflexivity|]. split; [reflexivity|]. discriminate. Qed.

End CaptiveProofs.
