(* ===== verification/CaptiveIngest.v ===== *)
(** * Ingestion on captive core

    The captive core back end implements the interface of ledger back ends that
    the ingestion state machine is verified against, as long as the process
    streams ledgers of the chain; so the database of a cluster whose nodes all run
    on captive cores agrees with the chain, whatever ranges they prepare, however
    their calls fail and whenever their processes stop. *)
From S2P Require Import Prelude Checkpoints HexText CaptiveCore CaptiveProofs HistoryDb IngestFsm IngestProofs IngestCluster.
Local Open Scope Z_scope.

Module CaptiveIngest.
Import HistoryDb IngestFsm IngestProofs IngestCluster.

Section Backend.
Context {BodyV0 BodyV1 W St Rows : Type} {EN : CaptiveCore.CoreEnv BodyV0 BodyV1 W}.
Abbreviation Meta := (CaptiveCore.LedgerCloseMeta BodyV0 BodyV1).
Abbreviation Captive := (CaptiveCore.CaptiveHcnetCore BodyV0 BodyV1 W).

#[global] Instance captive_meta : LedgerCloseMeta Meta := {
  LedgerSequence := CaptiveCore.LedgerSequence;
  ProtocolVersion := fun m => CaptiveCore.LedgerVersion (CaptiveCore.Header (CaptiveCore.header_of m));
  BucketListHash := fun m => CaptiveProofs.hex (CaptiveCore.hdr_BucketListHash (CaptiveCore.Header (CaptiveCore.header_of m)))
}.

Context {PR : ProcessorRunner St Rows Meta} {C : Chain St Rows Meta}.

Definition of_chain (m : Meta) : Prop := m = meta_of (CaptiveCore.LedgerSequence m).

(** The process may stop, skip, repeat or fail, but it sends no ledger that is not
    on the chain. *)
Class HonestCore : Prop :=
  honest : forall w m err ok w', CaptiveCore.receive w = (CaptiveCore.FromPipe (Some m) err ok, w') -> of_chain m.
Context {HN : HonestCore}.

Definition good (c : Captive) : Prop := forall m, CaptiveCore.cachedMeta c = Some m -> of_chain m.

(** ** Methods keep the cache on the chain *)

Definition keeps {A} (m : CaptiveCore.M A) (Q : A -> Prop) : Prop :=
  forall c : Captive, good c -> good (m c).2 /\ forall a, (m c).1 = Ok a -> Q a.

Lemma keeps_bind {A B} (m : CaptiveCore.M A) (f : A -> CaptiveCore.M B) P Q : keeps m P -> (forall a, P a -> keeps (f a) Q) -> keeps (m ≫= f) Q.
Proof.
  intros Hm Hf c Hc. unfold mbind, CaptiveCore.M_bind. destruct (Hm c Hc) as [H1 H2]. destruct (m c) as [[a|e|e] c1]; cbn [fst snd] in *; [|by split..].
  by apply (Hf a (H2 a eq_refl)).
Qed.
Lemma keeps_wrap {A} (m : CaptiveCore.M A) msg Q : keeps m Q -> keeps (CaptiveCore.wrap m msg) Q.
Proof.
  intros Hm c Hc. unfold CaptiveCore.wrap. destruct (Hm c Hc) as [H1 H2]. destruct (m c) as [[a|e|e] c1]; cbn [fst snd Wrap] in *; by split.
Qed.
Lemma keeps_ret {A} (a : A) (Q : A -> Prop) : Q a -> keeps (mret a) Q.
Proof. intros Ha c Hc. split; [done|]. by intros a' [= <-]. Qed.
Lemma keeps_weaken {A} (m : CaptiveCore.M A) (P Q : A -> Prop) : keeps m P -> (forall a, P a -> Q a) -> keeps m Q.
Proof. intros Hm HPQ c Hc. destruct (Hm c Hc) as [H1 H2]. split; [done|]. intros a Ha. by apply HPQ, H2. Qed.
Lemma keeps_err {A} (m : CaptiveCore.M A) Q : (forall c : Captive, CaptiveCore.cachedMeta (m c).2 = CaptiveCore.cachedMeta c /\ forall a, (m c).1 <> Ok a) -> keeps m Q.
Proof. intros Hm c Hc. destruct (Hm c) as [H1 H2]. split; [unfold good; by rewrite H1|]. intros a Ha. by apply H2 in Ha. Qed.
Lemma keeps_frame {A} (m : CaptiveCore.M A) : CaptiveProofs.frame m -> keeps m (fun _ => True).
Proof. intros Hm c Hc. destruct (m c) as [r c1] eqn:E. apply Hm in E as [E _]. split; [|done]. cbn. unfold good. by rewrite E. Qed.

Lemma keeps_close_with {A} e Q : keeps (CaptiveCore.close_with (A := A) e) Q.
Proof. apply keeps_err. intros c. unfold CaptiveCore.close_with. by destruct (CaptiveCore.runner_close _). Qed.
Lemma keeps_accept m : of_chain m -> keeps (CaptiveCore.accept m) (fun _ => True).
Proof. intros Hm c Hc. split; [|done]. by intros m' [= <-]. Qed.

(** A result of a read: the requested ledger of the chain. *)
Definition asked (n : Z) (m : Meta) : Prop := m = meta_of n.

Lemma keeps_handle n meta err ok : (forall m, meta = Some m -> of_chain m) ->
  keeps (CaptiveCore.handleMetaPipeResult n meta err ok) (fun o => forall m, o = Some m -> asked n m).
Proof.
  intros Hmeta. unfold CaptiveCore.handleMetaPipeResult. apply (keeps_bind _ _ (fun _ => True)); [apply keeps_frame, CaptiveProofs.frame_get|]. intros c _.
  destruct (CaptiveCore.checkMetaPipeResult c err ok); [apply keeps_close_with|].
  destruct meta as [m|]; [|by apply keeps_err]. destruct (CaptiveCore.prepared c); [|by apply keeps_err].
  do 3 (match goal with |- keeps (if ?b then _ else _) _ => destruct b; [apply keeps_close_with|] end).
  apply (keeps_bind _ _ (fun _ => True)); [by apply keeps_accept, Hmeta|]. intros _ _.
  destruct (Z.eqb_spec (CaptiveCore.LedgerSequence m) n) as [<-|]; [|by apply keeps_ret].
  apply (keeps_bind _ _ (fun _ => True)).
  - apply keeps_frame. apply CaptiveProofs.frame_if; [apply CaptiveProofs.frame_wrap, CaptiveProofs.frame_ask_error|apply CaptiveProofs.frame_ret].
  - intros _ _. apply keeps_ret. intros m' [= <-]. by apply Hmeta.
Qed.

Lemma keeps_loop n fuel : keeps (CaptiveCore.get_loop fuel n) (asked n).
Proof.
  induction fuel as [|fuel IH]; [by apply keeps_err|]. cbn [CaptiveCore.get_loop].
  apply (keeps_bind _ _ (fun r => forall m err ok, r = CaptiveCore.FromPipe (Some m) err ok -> of_chain m)).
  - intros c Hc. destruct (CaptiveCore.receive (CaptiveCore.world c)) as [r w] eqn:E. split; [done|]. intros a [= <-] m err ok ->. by eapply honest.
  - intros [e|meta err ok] Hr; [by apply keeps_err|]. eapply keeps_bind; [apply keeps_handle; intros m ->; by eapply Hr|].
    intros [m|] Hm; [|done]. apply keeps_ret. by apply Hm.
Qed.

Lemma keeps_GetLedger fuel n : keeps (CaptiveCore.GetLedger fuel n) (asked n).
Proof.
  intros c Hc. unfold CaptiveCore.GetLedger, mbind, CaptiveCore.M_bind, CaptiveCore.get, CaptiveCore.cached_ledger.
  assert (Hrest : forall e1 e2 e3 e4 e5 (b1 b2 b3 b4 b5 : bool), keeps (if b1 then CaptiveCore.fail e1 else if b2 then CaptiveCore.fail e2 else
    if b3 then CaptiveCore.fail e3 else if b4 then CaptiveCore.fail e4 else if b5 then CaptiveCore.fail e5 else CaptiveCore.get_loop fuel n) (asked n)).
  { intros. repeat case_match; try by apply keeps_err. apply keeps_loop. }
  destruct (CaptiveCore.cachedMeta c) as [m|] eqn:Hm; [|by apply Hrest].
  destruct (Z.eqb_spec n (CaptiveCore.LedgerSequence m)) as [->|]; [|by apply Hrest].
  split; [done|]. intros m' [= <-]. by apply (Hc m).
Qed.

Lemma keeps_PrepareRange fuel r : keeps (CaptiveCore.PrepareRange fuel r) (fun _ => True).
Proof.
  unfold CaptiveCore.PrepareRange. eapply keeps_bind; [apply keeps_wrap, keeps_frame, CaptiveProofs.frame_start|]. intros b _.
  destruct b; [by apply keeps_ret|]. eapply keeps_bind; [apply keeps_frame, CaptiveProofs.frame_get|]. intros c _.
  destruct (CaptiveCore.prepared c) as [ran|]; [|by apply keeps_err]. generalize (CaptiveCore.from ran), (S fuel). intros seq turns. revert seq.
  induction turns as [|turns IH]; intros seq; [by apply keeps_err|]. cbn [CaptiveCore.seek_loop].
  destruct (seq <=? CaptiveCore.from r); [|by apply keeps_ret]. eapply keeps_bind; [apply keeps_wrap, keeps_GetLedger|]. intros. apply IH.
Qed.

(** ** The back end of a node *)

(** A bound on the results that one call takes from the pipe. *)
Context (fuel : nat).

Definition backend_state : Type := { c : Captive | good c }.

Definition range_of (r : ledgerRange) : CaptiveCore.Range :=
  match r with UnboundedRange f => CaptiveCore.UnboundedRange f | BoundedRange f t => CaptiveCore.BoundedRange f t end.

Definition lift {A} (m : CaptiveCore.M A) {Q} (H : keeps m Q) (b : backend_state) : res A * backend_state :=
  ((m (`b)).1, (m (`b)).2 ↾ proj1 (H (`b) (proj2_sig b))).

#[global] Instance captive_backend : LedgerBackend Meta backend_state := {
  IsPrepared := fun r b => CaptiveCore.IsPrepared (range_of r) (`b);
  PrepareRange := fun r => lift _ (keeps_PrepareRange fuel (range_of r));
  GetLedger := fun n => lift _ (keeps_GetLedger fuel n);
  GetLatestLedgerSequence := fun b => CaptiveCore.GetLatestLedgerSequence (`b)
}.

(** The law that the state machine asks of a back end. *)
#[global] Instance captive_laws {RL : RunnerLaws St Rows Meta} : IngestLaws St Rows Meta backend_state.
Proof.
  split; [|done]. intros n b m b' H. cbn in H. unfold lift in H. injection H as H _.
  by apply (keeps_GetLedger fuel n (`b) (proj2_sig b)).
Qed.

(** C8: Aurora on captive core: a cluster of nodes, each with a captive core of its
    own whose process sends only ledgers of the chain but may stop, skip, repeat
    or fail at any time, never corrupts the shared database: the entries of the
    state tables are those of the chain after the last ingested ledger, and every
    history row is the one of the chain, without gaps unless ranges were reingested.
    The steps of the cluster are those of [cluster_step]. *)
Theorem captive_cluster_agrees {RL : RunnerLaws St Rows Meta} (strict : bool) (d : DB St Rows) (c : @cluster St Rows backend_state)
  (Hd : inv strict d) (Hr : rtc (cluster_step strict) (mkCluster d ∅) c) :
  (forall n, GetLastLedgerIngest (c_db c) = Ok n -> n <> 0 ->
     GetIngestVersion (c_db c) = Ok CurrentVersion -> entries (stateTables (c_db c)) = chain_state n) /\
  (forall n r, historyTables (c_db c) !! n = Some r -> r = chain_rows n) /\
  (strict = true -> convex (historyTables (c_db c))).
Proof.
  destruct (cluster_rtc_ok strict _ c Hr) as [[Hl Hs Hrows Hc] _]; [split; [done|apply map_Forall_empty]|].
  split; [done|]. split; [|done]. intros n r Hn. by apply Hrows.
Qed.

End Backend.

(** ** A node on a small network *)

Module Demo.
Import CaptiveProofs.Demo.
Abbreviation DMeta := (CaptiveCore.LedgerCloseMeta unit unit).

(** The processors write the number of the ledger; numbers that no ledger has are
    given a ledger that the processors refuse. *)
Definition no_ledger (n : Z) : DMeta := CaptiveCore.MetaV0 (CaptiveCore.mkEntry [] (CaptiveCore.mkLedgerHeader 0 [] [] n)) tt.
Definition number_of (m : DMeta) : option Z :=
  match m with CaptiveCore.MetaV0 _ _ => None | CaptiveCore.MetaV1 _ _ => Some (CaptiveCore.LedgerSequence m) end.

#[export] Instance chain : Chain (Z * Z) Z DMeta := {
  Entries := Z;
  entries := fst;
  chain_state := fun n => n;
  chain_rows := fun n => 10 * n;
  meta_of := fun n => if (0 <=? n) && (n <? 2 ^ 32) then ledger_at n else no_ledger n
}.

#[export] Instance runner : ProcessorRunner (Z * Z) Z DMeta := {
  empty_tables := (0, 0);
  RunGenesisStateIngestion := fun d => Done (set_state (1, 0) d);
  RunHistoryArchiveIngestion := fun n skip pv hash d =>
    if bool_decide (stateTables d = (0, 0)) then Done (Example.compact n (set_state (n, 0) d))
    else Failed "duplicate key" d true;
  RunTransactionProcessorsOnLedgers := fun ms d =>
    match mapM number_of ms with
    | Some ns =>
        if Example.all_fresh ns (historyTables d)
        then Done (set_history (insert_rows (fun n => 10 * n) ns (historyTables d)) d)
        else Failed "duplicate key" d true
    | None => Failed "not a ledger" d true
    end;
  RunAllProcessorsOnLedger := fun m d =>
    match number_of m with
    | Some n =>
        if Example.all_fresh [n] (historyTables d) && ((stateTables d).1 =? n - 1)
        then Done (Example.compact n (mkDB (key_value_store d) (n, n) (<[n := 10 * n]> (historyTables d))))
        else Failed "duplicate key" d true
    | None => Failed "not a ledger" d true
    end
}.

Lemma number_of_meta n k : number_of (meta_of n) = Some k -> k = n.
Proof.
  cbn [meta_of chain]. destruct ((0 <=? n) && (n <? 2 ^ 32)) eqn:E; [|done]. apply andb_prop in E as [E1 E2]. zbool. intros H.
  assert (Hseq : CaptiveCore.LedgerSequence (ledger_at n) = n) by (apply (CaptiveProofs.hc_sequence _ _ _ _ _ _ _ healthy); lia).
  cbn [number_of ledger_at] in H. fold (ledger_at n) in H. rewrite Hseq in H. by injection H as <-.
Qed.

Lemma numbers_of_meta ns : forall ks, mapM number_of (meta_of <$> ns) = Some ks -> ks = ns.
Proof.
  induction ns as [|n ns IH]; intros ks H; cbn [fmap list_fmap mapM] in H; [by injection H as <-|].
  apply bind_Some in H as (k & Hk & H). apply bind_Some in H as (ks' & Hks & [= <-]). apply number_of_meta in Hk as ->. by rewrite (IH ks' Hks).
Qed.

#[export] Instance demo_runner_laws : RunnerLaws (Z * Z) Z DMeta.
Proof.
  split.
  - intros d d' _ [= <-]. split_and!; [done..|by apply same_keys_refl].
  - intros n d d' Hd. cbn [RunHistoryArchiveIngestion runner]. rewrite bool_decide_eq_true_2 by done. intros [= <-].
    destruct (Example.compact_spec n (set_state (n, 0) d)) as (Hs & Hh & Hk).
    unfold built. rewrite Hs, Hh. split_and!; [done..|exact Hk].
  - intros n d d' H. cbn [RunAllProcessorsOnLedger runner] in H. destruct (number_of (meta_of n)) as [k|] eqn:Hk; [|done].
    apply number_of_meta in Hk as ->. destruct (Example.all_fresh [n] (historyTables d) && _) eqn:E; [|done]. apply andb_prop in E as [E _].
    injection H as <-.
    match goal with |- context [Example.compact n ?x] => destruct (Example.compact_spec n x) as (Hs & Hh & Hkv) end.
    rewrite Hs, Hh. split_and!; [|done|exact Hkv|done]. eapply Example.all_fresh_spec; [exact E|]. by left.
  - intros ns d d' H. cbn [RunTransactionProcessorsOnLedgers runner] in H. destruct (mapM number_of (meta_of <$> ns)) as [ks|] eqn:Hk; [|done].
    apply numbers_of_meta in Hk as ->. destruct (Example.all_fresh ns (historyTables d)) eqn:E; [|done]. injection H as <-.
    split; [|done]. by apply Example.all_fresh_spec.
  - intros ms e d d'. cbn [RunTransactionProcessorsOnLedgers runner]. repeat case_match; done.
Qed.

#[export] Instance demo_honest : HonestCore (St := Z * Z) (Rows := Z) (W := Z * option Z * bool).
Proof.
  intros w m err ok w'. cbn [CaptiveCore.receive env]. destruct (streams w); [|done]. intros [= <- _ _ _].
  unfold of_chain. cbn [meta_of chain]. set (p := w.1.1). assert (Hseq : CaptiveCore.LedgerSequence (ledger_at p) = to_uint32 p).
  { unfold CaptiveCore.LedgerSequence, ledger_at, to_uint32, uwrap. cbn. apply Z.mod_mod. lia. }
  rewrite Hseq. assert (Hr : 0 <= to_uint32 p < 2 ^ 32) by (apply Z.mod_pos_bound; lia).
  rewrite (proj2 (Z.leb_le 0 _)) by lia. rewrite (proj2 (Z.ltb_lt _ (2 ^ 32))) by lia. cbn [andb].
  unfold ledger_at, to_uint32, uwrap. rewrite Z.mod_mod by lia. by rewrite Zminus_mod_idemp_l.
Qed.

Definition start : backend_state (St := Z * Z) (Rows := Z) (W := Z * option Z * bool).
Proof. exists new. intros m Hm. discriminate Hm. Defined.

Lemma captive_fresh_inv strict : inv (Meta := DMeta) strict Example.fresh.
Proof. destruct (Example.fresh_inv strict) as [H1 H2 H3 H4]. by split. Qed.
End Demo.
Import Demo.

Lemma captive_cluster_agrees_witness :
  exists d b, play Example.sys (LB := captive_backend 200) Example.story (startState 0) Example.fresh Demo.start = Some (d, resumeState 128, b) /\
    GetLastLedgerIngest d = Ok 128 /\ entries (stateTables d) = 128 /\ convex (historyTables d).
Proof.
  assert (Hview : (fun x => (GetLastLedgerIngest x.1.1, GetIngestVersion x.1.1, x.1.2)) <$>
      play Example.sys (LB := captive_backend 200) Example.story (startState 0) Example.fresh Demo.start
    = Some (Ok 128, Ok CurrentVersion, resumeState 128)) by (vm_compute; reflexivity).
  destruct (play Example.sys (LB := captive_backend 200) Example.story (startState 0) Example.fresh Demo.start) as [[[d n] b]|] eqn:Hp; [|discriminate Hview].
  injection Hview as Hl Hv Hn. cbn [fst snd] in Hl, Hv, Hn. subst n. exists d, b. split; [reflexivity|]. split; [exact Hl|].
  destruct (captive_cluster_agrees 200 true Example.fresh (alone Example.sys (resumeState 128) d b) (Demo.captive_fresh_inv true)
    (play_from_empty (LB := captive_backend 200) Example.sys Example.story Example.fresh Demo.start d (resumeState 128) b Example.story_ok Hp)) as (Hs & _ & Hc).
  split; [|by apply Hc]. by apply Hs.
Defined.
End CaptiveIngest.
