(* ===== verification/LedgerReader.v ===== *)
(** * Readers of the transactions and changes of a ledger
      (ingest/ledger_transaction_reader.go, ledger_transaction.go,
      ledger_change_reader.go, xdr/ledger_close_meta.go)

    A [LedgerTransactionReader] matches the results of a ledger with the envelopes
    of its transaction set by their hashes; a [LedgerChangeReader] streams the
    changes of the ledger entries: those of the fees, then those of the
    transactions, then evictions and upgrades.  The meta of a ledger is that of
    [CaptiveCore], with the fields that the readers use. *)
From S2P Require Import Prelude LedgerKeys Compactor XdrCodec Muxed Keypair Transactions CaptiveCore.
Local Open Scope Z_scope.
Import LedgerKeys.

Module LedgerReader.

Section Readers.
Context {XE : XdrEncoder} {ScVal : Type} {Body : LedgerEntryType -> Type} {SO : ScValOps ScVal}.
Context {XC : XdrCodec.XdrCodec} {OPS : Transactions.Operations} {TH : Transactions.TxHashing} {ResultBody : Type}.
Abbreviation LedgerEntryChanges := (list (Compactor.LedgerEntryChange ScVal Body)).
Abbreviation Change := (Compactor.Change ScVal Body).
Abbreviation LedgerEntry := (LedgerKeys.LedgerEntry ScVal Body).
Abbreviation TransactionEnvelope := Transactions.TransactionEnvelope.

(** ** The meta of a ledger *)

(** A result: the hash of the transaction, the code, and the rest. *)
Record TransactionResultPair := mkResultPair { pair_TransactionHash : list Z; ResultCode : Z; ResultRest : ResultBody }.

Record OperationMeta := mkOperationMeta { op_Changes : LedgerEntryChanges }.

(** The versions of the meta of a transaction; those after 3 are unknown. *)
Inductive TransactionMeta :=
| TxMetaV0 (Operations : list OperationMeta)
| TxMetaV1 (TxChanges : LedgerEntryChanges) (Operations : list OperationMeta)
| TxMetaV2 (TxChangesBefore : LedgerEntryChanges) (Operations : list OperationMeta) (TxChangesAfter : LedgerEntryChanges)
| TxMetaV3 (TxChangesBefore : LedgerEntryChanges) (Operations : list OperationMeta) (TxChangesAfter : LedgerEntryChanges)
| TxMetaUnknown (v : Z).

Definition TxMeta_V (m : TransactionMeta) : Z :=
  match m with TxMetaV0 _ => 0 | TxMetaV1 _ _ => 1 | TxMetaV2 _ _ _ => 2 | TxMetaV3 _ _ _ => 3 | TxMetaUnknown v => v end.

Record TransactionResultMeta := mkResultMeta {
  rm_Result : TransactionResultPair;
  rm_FeeProcessing : LedgerEntryChanges;
  rm_TxApplyProcessing : TransactionMeta
}.

Record UpgradeEntryMeta := mkUpgradeEntryMeta { up_Changes : LedgerEntryChanges }.

(** The body of the first version, and that of the second, in which the
    transactions are in the components of phases; pointers may be nil. *)
Record LedgerCloseMetaV0 := mkBodyV0 {
  v0_Txs : list TransactionEnvelope;
  v0_TxProcessing : list TransactionResultMeta;
  v0_UpgradesProcessing : list UpgradeEntryMeta
}.

Record TxSetComponent := mkTxSetComponent { TxsMaybeDiscountedFee : option (list TransactionEnvelope) }.
Record TransactionPhase := mkTransactionPhase { V0Components : option (list TxSetComponent) }.

Record LedgerCloseMetaV1 := mkBodyV1 {
  v1_Phases : option (list TransactionPhase);
  v1_TxProcessing : list TransactionResultMeta;
  v1_UpgradesProcessing : list UpgradeEntryMeta;
  v1_EvictedTemporaryLedgerKeys : list (LedgerKeys.LedgerKey ScVal);
  v1_EvictedPersistentLedgerEntries : list LedgerEntry
}.

Abbreviation LedgerCloseMeta := (CaptiveCore.LedgerCloseMeta LedgerCloseMetaV0 LedgerCloseMetaV1).

Definition ProtocolVersion (l : LedgerCloseMeta) : Z := to_uint32 (CaptiveCore.LedgerVersion (CaptiveCore.Header (CaptiveCore.header_of l))).

Definition TxProcessing (l : LedgerCloseMeta) : list TransactionResultMeta :=
  match l with CaptiveCore.MetaV0 _ b => v0_TxProcessing b | CaptiveCore.MetaV1 _ b => v1_TxProcessing b end.

Definition CountTransactions (l : LedgerCloseMeta) : nat := length (TxProcessing l).

Fixpoint component_txs (cs : list TxSetComponent) : res (list TransactionEnvelope) :=
  match cs with
  | [] => Ok []
  | c :: cs => txs ← from_opt CaptiveCore.nil_pointer (TxsMaybeDiscountedFee c); rest ← component_txs cs; Ok (txs ++ rest)
  end.

Fixpoint phase_txs (ps : list TransactionPhase) : res (list TransactionEnvelope) :=
  match ps with
  | [] => Ok []
  | p :: ps => cs ← from_opt CaptiveCore.nil_pointer (V0Components p); txs ← component_txs cs; rest ← phase_txs ps; Ok (txs ++ rest)
  end.

Definition TransactionEnvelopes (l : LedgerCloseMeta) : res (list TransactionEnvelope) :=
  match l with
  | CaptiveCore.MetaV0 _ b => Ok (v0_Txs b)
  | CaptiveCore.MetaV1 _ b => phases ← from_opt CaptiveCore.nil_pointer (v1_Phases b); phase_txs phases
  end.

Definition out_of_range : string := "index out of range".
Definition processing (l : LedgerCloseMeta) (i : nat) : res TransactionResultMeta := from_opt out_of_range (TxProcessing l !! i).

Definition TransactionHash (l : LedgerCloseMeta) (i : nat) : res (list Z) := p ← processing l i; Ok (pair_TransactionHash (rm_Result p)).
Definition LCM_TransactionResultPair (l : LedgerCloseMeta) (i : nat) : res TransactionResultPair := p ← processing l i; Ok (rm_Result p).
Definition FeeProcessing (l : LedgerCloseMeta) (i : nat) : res LedgerEntryChanges := p ← processing l i; Ok (rm_FeeProcessing p).

Definition TxApplyProcessing (l : LedgerCloseMeta) (i : nat) : res TransactionMeta :=
  p ← processing l i;
  match l with
  | CaptiveCore.MetaV0 _ _ => Ok (rm_TxApplyProcessing p)
  | CaptiveCore.MetaV1 _ _ =>
      if negb (TxMeta_V (rm_TxApplyProcessing p) =? 3)
      then Panic "TransactionResult unavailable because LedgerCloseMeta.V = 1 and TransactionMeta.V != 3"
      else Ok (rm_TxApplyProcessing p)
  end.

Definition UpgradesProcessing (l : LedgerCloseMeta) : list UpgradeEntryMeta :=
  match l with CaptiveCore.MetaV0 _ b => v0_UpgradesProcessing b | CaptiveCore.MetaV1 _ b => v1_UpgradesProcessing b end.

Definition EvictedTemporaryLedgerKeys (l : LedgerCloseMeta) : list (LedgerKeys.LedgerKey ScVal) :=
  match l with CaptiveCore.MetaV0 _ _ => [] | CaptiveCore.MetaV1 _ b => v1_EvictedTemporaryLedgerKeys b end.

Definition EvictedPersistentLedgerEntries (l : LedgerCloseMeta) : list LedgerEntry :=
  match l with CaptiveCore.MetaV0 _ _ => [] | CaptiveCore.MetaV1 _ b => v1_EvictedPersistentLedgerEntries b end.

(** ** Transactions *)

Record LedgerTransaction := mkLedgerTransaction {
  Index : Z;
  Envelope : TransactionEnvelope;
  tx_Result : TransactionResultPair;
  FeeChanges : LedgerEntryChanges;
  UnsafeMeta : TransactionMeta;
  LedgerVersion : Z
}.

Definition TxInternalError : Z := -11.
Definition txInternalError (t : LedgerTransaction) : bool := ResultCode (tx_Result t) =? TxInternalError.

Definition GetFeeChanges (t : LedgerTransaction) : res (list Change) := Compactor.GetChangesFromLedgerEntryChanges (FeeChanges t).

(** The loop over the metas of operations. *)
Fixpoint op_changes (ops : list OperationMeta) : res (list Change) :=
  match ops with
  | [] => Ok []
  | op :: ops => cs ← Compactor.GetChangesFromLedgerEntryChanges (op_Changes op); rest ← op_changes ops; Ok (cs ++ rest)
  end.

Definition changes_v2 (t : LedgerTransaction) (before : LedgerEntryChanges) (ops : list OperationMeta) (after : LedgerEntryChanges) : res (list Change) :=
  txChangesBefore ← Compactor.GetChangesFromLedgerEntryChanges before;
  if txInternalError t && (LedgerVersion t <=? 12) then Ok txChangesBefore else
  opChanges ← op_changes ops;
  txChangesAfter ← Compactor.GetChangesFromLedgerEntryChanges after;
  Ok (txChangesBefore ++ opChanges ++ txChangesAfter).

Definition GetChanges (t : LedgerTransaction) : res (list Change) :=
  match UnsafeMeta t with
  | TxMetaV0 _ => Err "TransactionMeta.V=0 not supported"
  | TxMetaV1 txChanges ops =>
      txChanges ← Compactor.GetChangesFromLedgerEntryChanges txChanges;
      if txInternalError t && (LedgerVersion t <=? 12) then Ok txChanges else
      opChanges ← op_changes ops;
      Ok (txChanges ++ opChanges)
  | TxMetaV2 before ops after => changes_v2 t before ops after
  | TxMetaV3 before ops after => changes_v2 t before ops after
  | TxMetaUnknown _ => Err "Unsupported TransactionMeta version"
  end.

Definition GetOperation (t : LedgerTransaction) (index : Z) : res (option Transactions.xOperation) :=
  ops ← Transactions.env_Operations (Envelope t);
  Ok (ops !! Z.to_nat index).

Definition operationChanges (ops : list OperationMeta) (index : Z) : res (list Change) :=
  match ops !! Z.to_nat index with
  | None => Ok []
  | Some operationMeta => Compactor.GetChangesFromLedgerEntryChanges (op_Changes operationMeta)
  end.

Definition GetOperationChanges (t : LedgerTransaction) (operationIndex : Z) : res (list Change) :=
  if TxMeta_V (UnsafeMeta t) =? 0 then Err "TransactionMeta.V=0 not supported" else
  if txInternalError t && (LedgerVersion t <=? 12) then Ok [] else
  match UnsafeMeta t with
  | TxMetaV1 _ ops | TxMetaV2 _ ops _ | TxMetaV3 _ ops _ => operationChanges ops operationIndex
  | _ => Err "Unsupported TransactionMeta version"
  end.

(** ** The reader of transactions *)

Record LedgerTransactionReader := mkTxReader {
  ledgerCloseMeta : LedgerCloseMeta;
  transactions : list LedgerTransaction;
  readIdx : nat
}.

(** The envelopes by their hashes; a later one replaces an earlier one. *)
Fixpoint by_hash (networkPassphrase : string) (txs : list TransactionEnvelope) (byHash : gmap (list Z) TransactionEnvelope) :
    res (gmap (list Z) TransactionEnvelope) :=
  match txs with
  | [] => Ok byHash
  | tx :: txs =>
      hash ← Wrap (Transactions.HashTransactionInEnvelope tx networkPassphrase) "could not hash transaction in TxSet";
      by_hash networkPassphrase txs (<[hash := tx]> byHash)
  end.

Definition unknown_hash : error := "unknown tx hash in LedgerCloseMeta".
Definition old_meta : error :=
  "TransactionMeta.V=2 is required in protocol version older than version 10. Please process ledgers again using the latest hcnet-core version.".

(** One turn of the loop over the results. *)
Definition store_one (lcm : LedgerCloseMeta) (byHash : gmap (list Z) TransactionEnvelope) (i : nat) : res LedgerTransaction :=
  hash ← TransactionHash lcm i;
  match byHash !! hash with
  | None => Err unknown_hash
  | Some envelope =>
      old ← (if ProtocolVersion lcm <? 10 then
               meta ← TxApplyProcessing lcm i;
               if TxMeta_V meta <? 2 then fees ← FeeProcessing lcm i; Ok (0 <? Z.of_nat (length fees)) else Ok false
             else Ok false);
      if (old : bool) then Err old_meta else
      result ← LCM_TransactionResultPair lcm i;
      meta ← TxApplyProcessing lcm i;
      fees ← FeeProcessing lcm i;
      Ok (mkLedgerTransaction (to_uint32 (Z.of_nat i + 1)) envelope result fees meta
        (to_uint32 (CaptiveCore.LedgerVersion (CaptiveCore.Header (CaptiveCore.header_of lcm)))))
  end.

Fixpoint store_loop (lcm : LedgerCloseMeta) (byHash : gmap (list Z) TransactionEnvelope) (i n : nat) : res (list LedgerTransaction) :=
  match n with
  | O => Ok []
  | S n => tx ← store_one lcm byHash i; rest ← store_loop lcm byHash (S i) n; Ok (tx :: rest)
  end.

Definition storeTransactions (lcm : LedgerCloseMeta) (networkPassphrase : string) : res (list LedgerTransaction) :=
  txs ← TransactionEnvelopes lcm;
  byHash ← by_hash networkPassphrase txs ∅;
  store_loop lcm byHash 0 (CountTransactions lcm).

Definition NewLedgerTransactionReaderFromLedgerCloseMeta (networkPassphrase : string) (lcm : LedgerCloseMeta) : res LedgerTransactionReader :=
  txs ← Wrap (storeTransactions lcm networkPassphrase) "error extracting transactions from ledger close meta";
  Ok (mkTxReader lcm txs 0).

(** The back end is an interface: here its method [GetLedger]. *)
Definition NewLedgerTransactionReader {BS : Type} (backend_GetLedger : Z -> BS -> res LedgerCloseMeta * BS) (networkPassphrase : string)
    (sequence : Z) (b : BS) : res LedgerTransactionReader * BS :=
  let '(r, b) := backend_GetLedger sequence b in
  (lcm ← Wrap r "error getting ledger from the backend"; NewLedgerTransactionReaderFromLedgerCloseMeta networkPassphrase lcm, b).

Definition GetSequence (reader : LedgerTransactionReader) : Z := CaptiveCore.LedgerSequence (ledgerCloseMeta reader).
Definition GetHeader (reader : LedgerTransactionReader) : CaptiveCore.LedgerHeaderHistoryEntry := CaptiveCore.header_of (ledgerCloseMeta reader).

Definition TxReader_Read (reader : LedgerTransactionReader) : res LedgerTransaction * LedgerTransactionReader :=
  match transactions reader !! readIdx reader with
  | Some tx => (Ok tx, mkTxReader (ledgerCloseMeta reader) (transactions reader) (S (readIdx reader)))
  | None => (Err EOF, reader)
  end.

Definition Rewind (reader : LedgerTransactionReader) : LedgerTransactionReader := mkTxReader (ledgerCloseMeta reader) (transactions reader) 0.
Definition TxReader_Close (reader : LedgerTransactionReader) : LedgerTransactionReader := mkTxReader (ledgerCloseMeta reader) [] (readIdx reader).

(** ** The reader of changes *)

Inductive ledgerChangeReaderState := feeChangesState | metaChangesState | evictionChangesState | upgradeChangesState.

Record LedgerChangeReader := mkChangeReader {
  txReader : LedgerTransactionReader;
  state : ledgerChangeReaderState;
  pending : list Change;
  pendingIndex : nat;
  upgradeIndex : nat
}.

Definition new_change_reader (r : res LedgerTransactionReader) : res LedgerChangeReader :=
  transactionReader ← r; Ok (mkChangeReader transactionReader feeChangesState [] 0 0).

Definition NewLedgerChangeReaderFromLedgerCloseMeta (networkPassphrase : string) (ledger : LedgerCloseMeta) : res LedgerChangeReader :=
  new_change_reader (NewLedgerTransactionReaderFromLedgerCloseMeta networkPassphrase ledger).

Definition NewLedgerChangeReader {BS : Type} (backend_GetLedger : Z -> BS -> res LedgerCloseMeta * BS) (networkPassphrase : string)
    (sequence : Z) (b : BS) : res LedgerChangeReader * BS :=
  let '(r, b) := NewLedgerTransactionReader backend_GetLedger networkPassphrase sequence b in (new_change_reader r, b).

(** An evicted entry is removed from the ledger. *)
Definition eviction (entry : LedgerEntry) : Change := Compactor.mkChange (DataType (EntryData entry)) (Some entry) None.

Definition fill (r : LedgerChangeReader) (tr : LedgerTransactionReader) (s : ledgerChangeReaderState) (changes : list Change) (up : nat) : LedgerChangeReader :=
  mkChangeReader tr s (pending r ++ changes) (pendingIndex r) up.

(** [Read]; each recursive call takes one unit of fuel. *)
Fixpoint read_loop (fuel : nat) (r : LedgerChangeReader) : res Change * LedgerChangeReader :=
  match fuel with
  | O => (Panic "out of fuel", r)
  | S fuel =>
      match pending r !! pendingIndex r with
      | Some next =>
          (Ok next, if Nat.eqb (S (pendingIndex r)) (length (pending r)) then mkChangeReader (txReader r) (state r) [] 0 (upgradeIndex r)
                    else mkChangeReader (txReader r) (state r) (pending r) (S (pendingIndex r)) (upgradeIndex r))
      | None =>
          match state r with
          | feeChangesState | metaChangesState =>
              match TxReader_Read (txReader r) with
              | (Ok tx, tr) =>
                  match (match state r with feeChangesState => GetFeeChanges tx | _ => GetChanges tx end) with
                  | Ok changes => read_loop fuel (fill r tr (state r) changes (upgradeIndex r))
                  | Err e => (Err e, fill r tr (state r) [] (upgradeIndex r))
                  | Panic p => (Panic p, fill r tr (state r) [] (upgradeIndex r))
                  end
              | (Err e, tr) =>
                  if bool_decide (e = EOF) then
                    match state r with
                    | feeChangesState => read_loop fuel (fill r (Rewind tr) metaChangesState [] (upgradeIndex r))
                    | _ => read_loop fuel (fill r tr evictionChangesState [] (upgradeIndex r))
                    end
                  else (Err e, fill r tr (state r) [] (upgradeIndex r))
              | (Panic p, tr) => (Panic p, fill r tr (state r) [] (upgradeIndex r))
              end
          | evictionChangesState =>
              match Compactor.sortChanges (eviction <$> EvictedPersistentLedgerEntries (ledgerCloseMeta (txReader r))) with
              | Ok changes => read_loop fuel (fill r (txReader r) upgradeChangesState changes (upgradeIndex r))
              | Err e => (Err e, r)
              | Panic p => (Panic p, r)
              end
          | upgradeChangesState =>
              match UpgradesProcessing (ledgerCloseMeta (txReader r)) !! upgradeIndex r with
              | Some upgrade =>
                  match Compactor.GetChangesFromLedgerEntryChanges (up_Changes upgrade) with
                  | Ok changes => read_loop fuel (fill r (txReader r) upgradeChangesState changes (S (upgradeIndex r)))
                  | Err e => (Err e, r)
                  | Panic p => (Panic p, r)
                  end
              | None => (Err EOF, r)
              end
          end
      end
  end.

(** Calls that a [Read] can make: one per transaction in two states, one per upgrade
    and one per change of state. *)
Definition read_fuel (r : LedgerChangeReader) : nat :=
  2 * length (transactions (txReader r)) + length (UpgradesProcessing (ledgerCloseMeta (txReader r))) + 6.

Definition Read (r : LedgerChangeReader) : res Change * LedgerChangeReader := read_loop (read_fuel r) r.

Definition Close (r : LedgerChangeReader) : LedgerChangeReader :=
  mkChangeReader (TxReader_Close (txReader r)) (state r) [] (pendingIndex r) (upgradeIndex r).

End Readers.
End LedgerReader.
