(* ===== verification/LedgerReaderProofs.v ===== *)
(** * What the readers of a ledger return

    The reader of transactions returns the results of the ledger in order, each
    with the envelope that has its hash.  The reader of changes returns the groups
    of changes in the order of the protocol, through all its states, and ends; so
    the changes of a ledger, read and compacted, lead from the state before the
    ledger to the state after it. *)
From S2P Require Import Prelude LedgerKeys Compactor XdrCodec Muxed Keypair Transactions TxProofs CaptiveCore LedgerReader.
Local Open Scope Z_scope.
Import LedgerKeys LedgerReader.

Module LedgerReaderProofs.

Section Proofs.
Context {XE : XdrEncoder} {ScVal : Type} {Body : LedgerEntryType -> Type} {SO : ScValOps ScVal}.
Context {XC : XdrCodec.XdrCodec} {OPS : Transactions.Operations} {TH : Transactions.TxHashing} {ResultBody : Type}.
Abbreviation RawChanges := (list (Compactor.LedgerEntryChange ScVal Body)).
Abbreviation Change := (Compactor.Change ScVal Body).
Abbreviation Envelope_ := Transactions.TransactionEnvelope.
Abbreviation LCM := (CaptiveCore.LedgerCloseMeta (@LedgerCloseMetaV0 ScVal Body OPS ResultBody) (@LedgerCloseMetaV1 ScVal Body OPS ResultBody)).
Abbreviation LedgerTx := (@LedgerTransaction ScVal Body OPS ResultBody).
Abbreviation TxRdr := (@LedgerTransactionReader ScVal Body OPS ResultBody).
Abbreviation ChRdr := (@LedgerChangeReader ScVal Body OPS ResultBody).
Abbreviation ResultMeta := (@TransactionResultMeta ScVal Body ResultBody).

(** ** Transactions *)

Lemma by_hash_spec pass : forall envs m m', by_hash pass envs m = Ok m' ->
  Forall (fun e => exists h, Transactions.HashTransactionInEnvelope e pass = Ok h) envs /\
  (forall h e, m' !! h = Some e -> m !! h = Some e \/ (e ∈ envs /\ Transactions.HashTransactionInEnvelope e pass = Ok h)) /\
  (forall h, is_Some (m !! h) -> is_Some (m' !! h)) /\
  (forall e h, e ∈ envs -> Transactions.HashTransactionInEnvelope e pass = Ok h -> is_Some (m' !! h)).
Proof.
  induction envs as [|e envs IH]; intros m m' H; cbn [by_hash] in H.
  - injection H as <-. split_and!; [done|by left|done|]. by intros e h ?%elem_of_nil.
  - apply bind_Ok in H as (h & Hh & H). destruct (Transactions.HashTransactionInEnvelope e pass) as [h'|?|?] eqn:E; [|done..]. injection Hh as ->.
    apply IH in H as (H1 & H2 & H3 & H4). split_and!.
    + constructor; [by exists h|done].
    + intros h1 e1 Hm. destruct (H2 h1 e1 Hm) as [Hi|[Hin Hhash]]; [|right; split; [by right|done]].
      apply lookup_insert_Some in Hi as [[<- <-]|[_ Hi]]; [|by left]. right. split; [by left|done].
    + intros h1 Hs. apply H3. destruct (decide (h = h1)) as [->|]; [rewrite lookup_insert_eq; by eexists|by rewrite lookup_insert_ne].
    + intros e1 h1 Hin Hhash. apply elem_of_cons in Hin as [->|Hin]; [|by eapply H4].
      rewrite E in Hhash. injection Hhash as ->. apply H3. rewrite lookup_insert_eq. by eexists.
Qed.

Lemma by_hash_total pass : forall envs m, Forall (fun e => exists h, Transactions.HashTransactionInEnvelope e pass = Ok h) envs ->
  exists m', by_hash pass envs m = Ok m'.
Proof.
  induction envs as [|e envs IH]; intros m H; [by exists m|]. apply Forall_cons in H as [(h & Hh) H]. cbn [by_hash]. rewrite Hh. cbn [Wrap].
  rewrite bind_Ok_l. by apply IH.
Qed.

(** The version of the meta of a transaction that the reader accepts. *)
Definition meta_accepted (lcm : LCM) (p : ResultMeta) : Prop :=
  match lcm with CaptiveCore.MetaV0 _ _ => True | CaptiveCore.MetaV1 _ _ => TxMeta_V (rm_TxApplyProcessing p) = 3 end /\
  (ProtocolVersion lcm < 10 -> 2 <= TxMeta_V (rm_TxApplyProcessing p) \/ rm_FeeProcessing p = []).

(** A transaction of the reader stands for a result of the ledger. *)
Record matches (pass : string) (lcm : LCM) (envs : list Envelope_) (i : nat) (p : ResultMeta) (tx : LedgerTx) : Prop := {
  m_index : Index tx = to_uint32 (Z.of_nat i + 1);
  m_envelope : Envelope tx ∈ envs;
  m_hash : Transactions.HashTransactionInEnvelope (Envelope tx) pass = Ok (pair_TransactionHash (rm_Result p));
  m_result : tx_Result tx = rm_Result p;
  m_fees : FeeChanges tx = rm_FeeProcessing p;
  m_meta : UnsafeMeta tx = rm_TxApplyProcessing p;
  m_version : LedgerVersion tx = ProtocolVersion lcm
}.

Lemma apply_Ok (lcm : LCM) i (p : ResultMeta) m : TxProcessing lcm !! i = Some p ->
  TxApplyProcessing lcm i = Ok m <-> m = rm_TxApplyProcessing p /\
    match lcm with CaptiveCore.MetaV0 _ _ => True | CaptiveCore.MetaV1 _ _ => TxMeta_V (rm_TxApplyProcessing p) = 3 end.
Proof.
  intros Hp. unfold TxApplyProcessing, processing. rewrite Hp. cbn [from_opt]. rewrite bind_Ok_l. destruct lcm.
  - split; [by intros [= <-]|by intros [-> _]].
  - destruct (Z.eqb_spec (TxMeta_V (rm_TxApplyProcessing p)) 3); cbn [negb]; (split; [|intros [-> ?]]); try done. by intros [= <-].
Qed.

Lemma store_one_Ok pass (lcm : LCM) envs m i (p : ResultMeta) tx : TxProcessing lcm !! i = Some p -> by_hash pass envs ∅ = Ok m ->
  store_one lcm m i = Ok tx -> matches pass lcm envs i p tx /\ meta_accepted lcm p.
Proof.
  intros Hp Hm H. unfold store_one in H. apply bind_Ok in H as (h & Hh & H).
  unfold TransactionHash, processing in Hh. rewrite Hp in Hh. cbn [from_opt] in Hh. rewrite bind_Ok_l in Hh. injection Hh as <-.
  destruct (m !! _) as [e|] eqn:He; [|done]. apply bind_Ok in H as (old & Hold & H). destruct old; [done|].
  unfold LCM_TransactionResultPair, FeeProcessing, processing in *. rewrite Hp in *. cbn [from_opt] in *. rewrite !bind_Ok_l in H.
  apply bind_Ok in H as (meta & Hmeta & H). rewrite bind_Ok_l in H. injection H as <-.
  apply by_hash_spec in Hm as (_ & Hm & _). destruct (Hm _ _ He) as [Hi|[Hin Hhash]]; [by rewrite lookup_empty in Hi|].
  pose proof Hmeta as Hmeta'. apply (apply_Ok lcm i p meta Hp) in Hmeta as [-> Hv]. split; [by split|]. split; [done|]. intros Hpv.
  rewrite (proj2 (Z.ltb_lt _ 10) Hpv), Hmeta', bind_Ok_l in Hold. destruct (Z.ltb_spec (TxMeta_V (rm_TxApplyProcessing p)) 2); [|by left].
  rewrite bind_Ok_l in Hold. right. destruct (rm_FeeProcessing p); [done|]. cbn in Hold. done.
Qed.

Lemma store_one_total pass (lcm : LCM) envs m i (p : ResultMeta) : TxProcessing lcm !! i = Some p -> by_hash pass envs ∅ = Ok m -> meta_accepted lcm p ->
  (exists e, e ∈ envs /\ Transactions.HashTransactionInEnvelope e pass = Ok (pair_TransactionHash (rm_Result p))) ->
  exists tx, store_one lcm m i = Ok tx.
Proof.
  intros Hp Hm [Hv Hold] (e & Hin & Hhash). apply by_hash_spec in Hm as (_ & _ & _ & Hm). destruct (Hm e _ Hin Hhash) as [e' He'].
  assert (Hmeta : TxApplyProcessing lcm i = Ok (rm_TxApplyProcessing p)) by (apply (apply_Ok lcm i p _ Hp); done).
  unfold store_one, TransactionHash, LCM_TransactionResultPair, FeeProcessing, processing. rewrite Hp. cbn [from_opt]. rewrite !bind_Ok_l, He'.
  rewrite !Hmeta, !bind_Ok_l. destruct (Z.ltb_spec (ProtocolVersion lcm) 10) as [Hlt|]; [|rewrite bind_Ok_l; by eexists].
  destruct (Z.ltb_spec (TxMeta_V (rm_TxApplyProcessing p)) 2); [|rewrite bind_Ok_l; by eexists].
  destruct (Hold Hlt) as [|Hf]; [lia|]. rewrite Hf, bind_Ok_l. cbn. by eexists.
Qed.

Lemma store_loop_spec (lcm : LCM) m : forall n i txs, store_loop lcm m i n = Ok txs <->
  length txs = n /\ forall j tx, txs !! j = Some tx -> store_one lcm m (i + j) = Ok tx.
Proof.
  induction n as [|n IH]; intros i txs; cbn [store_loop].
  - split; [by intros [= <-]|]. intros [Hl _]. by destruct txs.
  - split.
    + intros H. apply bind_Ok in H as (tx & Htx & H). apply bind_Ok in H as (rest & Hrest & [= <-]). apply IH in Hrest as [Hl Hr].
      split; [by rewrite <- Hl|]. intros [|j] tx' Hj; [injection Hj as <-; by rewrite Nat.add_0_r|].
      replace (i + S j)%nat with (S i + j)%nat by lia. by apply Hr.
    + destruct txs as [|tx txs]; [by intros []|]. intros [[= Hl] Hr]. pose proof (Hr 0%nat tx eq_refl) as H0. rewrite Nat.add_0_r in H0.
      rewrite H0, bind_Ok_l, (proj2 (IH (S i) txs)); [done|]. split; [done|]. intros j tx' Hj.
      replace (S i + j)%nat with (i + S j)%nat by lia. by apply Hr.
Qed.

Lemma store_loop_total (lcm : LCM) m : (forall i, (i < CountTransactions lcm)%nat -> exists tx, store_one lcm m i = Ok tx) ->
  forall n i, (i + n <= CountTransactions lcm)%nat -> exists txs, store_loop lcm m i n = Ok txs.
Proof.
  intros Hone. induction n as [|n IH]; intros i Hi; [by exists []|]. cbn [store_loop]. destruct (Hone i ltac:(lia)) as [tx ->].
  destruct (IH (S i) ltac:(lia)) as [txs Htxs]. rewrite bind_Ok_l, Htxs, bind_Ok_l. by eexists.
Qed.

Lemma NewReader_Ok pass (lcm : LCM) envs r : TransactionEnvelopes lcm = Ok envs ->
  NewLedgerTransactionReaderFromLedgerCloseMeta pass lcm = Ok r <->
  exists m txs, by_hash pass envs ∅ = Ok m /\ store_loop lcm m 0 (CountTransactions lcm) = Ok txs /\ r = mkTxReader lcm txs 0.
Proof.
  intros Henvs. unfold NewLedgerTransactionReaderFromLedgerCloseMeta, storeTransactions. rewrite Henvs, bind_Ok_l. split.
  - intros H. apply bind_Ok in H as (txs & Htxs & [= <-]). destruct (by_hash pass envs ∅ ≫= _) as [txs'|?|?] eqn:E; [|done..].
    injection Htxs as ->. apply bind_Ok in E as (m & Hm & Hl). by exists m, txs.
  - intros (m & txs & -> & Hl & ->). rewrite bind_Ok_l, Hl. done.
Qed.

(** The first [n] reads of a reader of transactions. *)
Fixpoint tx_reads (n : nat) (r : TxRdr) : list (res LedgerTx) :=
  match n with O => [] | S n => let '(x, r) := TxReader_Read r in x :: tx_reads n r end.

Lemma tx_reads_spec n : forall r, tx_reads n r = take n ((Ok <$> drop (readIdx r) (transactions r)) ++ replicate n (Err EOF)).
Proof.
  induction n as [|n IH]; intros r; [done|]. cbn [tx_reads]. unfold TxReader_Read.
  destruct (transactions r !! readIdx r) as [tx|] eqn:E.
  - rewrite IH. cbn [readIdx transactions]. rewrite (drop_S _ _ _ E). cbn [fmap list_fmap app take]. f_equal.
    rewrite (replicate_S_end n), app_assoc. rewrite (take_app_le _ [_]); [done|]. rewrite length_app, length_replicate. lia.
  - rewrite IH. apply lookup_ge_None in E. rewrite !drop_ge by done. cbn [fmap list_fmap app replicate take]. done.
Qed.

(** C20: The reader of transactions: it can be made exactly when every envelope of
    the transaction set can be hashed, every result of the ledger has the hash of
    an envelope, and the metas have versions that are accepted; then its reads
    return, in the order of the results and with indexes from 1, every result with
    its meta, its fee changes and an envelope of the set that has its hash, and
    then [io.EOF]; rewinding starts again. *)
Theorem transaction_reader_exact (pass : string) (lcm : LCM) (envs : list Envelope_) (Henvs : TransactionEnvelopes lcm = Ok envs) :
  ((exists r, NewLedgerTransactionReaderFromLedgerCloseMeta pass lcm = Ok r) <->
   Forall (fun e => exists h, Transactions.HashTransactionInEnvelope e pass = Ok h) envs /\
   Forall (fun p => meta_accepted lcm p /\
     exists e, e ∈ envs /\ Transactions.HashTransactionInEnvelope e pass = Ok (pair_TransactionHash (rm_Result p))) (TxProcessing lcm)) /\
  forall r, NewLedgerTransactionReaderFromLedgerCloseMeta pass lcm = Ok r ->
    exists txs : list LedgerTx, length txs = length (TxProcessing lcm) /\
      (forall i tx p, txs !! i = Some tx -> TxProcessing lcm !! i = Some p -> matches pass lcm envs i p tx) /\
      forall n, tx_reads n r = take n ((Ok <$> txs) ++ replicate n (Err EOF)) /\
        forall k, tx_reads n (Rewind (Nat.iter k (fun r => (TxReader_Read r).2) r)) = tx_reads n r.
Proof.
  split; [split|].
  - intros [r Hr]. apply (NewReader_Ok pass lcm envs) in Hr as (m & txs & Hm & Hl & _); [|done]. split; [by apply by_hash_spec in Hm as [? _]|].
    apply store_loop_spec in Hl as [Hlen Hl]. apply Forall_lookup. intros i p Hp.
    destruct (lookup_lt_is_Some_2 txs i) as [tx Htx]; [rewrite Hlen; by eapply lookup_lt_Some|].
    destruct (store_one_Ok pass lcm envs m i p tx Hp Hm (Hl i tx Htx)) as [Hmt Hacc]. split; [done|].
    exists (Envelope tx). split; [apply Hmt|apply Hmt].
  - intros [Hh Hp]. destruct (by_hash_total pass envs ∅ Hh) as [m Hm].
    destruct (store_loop_total lcm m) with (n := CountTransactions lcm) (i := 0%nat) as [txs Hl]; [|done|].
    { intros i Hi. destruct (lookup_lt_is_Some_2 (TxProcessing lcm) i Hi) as [p Hpi]. rewrite Forall_lookup in Hp. destruct (Hp i p Hpi).
      by apply (store_one_total pass lcm envs m i p). }
    exists (mkTxReader lcm txs 0). apply (NewReader_Ok pass lcm envs); [done|]. by exists m, txs.
  - intros r Hr. apply (NewReader_Ok pass lcm envs) in Hr as (m & txs & Hm & Hl & ->); [|done]. apply store_loop_spec in Hl as [Hlen Hl]. exists txs. split; [done|]. split.
    + intros i tx p Htx Hp. by apply (store_one_Ok pass lcm envs m i p tx Hp Hm (Hl i tx Htx)).
    + intros n. split; [by rewrite tx_reads_spec|]. intros k. rewrite !tx_reads_spec. unfold Rewind. cbn [readIdx transactions].
      enough (Hk : transactions (Nat.iter k (fun r => (TxReader_Read r).2) (mkTxReader lcm txs 0)) = txs) by by rewrite Hk.
      induction k as [|k IH]; [done|]. rewrite Nat.iter_succ. unfold TxReader_Read. by destruct (_ !! _).
Qed.

(** ** Changes *)

(** The changes that are left to read, as groups: of a transaction, of the
    evictions or of an upgrade. *)
Definition evictions (lcm : LCM) : res (list Change) := Compactor.sortChanges (eviction <$> EvictedPersistentLedgerEntries lcm).
Definition upgrades (lcm : LCM) : list (res (list Change)) :=
  (fun u => Compactor.GetChangesFromLedgerEntryChanges (up_Changes u)) <$> UpgradesProcessing lcm.

Definition groups (lcm : LCM) (txs : list LedgerTx) : list (res (list Change)) :=
  (GetFeeChanges <$> txs) ++ (GetChanges <$> txs) ++ evictions lcm :: upgrades lcm.

Definition left_groups (r : ChRdr) : list (res (list Change)) :=
  let lcm := ledgerCloseMeta (txReader r) in
  let txs := transactions (txReader r) in
  let txs' := drop (readIdx (txReader r)) txs in
  match state r with
  | feeChangesState => (GetFeeChanges <$> txs') ++ (GetChanges <$> txs) ++ evictions lcm :: upgrades lcm
  | metaChangesState => (GetChanges <$> txs') ++ evictions lcm :: upgrades lcm
  | evictionChangesState => evictions lcm :: upgrades lcm
  | upgradeChangesState => drop (upgradeIndex r) (upgrades lcm)
  end.

(** What the reads of a group return: its changes, or its error. *)
Definition read_group (g : res (list Change)) : list (res Change) :=
  match g with Ok l => Ok <$> l | Err e => [Err e] | Panic p => [Panic p] end.
Definition read_groups (gs : list (res (list Change))) : list (res Change) := concat (read_group <$> gs).

Definition remaining (r : ChRdr) : list (res Change) := (Ok <$> drop (pendingIndex r) (pending r)) ++ read_groups (left_groups r).

Definition no_panic (g : res (list Change)) : Prop := forall p, g <> Panic p.

(** Between reads the pending changes are not all read; an upgrade is processed
    only in the last state. *)
Record reader_wf (r : ChRdr) : Prop := {
  w_pending : (pending r = [] /\ pendingIndex r = 0%nat) \/ (pendingIndex r < length (pending r))%nat;
  w_upgrade : state r <> upgradeChangesState -> upgradeIndex r = 0%nat;
  w_groups : Forall no_panic (left_groups r)
}.

(** Recursive calls until the next change, at most. *)
Definition calls_left (r : ChRdr) : nat :=
  match state r with
  | feeChangesState => length (transactions (txReader r)) + (length (transactions (txReader r)) - readIdx (txReader r)) + 3
  | metaChangesState => (length (transactions (txReader r)) - readIdx (txReader r)) + 2
  | evictionChangesState => 1
  | upgradeChangesState => 0
  end + (length (UpgradesProcessing (ledgerCloseMeta (txReader r))) - upgradeIndex r).

Definition same_ledger (r r' : ChRdr) : Prop :=
  ledgerCloseMeta (txReader r') = ledgerCloseMeta (txReader r) /\ transactions (txReader r') = transactions (txReader r).

Lemma newSortableChanges_no_Err (l : list Change) e : Compactor.newSortableChanges l <> Err (e : error).
Proof.
  induction l as [|c l IH]; cbn [Compactor.newSortableChanges]; [done|]. destruct (Compactor.ledgerKey c); [|done..]. rewrite bind_Ok_l.
  destruct (Compactor.newSortableChanges l); [by rewrite bind_Ok_l|done..].
Qed.
Lemma sortChanges_no_Err (l : list Change) e : Compactor.sortChanges l <> Err (e : error).
Proof.
  unfold Compactor.sortChanges. pose proof (newSortableChanges_no_Err l). destruct (Compactor.newSortableChanges l) as [s|e'|p]; [by rewrite bind_Ok_l|by destruct (H e')|done].
Qed.
Lemma pair_changes_no_Err (raw : RawChanges) : forall prev e, Compactor.pair_changes prev raw <> Err (e : error).
Proof.
  induction raw as [|c raw IH]; intros prev e; cbn [Compactor.pair_changes]; [done|].
  assert (Hp : forall e', Compactor.pair_change prev c <> Err (e' : error)).
  { intros e'. destruct c; cbn [Compactor.pair_change]; try done; destruct prev as [[]|]; done. }
  destruct (Compactor.pair_change prev c) as [cs|e'|p]; [|by destruct (Hp e')|done]. rewrite bind_Ok_l.
  specialize (IH (Some c)). destruct (Compactor.pair_changes (Some c) raw) as [l|e'|p]; [by rewrite bind_Ok_l|by destruct (IH e')|done].
Qed.
Lemma GetChanges_raw_no_Err (raw : RawChanges) e : Compactor.GetChangesFromLedgerEntryChanges raw <> Err (e : error).
Proof.
  unfold Compactor.GetChangesFromLedgerEntryChanges. pose proof (pair_changes_no_Err raw None).
  destruct (Compactor.pair_changes None raw) as [l|e'|p]; [rewrite bind_Ok_l; apply sortChanges_no_Err|by destruct (H e')|done].
Qed.

(** The result of a read, and what is left after it. *)
Definition read_ok (r : ChRdr) (q : res Change * ChRdr) : Prop :=
  same_ledger r q.2 /\ reader_wf q.2 /\
  match remaining r with
  | [] => q.1 = Err EOF /\ remaining q.2 = []
  | x :: rest => q.1 = x /\ remaining q.2 = rest
  end.

(** A read that goes on from a reader with the same changes left. *)
Lemma read_ok_from r r' q : same_ledger r r' -> remaining r' = remaining r -> read_ok r' q -> read_ok r q.
Proof.
  intros [H1 H2] Hr ([H3 H4] & Hw & Hq). split; [split; congruence|]. split; [done|]. by rewrite <- Hr.
Qed.

(** A recursive call: the same changes are left, and fewer calls. *)
Definition continues (r r' : ChRdr) : Prop :=
  same_ledger r r' /\ reader_wf r' /\ remaining r' = remaining r /\ (calls_left r' < calls_left r)%nat.

(** Taking the next group. *)
Lemma take_group r tr s up g gs : pending r = [] -> pendingIndex r = 0%nat ->
  ledgerCloseMeta tr = ledgerCloseMeta (txReader r) -> transactions tr = transactions (txReader r) ->
  left_groups r = g :: gs -> (forall l, left_groups (fill r tr s l up) = gs) -> Forall no_panic (g :: gs) ->
  (s <> upgradeChangesState -> up = 0%nat) ->
  match g with
  | Ok l => same_ledger r (fill r tr s l up) /\ reader_wf (fill r tr s l up) /\ remaining (fill r tr s l up) = remaining r
  | Err e => read_ok r (Err e, fill r tr s [] up)
  | Panic _ => False
  end.
Proof.
  intros Hp Hi Hl Ht Hg Hgs Hn Hup. apply Forall_cons in Hn as [Hn1 Hn2].
  assert (Hwf : forall l, reader_wf (fill r tr s l up)).
  { intros l. split; [|done|by rewrite Hgs]. cbn [fill pending pendingIndex]. rewrite Hp, Hi. destruct l; [by left|right; cbn; lia]. }
  assert (Hrem : forall l, remaining (fill r tr s l up) = (Ok <$> l) ++ read_groups gs).
  { intros l. unfold remaining. rewrite Hgs. cbn [fill pending pendingIndex]. by rewrite Hp, Hi. }
  assert (Hr : remaining r = read_group g ++ read_groups gs).
  { unfold remaining. by rewrite Hg, Hp, Hi. }
  destruct g as [l|e|p]; [|split; [by split|]; split; [apply Hwf|]; rewrite Hr; split; [done|apply Hrem]|by destruct (Hn1 p)].
  split; [by split|]. split; [done|]. by rewrite Hrem, Hr.
Qed.

(** Going to the next state. *)
Lemma next_state r tr s : reader_wf r -> pending r = [] -> pendingIndex r = 0%nat ->
  ledgerCloseMeta tr = ledgerCloseMeta (txReader r) -> transactions tr = transactions (txReader r) -> upgradeIndex r = 0%nat ->
  left_groups (fill r tr s [] (upgradeIndex r)) = left_groups r ->
  same_ledger r (fill r tr s [] (upgradeIndex r)) /\ reader_wf (fill r tr s [] (upgradeIndex r)) /\ remaining (fill r tr s [] (upgradeIndex r)) = remaining r.
Proof.
  intros [_ _ Hw] Hp Hi Hl Ht Hu Hg. split; [by split|]. split; [split; [|done|by rewrite Hg]|].
  - left. cbn [fill pending pendingIndex]. by rewrite Hp.
  - unfold remaining. rewrite Hg. cbn [fill pending pendingIndex]. by rewrite Hp, Hi.
Qed.

Lemma read_pending r next fuel : reader_wf r -> pending r !! pendingIndex r = Some next -> read_ok r (read_loop (S fuel) r).
Proof.
  intros [Hw Hu Hg] Hn. cbn [read_loop]. rewrite Hn. pose proof (lookup_lt_Some _ _ _ Hn) as Hlt.
  assert (Hr : remaining r = Ok next :: (Ok <$> drop (S (pendingIndex r)) (pending r)) ++ read_groups (left_groups r)).
  { unfold remaining. by rewrite (drop_S _ _ _ Hn). }
  destruct (Nat.eqb_spec (S (pendingIndex r)) (length (pending r))) as [He|Hne]; (split; [by split|]); cbn [fst snd].
  - split; [split; [by left|done|done]|]. rewrite Hr. split; [done|]. unfold remaining. cbn [pending pendingIndex]. rewrite He, (drop_ge (pending r)) by done. done.
  - split; [split; [right; cbn; lia|done|done]|]. by rewrite Hr.
Qed.

(** The groups of the transactions in the first two states, and those after them. *)
Definition tx_group (s : ledgerChangeReaderState) (tx : LedgerTx) : res (list Change) :=
  match s with feeChangesState => GetFeeChanges tx | _ => GetChanges tx end.
Definition after_txs (s : ledgerChangeReaderState) (r : ChRdr) : list (res (list Change)) :=
  match s with feeChangesState => GetChanges <$> transactions (txReader r) | _ => [] end ++
  evictions (ledgerCloseMeta (txReader r)) :: upgrades (ledgerCloseMeta (txReader r)).

Definition tx_state (s : ledgerChangeReaderState) : Prop := s = feeChangesState \/ s = metaChangesState.

Lemma left_groups_tx r : tx_state (state r) ->
  left_groups r = (tx_group (state r) <$> drop (readIdx (txReader r)) (transactions (txReader r))) ++ after_txs (state r) r.
Proof. unfold left_groups, after_txs. by intros [-> | ->]. Qed.

(** Reading the changes of the next transaction. *)
Lemma take_tx r tx : reader_wf r -> tx_state (state r) -> pending r = [] -> pendingIndex r = 0%nat ->
  transactions (txReader r) !! readIdx (txReader r) = Some tx ->
  let tr := mkTxReader (ledgerCloseMeta (txReader r)) (transactions (txReader r)) (S (readIdx (txReader r))) in
  match tx_group (state r) tx with
  | Ok l => continues r (fill r tr (state r) l (upgradeIndex r))
  | Err e => read_ok r (Err e, fill r tr (state r) [] (upgradeIndex r))
  | Panic _ => False
  end.
Proof.
  intros Hwf Hs Hp Hi Ht tr. pose proof Hwf as [_ Hu Hg]. pose proof (lookup_lt_Some _ _ _ Ht) as Hlt.
  assert (Hl : left_groups r = tx_group (state r) tx ::
    (tx_group (state r) <$> drop (S (readIdx (txReader r))) (transactions (txReader r))) ++ after_txs (state r) r).
  { rewrite left_groups_tx by done. by rewrite (drop_S _ _ _ Ht). }
  pose proof (take_group r tr (state r) (upgradeIndex r) _ _ Hp Hi eq_refl eq_refl Hl) as H.
  specialize (H ltac:(intros l; by rewrite left_groups_tx) ltac:(by rewrite <- Hl) Hu).
  destruct (tx_group (state r) tx) as [l|e|p]; [|done..]. destruct H as (H1 & H2 & H3). split_and!; [done..|].
  unfold calls_left. destruct Hs as [Hs|Hs]; cbn [fill state txReader transactions readIdx upgradeIndex ledgerCloseMeta tr]; rewrite Hs; lia.
Qed.

Lemma take_evictions r : reader_wf r -> state r = evictionChangesState -> pending r = [] -> pendingIndex r = 0%nat ->
  exists l, evictions (ledgerCloseMeta (txReader r)) = Ok l /\ continues r (fill r (txReader r) upgradeChangesState l (upgradeIndex r)).
Proof.
  intros [_ Hu Hg] Hs Hp Hi. set (lcm := ledgerCloseMeta (txReader r)). rewrite Hs in Hu.
  assert (Hl : left_groups r = evictions lcm :: upgrades lcm) by (unfold left_groups; by rewrite Hs).
  pose proof (take_group r (txReader r) upgradeChangesState (upgradeIndex r) _ _ Hp Hi eq_refl eq_refl Hl) as H.
  specialize (H ltac:(intros l; unfold left_groups; cbn; by rewrite Hu) ltac:(by rewrite <- Hl) ltac:(done)).
  pose proof (sortChanges_no_Err (eviction <$> EvictedPersistentLedgerEntries lcm)) as Hne. fold (evictions lcm) in Hne.
  destruct (evictions lcm) as [l|e|p]; [|by destruct (Hne e)|done]. exists l. split; [done|].
  destruct H as (H1 & H2 & H3). split_and!; [done..|]. unfold calls_left. rewrite Hs. cbn. lia.
Qed.

Lemma take_upgrade r u : reader_wf r -> state r = upgradeChangesState -> pending r = [] -> pendingIndex r = 0%nat ->
  UpgradesProcessing (ledgerCloseMeta (txReader r)) !! upgradeIndex r = Some u ->
  exists l, Compactor.GetChangesFromLedgerEntryChanges (up_Changes u) = Ok l /\
    continues r (fill r (txReader r) upgradeChangesState l (S (upgradeIndex r))).
Proof.
  intros [_ Hu Hg] Hs Hp Hi He. set (lcm := ledgerCloseMeta (txReader r)) in *. pose proof (lookup_lt_Some _ _ _ He) as Hlt.
  assert (Hl : left_groups r = drop (upgradeIndex r) (upgrades lcm)) by (unfold left_groups; by rewrite Hs).
  assert (Hg' : upgrades lcm !! upgradeIndex r = Some (Compactor.GetChangesFromLedgerEntryChanges (up_Changes u))).
  { unfold upgrades. by rewrite list_lookup_fmap, He. }
  rewrite (drop_S _ _ _ Hg') in Hl.
  pose proof (take_group r (txReader r) upgradeChangesState (S (upgradeIndex r)) _ _ Hp Hi eq_refl eq_refl Hl) as H.
  specialize (H ltac:(intros l; by unfold left_groups) ltac:(by rewrite <- Hl) ltac:(done)).
  pose proof (GetChanges_raw_no_Err (up_Changes u)) as Hne.
  destruct (Compactor.GetChangesFromLedgerEntryChanges (up_Changes u)) as [l|e|p]; [|by destruct (Hne e)|done]. exists l. split; [done|].
  destruct H as (H1 & H2 & H3). split_and!; [done..|]. unfold calls_left. rewrite Hs. fold lcm. cbn. fold lcm. lia.
Qed.

Lemma read_loop_spec : forall fuel r, reader_wf r -> (calls_left r < fuel)%nat -> read_ok r (read_loop fuel r).
Proof.
  induction fuel as [|fuel IH]; intros r Hwf Hf; [lia|].
  destruct (pending r !! pendingIndex r) as [next|] eqn:Hn; [by eapply read_pending|].
  assert (Hp : pending r = [] /\ pendingIndex r = 0%nat).
  { apply lookup_ge_None in Hn. destruct (w_pending _ Hwf) as [?|?]; [done|lia]. }
  destruct Hp as [Hp Hi]. cbn [read_loop]. rewrite Hn. pose proof Hwf as [_ Hu Hg].
  assert (Hgo : forall r', continues r r' -> read_ok r (read_loop fuel r')).
  { intros r' (H1 & H2 & H3 & H4). apply (read_ok_from r r'); [done..|]. apply IH; [done|lia]. }
  pose proof (take_tx r) as Htx. pose proof (next_state r) as Hnext. unfold tx_state, tx_group in Htx.
  destruct (state r) eqn:Hs.
  - unfold TxReader_Read. destruct (transactions (txReader r) !! readIdx (txReader r)) as [tx|] eqn:Ht.
    + specialize (Htx tx Hwf ltac:(by left) Hp Hi eq_refl). destruct (GetFeeChanges tx) as [l|e|p]; [by apply Hgo|done..].
    + rewrite bool_decide_true by done. apply Hgo. destruct (Hnext (Rewind (txReader r)) metaChangesState) as (H1 & H2 & H3); try done.
      * by apply Hu.
      * unfold left_groups. rewrite Hs. cbn. apply lookup_ge_None in Ht. by rewrite (drop_ge _ _ Ht).
      * split; [exact H1|]. split; [exact H2|]. split; [exact H3|]. unfold calls_left. rewrite Hs. cbn. lia.
  - unfold TxReader_Read. destruct (transactions (txReader r) !! readIdx (txReader r)) as [tx|] eqn:Ht.
    + specialize (Htx tx Hwf ltac:(by right) Hp Hi eq_refl). destruct (GetChanges tx) as [l|e|p]; [by apply Hgo|done..].
    + rewrite bool_decide_true by done. apply Hgo. destruct (Hnext (txReader r) evictionChangesState) as (H1 & H2 & H3); try done.
      * by apply Hu.
      * unfold left_groups. rewrite Hs. cbn. apply lookup_ge_None in Ht. by rewrite (drop_ge _ _ Ht).
      * split; [exact H1|]. split; [exact H2|]. split; [exact H3|]. unfold calls_left. rewrite Hs. cbn. lia.
  - destruct (take_evictions r Hwf Hs Hp Hi) as (l & Hl & Hc). unfold evictions in Hl. rewrite Hl. by apply Hgo.
  - destruct (UpgradesProcessing (ledgerCloseMeta (txReader r)) !! upgradeIndex r) as [u|] eqn:He.
    + destruct (take_upgrade r u Hwf Hs Hp Hi He) as (l & -> & Hc). by apply Hgo.
    + assert (Hr : remaining r = []).
      { unfold remaining, left_groups. rewrite Hs, Hp, Hi, (drop_ge (upgrades _)); [done|]. unfold upgrades. rewrite length_fmap. by apply lookup_ge_None. }
      split; [by split|]. split; [done|]. by rewrite Hr.
Qed.

(** The first [n] reads of a reader of changes. *)
Fixpoint reads (n : nat) (r : ChRdr) : list (res Change) :=
  match n with O => [] | S n => let '(x, r) := Read r in x :: reads n r end.

Lemma Read_ok r : reader_wf r -> read_ok r (Read r).
Proof. intros H. apply read_loop_spec; [done|]. unfold calls_left, read_fuel. destruct (state r); lia. Qed.

Lemma reads_spec n : forall r, reader_wf r -> reads n r = take n (remaining r ++ replicate n (Err EOF)).
Proof.
  induction n as [|n IH]; intros r Hw; [done|]. cbn [reads]. pose proof (Read_ok r Hw) as (_ & Hw' & H). destruct (Read r) as [x r'].
  cbn [fst snd] in *. rewrite (IH r' Hw'). destruct (remaining r) as [|y rest]; destruct H as [-> ->]; [done|].
  cbn [app take]. f_equal. rewrite (replicate_S_end n), app_assoc. rewrite (take_app_le _ [_]); [done|]. rewrite length_app, length_replicate. lia.
Qed.

Lemma new_reader_wf (lcm : LCM) txs : Forall no_panic (groups lcm txs) -> reader_wf (mkChangeReader (mkTxReader lcm txs 0) feeChangesState [] 0 0).
Proof. intros H. split; [by left|done|]. by unfold left_groups. Qed.

(** C21: The reader of changes returns, whatever the metas are as long as their
    changes pair up, the changes of the fees of all transactions, then those of all
    transactions, then the evictions, then the upgrades, each group sorted; where
    the meta of a transaction is of an unsupported version it returns the error in
    the place of the changes and goes on; and after the last change it returns
    [io.EOF] for ever. *)
Theorem change_reader_exact (pass : string) (lcm : LCM) (r : ChRdr) (n : nat)
    (Hnew : NewLedgerChangeReaderFromLedgerCloseMeta pass lcm = Ok r)
    (Hpairs : Forall no_panic (groups lcm (transactions (txReader r)))) :
  ledgerCloseMeta (txReader r) = lcm /\
  reads n r = take n (read_groups (groups lcm (transactions (txReader r))) ++ replicate n (Err EOF)).
Proof.
  unfold NewLedgerChangeReaderFromLedgerCloseMeta, new_change_reader, NewLedgerTransactionReaderFromLedgerCloseMeta in Hnew.
  apply bind_Ok in Hnew as (tr & Htr & [= <-]). apply bind_Ok in Htr as (txs & _ & [= <-]). cbn [txReader transactions ledgerCloseMeta] in *.
  split; [done|]. rewrite reads_spec by by apply new_reader_wf. done.
Qed.

(** ** The state of the ledger *)

Section Ledger.
Context {XL : XdrLaws} {SL : ScValLaws ScVal}.
Abbreviation ledger := (@Compactor.ledger ScVal Body).

Lemma steps_app (db db1 db' : ledger) (l l' : list Change) :
  Compactor.steps db l db1 -> Compactor.steps db1 l' db' -> Compactor.steps db (l ++ l') db'.
Proof.
  induction 1 as [db db1 H|db k c db2 l db1 Hk Hc Hp Hu H IH]; intros H'; cbn.
  - apply (Compactor.steps_ext db1); [|done]. intros k. by rewrite H.
  - econstructor; [done..|]. by apply IH.
Qed.

(** Groups of raw changes lead from one state to another. *)
Inductive raw_steps : ledger -> list RawChanges -> ledger -> Prop :=
| raw_nil db db' : (forall k, db k = db' k) -> raw_steps db [] db'
| raw_cons db raw l db1 raws db' : Compactor.pair_changes None raw = Ok l -> Compactor.steps db l db1 -> raw_steps db1 raws db' ->
    raw_steps db (raw :: raws) db'.

Definition converts (raw : RawChanges) (l : list Change) : Prop := Compactor.GetChangesFromLedgerEntryChanges raw = Ok l.

Lemma raw_steps_changes db raws db' : raw_steps db raws db' -> exists ls, Forall2 converts raws ls /\ Compactor.steps db (concat ls) db'.
Proof.
  induction 1 as [db db' H|db raw l db1 raws db' Hp Hs H (ls & Hls & IH)]; [exists []; split; [exact (List.Forall2_nil _)|by constructor]|].
  destruct (Compactor.changes_sorted_equivalent raw l db db1 Hp Hs) as (s & _ & Hg & _ & _ & Hs'). exists ((Compactor.sortStable s).*2 :: ls).
  split; [by constructor|]. cbn [concat]. by apply (steps_app _ db1).
Qed.

(** The groups of raw changes of a transaction: those of an operation, and those of
    the transaction before and after them.  Old versions of hcnet-core recorded
    operations for transactions that failed with an internal error. *)
Definition meta_groups (version : Z) (p : ResultMeta) : option (list RawChanges) :=
  let ignored := (ResultCode (rm_Result p) =? TxInternalError) && (version <=? 12) in
  match rm_TxApplyProcessing p with
  | TxMetaV1 txChanges ops => Some (txChanges :: if ignored then [] else op_Changes <$> ops)
  | TxMetaV2 before ops after | TxMetaV3 before ops after => Some (before :: if ignored then [] else (op_Changes <$> ops) ++ [after])
  | _ => None
  end.

(** What the meta of a ledger says: the ledger goes from one state to another by the
    fees, the transactions, the evictions and the upgrades. *)
Definition ledger_closes (lcm : LCM) (db db' : ledger) : Prop :=
  exists metas db1 db2 db3, raw_steps db (rm_FeeProcessing <$> TxProcessing lcm) db1 /\
    mapM (meta_groups (ProtocolVersion lcm)) (TxProcessing lcm) = Some metas /\ raw_steps db1 (concat metas) db2 /\
    Compactor.steps db2 (eviction <$> EvictedPersistentLedgerEntries lcm) db3 /\
    raw_steps db3 (up_Changes <$> UpgradesProcessing lcm) db'.

Lemma op_changes_spec ops : forall ls, Forall2 converts (op_Changes <$> ops) ls -> op_changes ops = Ok (concat ls).
Proof.
  induction ops as [|op ops IH]; intros ls H; cbn [fmap list_fmap] in H.
  - apply Forall2_nil_inv_l in H as ->. done.
  - apply Forall2_cons_inv_l in H as (l & ls' & Hl & Hls & ->). cbn [op_changes concat]. unfold converts in Hl.
    by rewrite Hl, bind_Ok_l, (IH ls' Hls), bind_Ok_l.
Qed.

Lemma changes_v2_spec tx before ops after l ls : converts before l ->
  Forall2 converts (if txInternalError tx && (LedgerVersion tx <=? 12) then [] else (op_Changes <$> ops) ++ [after]) ls ->
  changes_v2 (ResultBody := ResultBody) tx before ops after = Ok (l ++ concat ls).
Proof.
  intros Hl Hls. unfold changes_v2. unfold converts in Hl. rewrite Hl, bind_Ok_l. destruct (_ && _).
  { apply Forall2_nil_inv_l in Hls as ->. cbn [concat]. by rewrite app_nil_r. }
  apply Forall2_app_inv_l in Hls as (lo & la & Ho & Ha & ->). apply Forall2_cons_inv_l in Ha as (l' & ? & Hl' & Hnil & ->).
  apply Forall2_nil_inv_l in Hnil as ->. unfold converts in Hl'. rewrite (op_changes_spec ops lo Ho), bind_Ok_l, Hl', bind_Ok_l.
  rewrite concat_app. cbn [concat]. by rewrite app_nil_r.
Qed.

Lemma GetChanges_spec pass (lcm : LCM) envs i p tx raws ls : matches pass lcm envs i p tx -> meta_groups (ProtocolVersion lcm) p = Some raws ->
  Forall2 converts raws ls -> GetChanges tx = Ok (concat ls).
Proof.
  intros [_ _ _ Hres _ Hm Hv] Hg Hls. unfold GetChanges, meta_groups in *. rewrite Hm.
  assert (Hi : (ResultCode (rm_Result p) =? TxInternalError) && (ProtocolVersion lcm <=? 12) = txInternalError tx && (LedgerVersion tx <=? 12)).
  { unfold txInternalError. by rewrite Hres, Hv. }
  rewrite Hi in Hg. destruct (rm_TxApplyProcessing p) as [?|txc ops|before ops after|before ops after|?]; [done| | | |done]; injection Hg as <-;
    apply Forall2_cons_inv_l in Hls as (l & ls' & Hl & Hls & ->); cbn [concat]; [|by apply changes_v2_spec..].
  unfold converts in Hl. rewrite Hl, bind_Ok_l. destruct (_ && _).
  - apply Forall2_nil_inv_l in Hls as ->. cbn [concat]. by rewrite app_nil_r.
  - by rewrite (op_changes_spec ops ls' Hls), bind_Ok_l.
Qed.

Definition stands_for (pass : string) (lcm : LCM) (envs : list Envelope_) (p : ResultMeta) (tx : LedgerTx) : Prop := exists i, matches pass lcm envs i p tx.

Lemma reader_transactions pass (lcm : LCM) tr : NewLedgerTransactionReaderFromLedgerCloseMeta pass lcm = Ok tr ->
  exists envs txs, tr = mkTxReader lcm txs 0 /\ Forall2 (stands_for pass lcm envs) (TxProcessing lcm) txs.
Proof.
  intros H. pose proof H as H'. unfold NewLedgerTransactionReaderFromLedgerCloseMeta, storeTransactions in H'.
  destruct (TransactionEnvelopes lcm) as [envs|?|?] eqn:He; [|done..]. clear H'.
  apply (NewReader_Ok pass lcm envs tr He) in H. destruct H as (m & txs & Hm & Hl & ->). exists envs, txs. split; [done|].
  apply store_loop_spec in Hl as [Hlen Hl]. apply Forall2_same_length_lookup. split; [by symmetry|]. intros i p tx Hp Htx. exists i.
  by apply (store_one_Ok pass lcm envs m i p tx Hp Hm (Hl i tx Htx)).
Qed.

Lemma fees_read pass (lcm : LCM) (envs : list Envelope_) (ps : list ResultMeta) (txs : list LedgerTx) : Forall2 (stands_for pass lcm envs) ps txs -> forall ls,
  Forall2 converts (rm_FeeProcessing <$> ps) ls -> GetFeeChanges <$> txs = Ok <$> ls.
Proof.
  induction 1 as [|p tx ps txs [i Hm] _ IH]; intros ls Hls; cbn [fmap list_fmap] in Hls.
  - by apply Forall2_nil_inv_l in Hls as ->.
  - apply Forall2_cons_inv_l in Hls as (l & ls' & Hl & Hls & ->). cbn [fmap list_fmap]. f_equal; [|by apply IH].
    unfold GetFeeChanges. by rewrite (m_fees _ _ _ _ _ _ Hm).
Qed.

Lemma metas_read pass (lcm : LCM) (envs : list Envelope_) (ps : list ResultMeta) (txs : list LedgerTx) : Forall2 (stands_for pass lcm envs) ps txs -> forall metas ls,
  mapM (meta_groups (ProtocolVersion lcm)) ps = Some metas -> Forall2 converts (concat metas) ls ->
  exists lss, GetChanges <$> txs = Ok <$> lss /\ concat lss = concat ls.
Proof.
  induction 1 as [|p tx ps txs [i Hm] _ IH]; intros metas ls Hmap Hls; cbn [mapM] in Hmap.
  - injection Hmap as <-. apply Forall2_nil_inv_l in Hls as ->. by exists [].
  - apply bind_Some in Hmap as (raws & Hg & Hmap). apply bind_Some in Hmap as (rest & Hrest & [= <-]). cbn [concat] in Hls.
    apply Forall2_app_inv_l in Hls as (l1 & l2 & H1 & H2 & ->). destruct (IH rest l2 Hrest H2) as (lss & Hlss & Hc).
    exists (concat l1 :: lss). cbn [fmap list_fmap concat]. rewrite (GetChanges_spec pass lcm envs i p tx raws l1 Hm Hg H1).
    split; [by f_equal|]. by rewrite concat_app, Hc.
Qed.

Lemma upgrades_read (ups : list (@UpgradeEntryMeta ScVal Body)) : forall ls, Forall2 converts (up_Changes <$> ups) ls ->
  (fun u => Compactor.GetChangesFromLedgerEntryChanges (up_Changes u)) <$> ups = Ok <$> ls.
Proof.
  induction ups as [|u ups IH]; intros ls Hls; cbn [fmap list_fmap] in *; [by apply Forall2_nil_inv_l in Hls as ->|].
  apply Forall2_cons_inv_l in Hls as (l & ls' & Hl & Hls & ->). unfold converts in Hl. cbn [fmap list_fmap]. f_equal; [done|]. by apply IH.
Qed.

Lemma evictions_read (lcm : LCM) db db' : Compactor.steps db (eviction <$> EvictedPersistentLedgerEntries lcm) db' ->
  exists l, evictions lcm = Ok l /\ Compactor.steps db l db'.
Proof.
  intros H. destruct (Compactor.newSortableChanges_steps db _ db' H) as (s & Hs & Hl & Hk). unfold evictions, Compactor.sortChanges.
  rewrite Hs, bind_Ok_l. eexists. split; [done|]. apply Compactor.sortStable_steps; [done|]. by rewrite Hl.
Qed.

Lemma read_groups_Ok ls : read_groups (Ok <$> ls) = Ok <$> concat ls.
Proof. unfold read_groups. induction ls as [|l ls IH]; [done|]. cbn [fmap list_fmap concat read_group]. rewrite fmap_app. f_equal. exact IH. Qed.

Lemma all_Ok_no_panic ls : Forall no_panic (Ok <$> ls).
Proof. apply Forall_fmap, Forall_true. by intros l p. Qed.

(** The groups of a ledger that closes are changes from one state to the other. *)
Lemma ledger_groups pass (lcm : LCM) (envs : list Envelope_) (txs : list LedgerTx) db db' : Forall2 (stands_for pass lcm envs) (TxProcessing lcm) txs -> ledger_closes lcm db db' ->
  exists ls, groups lcm txs = Ok <$> ls /\ Compactor.steps db (concat ls) db'.
Proof.
  intros Htxs (metas & db1 & db2 & db3 & Hfee & Hmap & Hmeta & Hev & Hup).
  apply raw_steps_changes in Hfee as (lf & Hlf & Hfee). apply raw_steps_changes in Hmeta as (lm & Hlm & Hmeta).
  apply raw_steps_changes in Hup as (lu & Hlu & Hup). apply evictions_read in Hev as (le & Hle & Hev).
  destruct (metas_read pass lcm envs _ txs Htxs metas lm Hmap Hlm) as (lss & Hlss & Hc).
  exists (lf ++ lss ++ le :: lu). unfold groups, upgrades. rewrite (fees_read pass lcm envs _ txs Htxs lf Hlf), Hlss, Hle, (upgrades_read _ lu Hlu).
  split; [by rewrite !fmap_app|]. rewrite !concat_app. cbn [concat]. rewrite Hc.
  eapply steps_app; [done|]. eapply steps_app; [done|]. by eapply steps_app.
Qed.

(** C11: From the meta of a ledger to compacted changes: let the meta be that of a
    ledger which closes from one state to another, by the changes of the fees, of
    the transactions, of the evictions and of the upgrades.  Then the reader of
    changes returns changes that lead from the one state to the other, and then
    [io.EOF]; and compacting them gives changes with at most one for each entry
    that lead from the one state to the other as well. *)
Theorem ledger_changes_correct (pass : string) (lcm : LCM) (r : ChRdr) (order : list Change -> list Change) (db db' : ledger)
    (Hnew : NewLedgerChangeReaderFromLedgerCloseMeta pass lcm = Ok r) (Horder : forall l, order l ≡ₚ l) (Hclose : ledger_closes lcm db db') :
  exists l out, reads (S (length l)) r = (Ok <$> l) ++ [Err EOF] /\ Compactor.steps db l db' /\
    Compactor.drain (S (length l)) order (Compactor.NewCompactingChangeReader (Compactor.mkChangeReader l EOF)) = Ok out /\
    Compactor.steps db out db' /\ NoDup (Compactor.ledgerKey <$> out).
Proof.
  unfold NewLedgerChangeReaderFromLedgerCloseMeta, new_change_reader in Hnew. apply bind_Ok in Hnew as (tr & Htr & [= <-]).
  apply reader_transactions in Htr as (envs & txs & -> & Htxs). destruct (ledger_groups pass lcm envs txs db db' Htxs Hclose) as (ls & Hls & Hs).
  destruct (Compactor.compacted_changes order Horder db (concat ls) db' Hs) as (cache & Hloop & Hs' & Hnd & Hlen).
  exists (concat ls), (Compactor.GetChanges order cache). split; [|split; [done|split; [by apply Compactor.drain_compact|done]]].
  assert (Hwf : reader_wf (mkChangeReader (mkTxReader lcm txs 0) feeChangesState [] 0 0)) by (apply new_reader_wf; rewrite Hls; apply all_Ok_no_panic).
  rewrite reads_spec by done. unfold remaining. cbn [pending pendingIndex drop fmap list_fmap app].
  change (left_groups _) with (groups lcm txs). rewrite Hls, read_groups_Ok, replicate_S. rewrite (take_app_ge (Ok <$> concat ls)) by (rewrite length_fmap; lia).
  f_equal. rewrite length_fmap. replace (S (length (concat ls)) - length (concat ls))%nat with 1%nat by lia. done.
Qed.

End Ledger.

End Proofs.
(** ** A small ledger *)

(** Two transactions, whose hashes are their sequence numbers; the set has them in
    another order than the results.  They pay fees and change an offer, which is then
    evicted, and an upgrade creates it again. *)
Module Demo.
Export TxProofs.TxProofs.
#[export] Instance seq_hashing : Transactions.TxHashing | 0 := {
  sha256 l := l;
  marshal_tx_payload id tx := Ok [Transactions.x_SeqNum tx];
  marshal_fee_bump_payload id _ fee _ := Ok [fee]
}.
Abbreviation demo_body := (fun _ : LedgerEntryType => Z).
Abbreviation DemoLCM := (CaptiveCore.LedgerCloseMeta (@LedgerCloseMetaV0 bool demo_body no_operations unit) (@LedgerCloseMetaV1 bool demo_body no_operations unit)).

Definition tx (n : Z) : Transactions.TransactionEnvelope :=
  Transactions.EnvTx (Transactions.mkV1Envelope
    (Transactions.mkXTransaction (Muxed.MEd25519 []) 100 n Transactions.PrecondNone Transactions.xMemoNone [] 0) []).

Definition change (a b : Z) : list (Compactor.LedgerEntryChange bool demo_body) := [Compactor.State (Compactor.offer a); Compactor.Updated (Compactor.offer b)].

Definition result (n a b c d : Z) : TransactionResultMeta :=
  mkResultMeta (mkResultPair [n] 0 tt) (change a b) (TxMetaV3 [] [mkOperationMeta (change c d)] []).

Definition lcm : DemoLCM :=
  CaptiveCore.MetaV1 (CaptiveCore.mkEntry [] (CaptiveCore.mkLedgerHeader 20 [] [] 5))
    (mkBodyV1 (Some [mkTransactionPhase (Some [mkTxSetComponent (Some [tx 8]); mkTxSetComponent (Some [tx 7])])])
       [result 7 10 9 8 5; result 8 9 8 5 4] [mkUpgradeEntryMeta [Compactor.Created (Compactor.offer 30)]] [] [Compactor.offer 4]).

Definition reader : LedgerChangeReader :=
  match NewLedgerChangeReaderFromLedgerCloseMeta "network" lcm with
  | Ok r => r
  | _ => mkChangeReader (mkTxReader lcm [] 0) feeChangesState [] 0 0
  end.

Lemma updates a b db' raws : raw_steps (Compactor.holds (Some (Compactor.offer b))) raws db' ->
  raw_steps (Compactor.holds (Some (Compactor.offer a))) (change a b :: raws) db'.
Proof.
  intros H. eapply raw_cons; [reflexivity| |exact H]. apply Compactor.holds_step; [by eexists|by eexists|by left|]. by constructor.
Qed.

Lemma skips db raws db' : raw_steps db raws db' -> raw_steps (ScVal := bool) (Body := demo_body) db ([] :: raws) db'.
Proof. intros H. eapply raw_cons; [reflexivity|by constructor|done]. Qed.

Lemma closes : ledger_closes lcm (Compactor.holds (Some (Compactor.offer 10))) (Compactor.holds (Some (Compactor.offer 30))).
Proof.
  exists [[[]; change 8 5; []]; [[]; change 5 4; []]], (Compactor.holds (Some (Compactor.offer 8))), (Compactor.holds (Some (Compactor.offer 4))),
    (Compactor.holds None). split_and!.
  - apply updates, updates. by constructor.
  - reflexivity.
  - apply skips, updates, skips, skips, updates, skips. by constructor.
  - apply Compactor.holds_step; [by eexists|done|by left|]. by constructor.
  - eapply raw_cons; [reflexivity| |by constructor]. apply Compactor.holds_step; [done|by eexists|by right|]. by constructor.
Qed.
End Demo.
Import Demo.

Lemma transaction_reader_exact_witness : TransactionEnvelopes lcm = Ok [tx 8; tx 7] /\
  exists r, NewLedgerTransactionReaderFromLedgerCloseMeta "network" lcm = Ok r.
Proof.
  split; [reflexivity|]. apply (transaction_reader_exact "network" lcm [tx 8; tx 7] eq_refl). split.
  - repeat (apply Forall_cons; split; [by eexists|]). by apply Forall_nil.
  - apply Forall_cons. split; [split; [by split|]; exists (tx 7); split; [by right; left|reflexivity]|].
    apply Forall_cons. split; [split; [by split|]; exists (tx 8); split; [by left|reflexivity]|]. by apply Forall_nil.
Defined.

Lemma change_reader_exact_witness : reads 6 reader =
  take 6 (read_groups (groups lcm (transactions (txReader reader))) ++ replicate 6 (Err EOF)).
Proof.
  apply (change_reader_exact "network" lcm reader 6).
  - reflexivity.
  - repeat (apply Forall_cons; split; [intros p H; vm_compute in H; discriminate H|]). apply Forall_nil. exact I.
Defined.

Lemma ledger_changes_correct_witness : exists l out, reads (S (length l)) reader = (Ok <$> l) ++ [Err EOF] /\
  Compactor.steps (Compactor.holds (Some (Compactor.offer 10))) l (Compactor.holds (Some (Compactor.offer 30))) /\
  Compactor.drain (S (length l)) id (Compactor.NewCompactingChangeReader (Compactor.mkChangeReader l EOF)) = Ok out /\
  Compactor.steps (Compactor.holds (Some (Compactor.offer 10))) out (Compactor.holds (Some (Compactor.offer 30))) /\
  NoDup (Compactor.ledgerKey <$> out).
Proof.
  apply (ledger_changes_correct "network" lcm reader id); [reflexivity|done|apply closes].
Defined.

End LedgerReaderProofs.
